(* ===== verification/_CoqProject ===== *)
-Q . S2P
Prelude.v
GoStrings.v
EnvLex.v
FilePath.v
EnvParse.v
DevDir.v
AppMeta.v
DevMode.v
AppMetaThms.v
AppMetaEvents.v
AppMetaFlow.v
WatchController.v
AppMetaSync.v
Helm.v
Dhcp.v
VpnStatus.v
VpnWatcher.v
Search.v
SearchCache.v
AppCache.v
Profile.v
PortForward.v
Config.v
ConfigLoad.v
DepWatchers.v
DevPod.v
DevPodThms.v
Webhook.v
DevWorkload.v
DevWorkloadThms.v
Mesh.v
MeshThms.v
Rbac.v
RbacThms.v
DevSpaces.v
DevSpacesThms.v
ControlPlane.v
ControlPlaneThms.v
AppInstall.v
AppInstallThms.v
