(* ===== verification/Prelude.v ===== *)
(** * Nocalhost: a verification development

    Nocalhost lets a developer work on a workload of a Kubernetes cluster from a
    local machine.  [nhctl] (under [src/internal/nhctl]) is its command line and
    its local daemon; [nocalhost-dep] an admission webhook in the cluster;
    [nocalhost-api] the server that hands out dev spaces, namespaces of clusters
    that users own, share and derive from one another.  This library models the
    parts of them that carry state or transform text, and proves what makes them
    correct; where the code does something else than it means to, the theorem says
    what it does.

    ** The program and the files

    - Templates ([envsubst]).  Configurations are templates with variables,
      defaults and includes.  [EnvLex] models the lexer ([parse/lex.go]): state
      functions on a lexer record, run with fuel and, equivalently, as a step
      relation.  [EnvParse] models environments, nodes, the parser and the
      rendering with its includes ([env.go], [node.go], [parse.go],
      [envsubst.go]).
    - Paths and files ([fp/filepath.go]): [FilePath].  Handles cache the content
      they read; the file system is a map.
    - Directory mapping ([dev_dir]): [DevDir].  Which local directory is
      associated with which workload, kept as YAML under one LevelDB key.
    - Application meta ([appmeta/application_meta.go], [base/svctype.go]):
      [AppMeta] has the struct, its encoding in a secret, the update loop,
      creation, dev mode and uninstall; [DevMode] the dev-mode state machine;
      [AppMetaThms] the theorems on the secret as a store.
    - Application watcher ([appmeta/application_dev_meta.go],
      [appmeta_manager]): [AppMetaEvents] has the events of a change of dev
      meta, the deck of a namespace, the event queue and the supervisor's reads
      and writes; [AppMetaFlow] follows a call from the command line to the
      daemon's queue.
    - VPN ([vpn/remote/dhcp.go], [daemon_handler]): [Dhcp] models the address
      leases, [VpnStatus] the texts that say who is connected and who redirects
      which workload ([set.go], [vpnstatushandler.go], the updates of
      [vpnhandler.go]), [VpnWatcher] the daemon's watchers that follow the config
      maps and share one connection ([vpnconfigmapwatcher.go]).
    - Watch controller ([watcher/commonWatcher.go] over client-go's work queue):
      [WatchController] is the loop every watcher runs in, as a step relation over
      informer reports, the queue, its delays and one worker; [AppMetaSync] puts
      the application watcher behind it, together with the other writers of its deck.
    - Helm ([appmeta_manager/helm*.go]): [Helm] models how the secrets and config
      maps of helm releases install and uninstall applications.
    - Resource cache ([resouce_cache]): [Search] models the supported resource
      types and the queries over the informers' stores ([search.go],
      [resource.go]), [SearchCache] the cache of searchers with its concurrent
      callers, and [AppCache] the application names of a namespace
      ([appcache.go]).
    - Profiles ([profile], [nocalhost], [controller]): [Profile] models what is
      kept on disk of an application, its LevelDB and marker files, and opening an
      application ([app/application.go]).
    - Port-forwards ([daemon_server/portforward_manager.go]): [PortForward] has the
      table, the goroutines with their rounds, and the recovery; a start is three
      steps that other commands can come between, since the table has no lock.
    - Configuration ([profile/config_v*.go], [app/config_converter.go],
      [config_validate]): [Config]; [ConfigLoad] renders and loads one
      ([app/build.go], [app/application.go]).
    - Dev mode ([controller]): [DevPod] models what dev mode does to a pod: the
      development container, the sidecar, volumes, claims for persistent
      directories, resources, the mesh sidecar, and finding the pod once it runs
      ([dev_start.go], [config.go], [duplicate.go], [clientgoutils/pvc.go]).
      [DevWorkload] models what it does to a workload: the table of actions per
      kind, manifests kept in annotations, replace and duplicate mode of workloads
      and of bare pods, rolling back, the dev-mode count and the objects of the
      mesh manager ([service.go], [unstructured.go], the pod controllers,
      [nocalhost/svc_type.go]).  [DevPodThms] and [DevWorkloadThms] have the
      theorems.
    - Dependency webhook ([src/internal/nocalhost-dep]): [DepWatchers] has the
      caches of service accounts and config maps, [Webhook] the admission of
      requests, the JSON patch it answers with and what applying it does.
    - Mesh dev spaces ([src/pkg/nocalhost-api/pkg/setupcluster] and its [meshmanager]
      files): [Mesh] models how the workloads of a base dev space are copied to
      another with what they need, how requests with a tracing header are routed to
      the copies, updating and rolling back, the listing of applications and the
      cache of informers; [MeshThms] has the theorems.
    - Sharing ([src/pkg/nocalhost-api/pkg/clientgo/client.go] and the services and
      watchers of role bindings under [src/internal/nocalhost-api/service]): [Rbac]
      models how users become owners, cooperators and viewers of namespaces and
      clusters, how the role bindings are watched, and the goroutines that create
      the roles; [RbacThms] has the theorems.
    - Dev spaces ([src/pkg/nocalhost-api/app/api/v1/cluster_user] with its model,
      repository and service, and the permission middleware): [DevSpaces] models the
      table of dev spaces, their limits, who sees and may change which, and the
      handlers that create, share, reset, limit, rename and delete them;
      [DevSpacesThms] has the theorems.
    - Mesh control plane ([src/internal/nocalhost-control-plane]): [ControlPlane]
      models how the annotated pods of a namespace become the listeners, routes,
      clusters and endpoints of the Envoy sidecars, with what it uses of the vendored
      [go-control-plane] and the handlers of its informer; [ControlPlaneThms] has the
      theorems.
    - Installing and upgrading ([app/install.go], [upgrade.go], [hook.go], [get.go],
      [env.go] and [clientgoutils/resource*.go], [apply.go]): [AppInstall] models the
      files of a manifest, hooks, manifests, kustomize and helm, with what is
      recorded in the application's secret and in which order; [AppInstallThms] has
      the theorems.

    The parts interact as in the program: [DevDir] reads kubeconfigs through
    [FilePath]; [EnvParse] consumes the tokens of [EnvLex] and resolves includes
    with [FilePath]; [AppMeta] describes a workload with the cache of [DevDir];
    [AppMetaEvents] and [Helm] decode and write secrets with [AppMeta];
    [VpnStatus] and [VpnWatcher] read the texts [Dhcp] defines the format of;
    [PortForward] keeps its records with [Profile] and finds pods among the
    objects of [Search]; [Config] starts port-forwards with [PortForward];
    [ConfigLoad] renders templates with [EnvParse]; the watchers of [DepWatchers]
    run in the controller of [WatchController], and [Webhook] asks them and
    [ConfigLoad]; [DevPod] reads the configuration of [Config], and [DevWorkload]
    puts its pods into JSON objects with the pointers and patches of [Webhook]; the
    watchers of [Rbac] run in the controller of [WatchController]; [DevSpaces]
    changes role bindings with [Rbac], asks the sets its watchers keep, and calls
    the mesh manager, whose answers are a parameter there; [ControlPlane] reads the
    annotations that [DevPod] puts on the pods of a developer and of the original
    workload; [AppInstall] reads [Config], records with [AppMeta] and is undone by its
    uninstall.

    ** How the code is modelled

    A Go string is the list of its bytes ([gostring]); [GoStrings] has what is
    used of [strings], [strconv], [unicode] and [unicode/utf8], with UTF-8 as the
    language decodes it.  A struct is a record, a Go map a [gmap]; ranging over a
    map goes through an arbitrary enumeration ([MapOrder]), so that theorems hold
    for every iteration order.  Errors are [res], panics and loops [outcome].
    Integers are [Z], with the wrap-around of [uint32] and the range of [int64]
    where they matter.  Code outside the repository is a parameter: YAML, JSON
    and xz are codecs with a round-trip law, the API server is a state with
    operations and, where a theorem needs it, the documented laws of resource
    versions; quantities, pods as JSON, and the calls of the dev controller are
    classes with a state of their own; every such class has a concrete instance the witnesses use.
    Goroutines appear where their interleaving matters: the lexer as a run to the
    end; the event queue, the watch controller, the searcher cache and the
    port-forward manager as step relations whose steps are the parts the code's
    locks and channels separate.  Pointers that are shared and overwritten are
    indices into cells ([DepWatchers]).  A run of the mesh manager is a tree of
    calls that the cluster answers, its goroutines interleaved by a schedule, so
    that the theorems hold for every answer and every interleaving; the goroutines
    that create roles are a step relation.  Requests of the API server's services
    fail where a list of faults says so, the queries of its database and the writes
    apart: a theorem for every list is one for every failure; how the database compares
    texts is a parameter; and invariants of the handlers are proved as triples of a state and
    error monad; so are those of an installation, whose effects are kept in a log.

    Fuel: the lexer is given more steps than its measure (bytes left and state)
    allows, and [lex_tiles_input] shows that it ends; [Parse] recurses on
    includes, and its depth is bounded by the number of files, since a file that
    is being included is not entered again; the parser's own loop has no such
    bound on texts whose substitutions the lexer leaves open, which
    [parse_diverges] shows.  The search for an object's application and
    [GetTopController] follow owner references: [query_listing] shows that a listing
    ends exactly when no chain of owners goes on for ever, and [query_owner_cycle]
    that a cycle exhausts any fuel.

    ** What the theorems show

    - Templates: the lexer ends and its tokens tile the input; rendering ends
      when the lexer closes every substitution, and panics only on an include
      directive that is rejected; escaping any text and rendering it gives the text
      after a marker line, which the repository's own tests do not expect; the value
      of each substitution operator; circular includes are found exactly.
    - Directory mapping: keys and packs round-trip; association, look-up and
      removal agree; the keys stay well-formed.
    - Application meta: writing and decoding the secret is a round trip; an
      update is stored whatever else was written, and what that loses; the dev
      meta implements a three-state machine for every sequence of calls; the
      ten-second protection after an uninstall.
    - Watcher: the events of a change, resource by resource; replaying the queue
      gives the deck; the queue is safe with one consumer and not with two.
    - Controller: it comes to rest once the cluster does, every key's last call
      being with its current object; each application of the deck then is as its last
      writer left it, which for the controller is what its secret decodes to.
    - Helm: release names round-trip through keys; a deployed release becomes an
      installed application.
    - Resource cache: when a query returns and what it lists; the table of types is consistent; no
      searcher is leaked and at most twenty run; names follow the objects.
    - Profiles and port-forwards: updates are read back and touch nothing else;
      recovery finds and starts all port-forwards on record; what the table lists can
      be stopped in every interleaving, and it lists every goroutine as long as
      starts for the same ports do not overlap; start and stop are inverse.
    - Configuration: look-up after replacement, the rules, and that a validated
      configuration starts all its port-forwards; which service of a rendered
      document is found, and which of several values of a variable.
    - Dev mode: what happens to each container, volume and mount of a pod, and that
      the pod stays well formed; the two containers share the working directory;
      claims are used again; leaving replace mode restores the workload after any
      success or failure of entering it, or is refused by the server; the count goes up and down; which pod is
      found; how a bare pod is restored, and how it is lost.
    - Webhook: the patch applies and adds exactly what it should, for cron jobs only
      when there is nothing to add; when a quota request is denied; what concurrent requests share; the
      caches once the controller is at rest, and what is never removed from them.
    - Mesh: what is written and deleted, and where, at every point of every
      interleaving; every config map and secret a pod names is applied before it; which
      workloads are
      copied and removed; routes with and without the header, and their removal;
      informers are not leaked, except those for all namespaces.
    - Sharing: any sequence of sharing calls implements the access of each user to
      each namespace, at most one at a time; what the watchers answer once at rest
      is what was shared; which errors are reported, hidden or lost.
    - Dev spaces: what a user's listing shows, in which order; nobody changes a dev
      space without the right to, except through the id 0; ids, names and namespaces
      stay unique through every sequence of calls and failures, failing queries and
      renaming apart.
    - Control plane: where each sidecar sends a request, by its header; every
      snapshot is consistent; a resync repairs every mesh, up to what the names of
      clusters confuse; and, with [DevPod], that
      requests with the header given to dev mode reach the developer's pods.
    - Installing: at every point the secret accounts for what is in the cluster, so
      that uninstalling with it asks for all of it to be removed; what an upgrade
      deletes and applies, and in which order; which files a manifest is made of.
    - VPN: leases round-trip through the JSON patch, rented addresses are fresh
      and exclusive, and releasing forgets them; through every sequence of the events
      of all watchers the connection is to a config map that lists this machine, or to
      none, and each status follows its config map and keeps measured health.

    ** Not modelled

    Client-go calls, sockets, processes and the file system's directories are I/O:
    the daemon's server and client, the VPN's tunnel and [HandleVPNOperate], which
    opens its connections, file synchronisation (an external program), terminals and
    file transfer of the dev controller, and the watchers that report on a pod while
    it starts.  [BuildApplication] and [PrepareForUpgrade] compose downloads and clients
    with the functions of [ConfigLoad] and [Profile].  Of the API server, the database, authentication,
    migrations and the handlers of users, clusters and applications are access to
    rows and HTTP; the import of namespaces repeats the calls of [DevSpaces].  The
    YAML codec ([custom_yaml_v3]) is a fork of a library and a parameter. *)

From stdpp Require Export base list gmap strings sets.
From Stdlib Require Export ZArith Lia Ascii.
From Stdlib Require String.
#[export] Set Default Goal Selector "!".

(** ** Go values *)

(** A Go [string] (and a [[]byte]) is a sequence of bytes; it is kept as the
    list of its bytes so that slicing, prefixes and concatenation are those of
    lists.  [go "..."] writes a literal. *)
Abbreviation gostring := (list ascii).

Definition go (s : string) : gostring := String.list_ascii_of_string s.
Arguments go s%_string : simpl never.

(** [s[a:b]] for [0 <= a <= b <= len(s)].  The components that slice prove
    these bounds where the code relies on them. *)
Definition slice {A} (s : list A) (a b : nat) : list A := take (b - a) (drop a s).

(** A byte as the integer it is. *)
Definition byte_val (a : ascii) : Z := Z.of_N (N_of_ascii a).

(** The range of Go's [int64], which is also its [int] on the 64-bit targets
    nhctl is built for. *)
Definition int64_min : Z := (-9223372036854775808)%Z.
Definition int64_max : Z := 9223372036854775807%Z.
Definition in_int64 (z : Z) : bool := ((int64_min <=? z) && (z <=? int64_max))%Z.

(** Unsigned wrap-around at 32 bits. *)
Definition wrap32 (z : Z) : Z := (z mod 4294967296)%Z.

(** ** Fallible code *)

(** The pair [(value, error)] that fallible Go code returns, when only one of
    the two is meaningful. *)
Inductive res (E A : Type) : Type :=
  | Ok (a : A)
  | Err (e : E).
Arguments Ok {E A} a.
Arguments Err {E A} e.

(** What a call does when the code can also panic or loop: [Fuel] is the answer
    of a loop that was not given enough iterations. *)
Inductive outcome (A : Type) : Type :=
  | Done (a : A)
  | Panic
  | Fuel.
Arguments Done {A} a.
Arguments Panic {A}.
Arguments Fuel {A}.

Declare Scope go_scope.
Delimit Scope go_scope with go.

Notation "x <-! c1 ; c2" :=
  (match c1 with Ok x => c2 | Err e => Err e end)
  (at level 100, c1 at next level, right associativity) : go_scope.

Notation "x <~ c1 ; c2" :=
  (match c1 with Done x => c2 | Panic => Panic | Fuel => Fuel end)
  (at level 100, c1 at next level, right associativity) : go_scope.

(** ** Go's unspecified map iteration order

    [range] over a Go map visits every entry once, in an order the language
    leaves open.  Code that ranges over a map is modelled over an arbitrary
    enumeration; its theorems hold for every one. *)
Class MapOrder (K : Type) `{Countable K} := {
  range : forall {V : Type}, gmap K V -> list (K * V);
  range_perm : forall {V : Type} (m : gmap K V), range m ≡ₚ map_to_list m
}.

(** The enumeration stdpp computes, used to run the model on concrete inputs. *)
#[export] Instance map_to_list_order (K : Type) `{Countable K} : MapOrder K | 100 := {
  range := fun V m => map_to_list m;
  range_perm := fun V m => reflexivity _
}.

(** ** Tactics *)

(** Split the next [match] of the goal or of a hypothesis, keeping the equation,
    and simplify: the case analysis of code written as nested [match]es. *)
Ltac go_case := case_match; simplify_eq/=.
Ltac go_cases := repeat go_case.

Create HintDb nh.
Create Rewrite HintDb nh_slice.

(** ** Lists *)

Section lists.
Context {A : Type}.
Implicit Types l k : list A.

Lemma slice_all l : slice l 0 (length l) = l.
Proof. unfold slice. rewrite drop_0, Nat.sub_0_r. apply take_ge. lia. Qed.

Lemma slice_nil l a : slice l a a = [].
Proof. unfold slice. by rewrite Nat.sub_diag, take_0. Qed.

Lemma length_slice l a b : b <= length l -> length (slice l a b) = b - a.
Proof. intros ?. unfold slice. rewrite length_take, length_drop. lia. Qed.

Lemma slice_app l a b c :
  a <= b -> b <= c -> slice l a b ++ slice l b c = slice l a c.
Proof.
  intros Hab Hbc. unfold slice.
  replace (drop b l) with (drop (b - a) (drop a l))
    by (rewrite drop_drop; f_equal; lia).
  replace (c - a) with ((b - a) + (c - b)) by lia.
  apply take_take_drop.
Qed.
End lists.

(** ** Ranging over a map *)

Section range.
Context `{MapOrder K}.

Lemma elem_of_range {V} (m : gmap K V) k v : (k, v) ∈ range m <-> m !! k = Some v.
Proof. rewrite range_perm. apply elem_of_map_to_list. Qed.

Lemma NoDup_range_fst {V} (m : gmap K V) : NoDup (range m).*1.
Proof. rewrite range_perm. apply NoDup_fst_map_to_list. Qed.

(** Only one entry of a map is under a given key. *)
Lemma bind_one {V B} (l : list (K * V)) k (h : V -> list B) :
  NoDup l.*1 ->
  (l ≫= fun '(k', v) => if decide (k' = k) then h v else []) =
  from_option (fun kv => h (snd kv)) [] (List.find (fun kv => bool_decide (fst kv = k)) l).
Proof.
  induction l as [|[k' v] l IH]; [done|]. intros [Hk Hnd]%NoDup_cons. cbn.
  destruct (decide (k' = k)) as [->|Hne].
  - rewrite bool_decide_eq_true_2 by done. simpl. rewrite <- (app_nil_r (h v)) at 2. f_equal.
    clear IH Hnd. induction l as [|[k' v'] l IH]; [done|]. cbn. simpl in Hk.
    rewrite decide_False; [apply IH; set_solver|set_solver].
  - rewrite bool_decide_eq_false_2 by done. by apply IH.
Qed.

Lemma find_range {V} (m : gmap K V) k :
  List.find (fun kv => bool_decide (fst kv = k)) (range m) = (fun v => (k, v)) <$> m !! k.
Proof.
  destruct (List.find _ _) as [[k' v]|] eqn:E.
  - apply List.find_some in E as [Hin Hk]. apply bool_decide_eq_true_1 in Hk. simpl in Hk. subst k'.
    apply list_elem_of_In, elem_of_range in Hin. by rewrite Hin.
  - destruct (m !! k) as [v|] eqn:Hm; [|done]. exfalso. apply elem_of_range, list_elem_of_In in Hm.
    apply (List.find_none _ _ E) in Hm. by rewrite bool_decide_eq_true_2 in Hm.
Qed.

(** Inserting the entries of a list one after another. *)
Lemma foldl_insert_lookup {V W} (g : V -> W) (l : list (K * V)) (acc : gmap K W) k :
  NoDup l.*1 ->
  foldl (fun r '(k, v) => <[k := g v]> r) acc l !! k =
  match List.find (fun kv => bool_decide (fst kv = k)) l with
  | Some (_, v) => Some (g v)
  | None => acc !! k
  end.
Proof.
  revert acc. induction l as [|[k' v] l IH]; intros acc; [done|]. intros [Hk Hnd]%NoDup_cons. cbn.
  rewrite IH by done. case_bool_decide as E.
  - subst k'. destruct (List.find _ l) as [[k'' v']|] eqn:Ef; [|by rewrite lookup_insert_eq].
    apply List.find_some in Ef as [Hin Hb]. apply bool_decide_eq_true_1 in Hb. simpl in Hb. subst k''.
    destruct Hk. apply list_elem_of_fmap. exists (k, v'). split; [done|]. by apply list_elem_of_In.
  - destruct (List.find _ l) as [[]|]; [done|]. by rewrite lookup_insert_ne.
Qed.

Lemma foldl_insert_range_f {V W} (g : V -> W) (m : gmap K V) :
  foldl (fun r '(k, v) => <[k := g v]> r) ∅ (range m) = g <$> m.
Proof.
  apply map_eq. intros k. rewrite foldl_insert_lookup by apply NoDup_range_fst.
  rewrite find_range, lookup_fmap. destruct (m !! k); simpl; [done|apply lookup_empty].
Qed.

Lemma foldl_insert_range {V} (m : gmap K V) :
  foldl (fun r '(k, v) => <[k := v]> r) ∅ (range m) = m.
Proof. rewrite (foldl_insert_range_f (fun v => v)). apply map_fmap_id. Qed.

(** A loop over a map whose body changes only the entry it is at. *)
Lemma foldl_range_pointwise {V W} (g : K -> V -> option W -> option W)
    (step : gmap K W -> K * V -> gmap K W) (acc : gmap K W) (m : gmap K V) k :
  (forall acc k v, step acc (k, v) !! k = g k v (acc !! k)) ->
  (forall acc k v k', k' <> k -> step acc (k, v) !! k' = acc !! k') ->
  foldl step acc (range m) !! k =
  match m !! k with Some v => g k v (acc !! k) | None => acc !! k end.
Proof.
  intros Hat Hoff.
  transitivity (match List.find (fun kv => bool_decide (fst kv = k)) (range m) with
                | Some (_, v) => g k v (acc !! k) | None => acc !! k end).
  2:{ rewrite find_range. by destruct (m !! k). }
  pose proof (NoDup_range_fst m) as Hnd. revert acc Hnd.
  induction (range m) as [|[k' v] l IH]; intros acc Hnd; [done|].
  apply NoDup_cons in Hnd as [Hk Hnd]. cbn. rewrite IH by done. case_bool_decide as E.
  - subst k'. destruct (List.find _ l) as [[k'' v']|] eqn:Ef; [|apply Hat].
    apply List.find_some in Ef as [Hin Hb]. apply bool_decide_eq_true_1 in Hb. simpl in Hb. subst k''.
    destruct Hk. apply list_elem_of_fmap. exists (k, v'). split; [done|]. by apply list_elem_of_In.
  - rewrite Hoff by done. done.
Qed.

Lemma bind_range_one {V B} (m : gmap K V) k (h : V -> list B) :
  (range m ≫= fun '(k', v) => if decide (k' = k) then h v else []) = from_option h [] (m !! k).
Proof. rewrite bind_one by apply NoDup_range_fst. rewrite find_range. by destruct (m !! k). Qed.
End range.

Lemma filter_bind {A B : Type} (P : B -> Prop) `{!forall x, Decision (P x)} (f : A -> list B) l :
  filter P (l ≫= f) = l ≫= fun x => filter P (f x).
Proof. induction l as [|x l IH]; [done|]. cbn. by rewrite filter_app, IH. Qed.

Lemma filter_all {A : Type} (P : A -> Prop) `{!forall x, Decision (P x)} (l : list A) :
  (forall x, x ∈ l -> P x) -> filter P l = l.
Proof.
  induction l as [|x l IH]; intros Hl; [done|].
  rewrite filter_cons_True by (apply Hl; set_solver). rewrite IH; [done|set_solver].
Qed.

Lemma filter_none {A : Type} (P : A -> Prop) `{!forall x, Decision (P x)} (l : list A) :
  (forall x, x ∈ l -> ~ P x) -> filter P l = [].
Proof.
  induction l as [|x l IH]; intros Hl; [done|].
  rewrite filter_cons_False by (apply Hl; set_solver). apply IH. set_solver.
Qed.

Lemma bind_cons {A B : Type} (f : A -> list B) x l : (x :: l) ≫= f = f x ++ (l ≫= f).
Proof. done. Qed.

Lemma foldl_app_bind {A B : Type} (l : list A) (g : A -> list B) r :
  foldl (fun r x => r ++ g x) r l = r ++ (l ≫= g).
Proof.
  revert r. induction l as [|x l IH]; intros r; cbn; [by rewrite app_nil_r|].
  by rewrite IH, <- app_assoc.
Qed.

Lemma foldl_ext' {A B : Type} (f g : B -> A -> B) l r :
  (forall r x, f r x = g r x) -> foldl f r l = foldl g r l.
Proof. intros Hfg. revert r. induction l as [|x l IH]; intros r; cbn; [done|]. by rewrite Hfg, IH. Qed.

#[export] Hint Rewrite @slice_all @slice_nil : nh_slice.

(** ** A concrete codec

    The serialisers the program calls (YAML, JSON, gob, xz) are parameters with
    a round-trip law.  Every countable type has such a codec, which is what the
    witnesses instantiate the laws with. *)

Fixpoint pos_text (p : positive) : gostring :=
  match p with
  | xH => go "."
  | xO q => "0"%char :: pos_text q
  | xI q => "1"%char :: pos_text q
  end.

Fixpoint text_pos (s : gostring) : option positive :=
  match s with
  | "."%char :: [] => Some xH
  | "0"%char :: s => xO <$> text_pos s
  | "1"%char :: s => xI <$> text_pos s
  | _ => None
  end.

Lemma text_pos_text p : text_pos (pos_text p) = Some p.
Proof. induction p as [p IH|p IH|]; simpl; [by rewrite IH|by rewrite IH|done]. Qed.

Definition to_text `{Countable A} (a : A) : gostring := pos_text (encode a).

Definition of_text `{Countable A} (s : gostring) : option A := text_pos s ≫= decode.

Lemma of_to_text `{Countable A} (a : A) : of_text (to_text a) = Some a.
Proof. unfold of_text, to_text. rewrite text_pos_text. apply decode_encode. Qed.

Lemma to_text_nonempty `{Countable A} (a : A) : to_text a <> [].
Proof. unfold to_text. by destruct (encode a). Qed.
