(* ===== verification/GoStrings.v ===== *)
(** * The parts of Go's standard library the program uses on strings

    [strings.HasPrefix], [Index], [LastIndex], [Split], [Join], [ReplaceAll],
    [TrimSpace], ... of package [strings], [strconv.Itoa] and [strconv.Atoi],
    and the decoder of package [unicode/utf8], written after their documented
    behaviour, with the lemmas the components share.  [Split], [Count] and
    [ReplaceAll] are only defined for a non-empty separator: every call of the
    program passes a non-empty constant. *)

From S2P Require Import Prelude.

(** ** Prefixes and suffixes *)

Fixpoint HasPrefix (s p : gostring) {struct p} : bool :=
  match p, s with
  | [], _ => true
  | c :: p', d :: s' => bool_decide (c = d) && HasPrefix s' p'
  | _ :: _, [] => false
  end.

Definition HasSuffix (s p : gostring) : bool :=
  (length p <=? length s) && bool_decide (drop (length s - length p) s = p).

Definition TrimPrefix (s p : gostring) : gostring :=
  if HasPrefix s p then drop (length p) s else s.

Lemma HasPrefix_spec s p : HasPrefix s p = true <-> exists k, s = p ++ k.
Proof.
  revert s. induction p as [|c p IH]; intros s; simpl.
  { split; [by intros _; exists s|done]. }
  destruct s as [|d s]; [split; [done|by intros [? ?]]|].
  rewrite andb_true_iff, bool_decide_eq_true, IH. split.
  - by intros [-> [k ->]]; exists k.
  - by intros [k [= -> ->]]; eauto.
Qed.

Lemma HasPrefix_app p k : HasPrefix (p ++ k) p = true.
Proof. apply HasPrefix_spec. by exists k. Qed.

Lemma HasPrefix_length s p : HasPrefix s p = true -> length p <= length s.
Proof. intros [k ->]%HasPrefix_spec. rewrite length_app. lia. Qed.

Lemma HasPrefix_take s p :
  HasPrefix s p = true <-> take (length p) s = p.
Proof.
  rewrite HasPrefix_spec. split.
  - intros [k ->]. apply take_app_length.
  - intros H. exists (drop (length p) s). rewrite <- H at 1. symmetry. apply take_drop.
Qed.

Lemma TrimPrefix_app p k : TrimPrefix (p ++ k) p = k.
Proof. unfold TrimPrefix. by rewrite HasPrefix_app, drop_app_length. Qed.

Lemma HasSuffix_app s p : HasSuffix (s ++ p) p = true.
Proof.
  unfold HasSuffix. rewrite length_app, andb_true_iff, bool_decide_eq_true. split.
  - apply Nat.leb_le. lia.
  - replace (length s + length p - length p) with (length s) by lia.
    apply drop_app_length.
Qed.

Lemma HasSuffix_spec s p : HasSuffix s p = true <-> exists k, s = k ++ p.
Proof.
  split; [|intros [k ->]; apply HasSuffix_app].
  unfold HasSuffix. rewrite andb_true_iff, bool_decide_eq_true.
  intros [_ H]. exists (take (length s - length p) s). rewrite <- H at 2.
  symmetry. apply take_drop.
Qed.

(** ** Searching *)

(** The first position where [sep] occurs in [s]. *)
Fixpoint Index (s sep : gostring) : option nat :=
  if HasPrefix s sep then Some 0
  else match s with
       | [] => None
       | _ :: s' => S <$> Index s' sep
       end.

(** The last position where [sep] occurs in [s]. *)
Fixpoint LastIndex (s sep : gostring) : option nat :=
  match s with
  | [] => if HasPrefix s sep then Some 0 else None
  | _ :: s' =>
      match LastIndex s' sep with
      | Some i => Some (S i)
      | None => if HasPrefix s sep then Some 0 else None
      end
  end.

Definition Contains (s sep : gostring) : bool := bool_decide (is_Some (Index s sep)).

Lemma Index_cons c s sep :
  Index (c :: s) sep = if HasPrefix (c :: s) sep then Some 0 else S <$> Index s sep.
Proof. done. Qed.

Lemma LastIndex_cons c s sep :
  LastIndex (c :: s) sep =
  match LastIndex s sep with
  | Some i => Some (S i)
  | None => if HasPrefix (c :: s) sep then Some 0 else None
  end.
Proof. done. Qed.

Lemma Index_Some s sep i :
  Index s sep = Some i ->
  HasPrefix (drop i s) sep = true /\ i + length sep <= length s /\
  forall j, j < i -> HasPrefix (drop j s) sep = false.
Proof.
  revert i. induction s as [|c s IH]; intros i; simpl.
  - destruct (HasPrefix [] sep) eqn:E; [|done]. intros [= <-].
    apply HasPrefix_length in E as El. split; [done|]. simpl in *. split; [lia|lia].
  - destruct (HasPrefix (c :: s) sep) eqn:E.
    + intros [= <-]. apply HasPrefix_length in E as El. split; [done|]. simpl in *. split; lia.
    + destruct (Index s sep) as [k|]; [|done]. intros [= <-].
      destruct (IH k eq_refl) as (H1 & H2 & H3). simpl. split; [done|]. split; [lia|].
      intros [|j] Hj; [done|]. apply H3. lia.
Qed.

Lemma Index_None s sep :
  Index s sep = None <-> forall j, j <= length s -> HasPrefix (drop j s) sep = false.
Proof.
  induction s as [|c s IH]; simpl.
  - destruct (HasPrefix [] sep) eqn:E; split; [done| |by intros _ [|j] ?|done].
    intros H. specialize (H 0 (Nat.le_refl _)). simpl in H. congruence.
  - destruct (HasPrefix (c :: s) sep) eqn:E.
    + split; [done|]. intros H. specialize (H 0 ltac:(lia)). simpl in H. congruence.
    + rewrite fmap_None, IH. split.
      * intros H [|j] Hj; [done|]. apply H. lia.
      * intros H j Hj. apply (H (S j)). lia.
Qed.

(** The first occurrence is determined by its position and the absence of an
    earlier one. *)
Lemma Index_first s sep i :
  HasPrefix (drop i s) sep = true -> i <= length s ->
  (forall j, j < i -> HasPrefix (drop j s) sep = false) ->
  Index s sep = Some i.
Proof.
  intros Hi Hlen Hlt. destruct (Index s sep) as [k|] eqn:E.
  - destruct (Index_Some _ _ _ E) as (Hk & _ & Hkl). f_equal.
    destruct (Nat.lt_trichotomy k i) as [H|[H|H]]; [|done|].
    + rewrite (Hlt k H) in Hk. done.
    + rewrite (Hkl i H) in Hi. done.
  - rewrite Index_None in E. rewrite (E i Hlen) in Hi. done.
Qed.

(** ** Splitting and joining *)

(** [Split] cuts at every non-overlapping occurrence of [sep], from the left.
    Each cut consumes at least the separator, so [length s] cuts are enough. *)
Fixpoint split_fuel (fuel : nat) (s sep : gostring) : list gostring :=
  match fuel with
  | 0 => [s]
  | S fuel =>
      match Index s sep with
      | None => [s]
      | Some i => take i s :: split_fuel fuel (drop (i + length sep) s) sep
      end
  end.

Definition Split (s sep : gostring) : list gostring := split_fuel (length s) s sep.

Fixpoint Join (l : list gostring) (sep : gostring) : gostring :=
  match l with
  | [] => []
  | [x] => x
  | x :: l' => x ++ sep ++ Join l' sep
  end.

Definition Count (s sep : gostring) : nat := length (Split s sep) - 1.

(** [strings.ReplaceAll]: the pieces between the occurrences of [old], with
    [new] between them. *)
Definition ReplaceAll (s old new : gostring) : gostring := Join (Split s old) new.

Lemma split_fuel_enough sep s n :
  sep <> [] -> length s <= n -> split_fuel n s sep = Split s sep.
Proof.
  intros Hsep. unfold Split.
  remember (length s) as m eqn:Hm. revert s m n Hm.
  induction s as [s IH] using (induction_ltof1 _ length); unfold ltof in IH.
  intros m n -> Hn.
  destruct (decide (length s = 0)) as [H0|H0].
  { apply nil_length_inv in H0 as ->. destruct n; simpl; [done|].
    by destruct sep. }
  destruct n as [|n]; [lia|]. destruct (length s) as [|m] eqn:Hm; [done|]. simpl.
  destruct (Index s sep) as [i|] eqn:E; [|done]. f_equal.
  destruct (Index_Some _ _ _ E) as (_ & Hi & _).
  assert (1 <= length sep) by (destruct sep; simpl in *; [done|lia]).
  set (t := drop (i + length sep) s).
  assert (length t < length s) as Ht by (subst t; rewrite length_drop; lia).
  rewrite (IH t ltac:(lia) _ n eq_refl) by lia.
  by rewrite (IH t ltac:(lia) _ m eq_refl) by lia.
Qed.

(** The defining equation of [Split]. *)
Lemma Split_eq s sep :
  sep <> [] ->
  Split s sep =
  match Index s sep with
  | None => [s]
  | Some i => take i s :: Split (drop (i + length sep) s) sep
  end.
Proof.
  intros Hsep. rewrite <- (split_fuel_enough sep s (S (length s))) by (done || lia). simpl.
  destruct (Index s sep) as [i|]; [|done]. f_equal.
  apply split_fuel_enough; [done|]. rewrite length_drop. lia.
Qed.

Lemma Split_ind_len (P : gostring -> Prop) :
  (forall s, (forall t, length t < length s -> P t) -> P s) -> forall s, P s.
Proof. intros H s. induction s using (induction_ltof1 _ length). by apply H. Qed.

Lemma Split_nonempty s sep : sep <> [] -> Split s sep <> [].
Proof. intros H. rewrite Split_eq by done. by destruct (Index s sep). Qed.

Lemma Join_cons x l sep : l <> [] -> Join (x :: l) sep = x ++ sep ++ Join l sep.
Proof. by destruct l. Qed.

(** Joining the pieces with the separator gives the string back. *)
Lemma Join_Split s sep : sep <> [] -> Join (Split s sep) sep = s.
Proof.
  intros Hsep. induction s as [s IH] using Split_ind_len. rewrite Split_eq by done.
  destruct (Index s sep) as [i|] eqn:E; [|done].
  destruct (Index_Some _ _ _ E) as (Hp & Hi & _).
  assert (1 <= length sep) by (destruct sep; simpl in *; [done|lia]).
  rewrite Join_cons by (by apply Split_nonempty).
  rewrite IH by (rewrite length_drop; lia).
  apply HasPrefix_take in Hp. rewrite <- Hp at 1.
  rewrite <- drop_drop, take_drop. apply take_drop.
Qed.

(** A piece that can be followed by the separator without the separator
    occurring earlier. *)
Definition piece_ok (sep p : gostring) : Prop := Index (p ++ sep) sep = Some (length p).

(** The occurrence at the end of [p ++ sep] stays the first one whatever
    follows. *)
Lemma Index_piece p sep rest :
  piece_ok sep p -> Index (p ++ sep ++ rest) sep = Some (length p).
Proof.
  intros H. apply Index_Some in H as (_ & _ & H).
  apply Index_first.
  - rewrite drop_app_length. apply HasPrefix_app.
  - rewrite !length_app. lia.
  - intros j Hj. specialize (H j Hj).
    destruct (HasPrefix (drop j (p ++ sep ++ rest)) sep) eqn:E; [|done].
    rewrite <- H. symmetry. apply HasPrefix_take. apply HasPrefix_take in E.
    rewrite app_assoc, drop_app_le in E by (rewrite length_app; lia).
    by rewrite take_app_le in E by (rewrite length_drop, length_app; lia).
Qed.

Lemma Split_piece p sep rest :
  sep <> [] -> piece_ok sep p -> Split (p ++ sep ++ rest) sep = p :: Split rest sep.
Proof.
  intros Hsep Hp. rewrite Split_eq by done. rewrite (Index_piece _ _ _ Hp). f_equal.
  - apply take_app_length.
  - f_equal. rewrite app_assoc, <- length_app. apply drop_app_length.
Qed.

(** Splitting undoes joining when no piece hides a separator. *)
Lemma Split_Join l sep :
  sep <> [] -> l <> [] -> Forall (piece_ok sep) l ->
  (forall x, last l = Some x -> Index x sep = None) ->
  Split (Join l sep) sep = l.
Proof.
  intros Hsep Hl HF Hlast. induction HF as [|x l Hx HF IH]; [done|].
  destruct l as [|y l].
  - simpl. rewrite Split_eq by done. by rewrite Hlast.
  - rewrite Join_cons by done. rewrite Split_piece by done. f_equal.
    apply IH; [done|]. intros z Hz. apply Hlast. by rewrite last_cons, Hz.
Qed.

(** *** Separators of one byte *)

Lemma HasPrefix_single c s : HasPrefix s [c] = true <-> head s = Some c.
Proof.
  destruct s as [|d s]; simpl; [split; done|].
  rewrite andb_true_r, bool_decide_eq_true. naive_solver.
Qed.

Lemma Index_single_None c s : Index s [c] = None <-> c ∉ s.
Proof.
  rewrite Index_None. split.
  - intros H [i Hi]%list_elem_of_lookup_1.
    assert (HasPrefix (drop i s) [c] = true) as E.
    { apply HasPrefix_single. by rewrite (drop_S _ _ _ Hi). }
    rewrite H in E; [done|]. apply lookup_lt_Some in Hi. lia.
  - intros H j _. destruct (HasPrefix (drop j s) [c]) eqn:E; [|done].
    apply HasPrefix_single in E. destruct H.
    apply (subseteq_drop j). destruct (drop j s); simplify_eq/=. set_solver.
Qed.

Lemma piece_ok_single c p : c ∉ p -> piece_ok [c] p.
Proof.
  intros H. apply Index_first.
  - by rewrite drop_app_length, HasPrefix_single.
  - rewrite length_app. lia.
  - intros j Hj. destruct (HasPrefix (drop j (p ++ [c])) [c]) eqn:E; [|done].
    apply HasPrefix_single in E. destruct H.
    rewrite drop_app_le in E by lia.
    destruct (lookup_lt_is_Some_2 p j Hj) as [d Hd].
    rewrite (drop_S _ _ _ Hd) in E. simplify_eq/=. by eapply list_elem_of_lookup_2.
Qed.

Lemma Split_Join_single c l :
  l <> [] -> Forall (fun p => c ∉ p) l -> Split (Join l [c]) [c] = l.
Proof.
  intros Hl HF. apply Split_Join; [done|done| |].
  - eapply Forall_impl; [exact HF|]. apply piece_ok_single.
  - intros x Hx. apply Index_single_None.
    rewrite Forall_forall in HF. apply HF. rewrite last_lookup in Hx.
    by eapply list_elem_of_lookup_2.
Qed.

(** ** Decimal integers: [strconv.Itoa] and [strconv.Atoi] *)

Local Open Scope Z_scope.

Definition digit_char (d : Z) : ascii := ascii_of_N (Z.to_N (48 + d)).

Definition digit_val (c : ascii) : option Z :=
  let v := byte_val c in
  if (48 <=? v) && (v <=? 57) then Some (v - 48) else None.

(** The decimal digits of [n >= 0], most significant first. *)
Fixpoint digits_fuel (fuel : nat) (n : Z) : gostring :=
  match fuel with
  | O => [digit_char n]
  | S fuel =>
      if n <? 10 then [digit_char n]
      else digits_fuel fuel (n / 10) ++ [digit_char (n mod 10)]
  end.

Definition digits (n : Z) : gostring := digits_fuel (Z.to_nat (Z.log2 n)) n.

Definition Itoa (z : Z) : gostring :=
  if z <? 0 then "-"%char :: digits (- z) else digits z.

Fixpoint undigits (acc : Z) (s : gostring) : option Z :=
  match s with
  | [] => Some acc
  | c :: s' => match digit_val c with
               | Some d => undigits (10 * acc + d) s'
               | None => None
               end
  end.

(** [strconv.Atoi]: an optional sign and at least one digit, in [int]'s range;
    [None] is the error. *)
Definition Atoi (s : gostring) : option Z :=
  let '(neg, ds) := match s with
                    | "-"%char :: t => (true, t)
                    | "+"%char :: t => (false, t)
                    | _ => (false, s)
                    end in
  match ds with
  | [] => None
  | _ => match undigits 0 ds with
         | None => None
         | Some n => let v := if neg then - n else n in
                     if in_int64 v then Some v else None
         end
  end.

Lemma digit_val_char d : 0 <= d < 10 -> digit_val (digit_char d) = Some d.
Proof.
  intros H. assert (d = 0 \/ d = 1 \/ d = 2 \/ d = 3 \/ d = 4 \/ d = 5 \/ d = 6 \/
    d = 7 \/ d = 8 \/ d = 9) as Hd by lia.
  by repeat (destruct Hd as [->|Hd]); subst.
Qed.

Lemma undigits_app acc s c :
  undigits acc (s ++ [c]) =
  match undigits acc s with
  | Some n => match digit_val c with Some d => Some (10 * n + d) | None => None end
  | None => None
  end.
Proof.
  revert acc. induction s as [|a s IH]; intros acc; simpl.
  - by destruct (digit_val c).
  - destruct (digit_val a); [apply IH|done].
Qed.

Lemma digits_fuel_ok k n :
  0 <= n < 10 ^ (Z.of_nat k + 1) -> undigits 0 (digits_fuel k n) = Some n.
Proof.
  revert n. induction k as [|k IH]; intros n Hn; simpl.
  - by rewrite digit_val_char by (simpl in Hn; lia).
  - destruct (Z.ltb_spec n 10) as [Hlt|Hge]; simpl.
    { by rewrite digit_val_char by lia. }
    rewrite undigits_app, IH.
    + rewrite digit_val_char by (apply Z.mod_pos_bound; lia).
      f_equal. pose proof (Z.div_mod n 10). lia.
    + replace (Z.of_nat (S k) + 1) with (Z.succ (Z.of_nat k + 1)) in Hn by lia.
      rewrite Z.pow_succ_r in Hn by lia.
      split; [apply Z.div_pos; lia|]. apply Z.div_lt_upper_bound; lia.
Qed.

(** [log2] many divisions by ten reach a single digit. *)
Lemma log2_digits n : 0 <= n -> 0 <= n < 10 ^ (Z.of_nat (Z.to_nat (Z.log2 n)) + 1).
Proof.
  intros Hn. split; [done|]. destruct (decide (n = 0)) as [->|H0]; [done|].
  pose proof (Z.log2_spec n ltac:(lia)) as [_ Hl]. pose proof (Z.log2_nonneg n).
  rewrite Z2Nat.id by done. eapply Z.lt_le_trans; [exact Hl|].
  apply Z.pow_le_mono_l. lia.
Qed.

Lemma undigits_digits n : 0 <= n -> undigits 0 (digits n) = Some n.
Proof.
  intros Hn. by apply digits_fuel_ok, log2_digits.
Qed.

Lemma digits_fuel_bytes k n c :
  0 <= n < 10 ^ (Z.of_nat k + 1) -> c ∈ digits_fuel k n ->
  exists d, 0 <= d < 10 /\ c = digit_char d.
Proof.
  revert n. induction k as [|k IH]; intros n Hn; simpl.
  - intros ->%list_elem_of_singleton. exists n. simpl in Hn. split; [lia|done].
  - destruct (Z.ltb_spec n 10) as [Hlt|Hge].
    { intros ->%list_elem_of_singleton. exists n. split; [lia|done]. }
    rewrite elem_of_app. intros [Hc| ->%list_elem_of_singleton].
    + apply (IH (n / 10)); [|done].
      replace (Z.of_nat (S k) + 1) with (Z.succ (Z.of_nat k + 1)) in Hn by lia.
      rewrite Z.pow_succ_r in Hn by lia.
      split; [apply Z.div_pos; lia|]. apply Z.div_lt_upper_bound; lia.
    + exists (n mod 10). split; [apply Z.mod_pos_bound; lia|done].
Qed.

Lemma digits_bytes n c :
  0 <= n -> c ∈ digits n -> exists d, 0 <= d < 10 /\ c = digit_char d.
Proof.
  intros Hn. by apply digits_fuel_bytes, log2_digits.
Qed.

Lemma digits_nonempty n : digits n <> [].
Proof.
  unfold digits. destruct (Z.to_nat (Z.log2 n)) as [|k]; simpl; [done|].
  destruct (n <? 10); [done|]. by destruct (digits_fuel k (n / 10)).
Qed.

(** A byte of a decimal number is none of the separators the program uses. *)
Lemma digit_char_range d : 0 <= d < 10 -> 48 <= byte_val (digit_char d) <= 57.
Proof.
  intros H. apply digit_val_char in H. unfold digit_val in H.
  destruct ((48 <=? _) && _) eqn:E; [|done]. lia.
Qed.

Lemma Itoa_bytes z c :
  c ∈ Itoa z -> byte_val c = 45 \/ 48 <= byte_val c <= 57.
Proof.
  unfold Itoa. destruct (Z.ltb_spec z 0).
  - intros [-> |Hc]%elem_of_cons; [by left|]. right.
    apply digits_bytes in Hc as (d & Hd & ->); [|lia]. by apply digit_char_range.
  - intros Hc. right.
    apply digits_bytes in Hc as (d & Hd & ->); [|lia]. by apply digit_char_range.
Qed.

Lemma Atoi_unsigned s n :
  s <> [] -> (forall c, head s = Some c -> 48 <= byte_val c) ->
  undigits 0 s = Some n -> in_int64 n = true -> Atoi s = Some n.
Proof.
  intros Hs Hh Hu Hr. unfold Atoi. destruct s as [|c s]; [done|].
  specialize (Hh c eq_refl).
  assert ((match (c :: s) with
           | "-"%char :: t => (true, t) | "+"%char :: t => (false, t)
           | _ => (false, c :: s) end) = (false, c :: s)) as ->.
  { by destruct c as [[] [] [] [] [] [] [] []]. }
  by rewrite Hu, Hr.
Qed.

(** Parsing undoes printing for every value of Go's [int]. *)
Lemma Atoi_Itoa z : in_int64 z = true -> Atoi (Itoa z) = Some z.
Proof.
  intros Hr. unfold Itoa. destruct (Z.ltb_spec z 0) as [Hz|Hz].
  - unfold Atoi. pose proof (digits_nonempty (- z)).
    pose proof (undigits_digits (- z) ltac:(lia)) as Hu.
    destruct (digits (- z)) as [|c s]; [done|]. rewrite Hu, Z.opp_involutive. by rewrite Hr.
  - apply Atoi_unsigned; [apply digits_nonempty| |by apply undigits_digits|done].
    intros c Hc. destruct (digits_bytes z c) as (d & Hd & ->); [done| |].
    + destruct (digits z); simplify_eq/=. set_solver.
    + pose proof (digit_char_range d Hd). lia.
Qed.

Lemma Itoa_inj z1 z2 :
  in_int64 z1 = true -> in_int64 z2 = true -> Itoa z1 = Itoa z2 -> z1 = z2.
Proof. intros H1 H2 H. apply Atoi_Itoa in H1, H2. congruence. Qed.

(** ** UTF-8: [utf8.DecodeRuneInString] and [utf8.DecodeLastRuneInString] *)

Definition RuneError : Z := 65533.

Definition in_range (lo hi b : Z) : bool := (lo <=? b) && (b <=? hi).

(** The length of the sequence a first byte announces, and the range its second
    byte must be in (the table [first]/[acceptRanges] of the package). *)
Definition first_info (b0 : Z) : option (nat * Z * Z) :=
  if in_range 194 223 b0 then Some (2%nat, 128, 191)
  else if b0 =? 224 then Some (3%nat, 160, 191)
  else if in_range 225 236 b0 then Some (3%nat, 128, 191)
  else if b0 =? 237 then Some (3%nat, 128, 159)
  else if in_range 238 239 b0 then Some (3%nat, 128, 191)
  else if b0 =? 240 then Some (4%nat, 144, 191)
  else if in_range 241 243 b0 then Some (4%nat, 128, 191)
  else if b0 =? 244 then Some (4%nat, 128, 143)
  else None.

(** Rune and width; an invalid or truncated sequence is [RuneError] with
    width 1, the empty string [RuneError] with width 0. *)
Definition DecodeRune (s : gostring) : Z * nat :=
  match s with
  | [] => (RuneError, 0%nat)
  | c0 :: s1 =>
      let b0 := byte_val c0 in
      if b0 <? 128 then (b0, 1%nat) else
      match first_info b0, s1 with
      | Some (n, lo, hi), c1 :: s2 =>
          let b1 := byte_val c1 in
          if negb (in_range lo hi b1) then (RuneError, 1%nat) else
          match n, s2 with
          | 2%nat, _ => (Z.lor (Z.shiftl (Z.land b0 31) 6) (Z.land b1 63), 2%nat)
          | 3%nat, c2 :: _ =>
              let b2 := byte_val c2 in
              if negb (in_range 128 191 b2) then (RuneError, 1%nat) else
              (Z.lor (Z.shiftl (Z.land b0 15) 12)
                 (Z.lor (Z.shiftl (Z.land b1 63) 6) (Z.land b2 63)), 3%nat)
          | 4%nat, c2 :: c3 :: _ =>
              let b2 := byte_val c2 in
              let b3 := byte_val c3 in
              if negb (in_range 128 191 b2) || negb (in_range 128 191 b3)
              then (RuneError, 1%nat)
              else (Z.lor (Z.shiftl (Z.land b0 7) 18)
                      (Z.lor (Z.shiftl (Z.land b1 63) 12)
                         (Z.lor (Z.shiftl (Z.land b2 63) 6) (Z.land b3 63))), 4%nat)
          | _, _ => (RuneError, 1%nat)
          end
      | _, _ => (RuneError, 1%nat)
      end
  end.

Lemma DecodeRune_width s r w :
  DecodeRune s = (r, w) -> s <> [] -> (1 <= w <= length s)%nat.
Proof.
  intros H Hs. destruct s as [|c0 s1]; [done|]. unfold DecodeRune in H.
  repeat case_match; simplify_eq/=; lia.
Qed.

(** A byte below 128 is its own rune: the only way to decode an ASCII rune. *)
Lemma DecodeRune_ascii c s :
  byte_val c < 128 -> DecodeRune (c :: s) = (byte_val c, 1%nat).
Proof. intros H. unfold DecodeRune. by destruct (Z.ltb_spec (byte_val c) 128); [|lia]. Qed.

Lemma lor_ge_128 a b :
  0 <= a -> 0 <= b -> 128 <= a \/ 128 <= b -> 128 <= Z.lor a b.
Proof.
  intros Ha Hb Hor.
  assert (7 <= Z.log2 (Z.lor a b)) as Hl.
  { rewrite Z.log2_lor by done. destruct Hor as [H|H];
      apply (Z.log2_le_mono 128) in H; change (Z.log2 128) with 7 in H; lia. }
  assert (0 < Z.lor a b) as Hp.
  { destruct (Z.le_gt_cases (Z.lor a b) 0) as [H0|H0]; [|done].
    rewrite (Z.log2_nonpos _ H0) in Hl. lia. }
  pose proof (Z.log2_spec _ Hp) as [Hlo _].
  eapply Z.le_trans; [|exact Hlo]. change 128 with (2 ^ 7). by apply Z.pow_le_mono_r.
Qed.

(** The bits a multi-byte sequence contributes. *)
Ltac rune_bits :=
  change 31 with (Z.ones 5) in *; change 63 with (Z.ones 6) in *;
  change 15 with (Z.ones 4) in *; change 7 with (Z.ones 3) in *;
  rewrite ?Z.land_ones in * by lia; rewrite ?Z.shiftl_mul_pow2 in * by lia;
  change (2 ^ 5) with 32 in *; change (2 ^ 6) with 64 in *; change (2 ^ 4) with 16 in *;
  change (2 ^ 3) with 8 in *; change (2 ^ 12) with 4096 in *; change (2 ^ 18) with 262144 in *;
  Z.to_euclidean_division_equations.

Lemma first_info_range b0 n lo hi :
  first_info b0 = Some (n, lo, hi) ->
  (n = 2%nat /\ 194 <= b0 <= 223 /\ lo = 128) \/
  (n = 3%nat /\ 224 <= b0 <= 239 /\ 128 <= lo /\ (b0 = 224 -> lo = 160)) \/
  (n = 4%nat /\ 240 <= b0 <= 244 /\ 128 <= lo /\ (b0 = 240 -> lo = 144)).
Proof. unfold first_info, in_range. intros H. repeat case_match; simplify_eq/=; lia. Qed.

Lemma first_info_hi b0 n lo hi : first_info b0 = Some (n, lo, hi) -> hi <= 191.
Proof. unfold first_info. intros H. repeat case_match; simplify_eq/=; lia. Qed.

(** Conversely an ASCII rune comes from that very byte. *)
Lemma DecodeRune_ascii_inv c s r w :
  DecodeRune (c :: s) = (r, w) -> r < 128 -> byte_val c = r /\ w = 1%nat.
Proof.
  intros H Hr. unfold DecodeRune in H.
  destruct (Z.ltb_spec (byte_val c) 128) as [Hc|Hc]; [by simplify_eq|]. exfalso.
  assert (r <> RuneError) as Hre by (unfold RuneError; lia).
  destruct (first_info (byte_val c)) as [[[n lo] hi]|] eqn:F; [|by simplify_eq].
  pose proof (first_info_hi _ _ _ _ F).
  apply first_info_range in F. destruct s as [|c1 s2]; [by simplify_eq|].
  destruct (in_range lo hi (byte_val c1)) eqn:R1; simpl in H; [|by simplify_eq].
  unfold in_range in R1.
  destruct F as [(-> & F)|[(-> & F)|(-> & F)]].
  - injection H as <- _. revert Hr. apply Z.le_ngt, lor_ge_128; rune_bits; lia.
  - destruct s2 as [|c2 s3]; [by simplify_eq|].
    destruct (in_range 128 191 (byte_val c2)) eqn:R2; simpl in H; [|by simplify_eq].
    injection H as <- _. revert Hr. apply Z.le_ngt. destruct (decide (byte_val c = 224)).
    + apply lor_ge_128; [rune_bits; lia| |right; apply lor_ge_128; rune_bits; lia].
      apply Z.lor_nonneg. rune_bits; lia.
    + apply lor_ge_128; [rune_bits; lia| |left; rune_bits; lia].
      apply Z.lor_nonneg. rune_bits; lia.
  - destruct s2 as [|c2 [|c3 s4]]; [by simplify_eq..|].
    destruct (negb (in_range 128 191 (byte_val c2)) || _) eqn:R2; [by simplify_eq|].
    injection H as <- _. revert Hr. apply Z.le_ngt. destruct (decide (byte_val c = 240)).
    + apply lor_ge_128; [rune_bits; lia| |right; apply lor_ge_128; [rune_bits; lia| |]].
      * rewrite !Z.lor_nonneg. rune_bits; lia.
      * rewrite Z.lor_nonneg. rune_bits; lia.
      * left. rune_bits; lia.
    + apply lor_ge_128; [rune_bits; lia| |left; rune_bits; lia].
      rewrite !Z.lor_nonneg. rune_bits; lia.
Qed.

(** The bytes after the first one of a multi-byte rune are not ASCII. *)
Lemma DecodeRune_tail c s r w :
  DecodeRune (c :: s) = (r, S w) ->
  Forall (fun d => d <> "$"%char) (take w s).
Proof.
  assert (forall lo hi d, in_range lo hi (byte_val d) = true -> 128 <= lo -> d <> "$"%char) as Hr.
  { unfold in_range. intros lo hi d Hd Hlo ->. change (byte_val "$"%char) with 36 in Hd. lia. }
  intros H. unfold DecodeRune in H.
  destruct (byte_val c <? 128); [injection H as _ <-; by constructor|].
  destruct (first_info (byte_val c)) as [[[n lo] hi]|] eqn:F; [|injection H as _ <-; by constructor].
  destruct s as [|c1 s]; [by rewrite take_nil|].
  destruct (in_range lo hi (byte_val c1)) eqn:R1; simpl in H; [|injection H as _ <-; by constructor].
  assert (128 <= lo) by (apply first_info_range in F; lia).
  destruct n as [|[|[|[|[|n]]]]]; try (injection H as _ <-; repeat constructor; by eauto).
  - destruct s as [|c2 s]; [injection H as _ <-; by constructor|].
    destruct (in_range 128 191 (byte_val c2)) eqn:R2; simpl in H; injection H as _ <-;
      repeat constructor; eapply Hr; eauto; lia.
  - destruct s as [|c2 [|c3 s]]; [injection H as _ <-; by constructor..|].
    destruct (in_range 128 191 (byte_val c2)) eqn:R2, (in_range 128 191 (byte_val c3)) eqn:R3;
      simpl in H; injection H as _ <-; repeat constructor; eapply Hr; eauto; lia.
Qed.

Lemma byte_val_range c : 0 <= byte_val c < 256.
Proof. by destruct c as [[] [] [] [] [] [] [] []]. Qed.

Lemma byte_val_inj c d : byte_val c = byte_val d -> c = d.
Proof.
  unfold byte_val. intros H%N2Z.inj.
  by rewrite <- (ascii_N_embedding c), <- (ascii_N_embedding d), H.
Qed.

Lemma DecodeRune_nonneg s r w : DecodeRune s = (r, w) -> 0 <= r.
Proof.
  assert (forall c, 0 <= byte_val c) as Hb by (intros c; apply byte_val_range).
  unfold DecodeRune, RuneError. intros H. repeat case_match; simplify_eq/=; try done;
    rewrite ?Z.lor_nonneg, ?Z.shiftl_nonneg, ?Z.land_nonneg; auto 10.
Qed.

(** The last rune of a string: the decoder backs up over at most four bytes to
    one that can start a sequence, and reports [RuneError] with width 1 when the
    sequence found there does not end the string. *)
Definition RuneStart (c : ascii) : bool := negb (in_range 128 191 (byte_val c)).

Fixpoint rune_start_back (k : nat) (s : gostring) (start lim : Z) : Z :=
  match k with
  | O => start
  | S k =>
      if start <? lim then start
      else match s !! Z.to_nat start with
           | Some c => if RuneStart c then start else rune_start_back k s (start - 1) lim
           | None => start
           end
  end.

Definition DecodeLastRune (s : gostring) : Z * nat :=
  match last s with
  | None => (RuneError, 0%nat)
  | Some c =>
      if byte_val c <? 128 then (byte_val c, 1%nat) else
      let fin := Z.of_nat (length s) in
      let start := Z.to_nat (rune_start_back 4 s (fin - 2) (Z.max 0 (fin - 4))) in
      let '(r, size) := DecodeRune (drop start s) in
      if (start + size =? length s)%nat then (r, size) else (RuneError, 1%nat)
  end.

(** ** White space: [unicode.IsSpace] and [strings.TrimSpace] *)

Definition IsSpace (r : Z) : bool :=
  in_range 9 13 r || (r =? 32) || (r =? 133) || (r =? 160) || (r =? 5760) ||
  in_range 8192 8202 r || in_range 8232 8233 r || (r =? 8239) || (r =? 8287) || (r =? 12288).

Fixpoint trim_left (fuel : nat) (s : gostring) : gostring :=
  match fuel, s with
  | S fuel, _ :: _ =>
      let '(r, w) := DecodeRune s in
      if IsSpace r then trim_left fuel (drop w s) else s
  | _, _ => s
  end.

Fixpoint trim_right (fuel : nat) (s : gostring) : gostring :=
  match fuel, s with
  | S fuel, _ :: _ =>
      let '(r, w) := DecodeLastRune s in
      if IsSpace r then trim_right fuel (take (length s - w) s) else s
  | _, _ => s
  end.

Definition TrimSpace (s : gostring) : gostring :=
  let t := trim_left (length s) s in trim_right (length t) t.

(** ** Letters and digits: [unicode.IsLetter] and [unicode.IsDigit]

    The tables of the Unicode database above Latin-1 are data of the Go
    distribution; the model is stated over any such tables. *)
Class UnicodeTables := {
  letter_table : Z -> bool;
  digit_table : Z -> bool
}.

Definition IsLetter `{UnicodeTables} (r : Z) : bool :=
  in_range 65 90 r || in_range 97 122 r || (r =? 170) || (r =? 181) || (r =? 186) ||
  in_range 192 214 r || in_range 216 246 r || in_range 248 255 r ||
  ((256 <=? r) && letter_table r).

Definition IsDigit `{UnicodeTables} (r : Z) : bool :=
  in_range 48 57 r || ((256 <=? r) && digit_table r).

(** Tables with no entry, enough to run the model on Latin-1 inputs. *)
Definition latin1_tables : UnicodeTables := {|
  letter_table := fun _ => false;
  digit_table := fun _ => false
|}.

(** ** Order and case *)

(** Byte-wise order of Go strings. *)
Fixpoint str_leb (a b : gostring) : bool :=
  match a, b with
  | [], _ => true
  | _ :: _, [] => false
  | x :: a, y :: b =>
      if (byte_val x <? byte_val y)%Z then true
      else if (byte_val x =? byte_val y)%Z then str_leb a b else false
  end.

Definition str_le (a b : gostring) : Prop := str_leb a b = true.
#[export] Instance str_le_dec : RelDecision str_le.
Proof. intros a b. unfold str_le. apply _. Defined.

#[export] Instance str_le_total : Total str_le.
Proof.
  unfold str_le. intros a. induction a as [|x a IH]; intros [|y b]; simpl; auto.
  destruct (Z.ltb_spec (byte_val x) (byte_val y)); [auto|].
  destruct (Z.eqb_spec (byte_val x) (byte_val y)) as [E|E].
  - rewrite E, Z.ltb_irrefl, Z.eqb_refl. apply IH.
  - right. by rewrite (proj2 (Z.ltb_lt _ _)) by lia.
Qed.

#[export] Instance str_le_trans : Transitive str_le.
Proof.
  unfold str_le. intros a. induction a as [|x a IH]; intros [|y b] [|z c]; simpl; try done.
  repeat case_match; rewrite ?Z.ltb_lt, ?Z.ltb_ge, ?Z.eqb_eq, ?Z.eqb_neq in *; try done; try lia.
  apply IH.
Qed.

Lemma str_le_antisym a b : str_le a b -> str_le b a -> a = b.
Proof.
  unfold str_le. revert b. induction a as [|x a IH]; intros [|y b]; simpl; try done.
  repeat case_match; rewrite ?Z.ltb_lt, ?Z.ltb_ge, ?Z.eqb_eq, ?Z.eqb_neq in *; try done; try lia.
  intros. f_equal; [by apply byte_val_inj|by apply IH].
Qed.

(** [strings.ToLower] of a text that is not ASCII maps its runes with the
    tables of the Unicode database. *)
Class UnicodeLower := { lower_runes : gostring -> gostring }.

Definition lower_byte (c : ascii) : ascii :=
  if in_range 65 90 (byte_val c) then ascii_of_N (Z.to_N (byte_val c + 32)) else c.

Definition ToLower `{UnicodeLower} (s : gostring) : gostring :=
  if forallb (fun c => byte_val c <? 128) s then map lower_byte s else lower_runes s.

Example TrimSpace_ex : TrimSpace (go "  a b	 ") = go "a b".
Proof. reflexivity. Qed.

Example Split_ex : Split (go "a-/-b-/--/-c") (go "-/-") = [go "a"; go "b"; go ""; go "c"].
Proof. reflexivity. Qed.
