(* ===== verification/EnvLex.v ===== *)
(** * The template lexer ([internal/nhctl/envsubst/parse/lex.go])

    The scanner that cuts a configuration template into text, variables and
    substitution delimiters.  The Go lexer is a state machine run by a goroutine
    that sends its tokens on an unbuffered channel; the channel has one sender
    and one receiver, so its contents are the list of tokens sent, in order,
    followed for ever by the zero [item] once the channel is closed.  Here the
    state is the record [lexer], [items] holds what was sent, and a state
    function is a function from lexer to lexer and next state.  The inner [for]
    loops of [lexText] and [lexVariable] have no variable that lives across
    iterations, so an iteration that goes round again is the state function
    naming itself as the next state. *)

From S2P Require Import Prelude GoStrings.

(** ** Data *)

(** [itemZero] is the zero value of [itemType] (the constants start at 1): it is
    what a closed channel delivers and what an unset [itemType] holds. *)
Inductive itemType :=
  | itemZero
  | itemError
  | itemEOF
  | itemText
  | itemPlus
  | itemDash
  | itemEquals
  | itemColonEquals
  | itemColonDash
  | itemColonPlus
  | itemVariable
  | itemLeftDelim
  | itemRightDelim.

#[export] Instance itemType_eq_dec : EqDecision itemType.
Proof. solve_decision. Defined.

(** The integer behind each constant, for the one comparison the code makes. *)
Definition itemType_val (t : itemType) : Z :=
  match t with
  | itemZero => 0
  | itemError => 1
  | itemEOF => 2
  | itemText => 3
  | itemPlus => 4
  | itemDash => 5
  | itemEquals => 6
  | itemColonEquals => 7
  | itemColonDash => 8
  | itemColonPlus => 9
  | itemVariable => 10
  | itemLeftDelim => 11
  | itemRightDelim => 12
  end.

Record item := Item {
  typ : itemType;
  ipos : nat;
  val : gostring
}.

#[export] Instance item_eq_dec : EqDecision item.
Proof. solve_decision. Defined.

Record lexer := Lexer {
  input : gostring;
  pos : nat;
  start : nat;
  width : nat;
  lastPos : nat;
  items : list item;
  subsDepth : Z
}.

(** The three state functions; [nil] is [None] below. *)
Inductive stateFn :=
  | LexText
  | LexVariable
  | LexSubstitution.

#[export] Instance stateFn_eq_dec : EqDecision stateFn.
Proof. solve_decision. Defined.

(** ** Operations of the lexer *)

Definition eof : Z := (-1)%Z.
Definition dollar : Z := 36%Z.
Definition lbrace : Z := 123%Z.
Definition rbrace : Z := 125%Z.

Definition set_pos (l : lexer) (p : nat) : lexer :=
  Lexer (input l) p (start l) (width l) (lastPos l) (items l) (subsDepth l).

Definition next (l : lexer) : lexer * Z :=
  if length (input l) <=? pos l then
    (Lexer (input l) (pos l) (start l) 0 (lastPos l) (items l) (subsDepth l), eof)
  else
    let '(r, w) := DecodeRune (drop (pos l) (input l)) in
    (Lexer (input l) (pos l + w) (start l) w (lastPos l) (items l) (subsDepth l), r).

Definition backup (l : lexer) : lexer := set_pos l (pos l - width l).

Definition peek (l : lexer) : lexer * Z :=
  let '(l, r) := next l in (backup l, r).

Definition emit (l : lexer) (t : itemType) : lexer :=
  Lexer (input l) (pos l) (pos l) (width l) (start l)
    (items l ++ [Item t (start l) (slice (input l) (start l) (pos l))]) (subsDepth l).

Definition ignore (l : lexer) : lexer :=
  Lexer (input l) (pos l) (pos l) (width l) (lastPos l) (items l) (subsDepth l).

Definition errorf (l : lexer) (msg : gostring) : lexer * option stateFn :=
  (Lexer (input l) (pos l) (start l) (width l) (lastPos l)
     (items l ++ [Item itemError (start l) msg]) (subsDepth l), None).

Definition add_depth (l : lexer) (d : Z) : lexer :=
  Lexer (input l) (pos l) (start l) (width l) (lastPos l) (items l) (subsDepth l + d)%Z.

Section lexer.
Context `{UnicodeTables}.

Definition isAlphaNumeric (r : Z) : bool :=
  (r =? 95)%Z || IsLetter r || IsDigit r.

(** One iteration of the loop of [lexText]. *)
Definition lexText (l : lexer) : lexer * option stateFn :=
  let '(l, r) := next l in
  if (r =? dollar)%Z then
    let l := set_pos l (pos l - 1) in
    let l := if start l <? pos l then emit l itemText else l in
    let l := set_pos l (pos l + 1) in
    let '(l, r) := peek l in
    if (r =? dollar)%Z then
      let l := ignore l in
      let '(l, _) := next l in
      (emit l itemText, Some LexText)
    else if (r =? lbrace)%Z then
      let '(l, _) := next l in
      let l := add_depth l 1 in
      (emit l itemLeftDelim, Some LexSubstitution)
    else if isAlphaNumeric r then (l, Some LexVariable)
    else (l, Some LexText)
  else if (r =? eof)%Z then
    let l := if start l <? pos l then emit l itemText else l in
    (emit l itemEOF, None)
  else (l, Some LexText).

(** One iteration of the loop of [lexVariable], and what follows it. *)
Definition lexVariable (l : lexer) : lexer * option stateFn :=
  let '(l, r) := next l in
  if isAlphaNumeric r then (l, Some LexVariable)
  else
    let l := backup l in
    let v := slice (input l) (start l) (pos l) in
    if bool_decide (v = go "_") || bool_decide (v = go "$_") then (l, Some LexText)
    else
      let l := emit l itemVariable in
      if (0 <? subsDepth l)%Z then (l, Some LexSubstitution) else (l, Some LexText).

Definition lexSubstitution (l : lexer) : lexer * option stateFn :=
  let '(l, r) := next l in
  if (r =? rbrace)%Z then (emit (add_depth l (-1)) itemRightDelim, Some LexText)
  else if (r =? eof)%Z then errorf l (go "closing brace expected")
  else if (isAlphaNumeric r && HasPrefix (drop (lastPos l) (input l)) (go "${"))
          || (r =? dollar)%Z then (l, Some LexVariable)
  else if (r =? 43)%Z then (emit l itemPlus, Some LexSubstitution)
  else if (r =? 45)%Z then (emit l itemDash, Some LexSubstitution)
  else if (r =? 61)%Z then (emit l itemEquals, Some LexSubstitution)
  else if (r =? 58)%Z then
    let '(l, r) := next l in
    if (r =? 45)%Z then (emit l itemColonDash, Some LexSubstitution)
    else if (r =? 61)%Z then (emit l itemColonEquals, Some LexSubstitution)
    else if (r =? 43)%Z then (emit l itemColonPlus, Some LexSubstitution)
    else (emit l itemText, Some LexSubstitution)
  else (emit l itemText, Some LexSubstitution).

Definition stateStep (st : stateFn) (l : lexer) : lexer * option stateFn :=
  match st with
  | LexText => lexText l
  | LexVariable => lexVariable l
  | LexSubstitution => lexSubstitution l
  end.

(** [l.run()]: [None] is a loop cut short by the fuel. *)
Fixpoint run (fuel : nat) (st : stateFn) (l : lexer) : option lexer :=
  match fuel with
  | 0 => None
  | S fuel =>
      match stateStep st l with
      | (l, None) => Some l
      | (l, Some st) => run fuel st l
      end
  end.

Definition newLexer (s : gostring) : lexer := Lexer s 0 0 0 0 [] 0.

(** The tokens sent for [s].  Every iteration consumes a byte, except the last
    one of a variable, so twice the length of the input is fuel enough. *)
Definition lex (s : gostring) : list item :=
  match run (2 * length s + 2) LexText (newLexer s) with
  | Some l => items l
  | None => []
  end.
End lexer.

(** The cases of [lex_test.go]. *)
Example lex_subst :
  (fun i => (typ i, val i)) <$> lex (H := latin1_tables) (go "bar ${BAR:=$BAZ} foo") =
  [(itemText, go "bar "); (itemLeftDelim, go "${"); (itemVariable, go "BAR");
   (itemColonEquals, go ":="); (itemVariable, go "$BAZ"); (itemRightDelim, go "}");
   (itemText, go " foo"); (itemEOF, [])].
Proof. vm_compute. reflexivity. Qed.

Example lex_escape :
  (fun i => (typ i, ipos i, val i)) <$> lex (H := latin1_tables) (go "hello $${HOME}") =
  [(itemText, 0, go "hello "); (itemText, 7, go "$"); (itemText, 8, go "{HOME}");
   (itemEOF, 14, [])].
Proof. vm_compute. reflexivity. Qed.

(** ** What one iteration does

    [lstep] describes an iteration by the bytes it looks at, without the
    scratch field [width]; [stateStep_lstep] shows the state functions are
    instances of it.  The theorems about the token stream are proved on
    [lstep] by rule induction. *)

Section lstep.
Context `{UnicodeTables} (s : gostring).

Definition rune_at (p : nat) (r : Z) (w : nat) : Prop :=
  DecodeRune (drop p s) = (r, w) /\ p < length s.

Lemma rune_at_width p r w : rune_at p r w -> 1 <= w /\ p + w <= length s.
Proof.
  intros [Hd Hp]. apply DecodeRune_width in Hd.
  - rewrite length_drop in Hd. lia.
  - intros Hn. apply (f_equal length) in Hn. rewrite length_drop in Hn. simpl in Hn. lia.
Qed.

Lemma rune_at_ascii p c : (byte_val c < 128)%Z -> s !! p = Some c -> rune_at p (byte_val c) 1.
Proof.
  intros Hc Hp. split; [|by apply lookup_lt_Some in Hp].
  rewrite (drop_S _ _ _ Hp). by apply DecodeRune_ascii.
Qed.

Lemma rune_at_ascii_inv p c w :
  (byte_val c < 128)%Z -> rune_at p (byte_val c) w -> s !! p = Some c /\ w = 1.
Proof.
  intros Hc [Hd Hp]. destruct (lookup_lt_is_Some_2 s p Hp) as [d Hl].
  rewrite (drop_S _ _ _ Hl) in Hd. apply DecodeRune_ascii_inv in Hd as [Hd ->]; [|done].
  apply byte_val_inj in Hd as ->. done.
Qed.

(** The text pending between [b] and [p], sent if there is any. *)
Definition pend (its : list item) (b p : nat) : list item :=
  if b <? p then its ++ [Item itemText b (slice s b p)] else its.
Definition plast (lp b p : nat) : nat := if b <? p then b else lp.

Record conf := Conf {
  c_state : option stateFn;
  c_pos : nat;
  c_start : nat;
  c_last : nat;
  c_items : list item;
  c_depth : Z
}.

Definition abs (st : option stateFn) (l : lexer) : conf :=
  Conf st (pos l) (start l) (lastPos l) (items l) (subsDepth l).

Definition subst_token (t : itemType) : Prop :=
  t ∈ [itemText; itemPlus; itemDash; itemEquals; itemColonEquals; itemColonDash; itemColonPlus].

Inductive lstep : conf -> conf -> Prop :=
  | T_eof p b lp its d :
      p = length s ->
      lstep (Conf (Some LexText) p b lp its d)
            (Conf None p p p (pend its b p ++ [Item itemEOF p []]) d)
  | T_escape p b lp its d :
      s !! p = Some "$"%char -> s !! S p = Some "$"%char ->
      lstep (Conf (Some LexText) p b lp its d)
            (Conf (Some LexText) (S (S p)) (S (S p)) (S p)
               (pend its b p ++ [Item itemText (S p) (slice s (S p) (S (S p)))]) d)
  | T_open p b lp its d :
      s !! p = Some "$"%char -> s !! S p = Some "{"%char ->
      lstep (Conf (Some LexText) p b lp its d)
            (Conf (Some LexSubstitution) (S (S p)) (S (S p)) p
               (pend its b p ++ [Item itemLeftDelim p (slice s p (S (S p)))]) (d + 1)%Z)
  | T_var p b lp its d r w :
      s !! p = Some "$"%char -> rune_at (S p) r w -> isAlphaNumeric r = true ->
      lstep (Conf (Some LexText) p b lp its d)
            (Conf (Some LexVariable) (S p) p (plast lp b p) (pend its b p) d)
  | T_dollar p b lp its d :
      s !! p = Some "$"%char ->
      (forall r w, rune_at (S p) r w ->
         r <> dollar /\ r <> lbrace /\ isAlphaNumeric r = false) ->
      lstep (Conf (Some LexText) p b lp its d)
            (Conf (Some LexText) (S p) p (plast lp b p) (pend its b p) d)
  | T_text p b lp its d r w :
      rune_at p r w -> r <> dollar ->
      lstep (Conf (Some LexText) p b lp its d) (Conf (Some LexText) (p + w) b lp its d)
  | V_more p b lp its d r w :
      rune_at p r w -> isAlphaNumeric r = true ->
      lstep (Conf (Some LexVariable) p b lp its d) (Conf (Some LexVariable) (p + w) b lp its d)
  | V_under p b lp its d :
      slice s b p = go "_" \/ slice s b p = go "$_" ->
      lstep (Conf (Some LexVariable) p b lp its d) (Conf (Some LexText) p b lp its d)
  | V_emit p b lp its d :
      slice s b p <> go "_" -> slice s b p <> go "$_" ->
      lstep (Conf (Some LexVariable) p b lp its d)
            (Conf (Some (if (0 <? d)%Z then LexSubstitution else LexText)) p p b
               (its ++ [Item itemVariable b (slice s b p)]) d)
  | S_close p b lp its d :
      s !! p = Some "}"%char ->
      lstep (Conf (Some LexSubstitution) p b lp its d)
            (Conf (Some LexText) (S p) (S p) b
               (its ++ [Item itemRightDelim b (slice s b (S p))]) (d + -1)%Z)
  | S_eof p b lp its d :
      p = length s ->
      lstep (Conf (Some LexSubstitution) p b lp its d)
            (Conf None p b lp (its ++ [Item itemError b (go "closing brace expected")]) d)
  | S_var p b lp its d r w :
      rune_at p r w ->
      (isAlphaNumeric r = true /\ HasPrefix (drop lp s) (go "${") = true) \/ r = dollar ->
      lstep (Conf (Some LexSubstitution) p b lp its d) (Conf (Some LexVariable) (p + w) b lp its d)
  | S_token p b lp its d q t :
      p < q <= length s -> s !! p <> Some "$"%char -> subst_token t ->
      lstep (Conf (Some LexSubstitution) p b lp its d)
            (Conf (Some LexSubstitution) q q b (its ++ [Item t b (slice s b q)]) d).

Lemma next_cases p b w lp its d :
  p <= length s ->
  (p = length s /\ next (Lexer s p b w lp its d) = (Lexer s p b 0 lp its d, eof)) \/
  (exists r w', rune_at p r w' /\ (0 <= r)%Z /\
     next (Lexer s p b w lp its d) = (Lexer s (p + w') b w' lp its d, r)).
Proof.
  intros Hp. unfold next; simpl. destruct (Nat.leb_spec (length s) p) as [H1|H1].
  - left. split; [lia|done].
  - right. destruct (DecodeRune (drop p s)) as [r w'] eqn:E. exists r, w'.
    split; [done|]. split; [|done]. by eapply DecodeRune_nonneg.
Qed.
End lstep.

Section refine.
Context `{UnicodeTables} (s : gostring).
Implicit Types (p b w lp : nat) (its : list item) (d : Z).

(** A decoded ASCII rune is that byte, one position wide. *)
Lemma rune_is p r w c :
  (byte_val c < 128)%Z -> rune_at s p r w -> (r =? byte_val c)%Z = true ->
  s !! p = Some c /\ w = 1.
Proof. intros Hc Hr ->%Z.eqb_eq. by eapply rune_at_ascii_inv. Qed.

Lemma emit_pend p b w lp its d :
  b <= p ->
  (if b <? p then emit (Lexer s p b w lp its d) itemText else Lexer s p b w lp its d) =
  Lexer s p p w (plast lp b p) (pend s its b p) d.
Proof.
  intros Hb. unfold plast, pend. destruct (Nat.ltb_spec b p); [done|].
  by replace b with p by lia.
Qed.

Lemma lexText_lstep p b w lp its d l' st' :
  b <= p -> p <= length s ->
  lexText (Lexer s p b w lp its d) = (l', st') ->
  lstep s (Conf (Some LexText) p b lp its d) (abs st' l') /\ input l' = s.
Proof.
  intros Hb Hp. unfold lexText.
  destruct (next_cases s p b w lp its d Hp) as [[-> ->]|(r & w' & Hr & Hr0 & ->)].
  { change (eof =? dollar)%Z with false. change (eof =? eof)%Z with true. simpl.
    rewrite (emit_pend (length s) b 0 lp its d Hb). intros [= <- <-].
    split; [|done]. unfold abs; simpl. rewrite slice_nil. by apply T_eof. }
  destruct (Z.eqb r dollar) eqn:Ed.
  2:{ destruct (Z.eqb_spec r eof) as [->|He]; [done|]. intros [= <- <-].
      split; [|done]. eapply T_text; [done|]. by apply Z.eqb_neq. }
  destruct (rune_is p r w' "$"%char eq_refl Hr Ed) as [Hl ->].
  pose proof (rune_at_width s _ _ _ Hr) as [_ Hw].
  unfold set_pos; simpl. replace (p + 1 - 1) with p by lia.
  rewrite (emit_pend p b 1 lp its d Hb); simpl. unfold peek.
  rewrite Nat.add_1_r.
  destruct (next_cases s (S p) p 1 (plast lp b p) (pend s its b p) d ltac:(lia))
    as [[HSp ->]|(r2 & w2 & Hr2 & Hr20 & ->)]; unfold backup, set_pos; simpl.
  { intros [= <- <-]. split; [|done]. unfold abs; simpl. rewrite ?Nat.sub_0_r.
    apply T_dollar; [done|]. intros r2 w2 [_ Hr2]. lia. }
  replace (S (p + w2) - w2) with (S p) by lia.
  destruct (Z.eqb r2 dollar) eqn:Ed2; [|destruct (Z.eqb r2 lbrace) eqn:Eb2].
  - destruct (rune_is _ _ _ "$"%char eq_refl Hr2 Ed2) as [Hl2 ->].
    unfold ignore, next; simpl.
    destruct (Nat.leb_spec (length s) (S p)); [by apply lookup_lt_Some in Hl2; lia|].
    destruct Hr2 as [-> _]. simpl. intros [= <- <-]. split; [|done].
    unfold abs; simpl. rewrite Nat.add_1_r. by apply T_escape.
  - destruct (rune_is _ _ _ "{"%char eq_refl Hr2 Eb2) as [Hl2 ->].
    unfold next; simpl.
    destruct (Nat.leb_spec (length s) (S p)); [by apply lookup_lt_Some in Hl2; lia|].
    destruct Hr2 as [-> _]. simpl. intros [= <- <-]. split; [|done].
    unfold abs; simpl. rewrite Nat.add_1_r. by apply T_open.
  - destruct (isAlphaNumeric r2) eqn:Ea; intros [= <- <-]; (split; [|done]); unfold abs; simpl.
    + by eapply T_var.
    + apply T_dollar; [done|]. intros r3 w3 [Hr3 _]. destruct Hr2 as [Hr2 _].
      rewrite Hr2 in Hr3. injection Hr3 as <- <-. by rewrite <- Z.eqb_neq, <- Z.eqb_neq.
Qed.

Lemma lexVariable_lstep p b w lp its d l' st' :
  b <= p -> p <= length s ->
  lexVariable (Lexer s p b w lp its d) = (l', st') ->
  lstep s (Conf (Some LexVariable) p b lp its d) (abs st' l') /\ input l' = s.
Proof.
  intros Hb Hp. unfold lexVariable.
  assert (forall w' r l2, l2 = Lexer s (p + w') b w' lp its d -> isAlphaNumeric r = false ->
    (let l := backup l2 in
     let v := slice (input l) (start l) (pos l) in
     if bool_decide (v = go "_") || bool_decide (v = go "$_") then (l, Some LexText)
     else let l := emit l itemVariable in
          if (0 <? subsDepth l)%Z then (l, Some LexSubstitution) else (l, Some LexText))
    = (l', st') ->
    lstep s (Conf (Some LexVariable) p b lp its d) (abs st' l') /\ input l' = s) as Hend.
  { intros w' r l2 -> _. unfold backup, set_pos; simpl. replace (p + w' - w') with p by lia.
    destruct (bool_decide_reflect (slice s b p = go "_")) as [E1|E1]; simpl.
    { intros [= <- <-]. split; [apply V_under; by left|done]. }
    destruct (bool_decide_reflect (slice s b p = go "$_")) as [E2|E2].
    { intros [= <- <-]. split; [apply V_under; by right|done]. }
    pose proof (V_emit s p b lp its d E1 E2) as HV.
    destruct (0 <? d)%Z; intros [= <- <-]; done. }
  destruct (next_cases s p b w lp its d Hp) as [[-> ->]|(r & w' & Hr & Hr0 & ->)].
  - assert (isAlphaNumeric eof = false) as Ea by done. rewrite Ea.
    apply (Hend 0 eof); [|done]. by rewrite Nat.add_0_r.
  - destruct (isAlphaNumeric r) eqn:Ea.
    + intros [= <- <-]. split; [by eapply V_more|done].
    + by apply (Hend w' r).
Qed.

Lemma lexSubstitution_lstep p w lp its d l' st' :
  p <= length s ->
  lexSubstitution (Lexer s p p w lp its d) = (l', st') ->
  lstep s (Conf (Some LexSubstitution) p p lp its d) (abs st' l') /\ input l' = s.
Proof.
  intros Hp. unfold lexSubstitution.
  destruct (next_cases s p p w lp its d Hp) as [[-> ->]|(r & w' & Hr & Hr0 & ->)].
  { change (eof =? rbrace)%Z with false. change (eof =? eof)%Z with true.
    intros [= <- <-]. split; [by apply S_eof|done]. }
  pose proof (rune_at_width s _ _ _ Hr) as [Hw1 Hw2]. simpl.
  destruct (Z.eqb r rbrace) eqn:Eb.
  { destruct (rune_is p r w' "}"%char eq_refl Hr Eb) as [Hl ->]. intros [= <- <-].
    split; [|done]. unfold abs; simpl. rewrite Nat.add_1_r. by apply S_close. }
  destruct (Z.eqb_spec r eof) as [->|He]; [done|].
  destruct ((isAlphaNumeric r && _) || _) eqn:Ev.
  { intros [= <- <-]. split; [|done]. eapply S_var; [done|].
    apply orb_true_iff in Ev as [[? ?]%andb_true_iff|?%Z.eqb_eq]; auto. }
  assert (s !! p <> Some "$"%char) as Hnd.
  { intros Hl. apply (rune_at_ascii s p "$"%char eq_refl) in Hl as [Hl _].
    destruct Hr as [Hr1 _]. rewrite Hl in Hr1. injection Hr1 as <- <-.
    by rewrite orb_comm in Ev. }
  assert (forall q t, p < q <= length s -> subst_token t ->
    lstep s (Conf (Some LexSubstitution) p p lp its d)
      (Conf (Some LexSubstitution) q q p (its ++ [Item t p (slice s p q)]) d)) as Htok
    by (intros; by apply S_token).
  assert (forall l2 r2, next (Lexer s (p + w') p w' lp its d) = (l2, r2) ->
    exists q w2, l2 = Lexer s q p w2 lp its d /\ p < q <= length s) as Hcolon.
  { intros l2 r2 Hn.
    destruct (next_cases s (p + w') p w' lp its d Hw2) as [[? Hn']|(r3 & w3 & Hr3 & _ & Hn')];
      rewrite Hn' in Hn; injection Hn as <- <-.
    - exists (p + w'), 0. split; [done|lia].
    - exists (p + w' + w3), w3. pose proof (rune_at_width s _ _ _ Hr3). split; [done|lia]. }
  destruct (next (Lexer s (p + w') p w' lp its d)) as [l2 r2] eqn:Hn.
  destruct (Hcolon _ _ eq_refl) as (q & w2 & -> & Hq). clear Ev.
  repeat case_match; intros [= <- <-]; (split; [|done]);
    (apply Htok; [simpl; lia|apply list_elem_of_In; simpl; tauto]).
Qed.
End refine.

(** ** The token stream covers the input

    [covers s l n]: the tokens [l] tile the first [n] bytes of [s] from left to
    right: each token is the slice of [s] at its position, it starts where the
    previous one ended, and the only bytes left out are the first dollar signs
    of the escapes [$$], whose second dollar sign is the token. *)
Inductive covers (s : gostring) : list item -> nat -> Prop :=
  | covers_nil : covers s [] 0
  | covers_token l n m t :
      covers s l n -> n <= m <= length s ->
      covers s (l ++ [Item t n (slice s n m)]) m
  | covers_escape l n :
      covers s l n -> s !! n = Some "$"%char -> s !! S n = Some "$"%char ->
      covers s (l ++ [Item itemText (S n) (slice s (S n) (S (S n)))]) (S (S n)).

(** What holds of the lexer between iterations. *)
Record lex_inv (s : gostring) (c : conf) : Prop := {
  inv_bounds : c_start c <= c_pos c /\ c_pos c <= length s;
  inv_subst : c_state c = Some LexSubstitution -> c_start c = c_pos c;
  inv_covers : c_state c <> None -> covers s (c_items c) (c_start c);
}.

(** How the stream of a lexer that stopped ends. *)
Definition lex_final (s : gostring) (c : conf) : Prop :=
  c_pos c = length s /\
  ((exists l, c_items c = l ++ [Item itemEOF (length s) []] /\ covers s (c_items c) (length s)) \/
   (exists l, c_items c = l ++ [Item itemError (length s) (go "closing brace expected")] /\
      covers s l (length s))).

Section invariant.
Context `{UnicodeTables} (s : gostring).

Lemma covers_pend its b p :
  covers s its b -> b <= p -> p <= length s -> covers s (pend s its b p) p.
Proof.
  intros Hc Hb Hp. unfold pend. destruct (Nat.ltb_spec b p).
  - by apply covers_token.
  - by replace p with b by lia.
Qed.

Lemma lstep_inv c c' : lstep s c c' -> lex_inv s c -> lex_inv s c'.
Proof.
  destruct 1; intros [[Hb Hp] Hs Hc]; simpl in *;
    try (match goal with
         | H0 : rune_at _ _ _ _ |- _ => pose proof (rune_at_width s _ _ _ H0) as [? ?] end);
    repeat match goal with H0 : s !! _ = Some _ |- _ =>
             pose proof (lookup_lt_Some _ _ _ H0); revert H0 end; intros;
    (split; simpl; [lia|try done; lia|intros Hn]); try done.
  all: try (by apply Hc). all: try (by apply covers_pend; [apply Hc|lia..]).
  - apply covers_escape; [|done..]. by apply covers_pend; [apply Hc|lia..].
  - apply covers_token; [|lia]. by apply covers_pend; [apply Hc|lia..].
  - apply covers_token; [by apply Hc|lia].
  - specialize (Hs eq_refl). subst b. apply covers_token; [by apply Hc|lia].
  - specialize (Hs eq_refl). subst b. apply covers_token; [by apply Hc|lia].
Qed.

Lemma lstep_final c c' : lstep s c c' -> lex_inv s c -> c_state c' = None -> lex_final s c'.
Proof.
  destruct 1; intros [[Hb Hp] Hs Hc]; simpl in *; try done; intros _; split; simpl; try done.
  - subst p. left. eexists. split; [done|]. rewrite <- (slice_nil s (length s)).
    apply covers_token; [|lia]. by apply covers_pend; [apply Hc|lia..].
  - subst p. right. rewrite (Hs eq_refl) in *. eexists. split; [done|]. by apply Hc.
Qed.

(** Two units per byte still to read, and one for leaving a variable. *)
Definition fuel_left (c : conf) : nat :=
  2 * (length s - c_pos c) + (if decide (c_state c = Some LexVariable) then 1 else 0).

Lemma lstep_fuel c c' :
  lstep s c c' -> lex_inv s c -> c_state c' <> None -> fuel_left c' < fuel_left c.
Proof.
  destruct 1; intros [[Hb Hp] Hs Hc] Hn; unfold fuel_left; simpl in *; try done;
    try (match goal with
         | H0 : rune_at _ _ _ _ |- _ => pose proof (rune_at_width s _ _ _ H0) as [? ?] end);
    repeat match goal with H0 : s !! _ = Some _ |- _ =>
             apply lookup_lt_Some in H0 end; repeat case_decide; simplify_eq; try lia.
  all: destruct (0 <? d)%Z; simplify_eq.
Qed.

Lemma stateStep_lstep st l l' st' :
  input l = s -> lex_inv s (abs (Some st) l) -> stateStep st l = (l', st') ->
  lstep s (abs (Some st) l) (abs st' l') /\ input l' = s.
Proof.
  destruct l as [s' p b w lp its d]; simpl. intros -> [[Hb Hp] Hs _] Hst; simpl in *.
  destruct st; simpl in *.
  - by apply lexText_lstep in Hst.
  - by apply lexVariable_lstep in Hst.
  - specialize (Hs eq_refl). subst b. by apply lexSubstitution_lstep in Hst.
Qed.

Lemma run_final st l n :
  input l = s -> lex_inv s (abs (Some st) l) -> fuel_left (abs (Some st) l) < n ->
  exists l', run n st l = Some l' /\ lex_final s (abs None l').
Proof.
  revert st l. induction n as [|n IH]; intros st l Hi HI Hf; [lia|]. simpl.
  destruct (stateStep st l) as [l' st'] eqn:E.
  destruct (stateStep_lstep _ _ _ _ Hi HI E) as [Hst Hi'].
  pose proof (lstep_inv _ _ Hst HI) as HI'. destruct st' as [st'|].
  - apply IH; [done..|]. pose proof (lstep_fuel _ _ Hst HI ltac:(done)). lia.
  - exists l'. split; [done|]. by apply (lstep_final _ _ Hst).
Qed.

Lemma newLexer_inv : lex_inv s (abs (Some LexText) (newLexer s)).
Proof. split; simpl; [lia|done|]. intros _. constructor. Qed.
End invariant.

(** ** Delimiters are closed

    The parser that reads the stream treats [${] followed by a variable as the
    opening of a substitution and then reads up to the closing brace, an error,
    or the end of the stream.  [scan] follows it: [Hang] is the end of the
    stream inside a substitution, after which the parser reads the zero item of
    the closed channel for ever. *)
Inductive scanState :=
  | Out
  | OutLeft
  | Inside
  | Stop
  | Hang.

#[export] Instance scanState_eq_dec : EqDecision scanState.
Proof. solve_decision. Defined.

Definition scan_out (t : itemType) : scanState :=
  match t with
  | itemEOF | itemError => Stop
  | itemLeftDelim => OutLeft
  | _ => Out
  end.

Definition scan (q : scanState) (t : itemType) : scanState :=
  match q with
  | Out => scan_out t
  | OutLeft => match t with itemVariable => Inside | _ => scan_out t end
  | Inside =>
      match t with
      | itemRightDelim => Out
      | itemError => Stop
      | itemEOF => Hang
      | _ => Inside
      end
  | Stop => Stop
  | Hang => Hang
  end.

Definition scans (l : list item) : scanState := foldl scan Out (typ <$> l).

Lemma scans_snoc l i : scans (l ++ [i]) = scan (scans l) (typ i).
Proof. unfold scans. by rewrite fmap_app, foldl_app. Qed.

(** No dollar sign is directly followed by an underscore. *)
Definition no_dollar_under (s : gostring) : Prop :=
  forall i, s !! i = Some "$"%char -> s !! S i <> Some "_"%char.

Section closed.
Context `{UnicodeTables} (s : gostring) (Hno : no_dollar_under s).

(** The scanner never is inside a substitution when the lexer reads text; a
    substitution that was opened keeps the lexer in [lexSubstitution] until
    its brace; and inside one, a variable starts with a dollar sign. *)
Record closed_inv (c : conf) : Prop := {
  ci_bounds : lex_inv s c;
  ci_text : c_state c = Some LexText ->
    (0 <= c_depth c)%Z /\
    (scans (c_items c) = Out \/ (scans (c_items c) = OutLeft /\ c_start c < c_pos c));
  ci_subst : c_state c = Some LexSubstitution ->
    (1 <= c_depth c)%Z /\ scans (c_items c) ∈ [Out; OutLeft; Inside] /\
    (scans (c_items c) = Inside -> HasPrefix (drop (c_last c) s) (go "${") = true ->
       s !! c_pos c = Some "{"%char);
  ci_var : c_state c = Some LexVariable ->
    (0 <= c_depth c)%Z /\ c_start c < c_pos c /\
    scans (c_items c) ∈ [Out; OutLeft; Inside] /\
    (scans (c_items c) <> Out -> (1 <= c_depth c)%Z) /\
    (scans (c_items c) = Inside -> s !! c_start c = Some "$"%char) /\
    (S (c_start c) < c_pos c -> s !! c_start c = Some "$"%char ->
       s !! S (c_start c) <> Some "{"%char);
  ci_done : c_state c = None -> scans (c_items c) = Stop
}.

Lemma slice_lookup b p i : b + i < p -> slice s b p !! i = s !! (b + i).
Proof. intros Hi. unfold slice. rewrite lookup_take_lt by lia. by rewrite lookup_drop. Qed.

(** A variable called "_" starts with that byte; "$_" does not occur. *)
Lemma slice_under b p :
  b < p -> slice s b p = go "_" \/ slice s b p = go "$_" -> s !! b = Some "_"%char.
Proof using Hno.
  intros Hb [E|E].
  - apply (f_equal (fun l => l !! 0)) in E. rewrite slice_lookup in E by lia.
    by rewrite Nat.add_0_r in E.
  - assert (S b < p).
    { destruct (decide (S b < p)); [done|]. exfalso. apply (f_equal length) in E.
      unfold slice in E. rewrite length_take in E. unfold go in E. simpl in E. lia. }
    assert (s !! b = Some "$"%char) as E0.
    { apply (f_equal (fun l => l !! 0)) in E. rewrite slice_lookup in E by lia.
      by rewrite Nat.add_0_r in E. }
    assert (s !! S b = Some "_"%char) as E1.
    { apply (f_equal (fun l => l !! 1)) in E. rewrite slice_lookup in E by lia.
      by rewrite Nat.add_1_r in E. }
    by destruct (Hno _ E0).
Qed.

Lemma scans_pend its b p :
  scans its = Out \/ (scans its = OutLeft /\ b < p) -> scans (pend s its b p) = Out.
Proof.
  unfold pend. destruct (Nat.ltb_spec b p).
  - rewrite scans_snoc. by intros [-> |[-> _]].
  - intros [E|[_ ?]]; [done|lia].
Qed.

Lemma prefix_brace i : HasPrefix (drop i s) (go "${") = true ->
  s !! i = Some "$"%char /\ s !! S i = Some "{"%char.
Proof.
  intros [k Hk]%HasPrefix_spec. split.
  - rewrite <- (Nat.add_0_r i), <- lookup_drop, Hk. done.
  - rewrite <- (Nat.add_1_r i), <- lookup_drop, Hk. done.
Qed.

Lemma alnum_not p r w c :
  (byte_val c < 128)%Z -> isAlphaNumeric (byte_val c) = false ->
  rune_at s p r w -> isAlphaNumeric r = true -> s !! p <> Some c.
Proof.
  intros Hc Hf [Hr _] Ha Hl. apply (rune_at_ascii s p c Hc) in Hl as [Hl _]. congruence.
Qed.

Lemma closed_step_text p b lp its d c' :
  lstep s (Conf (Some LexText) p b lp its d) c' ->
  closed_inv (Conf (Some LexText) p b lp its d) -> closed_inv c'.
Proof.
  intros Hst HI. pose proof (lstep_inv s _ _ Hst (ci_bounds _ HI)) as HL.
  destruct HI as [_ Ht _ _ _]. simpl in Ht. destruct (Ht eq_refl) as [Hd Hsc]. clear Ht.
  pose proof (scans_pend _ _ _ Hsc) as Hp.
  inversion Hst; subst; (split; [done|simpl; intros Hq; simplify_eq..]).
  - by rewrite scans_snoc, Hp.
  - rewrite scans_snoc, Hp. auto.
  - rewrite scans_snoc, Hp. simpl. split; [lia|]. split; [set_solver|done].
  - rewrite Hp. split; [lia|]. split; [lia|]. split; [set_solver|]. split; [done|]. split; [done|lia].
  - rewrite Hp. auto.
  - split; [done|]. destruct Hsc as [?|[? ?]]; [by left|right]. split; [done|lia].
Qed.

Lemma closed_step_var p b lp its d c' :
  lstep s (Conf (Some LexVariable) p b lp its d) c' ->
  closed_inv (Conf (Some LexVariable) p b lp its d) -> closed_inv c'.
Proof using Hno.
  intros Hst HI. pose proof (lstep_inv s _ _ Hst (ci_bounds _ HI)) as HL.
  destruct HI as [_ _ _ Hv _]. simpl in Hv.
  destruct (Hv eq_refl) as (Hd & Hb & Hsc & Hd1 & Hin & Hbr). clear Hv.
  inversion Hst; subst; (split; [done|simpl; intros Hq; simplify_eq..]).
  - split; [done|]. split; [lia|]. split; [done|]. split; [done|]. split; [done|].
    intros Hlt Hdol. destruct (decide (S b < p)) as [Hlt2|Hlt2]; [by apply Hbr|].
    replace (S b) with p by lia. by eapply (alnum_not p r w "{"%char).
  - split; [done|].
    assert (s !! b = Some "_"%char) as Hu by (by eapply slice_under).
    apply list_elem_of_In in Hsc. destruct Hsc as [E|[E|[E|[]]]]; rewrite <- E; auto.
    rewrite Hin in Hu by done. done.
  - destruct (Z.ltb_spec 0 d); simplify_eq. split; [lia|]. left. rewrite scans_snoc.
    apply list_elem_of_In in Hsc. destruct Hsc as [E|[E|[E|[]]]]; rewrite <- E in *; simpl; try done.
    all: exfalso; assert (1 <= d)%Z by (by apply Hd1); lia.
  - destruct (Z.ltb_spec 0 d); simplify_eq. split; [lia|]. rewrite scans_snoc.
    apply list_elem_of_In in Hsc. destruct Hsc as [E|[E|[E|[]]]]; rewrite <- E in *; simpl.
    1: { split; [set_solver|done]. }
    all: split; [set_solver|]; intros _ [Hp1 Hp2]%prefix_brace.
    all: destruct (decide (S b < p)); [by destruct (Hbr ltac:(lia) Hp1)|].
    all: by replace p with (S b) by lia.
  - by destruct (0 <? d)%Z.
Qed.

Lemma closed_step_subst p b lp its d c' :
  lstep s (Conf (Some LexSubstitution) p b lp its d) c' ->
  closed_inv (Conf (Some LexSubstitution) p b lp its d) -> closed_inv c'.
Proof.
  intros Hst HI. pose proof (lstep_inv s _ _ Hst (ci_bounds _ HI)) as HL.
  destruct HI as [[_ Hbp _] _ Hs _ _]. simpl in Hs, Hbp. specialize (Hbp eq_refl). subst b.
  destruct (Hs eq_refl) as (Hd & Hsc & Hin). clear Hs.
  inversion Hst; subst; (split; [done|simpl; intros Hq; simplify_eq..]).
  - split; [lia|]. left. rewrite scans_snoc.
    apply list_elem_of_In in Hsc. by destruct Hsc as [E|[E|[E|[]]]]; rewrite <- E.
  - rewrite scans_snoc.
    apply list_elem_of_In in Hsc. by destruct Hsc as [E|[E|[E|[]]]]; rewrite <- E.
  - match goal with H0 : rune_at _ _ _ _ |- _ => rename H0 into Hr end.
    pose proof (rune_at_width s _ _ _ Hr) as [Hw1 Hw2].
    split; [lia|]. split; [lia|]. split; [done|]. split; [done|].
    match goal with Hor : _ \/ _ |- _ => destruct Hor as [[Ha Hp]| ->] end.
    + assert (s !! p <> Some "{"%char) as Hne by (by eapply (alnum_not p r w "{"%char)).
      split; [intros E; by destruct Hne; apply Hin|]. intros _ Hl.
      exfalso. by eapply (alnum_not p r w "$"%char).
    + destruct (rune_at_ascii_inv s p "$"%char w eq_refl Hr) as [Hl ->].
      split; [done|lia].
  - split; [lia|]. rewrite scans_snoc. split.
    + match goal with Hin : subst_token _ |- _ => unfold subst_token in Hin;
        apply list_elem_of_In in Hin; rename Hin into Htk end.
      apply list_elem_of_In in Hsc.
      destruct Hsc as [E|[E|[E|[]]]]; rewrite <- E;
        repeat (destruct Htk as [<-|Htk]; [simpl; set_solver|]); destruct Htk.
    + intros _ [Hp1 _]%prefix_brace. done.
Qed.

Lemma closed_step c c' : lstep s c c' -> closed_inv c -> closed_inv c'.
Proof using Hno.
  intros Hst. destruct c as [[[]|] p b lp its d]; [by apply closed_step_text|
    by apply closed_step_var|by apply closed_step_subst|inversion Hst].
Qed.

Lemma run_closed st l n l' :
  input l = s -> closed_inv (abs (Some st) l) -> run n st l = Some l' ->
  scans (items l') = Stop.
Proof using Hno.
  revert st l. induction n as [|n IH]; intros st l Hi HI Hr; [done|]. simpl in Hr.
  destruct (stateStep st l) as [l2 st2] eqn:E.
  destruct (stateStep_lstep s _ _ _ _ Hi (ci_bounds _ HI) E) as [Hst Hi2].
  pose proof (closed_step _ _ Hst HI) as HI2. destruct st2 as [st2|].
  - by eapply IH.
  - simplify_eq. by apply (ci_done _ HI2).
Qed.
End closed.

(** ** Escaping

    [escape] doubles every dollar sign: the template that stands for a literal
    text. *)
Fixpoint escape (s : gostring) : gostring :=
  match s with
  | [] => []
  | c :: s' => if bool_decide (c = "$"%char) then c :: c :: escape s' else c :: escape s'
  end.

Lemma escape_app a b : escape (a ++ b) = escape a ++ escape b.
Proof. induction a as [|c a IH]; simpl; [done|]. rewrite IH. by case_bool_decide. Qed.

(** Bytes other than dollar signs are the same on both sides. *)
Lemma escape_prefix s w :
  Forall (fun c => c <> "$"%char) (take w (escape s)) ->
  take w (escape s) = take w s /\ drop w (escape s) = escape (drop w s).
Proof.
  revert s. induction w as [|w IH]; intros s; [by rewrite !drop_0|].
  destruct s as [|c s]; simpl; [done|]. case_bool_decide as Hc; simpl.
  - intros HF. by apply Forall_cons in HF as [? _].
  - intros [_ HF]%Forall_cons. destruct (IH s HF) as [-> ->]. done.
Qed.

Section escaping.
Context `{UnicodeTables} (s : gostring).
Let t := escape s.

Lemma rune_no_dollar p r w :
  rune_at t p r w -> r <> dollar -> Forall (fun c => c <> "$"%char) (take w (drop p t)).
Proof.
  intros [Hd Hp] Hr. destruct (lookup_lt_is_Some_2 t p Hp) as [c Hc].
  rewrite (drop_S _ _ _ Hc) in *. destruct w as [|w]; [constructor|]. simpl. constructor.
  { intros ->. rewrite DecodeRune_ascii in Hd by done. by injection Hd. }
  eapply DecodeRune_tail. exact Hd.
Qed.

(** Up to [c_pos] the lexer has read the escape of a prefix of [s], which the
    tokens sent and the pending slice spell out. *)
Definition esc_inv (c : conf) : Prop :=
  match c_state c with
  | Some LexText =>
      exists s1 s2, s = s1 ++ s2 /\ c_pos c = length (escape s1) /\ c_start c <= c_pos c /\
        concat (val <$> c_items c) ++ slice t (c_start c) (c_pos c) = s1 /\
        Forall (fun i => typ i = itemText) (c_items c)
  | None =>
      exists l, c_items c = l ++ [Item itemEOF (length t) []] /\
        Forall (fun i => typ i = itemText) l /\ concat (val <$> l) = s
  | _ => False
  end.

Lemma pend_vals its b p :
  b <= p -> concat (val <$> pend t its b p) = concat (val <$> its) ++ slice t b p.
Proof.
  intros Hb. unfold pend. destruct (Nat.ltb_spec b p).
  - rewrite fmap_app, concat_app. simpl. by rewrite app_nil_r.
  - replace p with b by lia. by rewrite slice_nil, app_nil_r.
Qed.

Lemma pend_text its b p :
  Forall (fun i => typ i = itemText) its ->
  Forall (fun i => typ i = itemText) (pend t its b p).
Proof.
  intros HF. unfold pend. destruct (b <? p); [|done]. apply Forall_app. split; [done|].
  by constructor.
Qed.

Lemma esc_step c c' : lstep t c c' -> esc_inv c -> esc_inv c'.
Proof.
  intros Hst Hinv. destruct c as [[[]|] p b lp its d]; try done; [|inversion Hst].
  destruct Hinv as (s1 & s2 & Hs & Hp & Hb & Hv & HF); simpl in *.
  assert (drop p t = escape s2) as Hdrop.
  { unfold t. rewrite Hs, escape_app, Hp. apply drop_app_length. }
  pose proof (pend_vals its b p Hb) as Hpv. rewrite Hv in Hpv.
  pose proof (pend_text its b p HF) as Hpt.
  assert (forall c, t !! p = Some c -> exists s3, s2 = c :: s3) as Hhead.
  { intros c Hc. rewrite (drop_S _ _ _ Hc) in Hdrop. destruct s2 as [|x s3]; [done|].
    simpl in Hdrop. case_bool_decide; simplify_eq; eauto. }
  assert (forall s3, s2 = "$"%char :: s3 -> t !! p = Some "$"%char /\ t !! S p = Some "$"%char) as Hdd.
  { intros s3 ->. simpl in Hdrop. split.
    - by rewrite <- (Nat.add_0_r p), <- lookup_drop, Hdrop.
    - by rewrite <- (Nat.add_1_r p), <- lookup_drop, Hdrop. }
  inversion Hst; subst; unfold esc_inv; simpl.
  - exists (pend t its b (length (escape s1))). split; [congruence|]. split; [done|].
    rewrite Hpv. destruct s2; [by rewrite app_nil_r in Hs|]. exfalso.
    rewrite drop_ge in Hdrop by lia. simpl in Hdrop. by case_bool_decide.
  - destruct (Hhead _ ltac:(done)) as [s3 ->].
    exists (s1 ++ ["$"%char]), s3. split; [by rewrite <- app_assoc|].
    split; [rewrite escape_app, length_app; simpl; lia|]. split; [done|].
    rewrite fmap_app, concat_app, Hpv, slice_nil, app_nil_r. split.
    + f_equal. simpl. rewrite app_nil_r. unfold slice.
      match goal with H0 : t !! S _ = _ |- _ => rewrite (drop_S _ _ _ H0) end.
      by replace (S (S (length (escape s1))) - S (length (escape s1))) with 1 by lia.
    + apply Forall_app. split; [done|]. by constructor.
  - destruct (Hhead _ ltac:(done)) as [s3 ->]. destruct (Hdd _ eq_refl). simplify_eq.
  - destruct (Hhead _ ltac:(done)) as [s3 ->]. destruct (Hdd _ eq_refl) as [_ Hd2].
    exfalso. by eapply (alnum_not t _ r w "$"%char).
  - destruct (Hhead _ ltac:(done)) as [s3 ->]. destruct (Hdd _ eq_refl) as [_ Hd2].
    apply (rune_at_ascii t _ "$"%char eq_refl) in Hd2.
    match goal with H0 : forall r w, _ |- _ => by destruct (H0 _ _ Hd2) end.
  - match goal with H0 : rune_at _ _ _ _, H1 : r <> dollar |- _ =>
      pose proof (rune_no_dollar _ _ _ H0 H1) as Hnd; pose proof (rune_at_width _ _ _ _ H0) as [Hw1 Hw2] end.
    rewrite Hdrop in Hnd. destruct (escape_prefix s2 w Hnd) as [Ht1 Ht2].
    exists (s1 ++ take w s2), (drop w s2).
    assert (length (take w s2) = w) as Hlw.
    { rewrite <- Ht1, <- Hdrop. rewrite length_take, length_drop. lia. }
    split; [by rewrite <- app_assoc, take_drop|]. split.
    { rewrite escape_app, length_app. f_equal.
      rewrite <- (take_drop w s2) in Ht1 at 1. rewrite escape_app in Ht1.
      apply (f_equal length) in Ht2 as Hl2. rewrite length_drop in Hl2.
      pose proof (f_equal length (eq_sym (escape_app (take w s2) (drop w s2)))) as Hl3.
      rewrite take_drop, length_app in Hl3.
      assert (w <= length (escape s2)) by (rewrite <- Hdrop, length_drop; lia). lia. }
    split; [lia|]. split; [|done].
    rewrite <- (slice_app t b (length (escape s1))) by lia. rewrite app_assoc. f_equal; [done|].
    unfold slice. rewrite Hdrop. by replace (length (escape s1) + w - length (escape s1)) with w by lia.
Qed.

Lemma lex_escape_tokens :
  exists l, lex t = l ++ [Item itemEOF (length t) []] /\
    Forall (fun i => typ i = itemText) l /\ concat (val <$> l) = s.
Proof.
  destruct (run_final t LexText (newLexer t) (2 * length t + 2)) as (l & Hr & Hf).
  { done. } { apply newLexer_inv. } { unfold fuel_left; simpl; lia. }
  assert (forall n st l l', input l = t -> lex_inv t (abs (Some st) l) ->
    esc_inv (abs (Some st) l) -> run n st l = Some l' -> esc_inv (abs None l')) as Hrun.
  { clear. induction n as [|n IH]; intros st l l' Hi HI He Hr; [done|]. simpl in Hr.
    destruct (stateStep st l) as [l2 st2] eqn:E.
    destruct (stateStep_lstep t _ _ _ _ Hi HI E) as [Hst Hi2].
    pose proof (esc_step _ _ Hst He). pose proof (lstep_inv t _ _ Hst HI).
    destruct st2; [by eapply IH|by simplify_eq]. }
  apply Hrun in Hr as Hfin.
  - unfold lex. by rewrite Hr.
  - done.
  - apply newLexer_inv.
  - exists [], s. simpl. split; [done|]. split; [done|]. split; [lia|]. split; [done|constructor].
Qed.
End escaping.

(** ** Theorems *)

Section theorems.
Context `{UnicodeTables}.

Lemma run_lex s :
  exists l, run (2 * length s + 2) LexText (newLexer s) = Some l /\ lex s = items l /\
    lex_final s (abs None l).
Proof.
  destruct (run_final s LexText (newLexer s) (2 * length s + 2)) as (l & Hr & Hf).
  - done.
  - apply newLexer_inv.
  - unfold fuel_left; simpl. lia.
  - exists l. split; [done|]. split; [|done]. unfold lex. by rewrite Hr.
Qed.

Lemma lex_closed s : no_dollar_under s -> scans (lex s) = Stop.
Proof.
  intros Hno. destruct (run_lex s) as (l & Hr & -> & _).
  apply (run_closed s Hno LexText (newLexer s) (2 * length s + 2)); [done| |done].
  split; simpl; try done.
  - apply newLexer_inv.
  - intros _. split; [done|]. by left.
Qed.

Lemma covers_length s l n : covers s l n -> n <= length s.
Proof.
  destruct 1; [lia|lia|].
  match goal with H0 : s !! S n = _ |- _ => apply lookup_lt_Some in H0; lia end.
Qed.

Lemma covers_concat s l n :
  (forall i, s !! i = Some "$"%char -> s !! S i <> Some "$"%char) ->
  covers s l n -> concat (val <$> l) = take n s.
Proof.
  intros Hno. induction 1 as [|l n m t Hc IH Hm|l n Hc IH H1 H2].
  - done.
  - rewrite fmap_app, concat_app, IH. simpl. rewrite app_nil_r.
    pose proof (slice_app s 0 n m ltac:(lia) ltac:(lia)) as Hs.
    unfold slice in Hs at 1 3. by rewrite drop_0, !Nat.sub_0_r in Hs.
  - by destruct (Hno _ H1).
Qed.

(** C33: the lexer goroutine terminates on every input, and the tokens it sends
    tile the whole input: every token is the slice of the input at its
    position, tokens are contiguous, the only bytes dropped are the first
    dollar signs of [$$] escapes, and the stream ends with the end-of-file
    token or with the error for a missing closing brace. *)
Theorem lex_tiles_input s :
  (exists l, run (2 * length s + 2) LexText (newLexer s) = Some l) /\
  ((exists l, lex s = l ++ [Item itemEOF (length s) []] /\ covers s (lex s) (length s)) \/
   (exists l, lex s = l ++ [Item itemError (length s) (go "closing brace expected")] /\
      covers s l (length s))).
Proof.
  destruct (run_lex s) as (l & Hr & -> & _ & Hf). split; [by exists l|]. done.
Qed.

(** on an input without [$$] escapes that lexes without error, the values
    of the tokens concatenate to the input: nothing is lost or invented. *)
Theorem lex_lossless s :
  (forall i, s !! i = Some "$"%char -> s !! S i <> Some "$"%char) ->
  (forall i, i ∈ lex s -> typ i <> itemError) ->
  concat (val <$> lex s) = s.
Proof.
  intros Hno Herr. destruct (run_lex s) as (l & _ & Hl & _ & [(l0 & He & Hc)|(l0 & He & Hc)]);
    simpl in *; rewrite Hl in *.
  - rewrite (covers_concat s _ _ Hno Hc). apply take_ge. lia.
  - destruct (Herr (Item itemError (length s) (go "closing brace expected"))); [|done].
    rewrite He. set_solver.
Qed.
End theorems.

Definition no_byte_pair (c d : ascii) (s : gostring) : bool :=
  bool_decide (Forall (fun i => s !! i = Some c -> s !! S i <> Some d) (seq 0 (length s))).

Lemma no_byte_pair_spec c d s :
  no_byte_pair c d s = true -> forall i, s !! i = Some c -> s !! S i <> Some d.
Proof.
  intros Hb%bool_decide_eq_true i Hi. rewrite Forall_forall in Hb.
  apply (Hb i); [|done]. apply elem_of_seq. apply lookup_lt_Some in Hi. lia.
Qed.

Lemma lex_lossless_witness :
  concat (val <$> lex (H := latin1_tables) (go "a ${B:-$C} d")) = go "a ${B:-$C} d".
Proof.
  apply (lex_lossless (H := latin1_tables)).
  - apply no_byte_pair_spec. vm_compute. reflexivity.
  - apply Forall_forall. vm_compute. repeat constructor; discriminate.
Defined.
