(* ===== verification/FilePath.v ===== *)
(** * Paths and files ([internal/nhctl/fp/filepath.go])

    [FilePathEnhance] is nhctl's handle on a file: an absolute path with a
    cached content.  The operating system is a parameter: the readable files,
    the working and home directories and the text of a read error.
    [filepath.Clean] and [filepath.Abs] are modelled after their documentation
    for Unix paths. *)

From S2P Require Import Prelude GoStrings.

(** What the code sees of the operating system. *)
Record OS := {
  files : gmap gostring gostring;
  cwd : gostring;
  home : option gostring;
  read_error : gostring -> gostring
}.

Definition os_read (o : OS) (p : gostring) : res gostring gostring :=
  match files o !! p with
  | Some c => Ok c
  | None => Err (read_error o p)
  end.

(** ** [path/filepath] *)

Definition slash : gostring := go "/".

Definition IsAbs (p : gostring) : bool := HasPrefix p slash.

(** The components kept by [Clean], innermost first. *)
Fixpoint clean_comps (rooted : bool) (stack comps : list gostring) : list gostring :=
  match comps with
  | [] => stack
  | c :: cs =>
      if bool_decide (c = []) || bool_decide (c = go ".") then clean_comps rooted stack cs
      else if bool_decide (c = go "..") then
        match stack with
        | t :: ts => if bool_decide (t = go "..") then clean_comps rooted (c :: stack) cs
                     else clean_comps rooted ts cs
        | [] => clean_comps rooted (if rooted then [] else [c]) cs
        end
      else clean_comps rooted (c :: stack) cs
  end.

Definition Clean (p : gostring) : gostring :=
  let rooted := IsAbs p in
  let out := Join (rev (clean_comps rooted [] (Split p slash))) slash in
  if rooted then slash ++ out else if bool_decide (out = []) then go "." else out.

Definition filepath_Abs (o : OS) (p : gostring) : gostring :=
  if IsAbs p then Clean p
  else if bool_decide (p = []) then Clean (cwd o) else Clean (cwd o ++ slash ++ p).

(** ** [FilePathEnhance] *)

Record FilePathEnhance := {
  Path : gostring;
  absPath : gostring;
  cached : bool;
  content : gostring
}.

Definition NewFilePath (o : OS) (path : gostring) : FilePathEnhance :=
  let path := if HasPrefix path (go "~") then
                match home o with
                | Some h => h ++ drop 1 path
                | None => path
                end
              else path in
  {| Path := path; absPath := filepath_Abs o path; cached := false; content := [] |}.

Definition Abs (f : FilePathEnhance) : gostring := absPath f.

(** The loop of [RelOrAbs] over the components of the relative path. *)
Fixpoint rel_comps (base comps : list gostring) : list gostring :=
  match comps with
  | [] => base
  | s :: cs =>
      if bool_decide (s = []) then rel_comps base cs
      else if bool_decide (s = go ".") then rel_comps base cs
      else if bool_decide (s = go "..") then
        match base with
        | [] => rel_comps base cs
        | _ => rel_comps (take (length base - 1) base) cs
        end
      else rel_comps (base ++ [s]) cs
  end.

Definition RelOrAbs (o : OS) (f : FilePathEnhance) (path : gostring) : FilePathEnhance :=
  if IsAbs path then NewFilePath o path
  else
    let baseSplited := Split (absPath f) slash in
    NewFilePath o (Join (rel_comps baseSplited (Split path slash)) slash).

Definition set_cache (f : FilePathEnhance) (cch : bool) (c : gostring) : FilePathEnhance :=
  {| Path := Path f; absPath := absPath f; cached := cch; content := c |}.

(** The deferred assignment marks the handle as cached whether or not the read
    succeeded. *)
Definition ReadFile (o : OS) (f : FilePathEnhance) : FilePathEnhance * gostring :=
  let c := if cached f then content f
           else match os_read o (absPath f) with
                | Ok b => b
                | Err _ => content f
                end in
  (set_cache f true c, c).

Definition ReadFileCompel (o : OS) (f : FilePathEnhance)
    : FilePathEnhance * res gostring gostring :=
  if cached f then (set_cache f true (content f), Ok (content f))
  else match os_read o (absPath f) with
       | Err e => (set_cache f true (content f), Err e)
       | Ok b => (set_cache f true b, Ok b)
       end.

(** A write goes to the file and drops the cache; the write itself may fail. *)
Definition WriteFile (o : OS) (ok : bool) (f : FilePathEnhance) (v : gostring)
    : OS * FilePathEnhance :=
  ({| files := if ok then <[absPath f := v]> (files o) else files o;
      cwd := cwd o; home := home o; read_error := read_error o |},
   set_cache f false (content f)).

Definition CheckExist (o : OS) (f : FilePathEnhance) : bool :=
  bool_decide (is_Some (files o !! absPath f)).

(** ** Env files *)

(** The lines a [bufio.Scanner] yields: separated by newlines, a trailing
    carriage return removed, nothing after a final newline, and nothing from the
    first line on that does not fit the 64 KiB buffer. *)
Definition newline : gostring := ["010"%char].

Definition drop_cr (l : gostring) : gostring :=
  match last l with
  | Some c => if bool_decide (c = "013"%char) then take (length l - 1) l else l
  | None => l
  end.

Fixpoint take_short (ls : list gostring) : list gostring :=
  match ls with
  | [] => []
  | l :: ls => if (Z.of_nat (length l) <? 65536)%Z then drop_cr l :: take_short ls else []
  end.

Definition raw_lines (s : gostring) : list gostring :=
  let ls := Split s newline in
  match last ls with
  | Some [] => take (length ls - 1) ls
  | _ => ls
  end.

Definition scan_lines (s : gostring) : list gostring := take_short (raw_lines s).

(** A line is kept unless it has no equals sign or is a comment. *)
Definition env_line (l : gostring) : bool :=
  negb (negb (Contains l (go "=")) || HasPrefix l (go "#")).

Definition ReadEnvFile (o : OS) (f : option FilePathEnhance) : list gostring :=
  match f with
  | None => []
  | Some f =>
      match files o !! absPath f with
      | None => []
      | Some c => List.filter env_line (scan_lines c)
      end
  end.

(** The loop of [ReadEnvFileKV]; [None] is its early [return nil]. *)
Fixpoint env_kv (acc : gmap gostring gostring) (ls : list gostring)
    : option (gmap gostring gostring) :=
  match ls with
  | [] => Some acc
  | l :: ls =>
      if negb (env_line l) then env_kv acc ls
      else match Index l (go "=") with
           | None => env_kv acc ls
           | Some i =>
               if length l - 1 =? i then None
               else env_kv (<[take i l := drop (S i) l]> acc) ls
           end
  end.

Definition ReadEnvFileKV (o : OS) (f : option FilePathEnhance) : option (gmap gostring gostring) :=
  match f with
  | None => Some ∅
  | Some f =>
      match files o !! absPath f with
      | None => Some ∅
      | Some c => env_kv ∅ (scan_lines c)
      end
  end.

(** ** Lemmas *)

Lemma IsAbs_slash p : IsAbs (slash ++ p) = true.
Proof. apply HasPrefix_app. Qed.

Lemma Split_slash_single p : "/"%char ∉ p -> Split p slash = [p].
Proof. intros Hp. rewrite Split_eq by done. 
  pose proof (proj2 (Index_single_None "/"%char p) Hp) as E.
  change ["/"%char] with slash in E. by rewrite E.
Qed.

Lemma Split_slash_cons p rest :
  "/"%char ∉ p -> Split (p ++ slash ++ rest) slash = p :: Split rest slash.
Proof. intros Hp. apply Split_piece; [done|]. by apply piece_ok_single. Qed.

(** An ordinary file name. *)
Definition plain_name (c : gostring) : Prop :=
  c <> [] /\ c <> go "." /\ c <> go ".." /\ "/"%char ∉ c.

Lemma clean_comps_plain rooted stack c cs :
  plain_name c -> clean_comps rooted stack (c :: cs) = clean_comps rooted (c :: stack) cs.
Proof.
  intros (H1 & H2 & H3 & _). simpl.
  by rewrite !bool_decide_eq_false_2 by done.
Qed.

(** A file directly under the root directory has a clean path. *)
Lemma Abs_root_file o c : plain_name c -> filepath_Abs o (slash ++ c) = slash ++ c.
Proof.
  intros Hc. unfold filepath_Abs. rewrite IsAbs_slash. unfold Clean. rewrite IsAbs_slash.
  change (slash ++ c) with ([] ++ slash ++ c) at 1.
  rewrite Split_slash_cons by set_solver. rewrite Split_slash_single by apply Hc.
  change (clean_comps true [] [[]; c]) with (clean_comps true [] [c]).
  by rewrite clean_comps_plain.
Qed.

Lemma env_kv_empty acc ls l i :
  l ∈ ls -> env_line l = true -> Index l (go "=") = Some i -> i = length l - 1 ->
  env_kv acc ls = None.
Proof.
  intros Hin He Hi Hl. revert acc. induction ls as [|l' ls IH]; intros acc; [set_solver|]. simpl.
  apply elem_of_cons in Hin as [<-|Hin].
  - by rewrite He, Hi, (proj2 (Nat.eqb_eq _ _) (eq_sym Hl)).
  - specialize (IH Hin). destruct (negb (env_line l')); [apply IH|]. destruct (Index l' (go "=")); [|apply IH].
    destruct (_ =? _); [done|apply IH].
Qed.

(** ** Theorems *)

(** reading after a successful write gives what was written, whatever was
    cached before; further reads of the handle give it again whatever happens
    to the file. *)
Theorem write_then_read o o' f v :
  let '(o1, f1) := WriteFile o true f v in
  snd (ReadFile o1 f1) = v /\ snd (ReadFile o' (fst (ReadFile o1 f1))) = v.
Proof. unfold ReadFile, os_read; simpl. by rewrite lookup_insert_eq. Qed.

(** a failed [ReadFileCompel] marks the handle as cached, so that asking
    again succeeds with the empty content, even if the file is still missing. *)
Theorem ReadFileCompel_error_once o o' f :
  cached f = false -> content f = [] -> files o !! absPath f = None ->
  snd (ReadFileCompel o f) = Err (read_error o (absPath f)) /\
  snd (ReadFileCompel o' (fst (ReadFileCompel o f))) = Ok [].
Proof.
  intros Hc Hk Hf. unfold ReadFileCompel at 1 3, os_read. rewrite Hc, Hf; simpl. by rewrite Hk.
Qed.

(** the parent of a file in the root directory is computed as the empty
    path and so becomes the working directory. *)
Theorem RelOrAbs_parent_of_root_file o c :
  plain_name c ->
  absPath (RelOrAbs o (NewFilePath o (slash ++ c)) (go "../")) = Clean (cwd o).
Proof.
  intros Hc. unfold RelOrAbs. change (IsAbs (go "../")) with false. cbv iota zeta.
  assert (absPath (NewFilePath o (slash ++ c)) = slash ++ c) as ->
    by (by apply Abs_root_file).
  change (Split (go "../") slash) with [go ".."; []].
  change (slash ++ c) with ([] ++ slash ++ c).
  rewrite Split_slash_cons by set_solver. by rewrite Split_slash_single by apply Hc.
Qed.

(** one line that sets a variable to the empty string makes
    [ReadEnvFileKV] forget every variable of the file. *)
Theorem ReadEnvFileKV_empty_value o f c k :
  files o !! absPath f = Some c ->
  "="%char ∉ k -> HasPrefix (k ++ go "=") (go "#") = false ->
  k ++ go "=" ∈ scan_lines c ->
  ReadEnvFileKV o (Some f) = None.
Proof.
  intros Hf Hk Hh Hl. simpl. rewrite Hf.
  pose proof (piece_ok_single _ _ Hk) as Hi. unfold piece_ok in Hi.
  eapply env_kv_empty; [exact Hl| |exact Hi|].
  - unfold env_line, Contains. rewrite Hh. change (go "=") with ["="%char]. by rewrite Hi.
  - rewrite length_app. simpl. lia.
Qed.

(** ** The theorems on concrete files *)

Definition os_demo : OS := {|
  files := {[ go "/e" := go "A=1" ++ newline ++ go "B=" ++ newline ++ go "C=3" ++ newline ]};
  cwd := go "/w"; home := None;
  read_error := fun p => go "open " ++ p ++ go ": no such file or directory"
|}.

Lemma ReadFileCompel_error_once_witness :
  snd (ReadFileCompel os_demo (fst (ReadFileCompel os_demo (NewFilePath os_demo (go "/x"))))) = Ok [].
Proof.
  eapply (ReadFileCompel_error_once os_demo os_demo (NewFilePath os_demo (go "/x")));
    vm_compute; reflexivity.
Defined.

Lemma RelOrAbs_parent_of_root_file_witness :
  absPath (RelOrAbs os_demo (NewFilePath os_demo (slash ++ go "t.yaml")) (go "../")) = Clean (go "/w").
Proof.
  apply (RelOrAbs_parent_of_root_file os_demo (go "t.yaml")).
  split; [discriminate|]. split; [discriminate|]. split; [discriminate|]. apply (bool_decide_eq_true_1 _). vm_compute. reflexivity.
Defined.

Lemma ReadEnvFileKV_empty_value_witness :
  ReadEnvFileKV os_demo (Some (NewFilePath os_demo (go "/e"))) = None.
Proof.
  eapply (ReadEnvFileKV_empty_value os_demo (NewFilePath os_demo (go "/e"))
            _ (go "B")).
  - vm_compute. reflexivity.
  - apply (bool_decide_eq_true_1 _). vm_compute. reflexivity.
  - vm_compute. reflexivity.
  - apply (bool_decide_eq_true_1 _). vm_compute. reflexivity.
Defined.
