(* ===== verification/EnvParse.v ===== *)
(** * The template renderer ([internal/nhctl/envsubst])

    [env.go] (variable lookup), [node.go] (evaluation of the parsed nodes),
    [parse.go] (the parser, the [_INCLUDE_] directive and [Parse]) and
    [envsubst.go] ([Render]).  The parser reads the lexer's channel: the list of
    tokens of [EnvLex.lex], and the zero item for ever after it.  A loop that is
    cut short by its fuel answers [Fuel], a nil dereference [Panic]. *)

From S2P Require Import Prelude GoStrings EnvLex FilePath.
#[local] Open Scope go_scope.

(** ** Environments ([env.go]) *)

Abbreviation Env := (list gostring).

Fixpoint Lookup (e : Env) (name : gostring) : option gostring :=
  match e with
  | [] => None
  | kv :: e' =>
      let prefix := name ++ go "=" in
      if HasPrefix kv prefix then Some (drop (length prefix) kv) else Lookup e' name
  end.

Definition Get (e : Env) (name : gostring) : option gostring := Lookup e name.

Definition Has (e : Env) (name : gostring) : bool := bool_decide (is_Some (Lookup e name)).

(** ** Nodes ([node.go]) *)

Record Restrictions := { NoUnset : bool; NoEmpty : bool }.

Record VariableNode := {
  Ident : gostring;
  VEnv : list Env;
  Restrict : Restrictions
}.

(** [Default] of a substitution is nil, a variable or a text. *)
Inductive DefaultNode :=
  | DefaultVariable (v : VariableNode)
  | DefaultText (t : gostring).

Inductive Node :=
  | TextNode (text : gostring)
  | VarNode (v : VariableNode)
  | SubstitutionNode (expType : itemType) (v : VariableNode) (dflt : option DefaultNode).

Definition isSet (v : VariableNode) : bool := existsb (fun e => Has e (Ident v)) (VEnv v).

(** [errors.Wrap(err, "")] puts a colon in front of the message. *)
Definition Wrap (e : gostring) : gostring := go ": " ++ e.

Definition validateNoUnset (v : VariableNode) : option gostring :=
  if NoUnset (Restrict v) && negb (isSet v)
  then Some (go "variable ${" ++ Ident v ++ go "} not set") else None.

Definition validateNoEmpty (v : VariableNode) (value : gostring) : option gostring :=
  if NoEmpty (Restrict v) && bool_decide (value = []) && isSet v
  then Some (go "variable ${" ++ Ident v ++ go "} set but empty") else None.

(** The first environment that has the variable gives the value. *)
Fixpoint first_value (envs : list Env) (name : gostring) : option gostring :=
  match envs with
  | [] => None
  | e :: envs => match Get e name with
                 | Some v => Some v
                 | None => first_value envs name
                 end
  end.

(** The triple [(key, value, err)] of the [String] methods. *)
Record nodeString := NS { ns_key : gostring; ns_val : gostring; ns_err : option gostring }.

Definition VariableNode_String (t : VariableNode) : nodeString :=
  match validateNoUnset t with
  | Some err => NS (Ident t) [] (Some err)
  | None =>
      let result := match first_value (VEnv t) (Ident t) with
                    | Some value => value
                    | None => []
                    end in
      match validateNoEmpty t result with
      | Some err => NS (Ident t) [] (Some (Wrap err))
      | None => NS (Ident t) result None
      end
  end.

Definition DefaultNode_String (d : DefaultNode) : nodeString :=
  match d with
  | DefaultVariable v => VariableNode_String v
  | DefaultText t => NS [] t None
  end.

Definition StringWithDefault (v : VariableNode) (d : DefaultNode) : nodeString :=
  let k := ns_key (VariableNode_String v) in
  let dn := DefaultNode_String d in
  NS k (ns_val dn) (ns_err dn).

Definition SubstitutionNode_String (expType : itemType) (v : VariableNode)
    (dflt : option DefaultNode) : nodeString :=
  match dflt with
  | Some d =>
      if (itemType_val itemPlus <=? itemType_val expType)%Z then
        match expType with
        | itemColonDash | itemColonEquals =>
            let s := VariableNode_String v in
            if bool_decide (ns_val s <> []) then NS (ns_key s) (ns_val s) None
            else StringWithDefault v d
        | itemPlus | itemColonPlus =>
            if isSet v then StringWithDefault v d else NS (Ident v) [] None
        | _ =>
            if negb (isSet v) then StringWithDefault v d else VariableNode_String v
        end
      else VariableNode_String v
  | None => VariableNode_String v
  end.

Definition Node_String (n : Node) : nodeString :=
  match n with
  | TextNode t => NS [] t None
  | VarNode v => VariableNode_String v
  | SubstitutionNode t v d => SubstitutionNode_String t v d
  end.

(** ** The parser ([parse.go]) *)

Inductive Mode := Quick | AllErrors.

(** The parsing state: what is left of the channel, the lookahead slots and how
    many of them are pending. *)
Record pstate := PState {
  chan : list item;
  token : list item;
  peekCount : nat
}.

Definition zeroItem : item := Item itemZero 0 [].

#[export] Instance item_inhabited : Inhabited item := populate zeroItem.

Definition nextItem (p : pstate) : pstate * item :=
  match chan p with
  | [] => (p, zeroItem)
  | i :: c => (PState c (token p) (peekCount p), i)
  end.

Definition p_next (p : pstate) : pstate * item :=
  if 0 <? peekCount p then
    let p := PState (chan p) (token p) (peekCount p - 1) in
    (p, token p !!! peekCount p)
  else
    let '(p, i) := nextItem p in
    let p := PState (chan p) (<[0 := i]> (token p)) (peekCount p) in
    (p, token p !!! peekCount p).

Definition p_peek (p : pstate) : pstate * item :=
  if 0 <? peekCount p then (p, token p !!! (peekCount p - 1))
  else
    let '(p, i) := nextItem p in
    let p := PState (chan p) (<[0 := i]> (token p)) 1 in
    (p, token p !!! 0).

Definition newPState (toks : list item) : pstate :=
  PState toks [zeroItem; zeroItem; zeroItem] 0.

Section parser.
Context (envs : list Env) (r : Restrictions).

Definition NewVariable (ident : gostring) : VariableNode :=
  {| Ident := ident; VEnv := envs; Restrict := r |}.

(** The loop labelled [Text]. *)
Fixpoint text_loop (fuel : nat) (p : pstate) (text : gostring) : outcome (pstate * gostring) :=
  match fuel with
  | 0 => Fuel
  | S fuel =>
      let '(p, i) := p_peek p in
      match typ i with
      | itemRightDelim | itemError | itemEOF => Done (p, text)
      | _ => let '(p, i) := p_next p in text_loop fuel p (text ++ val i)
      end
  end.

(** The loop of [action]; the error is the second component. *)
Fixpoint action_loop (fuel : nat) (p : pstate) (v : VariableNode) (expType : itemType)
    (dflt : option DefaultNode) : outcome (pstate * res gostring Node) :=
  match fuel with
  | 0 => Fuel
  | S fuel =>
      let '(p, t) := p_next p in
      match typ t with
      | itemRightDelim => Done (p, Ok (SubstitutionNode expType v dflt))
      | itemError => Done (p, Err (val t))
      | itemVariable =>
          action_loop fuel p v expType
            (Some (DefaultVariable (NewVariable (TrimPrefix (val t) (go "$")))))
      | itemText =>
          pt <~ text_loop fuel p (val t);
          action_loop fuel (fst pt) v expType (Some (DefaultText (snd pt)))
      | ty => action_loop fuel p v ty dflt
      end
  end.

Definition action (fuel : nat) (p : pstate) : outcome (pstate * res gostring Node) :=
  let '(p, i) := p_next p in
  action_loop fuel p (NewVariable (val i)) itemZero None.

(** The top-level loop: the nodes read and the error that stopped it, if any. *)
Fixpoint parse (fuel : nat) (p : pstate) (nodes : list Node)
    : outcome (list Node * option gostring) :=
  match fuel with
  | 0 => Fuel
  | S fuel =>
      let '(p, t) := p_next p in
      match typ t with
      | itemEOF => Done (nodes, None)
      | itemError => Done (nodes, Some (val t))
      | itemVariable =>
          parse fuel p (nodes ++ [VarNode (NewVariable (TrimPrefix (val t) (go "$")))])
      | itemLeftDelim =>
          let '(p, i) := p_peek p in
          if bool_decide (typ i = itemVariable) then
            pn <~ action fuel p;
            match snd pn with
            | Err e => Done (nodes, Some e)
            | Ok n => parse fuel (fst pn) (nodes ++ [n])
            end
          else parse fuel p (nodes ++ [TextNode (val t)])
      | _ => parse fuel p (nodes ++ [TextNode (val t)])
      end
  end.
End parser.

(** ** Includes *)

Record Includation := {
  include : gostring;
  filePath : option FilePathEnhance;
  indent : Z;
  inc_err : option gostring
}.

Definition IncludeSensitive : gostring := go "\|".
Definition IncludeSeparator : gostring := go "|".
Definition Include : gostring := go "_INCLUDE_".
Definition Indent : gostring := go "nindent".
Definition AbsSign : gostring := go "#/---//---//Nocalhost//---//---/".

(** [ErrTmpl] applied to its four arguments. *)
Definition ErrTmpl (err file statement route : gostring) : gostring :=
  newline ++ go "#  ======    WARN    ======" ++ newline ++
  go "#  Error occur while resolve following includation:" ++ newline ++
  go "#  Err       :  " ++ err ++ newline ++
  go "#  File      :  " ++ file ++ newline ++
  go "#  Statement :  " ++ statement ++ newline ++
  go "#  Route     :  " ++ route ++ newline ++
  go "#  ======    WARN    ======" ++ newline.

Definition insertIndent (n : Z) (text : gostring) : gostring :=
  let text := if Contains text newline then newline ++ text else text in
  if (0 <? n)%Z then
    ReplaceAll text newline (newline ++ replicate (Z.to_nat n) " "%char)
  else text.

(** The loop of [circularDependency] over the files being included. *)
Fixpoint circular_loop (current : gostring) (hasBeenInclude : list gostring)
    (circular : bool) (route : gostring) : bool * gostring :=
  match hasBeenInclude with
  | [] => (circular, route)
  | absPath :: l =>
      if bool_decide (absPath = current) then
        circular_loop current l true
          (route ++ go "# ┌-->  " ++ absPath ++ newline ++ go "# |        ↓ [Include]" ++ newline)
      else if circular then
        circular_loop current l circular
          (route ++ go "# |     " ++ absPath ++ newline ++ go "# |        ↓ [Include]" ++ newline)
      else
        circular_loop current l circular
          (route ++ go "#       " ++ absPath ++ newline ++ go "#          ↓ [Include]" ++ newline)
  end.

Definition circularDependency (current : gostring) (hasBeenInclude : list gostring)
    : bool * gostring :=
  let '(circular, route) := circular_loop current hasBeenInclude false newline in
  if circular then (true, route ++ go "# └--- " ++ current)
  else (false, route ++ go "#      " ++ current).

Section includes.
Context (o : OS).

Definition inc_ok (inc : gostring) (f : FilePathEnhance) (n : Z) : Includation :=
  {| include := inc; filePath := Some f; indent := n; inc_err := None |}.
Definition inc_fail (inc msg : gostring) : Includation :=
  {| include := inc; filePath := None; indent := 0; inc_err := Some msg |}.

Definition parseIncludation (basePath inc : gostring) : Includation :=
  let start := match LastIndex inc IncludeSensitive with
               | None => 0
               | Some i => i + 2
               end in
  let pathPrefix := ReplaceAll (take start inc) IncludeSensitive IncludeSeparator in
  let pathAndOper := Split (drop start inc) IncludeSeparator in
  let locate path := RelOrAbs o (RelOrAbs o (NewFilePath o basePath) (go "../")) path in
  match pathAndOper with
  | [_] => let inc := TrimSpace inc in inc_ok inc (locate inc) 0
  | [p0; oper] =>
      let path := TrimSpace (pathPrefix ++ p0) in
      let operations := List.filter (fun op => bool_decide (op <> [])) (Split oper (go " ")) in
      match operations with
      | [] => inc_ok inc (locate path) 0
      | [op; arg] =>
          if bool_decide (Indent = op) then
            match Atoi arg with
            | Some n =>
                if (n <? 0)%Z then
                  inc_fail inc (go "Can not parse the indent, please make sure it's a positive integer: " ++ oper)
                else inc_ok inc (locate path) n
            | None =>
                inc_fail inc (go "Can not parse the indent, please make sure it's a positive integer: " ++ oper)
            end
          else inc_fail inc (go "Do not support such syntax yet: " ++ oper)
      | _ => inc_fail inc (go "Can not resolve the include syntax: " ++ oper)
      end
  | _ => inc_fail inc (go "Can not resolve the include syntax (may contains multi '|', if your path sensitive character contains '|', use `\|` to replace it): " ++ inc)
  end.
End includes.

(** ** [Parse] *)

(** The messages of several errors, one per line. *)
Definition join_errors (errs : list gostring) : gostring := Join errs newline.

Section render.
Context `{UnicodeTables} (o : OS) (envs : list Env) (r : Restrictions) (mode : Mode).

(** What an include directive adds to the output: the included text, indented
    and followed by the marker of the including file, or a report of why there
    is none.  [rec] is the recursive call of [Parse] on the included file. *)
Definition expand_include
    (rec : gostring -> gostring -> list gostring -> outcome (res gostring gostring))
    (absPath : gostring) (been : list gostring) (v : gostring) : outcome gostring :=
  let inc := parseIncludation o absPath v in
  match filePath inc with
  | None => Panic
  | Some f =>
      let currentAbsPath := Abs f in
      let '(circular, route) := circularDependency currentAbsPath been in
      if circular then
        Done (ErrTmpl (go "circular dependency found") currentAbsPath v route)
      else
        match inc_err inc with
        | Some e => Done (ErrTmpl e currentAbsPath v route)
        | None =>
            match snd (ReadFileCompel o f) with
            | Err e => Done (ErrTmpl e currentAbsPath v route)
            | Ok content =>
                inner <~ rec content currentAbsPath been;
                match inner with
                | Err e => Done (ErrTmpl e currentAbsPath v route)
                | Ok text =>
                    Done (insertIndent (indent inc) text ++
                          newline ++ AbsSign ++ absPath ++ newline)
                end
            end
        end
  end.

(** The loop of [Parse] over the nodes: the text and the collected errors, or
    the error of an early return. *)
Fixpoint render_nodes
    (rec : gostring -> gostring -> list gostring -> outcome (res gostring gostring))
    (absPath : gostring) (been : list gostring)
    (out : gostring) (errs : list gostring) (nodes : list Node)
    : outcome (res gostring (gostring * list gostring)) :=
  match nodes with
  | [] => Done (Ok (out, errs))
  | node :: nodes =>
      let '(NS k v err) := Node_String node in
      match err, mode with
      | Some e, Quick => Done (Err (Wrap e))
      | _, _ =>
          let errs := match err with Some e => errs ++ [e] | None => errs end in
          piece <~ (if bool_decide (k = Include) then expand_include rec absPath been v
                    else Done v);
          render_nodes rec absPath been (out ++ piece) errs nodes
      end
  end.

(** [depth] bounds the nesting of includes; the parser's loops get one
    iteration per token and one more. *)
Fixpoint Parse (depth : nat) (text absPath : gostring) (hasBeenInclude : list gostring)
    : outcome (res gostring gostring) :=
  match depth with
  | 0 => Fuel
  | S depth =>
      let been := hasBeenInclude ++ [absPath] in
      let toks := lex text in
      pr <~ parse envs r (S (length toks)) (newPState toks) [];
      match snd pr, mode with
      | Some e, Quick => Done (Err e)
      | perr, _ =>
          let errs := match perr with Some e => [e] | None => [] end in
          let out := AbsSign ++ absPath ++ newline in
          rr <~ render_nodes (Parse depth) absPath been out errs (fst pr);
          match rr with
          | Err e => Done (Err e)
          | Ok (out, errs) =>
              match errs with
              | [] => Done (Ok out)
              | _ => Done (Err (join_errors errs))
              end
          end
      end
  end.
End render.

Definition Relaxed : Restrictions := {| NoUnset := false; NoEmpty := false |}.
Definition Strict : Restrictions := {| NoUnset := true; NoEmpty := true |}.

(** [Render]: the environment of the process first, then the env file. *)
Definition Render `{UnicodeTables} (o : OS) (environ : Env) (envFile : option FilePathEnhance)
    (depth : nat) (content location : gostring) : outcome (res gostring gostring) :=
  Parse o [environ; ReadEnvFile o envFile] Relaxed Quick depth content location [].

(** ** The lookahead slots are a one-token buffer on the channel *)

Definition stream (p : pstate) : list item :=
  match peekCount p with
  | 0 => chan p
  | _ => token p !!! 0 :: chan p
  end.

Definition pwf (p : pstate) : Prop := length (token p) = 3 /\ peekCount p <= 1.

Lemma newPState_wf toks : pwf (newPState toks).
Proof. split; simpl; lia. Qed.

Lemma p_next_wf p : pwf p -> pwf (fst (p_next p)).
Proof.
  intros [Ht Hp]. unfold p_next, nextItem.
  destruct (Nat.ltb_spec 0 (peekCount p)); [split; simpl; [done|lia]|].
  destruct (chan p); split; simpl; rewrite ?length_insert; done.
Qed.

Lemma p_peek_wf p : pwf p -> pwf (fst (p_peek p)).
Proof.
  intros [Ht Hp]. unfold p_peek, nextItem.
  destruct (Nat.ltb_spec 0 (peekCount p)); [done|].
  destruct (chan p); split; simpl; rewrite ?length_insert; (done || lia).
Qed.

Lemma p_next_stream p :
  pwf p ->
  snd (p_next p) = default zeroItem (head (stream p)) /\
  stream (fst (p_next p)) = tail (stream p).
Proof.
  destruct p as [c t k]. intros [Ht Hp]; simpl in *. unfold p_next, stream, nextItem; simpl.
  destruct k as [|[|k]]; simpl; [|done|lia].
  destruct t as [|t0 t]; [done|]. by destruct c.
Qed.

Lemma p_peek_stream p :
  pwf p ->
  snd (p_peek p) = default zeroItem (head (stream p)) /\
  stream (fst (p_peek p)) = default zeroItem (head (stream p)) :: tail (stream p).
Proof.
  destruct p as [c t k]. intros [Ht Hp]; simpl in *. unfold p_peek, stream, nextItem; simpl.
  destruct k as [|[|k]]; simpl; [|done|lia].
  destruct t as [|t0 t]; [done|]. by destruct c.
Qed.

Definition scan_from (q : scanState) (l : list item) : scanState := foldl scan q (typ <$> l).

Lemma scan_from_cons q i l : scan_from q (i :: l) = scan_from (scan q (typ i)) l.
Proof. done. Qed.

Section parser_facts.
Context (envs : list Env) (r : Restrictions).

Lemma p_next_cons p i l :
  pwf p -> stream p = i :: l ->
  exists p', p_next p = (p', i) /\ pwf p' /\ stream p' = l.
Proof.
  intros Hp Hs. pose proof (p_next_stream p Hp) as [Hi Ht]. pose proof (p_next_wf p Hp).
  destruct (p_next p) as [p' j]; simpl in *. rewrite Hs in *. simpl in *. subst j. eauto.
Qed.

Lemma p_peek_cons p i l :
  pwf p -> stream p = i :: l ->
  exists p', p_peek p = (p', i) /\ pwf p' /\ stream p' = i :: l.
Proof.
  intros Hp Hs. pose proof (p_peek_stream p Hp) as [Hi Ht]. pose proof (p_peek_wf p Hp).
  destruct (p_peek p) as [p' j]; simpl in *. rewrite Hs in *. simpl in *. subst j. eauto.
Qed.

Lemma scan_from_Hang l : scan_from Hang l = Hang.
Proof. by induction l. Qed.

(** Scanning a stream that is stopped in time. *)
Lemma text_loop_done fuel p text :
  pwf p -> scan_from Inside (stream p) = Stop -> length (stream p) < fuel ->
  exists p' t, text_loop fuel p text = Done (p', t) /\ pwf p' /\
    scan_from Inside (stream p') = Stop /\ length (stream p') <= length (stream p).
Proof.
  revert p text. induction fuel as [|fuel IH]; intros p text Hp Hsc Hf; [lia|]. simpl.
  destruct (stream p) as [|i l] eqn:Hs; [done|].
  destruct (p_peek_cons p i l Hp Hs) as (p1 & -> & Hp1 & Hs1).
  destruct (p_next_cons p1 i l Hp1 Hs1) as (p2 & E2 & Hp2 & Hs2).
  assert (scan Inside (typ i) = Inside ->
    exists p' t, text_loop fuel p2 (text ++ val i) = Done (p', t) /\ pwf p' /\
      scan_from Inside (stream p') = Stop /\ length (stream p') <= S (length l)) as Hgo.
  { intros Hin. rewrite scan_from_cons, Hin in Hsc. simpl in Hf.
    destruct (IH p2 (text ++ val i) Hp2) as (p' & t & -> & ? & ? & Hl);
      rewrite ?Hs2 in *; [done|lia|].
    exists p', t. split; [done|]. split; [done|]. split; [done|lia]. }
  destruct (typ i); rewrite ?E2; try (by apply Hgo);
    exists p1, text; rewrite Hs1; done.
Qed.

Lemma action_loop_done fuel p v ty d :
  pwf p -> scan_from Inside (stream p) = Stop -> length (stream p) < fuel ->
  exists p' n, action_loop envs r fuel p v ty d = Done (p', n) /\ pwf p' /\
    length (stream p') < length (stream p) /\
    (forall m, n = Ok m -> scan_from Out (stream p') = Stop).
Proof.
  revert p ty d. induction fuel as [|fuel IH]; intros p ty d Hp Hsc Hf; [lia|]. simpl.
  destruct (stream p) as [|i l] eqn:Hs; [done|].
  destruct (p_next_cons p i l Hp Hs) as (p1 & -> & Hp1 & Hs1).
  rewrite scan_from_cons in Hsc. simpl in Hf.
  assert (forall ty d, scan Inside (typ i) = Inside ->
    exists p' n, action_loop envs r fuel p1 v ty d = Done (p', n) /\ pwf p' /\
      length (stream p') < S (length l) /\
      (forall m, n = Ok m -> scan_from Out (stream p') = Stop)) as Hgo.
  { intros ty' d' Hin. rewrite Hin in Hsc.
    destruct (IH p1 ty' d' Hp1) as (p' & n & ? & ? & Hl & ?); rewrite ?Hs1 in *; [done|lia|].
    exists p', n. split; [done|]. split; [done|]. split; [lia|done]. }
  destruct (typ i) eqn:Ht; try (by apply Hgo).
  - exists p1, (Err (val i)). rewrite Hs1. split; [done|]. split; [done|]. split; [simpl; lia|done].
  - by rewrite scan_from_Hang in Hsc.
  - simpl in Hsc.
    destruct (text_loop_done fuel p1 (val i) Hp1) as (p2 & t & -> & Hp2 & Hsc2 & Hl2);
      rewrite ?Hs1; [done|lia|]. rewrite Hs1 in Hl2. simpl.
    destruct (IH p2 ty (Some (DefaultText t)) Hp2 Hsc2) as (p' & n & ? & ? & ? & ?); [lia|].
    exists p', n. split; [done|]. split; [done|]. split; [lia|done].
  - eexists p1, _. rewrite Hs1. split; [done|]. split; [done|]. split; [simpl; lia|].
    intros _ _. done.
Qed.

(** The parser returns on a stream in which every substitution is closed. *)
Lemma parse_done fuel p nodes :
  pwf p -> scan_from Out (stream p) = Stop -> length (stream p) < fuel ->
  exists res, parse envs r fuel p nodes = Done res.
Proof.
  revert p nodes. induction fuel as [|fuel IH]; intros p nodes Hp Hsc Hf; [lia|]. simpl.
  destruct (stream p) as [|i l] eqn:Hs; [done|].
  destruct (p_next_cons p i l Hp Hs) as (p1 & -> & Hp1 & Hs1).
  rewrite scan_from_cons in Hsc. simpl in Hf.
  assert (forall nodes, scan Out (typ i) = Out ->
    exists res, parse envs r fuel p1 nodes = Done res) as Hgo.
  { intros ns Ho. rewrite Ho in Hsc. apply IH; [done|by rewrite Hs1|rewrite Hs1; lia]. }
  destruct (typ i) eqn:Ht; try (by apply Hgo); [by eexists|by eexists|].
  simpl in Hsc. destruct l as [|j l]; [done|].
  destruct (p_peek_cons p1 j l Hp1 Hs1) as (p2 & -> & Hp2 & Hs2). simpl in Hf.
  rewrite scan_from_cons in Hsc.
  destruct (bool_decide_reflect (typ j = itemVariable)) as [Hv|Hv].
  - rewrite Hv in Hsc. unfold action.
    destruct (p_next_cons p2 j l Hp2 Hs2) as (p3 & -> & Hp3 & Hs3).
    destruct (action_loop_done fuel p3 (NewVariable envs r (val j)) itemZero None Hp3)
      as (p4 & n & -> & Hp4 & Hl4 & Hn4); rewrite ?Hs3; [done|lia|]. simpl.
    rewrite Hs3 in Hl4.
    destruct n as [n|e]; [|by eexists]. apply IH; [done|by eapply Hn4|lia].
  - apply IH; [done| |rewrite Hs2; simpl; lia]. rewrite Hs2, scan_from_cons.
    by destruct (typ j).
Qed.

(** Reading for ever: the tokens that neither close nor abort a substitution. *)
Definition open_token (i : item) : Prop := typ i <> itemRightDelim /\ typ i <> itemError.

Lemma open_head l : Forall open_token l -> open_token (default zeroItem (head l)).
Proof. destruct 1; [done|done]. Qed.
Lemma open_tail l : Forall open_token l -> Forall open_token (tail l).
Proof. by destruct 1. Qed.

Lemma text_loop_open fuel p text p' t :
  pwf p -> Forall open_token (stream p) -> text_loop fuel p text = Done (p', t) ->
  pwf p' /\ Forall open_token (stream p').
Proof.
  revert p text. induction fuel as [|fuel IH]; intros p text Hp Ho Ht; [done|]. simpl in Ht.
  pose proof (p_peek_stream p Hp) as [Hi1 Hs1]. pose proof (p_peek_wf p Hp) as Hp1.
  destruct (p_peek p) as [p1 i1]; simpl in *.
  assert (Forall open_token (stream p1)) as Ho1.
  { rewrite Hs1. constructor; [by apply open_head|by apply open_tail]. }
  pose proof (p_next_stream p1 Hp1) as [Hi2 Hs2]. pose proof (p_next_wf p1 Hp1) as Hp2.
  destruct (p_next p1) as [p2 i2]; simpl in *.
  assert (Forall open_token (stream p2)) as Ho2 by (rewrite Hs2; by apply open_tail).
  destruct (typ i1); simplify_eq; eauto.
Qed.

Lemma action_loop_open fuel p v ty d :
  pwf p -> Forall open_token (stream p) -> action_loop envs r fuel p v ty d = Fuel.
Proof.
  revert p ty d. induction fuel as [|fuel IH]; intros p ty d Hp Ho; [done|]. simpl.
  pose proof (p_next_stream p Hp) as [Hi Hs]. pose proof (p_next_wf p Hp) as Hp1.
  destruct (p_next p) as [p1 i]; simpl in *.
  pose proof (open_head _ Ho) as Hoi. rewrite <- Hi in Hoi. destruct Hoi as [Hr He].
  assert (Forall open_token (stream p1)) as Ho1 by (rewrite Hs; by apply open_tail).
  destruct (typ i); try done; try (by apply IH).
  destruct (text_loop fuel p1 (val i)) as [[p2 t]| |] eqn:Et; [|exfalso|done].
  - destruct (text_loop_open _ _ _ _ _ Hp1 Ho1 Et). by apply IH.
  - clear -Et. revert Et. generalize p1 (val i). induction fuel as [|fuel IH]; simpl; [done|].
    intros q x. destruct (p_peek q) as [q1 j1], (p_next q1) as [q2 j2].
    destruct (typ j1); (done || apply IH).
Qed.
End parser_facts.

(** ** Facts about includes and evaluation *)

Lemma NewFilePath_fresh o p : cached (NewFilePath o p) = false.
Proof. done. Qed.

Lemma RelOrAbs_fresh o f p : cached (RelOrAbs o f p) = false.
Proof. unfold RelOrAbs. by destruct (IsAbs p). Qed.

(** A rejected include names no file, an accepted one a file not read yet. *)
Lemma parseIncludation_cases o base inc :
  (exists f n i, parseIncludation o base inc = inc_ok i f n /\ cached f = false) \/
  (exists e, parseIncludation o base inc = inc_fail inc e).
Proof.
  unfold parseIncludation. repeat case_match; eauto 10 using RelOrAbs_fresh.
Qed.

Lemma circular_loop_spec current l b route :
  fst (circular_loop current l b route) = true <-> b = true \/ current ∈ l.
Proof.
  revert b route. induction l as [|x l IH]; intros b route; simpl; [set_solver|].
  case_bool_decide as Hx; [rewrite IH; set_solver|].
  destruct b; rewrite IH; set_solver.
Qed.

Lemma circular_iff current been :
  fst (circularDependency current been) = true <-> current ∈ been.
Proof.
  unfold circularDependency.
  pose proof (circular_loop_spec current been false newline) as Hs.
  destruct (circular_loop current been false newline) as [b route]; simpl in *.
  destruct b; simpl; naive_solver.
Qed.

Lemma isSet_first v : isSet v = bool_decide (is_Some (first_value (VEnv v) (Ident v))).
Proof.
  unfold isSet, Has, Get. induction (VEnv v) as [|e es IH]; simpl; [done|].
  unfold Get. rewrite IH. destruct (Lookup e (Ident v)); simpl; done.
Qed.

Section parse_facts.
Context `{UnicodeTables} (o : OS) (envs : list Env) (r : Restrictions).

Lemma parse_texts l e fuel nodes p :
  pwf p -> stream p = l ++ [e] -> Forall (fun i => typ i = itemText) l -> typ e = itemEOF ->
  length l < fuel ->
  parse envs r fuel p nodes = Done (nodes ++ ((TextNode ∘ val) <$> l), None).
Proof.
  revert fuel nodes p. induction l as [|i l IH]; intros [|fuel] nodes p Hp Hs HF He Hf;
    simpl in *; try lia.
  - destruct (p_next_cons p e [] Hp Hs) as (p1 & -> & _ & _). rewrite He.
    by rewrite app_nil_r.
  - destruct (p_next_cons p i (l ++ [e]) Hp Hs) as (p1 & -> & Hp1 & Hs1).
    apply Forall_cons in HF as [-> HF].
    rewrite (IH fuel _ p1 Hp1 Hs1 HF He) by lia. by rewrite <- app_assoc.
Qed.

Lemma render_texts mode rec abs been out errs ts :
  render_nodes o mode rec abs been out errs (TextNode <$> ts) =
  Done (Ok (out ++ concat ts, errs)).
Proof.
  revert out. induction ts as [|t ts IH]; intros out; simpl; [by rewrite app_nil_r|].
  rewrite IH. by rewrite <- app_assoc.
Qed.

(** The files not on the current chain of includes. *)
Definition unvisited (been : list gostring) : gset gostring :=
  dom (files o) ∖ list_to_set been.

(** The argument of an include directive that the syntax of directives rejects. *)
Definition rejected (v : gostring) : Prop := exists base, filePath (parseIncludation o base v) = None.

(** An outcome that is no endless run, and a panic only for [P]. *)
Definition ends {A : Type} (P : Prop) (x : outcome A) : Prop :=
  match x with Done _ => True | Panic => P | Fuel => False end.

Lemma expand_include_ends P rec abs been v :
  (forall p c, files o !! p = Some c -> p ∉ been -> ends P (rec c p been)) ->
  (rejected v -> P) -> ends P (expand_include o rec abs been v).
Proof.
  intros Hrec Hv. unfold expand_include.
  destruct (parseIncludation_cases o abs v) as [(f & m & i & -> & Hfresh)|(e & He)]; simpl.
  2:{ rewrite He. simpl. apply Hv. exists abs. by rewrite He. }
  pose proof (circular_iff (Abs f) been) as Hci.
  destruct (circularDependency (Abs f) been) as [[] route]; simpl in Hci; [done|].
  unfold ReadFileCompel, os_read. rewrite Hfresh.
  destruct (files o !! absPath f) as [c|] eqn:Hf; simpl; [|done].
  assert (ends P (rec c (Abs f) been)) as Hr by (apply Hrec; [done|naive_solver]).
  by destruct (rec c (Abs f) been) as [[]| |].
Qed.

Lemma render_nodes_ends P mode rec abs been out errs nodes :
  (forall p c, files o !! p = Some c -> p ∉ been -> ends P (rec c p been)) ->
  (forall n v err, n ∈ nodes -> Node_String n = NS Include v err -> rejected v -> P) ->
  ends P (render_nodes o mode rec abs been out errs nodes).
Proof.
  intros Hrec. revert out errs. induction nodes as [|n nodes IH]; intros out errs Hn; simpl; [done|].
  specialize (IH) with (1 := fun n' v e Hin => Hn n' v e (list_elem_of_further _ _ _ Hin)).
  assert (forall v err, Node_String n = NS Include v err -> rejected v -> P) as Hn0 by (intros v err; apply Hn; left).
  destruct (Node_String n) as [k v err].
  assert (ends P (if bool_decide (k = Include) then expand_include o rec abs been v else Done v)) as Hbody.
  { case_bool_decide as Hk; [|done]. apply expand_include_ends; [done|]. subst k. by eapply Hn0. }
  destruct (if bool_decide _ then _ else _) as [piece| |]; [|by destruct err, mode|by destruct err, mode].
  destruct err, mode; (done || apply IH).
Qed.
End parse_facts.

Section total.
Context `{UnicodeTables} (o : OS) (envs : list Env) (r : Restrictions) (mode : Mode).

(** Every substitution that a template opens is closed or reported as an error. *)
Definition closes (s : gostring) : Prop := scans (lex s) = Stop.

Lemma parse_lex_done s :
  closes s -> exists res, parse envs r (S (length (lex s))) (newPState (lex s)) [] = Done res.
Proof.
  intros Hs. apply parse_done; [apply newPState_wf|exact Hs|unfold stream; simpl; lia].
Qed.

Lemma unvisited_step been p c :
  files o !! p = Some c -> p ∉ been ->
  size (unvisited o (been ++ [p])) < size (unvisited o been).
Proof.
  intros Hp Hb. unfold unvisited. apply subset_size.
  rewrite list_to_set_app_L. simpl. apply elem_of_dom_2 in Hp.
  assert (p ∈ dom (files o) ∖ (list_to_set been : gset gostring)) as Hin.
  { apply elem_of_difference. split; [done|]. by rewrite elem_of_list_to_set. }
  split; [set_solver|]. intros Hsub. specialize (Hsub p Hin). set_solver.
Qed.

(** A template with an include directive that the syntax rejects. *)
Definition bad_include (s : gostring) : Prop :=
  exists nodes perr node v err, parse envs r (S (length (lex s))) (newPState (lex s)) [] = Done (nodes, perr) /\
    node ∈ nodes /\ Node_String node = NS Include v err /\ rejected o v.

Lemma Parse_ends_aux P depth text abs been :
  (forall p c, files o !! p = Some c -> closes c /\ (bad_include c -> P)) -> closes text -> (bad_include text -> P) ->
  size (unvisited o (been ++ [abs])) < depth ->
  ends P (Parse o envs r mode depth text abs been).
Proof.
  intros Hfs. revert text abs been.
  induction depth as [|depth IH]; intros text abs been Hno Hbad Hd; [lia|]. cbn [Parse].
  destruct (parse_lex_done text Hno) as [[nodes perr] Ep]. rewrite Ep. simpl.
  set (out := AbsSign ++ abs ++ newline).
  assert (forall errs, ends P (render_nodes o mode (Parse o envs r mode depth) abs (been ++ [abs]) out errs nodes)) as Hr.
  { intros errs. apply render_nodes_ends.
    - intros p c Hp Hb. destruct (Hfs p c Hp) as [Hc Hc']. apply IH; [done|done|].
      pose proof (unvisited_step (been ++ [abs]) p c Hp Hb). lia.
    - intros n v err Hn Hv Hrej. apply Hbad. exists nodes, perr, n, v, err. done. }
  destruct perr, mode; try done;
    match goal with |- context [render_nodes _ _ _ _ _ _ ?e _] => specialize (Hr e) end;
    by destruct (render_nodes _ _ _ _ _ _ _ _) as [[[? []]|]| |].
Qed.
End total.

Lemma Parse_escape `{UnicodeTables} o envs r mode depth s abs been :
  Parse o envs r mode (S depth) (escape s) abs been = Done (Ok (AbsSign ++ abs ++ newline ++ s)).
Proof.
  destruct (lex_escape_tokens s) as (l & Hl & HF & Hv). cbn [Parse].
  rewrite (parse_texts envs r l (Item itemEOF (length (escape s)) [])); try done.
  - simpl. rewrite list_fmap_compose, render_texts. simpl.
    rewrite Hv. by rewrite <- !app_assoc.
  - apply newPState_wf.
  - rewrite Hl, length_app. simpl. lia.
Qed.

(** ** Theorems *)

(** Doubling its dollar signs makes any text a template that renders to
    exactly that text, after the marker line that names the file: whatever the
    environments, the restrictions, the mode and the file system. *)
Theorem escape_roundtrip `{UnicodeTables} o envs r mode depth s abs been :
  Parse o envs r mode (S depth) (escape s) abs been = Done (Ok (AbsSign ++ abs ++ newline ++ s)).
Proof. apply Parse_escape. Qed.

(** C32: Rendering does not run for ever, circular includes included: if every
    substitution that the template or a readable file opens is closed or reported by
    the lexer - which is so in a text without a dollar sign directly followed by an
    underscore - an include depth of one more than the number of files is enough for
    [Parse] to come to an end, with a text or an error, or with a panic, and that
    only when the template or a readable file has an include directive whose argument
    the syntax of directives rejects ([include_syntax_error_panics]).  On other
    templates the parser does run for ever ([parse_diverges]). *)
Theorem Parse_terminates `{UnicodeTables} o envs r mode text abs :
  closes text -> (forall p c, files o !! p = Some c -> closes c) ->
  (forall t, no_dollar_under t -> closes t) /\
  match Parse o envs r mode (S (size (files o))) text abs [] with
  | Done _ => True
  | Panic => exists t, (t = text \/ exists p, files o !! p = Some t) /\ bad_include o envs r t
  | Fuel => False
  end.
Proof.
  intros Ht Hfs. split; [intros t; apply lex_closed|].
  apply (Parse_ends_aux o envs r mode (exists t, (t = text \/ exists p, files o !! p = Some t) /\ bad_include o envs r t)).
  - intros p c Hp. split; [by eapply Hfs|]. intros Hb. exists c. eauto.
  - done.
  - intros Hb. exists text. auto.
  - apply Nat.lt_succ_r. rewrite <- size_dom. apply subseteq_size. unfold unvisited. set_solver.
Qed.

(** the parser does not return on a template whose stream opens a
    substitution that is neither closed nor reported by the lexer: it reads the
    closed channel for ever, whatever the fuel. *)
Theorem parse_diverges envs r (d v : item) rest fuel :
  typ d = itemLeftDelim -> typ v = itemVariable -> Forall open_token rest ->
  parse envs r fuel (newPState (d :: v :: rest)) [] = Fuel.
Proof.
  intros Hd Hv Ho. destruct fuel as [|fuel]; [done|]. simpl. rewrite Hd. simpl.
  unfold p_peek; simpl. rewrite bool_decide_eq_true_2 by done.
  unfold action, p_next; simpl.
  rewrite action_loop_open; [done| |done]. split; simpl; lia.
Qed.

(** an include directive whose syntax is rejected makes [Parse] panic: the
    absent path is dereferenced before the recorded error is looked at. *)
Theorem include_syntax_error_panics `{UnicodeTables} o mode rec abs been out errs node nodes v e :
  Node_String node = NS Include v None ->
  inc_err (parseIncludation o abs v) = Some e ->
  render_nodes o mode rec abs been out errs (node :: nodes) = Panic.
Proof.
  intros Hn He. simpl. rewrite Hn. rewrite bool_decide_eq_true_2 by done.
  unfold expand_include.
  destruct (parseIncludation_cases o abs v) as [(f & m & i & E & _)|(e' & ->)]; [|done].
  rewrite E in He. done.
Qed.

(** a file is reported as a circular dependency exactly when it is already
    on the chain of files being included. *)
Theorem circularDependency_iff current been :
  fst (circularDependency current been) = true <-> current ∈ been.
Proof. apply circular_iff. Qed.

(** What a substitution with a default stands for when nothing is restricted:
    [x] is the value of the variable in the first environment that has it. *)
Definition subst_spec (op : itemType) (x : option gostring) (dv : gostring) : gostring :=
  match op with
  | itemColonDash | itemColonEquals =>
      match x with Some (c :: w) => c :: w | _ => dv end
  | itemPlus | itemColonPlus => match x with Some _ => dv | None => [] end
  | _ => match x with Some w => w | None => dv end
  end.

(** the value of [${X:-d}], [${X:=d}], [${X-d}], [${X=d}], [${X+d}] and
    [${X:+d}] under the relaxed restrictions [Render] uses is the one the
    operators promise, with the environments tried in order and a variable set
    to the empty string told apart from an unset one. *)
Theorem substitution_value op v d :
  Restrict v = Relaxed ->
  op ∈ [itemPlus; itemDash; itemEquals; itemColonEquals; itemColonDash; itemColonPlus] ->
  SubstitutionNode_String op v (Some d) =
  let x := first_value (VEnv v) (Ident v) in
  let uses_default :=
    match op with
    | itemColonDash | itemColonEquals => bool_decide (default [] x = [])
    | itemPlus | itemColonPlus => bool_decide (is_Some x)
    | _ => bool_decide (x = None)
    end in
  NS (Ident v) (subst_spec op x (ns_val (DefaultNode_String d)))
     (if uses_default then ns_err (DefaultNode_String d) else None).
Proof.
  intros Hr Hop. unfold SubstitutionNode_String, StringWithDefault.
  rewrite isSet_first. unfold VariableNode_String, validateNoUnset, validateNoEmpty.
  rewrite Hr; simpl.
  apply list_elem_of_In in Hop.
  destruct (first_value (VEnv v) (Ident v)) as [[|c w]|];
    repeat (destruct Hop as [<-|Hop]; [reflexivity|]); destruct Hop.
Qed.

(** the escape [\|] for a bar in an included path is undone when an operator
    follows the path but kept, backslash included, when none does. *)
Theorem include_bar_escape o :
  absPath <$> filePath (parseIncludation o (go "/d/t.yaml") (go "a\|b.yaml | nindent 2")) =
    Some (go "/d/a|b.yaml") /\
  absPath <$> filePath (parseIncludation o (go "/d/t.yaml") (go "a\|b.yaml")) =
    Some (go "/d/a\|b.yaml").
Proof. split; vm_compute; reflexivity. Qed.

(** ** The theorems on concrete templates *)

Definition os0 : OS := {|
  files := list_to_map [(go "/d/a.yaml", go "A${_INCLUDE_:-b.yaml}Z");
                        (go "/d/b.yaml", go "B${_INCLUDE_:-a.yaml | nindent 2}")];
  cwd := go "/w"; home := Some (go "/home/u");
  read_error := fun p => go "open " ++ p ++ go ": no such file or directory"
|}.

Lemma no_dollar_under_dec s : no_byte_pair "$"%char "_"%char s = true -> no_dollar_under s.
Proof. exact (no_byte_pair_spec _ _ s). Qed.

Lemma Parse_terminates_witness :
  match Parse (H := latin1_tables) os0 [] Relaxed Quick (S (size (files os0)))
    (go "${_INCLUDE_:-a.yaml}") (go "/d/t.yaml") [] with Fuel => False | _ => True end.
Proof.
  destruct (Parse_terminates (H := latin1_tables) os0 [] Relaxed Quick (go "${_INCLUDE_:-a.yaml}") (go "/d/t.yaml")) as [_ Hp].
  - by apply lex_closed, no_dollar_under_dec.
  - intros p c Hp. apply lex_closed. apply elem_of_map_to_list in Hp. revert Hp. vm_compute map_to_list.
    rewrite !elem_of_cons, elem_of_nil. intros [E|[E|[]]]; injection E as -> ->;
      by apply no_dollar_under_dec.
  - by destruct (Parse _ _ _ _ _ _ _ _).
Defined.

Lemma parse_diverges_witness :
  parse [] Relaxed 1000 (newPState (lex (H := latin1_tables) (go "${A:-$_}"))) [] = Fuel.
Proof.
  let t := eval vm_compute in (lex (H := latin1_tables) (go "${A:-$_}")) in
  change (lex (H := latin1_tables) (go "${A:-$_}")) with t.
  apply parse_diverges; [reflexivity|reflexivity|].
  repeat constructor; discriminate.
Defined.

Definition include_var (v : gostring) : Node :=
  VarNode {| Ident := Include; VEnv := [[Include ++ go "=" ++ v]]; Restrict := Relaxed |}.

Lemma include_syntax_error_panics_witness :
  render_nodes os0 Quick (fun _ _ _ => Fuel) (go "/d/t.yaml") [go "/d/t.yaml"] [] []
    [include_var (go "a.yaml | nindent x")] = Panic.
Proof.
  eapply (include_syntax_error_panics (H := latin1_tables) os0 Quick (fun _ _ _ => Fuel)
            (go "/d/t.yaml") [go "/d/t.yaml"] [] [] _ [] (go "a.yaml | nindent x"));
    vm_compute; reflexivity.
Defined.

Lemma substitution_value_witness :
  SubstitutionNode_String itemColonDash (NewVariable [[go "X="]; [go "X=1"]] Relaxed (go "X"))
    (Some (DefaultText (go "d"))) = NS (go "X") (go "d") None.
Proof.
  rewrite substitution_value; [reflexivity|reflexivity|].
  apply list_elem_of_In; simpl; tauto.
Defined.

(** Cases of [parse_test.go]; the marker line comes first. *)
Definition render_test (r : Restrictions) (s : string) : outcome (res gostring gostring) :=
  Parse (H := latin1_tables) os0 [[go "BAR=bar"; go "FOO=foo"; go "EMPTY="; go "ALSO_EMPTY="]]
    r Quick 3 (go s) [] [].

Example parse_test_values :
  (fun s => render_test Relaxed s) <$>
    ["$BAR - $FOO"; "$_ bar"; "${_} bar"; "${NOTSET-$BAR}"; "${EMPTY:=$BAR}"; "${EMPTY+hello}";
     "${hello:=wo_rld} ${foo:=bar_baz}"; "$$${BAZ:-baz}"]%string =
  (fun s => Done (Ok (AbsSign ++ newline ++ go s))) <$>
    ["bar - foo"; "$_ bar"; "${_} bar"; "bar"; "bar"; "hello"; "wo_rld bar_baz"; "$baz"]%string.
Proof. vm_compute. reflexivity. Qed.

Example parse_test_errors :
  render_test Relaxed "hello ${" = Done (Err (go "closing brace expected")) /\
  render_test Strict "${NOTSET}" = Done (Err (go ": variable ${NOTSET} not set")) /\
  render_test Strict "${EMPTY-$BAR}" = Done (Err (go ": : variable ${EMPTY} set but empty")).
Proof. vm_compute. auto. Qed.
