(* ===== verification/DevDir.v ===== *)
(** * The directory mapping ([internal/nhctl/dev_dir])

    The IDE plugin associates a local directory with a workload (a "service
    pack": namespace, application, type, name and container).  The mapping is
    kept in a LevelDB under one key as YAML; [Update] and [Get] load it, derive
    the packs of each path, run a closure, and save it.  Here the database is a
    map, a closure is a function on the loaded mapping, and LevelDB failures are
    the flags of [faults].  The YAML codec and the kubeconfig loader are
    parameters. *)

From S2P Require Import Prelude GoStrings FilePath.
#[local] Open Scope go_scope.

(** [m[k]] of a Go map whose values are strings: the empty string when absent. *)
Definition at_ (m : gmap gostring gostring) (k : gostring) : gostring := default [] (m !! k).

(** ** Packs and keys ([dev_dir_mapping_db.go]) *)

Definition splitter : gostring := go "-/-".

Record SvcPack := {
  Ns : gostring;
  Nid : gostring;
  App : gostring;
  SvcType : gostring;
  Svc : gostring;
  Container : gostring
}.

#[export] Instance SvcPack_eq_dec : EqDecision SvcPack.
Proof. solve_decision. Defined.

Definition NewSvcPack (ns nid app svcType svc container : gostring) : SvcPack :=
  {| Ns := ns; Nid := nid; App := app; SvcType := svcType; Svc := svc; Container := container |}.

(** The six fields in the order of the format string. *)
Definition key_of (ns app svcType svc container nid : gostring) : gostring :=
  ns ++ splitter ++ app ++ splitter ++ svcType ++ splitter ++ svc ++ splitter ++
  container ++ splitter ++ nid.

Definition KeyWithoutContainer (p : SvcPack) : gostring :=
  key_of (Ns p) (App p) (SvcType p) (Svc p) [] (Nid p).

Definition Key (p : SvcPack) : gostring :=
  if bool_decide (Container p = []) then KeyWithoutContainer p
  else key_of (Ns p) (App p) (SvcType p) (Svc p) (Container p) (Nid p).

Definition toPack (k : gostring) : option SvcPack :=
  match Split k splitter with
  | a0 :: a1 :: a2 :: a3 :: a4 :: rest =>
      let nid := match rest with a5 :: _ => a5 | [] => [] end in
      Some {| Ns := a0; Nid := nid; App := a1; SvcType := a2; Svc := a3; Container := a4 |}
  | _ => None
  end.

Definition WithoutNid (k : gostring) : gostring :=
  if 5 <? length (Split k splitter) then
    match LastIndex k splitter with
    | Some i => take i k
    | None => k
    end
  else k.

Definition valid (p : SvcPack) : bool :=
  bool_decide (Ns p <> []) && bool_decide (App p <> []) &&
  bool_decide (SvcType p <> []) && bool_decide (Svc p <> []).

(** ** The mapping and its store *)

Record DevDirMapping := Mapping {
  PathToDefaultPackKey : gmap gostring gostring;
  PackToPath : gmap gostring gostring;
  PackToKubeConfigBytes : gmap gostring gostring;
  PackToKubeConfigServer : gmap gostring gostring
}.

Definition emptyMapping : DevDirMapping := Mapping ∅ ∅ ∅ ∅.

Abbreviation pathPacks := (gmap gostring (list SvcPack)).

Section order.
Context `{!MapOrder gostring}.

Definition genPathToPackMap (m : DevDirMapping) : pathPacks :=
  foldl (fun acc '(pack, path) =>
           let acc := match acc !! path with
                      | Some _ => acc
                      | None => <[path := []]> acc
                      end in
           match toPack pack with
           | None => acc
           | Some p => <[path := default [] (acc !! path) ++ [p]]> acc
           end)
    ∅ (range (PackToPath m)).

Record AllSvcPackAssociateByPath := {
  Packs : gmap gostring SvcPack;
  Kubeconfigs : gmap gostring gostring;
  ServerMapping : gmap gostring gostring;
  DefaultSvcPackKey : gostring
}.

Definition doGetAllPacks (path : gostring) (m : DevDirMapping) (pathToPack : pathPacks)
    : AllSvcPackAssociateByPath :=
  let packs := default [] (pathToPack !! path) in
  {| Packs := foldl (fun acc p => <[Key p := p]> acc) ∅ packs;
     Kubeconfigs :=
       foldl (fun acc p => <[Key p := at_ (PackToKubeConfigBytes m) (Key p)]> acc) ∅ packs;
     ServerMapping :=
       foldl (fun acc p => <[Key p := at_ (PackToKubeConfigServer m) (Key p)]> acc) ∅ packs;
     DefaultSvcPackKey := at_ (PathToDefaultPackKey m) path |}.
End order.

(** The YAML library: [Marshal] then [Unmarshal] gives the mapping back, and the
    document is not empty. *)
Class YamlCodec := {
  Marshal : DevDirMapping -> gostring;
  Unmarshal : gostring -> option DevDirMapping;
  Unmarshal_Marshal : forall m, Unmarshal (Marshal m) = Some m;
  Marshal_nonempty : forall m, Marshal m <> []
}.

(** Which calls into LevelDB fail. *)
Record faults := {
  open_fails : bool;
  get_fails : bool;
  list_fails : bool;
  put_fails : bool
}.

Definition no_faults : faults :=
  {| open_fails := false; get_fails := false; list_fails := false; put_fails := false |}.

Inductive dberr :=
  | DbFailure
  | YamlFailure
  | InvalidPack
  | NO_DEFAULT_PACK.

Definition DefaultKey : gostring := go "DefaultKey".

Abbreviation levelDB := (gmap gostring gostring).

Section store.
Context `{!MapOrder gostring} `{!YamlCodec}.

(** The bytes under [DefaultKey], or else under a key that contains it. *)
Definition load_bytes (f : faults) (db : levelDB) : res dberr gostring :=
  if get_fails f then Err DbFailure
  else match db !! DefaultKey with
       | Some b => Ok b
       | None =>
           if list_fails f then Err DbFailure
           else match List.find (fun kv => Contains (fst kv) DefaultKey) (range db) with
                | Some (_, v) => Ok v
                | None => Ok []
                end
       end.

Definition load (f : faults) (db : levelDB) : res dberr DevDirMapping :=
  if open_fails f then Err DbFailure
  else
    bys <-! load_bytes f db;
    if bool_decide (bys = []) then Ok emptyMapping
    else match Unmarshal bys with
         | Some m => Ok m
         | None => Err YamlFailure
         end.

(** [doGetOrModify]: the closure returns the mapping it leaves and its result. *)
Definition doGetOrModify {A : Type} (f : faults) (db : levelDB)
    (fn : DevDirMapping -> pathPacks -> DevDirMapping * res dberr A) (readOnly : bool)
    : levelDB * res dberr A :=
  match load f db with
  | Err e => (db, Err e)
  | Ok m =>
      match fn m (genPathToPackMap m) with
      | (_, Err e) => (db, Err e)
      | (m', Ok a) =>
          if readOnly then (db, Ok a)
          else if put_fails f then (db, Err DbFailure)
          else (<[DefaultKey := Marshal m']> db, Ok a)
      end
  end.

Definition Update {A : Type} (f : faults) (db : levelDB)
    (fn : DevDirMapping -> pathPacks -> DevDirMapping * res dberr A) : levelDB * res dberr A :=
  doGetOrModify f db fn false.

Definition Get {A : Type} (f : faults) (db : levelDB) (fn : DevDirMapping -> pathPacks -> A)
    : res dberr A :=
  snd (doGetOrModify f db (fun m pp => (m, Ok (fn m pp))) true).

(** For tests only, says the source. *)
Definition ClearAllData (f : faults) (db : levelDB) : levelDB :=
  fst (doGetOrModify f db
    (fun m _ => (Mapping ∅ ∅ (PackToKubeConfigBytes m) (PackToKubeConfigServer m), Ok tt)) false).
End store.

(** ** Operations ([dev_dir_mapping.go]) *)

(** What client-go reports of a kubeconfig file, when it can be loaded: the
    current context and the cluster of each context. *)
Record RawConfig := {
  CurrentContext : gostring;
  ContextClusters : gmap gostring gostring
}.

Class KubeConfigs := {
  RawConfigOf : gostring -> option RawConfig
}.

Definition getKubeConfigServer `{!KubeConfigs} (kubeConfig : gostring) : gostring :=
  match RawConfigOf kubeConfig with
  | None => []
  | Some c =>
      if bool_decide (CurrentContext c = []) then []
      else match ContextClusters c !! CurrentContext c with
           | Some cluster => cluster
           | None => []
           end
  end.

Section operations.
Context `{!MapOrder gostring} `{!YamlCodec} `{!KubeConfigs} (o : OS).

(** The look-ups of [GetAssociatePath], in order. *)
Definition lookup_path (p : SvcPack) (m : DevDirMapping) : gostring :=
  match PackToPath m !! Key p with
  | Some x => x
  | None =>
      match PackToPath m !! KeyWithoutContainer p with
      | Some x => x
      | None =>
          match PackToPath m !! WithoutNid (Key p) with
          | Some x => x
          | None => at_ (PackToPath m) (WithoutNid (KeyWithoutContainer p))
          end
      end
  end.

Definition GetAssociatePath (f : faults) (db : levelDB) (p : SvcPack) : gostring :=
  if negb (valid p) then []
  else match Get f db (fun m _ => lookup_path p m) with
       | Ok path => path
       | Err _ => []
       end.

(** The second test repeats the first, as in the source. *)
Definition lookup_kubeconfig (p : SvcPack) (m : DevDirMapping) : gostring * gostring :=
  let has k := bool_decide (is_Some (PackToPath m !! k)) in
  let both k := (at_ (PackToKubeConfigBytes m) k, at_ (PackToKubeConfigServer m) k) in
  if has (Key p) then both (Key p)
  else if has (Key p) then both (KeyWithoutContainer p)
  else if has (WithoutNid (Key p)) then both (WithoutNid (Key p))
  else both (WithoutNid (KeyWithoutContainer p)).

Definition GetKubeConfigBytesAndServer (f : faults) (db : levelDB) (p : SvcPack)
    : gostring * gostring :=
  if negb (valid p) then ([], [])
  else match Get f db (fun m _ => lookup_kubeconfig p m) with
       | Ok r => r
       | Err _ => ([], [])
       end.

Definition unassociate (p : SvcPack) (m : DevDirMapping) : DevDirMapping :=
  Mapping (PathToDefaultPackKey m)
    (delete (WithoutNid (KeyWithoutContainer p))
      (delete (WithoutNid (Key p))
        (delete (KeyWithoutContainer p) (delete (Key p) (PackToPath m)))))
    (PackToKubeConfigBytes m) (PackToKubeConfigServer m).

(** An invalid pack is logged, and unassociated all the same. *)
Definition UnAssociatePath (f : faults) (db : levelDB) (p : SvcPack) : levelDB :=
  fst (Update f db (fun m _ => (unassociate p m, Ok tt))).

(** [getAllPacks]: [None] is nil, the answer to a failure. *)
Definition getAllPacks (f : faults) (db : levelDB) (path : gostring)
    : option AllSvcPackAssociateByPath :=
  match Get f db (fun m pp => doGetAllPacks path m pp) with
  | Ok r => Some r
  | Err _ => None
  end.

Definition getDefaultPack (f : faults) (db : levelDB) (path : gostring) : res dberr SvcPack :=
  match getAllPacks f db path with
  | None => Err NO_DEFAULT_PACK
  | Some packs =>
      match Packs packs !! DefaultSvcPackKey packs with
      | Some p => Ok p
      | None =>
          match List.find (fun kp => bool_decide (Key (snd kp) <> KeyWithoutContainer (snd kp)))
                  (range (Packs packs)) with
          | Some (_, p) => Ok p
          | None => Err NO_DEFAULT_PACK
          end
      end
  end.

(** [d.GetAllPacks().Packs] dereferences nil when the store cannot be read. *)
Definition AlreadyAssociate (f : faults) (db : levelDB) (d : gostring) (p : SvcPack)
    : outcome bool :=
  match getAllPacks f db d with
  | None => Panic
  | Some packs => Done (existsb (fun kp => bool_decide (fst kp = Key p)) (range (Packs packs)))
  end.

(** Steps 1 and 2 of [removePackAndThen]. *)
Definition remove_pack (d : gostring) (p : SvcPack) (m : DevDirMapping) (pp : pathPacks)
    : DevDirMapping :=
  let devPathBefore := at_ (PackToPath m) (Key p) in
  let beforePacks := doGetAllPacks devPathBefore m pp in
  let defaults :=
    if size (Packs beforePacks) =? 1 then delete d (PathToDefaultPackKey m)
    else if bool_decide (DefaultSvcPackKey beforePacks = Key p) then
      foldl (fun acc '(random, _) =>
               if bool_decide (random <> Key p) then <[devPathBefore := random]> acc else acc)
        (PathToDefaultPackKey m) (range (Packs beforePacks))
    else PathToDefaultPackKey m in
  Mapping defaults (delete (Key p) (PackToPath m))
    (PackToKubeConfigBytes m) (PackToKubeConfigServer m).

Definition removePackAndThen (f : faults) (db : levelDB) (d : gostring) (p : SvcPack)
    (fn : option (DevDirMapping -> pathPacks -> DevDirMapping)) : levelDB * res dberr unit :=
  if negb (valid p) then (db, Err InvalidPack)
  else Update f db (fun m pp =>
         let m1 := remove_pack d p m pp in
         match fn with
         | None => (m1, Ok tt)
         | Some fn => (fn m1 pp, Ok tt)
         end).

Definition RemovePack (f : faults) (db : levelDB) (d : gostring) (p : SvcPack)
    : levelDB * res dberr unit :=
  removePackAndThen f db d p None.

(** Store path and kubeconfig under one key. *)
Definition put_pack (d content server k : gostring) (m : DevDirMapping) : DevDirMapping :=
  Mapping (PathToDefaultPackKey m) (<[k := d]> (PackToPath m))
    (<[k := content]> (PackToKubeConfigBytes m)) (<[k := server]> (PackToKubeConfigServer m)).

(** The closure of [Associate]. *)
Definition associate (d : gostring) (p : SvcPack) (content server : gostring)
    (setAsDefaultSvc : bool) (m : DevDirMapping) : DevDirMapping :=
  if bool_decide (content = []) then m
  else
    let key := Key p in
    let m := put_pack d content server key m in
    let m :=
      if bool_decide (Container p = []) then
        foldl (fun acc '(keyItem, _) =>
                 if HasPrefix keyItem key then put_pack d content server keyItem acc else acc)
          m (range (PackToPath m))
      else put_pack d content server (KeyWithoutContainer p) m in
    if setAsDefaultSvc || bool_decide (PathToDefaultPackKey m !! d = None) then
      Mapping (<[d := Key p]> (PathToDefaultPackKey m)) (PackToPath m)
        (PackToKubeConfigBytes m) (PackToKubeConfigServer m)
    else m.

Definition Associate (f : faults) (db : levelDB) (d : gostring) (p : SvcPack)
    (kubeconfig : gostring) (setAsDefaultSvc : bool) : levelDB * res dberr unit :=
  if negb (valid p) then (db, Err InvalidPack)
  else removePackAndThen f db d p (Some (fun m _ =>
         let content := snd (ReadFile o (NewFilePath o kubeconfig)) in
         associate d p content (getKubeConfigServer kubeconfig) setAsDefaultSvc m)).

(** ** The daemon's cache *)

(** [FlushCache]: a failure leaves the cache as it was. *)
Definition FlushCache (f : faults) (db : levelDB) (cache : option DevDirMapping)
    : option DevDirMapping :=
  match Get f db (fun m _ => m) with
  | Ok m => Some m
  | Err _ => cache
  end.

Definition GetAssociatePathCache (f : faults) (db : levelDB) (cache : option DevDirMapping)
    (p : SvcPack) : option DevDirMapping * outcome gostring :=
  if negb (valid p) then (cache, Done [])
  else
    let cache := match cache with None => FlushCache f db cache | Some _ => cache end in
    match cache with
    | None => (cache, Panic)
    | Some c =>
        (cache, Done (match PackToPath c !! Key p with
                      | Some x => x
                      | None => at_ (PackToPath c) (KeyWithoutContainer p)
                      end))
    end.
End operations.

(** ** Keys *)

(** No field contains a slash; Kubernetes names never do. *)
Definition slash_free (x : gostring) : Prop := "/"%char ∉ x.

Definition fields_ok (p : SvcPack) : Prop :=
  slash_free (Ns p) /\ slash_free (Nid p) /\ slash_free (App p) /\
  slash_free (SvcType p) /\ slash_free (Svc p) /\ slash_free (Container p).

(** An occurrence of the splitter puts a slash one byte further. *)
Lemma splitter_slash s j : HasPrefix (drop j s) splitter = true -> s !! S j = Some "/"%char.
Proof.
  intros [k Hk]%HasPrefix_spec. rewrite <- (Nat.add_1_r j), <- lookup_drop, Hk. done.
Qed.

Lemma splitter_dash s j : HasPrefix (drop j s) splitter = true -> s !! j = Some "-"%char.
Proof.
  intros [k Hk]%HasPrefix_spec. rewrite <- (Nat.add_0_r j), <- lookup_drop, Hk. done.
Qed.

Lemma slash_free_lookup x i : slash_free x -> x !! i <> Some "/"%char.
Proof. intros Hx Hi. by apply Hx, list_elem_of_lookup_2 with i. Qed.

Lemma Index_slash_free x : slash_free x -> Index x splitter = None.
Proof.
  intros Hx. apply Index_None. intros j _.
  destruct (HasPrefix (drop j x) splitter) eqn:E; [|done].
  by apply splitter_slash, slash_free_lookup in E.
Qed.

Lemma piece_ok_slash_free x : slash_free x -> piece_ok splitter x.
Proof.
  intros Hx. apply Index_first.
  - by rewrite drop_app_length.
  - rewrite length_app. lia.
  - intros j Hj. destruct (HasPrefix (drop j (x ++ splitter)) splitter) eqn:E; [|done].
    apply splitter_slash in E. destruct (decide (S j < length x)) as [Hl|Hl].
    + rewrite lookup_app_l in E by done. by apply slash_free_lookup in E.
    + rewrite lookup_app_r in E by lia. by replace (S j - length x) with 0 in E by lia.
Qed.

Lemma Split_key_of a b c d e k :
  slash_free a -> slash_free b -> slash_free c -> slash_free d -> slash_free e ->
  Split (key_of a b c d e k) splitter = a :: b :: c :: d :: e :: Split k splitter.
Proof.
  intros. unfold key_of.
  by do 5 (rewrite Split_piece by (done || by apply piece_ok_slash_free); f_equal).
Qed.

Lemma Split_slash_free x : slash_free x -> Split x splitter = [x].
Proof. intros Hx. rewrite Split_eq by done. by rewrite Index_slash_free. Qed.

Lemma slash_free_nil : slash_free [].
Proof. unfold slash_free. set_solver. Qed.

Lemma Key_key_of p : Key p = key_of (Ns p) (App p) (SvcType p) (Svc p) (Container p) (Nid p).
Proof. unfold Key. case_bool_decide as E; [|done]. by rewrite E. Qed.

Lemma toPack_Key p : fields_ok p -> toPack (Key p) = Some p.
Proof.
  intros (? & ? & ? & ? & ? & ?). rewrite Key_key_of. unfold toPack.
  rewrite Split_key_of, Split_slash_free by done. by destruct p.
Qed.

Lemma Key_inj p q : fields_ok p -> fields_ok q -> Key p = Key q -> p = q.
Proof. intros Hp Hq E. apply toPack_Key in Hp, Hq. congruence. Qed.

Definition no_container (p : SvcPack) : SvcPack :=
  NewSvcPack (Ns p) (Nid p) (App p) (SvcType p) (Svc p) [].

Lemma KeyWithoutContainer_Key p : KeyWithoutContainer p = Key (no_container p).
Proof. done. Qed.

Lemma no_container_ok p : fields_ok p -> fields_ok (no_container p).
Proof.
  intros (? & ? & ? & ? & ? & ?). unfold fields_ok; simpl. auto 10 using slash_free_nil.
Qed.

Lemma LastIndex_last a b : slash_free b -> LastIndex (a ++ splitter ++ b) splitter = Some (length a).
Proof.
  intros Hb. induction a as [|c a IH].
  - assert (forall s, (forall j, HasPrefix (drop j s) splitter = false) ->
      LastIndex s splitter = None) as Hnone.
    { induction s as [|x s IHs]; intros Hs; [done|]. rewrite LastIndex_cons.
      rewrite IHs by (intros j; apply (Hs (S j))).
      pose proof (Hs 0) as H0. rewrite drop_0 in H0. by rewrite H0. }
    change ([] ++ splitter ++ b) with ("-"%char :: go "/-" ++ b). rewrite LastIndex_cons.
    rewrite Hnone; [by rewrite (HasPrefix_app splitter b : HasPrefix ("-"%char :: go "/-" ++ b) splitter = true)|].
    intros j. destruct (HasPrefix _ _) eqn:E; [|done].
    apply splitter_dash in E as Ed. apply splitter_slash in E.
    destruct j as [|[|j]]; [done| |].
    + by apply (slash_free_lookup b 0) in E.
    + by apply (slash_free_lookup b (S j)) in E.
  - change ((c :: a) ++ splitter ++ b) with (c :: (a ++ splitter ++ b)).
    by rewrite LastIndex_cons, IH.
Qed.

(** Dropping the namespace id leaves the first five fields. *)
Lemma WithoutNid_Key p :
  fields_ok p ->
  WithoutNid (Key p) = Ns p ++ splitter ++ App p ++ splitter ++ SvcType p ++ splitter ++ Svc p ++
                       splitter ++ Container p.
Proof.
  intros (? & ? & ? & ? & ? & ?). unfold WithoutNid. rewrite Key_key_of.
  rewrite Split_key_of, Split_slash_free by done. simpl. unfold key_of.
  set (a := ((((((((Ns p ++ splitter) ++ App p) ++ splitter) ++ SvcType p) ++ splitter) ++ Svc p)
             ++ splitter) ++ Container p)).
  transitivity a; [|unfold a; by rewrite <- !app_assoc].
  match goal with |- context [LastIndex ?x _] => replace x with (a ++ splitter ++ Nid p)
    by (unfold a; by rewrite <- !app_assoc) end.
  rewrite LastIndex_last by done. apply take_app_length.
Qed.

(** A key with the namespace id has six fields, one without has five. *)
Lemma WithoutNid_ne p q : fields_ok p -> fields_ok q -> WithoutNid (Key p) <> Key q.
Proof.
  intros Hp Hq E. apply (f_equal (fun x => length (Split x splitter))) in E. revert E.
  rewrite WithoutNid_Key, Key_key_of by done.
  destruct Hp as (? & ? & ? & ? & ? & ?), Hq as (? & ? & ? & ? & ? & ?).
  rewrite Split_key_of by done.
  do 4 (rewrite Split_piece by (done || by apply piece_ok_slash_free)).
  by rewrite !Split_slash_free.
Qed.

(** ** What the operations do to the mapping *)

Section facts.
Context `{!MapOrder gostring}.

(** The packs of a path are those its keys decode to. *)
Lemma genPathToPackMap_spec m path p :
  p ∈ default [] (genPathToPackMap m !! path) <->
  exists k, PackToPath m !! k = Some path /\ toPack k = Some p.
Proof.
  unfold genPathToPackMap.
  transitivity (exists k, (k, path) ∈ range (PackToPath m) /\ toPack k = Some p).
  2:{ split; intros (k & Hk & Ht); exists k; rewrite ?elem_of_range in *; done. }
  induction (range (PackToPath m)) as [|[k pa] l IH] using rev_ind.
  { simpl. rewrite lookup_empty; simpl. set_solver. }
  rewrite foldl_app; simpl. set (acc := foldl _ ∅ l) in *.
  assert (default [] ((match acc !! pa with Some _ => acc | None => <[pa:=[]]> acc end) !! path) =
          default [] (acc !! path)) as Hacc.
  { destruct (acc !! pa) eqn:E; [done|]. rewrite lookup_insert. case_decide; [|done].
    subst. by rewrite E. }
  set (acc' := match acc !! pa with Some _ => acc | None => <[pa:=[]]> acc end) in *.
  destruct (toPack k) as [q|] eqn:Hq.
  - rewrite lookup_insert. case_decide as Hd; simpl.
    + subst pa. rewrite elem_of_app, list_elem_of_singleton, Hacc, IH.
      setoid_rewrite elem_of_app. setoid_rewrite list_elem_of_singleton. naive_solver.
    + rewrite Hacc, IH. setoid_rewrite elem_of_app.
      setoid_rewrite list_elem_of_singleton. naive_solver.
  - rewrite Hacc, IH. setoid_rewrite elem_of_app.
    setoid_rewrite list_elem_of_singleton. naive_solver.
Qed.

Lemma fold_keys_lookup (l : list SvcPack) k q :
  (foldl (fun acc p => <[Key p := p]> acc) ∅ l : gmap gostring SvcPack) !! k = Some q ->
  q ∈ l /\ Key q = k.
Proof.
  induction l as [|p l IH] using rev_ind; [done|]. rewrite foldl_app; simpl.
  rewrite lookup_insert. case_decide as E; [|set_solver].
  intros [= <-]. split; [set_solver|done].
Qed.

Lemma fold_keys_some (l : list SvcPack) p :
  p ∈ l -> is_Some ((foldl (fun acc p => <[Key p := p]> acc) ∅ l : gmap gostring SvcPack) !! Key p).
Proof.
  induction l as [|q l IH] using rev_ind; [set_solver|]. rewrite foldl_app; simpl.
  rewrite elem_of_app, list_elem_of_singleton, lookup_insert. case_decide; [by eexists|].
  intros [Hp| ->]; [by apply IH|done].
Qed.

(** The three maps [put_pack] writes, each with the value it stores. *)
Definition stores (d content server : gostring) (proj : DevDirMapping -> gmap gostring gostring)
    (v : gostring) : Prop :=
  (forall k m, proj (put_pack d content server k m) = <[k := v]> (proj m)) /\
  (forall x m, proj (Mapping x (PackToPath m) (PackToKubeConfigBytes m)
                       (PackToKubeConfigServer m)) = proj m).

Lemma stores_path d content server : stores d content server PackToPath d.
Proof. by split. Qed.

Lemma stores_bytes d content server : stores d content server PackToKubeConfigBytes content.
Proof. by split. Qed.

Lemma stores_server d content server : stores d content server PackToKubeConfigServer server.
Proof. by split. Qed.

Lemma fold_put_lookup d content server proj v key (l : list (gostring * gostring)) m k :
  stores d content server proj v ->
  proj (foldl (fun acc '(keyItem, _) =>
    if HasPrefix keyItem key then put_pack d content server keyItem acc else acc) m l) !! k =
  if bool_decide (k ∈ l.*1) && HasPrefix k key then Some v else proj m !! k.
Proof.
  intros [Hst _]. induction l as [|[k' w] l IH] using rev_ind; [done|]. rewrite foldl_app; simpl.
  rewrite fmap_app; simpl.
  destruct (decide (k = k')) as [->|Hne].
  - rewrite (bool_decide_eq_true_2 (k' ∈ _)) by set_solver.
    destruct (HasPrefix k' key); simpl; [by rewrite Hst, lookup_insert_eq|].
    rewrite IH. by rewrite andb_false_r.
  - rewrite (bool_decide_ext (k ∈ l.*1 ++ [k']) (k ∈ l.*1)) by set_solver.
    destruct (HasPrefix k' key); simpl; [|done]. by rewrite Hst, lookup_insert_ne.
Qed.

Lemma fold_put_default d content server key (l : list (gostring * gostring)) m :
  PathToDefaultPackKey (foldl (fun acc '(keyItem, _) =>
    if HasPrefix keyItem key then put_pack d content server keyItem acc else acc) m l) =
  PathToDefaultPackKey m.
Proof.
  revert m. induction l as [|[k' v] l IH]; intros m; simpl; [done|]. rewrite IH.
  by destruct (HasPrefix k' key).
Qed.

Lemma associate_proj d p content server b m k proj v :
  content <> [] -> stores d content server proj v ->
  proj (associate d p content server b m) !! k =
  if bool_decide (k = Key p) then Some v
  else if bool_decide (Container p = []) then
    if HasPrefix k (Key p) && bool_decide (is_Some (PackToPath m !! k)) then Some v
    else proj m !! k
  else if bool_decide (k = KeyWithoutContainer p) then Some v
  else proj m !! k.
Proof.
  intros Hc Hst. unfold associate. rewrite bool_decide_eq_false_2 by done.
  cbv zeta.
  match goal with |- proj (if _ then _ else ?x) !! _ = _ =>
    transitivity (proj x !! k); [destruct (_ || _); by rewrite ?(proj2 Hst)|] end.
  destruct (bool_decide_reflect (k = Key p)) as [Hk|Hk],
    (bool_decide_reflect (Container p = [])) as [Hp|Hp]; try subst k;
    rewrite ?(fold_put_lookup _ _ _ _ _ _ _ _ _ Hst), ?(proj1 Hst).
  - rewrite lookup_insert_eq. by destruct (_ && _).
  - rewrite lookup_insert, lookup_insert_eq. by case_decide.
  - rewrite lookup_insert_ne by done.
    rewrite (bool_decide_ext (k ∈ _) (is_Some (PackToPath m !! k))).
    + by rewrite andb_comm.
    + rewrite list_elem_of_fmap. split.
      * intros ([k' w] & -> & Hin). apply elem_of_range in Hin. simpl in *.
        rewrite lookup_insert_ne in Hin by done. by eexists.
      * intros [w Hw]. exists (k, w). split; [done|]. apply elem_of_range. simpl.
        by rewrite lookup_insert_ne.
  - rewrite lookup_insert. case_bool_decide; case_decide; try congruence.
    by rewrite lookup_insert_ne.
Qed.

Definition associate_lookup d p content server b m k Hc :=
  associate_proj d p content server b m k _ _ Hc (stores_path d content server).

Lemma associate_default_key d p content server m :
  content <> [] ->
  PathToDefaultPackKey (associate d p content server true m) !! d = Some (Key p).
Proof.
  intros Hc. unfold associate. rewrite bool_decide_eq_false_2 by done. simpl.
  by rewrite lookup_insert_eq.
Qed.
End facts.

Section store_facts.
Context `{!MapOrder gostring} `{!YamlCodec} `{!KubeConfigs} (o : OS).

Lemma load_saved m db : load no_faults (<[DefaultKey := Marshal m]> db) = Ok m.
Proof.
  unfold load, load_bytes; simpl. rewrite lookup_insert_eq.
  rewrite bool_decide_eq_false_2 by apply Marshal_nonempty. by rewrite Unmarshal_Marshal.
Qed.

Lemma load_empty : load no_faults (∅ : levelDB) = Ok emptyMapping.
Proof.
  unfold load, load_bytes. simpl. rewrite lookup_empty.
  assert (range (∅ : levelDB) = []) as ->; [|done].
  apply Permutation_nil. rewrite range_perm. by rewrite map_to_list_empty.
Qed.

Lemma Get_load {A : Type} (db : levelDB) (m : DevDirMapping) (fn : DevDirMapping -> pathPacks -> A) :
  load no_faults db = Ok m -> Get no_faults db fn = Ok (fn m (genPathToPackMap m)).
Proof. intros Hl. unfold Get, doGetOrModify. by rewrite Hl. Qed.

(** A successful update leaves the mapping the closure returned. *)
Lemma Update_load {A : Type} (db : levelDB) (m : DevDirMapping)
    (fn : DevDirMapping -> pathPacks -> DevDirMapping * res dberr A) m' a :
  load no_faults db = Ok m -> fn m (genPathToPackMap m) = (m', Ok a) ->
  exists db', Update no_faults db fn = (db', Ok a) /\ load no_faults db' = Ok m'.
Proof.
  intros Hl Hf. unfold Update, doGetOrModify. rewrite Hl, Hf. simpl.
  eexists. split; [done|apply load_saved].
Qed.

(** The mapping [Associate] leaves. *)
Definition associated (d : gostring) (p : SvcPack) (kubeconfig : gostring) (b : bool)
    (m : DevDirMapping) : DevDirMapping :=
  associate d p (snd (ReadFile o (NewFilePath o kubeconfig))) (getKubeConfigServer kubeconfig) b
    (remove_pack d p m (genPathToPackMap m)).

Lemma Associate_load db m d p kubeconfig b :
  load no_faults db = Ok m -> valid p = true ->
  exists db', Associate o no_faults db d p kubeconfig b = (db', Ok tt) /\
    load no_faults db' = Ok (associated d p kubeconfig b m).
Proof.
  intros Hl Hv. unfold Associate, removePackAndThen. rewrite Hv. simpl.
  by eapply Update_load.
Qed.

Lemma RemovePack_load db m d p :
  load no_faults db = Ok m -> valid p = true ->
  exists db', RemovePack no_faults db d p = (db', Ok tt) /\
    load no_faults db' = Ok (remove_pack d p m (genPathToPackMap m)).
Proof.
  intros Hl Hv. unfold RemovePack, removePackAndThen. rewrite Hv. simpl.
  by eapply Update_load.
Qed.

Lemma remove_pack_lookup d p m pp k :
  PackToPath (remove_pack d p m pp) !! k =
  if bool_decide (k = Key p) then None else PackToPath m !! k.
Proof.
  unfold remove_pack; simpl. rewrite lookup_delete. case_bool_decide; case_decide; congruence.
Qed.

(** Every stored key decodes to a pack with ordinary fields. *)
Definition keys_ok (m : DevDirMapping) : Prop :=
  forall k path, PackToPath m !! k = Some path -> exists q, fields_ok q /\ toPack k = Some q.

Lemma keys_ok_associate d p content server b m :
  fields_ok p -> keys_ok m -> keys_ok (associate d p content server b m).
Proof.
  intros Hp Hm. destruct (decide (content = [])) as [->|Hc].
  { unfold associate. by rewrite bool_decide_eq_true_2. }
  intros k path. rewrite associate_lookup by done.
  assert (toPack (KeyWithoutContainer p) = Some (no_container p)) as Hwc.
  { rewrite KeyWithoutContainer_Key. by apply toPack_Key, no_container_ok. }
  destruct (HasPrefix k (Key p)); simpl; repeat case_bool_decide; intros Hk;
    match goal with
    | H : is_Some _ |- _ => destruct H as [x Hx]; by eapply Hm
    | H : k = Key p |- _ => subst k; exists p; eauto using toPack_Key
    | H : k = KeyWithoutContainer p |- _ => subst k; eauto using no_container_ok
    | _ => by eapply Hm
    end.
Qed.

Lemma keys_ok_remove d p m pp : keys_ok m -> keys_ok (remove_pack d p m pp).
Proof.
  intros Hm k path. rewrite remove_pack_lookup. case_bool_decide; [done|]. apply Hm.
Qed.

(** The packs of a path under the invariant. *)
Lemma doGetAllPacks_lookup m path p :
  keys_ok m -> fields_ok p -> PackToPath m !! Key p = Some path ->
  Packs (doGetAllPacks path m (genPathToPackMap m)) !! Key p = Some p.
Proof.
  intros Hm Hp Hk. simpl. set (l := default [] (genPathToPackMap m !! path)).
  assert (p ∈ l) as Hin.
  { apply genPathToPackMap_spec. exists (Key p). split; [done|by apply toPack_Key]. }
  destruct (fold_keys_some l p Hin) as [q Hq]. rewrite Hq. f_equal.
  apply fold_keys_lookup in Hq as [Hql Hqk].
  apply genPathToPackMap_spec in Hql as (k & Hkp & Hkq).
  destruct (Hm _ _ Hkp) as (q' & Hq' & Hk'). rewrite Hkq in Hk'. injection Hk' as <-.
  by apply Key_inj.
Qed.

(** A path whose only key is that of [p] has the one pack [p]. *)
Lemma doGetAllPacks_sole m path p :
  keys_ok m -> fields_ok p -> PackToPath m !! Key p = Some path ->
  (forall k, PackToPath m !! k = Some path -> k = Key p) ->
  Packs (doGetAllPacks path m (genPathToPackMap m)) = {[Key p := p]}.
Proof.
  intros Hm Hp Hk Hsole. apply map_eq. intros k. destruct (decide (k = Key p)) as [->|Hne].
  { rewrite lookup_singleton_eq. by apply doGetAllPacks_lookup. }
  rewrite lookup_singleton_ne by done. simpl. apply eq_None_not_Some. intros [q Hq].
  apply fold_keys_lookup in Hq as [Hql <-].
  apply genPathToPackMap_spec in Hql as (k & Hkp & Hkq).
  apply Hsole in Hkp as ->. rewrite toPack_Key in Hkq by done. by simplify_eq.
Qed.

Lemma associate_default d p content server b m x :
  content <> [] ->
  PathToDefaultPackKey (associate d p content server b m) !! x =
  if bool_decide (x = d) && (b || bool_decide (PathToDefaultPackKey m !! d = None))
  then Some (Key p) else PathToDefaultPackKey m !! x.
Proof.
  intros Hc. unfold associate. rewrite bool_decide_eq_false_2 by done. cbv zeta.
  set (m1 := if bool_decide (Container p = []) then _ else _).
  assert (PathToDefaultPackKey m1 = PathToDefaultPackKey m) as Hm1.
  { unfold m1. case_bool_decide; [by rewrite fold_put_default|done]. }
  rewrite !Hm1. destruct b; simpl; repeat case_bool_decide; simpl; rewrite ?Hm1;
    rewrite ?lookup_insert; repeat case_decide; congruence.
Qed.
End store_facts.

(** ** Theorems *)

(** encoding a pack as a key and decoding the key gives the pack back, with
    or without a container, as long as no field contains a slash. *)
Theorem pack_key_roundtrip p : fields_ok p -> toPack (Key p) = Some p.
Proof. apply toPack_Key. Qed.

Section theorems.
Context `{!MapOrder gostring} `{!YamlCodec} `{!KubeConfigs} (o : OS).

(** C38: [Associate] of a pack as the default, with a database that does not fail, a
    kubeconfig that has content and a mapping whose keys all decode to packs with
    slash-free fields, succeeds on every pack whose namespace, application, type and
    service are given and whose fields have no slash.  Afterwards the pack, and the
    pack without its container, are associated with the directory, the pack is listed
    among the packs of the directory, and it is the directory's default pack. *)
Theorem associate_then_lookup db m d p kubeconfig :
  load no_faults db = Ok m -> keys_ok m -> valid p = true -> fields_ok p ->
  snd (ReadFile o (NewFilePath o kubeconfig)) <> [] ->
  exists db', Associate o no_faults db d p kubeconfig true = (db', Ok tt) /\
    GetAssociatePath no_faults db' p = d /\
    GetAssociatePath no_faults db' (no_container p) = d /\
    AlreadyAssociate no_faults db' d p = Done true /\
    getDefaultPack no_faults db' d = Ok p.
Proof.
  intros Hl Hm Hv Hf Hc.
  destruct (Associate_load o db m d p kubeconfig true Hl Hv) as (db' & Ha & Hl').
  exists db'. split; [done|]. set (m' := associated o d p kubeconfig true m) in *.
  assert (PackToPath m' !! Key p = Some d) as Hk.
  { unfold m', associated. rewrite associate_lookup by done. by rewrite bool_decide_eq_true_2. }
  assert (PackToPath m' !! Key (no_container p) = Some d) as Hk0.
  { rewrite <- KeyWithoutContainer_Key. unfold m', associated. rewrite associate_lookup by done.
    destruct (bool_decide_reflect (Container p = [])) as [E|E].
    - rewrite bool_decide_eq_true_2; [done|]. unfold Key. by rewrite bool_decide_eq_true_2.
    - rewrite (bool_decide_eq_true_2 (_ = KeyWithoutContainer p)) by done.
      by destruct (bool_decide _). }
  assert (keys_ok m') as Hm'.
  { apply keys_ok_associate; [done|]. by apply keys_ok_remove. }
  pose proof (doGetAllPacks_lookup m' d p Hm' Hf Hk) as Hall.
  unfold GetAssociatePath, AlreadyAssociate, getDefaultPack, getAllPacks.
  rewrite !(Get_load _ _ _ Hl'). rewrite Hv.
  assert (valid (no_container p) = true) as Hv0 by done. rewrite Hv0. simpl.
  unfold lookup_path. rewrite Hk, Hk0. split; [done|]. split; [done|]. split.
  - f_equal. apply existsb_exists. exists (Key p, p). split.
    + apply list_elem_of_In, elem_of_range. exact Hall.
    + simpl. by rewrite bool_decide_eq_true_2.
  - assert (at_ (PathToDefaultPackKey m') d = Key p) as ->.
    { unfold at_, m', associated. by rewrite associate_default_key. }
    simpl in Hall. by rewrite Hall.
Qed.

(** the store keeps only well-formed keys: [Associate] and [RemovePack]
    preserve that every key decodes to a pack with slash-free fields. *)
Theorem keys_invariant db m d p kubeconfig b :
  load no_faults db = Ok m -> keys_ok m -> valid p = true -> fields_ok p ->
  (exists db1 m1, Associate o no_faults db d p kubeconfig b = (db1, Ok tt) /\
     load no_faults db1 = Ok m1 /\ keys_ok m1) /\
  (exists db2 m2, RemovePack no_faults db d p = (db2, Ok tt) /\
     load no_faults db2 = Ok m2 /\ keys_ok m2).
Proof.
  intros Hl Hm Hv Hf. split.
  - destruct (Associate_load o db m d p kubeconfig b Hl Hv) as (db' & Ha & Hl').
    eexists _, _. split; [done|]. split; [done|].
    apply keys_ok_associate; [done|]. by apply keys_ok_remove.
  - destruct (RemovePack_load db m d p Hl Hv) as (db' & Ha & Hl').
    eexists _, _. split; [done|]. split; [done|]. by apply keys_ok_remove.
Qed.

(** after [UnAssociatePath] the pack has no directory, whichever of the
    four keys held it before. *)
Theorem unassociate_then_lookup db m p :
  load no_faults db = Ok m ->
  GetAssociatePath no_faults (UnAssociatePath no_faults db p) p = [].
Proof.
  intros Hl. unfold UnAssociatePath.
  edestruct (Update_load (A := unit) db m) as (db' & -> & Hl'); [done|done|]. simpl.
  unfold GetAssociatePath. destruct (negb (valid p)); [done|].
  rewrite (Get_load _ _ _ Hl'). unfold lookup_path, at_, unassociate; simpl.
  rewrite !lookup_delete. repeat case_decide; try congruence; done.
Qed.

(** associating a pack that names no container leaves the packs of the same
    workload that name one where they were, although the code means to move
    them along: a key with an empty container is a prefix of none of theirs. *)
Theorem associate_skips_containers db m d p q kubeconfig b :
  load no_faults db = Ok m -> valid p = true -> fields_ok p -> fields_ok q ->
  Container p = [] -> Container q <> [] ->
  Ns q = Ns p -> App q = App p -> SvcType q = SvcType p -> Svc q = Svc p ->
  exists db' m', Associate o no_faults db d p kubeconfig b = (db', Ok tt) /\
    load no_faults db' = Ok m' /\ PackToPath m' !! Key q = PackToPath m !! Key q.
Proof.
  intros Hl Hv Hp Hq Hcp Hcq Hn Ha Ht Hs.
  destruct (Associate_load o db m d p kubeconfig b Hl Hv) as (db' & HA & Hl').
  eexists db', _. split; [done|]. split; [done|]. unfold associated.
  assert (HasPrefix (Key q) (Key p) = false) as Hpre.
  { destruct (HasPrefix (Key q) (Key p)) eqn:E; [|done].
    apply HasPrefix_spec in E as [k E]. apply (f_equal (fun x => Split x splitter)) in E.
    rewrite !Key_key_of in E. destruct Hp as (? & ? & ? & ? & ? & ?), Hq as (? & ? & ? & ? & ? & ?).
    rewrite Split_key_of in E by done.
    replace (key_of (Ns p) (App p) (SvcType p) (Svc p) (Container p) (Nid p) ++ k)
      with (key_of (Ns p) (App p) (SvcType p) (Svc p) (Container p) (Nid p ++ k)) in E
      by (unfold key_of; by rewrite <- !app_assoc).
    rewrite Split_key_of in E by done. congruence. }
  assert (Key q <> Key p) as Hne.
  { intros E. rewrite E in Hpre. pose proof (HasPrefix_app (Key p) []) as E2.
    rewrite app_nil_r in E2. congruence. }
  destruct (decide (snd (ReadFile o (NewFilePath o kubeconfig)) = [])) as [E|E].
  - unfold associate. rewrite bool_decide_eq_true_2 by done.
    rewrite remove_pack_lookup. by rewrite bool_decide_eq_false_2.
  - rewrite associate_lookup by done. rewrite bool_decide_eq_false_2 by done.
    rewrite bool_decide_eq_true_2 by done. rewrite Hpre. cbn [andb].
    rewrite remove_pack_lookup. by rewrite bool_decide_eq_false_2.
Qed.

(** when a directory has one pack only and that pack is moved to another
    directory with [setAsDefaultSvc] false, the other directory's default pack
    is replaced all the same (its entry is the one the code deletes) and the old
    directory keeps a default that is none of its packs. *)
Theorem move_sole_pack_default db m d d0 p q kubeconfig :
  load no_faults db = Ok m -> keys_ok m -> valid p = true -> fields_ok p ->
  snd (ReadFile o (NewFilePath o kubeconfig)) <> [] -> d <> d0 ->
  PackToPath m !! Key p = Some d0 ->
  (forall k, PackToPath m !! k = Some d0 -> k = Key p) ->
  PathToDefaultPackKey m !! d = Some q -> PathToDefaultPackKey m !! d0 = Some (Key p) ->
  exists db' m', Associate o no_faults db d p kubeconfig false = (db', Ok tt) /\
    load no_faults db' = Ok m' /\
    PathToDefaultPackKey m' !! d = Some (Key p) /\
    PathToDefaultPackKey m' !! d0 = Some (Key p) /\ PackToPath m' !! Key p = Some d.
Proof.
  intros Hl Hm Hv Hf Hc Hd Hk Hsole Hq Hd0.
  destruct (Associate_load o db m d p kubeconfig false Hl Hv) as (db' & HA & Hl').
  eexists db', _. split; [done|]. split; [done|]. unfold associated.
  rewrite !associate_default, associate_lookup by done.
  assert (PathToDefaultPackKey (remove_pack d p m (genPathToPackMap m)) =
          delete d (PathToDefaultPackKey m)) as ->.
  { unfold remove_pack, at_. rewrite Hk. cbn [default PathToDefaultPackKey].
    change (id d0) with d0. rewrite (doGetAllPacks_sole m d0 p) by done.
    by rewrite map_size_singleton. }
  rewrite lookup_delete_eq, lookup_delete_ne by done.
  rewrite (bool_decide_eq_true_2 (d = d)), (bool_decide_eq_true_2 (None = None)) by done.
  rewrite (bool_decide_eq_false_2 (d0 = d)), (bool_decide_eq_true_2 (Key p = Key p)) by done.
  done.
Qed.

(** [Associate] with a kubeconfig that is empty or cannot be read reports
    success, stores nothing, and has dropped the association the pack had. *)
Theorem associate_unreadable_kubeconfig db m d p kubeconfig b :
  load no_faults db = Ok m -> valid p = true ->
  snd (ReadFile o (NewFilePath o kubeconfig)) = [] ->
  exists db' m', Associate o no_faults db d p kubeconfig b = (db', Ok tt) /\
    load no_faults db' = Ok m' /\ PackToPath m' = delete (Key p) (PackToPath m).
Proof.
  intros Hl Hv Hc. destruct (Associate_load o db m d p kubeconfig b Hl Hv) as (db' & HA & Hl').
  eexists db', _. split; [done|]. split; [done|]. unfold associated, associate.
  by rewrite bool_decide_eq_true_2.
Qed.

(** after associating the workload without naming a container, asking for
    one of its containers finds the directory but neither the kubeconfig nor
    the server stored with it: the container-less key is consulted for the
    first and never for the second. *)
Theorem kubeconfig_fallback_missing d p kubeconfig b :
  valid p = true -> fields_ok p -> Container p <> [] ->
  snd (ReadFile o (NewFilePath o kubeconfig)) <> [] ->
  exists db', Associate o no_faults ∅ d (no_container p) kubeconfig b = (db', Ok tt) /\
    GetAssociatePath no_faults db' p = d /\
    GetKubeConfigBytesAndServer no_faults db' p = ([], []) /\
    fst (GetKubeConfigBytesAndServer no_faults db' (no_container p)) =
      snd (ReadFile o (NewFilePath o kubeconfig)).
Proof.
  intros Hv Hf Hcp Hc.
  assert (valid (no_container p) = true) as Hv0 by done.
  destruct (Associate_load o ∅ emptyMapping d (no_container p) kubeconfig b load_empty Hv0)
    as (db' & HA & Hl').
  exists db'. split; [done|]. unfold GetAssociatePath, GetKubeConfigBytesAndServer.
  rewrite Hv, Hv0, !(Get_load _ _ _ Hl'). simpl negb. cbv iota. unfold lookup_path, lookup_kubeconfig.
  set (content := snd (ReadFile o (NewFilePath o kubeconfig))) in *.
  set (k0 := Key (no_container p)).
  assert (forall proj v k, stores d content (getKubeConfigServer kubeconfig) proj v ->
    proj emptyMapping = ∅ ->
    proj (remove_pack d (no_container p) emptyMapping (genPathToPackMap emptyMapping)) = ∅ ->
    proj (associated o d (no_container p) kubeconfig b emptyMapping) !! k =
      if bool_decide (k = k0) then Some v else None) as Hlook.
  { intros proj v k Hst Hemp Hrem. unfold associated. rewrite (associate_proj _ _ _ _ _ _ _ _ _ Hc Hst).
    rewrite Hrem, remove_pack_lookup. simpl. rewrite !lookup_empty, andb_comm.
    fold k0. repeat case_bool_decide; simpl; try done; by destruct (is_Some_None _ H1). }
  assert (fields_ok (no_container p)) as Hf0 by by apply no_container_ok.
  assert (Key p <> k0) as H1.
  { intros E. apply Key_inj in E; [|done..]. by rewrite E in Hcp. }
  assert (WithoutNid (Key p) <> k0) as H2 by by apply WithoutNid_ne.
  assert (WithoutNid k0 <> k0) as H3 by by apply WithoutNid_ne.
  change (KeyWithoutContainer (no_container p)) with k0.
  change (KeyWithoutContainer p) with k0. unfold at_.
  rewrite !(Hlook _ _ _ (stores_path _ _ _)), !(Hlook _ _ _ (stores_bytes _ _ _)),
    !(Hlook _ _ _ (stores_server _ _ _)) by (done || apply delete_empty).
  rewrite (bool_decide_eq_false_2 _ H1), (bool_decide_eq_false_2 _ H2),
    (bool_decide_eq_false_2 _ H3), (bool_decide_eq_true_2 (k0 = k0)) by done.
  done.
Qed.
End theorems.

(** ** Witnesses *)

#[export] Instance DevDirMapping_countable_eq : EqDecision DevDirMapping.
Proof. solve_decision. Defined.

#[export] Instance DevDirMapping_countable : Countable DevDirMapping.
Proof.
  apply (inj_countable'
    (fun m => (PathToDefaultPackKey m, PackToPath m, PackToKubeConfigBytes m, PackToKubeConfigServer m))
    (fun '(a, b, c, d) => Mapping a b c d)).
  by intros [].
Defined.

Definition demo_yaml : YamlCodec :=
  {| Marshal := to_text; Unmarshal := of_text;
     Unmarshal_Marshal := of_to_text; Marshal_nonempty := to_text_nonempty |}.

Definition demo_kubeconfigs : KubeConfigs :=
  {| RawConfigOf := fun _ =>
       Some {| CurrentContext := go "dev"; ContextClusters := {[go "dev" := go "cluster"]} |} |}.

Definition demo_pack (c : string) : SvcPack :=
  NewSvcPack (go "default") (go "nid") (go "bookinfo") (go "deployment") (go "reviews") (go c).

Definition demo_os : OS :=
  {| files := {[go "/kube" := go "apiVersion: v1"]}; cwd := go "/w"; home := None;
     read_error := fun p => p |}.

#[local] Existing Instances demo_yaml demo_kubeconfigs.

Ltac demo_done :=
  first [ reflexivity | discriminate
        | match goal with |- fields_ok _ =>
            repeat split; apply (bool_decide_eq_true_1 _); vm_compute; reflexivity end
        | vm_compute; reflexivity
        | vm_compute; discriminate ].

Lemma pack_key_roundtrip_witness : toPack (Key (demo_pack "main")) = Some (demo_pack "main").
Proof. apply (pack_key_roundtrip (demo_pack "main")). demo_done. Defined.

Lemma keys_ok_empty : keys_ok emptyMapping.
Proof. intros k path. simpl. by rewrite lookup_empty. Qed.

Lemma associate_then_lookup_witness :
  exists db', Associate demo_os no_faults ∅ (go "/src") (demo_pack "main") (go "/kube") true = (db', Ok tt) /\
    GetAssociatePath no_faults db' (demo_pack "main") = go "/src".
Proof.
  destruct (associate_then_lookup demo_os ∅ emptyMapping (go "/src") (demo_pack "main") (go "/kube"))
    as (db' & H1 & H2 & _).
  - apply load_empty.
  - apply keys_ok_empty.
  - demo_done.
  - demo_done.
  - demo_done.
  - by exists db'.
Defined.

Lemma keys_invariant_witness :
  exists db1 m1, Associate demo_os no_faults ∅ (go "/src") (demo_pack "main") (go "/kube") false = (db1, Ok tt) /\
    load no_faults db1 = Ok m1 /\ keys_ok m1.
Proof.
  destruct (keys_invariant demo_os ∅ emptyMapping (go "/src") (demo_pack "main") (go "/kube") false)
    as [H _].
  - apply load_empty.
  - apply keys_ok_empty.
  - demo_done.
  - demo_done.
  - exact H.
Defined.

Lemma unassociate_then_lookup_witness :
  GetAssociatePath no_faults (UnAssociatePath no_faults ∅ (demo_pack "main")) (demo_pack "main") = [].
Proof. apply (unassociate_then_lookup ∅ emptyMapping). apply load_empty. Defined.

(** A store where the workload's container is associated with [/old] and the
    bare workload with [/src]. *)
Definition demo_mapping : DevDirMapping :=
  Mapping {[go "/src" := Key (demo_pack ""); go "/old" := Key (demo_pack "main")]}
    {[Key (demo_pack "main") := go "/old"; Key (demo_pack "") := go "/src"]} ∅ ∅.

Definition demo_db : levelDB := <[DefaultKey := Marshal demo_mapping]> ∅.

Lemma load_demo : load no_faults demo_db = Ok demo_mapping.
Proof. unfold demo_db. apply load_saved. Qed.

Lemma keys_ok_demo : keys_ok demo_mapping.
Proof.
  intros k path. unfold demo_mapping, PackToPath. rewrite lookup_insert. case_decide as E.
  - intros _. subst k. exists (demo_pack "main"). split; [demo_done|]. apply toPack_Key. demo_done.
  - rewrite lookup_singleton. case_decide as E'; [|done]. intros _. subst k.
    exists (demo_pack ""). split; [demo_done|]. apply toPack_Key. demo_done.
Qed.

Lemma associate_skips_containers_witness :
  exists db' m', Associate demo_os no_faults demo_db (go "/new") (demo_pack "") (go "/kube") true = (db', Ok tt) /\
    load no_faults db' = Ok m' /\ PackToPath m' !! Key (demo_pack "main") = Some (go "/old").
Proof.
  apply (associate_skips_containers demo_os demo_db demo_mapping (go "/new") (demo_pack "")
           (demo_pack "main") (go "/kube") true).
  - apply load_demo.
  - demo_done.
  - demo_done.
  - demo_done.
  - reflexivity.
  - discriminate.
  - reflexivity.
  - reflexivity.
  - reflexivity.
  - reflexivity.
Defined.

Lemma move_sole_pack_default_witness :
  exists db' m', Associate demo_os no_faults demo_db (go "/src") (demo_pack "main") (go "/kube") false = (db', Ok tt) /\
    load no_faults db' = Ok m' /\ PathToDefaultPackKey m' !! go "/src" = Some (Key (demo_pack "main")) /\
    PathToDefaultPackKey m' !! go "/old" = Some (Key (demo_pack "main")) /\
    PackToPath m' !! Key (demo_pack "main") = Some (go "/src").
Proof.
  apply (move_sole_pack_default demo_os demo_db demo_mapping (go "/src") (go "/old")
           (demo_pack "main") (Key (demo_pack "")) (go "/kube")).
  - apply load_demo.
  - apply keys_ok_demo.
  - demo_done.
  - demo_done.
  - demo_done.
  - discriminate.
  - vm_compute. reflexivity.
  - intros k. unfold demo_mapping, PackToPath. rewrite lookup_insert. case_decide as E; [done|].
    rewrite lookup_singleton. by case_decide.
  - vm_compute. reflexivity.
  - vm_compute. reflexivity.
Defined.

Lemma associate_unreadable_kubeconfig_witness :
  exists db' m', Associate demo_os no_faults demo_db (go "/src") (demo_pack "main") (go "/none") true = (db', Ok tt) /\
    load no_faults db' = Ok m' /\
    PackToPath m' = delete (Key (demo_pack "main")) (PackToPath demo_mapping).
Proof.
  apply (associate_unreadable_kubeconfig demo_os demo_db demo_mapping).
  - apply load_demo.
  - demo_done.
  - demo_done.
Defined.

Lemma kubeconfig_fallback_missing_witness :
  exists db', Associate demo_os no_faults ∅ (go "/src") (no_container (demo_pack "main")) (go "/kube") true = (db', Ok tt) /\
    GetAssociatePath no_faults db' (demo_pack "main") = go "/src" /\
    GetKubeConfigBytesAndServer no_faults db' (demo_pack "main") = ([], []) /\
    fst (GetKubeConfigBytesAndServer no_faults db' (no_container (demo_pack "main"))) =
      snd (ReadFile demo_os (NewFilePath demo_os (go "/kube"))).
Proof.
  apply (kubeconfig_fallback_missing demo_os (go "/src") (demo_pack "main") (go "/kube") true).
  - demo_done.
  - demo_done.
  - discriminate.
  - demo_done.
Defined.
