(* ===== verification/AppMeta.v ===== *)
(** * The application meta ([internal/nhctl/appmeta/application_meta.go])

    The state of an installed application (its type and state, its hooks and
    manifest, its configuration and which workloads are in dev mode) is a struct
    that is written into the data of a Kubernetes secret and read back from it.
    Here are the struct, its encoding ([prepare]) and decoding
    ([ReAssignmentBySecret]), the update loop with its retries, the ways to
    create the secret, the dev-mode state machine and the uninstall sequence.

    The API server, the YAML library, xz, the configuration type, the clock and
    the uuid generator are parameters.  The meta's operator is taken to be set. *)

From S2P Require Import Prelude GoStrings FilePath DevDir.
#[local] Open Scope go_scope.

(** ** Constants and names *)

Definition SecretType : gostring := go "dev.nocalhost/application.meta".
Definition SecretNamePrefix : gostring := go "dev.nocalhost.application.".
Definition CmNamePrefix : gostring := go "dev.nocalhost.config.".

Definition SecretUninstallBackOffKey : gostring := go "time".
Definition SecretHelmReleaseNameKey : gostring := go "r".
Definition SecretNamespaceIdKey : gostring := go "nid".
Definition SecretPostInstallKey : gostring := go "po".
Definition SecretPostUpgradeKey : gostring := go "pou".
Definition SecretPostDeleteKey : gostring := go "pod".
Definition SecretPreInstallKey : gostring := go "p".
Definition SecretPreUpgradeKey : gostring := go "pu".
Definition SecretPreDeleteKey : gostring := go "pd".
Definition SecretManifestKey : gostring := go "m".
Definition SecretDevMetaKey : gostring := go "v".
Definition SecretAppTypeKey : gostring := go "t".
Definition SecretConfigKey : gostring := go "c".
Definition SecretStateKey : gostring := go "s".
Definition SecretDepKey : gostring := go "d".

Definition DependenceConfigMapPrefix : gostring := go "nocalhost-depends-do-not-overwrite".
Definition DEV_STARTING_SUFFIX : gostring := go ">...Starting".

(** [AppType] is a string type with these constants. *)
Module AppType.
Definition Helm : gostring := go "helmGit".
Definition HelmRepo : gostring := go "helmRepo".
Definition Manifest : gostring := go "rawManifest".
Definition ManifestGit : gostring := go "rawManifestGit".
Definition ManifestLocal : gostring := go "rawManifestLocal".
Definition HelmLocal : gostring := go "helmLocal".
Definition KustomizeGit : gostring := go "kustomizeGit".
Definition KustomizeLocal : gostring := go "kustomizeLocal".
End AppType.

Definition UNINSTALLED : gostring := go "UNINSTALLED".
Definition INSTALLING : gostring := go "INSTALLING".
Definition INSTALLED : gostring := go "INSTALLED".
Definition UNKNOWN : gostring := go "UNKNOWN".

Definition HasConfigMapPrefix (key : gostring) : bool := HasPrefix key CmNamePrefix.

Definition GetAppNameFromConfigMapName (cmName : gostring) : gostring :=
  if HasConfigMapPrefix cmName then TrimPrefix cmName CmNamePrefix else [].

Definition ConfigMapName (appName : gostring) : gostring := CmNamePrefix ++ appName.

Inductive metaerr :=
  | SecretIsNull
  | IllegalSecretName (n : gostring)
  | NoStateKey (n : gostring)
  | ErrAlreadyDev
  | SecretNotFound
  | SecretDataNil
  | IsNotFound
  | IsAlreadyExists
  | Conflict
  | OtherApiError
  | ProtectedSecret
  | UuidError
  | HookError
  | HelmError
  | ConfigMapError
  | Wrapped (e : metaerr).

(** The application's name from a secret's name or its [ns/name] key. *)
Definition GetApplicationName (secretName : gostring) : res metaerr gostring :=
  let secretName :=
    match Index secretName (go "/") with
    | Some idx =>
        if (0 <? idx) && (idx + 1 <? length secretName) then drop (idx + 1) secretName
        else secretName
    | None => secretName
    end in
  if negb (HasPrefix secretName SecretNamePrefix) then Err (IllegalSecretName secretName)
  else Ok (drop (length SecretNamePrefix) secretName).

Definition AppTypeOf (s : gostring) : gostring :=
  if bool_decide (s = AppType.Helm) then AppType.Helm
  else if bool_decide (s = AppType.HelmRepo) then AppType.HelmRepo
  else if bool_decide (s = AppType.HelmLocal) then AppType.HelmLocal
  else if bool_decide (s = AppType.Manifest) then AppType.Manifest
  else if bool_decide (s = AppType.ManifestGit) then AppType.ManifestGit
  else if bool_decide (s = AppType.ManifestLocal) then AppType.ManifestLocal
  else if bool_decide (s = AppType.KustomizeGit) then AppType.KustomizeGit
  else AppType.Manifest.

Definition IsHelmType (a : gostring) : bool :=
  bool_decide (a = AppType.Helm) || bool_decide (a = AppType.HelmRepo) ||
  bool_decide (a = AppType.HelmLocal).

Definition ApplicationStateOf (s : gostring) : gostring :=
  if bool_decide (s = INSTALLING) then INSTALLING
  else if bool_decide (s = INSTALLED) then INSTALLED
  else if bool_decide (s = UNKNOWN) then UNKNOWN
  else UNINSTALLED.

(** ** Workload types and dev modes ([base/svctype.go], [profile/profile_v2.go]) *)

Definition Deployment : gostring := go "deployment".
Definition DEPLOYMENT : gostring := go "D".

Definition Alias (s : gostring) : gostring :=
  if bool_decide (s = Deployment) then DEPLOYMENT else s.

Definition Origin (s : gostring) : gostring :=
  if bool_decide (s = DEPLOYMENT) then Deployment else s.

Definition DuplicateDevMode : gostring := go "duplicate".
Definition ReplaceDevMode : gostring := go "replace".
Definition NoneDevMode : gostring := [].

Definition IsReplaceDevMode (d : gostring) : bool :=
  bool_decide (d = ReplaceDevMode) || bool_decide (d = []).

Inductive DevStartStatus := STARTING | STARTED | NONE.

(** Workload type, then resource name, to the identifier of the developer.  The
    outer map may be nil. *)
Abbreviation devmeta := (gmap gostring (gmap gostring gostring)).

(** ** The secret and the libraries *)

(** What the code uses of a Kubernetes secret: [Data] may be nil. *)
Record Secret := mkSecret {
  SecretName : gostring;
  SecretNamespace : gostring;
  SecretKind : gostring;
  ResourceVersion : Z;
  Data : option (gmap gostring gostring)
}.

Definition with_Data (s : Secret) (d : option (gmap gostring gostring)) : Secret :=
  mkSecret (SecretName s) (SecretNamespace s) (SecretKind s) (ResourceVersion s) d.

(** [xz_write] is [None] when the writer fails; [xz_read] is [None] when the
    reader cannot be opened and else the bytes read until the end or an error. *)
Class Xz := {
  xz_write : gostring -> option gostring;
  xz_read : gostring -> option gostring
}.

Class XzLaws `{!Xz} := {
  xz_roundtrip : forall x, exists y, xz_write x = Some y /\ y <> [] /\ xz_read y = Some x
}.

(** The YAML library on the configuration and on the dev meta.  Unmarshalling
    the configuration starts from a value and reports whether it failed. *)
Class MetaYaml (C : Type) := {
  config_zero : C;
  config_migrated : C;
  yaml_config : option C -> gostring;
  unyaml_config : gostring -> C -> C * bool;
  yaml_devmeta : option devmeta -> gostring;
  unyaml_devmeta : gostring -> option devmeta
}.

Class MetaYamlLaws (C : Type) `{!MetaYaml C} := {
  unyaml_yaml_config : forall c, unyaml_config (yaml_config (Some c)) config_zero = (c, true);
  unyaml_yaml_devmeta : forall d, unyaml_devmeta (yaml_devmeta d) = Some (default ∅ d)
}.

Definition compress `{!Xz} (input : gostring) : gostring := default [] (xz_write input).

Definition decompress `{!Xz} (input : gostring) : gostring :=
  if bool_decide (input = []) then input else default [] (xz_read input).

(** The match of [remoteDebugPort: "[0-9]*"] at the start of [s]: what follows it. *)
Definition port_pattern : gostring := go "remoteDebugPort: " ++ [Ascii.ascii_of_nat 34].

Fixpoint skip_digits (s : gostring) : option gostring :=
  match s with
  | c :: s' =>
      if (48 <=? byte_val c)%Z && (byte_val c <=? 57)%Z then skip_digits s'
      else if (byte_val c =? 34)%Z then Some s' else None
  | [] => None
  end.

Definition match_port (s : gostring) : option gostring :=
  if HasPrefix s port_pattern then skip_digits (drop (length port_pattern) s) else None.

(** [re.ReplaceAllString(cfg, "")]. *)
Fixpoint drop_ports (fuel : nat) (s : gostring) : gostring :=
  match fuel with
  | 0 => s
  | S fuel =>
      match s with
      | [] => []
      | c :: s' =>
          match match_port s with
          | Some rest => drop_ports fuel rest
          | None => c :: drop_ports fuel s'
          end
      end
  end.

Definition unmarshalConfigUnStrict {C : Type} `{!MetaYaml C} (cfg : gostring) : C :=
  let '(result, ok) := unyaml_config cfg config_zero in
  if ok then result
  else fst (unyaml_config (drop_ports (length cfg) cfg) result).

(** ** The meta *)

Section meta.
Context {C : Type} `{!Xz} `{!MetaYaml C}.

Record ApplicationMeta := mkMeta {
  Application : gostring;
  HelmReleaseName : gostring;
  MetaNs : gostring;
  ApplicationType : gostring;
  ApplicationState : gostring;
  DepConfigName : gostring;
  PreInstallManifest : gostring;
  PostInstallManifest : gostring;
  PreUpgradeManifest : gostring;
  PostUpgradeManifest : gostring;
  PreDeleteManifest : gostring;
  PostDeleteManifest : gostring;
  Manifest : gostring;
  UninstallBackOff : Z;
  DevMeta : option devmeta;
  Config : option C;
  MetaSecret : option Secret;
  NamespaceId : gostring
}.

Definition zeroMeta : ApplicationMeta :=
  mkMeta [] [] [] [] [] [] [] [] [] [] [] [] [] 0%Z None None None [].

Definition FakeAppMeta (ns application : gostring) : ApplicationMeta :=
  mkMeta application [] ns [] INSTALLED [] [] [] [] [] [] [] [] 0%Z (Some ∅)
    (Some config_migrated) None (go "fakedNid").

Definition with_Secret (a : ApplicationMeta) (x : option Secret) : ApplicationMeta :=
  let '(mkMeta a1 a2 a3 a4 a5 a6 a7 a8 a9 b1 b2 b3 b4 b5 b6 b7 _ b9) := a in
  mkMeta a1 a2 a3 a4 a5 a6 a7 a8 a9 b1 b2 b3 b4 b5 b6 b7 x b9.

Definition with_State (a : ApplicationMeta) (x : gostring) : ApplicationMeta :=
  let '(mkMeta a1 a2 a3 a4 _ a6 a7 a8 a9 b1 b2 b3 b4 b5 b6 b7 b8 b9) := a in
  mkMeta a1 a2 a3 a4 x a6 a7 a8 a9 b1 b2 b3 b4 b5 b6 b7 b8 b9.

Definition with_DepConfigName (a : ApplicationMeta) (x : gostring) : ApplicationMeta :=
  let '(mkMeta a1 a2 a3 a4 a5 _ a7 a8 a9 b1 b2 b3 b4 b5 b6 b7 b8 b9) := a in
  mkMeta a1 a2 a3 a4 a5 x a7 a8 a9 b1 b2 b3 b4 b5 b6 b7 b8 b9.

Definition with_DevMeta (a : ApplicationMeta) (x : option devmeta) : ApplicationMeta :=
  let '(mkMeta a1 a2 a3 a4 a5 a6 a7 a8 a9 b1 b2 b3 b4 b5 _ b7 b8 b9) := a in
  mkMeta a1 a2 a3 a4 a5 a6 a7 a8 a9 b1 b2 b3 b4 b5 x b7 b8 b9.

Definition with_NamespaceId (a : ApplicationMeta) (x : gostring) : ApplicationMeta :=
  let '(mkMeta a1 a2 a3 a4 a5 a6 a7 a8 a9 b1 b2 b3 b4 b5 b6 b7 b8 _) := a in
  mkMeta a1 a2 a3 a4 a5 a6 a7 a8 a9 b1 b2 b3 b4 b5 b6 b7 b8 x.

(** A field the secret's data may hold: decoded when present, else kept. *)
Definition field {A : Type} (data : gmap gostring gostring) (key : gostring)
    (f : gostring -> A) (old : A) : A :=
  match data !! key with
  | Some bs => f bs
  | None => old
  end.

Definition atoi_or_zero (s : gostring) : Z :=
  match Atoi s with
  | Some z => z
  | None => 0%Z
  end.

Definition ReAssignmentBySecret (a : ApplicationMeta) (secret : option Secret)
    : ApplicationMeta * res metaerr unit :=
  let a := with_Secret a secret in
  match secret with
  | None => (a, Err SecretIsNull)
  | Some sec =>
      match GetApplicationName (SecretName sec) with
      | Err e => (a, Err e)
      | Ok appName =>
          let data := default ∅ (Data sec) in
          match data !! SecretStateKey with
          | None => (a, Err (NoStateKey (SecretName sec)))
          | Some bs =>
              let config := field data SecretConfigKey
                (fun bs => Some (unmarshalConfigUnStrict (decompress bs))) (Config a) in
              (mkMeta
                 appName
                 (field data SecretHelmReleaseNameKey id (HelmReleaseName a))
                 (SecretNamespace sec)
                 (field data SecretAppTypeKey id (ApplicationType a))
                 (ApplicationStateOf bs)
                 (DepConfigName a)
                 (field data SecretPreInstallKey decompress (PreInstallManifest a))
                 (field data SecretPostInstallKey decompress (PostInstallManifest a))
                 (field data SecretPreUpgradeKey decompress (PreUpgradeManifest a))
                 (field data SecretPostUpgradeKey decompress (PostUpgradeManifest a))
                 (field data SecretPreDeleteKey decompress (PreDeleteManifest a))
                 (field data SecretPostDeleteKey decompress (PostDeleteManifest a))
                 (field data SecretManifestKey decompress (Manifest a))
                 (field data SecretUninstallBackOffKey atoi_or_zero (UninstallBackOff a))
                 (field data SecretDevMetaKey unyaml_devmeta (DevMeta a))
                 (match config with Some c => Some c | None => Some config_zero end)
                 (Some sec)
                 (field data SecretNamespaceIdKey id (NamespaceId a)), Ok tt)
          end
      end
  end.

Definition Decode (secret : option Secret) : res metaerr ApplicationMeta :=
  match ReAssignmentBySecret zeroMeta secret with
  | (a, Ok _) => Ok a
  | (_, Err e) => Err e
  end.

(** The data [prepare] writes over what the secret holds. *)
Definition prepare_data (a : ApplicationMeta) (data : gmap gostring gostring)
    : gmap gostring gostring :=
  let data := <[SecretUninstallBackOffKey := Itoa (UninstallBackOff a)]> data in
  let data := <[SecretPreInstallKey := compress (PreInstallManifest a)]> data in
  let data := <[SecretPreUpgradeKey := compress (PreUpgradeManifest a)]> data in
  let data := <[SecretPreDeleteKey := compress (PreDeleteManifest a)]> data in
  let data := <[SecretPostInstallKey := compress (PostInstallManifest a)]> data in
  let data := <[SecretPostUpgradeKey := compress (PostUpgradeManifest a)]> data in
  let data := <[SecretPostDeleteKey := compress (PostDeleteManifest a)]> data in
  let data := <[SecretNamespaceIdKey := NamespaceId a]> data in
  let data := <[SecretManifestKey := compress (Manifest a)]> data in
  let data := <[SecretConfigKey := compress (yaml_config (Config a))]> data in
  let data := <[SecretStateKey := ApplicationState a]> data in
  let data := <[SecretDepKey := DepConfigName a]> data in
  let data := <[SecretAppTypeKey := ApplicationType a]> data in
  let data := <[SecretHelmReleaseNameKey := HelmReleaseName a]> data in
  <[SecretDevMetaKey := yaml_devmeta (DevMeta a)]> data.

(** [prepare] writes through [a.Secret], which its callers have checked. *)
Definition prepare (a : ApplicationMeta) : ApplicationMeta :=
  match MetaSecret a with
  | Some s => with_Secret a (Some (with_Data s (Some (prepare_data a (default ∅ (Data s))))))
  | None => a
  end.

Definition IsInstalled (a : ApplicationMeta) : bool := bool_decide (ApplicationState a = INSTALLED).
Definition IsUnknown (a : ApplicationMeta) : bool := bool_decide (ApplicationState a = UNKNOWN).
Definition IsInstalling (a : ApplicationMeta) : bool := bool_decide (ApplicationState a = INSTALLING).
Definition IsNotInstall (a : ApplicationMeta) : bool := bool_decide (ApplicationState a = UNINSTALLED).

Definition ProtectedFromReInstall (now : Z) (a : ApplicationMeta) : bool :=
  (now <? UninstallBackOff a)%Z.

Definition IsHelm (a : ApplicationMeta) : bool := IsHelmType (ApplicationType a).

Definition GetApplicationDevMeta (a : ApplicationMeta) : devmeta := default ∅ (DevMeta a).
End meta.
Arguments ApplicationMeta : clear implicits.

(** ** The cluster *)

(** What [Uninstall] asks of the cluster besides secrets. *)
Inductive action :=
  | ExecHook (app ns manifest : gostring)
  | CleanHookManifest (manifest : gostring)
  | CleanAppManifest (manifest : gostring)
  | HelmUninstall (params : list gostring)
  | CleanCustomResource (app ns : gostring)
  | DeleteConfigMap (name : gostring).

(** The API server as the operator sees it, with a state of its own: any call
    may fail.  [api_get] returns a pointer and an error, as the client does,
    which may both be set.  [api_do] carries out an action and tells whether it succeeded;
    [daemon_up] tells whether the local daemon can be reached. *)
Class Api := {
  cluster : Type;
  api_get : gostring -> gostring -> cluster -> option Secret * option metaerr;
  api_update : gostring -> Secret -> cluster -> cluster * res metaerr Secret;
  api_create : gostring -> Secret -> cluster -> cluster * res metaerr Secret;
  api_do : action -> cluster -> cluster * bool;
  api_configmaps : cluster -> option (list gostring);
  daemon_up : cluster -> bool;
  kubeconfig_path : gostring
}.

(** The documented contract for secrets when the server answers: reads return
    what is stored; a write with the stored resource version is stored with a
    new version; one with another version is refused as a conflict. *)
Class ApiLaws `{!Api} := {
  stored : cluster -> gostring -> gostring -> option Secret;
  get_stored : forall ns name w s, stored w ns name = Some s -> api_get ns name w = (Some s, None);
  get_missing : forall ns name w,
    stored w ns name = None -> exists p, api_get ns name w = (p, Some IsNotFound);
  update_stored : forall ns s old w,
    stored w ns (SecretName s) = Some old -> ResourceVersion s = ResourceVersion old ->
    exists w' v, v <> ResourceVersion old /\
      api_update ns s w = (w', Ok (mkSecret (SecretName s) (SecretNamespace s) (SecretKind s) v (Data s))) /\
      stored w' ns (SecretName s) =
        Some (mkSecret (SecretName s) (SecretNamespace s) (SecretKind s) v (Data s));
  update_conflict : forall ns s old w,
    stored w ns (SecretName s) = Some old -> ResourceVersion s <> ResourceVersion old ->
    api_update ns s w = (w, Err Conflict);
  create_stored : forall ns s w,
    stored w ns (SecretName s) = None ->
    exists w' v,
      api_create ns s w = (w', Ok (mkSecret (SecretName s) (SecretNamespace s) (SecretKind s) v (Data s))) /\
      stored w' ns (SecretName s) =
        Some (mkSecret (SecretName s) (SecretNamespace s) (SecretKind s) v (Data s));
  create_exists : forall ns s old w,
    stored w ns (SecretName s) = Some old -> api_create ns s w = (w, Err IsAlreadyExists)
}.

(** The world: the cluster, the secrets sent to the daemon and the actions, in
    order. *)
Record world `{!Api} := mkWorld {
  cl : cluster;
  notices : list Secret;
  trace : list action
}.

Section operations.
Context {C : Type} `{!Xz} `{!MetaYaml C} `{!Api}.
Abbreviation Meta := (ApplicationMeta C).

Definition with_cl (w : world) (c : cluster) : world := mkWorld _ c (notices w) (trace w).

(** One run of the closure [Update] retries. *)
Definition update_once (a : Meta) (w : world) : Meta * world * res metaerr unit :=
  match MetaSecret a with
  | None => (a, w, Err SecretNotFound)
  | Some s =>
      match Data s with
      | None => (a, w, Err SecretDataNil)
      | Some _ =>
          let a := prepare a in
          let s := with_Data s (Some (prepare_data a (default ∅ (Data s)))) in
          match api_update (MetaNs a) s (cl w) with
          | (c, Err e) => (a, with_cl w c, Err (Wrapped e))
          | (c, Ok secret) =>
              let ns := if daemon_up c then notices w ++ [secret] else notices w in
              (with_Secret a (Some secret), mkWorld _ c ns (trace w), Ok tt)
          end
      end
  end.

(** After an error: fetch the secret again, whatever error that gives. *)
Definition refetch (a : Meta) (w : world) : Meta :=
  match api_get (MetaNs a) (SecretNamePrefix ++ Application a) (cl w) with
  | (Some s, _) => with_Secret a (Some s)
  | (None, _) => a
  end.

(** [retry.OnError(backoff, ...)] with [steps] attempts: the last error is
    returned when all of them fail. *)
Fixpoint retry_update (steps : nat) (a : Meta) (w : world) : Meta * world * res metaerr unit :=
  match update_once a w with
  | (a, w, Ok _) => (a, w, Ok tt)
  | (a, w, Err e) =>
      let a := refetch a w in
      match steps with
      | S (S _ as steps) => retry_update steps a w
      | _ => (a, w, Err e)
      end
  end.

(** [retry.DefaultRetry.Steps]. *)
Definition DefaultRetrySteps : nat := 5.

Definition Update (a : Meta) (w : world) : Meta * world * res metaerr unit :=
  retry_update DefaultRetrySteps a w.

(** [uuid]: what [utils.GetShortUuid] returns. *)
Definition GenerateNidINE (uuid : res metaerr gostring) (a : Meta) (w : world)
    : Meta * world * res metaerr unit :=
  if bool_decide (NamespaceId a = []) then
    match uuid with
    | Err e => (a, w, Err e)
    | Ok id => Update (with_NamespaceId a id) w
    end
  else (a, w, Ok tt).

(** ** Creating the secret *)

Definition initialFreshSecret (uuid : res metaerr gostring) (a : Meta) : Meta * res metaerr Secret :=
  let secret := mkSecret (SecretNamePrefix ++ Application a) (MetaNs a) SecretType 0
                  (Some {[SecretStateKey := INSTALLING]}) in
  match uuid with
  | Err e => (a, Err e)
  | Ok id => (with_NamespaceId a id, Ok secret)
  end.

Definition doPreCheckThen (now : Z) (a : Meta) (w : world)
    (howToInitialMeta : bool -> Meta -> world -> Meta * world * res metaerr unit)
    (skipProtectedCheck : bool) : Meta * world * res metaerr unit :=
  match api_get (MetaNs a) (SecretNamePrefix ++ Application a) (cl w) with
  | (_, Some IsNotFound) => howToInitialMeta false a w
  | (_, Some e) => (a, w, Err (Wrapped e))
  | (get, None) =>
      match ReAssignmentBySecret a get with
      | (a, Err e) => (a, w, Err (Wrapped e))
      | (a, Ok _) =>
          if negb skipProtectedCheck && IsNotInstall a && ProtectedFromReInstall now a
          then (a, w, Err ProtectedSecret)
          else howToInitialMeta true a w
      end
  end.

(** Create the secret and read the meta back from what the server returned. *)
Definition create_and_reassign (a : Meta) (secret : Secret) (w : world)
    : Meta * world * res metaerr unit :=
  match api_create (MetaNs a) secret (cl w) with
  | (c, Err IsAlreadyExists) => (a, with_cl w c, Err IsAlreadyExists)
  | (c, Err e) => (a, with_cl w c, Err (Wrapped e))
  | (c, Ok created) =>
      match ReAssignmentBySecret a (Some created) with
      | (a, Ok _) => (a, with_cl w c, Ok tt)
      | (a, Err e) => (a, with_cl w c, Err (Wrapped e))
      end
  end.

Definition Initial (now : Z) (uuid : res metaerr gostring) (force : bool) (a : Meta) (w : world)
    : Meta * world * res metaerr unit :=
  doPreCheckThen now a w
    (fun exists_ a w =>
       if exists_ then Update (with_State a INSTALLING) w
       else match initialFreshSecret uuid a with
            | (a, Err e) => (a, w, Err e)
            | (a, Ok secret) => create_and_reassign a secret w
            end) force.

(** [fn] sets fields of the meta; like the closures the callers pass, it leaves
    the secret, which the meta shares with the local variable, alone. *)
Definition OneTimesInitial (now : Z) (uuid : res metaerr gostring) (fn : Meta -> Meta)
    (force : bool) (a : Meta) (w : world) : Meta * world * res metaerr unit :=
  doPreCheckThen now a w
    (fun exists_ a w =>
       if exists_ then Update (fn (with_State a INSTALLED)) w
       else match initialFreshSecret uuid a with
            | (a, Err e) => (a, w, Err e)
            | (a, Ok secret) =>
                let a := fn (with_Secret (with_State a INSTALLED) (Some secret)) in
                let a := prepare a in
                create_and_reassign a
                  (with_Data secret (Some (prepare_data a (default ∅ (Data secret))))) w
            end) force.

(** ** Dev mode *)

Definition devStartMarkSign (name : gostring) : gostring := name ++ DEV_STARTING_SUFFIX.

Definition HasDevStartingSuffix (name : gostring) : bool := HasSuffix name DEV_STARTING_SUFFIX.

Definition devModeName (name identifier modeType : gostring) : gostring :=
  if negb (IsReplaceDevMode modeType) then name ++ go "-" ++ modeType ++ go "-" ++ identifier
  else name.

(** The maps created on demand, and the resources of a workload type. *)
Definition ensure (a : Meta) (svcType : gostring) : Meta * gmap gostring gostring :=
  let dm := default ∅ (DevMeta a) in
  match dm !! Alias svcType with
  | Some m => (with_DevMeta a (Some dm), m)
  | None => (with_DevMeta a (Some (<[Alias svcType := ∅]> dm)), ∅)
  end.

Definition put (a : Meta) (svcType : gostring) (m : gmap gostring gostring) : Meta :=
  with_DevMeta a (Some (<[Alias svcType := m]> (default ∅ (DevMeta a)))).

Definition SvcDevModePossessor (name svcType identifier modeType : gostring) (a : Meta)
    : Meta * bool :=
  let name := devModeName name identifier modeType in
  let '(a, m) := ensure a svcType in
  (a, bool_decide (at_ m name = identifier) && bool_decide (identifier <> [])).

Definition SvcDevStarting (name svcType identifier modeType : gostring) (a : Meta) (w : world)
    : Meta * world * res metaerr unit :=
  let name := devModeName name identifier modeType in
  let '(a, m) := ensure a svcType in
  match m !! name with
  | Some _ => (a, w, Err ErrAlreadyDev)
  | None =>
      match m !! devStartMarkSign name with
      | Some _ => (a, w, Err ErrAlreadyDev)
      | None => Update (put a svcType (<[devStartMarkSign name := identifier]> m)) w
      end
  end.

Definition SvcDevStartComplete (name svcType identifier modeType : gostring) (a : Meta) (w : world)
    : Meta * world * res metaerr unit :=
  let name := devModeName name identifier modeType in
  let '(a, m) := ensure a svcType in
  match m !! name with
  | Some _ => (a, w, Err ErrAlreadyDev)
  | None => Update (put a svcType (delete (devStartMarkSign name) (<[name := identifier]> m))) w
  end.

Definition SvcDevEnd (name identifier svcType modeType : gostring) (a : Meta) (w : world)
    : Meta * world * res metaerr unit :=
  let name := devModeName name identifier modeType in
  let '(a, m) := ensure a svcType in
  Update (put a svcType (delete name (delete (devStartMarkSign name) m))) w.

Definition CheckIfSvcDeveloping (name identifier svcType modeType : gostring) (a : Meta)
    : Meta * DevStartStatus :=
  let name := devModeName name identifier modeType in
  let '(a, m) := ensure a svcType in
  match m !! name with
  | Some _ => (a, STARTED)
  | None =>
      match m !! devStartMarkSign name with
      | Some _ => (a, STARTING)
      | None => (a, NONE)
      end
  end.

Definition GetCurrentDevModeTypeOfWorkload (workloadName workloadType identifier : gostring) (a : Meta)
    : Meta * gostring :=
  match CheckIfSvcDeveloping workloadName identifier workloadType DuplicateDevMode a with
  | (a, NONE) =>
      match CheckIfSvcDeveloping workloadName identifier workloadType ReplaceDevMode a with
      | (a, NONE) => (a, NoneDevMode)
      | (a, _) => (a, ReplaceDevMode)
      end
  | (a, _) => (a, DuplicateDevMode)
  end.

(** ** Uninstalling *)

(** Ten seconds, in nanoseconds. *)
Definition backoff : Z := 10000000000.

Definition Delete (now : Z) (a : Meta) (w : world) : Meta * world * res metaerr unit :=
  Update (mkMeta (Application a) [] (MetaNs a) [] UNINSTALLED [] [] [] [] [] [] [] []
            (now + backoff) (Some ∅) (Config a) (MetaSecret a) (NamespaceId a)) w.

Definition do_ (act : action) (w : world) : world * bool :=
  let '(c, ok) := api_do act (cl w) in
  (mkWorld _ c (notices w) (trace w ++ [act]), ok).

(** An action whose failure is only logged. *)
Definition should (act : action) (w : world) : world := fst (do_ act w).

Definition cleanUpDepConfigMap (a : Meta) (w : world) : Meta * world * res metaerr unit :=
  let '(a, w, ok) :=
    if bool_decide (DepConfigName a <> []) then
      match do_ (DeleteConfigMap (DepConfigName a)) w with
      | (w, true) => (with_DepConfigName a [], w, true)
      | (w, false) => (a, w, false)
      end
    else (a, w, true) in
  if negb ok then (a, w, Err ConfigMapError)
  else
    match api_configmaps (cl w) with
    | None => (a, w, Err ConfigMapError)
    | Some l =>
        (a, foldl (fun w name =>
                     if HasPrefix name DependenceConfigMapPrefix
                     then should (DeleteConfigMap name) w else w) w l, Ok tt)
    end.

(** The arguments of the helm command. *)
Definition helm_params (a : Meta) : list gostring :=
  [go "uninstall"] ++
  (if bool_decide (HelmReleaseName a <> []) then [HelmReleaseName a] else [Application a]) ++
  (if bool_decide (MetaNs a <> []) then [go "--namespace"; MetaNs a] else []) ++
  (if bool_decide (kubeconfig_path <> []) then [go "--kubeconfig"; kubeconfig_path] else []).

(** A hook runs only when it is not empty. *)
Definition hook (a : Meta) (manifest : gostring) (w : world) : world * bool :=
  if bool_decide (manifest <> []) then do_ (ExecHook (Application a) (MetaNs a) manifest) w
  else (w, true).

Definition Uninstall (now : Z) (force : bool) (a : Meta) (w : world)
    : Meta * world * res metaerr unit :=
  let preDelete := PreDeleteManifest a in
  let postDelete := PostDeleteManifest a in
  match hook a preDelete w with
  | (w, false) => (a, w, Err (Wrapped HookError))
  | (w, true) =>
      let '(a, w, _) := cleanUpDepConfigMap a w in
      let w := should (CleanHookManifest (PreInstallManifest a)) w in
      let w := should (CleanHookManifest (PostInstallManifest a)) w in
      let w := should (CleanHookManifest (PreUpgradeManifest a)) w in
      let w := should (CleanHookManifest (PostUpgradeManifest a)) w in
      let w := should (CleanHookManifest (PreDeleteManifest a)) w in
      let w := should (CleanAppManifest (Manifest a)) w in
      let '(w, ok) := if IsHelm a then do_ (HelmUninstall (helm_params a)) w else (w, true) in
      if negb ok && negb force then (a, w, Err HelmError)
      else
        let w := should (CleanCustomResource (Application a) (MetaNs a)) w in
        match Delete now a w with
        | (a, w, Err e) => (a, w, Err e)
        | (a, w, Ok _) =>
            match hook a postDelete w with
            | (w, false) => (a, w, Err (Wrapped HookError))
            | (w, true) => (a, should (CleanHookManifest (PostDeleteManifest a)) w, Ok tt)
            end
        end
  end.
End operations.

(** ** Describing a workload ([FillingExtField], [Desc]) *)

(** The fields of the service profile that [FillingExtField] reads or fills. *)
Record SvcProfileV2 := {
  ProfileType : gostring;
  ProfileName : gostring;
  DevModeType : gostring;
  ProfileAssociate : gostring;
  Developing : bool;
  DevelopStatus : DevStartStatus;
  Possess : bool
}.

#[export] Instance DevStartStatus_eq_dec : EqDecision DevStartStatus.
Proof. solve_decision. Defined.

(** The directory cache is that of [DevDir]. *)
Definition FillingExtField {C : Type} `{!MapOrder gostring} `{!YamlCodec} (f : faults) (db : levelDB)
    (cache : option DevDirMapping) (s : SvcProfileV2) (meta : ApplicationMeta C)
    (appName ns identifier : gostring)
    : ApplicationMeta C * option DevDirMapping * outcome SvcProfileV2 :=
  let svcType := ProfileType s in
  let '(meta, mode) := GetCurrentDevModeTypeOfWorkload (ProfileName s) svcType identifier meta in
  let '(meta, devStatus) := CheckIfSvcDeveloping (ProfileName s) identifier svcType mode meta in
  let pack := NewSvcPack ns (NamespaceId meta) appName svcType (ProfileName s) [] in
  let '(cache, path) := GetAssociatePathCache f db cache pack in
  match path with
  | Done path =>
      let '(meta, possess) := SvcDevModePossessor (ProfileName s) svcType identifier mode meta in
      (meta, cache,
       Done {| ProfileType := ProfileType s; ProfileName := ProfileName s; DevModeType := mode;
               ProfileAssociate := path; Developing := bool_decide (devStatus <> NONE);
               DevelopStatus := devStatus; Possess := possess |})
  | Panic => (meta, cache, Panic)
  | Fuel => (meta, cache, Fuel)
  end.

Record ApplicationMetaSimple := {
  SimpleApplication : gostring;
  SimpleNs : gostring;
  SimpleApplicationState : gostring;
  SimpleDevMeta : option devmeta;
  SimpleManifest : gostring;
  SimplePreInstallManifest : gostring
}.

Definition Desc {C : Type} (l : list (ApplicationMeta C)) : list ApplicationMetaSimple :=
  foldl (fun result meta =>
    result ++ [{| SimpleApplication := Application meta; SimpleNs := MetaNs meta;
                  SimpleApplicationState := ApplicationState meta; SimpleDevMeta := DevMeta meta;
                  SimpleManifest := Manifest meta;
                  SimplePreInstallManifest := PreInstallManifest meta |}]) [] l.

(** ** Encoding and decoding *)

Section codec_facts.
Context {C : Type} `{!Xz} `{!XzLaws} `{!MetaYaml C} `{!MetaYamlLaws C}.

Lemma decompress_compress x : decompress (compress x) = x.
Proof.
  unfold compress, decompress. destruct (xz_roundtrip x) as (y & -> & Hy & Hr).
  rewrite bool_decide_eq_false_2 by done. simpl. by rewrite Hr.
Qed.

Lemma unmarshal_config c : unmarshalConfigUnStrict (yaml_config (Some c)) = c.
Proof. unfold unmarshalConfigUnStrict. by rewrite unyaml_yaml_config. Qed.

Lemma GetApplicationName_prefix app :
  "/"%char ∉ app -> GetApplicationName (SecretNamePrefix ++ app) = Ok app.
Proof.
  intros Happ. unfold GetApplicationName.
  assert (Index (SecretNamePrefix ++ app) (go "/") = None) as ->.
  { apply (Index_single_None "/"%char). rewrite not_elem_of_app. split; [|done].
    by apply (bool_decide_eq_true_1 _). }
  rewrite HasPrefix_app. simpl negb. cbv iota. by rewrite drop_app_length.
Qed.

(** What is under each key of the data [prepare] leaves. *)
Lemma prepare_data_lookup (a : ApplicationMeta C) data :
  let d := prepare_data a data in
  d !! SecretUninstallBackOffKey = Some (Itoa (UninstallBackOff a)) /\
  d !! SecretPreInstallKey = Some (compress (PreInstallManifest a)) /\
  d !! SecretPreUpgradeKey = Some (compress (PreUpgradeManifest a)) /\
  d !! SecretPreDeleteKey = Some (compress (PreDeleteManifest a)) /\
  d !! SecretPostInstallKey = Some (compress (PostInstallManifest a)) /\
  d !! SecretPostUpgradeKey = Some (compress (PostUpgradeManifest a)) /\
  d !! SecretPostDeleteKey = Some (compress (PostDeleteManifest a)) /\
  d !! SecretNamespaceIdKey = Some (NamespaceId a) /\
  d !! SecretManifestKey = Some (compress (Manifest a)) /\
  d !! SecretConfigKey = Some (compress (yaml_config (Config a))) /\
  d !! SecretStateKey = Some (ApplicationState a) /\
  d !! SecretAppTypeKey = Some (ApplicationType a) /\
  d !! SecretHelmReleaseNameKey = Some (HelmReleaseName a) /\
  d !! SecretDevMetaKey = Some (yaml_devmeta (DevMeta a)).
Proof.
  simpl. unfold prepare_data. cbv zeta.
  repeat split; repeat (rewrite lookup_insert_ne by discriminate); apply lookup_insert_eq.
Qed.
End codec_facts.

(** The meta as it is read back: the dependency config map's name is not, and a
    nil dev meta comes back empty. *)
Definition reread {C : Type} (a : ApplicationMeta C) : ApplicationMeta C :=
  with_DevMeta (with_DepConfigName a []) (Some (default ∅ (DevMeta a))).

Section decode_facts.
Context {C : Type} `{!Xz} `{!XzLaws} `{!MetaYaml C} `{!MetaYamlLaws C}.

(** What the code keeps true of a meta it writes: it has a configuration, one
    of the four states, a back-off in range and a name without a slash. *)
Definition meta_ok (a : ApplicationMeta C) : Prop :=
  is_Some (Config a) /\ ApplicationStateOf (ApplicationState a) = ApplicationState a /\
  in_int64 (UninstallBackOff a) = true /\ "/"%char ∉ Application a.

(** Reading a secret that holds the data of [a] overwrites every field of [b]
    but the dependency config map's name. *)
Lemma ReAssignment_prepared (a b : ApplicationMeta C) (s : Secret) data :
  meta_ok a -> SecretName s = SecretNamePrefix ++ Application a -> SecretNamespace s = MetaNs a ->
  Data s = Some (prepare_data a data) ->
  ReAssignmentBySecret b (Some s) =
    (with_DepConfigName (with_Secret (reread a) (Some s)) (DepConfigName b), Ok tt).
Proof.
  intros ([c Hc] & Hst & Hbo & Happ) Hn Hns Hd. unfold ReAssignmentBySecret.
  rewrite Hn, GetApplicationName_prefix, Hd by done. simpl default.
  destruct (prepare_data_lookup a data) as (H1 & H2 & H3 & H4 & H5 & H6 & H7 & H8 & H9 & Ha & Hb & He & Hf & Hg).
  unfold field, id.
  rewrite H1, H2, H3, H4, H5, H6, H7, H8, H9, Ha, Hb, He, Hf, Hg, !decompress_compress.
  unfold atoi_or_zero. rewrite Atoi_Itoa, Hc, unmarshal_config, Hst, unyaml_yaml_devmeta by done.
  rewrite Hns. destruct a, b; simpl in *. by subst.
Qed.

Lemma Decode_prepared (a : ApplicationMeta C) (s : Secret) data :
  meta_ok a -> SecretName s = SecretNamePrefix ++ Application a -> SecretNamespace s = MetaNs a ->
  Data s = Some (prepare_data a data) ->
  Decode (Some s) = Ok (with_Secret (reread a) (Some s)).
Proof.
  intros Hok Hn Hns Hd. unfold Decode. rewrite (ReAssignment_prepared a zeroMeta s data) by done.
  by destruct a.
Qed.
End decode_facts.

(** ** The update loop *)

Section update_facts.
Context {C : Type} `{!Xz} `{!MetaYaml C} `{!Api}.
Implicit Types (a : ApplicationMeta C) (w : world).

Lemma with_Secret_twice a x y : with_Secret (with_Secret a x) y = with_Secret a y.
Proof. by destruct a. Qed.

Lemma with_Secret_self a : with_Secret a (MetaSecret a) = a.
Proof. by destruct a. Qed.

Lemma prepare_data_Secret a x data : prepare_data (with_Secret a x) data = prepare_data a data.
Proof. by destruct a. Qed.

Lemma with_Secret_prepare a y : with_Secret (prepare a) y = with_Secret a y.
Proof. unfold prepare. destruct (MetaSecret a); [apply with_Secret_twice|done]. Qed.

Lemma prepare_data_prepare a data : prepare_data (prepare a) data = prepare_data a data.
Proof. unfold prepare. destruct (MetaSecret a); [apply prepare_data_Secret|done]. Qed.

Lemma frame_trans a b c :
  b = with_Secret a (MetaSecret b) -> c = with_Secret b (MetaSecret c) ->
  c = with_Secret a (MetaSecret c).
Proof.
  intros Hb Hc. transitivity (with_Secret b (MetaSecret c)); [done|].
  rewrite Hb. apply with_Secret_twice.
Qed.

(** An update, however it ends, changes nothing of the meta but its secret. *)
Lemma update_once_frame a w a' w' r :
  update_once a w = (a', w', r) -> a' = with_Secret a (MetaSecret a').
Proof.
  unfold update_once. intros Hu. go_cases; rewrite ?with_Secret_self, ?with_Secret_prepare; try done.
  - by destruct a.
  - by rewrite <- (with_Secret_prepare a (MetaSecret (prepare a))), with_Secret_self.
Qed.

Lemma refetch_frame a w : refetch a w = with_Secret a (MetaSecret (refetch a w)).
Proof. unfold refetch. destruct (api_get _ _ _) as [[s|] ?]; by destruct a. Qed.

Lemma retry_frame n a w a' w' r :
  retry_update n a w = (a', w', r) -> a' = with_Secret a (MetaSecret a').
Proof.
  revert a w. induction n as [|n IH]; intros a w; simpl;
    destruct (update_once a w) as [[a1 w1] [[]|e]] eqn:E1;
    apply update_once_frame in E1; intros Hr.
  1, 3: by simplify_eq.
  - simplify_eq. by eapply frame_trans, refetch_frame.
  - assert (a' = with_Secret (refetch a1 w1) (MetaSecret a')) as Ha'.
    { destruct n; [simplify_eq; by rewrite with_Secret_self|by eapply IH]. }
    eapply frame_trans; [|exact Ha']. by eapply frame_trans, refetch_frame.
Qed.

Lemma Update_frame a w a' w' r :
  Update a w = (a', w', r) -> a' = with_Secret a (MetaSecret a').
Proof. apply retry_frame. Qed.

Lemma Update_DevMeta a w a' w' r : Update a w = (a', w', r) -> DevMeta a' = DevMeta a.
Proof. intros Hu. apply Update_frame in Hu. rewrite Hu. by destruct a. Qed.

(** The secret of [a] in the cluster, and that [a]'s own copy, if any, is a
    copy of the same secret. *)
Definition secret_key a : gostring := SecretNamePrefix ++ Application a.

Definition own_secret a : Prop :=
  forall s, MetaSecret a = Some s -> SecretName s = secret_key a /\ SecretNamespace s = MetaNs a.
End update_facts.

Section update_wins.
Context {C : Type} `{!Xz} `{!MetaYaml C} `{!Api} `{!ApiLaws}.
Implicit Types (a : ApplicationMeta C) (w : world).

(** The secret the cluster stores after [a] was written. *)
Definition holds (w : world) a (sec : Secret) : Prop :=
  stored (cl w) (MetaNs a) (secret_key a) = Some sec /\
  SecretName sec = secret_key a /\ SecretNamespace sec = MetaNs a /\
  exists data, Data sec = Some (prepare_data a data).

Lemma update_once_fresh a w s old :
  MetaSecret a = Some s -> is_Some (Data s) ->
  SecretName s = secret_key a -> SecretNamespace s = MetaNs a ->
  stored (cl w) (MetaNs a) (secret_key a) = Some old -> ResourceVersion s = ResourceVersion old ->
  exists w' sec, update_once a w = (with_Secret a (Some sec), w', Ok tt) /\ holds w' a sec /\
    trace w' = trace w /\
    notices w' = (if daemon_up (cl w') then notices w ++ [sec] else notices w).
Proof.
  intros Hs [d Hd] Hn Hns Hst Hv. unfold update_once. rewrite Hs, Hd. simpl default.
  rewrite prepare_data_prepare.
  assert (MetaNs (prepare a) = MetaNs a) as ->.
  { unfold prepare. rewrite Hs. by destruct a. }
  set (s' := with_Data s (Some (prepare_data a d))).
  destruct (update_stored (MetaNs a) s' old (cl w)) as (c' & v & _ & -> & Hst'); [by simpl; rewrite Hn|done|].
  eexists _, _. rewrite with_Secret_prepare. split; [done|].
  split; [|done]. split; [|split; [done|split; [done|by exists d]]].
  simpl in *. rewrite Hn in Hst' |- *. exact Hst'.
Qed.

(** Whatever version of the secret [a] was read from, [Update] succeeds and the
    cluster then holds the fields of [a], over anything written in between. *)
Lemma Update_wins a w old :
  own_secret a ->
  stored (cl w) (MetaNs a) (secret_key a) = Some old -> is_Some (Data old) ->
  SecretName old = secret_key a -> SecretNamespace old = MetaNs a ->
  exists w' sec, Update a w = (with_Secret a (Some sec), w', Ok tt) /\ holds w' a sec /\
    trace w' = trace w /\
    notices w' = (if daemon_up (cl w') then notices w ++ [sec] else notices w).
Proof.
  intros Hown Hst Hdo Hn Hns.
  assert (forall n a1 w1 e, update_once a w = (a1, w1, Err e) -> cl w1 = cl w ->
    notices w1 = notices w -> trace w1 = trace w ->
    exists w' sec, retry_update (S (S n)) a w = (with_Secret a (Some sec), w', Ok tt) /\ holds w' a sec /\
      trace w' = trace w /\
      notices w' = (if daemon_up (cl w') then notices w ++ [sec] else notices w)) as Hretry.
  { intros n a1 w1 e Hx1 Hcl Hno Htr. simpl retry_update. rewrite Hx1. apply update_once_frame in Hx1.
    assert (refetch a1 w1 = with_Secret a (Some old)) as ->.
    { unfold refetch. rewrite Hx1, Hcl.
      replace (MetaNs _) with (MetaNs a) by (by destruct a).
      replace (Application _) with (Application a) by (by destruct a).
      fold (secret_key a). rewrite (get_stored _ _ _ _ Hst). apply with_Secret_twice. }
    assert (secret_key (with_Secret a (Some old)) = secret_key a /\
            MetaNs (with_Secret a (Some old)) = MetaNs a) as [Hk' Hns'] by (by destruct a).
    destruct (update_once_fresh (with_Secret a (Some old)) w1 old old) as (w' & sec & Hx2 & Hx3 & Hx4 & Hx5);
      rewrite ?Hk', ?Hns', ?Hcl; try done; [by destruct a|].
    rewrite with_Secret_twice in Hx2. rewrite Hx2. exists w', sec.
    rewrite <- Htr, <- Hno. split; [done|]. split; [|done].
    unfold holds in *. rewrite Hk', Hns' in Hx3. setoid_rewrite prepare_data_Secret in Hx3. done. }
  unfold Update, DefaultRetrySteps.
  destruct (MetaSecret a) as [s|] eqn:Hs.
  2:{ eapply (Hretry _ a w SecretNotFound); [|done..]. unfold update_once. by rewrite Hs. }
  destruct (Hown s Hs) as [Hsn Hsns].
  destruct (Data s) as [d|] eqn:Hd.
  2:{ eapply (Hretry _ a w SecretDataNil); [|done..]. unfold update_once. by rewrite Hs, Hd. }
  destruct (decide (ResourceVersion s = ResourceVersion old)) as [Hv|Hv].
  - destruct (update_once_fresh a w s old) as (w' & sec & Hx1 & Hx2); try done.
    exists w', sec. split; [|done]. simpl. by rewrite Hx1.
  - eapply (Hretry _ (prepare a) (with_cl w (cl w)) (Wrapped Conflict)); try done.
    unfold update_once. rewrite Hs, Hd.
    replace (MetaNs (prepare a)) with (MetaNs a) by (unfold prepare; rewrite Hs; by destruct a).
    rewrite (update_conflict _ _ old); [done|by simpl; rewrite Hsn|done].
Qed.
End update_wins.

(** ** Concrete libraries and a concrete cluster, to run the model on *)

Definition demo_xz : Xz := {| xz_write := fun x => Some ("x"%char :: x); xz_read := fun y => Some (tail y) |}.

Lemma demo_xz_laws : XzLaws (H := demo_xz).
Proof. constructor. intros x. by exists ("x"%char :: x). Qed.

(** Configurations are strings here. *)
Definition demo_meta_yaml : MetaYaml gostring :=
  {| config_zero := []; config_migrated := go "migrated";
     yaml_config := default []; unyaml_config := fun s _ => (s, true);
     yaml_devmeta := fun d => to_text (default ∅ d); unyaml_devmeta := of_text |}.

Lemma demo_meta_yaml_laws : MetaYamlLaws gostring (MetaYaml0 := demo_meta_yaml).
Proof. constructor; [done|]. intros d. apply of_to_text. Qed.

(** Secrets by namespace and name; a write checks the version and increments it. *)
Definition bump (s : Secret) (v : Z) : Secret :=
  mkSecret (SecretName s) (SecretNamespace s) (SecretKind s) v (Data s).

Definition demo_api : Api :=
  {| cluster := gmap (gostring * gostring) Secret;
     api_get := fun ns name w =>
       match w !! (ns, name) with
       | Some s => (Some s, None)
       | None => (Some (mkSecret [] [] [] 0 None), Some IsNotFound)
       end;
     api_update := fun ns s w =>
       match w !! (ns, SecretName s) with
       | None => (w, Err IsNotFound)
       | Some old =>
           if bool_decide (ResourceVersion s = ResourceVersion old) then
             let s' := bump s (ResourceVersion old + 1) in (<[(ns, SecretName s) := s']> w, Ok s')
           else (w, Err Conflict)
       end;
     api_create := fun ns s w =>
       match w !! (ns, SecretName s) with
       | Some _ => (w, Err IsAlreadyExists)
       | None => let s' := bump s 1 in (<[(ns, SecretName s) := s']> w, Ok s')
       end;
     api_do := fun _ w => (w, true);
     api_configmaps := fun _ => Some [];
     daemon_up := fun _ => true;
     kubeconfig_path := go "/kube" |}.

Lemma demo_api_laws : ApiLaws (H := demo_api).
Proof.
  refine {| stored := fun (w : @cluster demo_api) ns name => (w : gmap (gostring * gostring) Secret) !! (ns, name) |};
    simpl.
  - by intros ns name w s ->.
  - intros ns name w ->. by eexists.
  - intros ns s old w -> Hv. rewrite bool_decide_eq_true_2 by done.
    eexists _, _. split; [|split; [done|apply lookup_insert_eq]]. lia.
  - intros ns s old w -> Hv. by rewrite bool_decide_eq_false_2.
  - intros ns s w ->. eexists _, _. split; [done|]. apply lookup_insert_eq.
  - by intros ns s old w ->.
Defined.
