(* ===== verification/DevMode.v ===== *)
(** * The dev-mode state machine of [application_meta.go]

    [SvcDevStarting], [SvcDevStartComplete] and [SvcDevEnd] move a workload
    between three states that the dev meta encodes in its keys: the workload's
    name when it is in dev mode, the name with a suffix while it is starting.
    Here that encoding is shown to implement the three-state machine, for every
    sequence of calls and every behaviour of the API server. *)

From S2P Require Import Prelude GoStrings FilePath DevDir AppMeta.
#[local] Open Scope go_scope.

(** ** The abstract machine *)

Inductive dev_cmd := Starting | Complete | End_.

(** The next state, or [None] when the call is refused. *)
Definition spec (c : dev_cmd) (s : DevStartStatus) : option DevStartStatus :=
  match c, s with
  | Starting, NONE => Some STARTING
  | Starting, _ => None
  | Complete, STARTED => None
  | Complete, _ => Some STARTED
  | End_, _ => Some NONE
  end.

(** The state of resource [n] of type [t] that the dev meta encodes. *)
Definition status (d : devmeta) (t n : gostring) : DevStartStatus :=
  match d !! t ≫= fun m => m !! n with
  | Some _ => STARTED
  | None =>
      match d !! t ≫= fun m => m !! devStartMarkSign n with
      | Some _ => STARTING
      | None => NONE
      end
  end.

(** A call and the resource it is about. *)
Record dev_call := {
  cmd : dev_cmd;
  call_name : gostring;
  call_type : gostring;
  call_id : gostring;
  call_mode : gostring
}.

Definition target (c : dev_call) : gostring * gostring :=
  (Alias (call_type c), devModeName (call_name c) (call_id c) (call_mode c)).

(** Kubernetes names, identifiers and modes hold no [>]. *)
Definition plain (n : gostring) : Prop := ">"%char ∉ n.

(** No resource is both in dev mode and starting. *)
Definition dev_inv (d : devmeta) : Prop :=
  forall t m n, d !! t = Some m -> plain n -> is_Some (m !! n) -> m !! devStartMarkSign n = None.

Section machine.
Context {C : Type} `{!Xz} `{!MetaYaml C} `{!Api}.
Implicit Types (a : ApplicationMeta C) (w : world).

Definition exec (c : dev_call) (a : ApplicationMeta C) (w : world)
    : ApplicationMeta C * world * res metaerr unit :=
  match cmd c with
  | Starting => SvcDevStarting (call_name c) (call_type c) (call_id c) (call_mode c) a w
  | Complete => SvcDevStartComplete (call_name c) (call_type c) (call_id c) (call_mode c) a w
  | End_ => SvcDevEnd (call_name c) (call_id c) (call_type c) (call_mode c) a w
  end.

Fixpoint exec_all (l : list dev_call) (a : ApplicationMeta C) (w : world)
    : ApplicationMeta C * world :=
  match l with
  | [] => (a, w)
  | c :: l => let '(a, w, _) := exec c a w in exec_all l a w
  end.

(** ** Marks *)

Lemma mark_plain n n' : plain n' -> devStartMarkSign n <> n'.
Proof.
  unfold plain, devStartMarkSign. intros Hp <-. apply Hp. apply elem_of_app. right.
  by apply (bool_decide_eq_true_1 _).
Qed.

Lemma mark_inj n n' : devStartMarkSign n = devStartMarkSign n' -> n = n'.
Proof. apply (inj (fun x => x ++ DEV_STARTING_SUFFIX)). Qed.

Lemma mark_ne n : devStartMarkSign n <> n.
Proof.
  intros E. apply (f_equal length) in E. unfold devStartMarkSign in E. rewrite length_app in E.
  simpl in E. lia.
Qed.

(** ** The dev meta after the maps were created on demand, and after a write *)

Lemma ensure_spec a t a' m :
  ensure a t = (a', m) ->
  m = default ∅ (GetApplicationDevMeta a !! Alias t) /\
  a' = with_DevMeta a (Some (<[Alias t := m]> (GetApplicationDevMeta a))).
Proof.
  unfold ensure, GetApplicationDevMeta. intros E. destruct (default ∅ (DevMeta a) !! Alias t) eqn:Ht;
    simplify_eq/=; split; try done.
  by rewrite insert_id.
Qed.

Lemma status_ensure d t m t' n :
  m = default ∅ (d !! t) -> status (<[t := m]> d) t' n = status d t' n.
Proof.
  intros ->. unfold status. rewrite lookup_insert. case_decide as E; [|done]. subst t'.
  destruct (d !! t); simpl; [done|]. by rewrite !lookup_empty.
Qed.

Lemma dev_inv_insert d t m :
  dev_inv d -> (forall n, plain n -> is_Some (m !! n) -> m !! devStartMarkSign n = None) ->
  dev_inv (<[t := m]> d).
Proof.
  intros Hd Hm t' m' n. rewrite lookup_insert. case_decide; [|apply Hd].
  intros [= <-]. apply Hm.
Qed.

Lemma dev_inv_get d t n :
  dev_inv d -> plain n -> is_Some (default ∅ (d !! t) !! n) ->
  default ∅ (d !! t) !! devStartMarkSign n = None.
Proof.
  intros Hd Hn Hs. destruct (d !! t) as [m|] eqn:E; simpl in *; [by eapply Hd|apply lookup_empty].
Qed.

(** The states in [d] with the resources of type [t] replaced by [m]. *)
Lemma status_write d t m t' n :
  status (<[t := m]> d) t' n =
  if bool_decide (t' = t) then
    match m !! n with
    | Some _ => STARTED
    | None => match m !! devStartMarkSign n with Some _ => STARTING | None => NONE end
    end
  else status d t' n.
Proof.
  unfold status. case_bool_decide as E.
  - subst. by rewrite lookup_insert_eq.
  - by rewrite lookup_insert_ne.
Qed.

Lemma status_get d t n :
  status d t n =
  let m := default ∅ (d !! t) in
  match m !! n with
  | Some _ => STARTED
  | None => match m !! devStartMarkSign n with Some _ => STARTING | None => NONE end
  end.
Proof. unfold status. destruct (d !! t); simpl; [done|]. by rewrite !lookup_empty. Qed.

(** An update reports errors of its own only. *)
Lemma Update_not_already a w a' w' : Update a w <> (a', w', Err ErrAlreadyDev).
Proof.
  unfold Update. generalize DefaultRetrySteps as n. intros n. revert a w.
  assert (forall a w a' w', update_once a w <> (a', w', Err ErrAlreadyDev)) as Honce.
  { intros a w a1 w1. unfold update_once. repeat case_match; congruence. }
  induction n as [|n IH]; intros a w; simpl;
    destruct (update_once a w) as [[a1 w1] [[]|e]] eqn:E1; try congruence.
  - intros [= _ _ ->]. by eapply Honce.
  - destruct n; [intros [= _ _ ->]; by eapply Honce|apply IH].
Qed.

(** What an accepted call does to the resources of its type. *)
Definition write (c : dev_cmd) (id n : gostring) (m : gmap gostring gostring)
    : gmap gostring gostring :=
  match c with
  | Starting => <[devStartMarkSign n := id]> m
  | Complete => delete (devStartMarkSign n) (<[n := id]> m)
  | End_ => delete n (delete (devStartMarkSign n) m)
  end.

Lemma Update_put a t m w a' w' r d :
  Update (put (with_DevMeta a (Some d)) t m) w = (a', w', r) ->
  r <> Err ErrAlreadyDev /\ GetApplicationDevMeta a' = <[Alias t := m]> d.
Proof.
  intros Hu. split; [intros ->; by eapply Update_not_already|].
  unfold GetApplicationDevMeta. rewrite (Update_DevMeta _ _ _ _ _ Hu). by destruct a.
Qed.

Lemma exec_writes c a w a' w' r :
  exec c a w = (a', w', r) ->
  let d := GetApplicationDevMeta a in
  let t := Alias (call_type c) in
  let n := devModeName (call_name c) (call_id c) (call_mode c) in
  let m := default ∅ (d !! t) in
  match spec (cmd c) (status d t n) with
  | None => r = Err ErrAlreadyDev /\ GetApplicationDevMeta a' = <[t := m]> d
  | Some _ => r <> Err ErrAlreadyDev /\
      GetApplicationDevMeta a' = <[t := write (cmd c) (call_id c) n m]> d
  end.
Proof.
  intros He. simpl. rewrite status_get. simpl.
  unfold exec, SvcDevStarting, SvcDevStartComplete, SvcDevEnd in He.
  destruct (cmd c); simpl;
    destruct (ensure a (call_type c)) as [a0 m0] eqn:Ea;
    apply ensure_spec in Ea as [Hm0 Ha0]; rewrite <- Hm0; subst a0.
  - repeat case_match; simplify_eq; try (by destruct a).
    apply Update_put in He as [Hr Hd]. by rewrite Hd, insert_insert_eq.
  - repeat case_match; simplify_eq; try (by destruct a);
      apply Update_put in He as [Hr Hd]; by rewrite Hd, insert_insert_eq.
  - repeat case_match; apply Update_put in He as [Hr Hd]; by rewrite Hd, insert_insert_eq.
Qed.

(** The written map: the call's resource is in the state of the machine, the
    others are as they were, and the two encodings stay exclusive. *)
Lemma write_status c id n m n' :
  plain n -> plain n' ->
  let st m := match m !! n' with
              | Some _ => STARTED
              | None => match m !! devStartMarkSign n' with Some _ => STARTING | None => NONE end
              end in
  spec c (match m !! n with
          | Some _ => STARTED
          | None => match m !! devStartMarkSign n with Some _ => STARTING | None => NONE end
          end) <> None ->
  (if bool_decide (n' = n) then Some (st (write c id n m)) = spec c (st m)
   else st (write c id n m) = st m).
Proof.
  intros Hn Hn'. simpl. pose proof (mark_plain n n' Hn') as H1. pose proof (mark_plain n' n Hn) as H2.
  case_bool_decide as E.
  - subst n'. destruct c; simpl; rewrite ?lookup_delete, ?lookup_insert; repeat case_decide;
      repeat case_match; simplify_eq; try done; by rewrite ?lookup_delete_eq in *.
  - assert (devStartMarkSign n' <> devStartMarkSign n) as H3 by (by intros ?%mark_inj).
    intros _. destruct c; simpl;
      rewrite ?lookup_delete_ne, ?lookup_insert_ne, ?lookup_delete_ne, ?lookup_insert_ne by done; done.
Qed.

Lemma write_inv c id n m :
  plain n -> (forall n', plain n' -> is_Some (m !! n') -> m !! devStartMarkSign n' = None) ->
  spec c (match m !! n with
          | Some _ => STARTED
          | None => match m !! devStartMarkSign n with Some _ => STARTING | None => NONE end
          end) <> None ->
  forall n', plain n' -> is_Some (write c id n m !! n') -> write c id n m !! devStartMarkSign n' = None.
Proof.
  intros Hn Hm Hs n' Hn'. pose proof (mark_plain n n' Hn') as H1. pose proof (mark_plain n' n Hn) as H2.
  destruct (decide (n' = n)) as [->|Hne].
  - destruct c; simpl; rewrite ?lookup_delete, ?lookup_insert; repeat case_decide; try done;
      destruct (m !! n); simpl in *; try done; by intros [].
  - assert (devStartMarkSign n' <> devStartMarkSign n) as H3 by (by intros ?%mark_inj).
    destruct c; simpl;
      rewrite ?lookup_delete_ne, ?lookup_insert_ne, ?lookup_delete_ne, ?lookup_insert_ne by done; auto.
Qed.

(** One call, in terms of the abstract machine. *)
Lemma exec_refines c a w a' w' r :
  plain (snd (target c)) -> dev_inv (GetApplicationDevMeta a) -> exec c a w = (a', w', r) ->
  dev_inv (GetApplicationDevMeta a') /\
  (forall t n, plain n ->
     status (GetApplicationDevMeta a') t n =
     if bool_decide ((t, n) = target c)
     then default (status (GetApplicationDevMeta a) t n)
            (spec (cmd c) (status (GetApplicationDevMeta a) t n))
     else status (GetApplicationDevMeta a) t n) /\
  (r = Err ErrAlreadyDev <-> spec (cmd c) (uncurry (status (GetApplicationDevMeta a)) (target c)) = None).
Proof.
  intros Hpl Hinv He. apply exec_writes in He. simpl in He, Hpl. unfold target; simpl.
  set (d := GetApplicationDevMeta a) in *. set (t0 := Alias (call_type c)) in *.
  set (n0 := devModeName _ _ _) in *.
  destruct (spec (cmd c) (status d t0 n0)) as [s|] eqn:Hsp; destruct He as [Hr ->].
  - rewrite status_get in Hsp. simpl in Hsp. split; [|split; [|done]].
    + apply dev_inv_insert; [done|]. apply write_inv; [done| |congruence].
      intros n' Hn'. by apply dev_inv_get.
    + intros t n Hn. rewrite status_write.
      pose proof (write_status (cmd c) (call_id c) n0 (default ∅ (d !! t0)) n Hpl Hn) as Hw.
      simpl in Hw. specialize (Hw ltac:(congruence)).
      destruct (bool_decide_reflect (t = t0)) as [->|Ht].
      * rewrite (status_get d). simpl. destruct (bool_decide_reflect (n = n0)) as [->|Hn0].
        -- rewrite bool_decide_eq_true_2 by done. by rewrite <- Hw.
        -- rewrite bool_decide_eq_false_2 by congruence. done.
      * rewrite bool_decide_eq_false_2 by congruence. done.
  - split; [|split; [|done]].
    + apply dev_inv_insert; [done|]. intros n Hn. by apply dev_inv_get.
    + intros t n Hn. rewrite status_ensure by done. case_bool_decide as E; [|done].
      injection E as -> ->. by rewrite Hsp.
Qed.

(** The state of a resource after a sequence of calls, by the machine alone. *)
Definition spec_run (l : list dev_call) (t n : gostring) (s : DevStartStatus) : DevStartStatus :=
  foldl (fun s c => if bool_decide ((t, n) = target c) then default s (spec (cmd c) s) else s) s l.
End machine.

(** ** Theorems *)

Section theorems.
Context {C : Type} `{!Xz} `{!MetaYaml C} `{!Api}.
Implicit Types (a : ApplicationMeta C) (w : world).

(** C1: for every sequence of dev-start, start-complete and dev-end calls, and
    whatever the API server answers, the state the dev meta encodes of each
    workload is the one the three-state machine reaches on that workload's own
    calls, and no workload is ever both starting and started. *)
Theorem dev_mode_refines l a w a' w' :
  Forall (fun c => plain (snd (target c))) l -> dev_inv (GetApplicationDevMeta a) ->
  exec_all l a w = (a', w') ->
  dev_inv (GetApplicationDevMeta a') /\
  forall t n, plain n ->
    status (GetApplicationDevMeta a') t n = spec_run l t n (status (GetApplicationDevMeta a) t n).
Proof.
  revert a w. induction l as [|c l IH]; intros a w Hpl Hinv; simpl.
  - by intros [= <- <-].
  - destruct (exec c a w) as [[a1 w1] r1] eqn:E1. inversion_clear Hpl. intros Hrest.
    apply exec_refines in E1 as (Hinv1 & Hst1 & _); [|done..].
    destruct (IH _ _ ltac:(done) Hinv1 Hrest) as [Hinv' Hst']. split; [done|].
    intros t n Hn. by rewrite Hst', Hst1.
Qed.

(** a dev-mode call is refused with [ErrAlreadyDev] exactly when the machine
    refuses it: a start unless the workload is idle, a completion when it is
    already in dev mode, an end never; and a refused call changes no state. *)
Theorem dev_mode_refused_iff c a w a' w' r :
  plain (snd (target c)) -> dev_inv (GetApplicationDevMeta a) -> exec c a w = (a', w', r) ->
  (r = Err ErrAlreadyDev <->
   spec (cmd c) (uncurry (status (GetApplicationDevMeta a)) (target c)) = None) /\
  (r = Err ErrAlreadyDev -> forall t n, plain n ->
     status (GetApplicationDevMeta a') t n = status (GetApplicationDevMeta a) t n).
Proof.
  intros Hpl Hinv He. destruct (exec_refines _ _ _ _ _ _ Hpl Hinv He) as (_ & Hst & Hr).
  split; [done|]. intros Hr1 t n Hn. rewrite Hst by done. apply Hr in Hr1.
  case_bool_decide as E; [|done]. rewrite <- E in Hr1. simpl in Hr1. by rewrite Hr1.
Qed.

(** when recording a dev start fails because the secret cannot be updated,
    the meta in memory is marked as starting all the same, and starting the
    workload again with that meta is refused as already in dev mode. *)
Theorem failed_start_sticks name svcType identifier modeType a w a' w' e :
  SvcDevStarting name svcType identifier modeType a w = (a', w', Err e) -> e <> ErrAlreadyDev ->
  snd (CheckIfSvcDeveloping name identifier svcType modeType a') = STARTING /\
  forall w2, snd (SvcDevStarting name svcType identifier modeType a' w2) = Err ErrAlreadyDev.
Proof.
  intros Hs He.
  pose (c := {| cmd := Starting; call_name := name; call_type := svcType; call_id := identifier;
                call_mode := modeType |}).
  assert (exec c a w = (a', w', Err e)) as Hx by exact Hs. apply exec_writes in Hx. simpl in Hx.
  set (d := GetApplicationDevMeta a) in *. set (n := devModeName name identifier modeType) in *.
  rewrite status_get in Hx. simpl in Hx. set (m := default ∅ (d !! Alias svcType)) in *.
  destruct (m !! n) eqn:Hn; simpl in Hx; [destruct Hx as [[=] _]; congruence|].
  destruct (m !! devStartMarkSign n) eqn:Hm; simpl in Hx; [destruct Hx as [[=] _]; congruence|].
  destruct Hx as [_ Hd].
  assert (exists a0, ensure a' svcType = (a0, <[devStartMarkSign n:=identifier]> m)) as [a0 Ha0].
  { destruct (ensure a' svcType) as [a0 m0] eqn:E. apply ensure_spec in E as [-> _].
    rewrite Hd, lookup_insert_eq. by exists a0. }
  pose proof (mark_ne n) as Hne.
  unfold CheckIfSvcDeveloping, SvcDevStarting. fold n. rewrite Ha0.
  split; [|intros w2]; by rewrite lookup_insert_ne, Hn, lookup_insert_eq.
Qed.

(** once a dev start in replace mode completes, the workload is possessed by
    the developer whose identifier it was started with, and by no other. *)
Theorem possessor_unique name svcType identifier a w a' w' r other :
  SvcDevStartComplete name svcType identifier ReplaceDevMode a w = (a', w', r) ->
  r <> Err ErrAlreadyDev -> identifier <> [] ->
  snd (SvcDevModePossessor name svcType other ReplaceDevMode a') = bool_decide (other = identifier).
Proof.
  intros Hs Hr Hid.
  pose (c := {| cmd := Complete; call_name := name; call_type := svcType; call_id := identifier;
                call_mode := ReplaceDevMode |}).
  assert (exec c a w = (a', w', r)) as Hx by exact Hs. apply exec_writes in Hx. simpl in Hx.
  change (devModeName name identifier ReplaceDevMode) with name in Hx.
  set (d' := <[Alias svcType := delete _ _]> _) in Hx.
  assert (GetApplicationDevMeta a' = d') as Hd by (by destruct (status _ _ _), Hx).
  unfold SvcDevModePossessor. change (devModeName name other ReplaceDevMode) with name.
  destruct (ensure a' svcType) as [a0 m0] eqn:E. apply ensure_spec in E as [-> _]. simpl.
  rewrite Hd. unfold d'. rewrite lookup_insert_eq. simpl. unfold at_. rewrite lookup_delete_ne, lookup_insert_eq.
  - simpl. repeat case_bool_decide; naive_solver.
  - apply mark_ne.
Qed.
End theorems.

(** ** Witnesses *)

#[local] Existing Instances demo_xz demo_meta_yaml demo_api.

Definition idle_meta : ApplicationMeta gostring := FakeAppMeta (go "ns") (go "bookinfo").
Definition empty_world : world := mkWorld _ (∅ : gmap (gostring * gostring) Secret) [] [].

Definition demo_call (c : dev_cmd) (n : string) : dev_call :=
  {| cmd := c; call_name := go n; call_type := Deployment; call_id := go "alice";
     call_mode := ReplaceDevMode |}.

Lemma dev_inv_idle : dev_inv (GetApplicationDevMeta idle_meta).
Proof. intros t m n E. change ((∅ : devmeta) !! t = Some m) in E. by rewrite lookup_empty in E. Qed.

Lemma dev_mode_refines_witness :
  status (GetApplicationDevMeta (fst (exec_all
    [demo_call Starting "reviews"; demo_call Complete "reviews"; demo_call Starting "details"]
    idle_meta empty_world))) DEPLOYMENT (go "reviews") = STARTED.
Proof.
  destruct (exec_all _ _ _) as [a w] eqn:E.
  eapply (dev_mode_refines _ idle_meta empty_world) in E as [_ Hst].
  - rewrite Hst; [vm_compute; reflexivity|apply (bool_decide_eq_true_1 _); vm_compute; reflexivity].
  - repeat constructor; apply (bool_decide_eq_true_1 _); vm_compute; reflexivity.
  - apply dev_inv_idle.
Defined.

Lemma dev_mode_refused_iff_witness :
  snd (exec (demo_call Starting "reviews") idle_meta empty_world) <> Err ErrAlreadyDev.
Proof.
  destruct (exec _ _ _) as [[a w] r] eqn:E.
  eapply (dev_mode_refused_iff _ idle_meta empty_world) in E as [Hr _].
  - simpl. intros Hx. apply Hr in Hx. vm_compute in Hx. discriminate.
  - apply (bool_decide_eq_true_1 _); vm_compute; reflexivity.
  - apply dev_inv_idle.
Defined.

Lemma failed_start_sticks_witness :
  snd (CheckIfSvcDeveloping (go "reviews") (go "alice") Deployment ReplaceDevMode
         (fst (fst (SvcDevStarting (go "reviews") Deployment (go "alice") ReplaceDevMode idle_meta empty_world))))
    = STARTING.
Proof.
  assert (snd (SvcDevStarting (go "reviews") Deployment (go "alice") ReplaceDevMode idle_meta empty_world)
          = Err SecretDataNil) as Hr by (vm_compute; reflexivity).
  destruct (SvcDevStarting _ _ _ _ _ _) as [[a w] r] eqn:E. cbn [fst snd] in *. subst r.
  apply (failed_start_sticks _ _ _ _ _ _ _ _ _ E). discriminate.
Defined.

Lemma possessor_unique_witness :
  snd (SvcDevModePossessor (go "reviews") Deployment (go "bob") ReplaceDevMode
         (fst (fst (SvcDevStartComplete (go "reviews") Deployment (go "alice") ReplaceDevMode idle_meta empty_world))))
    = bool_decide (go "bob" = go "alice").
Proof.
  assert (snd (SvcDevStartComplete (go "reviews") Deployment (go "alice") ReplaceDevMode idle_meta empty_world)
          = Err SecretDataNil) as Hr by (vm_compute; reflexivity).
  destruct (SvcDevStartComplete _ _ _ _ _ _) as [[a w] r] eqn:E. cbn [fst snd] in *. subst r.
  apply (possessor_unique _ _ _ _ _ _ _ _ _ E); discriminate.
Defined.
