(* ===== verification/AppMetaThms.v ===== *)
(** * Theorems on the application meta

    The secret as a store: what [prepare] writes [Decode] reads back; what
    [Update] leaves in the cluster when others write the same secret; creating,
    deleting and re-creating an application; the uninstall sequence. *)

From S2P Require Import Prelude GoStrings FilePath DevDir AppMeta DevMode.
#[local] Open Scope go_scope.

Section store.
Context {C : Type} `{!Xz} `{!XzLaws} `{!MetaYaml C} `{!MetaYamlLaws C} `{!Api} `{!ApiLaws}.
Implicit Types (a b : ApplicationMeta C) (w : world).

Lemma holds_Decode w a sec :
  meta_ok a -> holds w a sec -> Decode (Some sec) = Ok (with_Secret (reread a) (Some sec)).
Proof. intros Hok (Hst & Hn & Hns & data & Hd). by eapply Decode_prepared. Qed.

(** A secret of the application in the cluster, whatever its data. *)
Definition in_cluster (w : world) a (old : Secret) : Prop :=
  stored (cl w) (MetaNs a) (secret_key a) = Some old /\ is_Some (Data old) /\
  SecretName old = secret_key a /\ SecretNamespace old = MetaNs a.

Lemma Update_in_cluster a w old :
  own_secret a -> in_cluster w a old ->
  exists w' sec, Update a w = (with_Secret a (Some sec), w', Ok tt) /\ holds w' a sec /\
    trace w' = trace w /\
    notices w' = (if daemon_up (cl w') then notices w ++ [sec] else notices w).
Proof. intros Hown (Hst & Hd & Hn & Hns). by eapply Update_wins. Qed.

Lemma own_secret_DevMeta a d : own_secret a -> own_secret (with_DevMeta a d).
Proof. by destruct a. Qed.

Lemma meta_ok_DevMeta a d : meta_ok a -> meta_ok (with_DevMeta a d).
Proof. by destruct a. Qed.

Lemma in_cluster_DevMeta w a old d : in_cluster w a old -> in_cluster w (with_DevMeta a d) old.
Proof. by destruct a. Qed.

(** An accepted dev-mode call is an update of the dev meta. *)
Lemma exec_accepted c a w :
  let d := GetApplicationDevMeta a in
  let t := Alias (call_type c) in
  let n := devModeName (call_name c) (call_id c) (call_mode c) in
  spec (cmd c) (status d t n) <> None ->
  exec c a w =
    Update (with_DevMeta a (Some (<[t := write (cmd c) (call_id c) n (default ∅ (d !! t))]> d))) w.
Proof.
  simpl. rewrite status_get. simpl. intros Hs.
  unfold exec, SvcDevStarting, SvcDevStartComplete, SvcDevEnd.
  destruct (ensure a (call_type c)) as [a0 m0] eqn:Ea; apply ensure_spec in Ea as [Hm0 ->].
  rewrite <- Hm0 in *.
  destruct (cmd c); simpl in *; repeat case_match; try done; unfold put;
    f_equal; destruct a; simpl; by rewrite insert_insert_eq.
Qed.

(** Initialising an application whose secret holds the meta [a]. *)
Lemma Initial_existing now uuid force a b w sec :
  meta_ok a -> holds w a sec -> MetaNs b = MetaNs a -> Application b = Application a ->
  if negb force && IsNotInstall a && ProtectedFromReInstall now a
  then snd (Initial now uuid force b w) = Err ProtectedSecret
  else exists b' w', Initial now uuid force b w = (b', w', Ok tt) /\ ApplicationState b' = INSTALLING.
Proof.
  intros Hok Hh Hns Happ. destruct Hh as (Hst & Hn & Hsns & data & Hd).
  assert (secret_key b = secret_key a) as Hk by (unfold secret_key; by rewrite Happ).
  unfold Initial, doPreCheckThen. fold (secret_key b). rewrite Hk, Hns, (get_stored _ _ _ _ Hst).
  rewrite (ReAssignment_prepared a b sec data) by done.
  set (b1 := with_DepConfigName (with_Secret (reread a) (Some sec)) (DepConfigName b)).
  assert (IsNotInstall b1 = IsNotInstall a) as -> by (by destruct a).
  assert (ProtectedFromReInstall now b1 = ProtectedFromReInstall now a) as -> by (by destruct a).
  destruct (negb force && IsNotInstall a && ProtectedFromReInstall now a); [done|].
  set (b2 := with_State b1 INSTALLING).
  assert (MetaNs b2 = MetaNs a /\ secret_key b2 = secret_key a /\ MetaSecret b2 = Some sec)
    as (Hns2 & Hk2 & Hs2) by (by destruct a).
  destruct (Update_in_cluster b2 w sec) as (w' & sec' & -> & _).
  - intros s Hs. rewrite Hs2 in Hs. injection Hs as <-. by rewrite Hk2, Hns2.
  - unfold in_cluster. rewrite Hk2, Hns2, Hd. by repeat split.
  - eexists _, _. split; [done|]. by destruct a.
Qed.

(** The meta [Delete] writes. *)
Definition deleted (now : Z) a : ApplicationMeta C :=
  mkMeta (Application a) [] (MetaNs a) [] UNINSTALLED [] [] [] [] [] [] [] []
    (now + backoff) (Some ∅) (Config a) (MetaSecret a) (NamespaceId a).

Lemma deleted_ok now a : meta_ok a -> in_int64 (now + backoff) = true -> meta_ok (deleted now a).
Proof. by intros (Hc & _ & _ & Ha) Hb. Qed.
End store.

(** ** Theorems *)

Section theorems.
Context {C : Type} `{!Xz} `{!XzLaws} `{!MetaYaml C} `{!MetaYamlLaws C} `{!Api} `{!ApiLaws}.
Implicit Types (a b : ApplicationMeta C) (w : world).

(** C3: decoding the secret [prepare] filled gives every field of the meta back,
    except the name of the dependency config map, which is written and never
    read, and a nil dev meta, which comes back empty. *)
Theorem meta_roundtrip a s :
  meta_ok a -> MetaSecret a = Some s ->
  SecretName s = secret_key a -> SecretNamespace s = MetaNs a ->
  exists s', MetaSecret (prepare a) = Some s' /\
    Decode (Some s') = Ok (with_Secret (reread a) (Some s')).
Proof.
  intros Hok Hs Hn Hns. eexists. split.
  - unfold prepare. rewrite Hs. by destruct a.
  - by eapply Decode_prepared.
Qed.

(** C2: [Update] succeeds whatever version of the secret the meta was read from,
    also when another client has written it since: the secret then in the
    cluster decodes to this meta, it is the one the meta keeps, and it is the
    one the daemon is told of. *)
Theorem update_stores_meta a w old :
  meta_ok a -> own_secret a -> in_cluster w a old ->
  exists w' sec, Update a w = (with_Secret a (Some sec), w', Ok tt) /\
    stored (cl w') (MetaNs a) (secret_key a) = Some sec /\
    Decode (Some sec) = Ok (with_Secret (reread a) (Some sec)) /\
    (daemon_up (cl w') = true -> last (notices w') = Some sec).
Proof.
  intros Hok Hown Hin. destruct (Update_in_cluster a w old Hown Hin) as (w' & sec & Hu & Hh & _ & Hno).
  exists w', sec. split; [done|]. split; [by destruct Hh|]. split; [by eapply holds_Decode|].
  intros Hd. rewrite Hno, Hd. apply last_snoc.
Qed.

(** a dev-mode call made with a meta that was read before another developer
    entered dev mode erases that developer's entry: the retry fetches the newer
    secret but writes the older dev meta over it, and reports success. *)
Theorem concurrent_start_lost c a w old tA nA :
  meta_ok a -> own_secret a -> in_cluster w a old -> dev_inv (GetApplicationDevMeta a) ->
  plain (snd (target c)) -> plain nA -> (tA, nA) <> target c ->
  status (GetApplicationDevMeta a) tA nA = NONE ->
  spec (cmd c) (uncurry (status (GetApplicationDevMeta a)) (target c)) <> None ->
  exists a' w' sec b, exec c a w = (a', w', Ok tt) /\
    stored (cl w') (MetaNs a) (secret_key a) = Some sec /\ Decode (Some sec) = Ok b /\
    status (GetApplicationDevMeta b) tA nA = NONE.
Proof.
  intros Hok Hown Hin Hinv Hpl HnA Hne HA Hs.
  pose proof (exec_accepted c a w Hs) as Hx. simpl in Hx.
  set (a1 := with_DevMeta a _) in Hx.
  destruct (Update_in_cluster a1 w old) as (w' & sec & Hu & Hh & _);
    [by apply own_secret_DevMeta|by apply in_cluster_DevMeta|].
  eexists _, w', sec, _. rewrite Hx, Hu. split; [done|]. split; [|split].
  - destruct Hh as [Hst _]. by destruct a.
  - eapply holds_Decode; [by apply meta_ok_DevMeta|done].
  - destruct (exec_refines c a w _ _ _ Hpl Hinv (eq_trans Hx Hu)) as (_ & Hst & _).
    specialize (Hst tA nA HnA). rewrite bool_decide_eq_false_2, HA in Hst by done.
    rewrite <- Hst. by destruct a.
Qed.

(** deleting an application marks it uninstalled, and for ten seconds only a
    forced initialisation of the same application is accepted; after that, or
    with force, it is accepted and the application is installing. *)
Theorem reinstall_protected now a w old :
  meta_ok a -> own_secret a -> in_cluster w a old -> in_int64 (now + backoff) = true ->
  exists a1 w1, Delete now a w = (a1, w1, Ok tt) /\ ApplicationState a1 = UNINSTALLED /\
    forall b now' uuid force, MetaNs b = MetaNs a -> Application b = Application a ->
      if negb force && (now' <? now + backoff)%Z
      then snd (Initial now' uuid force b w1) = Err ProtectedSecret
      else exists b' w', Initial now' uuid force b w1 = (b', w', Ok tt) /\
             ApplicationState b' = INSTALLING.
Proof.
  intros Hok Hown Hin Hb.
  destruct (Update_in_cluster (deleted now a) w old Hown Hin) as (w1 & sec & Hu & Hh & _).
  eexists _, w1. split; [exact Hu|]. split; [done|]. intros b now' uuid force Hns Happ.
  pose proof (Initial_existing now' uuid force (deleted now a) b w1 sec) as HI.
  replace (negb force && (now' <? now + backoff)%Z)
    with (negb force && IsNotInstall (deleted now a) && ProtectedFromReInstall now' (deleted now a)).
  - by apply HI; [apply deleted_ok|..].
  - by rewrite andb_true_r.
Qed.

(** [Initial] does not stop at an application that is installed or being
    installed: without force it is accepted and the stored application goes
    back to installing. *)
Theorem initial_restarts_installed now uuid a b w sec :
  meta_ok a -> holds w a sec -> ApplicationState a <> UNINSTALLED ->
  MetaNs b = MetaNs a -> Application b = Application a ->
  exists b' w', Initial now uuid false b w = (b', w', Ok tt) /\ ApplicationState b' = INSTALLING.
Proof.
  intros Hok Hh Hst Hns Happ.
  pose proof (Initial_existing now uuid false a b w sec Hok Hh Hns Happ) as HI.
  unfold IsNotInstall in HI. by rewrite bool_decide_eq_false_2 in HI.
Qed.

(** initialising an application the cluster does not have creates its secret
    in state installing; the namespace id generated for it stays in memory and
    is not in the secret another process decodes. *)
Theorem initial_fresh now id force a w :
  stored (cl w) (MetaNs a) (secret_key a) = None -> "/"%char ∉ Application a ->
  exists a' w' sec b, Initial now (Ok id) force a w = (a', w', Ok tt) /\
    ApplicationState a' = INSTALLING /\ NamespaceId a' = id /\
    stored (cl w') (MetaNs a) (secret_key a) = Some sec /\
    Decode (Some sec) = Ok b /\ ApplicationState b = INSTALLING /\ NamespaceId b = [].
Proof.
  intros Hst Happ. destruct (get_missing _ _ _ Hst) as [p Hg].
  unfold Initial, doPreCheckThen. fold (secret_key a). rewrite Hg. simpl.
  unfold create_and_reassign. set (fresh := mkSecret _ _ _ _ _).
  replace (MetaNs (with_NamespaceId a id)) with (MetaNs a) by (by destruct a).
  destruct (create_stored (MetaNs a) fresh (cl w)) as (c' & v & -> & Hst'); [done|].
  set (sec := mkSecret (SecretName fresh) _ _ v _) in *.
  assert (forall b, exists b', ReAssignmentBySecret b (Some sec) = (b', Ok tt) /\
    ApplicationState b' = INSTALLING /\ NamespaceId b' = NamespaceId b) as Hre.
  { intros b. unfold ReAssignmentBySecret. replace (SecretName sec) with (SecretNamePrefix ++ Application a)
      by (by destruct a). rewrite GetApplicationName_prefix by done.
    unfold field. simpl default.
    replace (_ !! SecretStateKey) with (Some INSTALLING) by done.
    eexists. split; [done|]. split; [done|]. by destruct b. }
  destruct (Hre (with_NamespaceId a id)) as (a' & -> & Ha1 & Ha2).
  destruct (Hre zeroMeta) as (b & Hb & Hb1 & Hb2).
  eexists a', _, sec, b. split; [done|]. split; [done|].
  split; [by rewrite Ha2; destruct a|]. split; [done|].
  unfold Decode. by rewrite Hb.
Qed.
End theorems.

Section uninstall.
Context {C : Type} `{!Xz} `{!MetaYaml C} `{!Api}.
Implicit Types (a b : ApplicationMeta C) (w : world).

Lemma Update_trace a w a' w' r : Update a w = (a', w', r) -> trace w' = trace w.
Proof.
  unfold Update. generalize DefaultRetrySteps as n. intros n. revert a w.
  assert (forall a w a' w' r, update_once a w = (a', w', r) -> trace w' = trace w) as Honce.
  { intros b v b' v' r'. unfold update_once. intros. repeat case_match; by simplify_eq/=. }
  induction n as [|n IH]; intros a w; simpl;
    destruct (update_once a w) as [[a1 w1] [[]|e]] eqn:E1; apply Honce in E1; intros Hr.
  1, 2, 3: by simplify_eq.
  destruct n; [by simplify_eq|]. by rewrite (IH _ _ Hr).
Qed.

Lemma cleanUp_frame a w a' w' r :
  cleanUpDepConfigMap a w = (a', w', r) ->
  Application a' = Application a /\ MetaNs a' = MetaNs a.
Proof.
  unfold cleanUpDepConfigMap. intros. repeat case_match; simplify_eq/=; done || by destruct a.
Qed.

(** a successful uninstall leaves an uninstalled meta with no dev mode, no
    manifests and a ten-second back-off; its last two actions are the
    post-delete hook and a clean-up of the empty manifest, so that what the
    hook created stays in the cluster. *)
Theorem uninstall_result now force a w a' w' :
  Uninstall now force a w = (a', w', Ok tt) -> PostDeleteManifest a <> [] ->
  ApplicationState a' = UNINSTALLED /\ DevMeta a' = Some ∅ /\ Manifest a' = [] /\
  UninstallBackOff a' = (now + backoff)%Z /\
  exists t, trace w' = t ++ [ExecHook (Application a) (MetaNs a) (PostDeleteManifest a);
                             CleanHookManifest []].
Proof.
  unfold Uninstall. intros Hu Hpost.
  destruct (hook a (PreDeleteManifest a) w) as [w0 []]; [|done].
  destruct (cleanUpDepConfigMap a w0) as [[a1 w1] r1] eqn:Hc.
  apply cleanUp_frame in Hc as [Happ Hns].
  destruct (if IsHelm a1 then _ else _) as [w2 ok] in Hu.
  destruct (negb ok && negb force); [done|].
  destruct (Delete now a1 _) as [[a2 w3] [[]|e]] eqn:Hd; [|done].
  unfold Delete in Hd. apply Update_frame in Hd.
  assert (ApplicationState a2 = UNINSTALLED /\ DevMeta a2 = Some ∅ /\ Manifest a2 = [] /\
    UninstallBackOff a2 = (now + backoff)%Z /\ PostDeleteManifest a2 = [] /\
    Application a2 = Application a /\ MetaNs a2 = MetaNs a)
    as (Hf1 & Hf2 & Hf3 & Hf4 & Hf5 & Hf6 & Hf7).
  { rewrite Hd; simpl. by rewrite Happ, Hns. }
  unfold hook in Hu. rewrite bool_decide_eq_true_2 in Hu by done.
  unfold do_ in Hu. destruct (api_do _ _) as [c1 []]; [|done].
  unfold should, do_ in Hu. rewrite Hf5, Hf6, Hf7 in Hu.
  destruct (api_do _ _) as [c2 ?]; simplify_eq/=. repeat split; try done.
  eexists. by rewrite <- app_assoc.
Qed.
End uninstall.

(** ** Witnesses *)

#[local] Existing Instances demo_xz demo_xz_laws demo_meta_yaml demo_meta_yaml_laws demo_api demo_api_laws.

(** An installed application read at version 1 of its secret, which the cluster
    has at version 7. *)
Definition app_key : gostring := SecretNamePrefix ++ go "bookinfo".

Definition read_secret : Secret :=
  mkSecret app_key (go "ns") SecretType 1 (Some {[SecretStateKey := INSTALLED]}).

Definition demo_app : ApplicationMeta gostring :=
  with_Secret (FakeAppMeta (go "ns") (go "bookinfo")) (Some read_secret).

Definition world_of (s : Secret) : world :=
  mkWorld _ ({[(go "ns", app_key) := s]} : gmap (gostring * gostring) Secret) [] [].

Definition stale_world : world := world_of (bump read_secret 7).

Lemma demo_app_ok : meta_ok demo_app.
Proof.
  split; [by eexists|]. split; [done|]. split; [done|].
  apply (bool_decide_eq_true_1 _). vm_compute. reflexivity.
Qed.

Lemma demo_app_own : own_secret demo_app.
Proof. by intros s [= <-]. Qed.

Lemma demo_in_cluster : in_cluster stale_world demo_app (bump read_secret 7).
Proof. split; [apply lookup_singleton_eq|]. split; [by eexists|]. done. Qed.

Lemma demo_dev_inv : dev_inv (GetApplicationDevMeta demo_app).
Proof. intros t m n E. change ((∅ : devmeta) !! t = Some m) in E. by rewrite lookup_empty in E. Qed.

Lemma meta_roundtrip_witness :
  exists s', MetaSecret (prepare demo_app) = Some s' /\
    Decode (Some s') = Ok (with_Secret (reread demo_app) (Some s')).
Proof.
  apply (meta_roundtrip demo_app read_secret).
  - apply demo_app_ok.
  - reflexivity.
  - reflexivity.
  - reflexivity.
Defined.

Lemma update_stores_meta_witness :
  exists w' sec, Update demo_app stale_world = (with_Secret demo_app (Some sec), w', Ok tt) /\
    stored (cl w') (MetaNs demo_app) (secret_key demo_app) = Some sec /\
    Decode (Some sec) = Ok (with_Secret (reread demo_app) (Some sec)) /\
    (daemon_up (cl w') = true -> last (notices w') = Some sec).
Proof.
  apply (update_stores_meta demo_app stale_world (bump read_secret 7)).
  - apply demo_app_ok.
  - apply demo_app_own.
  - apply demo_in_cluster.
Defined.

(** The same application after alice entered dev mode on [reviews]. *)
Definition alice_app : ApplicationMeta gostring :=
  with_DevMeta demo_app (Some {[DEPLOYMENT := {[go "reviews" := go "alice"]}]}).

Definition alice_secret : Secret :=
  mkSecret app_key (go "ns") SecretType 7 (Some (prepare_data alice_app ∅)).

Lemma concurrent_start_lost_witness :
  (exists b0, Decode (Some alice_secret) = Ok b0 /\
     status (GetApplicationDevMeta b0) DEPLOYMENT (go "reviews") = STARTED) /\
  exists a' w' sec b, exec (demo_call Starting "details") demo_app (world_of alice_secret) = (a', w', Ok tt) /\
    stored (cl w') (MetaNs demo_app) (secret_key demo_app) = Some sec /\ Decode (Some sec) = Ok b /\
    status (GetApplicationDevMeta b) DEPLOYMENT (go "reviews") = NONE.
Proof.
  split.
  { eexists. split; [apply (Decode_prepared alice_app alice_secret ∅); try reflexivity|].
    - apply meta_ok_DevMeta, demo_app_ok.
    - vm_compute. reflexivity. }
  apply (concurrent_start_lost (demo_call Starting "details") demo_app (world_of alice_secret) alice_secret).
  - apply demo_app_ok.
  - apply demo_app_own.
  - split; [apply lookup_singleton_eq|]. split; [by eexists|]. split; reflexivity.
  - apply demo_dev_inv.
  - apply (bool_decide_eq_true_1 _). vm_compute. reflexivity.
  - apply (bool_decide_eq_true_1 _). vm_compute. reflexivity.
  - discriminate.
  - vm_compute. reflexivity.
  - vm_compute. discriminate.
Defined.

Lemma reinstall_protected_witness :
  exists a1 w1, Delete 5 demo_app stale_world = (a1, w1, Ok tt) /\
    snd (Initial 6 (Ok (go "id")) false demo_app w1) = Err ProtectedSecret.
Proof.
  destruct (reinstall_protected 5 demo_app stale_world (bump read_secret 7)) as (a1 & w1 & Hd & _ & Hi).
  - apply demo_app_ok.
  - apply demo_app_own.
  - apply demo_in_cluster.
  - vm_compute. reflexivity.
  - exists a1, w1. split; [exact Hd|]. apply (Hi demo_app 6%Z (Ok (go "id")) false); reflexivity.
Defined.

(** The cluster holds exactly what [demo_app] prepares. *)
Definition prepared_secret : Secret :=
  mkSecret app_key (go "ns") SecretType 3 (Some (prepare_data demo_app ∅)).

Lemma initial_restarts_installed_witness :
  exists b' w', Initial 0 (Ok (go "id")) false (FakeAppMeta (go "ns") (go "bookinfo"))
                  (world_of prepared_secret) = (b', w', Ok tt) /\ ApplicationState b' = INSTALLING.
Proof.
  apply (initial_restarts_installed 0 (Ok (go "id")) demo_app (FakeAppMeta (go "ns") (go "bookinfo"))
           (world_of prepared_secret) prepared_secret).
  - apply demo_app_ok.
  - split; [apply lookup_singleton_eq|]. split; [reflexivity|]. split; [reflexivity|]. by exists ∅.
  - discriminate.
  - reflexivity.
  - reflexivity.
Defined.

Lemma initial_fresh_witness :
  exists a' w' sec b, Initial 0 (Ok (go "id")) false demo_app empty_world = (a', w', Ok tt) /\
    ApplicationState a' = INSTALLING /\ NamespaceId a' = go "id" /\
    stored (cl w') (MetaNs demo_app) (secret_key demo_app) = Some sec /\
    Decode (Some sec) = Ok b /\ ApplicationState b = INSTALLING /\ NamespaceId b = [].
Proof.
  apply (initial_fresh 0 (go "id") false demo_app empty_world).
  - apply lookup_empty.
  - apply (bool_decide_eq_true_1 _). vm_compute. reflexivity.
Defined.

Definition hooked_app : ApplicationMeta gostring :=
  mkMeta (go "bookinfo") [] (go "ns") AppType.HelmRepo INSTALLED [] [] [] [] [] [] (go "hook")
    (go "manifest") 0 None (Some []) (Some read_secret) [].

Lemma uninstall_result_witness :
  exists a' w', Uninstall 5 false hooked_app (world_of read_secret) = (a', w', Ok tt) /\
    exists t, trace w' = t ++ [ExecHook (go "bookinfo") (go "ns") (go "hook"); CleanHookManifest []].
Proof.
  assert (snd (Uninstall 5 false hooked_app (world_of read_secret)) = Ok tt) as Hr
    by (vm_compute; reflexivity).
  destruct (Uninstall _ _ _ _) as [[a w] r] eqn:E. cbn [fst snd] in *. subst r.
  exists a, w. split; [reflexivity|].
  apply (uninstall_result _ _ _ _ _ _ E). discriminate.
Defined.
