(* ===== verification/AppMetaEvents.v ===== *)
(** * Dev-mode events and the application watcher
    ([appmeta/application_dev_meta.go], [appmeta_manager])

    The daemon keeps the metas of a namespace's applications up to date from the
    secrets it watches.  Each time a meta is replaced the difference of the old
    and the new dev meta is turned into events, which are queued for listeners.
    Here are the difference, the watcher's deck, the queue with its condition
    variable as a step relation, and the functions of the supervisor that read
    and write a deck. *)

From S2P Require Import Prelude GoStrings FilePath DevDir AppMeta.
#[local] Open Scope go_scope.

(** ** The difference of two dev metas *)

Inductive EVENT := DEV_STA | DEV_END.

#[export] Instance EVENT_eq_dec : EqDecision EVENT.
Proof. solve_decision. Defined.

Record ApplicationEvent := mkEvent {
  EventType : EVENT;
  ResourceName : gostring;
  Identifier : gostring;
  DevType : gostring
}.

#[export] Instance ApplicationEvent_eq_dec : EqDecision ApplicationEvent.
Proof. solve_decision. Defined.

(** [encoding/json] on dev metas: map keys are sorted, so equal maps give equal
    texts, and different maps different ones. *)
Class JsonDevMeta := {
  json_devmeta : devmeta -> gostring;
  json_devmeta_inj : forall m1 m2, json_devmeta m1 = json_devmeta m2 -> m1 = m2
}.

Section events.
Context `{!MapOrder gostring} `{!JsonDevMeta}.

(** The inner loop's body: [tom] is the inner map of [to] at [devType], nil when
    absent. *)
Definition events_step (devType : gostring)
    (st : list ApplicationEvent * option (gmap gostring gostring)) (kv : gostring * gostring)
    : list ApplicationEvent * option (gmap gostring gostring) :=
  let '(result, tom) := st in
  let '(resourceName, identifier) := kv in
  match tom with
  | None => (result ++ [mkEvent DEV_END resourceName identifier devType], None)
  | Some m =>
      let result :=
        match m !! resourceName with
        | Some toIdentifier =>
            if bool_decide (identifier <> toIdentifier) then
              (result ++ [mkEvent DEV_END resourceName identifier devType])
                ++ [mkEvent DEV_STA resourceName toIdentifier devType]
            else result
        | None => result ++ [mkEvent DEV_END resourceName identifier devType]
        end in
      (result, Some (delete resourceName m))
  end.

(** The outer loop's body: the deletions are made in the copy of [to]. *)
Definition events_outer (st : list ApplicationEvent * devmeta)
    (kv : gostring * gmap gostring gostring) : list ApplicationEvent * devmeta :=
  let '(result, to) := st in
  let '(devType, fromMap) := kv in
  let '(result, tom) := foldl (events_step devType) (result, to !! devType) (range fromMap) in
  (result, match tom with Some m => <[devType := m]> to | None => to end).

Definition Events (from to : devmeta) : list ApplicationEvent :=
  if bool_decide (json_devmeta to = json_devmeta from) then []
  else
    let '(result, to) := foldl events_outer ([], to) (range from) in
    foldl (fun result '(devType, m) =>
             foldl (fun result '(resourceName, identifier) =>
                      result ++ [mkEvent DEV_STA resourceName identifier devType])
               result (range m))
      result (range to).

(** ** What the events of one resource are *)

Definition look (d : devmeta) (t n : gostring) : option gostring := d !! t ≫= fun m => m !! n.

Definition about (t n : gostring) (e : ApplicationEvent) : Prop := DevType e = t /\ ResourceName e = n.

#[local] Instance about_dec t n e : Decision (about t n e).
Proof. unfold about. apply _. Defined.

(** The events of a resource whose developer was [before] and is [after]. *)
Definition diff (t n : gostring) (before after : option gostring) : list ApplicationEvent :=
  match before, after with
  | Some i, Some j => if bool_decide (i = j) then [] else [mkEvent DEV_END n i t; mkEvent DEV_STA n j t]
  | Some i, None => [mkEvent DEV_END n i t]
  | None, Some j => [mkEvent DEV_STA n j t]
  | None, None => []
  end.

#[local] Arguments diff : simpl never.

(** *** The inner loop *)

Definition remove_all (l : list gostring) (m : gmap gostring gostring) : gmap gostring gostring :=
  foldl (fun m n => delete n m) m l.

Lemma remove_all_lookup l m n :
  remove_all l m !! n = if bool_decide (n ∈ l) then None else m !! n.
Proof.
  revert m. induction l as [|x l IH]; intros m; simpl; [done|]. rewrite IH, lookup_delete.
  destruct (decide (x = n)); repeat case_bool_decide; try done; set_solver.
Qed.

Lemma inner_loop t l result tom :
  NoDup l.*1 ->
  foldl (events_step t) (result, tom) l =
    (result ++ (l ≫= fun '(n, i) =>
                  match tom with
                  | None => [mkEvent DEV_END n i t]
                  | Some m => diff t n (Some i) (m !! n)
                  end),
     remove_all l.*1 <$> tom).
Proof.
  revert result tom. induction l as [|[n i] l IH]; intros result tom Hnd; simpl.
  { rewrite app_nil_r. by destruct tom. }
  apply NoDup_cons in Hnd as [Hn Hnd]. destruct tom as [m|]; simpl.
  - rewrite IH by done. simpl. f_equal.
    assert ((l ≫= fun '(n0, i0) => diff t n0 (Some i0) (delete n m !! n0)) =
            (l ≫= fun '(n0, i0) => diff t n0 (Some i0) (m !! n0))) as Hl.
    { apply Forall_bind_ext, Forall_forall. intros [n0 i0] Hin. rewrite lookup_delete_ne; [done|].
      intros <-. apply Hn, list_elem_of_fmap. by exists (n, i0). }
    rewrite Hl. unfold diff at 2. destruct (m !! n); simpl; [|by rewrite <- app_assoc].
    repeat case_bool_decide; try done; by rewrite <- ?app_assoc.
  - rewrite IH by done. simpl. by rewrite <- app_assoc.
Qed.

(** *** The outer loop *)

(** The names of type [t] the loop has deleted. *)
Definition seen (l : list (gostring * gmap gostring gostring)) (t : gostring) : list gostring :=
  l ≫= fun '(t', m) => if decide (t' = t) then (range m).*1 else [].

Definition removed (l : list (gostring * gmap gostring gostring)) (to : devmeta) (t : gostring)
    : option (gmap gostring gostring) :=
  remove_all (seen l t) <$> to !! t.

Lemma seen_none l t : t ∉ l.*1 -> seen l t = [].
Proof.
  induction l as [|[t' m] l IH]; [done|]. simpl. intros [Hne Hn]%not_elem_of_cons.
  unfold seen. simpl. rewrite decide_False by done. by apply IH.
Qed.

Lemma inner_loop_diff t m result to :
  foldl (events_step t) (result, to !! t) (range m) =
    (result ++ (range m ≫= fun '(n, i) => diff t n (Some i) (look to t n)),
     remove_all (range m).*1 <$> to !! t).
Proof.
  rewrite inner_loop by apply NoDup_range_fst. do 2 f_equal.
  apply list_bind_ext; [|done]. intros [n i]. unfold look. by destruct (to !! t).
Qed.

Lemma outer_loop l result to :
  NoDup l.*1 ->
  exists to', foldl events_outer (result, to) l =
    (result ++ (l ≫= fun '(t, m) => range m ≫= fun '(n, i) => diff t n (Some i) (look to t n)), to')
    /\ forall t, to' !! t = removed l to t.
Proof.
  revert result to. induction l as [|[t m] l IH]; intros result to Hnd.
  { exists to. simpl. rewrite app_nil_r. split; [done|]. intros t. unfold removed. by destruct (to !! t). }
  simpl in Hnd. apply NoDup_cons in Hnd as [Ht Hnd]. cbn [foldl]. unfold events_outer at 2.
  rewrite inner_loop_diff.
  set (to1 := match remove_all _ <$> to !! t with Some m => <[t:=m]> to | None => to end).
  assert (forall t', to1 !! t' = if decide (t = t') then remove_all (range m).*1 <$> to !! t else to !! t')
    as Hto1.
  { intros t'. unfold to1. destruct (to !! t) eqn:E; simpl; [by rewrite lookup_insert|].
    case_decide; congruence. }
  destruct (IH (result ++ (range m ≫= fun '(n, i) => diff t n (Some i) (look to t n))) to1 Hnd)
    as (to' & -> & Hto').
  exists to'. split.
  - f_equal. rewrite <- app_assoc, bind_cons. do 2 f_equal. apply Forall_bind_ext, Forall_forall.
    intros [t' m'] Hin. assert (t <> t').
    { intros <-. apply Ht, list_elem_of_fmap. by exists (t, m'). }
    apply list_bind_ext; [|done]. intros [n i]. unfold look. by rewrite Hto1, decide_False.
  - intros t'. rewrite Hto'. unfold removed, seen. cbn. rewrite Hto1. case_decide as E.
    + subst t'. fold (seen l t). rewrite seen_none by done. rewrite app_nil_r.
      by destruct (to !! t).
    + done.
Qed.

Lemma seen_range from t n :
  n ∈ seen (range from) t <-> is_Some (look from t n).
Proof.
  unfold seen. rewrite (bind_range_one from t (fun m => (range m).*1)). unfold look.
  destruct (from !! t) as [m|]; simpl; [|split; [set_solver|by intros []]].
  rewrite list_elem_of_fmap. split.
  - intros ([n' i] & -> & Hin). apply elem_of_range in Hin. by eexists.
  - intros [i Hi]. exists (n, i). by rewrite elem_of_range.
Qed.

Lemma last_loop (result : list ApplicationEvent) (to : devmeta) :
  foldl (fun result '(devType, m) =>
           foldl (fun result '(resourceName, identifier) =>
                    result ++ [mkEvent DEV_STA resourceName identifier devType])
             result (range m))
    result (range to) =
  result ++ (range to ≫= fun '(t, m) => range m ≫= fun '(n, i) => [mkEvent DEV_STA n i t]).
Proof.
  rewrite <- foldl_app_bind. apply foldl_ext'. intros r [t m]. rewrite <- foldl_app_bind.
  apply foldl_ext'. by intros r' [n i].
Qed.

(** The events of one resource, out of all of them. *)
Lemma filter_nested (l : devmeta) (g : gostring -> gostring -> gostring -> list ApplicationEvent) t n :
  (forall t' n' i, Forall (about t' n') (g t' n' i)) ->
  filter (about t n) (range l ≫= fun '(t', m) => range m ≫= fun '(n', i) => g t' n' i) =
  from_option (g t n) [] (look l t n).
Proof.
  intros Hg. rewrite filter_bind.
  transitivity (range l ≫= fun '(t', m) =>
    if decide (t' = t) then
      range m ≫= fun '(n', i) => if decide (n' = n) then g t n i else []
    else []).
  - apply list_bind_ext; [|done]. intros [t' m]. rewrite filter_bind.
    assert (forall n' i, filter (about t n) (g t' n' i) =
      if decide (t' = t) then if decide (n' = n) then g t n i else [] else []) as Hone.
    { intros n' i. specialize (Hg t' n' i). rewrite Forall_forall in Hg.
      repeat case_decide; subst.
      - by apply filter_all.
      - apply filter_none. intros e He [_ ?]. destruct (Hg e He); congruence.
      - apply filter_none. intros e He [? _]. destruct (Hg e He); congruence. }
    case_decide as E.
    + apply list_bind_ext; [|done]. intros [n' i]. apply Hone.
    + induction (range m) as [|[n' i] r IH]; [done|]. cbn. rewrite Hone. exact IH.
  - rewrite bind_range_one. unfold look. destruct (l !! t) as [m|]; simpl; [|done].
    by rewrite bind_range_one.
Qed.

Lemma diff_about t n x y : Forall (about t n) (diff t n x y).
Proof. unfold diff. repeat case_match; repeat constructor. Qed.

Lemma diff_same t n x : diff t n x x = [].
Proof. unfold diff. destruct x; [by rewrite bool_decide_eq_true_2|done]. Qed.

(** The events of a resource are those of its change of developer. *)
Lemma Events_filter from to t n :
  filter (about t n) (Events from to) = diff t n (look from t n) (look to t n).
Proof.
  unfold Events. case_bool_decide as Hj.
  { apply json_devmeta_inj in Hj as ->. by rewrite diff_same. }
  destruct (outer_loop (range from) [] to (NoDup_range_fst from)) as (to' & -> & Hto').
  rewrite last_loop, filter_app. simpl app.
  rewrite (filter_nested from (fun t n i => diff t n (Some i) (look to t n)))
    by (intros; apply diff_about).
  rewrite (filter_nested to' (fun t n i => [mkEvent DEV_STA n i t]))
    by (intros; by repeat constructor).
  assert (look to' t n = match look from t n with Some _ => None | None => look to t n end) as ->.
  { unfold look at 1 3. rewrite Hto'. unfold removed.
    destruct (to !! t) as [m|]; simpl; [|by destruct (look from t n)].
    rewrite remove_all_lookup. case_bool_decide as Hs; rewrite seen_range in Hs.
    - by destruct (look from t n), Hs.
    - destruct (look from t n); [|done]. by destruct Hs. }
  destruct (look from t n) as [i|]; simpl; [apply app_nil_r|].
  by destruct (look to t n).
Qed.

(** Replaying events on a dev meta: what a listener that keeps track would hold. *)
Definition replay_look (e : list ApplicationEvent) (t n : gostring) (x : option gostring)
    : option gostring :=
  foldl (fun x e => match EventType e with DEV_STA => Some (Identifier e) | DEV_END => None end)
    x (filter (about t n) e).

Lemma replay_app l1 l2 t n x :
  replay_look (l1 ++ l2) t n x = replay_look l2 t n (replay_look l1 t n x).
Proof. unfold replay_look. by rewrite filter_app, foldl_app. Qed.

Lemma replay_Events from to t n : replay_look (Events from to) t n (look from t n) = look to t n.
Proof.
  unfold replay_look. rewrite Events_filter. unfold diff.
  destruct (look from t n), (look to t n); simpl; try done. case_bool_decide; [by subst|done].
Qed.
End events.

(** ** The watcher of a namespace ([application_secret_watcher.go]) *)

Record ApplicationEventPack := mkPack {
  Event : ApplicationEvent;
  PackNs : gostring;
  PackAppName : gostring;
  KubeConfigBytes : gostring
}.

Section watcher.
Context {C : Type} `{!MapOrder gostring} `{!JsonDevMeta} `{!Xz} `{!MetaYaml C}.

Record applicationSecretWatcher := mkWatcher {
  configBytes : gostring;
  asw_ns : gostring;
  applicationMetas : gmap gostring (ApplicationMeta C)
}.

Definition NewApplicationSecretWatcher (config ns : gostring) : applicationSecretWatcher :=
  mkWatcher config ns ∅.

(** The dev meta of the application in the deck; empty when it is not there. *)
Definition deck_dev (asw : applicationSecretWatcher) (appName : gostring) : devmeta :=
  match applicationMetas asw !! appName with
  | Some before => GetApplicationDevMeta before
  | None => ∅
  end.

Definition packs (asw : applicationSecretWatcher) (appName : gostring) (l : list ApplicationEvent)
    : list ApplicationEventPack :=
  map (fun e => mkPack e (asw_ns asw) appName (configBytes asw)) l.

(** [join]; the events go to the queue in order. *)
Definition join (asw : applicationSecretWatcher) (queue : list ApplicationEventPack)
    (secret : option Secret)
    : applicationSecretWatcher * list ApplicationEventPack * res metaerr unit :=
  match Decode secret with
  | Err e => (asw, queue, Err e)
  | Ok current =>
      let appName := Application current in
      let devMetaBefore := deck_dev asw appName in
      let devMetaCurrent := GetApplicationDevMeta current in
      (mkWatcher (configBytes asw) (asw_ns asw) (<[appName := current]> (applicationMetas asw)),
       queue ++ packs asw appName (Events devMetaBefore devMetaCurrent), Ok tt)
  end.

Definition left (asw : applicationSecretWatcher) (queue : list ApplicationEventPack)
    (appName : gostring) : applicationSecretWatcher * list ApplicationEventPack :=
  let devMetaBefore := deck_dev asw appName in
  (mkWatcher (configBytes asw) (asw_ns asw) (delete appName (applicationMetas asw)),
   queue ++ packs asw appName (Events devMetaBefore ∅)).

(** [obj] is [None] when it is not a secret. *)
Definition CreateOrUpdate (asw : applicationSecretWatcher) (queue : list ApplicationEventPack)
    (key : gostring) (obj : option Secret)
    : applicationSecretWatcher * list ApplicationEventPack * res metaerr unit :=
  match obj with
  | Some secret => join asw queue (Some secret)
  | None => (asw, queue, Err OtherApiError)
  end.

Definition Delete (asw : applicationSecretWatcher) (queue : list ApplicationEventPack)
    (key : gostring) : applicationSecretWatcher * list ApplicationEventPack * res metaerr unit :=
  match GetApplicationName key with
  | Err e => (asw, queue, Err e)
  | Ok appName =>
      let '(asw, queue) := left asw queue appName in (asw, queue, Ok tt)
  end.

Definition AllApplicationMetas (asw : applicationSecretWatcher) : list (ApplicationMeta C) :=
  map snd (range (applicationMetas asw)).

Definition OneApplicationMeta (asw : applicationSecretWatcher) (application : gostring)
    : option (ApplicationMeta C) :=
  applicationMetas asw !! application.

(** The first listing in [Prepare]: a secret that cannot be decoded ends it. *)
Fixpoint Prepare_join (asw : applicationSecretWatcher) (queue : list ApplicationEventPack)
    (items : list Secret)
    : applicationSecretWatcher * list ApplicationEventPack * res metaerr unit :=
  match items with
  | [] => (asw, queue, Ok tt)
  | v :: items =>
      match join asw queue (Some v) with
      | (asw, queue, Err e) => (asw, queue, Err e)
      | (asw, queue, Ok _) => Prepare_join asw queue items
      end
  end.

(** [listing] is [None] when the listing failed, which is only logged. *)
Definition Prepare (asw : applicationSecretWatcher) (queue : list ApplicationEventPack)
    (listing : option (list Secret))
    : applicationSecretWatcher * list ApplicationEventPack * res metaerr unit :=
  match listing with
  | None => (asw, queue, Ok tt)
  | Some items => Prepare_join asw queue items
  end.

(** ** The supervisor's functions on a deck ([application_secret_boss.go]) *)

(** The deck's key: the namespace and the state of a hash of the kubeconfig. *)
Definition deck_key (sha : gostring -> gostring) (ns config : gostring) : gostring :=
  ns ++ go "[" ++ sha config ++ go "]".

(** [asw] is [None] when the watcher could not be prepared. *)
Definition UpdateApplicationMetasManually (asw : option applicationSecretWatcher)
    (queue : list ApplicationEventPack) (ns secretName : gostring) (secret : option Secret)
    : option applicationSecretWatcher * list ApplicationEventPack * res metaerr unit :=
  match asw with
  | None => (None, queue, Err OtherApiError)
  | Some asw =>
      let '(asw, queue, r) :=
        match secret with
        | None => Delete asw queue (ns ++ go "/" ++ secretName)
        | Some s => CreateOrUpdate asw queue (ns ++ go "/" ++ secretName) (Some s)
        end in
      (Some asw, queue, r)
  end.

Definition GetApplicationMetas (asw : option applicationSecretWatcher)
    (filter : ApplicationMeta C -> bool) : list (ApplicationMeta C) :=
  match asw with
  | None => []
  | Some asw => List.filter filter (AllApplicationMetas asw)
  end.

(** A meta that stands for an application the deck does not have. *)
Definition placeholder (state ns appName : gostring) : ApplicationMeta C :=
  mkMeta appName [] ns [] state [] [] [] [] [] [] [] [] 0%Z (Some ∅) (Some config_zero) None [].

(** The closure given to [OneTimesInitial]. *)
Definition as_managed (ns appName : gostring) (m : ApplicationMeta C) : ApplicationMeta C :=
  let '(mkMeta _ a2 _ _ a5 a6 a7 a8 a9 b1 b2 b3 b4 b5 b6 _ b8 b9) := m in
  mkMeta appName a2 ns AppType.ManifestLocal a5 a6 a7 a8 a9 b1 b2 b3 b4 b5 b6 (Some config_migrated) b8 b9.

(** [annotated] are the applications named in annotations; [operator_ok] tells
    whether the temporary operator could be set up.  The meta of the deck is
    shared with the caller, so that what happens to it stays in the deck. *)
Definition GetApplicationMeta `{!Api} (asw : option applicationSecretWatcher) (ns appName : gostring)
    (annotated : gset gostring) (operator_ok : bool) (now : Z) (uuid : res metaerr gostring) (w : world)
    : option applicationSecretWatcher * world * ApplicationMeta C :=
  match asw with
  | None => (None, w, placeholder UNKNOWN ns appName)
  | Some d =>
      let in_deck := OneApplicationMeta d appName in
      let meta := default (placeholder UNINSTALLED ns appName) in_deck in
      let '(meta, w) :=
        if IsNotInstall meta && bool_decide (appName ∈ annotated) && operator_ok then
          let '(meta, w, _) :=
            OneTimesInitial now uuid (as_managed ns appName) false meta w in (meta, w)
        else (meta, w) in
      let d := match in_deck with
               | Some _ => mkWatcher (configBytes d) (asw_ns d) (<[appName := meta]> (applicationMetas d))
               | None => d
               end in
      if bool_decide (Application meta = []) then (Some d, w, placeholder UNINSTALLED ns appName)
      else (Some d, w, meta)
  end.
End watcher.
Arguments applicationSecretWatcher : clear implicits.

(** ** The event queue ([application_secret_event.go])

    [EventPop] waits when the queue is empty: it gives up the lock, and once a
    push has broadcast and it holds the lock again it takes the first event
    without looking at the queue a second time. *)

Inductive consumer_state := Ready | Waiting | Woken | Panicked.

Section queue.
Context {E : Type}.

Record qstate := mkQ {
  queued : list E;
  consumers : list consumer_state;
  pushed : list E;
  popped : list E
}.

Definition wake (c : consumer_state) : consumer_state :=
  match c with Waiting => Woken | c => c end.

Definition EventPush (st : qstate) (e : E) : qstate :=
  mkQ (queued st ++ [e])
      (match queued st with [] => map wake (consumers st) | _ => consumers st end)
      (pushed st ++ [e]) (popped st).

(** [Events[0]] and [Events[1:]]. *)
Definition take_first (st : qstate) (i : nat) : qstate :=
  match queued st with
  | [] => mkQ [] (<[i := Panicked]> (consumers st)) (pushed st) (popped st)
  | e :: q => mkQ q (<[i := Ready]> (consumers st)) (pushed st) (popped st ++ [e])
  end.

(** [EventPop] by consumer [i] up to where it waits or returns. *)
Definition EventPop_enter (st : qstate) (i : nat) : qstate :=
  match queued st with
  | [] => mkQ [] (<[i := Waiting]> (consumers st)) (pushed st) (popped st)
  | _ => take_first st i
  end.

(** ... and after [Wait] returned. *)
Definition EventPop_resume (st : qstate) (i : nat) : qstate := take_first st i.

Inductive qstep : qstate -> qstate -> Prop :=
  | step_push st e : qstep st (EventPush st e)
  | step_enter st i : consumers st !! i = Some Ready -> qstep st (EventPop_enter st i)
  | step_resume st i : consumers st !! i = Some Woken -> qstep st (EventPop_resume st i).

Definition q_init (n : nat) : qstate := mkQ [] (replicate n Ready) [] [].
End queue.
Arguments qstate : clear implicits.

(** [consume]: the listener's [k]-th run returns nil ([Done true]), returns an
    error, or panics.  The [recover] is not in a deferred function, so a panic is
    not caught.  The result counts the runs. *)
Fixpoint consume (fn : nat -> outcome bool) (k retry : nat) : outcome nat :=
  match fn k with
  | Panic => Panic
  | Fuel => Fuel
  | Done true => Done (S k)
  | Done false =>
      match retry with
      | 0 => Done (S k)
      | S retry => consume fn (S k) retry
      end
  end.

(** ** Sequences of watch notifications *)

Section runs.
Context {C : Type} `{!MapOrder gostring} `{!JsonDevMeta} `{!Xz} `{!MetaYaml C}.
Implicit Types (asw : applicationSecretWatcher C) (queue : list ApplicationEventPack).

Inductive watch_op :=
  | OpSet (key : gostring) (obj : option Secret)
  | OpDelete (key : gostring).

Definition run_op (st : applicationSecretWatcher C * list ApplicationEventPack) (op : watch_op)
    : applicationSecretWatcher C * list ApplicationEventPack :=
  let '(asw, queue) := st in
  match op with
  | OpSet key obj => fst (CreateOrUpdate asw queue key obj)
  | OpDelete key => fst (Delete asw queue key)
  end.

(** The events of one application in the queue. *)
Definition app_events (appName : gostring) (queue : list ApplicationEventPack)
    : list ApplicationEvent :=
  map Event (List.filter (fun p => bool_decide (PackAppName p = appName)) queue).

(** Listeners that replay the queue hold the dev metas of the deck. *)
Definition tracked (st : applicationSecretWatcher C * list ApplicationEventPack) : Prop :=
  forall appName t n,
    replay_look (app_events appName (snd st)) t n None = look (deck_dev (fst st) appName) t n.

Lemma app_events_packs asw appName' appName l queue :
  app_events appName (queue ++ packs asw appName' l) =
  app_events appName queue ++ (if bool_decide (appName' = appName) then l else []).
Proof.
  unfold app_events. rewrite List.filter_app, map_app. f_equal. unfold packs.
  induction l as [|e l IH]; simpl; [by destruct (bool_decide _)|].
  case_bool_decide; simpl; [by f_equal|done].
Qed.

(** Replacing the meta of one application and queueing the difference. *)
Lemma tracked_replace asw asw' queue appName d :
  tracked (asw, queue) ->
  (forall x, deck_dev asw' x = if bool_decide (appName = x) then d else deck_dev asw x) ->
  tracked (asw', queue ++ packs asw appName (Events (deck_dev asw appName) d)).
Proof.
  intros Htr Hd x t n. simpl. rewrite app_events_packs, replay_app, (Htr x), Hd. simpl.
  case_bool_decide as E; [subst x; apply replay_Events|done].
Qed.

Lemma tracked_join asw queue secret :
  tracked (asw, queue) -> tracked (fst (join asw queue secret)).
Proof.
  intros Htr. unfold join. destruct (Decode secret) as [m|e]; [|done]. simpl.
  apply tracked_replace; [done|]. intros x. unfold deck_dev. simpl. rewrite lookup_insert.
  case_bool_decide; case_decide; congruence.
Qed.

Lemma tracked_left asw queue appName :
  tracked (asw, queue) -> tracked (left asw queue appName).
Proof.
  intros Htr. apply tracked_replace; [done|]. intros x. unfold deck_dev. simpl. rewrite lookup_delete.
  case_bool_decide; case_decide; congruence.
Qed.

Lemma tracked_run_op st op : tracked st -> tracked (run_op st op).
Proof.
  destruct st as [asw queue]. intros Htr. destruct op as [key obj|key]; simpl.
  - destruct obj; [by apply tracked_join|done].
  - unfold Delete. destruct (GetApplicationName key) as [appName|e]; [|done].
    pose proof (tracked_left asw queue appName Htr) as Hl.
    by destruct (left asw queue appName).
Qed.
End runs.

(** ** The queue's invariant with one consumer *)

Section queue_facts.
Context {E : Type}.
Implicit Types st : qstate E.

Definition q_inv st : Prop :=
  pushed st = popped st ++ queued st /\
  exists c, consumers st = [c] /\ c <> Panicked /\
    (c = Waiting -> queued st = []) /\ (c = Woken -> queued st <> []).

Lemma q_inv_init : q_inv (q_init 1).
Proof. split; [done|]. by exists Ready. Qed.

Lemma q_inv_step st st' : qstep st st' -> q_inv st -> q_inv st'.
Proof.
  intros [[q cs pu po] e|[q cs pu po] i Hi|[q cs pu po] i Hi] (Hp & c & Hc & Hnp & Hw & Hk);
    simpl in *; subst cs pu.
  - split; [simpl; by rewrite <- app_assoc|].
    exists (match q with [] => wake c | _ => c end).
    destruct q; simpl; (split; [done|]); destruct c; simpl; naive_solver.
  - destruct i as [|i]; simpl in Hi; [|done]. injection Hi as ->.
    destruct q as [|e q]; simpl.
    + split; [done|]. by exists Waiting.
    + split; [simpl; by rewrite <- app_assoc|]. by exists Ready.
  - destruct i as [|i]; simpl in Hi; [|done]. injection Hi as ->.
    destruct q as [|e q]; [by destruct Hk|]. unfold EventPop_resume; simpl.
    split; [simpl; by rewrite <- app_assoc|]. by exists Ready.
Qed.
End queue_facts.

(** ** Theorems *)

Section theorems.
Context {C : Type} `{!MapOrder gostring} `{!JsonDevMeta} `{!Xz} `{!MetaYaml C}.

(** C21: among the events of a change of dev meta, those of a given resource are
    exactly: none if its developer is the same, an end if it had one, a start if
    it has one, and the end before the start when the developer changed. *)
Theorem events_of_resource (from to : devmeta) (t n : gostring) :
  filter (about t n) (Events from to) = diff t n (look from t n) (look to t n).
Proof. apply Events_filter. Qed.

(** C22: whatever secrets the watcher of a namespace receives, valid or not, a
    listener that replays the queued events of an application holds, for each
    resource, the developer the watcher's deck holds for it. *)
Theorem watcher_events_replay (ops : list watch_op) (config ns appName t n : gostring) :
  let st := foldl run_op (@NewApplicationSecretWatcher C config ns, []) ops in
  replay_look (app_events appName (snd st)) t n None = look (deck_dev (fst st) appName) t n.
Proof.
  simpl. revert appName t n.
  assert (@tracked C (NewApplicationSecretWatcher config ns, [])) as H0'.
  { intros appName t n. unfold deck_dev. simpl. by rewrite lookup_empty. }
  revert H0'. generalize (@NewApplicationSecretWatcher C config ns, @nil ApplicationEventPack) as st.
  induction ops as [|op ops IH]; intros st Hst; [exact Hst|]. simpl. by apply IH, tracked_run_op.
Qed.
End theorems.

(** with one consumer, as the daemon starts it, every interleaving of pushes
    with the consumer's steps keeps the events in order and loses none, never
    indexes an empty queue, and never leaves the consumer waiting while events
    are queued. *)
Theorem single_consumer_queue {E : Type} (st : qstate E) :
  rtc qstep (q_init 1) st ->
  pushed st = popped st ++ queued st /\ Forall (fun c => c <> Panicked) (consumers st) /\
  (queued st <> [] -> exists st', qstep st st' /\ popped st' = popped st ++ take 1 (queued st)).
Proof.
  intros Hr. assert (q_inv st) as (Hp & c & Hc & Hnp & Hw & Hk).
  { revert Hr. generalize (@q_inv_init E). generalize (@q_init E 1) as st0. intros st0 H0 Hr.
    induction Hr as [|x y z Hxy _ IH]; [done|]. by apply IH, (q_inv_step x). }
  split; [done|]. split; [rewrite Hc; by repeat constructor|]. intros Hq.
  destruct (queued st) as [|e q] eqn:Eq; [done|].
  destruct c; [| by destruct (Hw eq_refl) | | done].
  - exists (EventPop_enter st 0). split; [apply step_enter; by rewrite Hc|].
    unfold EventPop_enter, take_first. by rewrite Eq.
  - exists (EventPop_resume st 0). split; [apply step_resume; by rewrite Hc|].
    unfold EventPop_resume, take_first. by rewrite Eq.
Qed.

(** with two consumers the queue is not safe: both wait, one push wakes both,
    and the second to resume indexes the queue the first has emptied. *)
Theorem two_consumers_panic {E : Type} (e : E) :
  exists st : qstate E, rtc qstep (q_init 2) st /\ consumers st !! 1 = Some Panicked.
Proof.
  exists (EventPop_resume (EventPop_resume (EventPush (EventPop_enter (EventPop_enter (q_init 2) 0) 1) e) 0) 1).
  split; [|done].
  eapply rtc_l; [by apply (step_enter _ 0)|]. eapply rtc_l; [by apply (step_enter _ 1)|].
  eapply rtc_l; [apply (step_push _ e)|]. eapply rtc_l; [by apply (step_resume _ 0)|].
  eapply rtc_l; [by apply (step_resume _ 1)|]. apply rtc_refl.
Qed.

(** a listener that keeps returning errors is run [retry] times more after the
    first and then given up on, one that succeeds is not run again, and one that
    panics on any of its runs takes the consumer down: the recovery around it
    does not apply. *)
Theorem consume_runs (fn : nat -> outcome bool) (k retry : nat) :
  (forall m, m <= retry -> (forall i, i < m -> fn (k + i) = Done false) ->
     (fn (k + m) = Done true -> consume fn k retry = Done (k + m + 1)) /\
     (fn (k + m) = Panic -> consume fn k retry = Panic)) /\
  ((forall i, i <= retry -> fn (k + i) = Done false) -> consume fn k retry = Done (k + retry + 1)).
Proof.
  revert k. induction retry as [|retry IH]; intros k.
  - split.
    + intros m Hm _. assert (m = 0) as -> by lia. rewrite Nat.add_0_r.
      split; intros Hf; cbn; rewrite Hf; [f_equal; lia|done].
    + intros Hall. pose proof (Hall 0 ltac:(lia)) as Hf. rewrite Nat.add_0_r in Hf.
      cbn. rewrite Hf. f_equal. lia.
  - split.
    + intros [|m] Hm Hbefore.
      * rewrite Nat.add_0_r. split; intros Hf; cbn; rewrite Hf; [f_equal; lia|done].
      * pose proof (Hbefore 0 ltac:(lia)) as Hf. rewrite Nat.add_0_r in Hf. cbn. rewrite Hf.
        replace (k + S m) with (S k + m) by lia. apply IH; [lia|].
        intros i Hi. replace (S k + i) with (k + S i) by lia. apply Hbefore. lia.
    + intros Hall. pose proof (Hall 0 ltac:(lia)) as Hf. rewrite Nat.add_0_r in Hf. cbn. rewrite Hf.
      replace (k + S retry + 1) with (S k + retry + 1) by lia. apply IH.
      intros i Hi. replace (S k + i) with (k + S i) by lia. apply Hall. lia.
Qed.

(** ** Witnesses *)

Lemma single_consumer_queue_witness :
  let st := EventPush (EventPush (EventPop_enter (@q_init nat 1) 0) 3) 4 in
  pushed st = popped st ++ queued st /\ Forall (fun c => c <> Panicked) (consumers st) /\
  (queued st <> [] -> exists st', qstep st st' /\ popped st' = popped st ++ take 1 (queued st)).
Proof.
  apply (single_consumer_queue (EventPush (EventPush (EventPop_enter (@q_init nat 1) 0) 3) 4)).
  eapply rtc_l; [by apply (step_enter _ 0)|]. eapply rtc_l; [apply (step_push _ 3)|].
  eapply rtc_l; [apply (step_push _ 4)|]. apply rtc_refl.
Defined.

(** JSON on dev metas, concretely. *)
Definition demo_json : JsonDevMeta.
Proof.
  refine {| json_devmeta := to_text |}. intros m1 m2 E.
  apply (f_equal (of_text (A := devmeta))) in E. rewrite !of_to_text in E. by injection E.
Defined.

(** Alice's workload is taken over by bob, and another one ends. *)
Example events_demo :
  let from := {[DEPLOYMENT := {[go "reviews" := go "alice"; go "details" := go "alice"]}]} in
  let to := {[DEPLOYMENT := {[go "reviews" := go "bob"]}]} in
  filter (about DEPLOYMENT (go "reviews")) (Events (H := demo_json) from to) =
    [mkEvent DEV_END (go "reviews") (go "alice") DEPLOYMENT;
     mkEvent DEV_STA (go "reviews") (go "bob") DEPLOYMENT].
Proof. simpl. by rewrite Events_filter. Qed.
