(* ===== verification/AppMetaFlow.v ===== *)
(** * From the command line to the daemon

    [nhctl dev start] runs in a process of its own: it updates the application's
    secret through the API server and then tells the daemon, whose watcher turns
    the change into events.  These theorems follow a call through both sides, and
    an application that exists only as annotations into an installed one. *)

From S2P Require Import Prelude GoStrings FilePath DevDir AppMeta DevMode AppMetaThms AppMetaEvents.
#[local] Open Scope go_scope.

Section flow.
Context {C : Type} `{!MapOrder gostring} `{!JsonDevMeta}.
Context `{!Xz} `{!XzLaws} `{!MetaYaml C} `{!MetaYamlLaws C} `{!Api} `{!ApiLaws}.
Implicit Types (a : ApplicationMeta C) (w : world) (asw : applicationSecretWatcher C).

(** The watcher on a secret that holds the meta [a]. *)
Lemma join_holds asw queue w a sec :
  meta_ok a -> holds w a sec ->
  join asw queue (Some sec) =
    (mkWatcher (configBytes asw) (asw_ns asw)
       (<[Application a := with_Secret (reread a) (Some sec)]> (applicationMetas asw)),
     queue ++ packs asw (Application a)
       (Events (deck_dev asw (Application a)) (GetApplicationDevMeta a)), Ok tt).
Proof. intros Hok Hh. unfold join. rewrite (holds_Decode _ _ _ Hok Hh). by destruct a. Qed.

(** completing a dev start updates the secret, and when the daemon, whose
    deck was up to date, is given the notified secret, it queues exactly one
    event for the workload, its start by that developer, and its deck then
    holds the dev meta of the caller. *)
Theorem dev_complete_event name svcType identifier modeType a w old asw queue :
  meta_ok a -> own_secret a -> in_cluster w a old ->
  deck_dev asw (Application a) = GetApplicationDevMeta a ->
  look (GetApplicationDevMeta a) (Alias svcType) (devModeName name identifier modeType) = None ->
  exists a' w' sec asw' l,
    SvcDevStartComplete name svcType identifier modeType a w = (a', w', Ok tt) /\
    (daemon_up (cl w') = true -> last (notices w') = Some sec) /\
    UpdateApplicationMetasManually (Some asw) queue (MetaNs a) (SecretName sec) (Some sec) =
      (Some asw', queue ++ packs asw (Application a) l, Ok tt) /\
    filter (about (Alias svcType) (devModeName name identifier modeType)) l =
      [mkEvent DEV_STA (devModeName name identifier modeType) identifier (Alias svcType)] /\
    deck_dev asw' (Application a) = GetApplicationDevMeta a'.
Proof.
  intros Hok Hown Hin Hdeck Hlook.
  pose (c := {| cmd := Complete; call_name := name; call_type := svcType; call_id := identifier;
                call_mode := modeType |}).
  set (t := Alias svcType) in *. set (n := devModeName name identifier modeType) in *.
  assert (spec Complete (status (GetApplicationDevMeta a) t n) <> None) as Hs.
  { unfold look in Hlook. unfold status. rewrite Hlook. by repeat case_match. }
  pose proof (exec_accepted c a w Hs) as Hx. cbn [cmd call_name call_type call_id call_mode c] in Hx.
  fold t n in Hx. unfold exec in Hx. simpl in Hx.
  set (a1 := with_DevMeta a _) in Hx.
  destruct (Update_in_cluster a1 w old) as (w' & sec & Hu & Hh & _ & Hno);
    [by apply own_secret_DevMeta|by apply in_cluster_DevMeta|].
  assert (Application a1 = Application a) as Happ by (by destruct a).
  assert (GetApplicationDevMeta a1 =
    <[t := write Complete identifier n (default ∅ (GetApplicationDevMeta a !! t))]> (GetApplicationDevMeta a))
    as Hdm by (by destruct a).
  eexists _, w', sec, _, (Events (GetApplicationDevMeta a) (GetApplicationDevMeta a1)).
  split; [by rewrite Hx|]. split; [intros Hd; rewrite Hno, Hd; apply last_snoc|]. split; [|split].
  - unfold UpdateApplicationMetasManually, CreateOrUpdate.
    rewrite (join_holds asw queue w' a1 sec (meta_ok_DevMeta a _ Hok) Hh).
    by rewrite Happ, Hdeck.
  - rewrite Events_filter, Hlook, Hdm. unfold look. rewrite lookup_insert_eq. simpl.
    rewrite lookup_delete_ne by apply mark_ne. by rewrite lookup_insert_eq.
  - unfold deck_dev. cbn [applicationMetas]. rewrite ?Happ, lookup_insert_eq. by destruct a.
Qed.

Definition fresh_secret a : Secret :=
  mkSecret (secret_key a) (MetaNs a) SecretType 0 (Some {[SecretStateKey := INSTALLING]}).

(** Creating the secret of an application the cluster does not have. *)
Lemma OneTimesInitial_fresh now id fn force a w m :
  stored (cl w) (MetaNs a) (secret_key a) = None ->
  m = fn (with_Secret (with_State (with_NamespaceId a id) INSTALLED) (Some (fresh_secret a))) ->
  meta_ok m -> MetaNs m = MetaNs a -> Application m = Application a ->
  exists w' sec,
    OneTimesInitial now (Ok id) fn force a w =
      (with_DepConfigName (with_Secret (reread m) (Some sec)) (DepConfigName m), w', Ok tt) /\
    stored (cl w') (MetaNs a) (secret_key a) = Some sec /\
    Decode (Some sec) = Ok (with_Secret (reread m) (Some sec)).
Proof.
  intros Hst Hm Hok Hns Happ. unfold OneTimesInitial, doPreCheckThen. fold (secret_key a).
  destruct (get_missing _ _ _ Hst) as [p ->].
  assert (initialFreshSecret (Ok id) a = (with_NamespaceId a id, Ok (fresh_secret a))) as -> by done.
  rewrite <- Hm. unfold create_and_reassign. rewrite prepare_data_prepare.
  replace (MetaNs (prepare m)) with (MetaNs a)
    by (rewrite <- Hns; unfold prepare; destruct (MetaSecret m); by destruct m).
  replace (DepConfigName m) with (DepConfigName (prepare m))
    by (unfold prepare; destruct (MetaSecret m); by destruct m).
  cbn [Data fresh_secret default].
  set (data := Datatypes.id {[SecretStateKey := INSTALLING]}).
  destruct (create_stored (MetaNs a) (with_Data (fresh_secret a) (Some (prepare_data m data))) (cl w))
    as (c' & v & Hc & Hst'); [done|].
  rewrite Hc. set (sec := mkSecret _ _ _ v _) in *.
  assert (SecretName sec = SecretNamePrefix ++ Application m) as Hsn by (by rewrite Happ).
  assert (SecretNamespace sec = MetaNs m) as Hsns by (by rewrite Hns).
  rewrite (ReAssignment_prepared m (prepare m) sec data) by done.
  exists (with_cl w c'), sec. split; [done|]. split; [done|]. by eapply Decode_prepared.
Qed.

(** asking for an application that is only named in annotations installs it:
    the meta returned is installed, of local-manifest type, with the migrated
    configuration, and the secret created for it decodes to the same. *)
Theorem annotated_app_installed asw ns appName annotated now id w :
  OneApplicationMeta asw appName = None -> appName ∈ annotated -> appName <> [] ->
  "/"%char ∉ appName -> stored (cl w) ns (SecretNamePrefix ++ appName) = None ->
  exists w' meta sec b,
    GetApplicationMeta (Some asw) ns appName annotated true now (Ok id) w = (Some asw, w', meta) /\
    ApplicationState meta = INSTALLED /\ ApplicationType meta = AppType.ManifestLocal /\
    Config meta = Some config_migrated /\ NamespaceId meta = id /\
    stored (cl w') ns (SecretNamePrefix ++ appName) = Some sec /\ Decode (Some sec) = Ok b /\
    ApplicationState b = INSTALLED /\ NamespaceId b = id.
Proof.
  intros Hdeck Hann Hne Hsl Hst. unfold GetApplicationMeta. rewrite Hdeck. simpl default.
  assert (IsNotInstall (placeholder (C := C) UNINSTALLED ns appName) = true) as -> by done.
  rewrite (bool_decide_eq_true_2 (appName ∈ annotated)) by done. cbn [andb].
  destruct (OneTimesInitial_fresh now id (as_managed ns appName) false
              (placeholder UNINSTALLED ns appName) w
              (mkMeta appName [] ns AppType.ManifestLocal INSTALLED [] [] [] [] [] [] [] [] 0%Z (Some ∅)
                 (Some config_migrated) (Some (fresh_secret (placeholder UNINSTALLED ns appName))) id))
    as (w' & sec & Hone & Hst' & Hd); [done|done| |done|done|].
  { split; [by eexists|]. split; [done|]. by split. }
  rewrite Hone.
  cbn [reread with_DevMeta with_DepConfigName with_Secret Application DepConfigName].
  rewrite bool_decide_eq_false_2 by done.
  eexists w', _, sec, _. split; [done|]. do 4 (split; [done|]). split; [exact Hst'|].
  split; [exact Hd|]. done.
Qed.
End flow.

(** ** Witnesses *)

#[local] Existing Instances demo_json demo_xz demo_xz_laws demo_meta_yaml demo_meta_yaml_laws
  demo_api demo_api_laws.

Definition demo_watcher : applicationSecretWatcher gostring :=
  NewApplicationSecretWatcher (go "kubeconfig") (go "ns").

Lemma dev_complete_event_witness :
  exists a' w' sec asw' l,
    SvcDevStartComplete (go "reviews") Deployment (go "alice") ReplaceDevMode demo_app stale_world = (a', w', Ok tt) /\
    (daemon_up (cl w') = true -> last (notices w') = Some sec) /\
    UpdateApplicationMetasManually (Some demo_watcher) [] (MetaNs demo_app) (SecretName sec) (Some sec) =
      (Some asw', [] ++ packs demo_watcher (Application demo_app) l, Ok tt) /\
    filter (about (Alias Deployment) (devModeName (go "reviews") (go "alice") ReplaceDevMode)) l =
      [mkEvent DEV_STA (devModeName (go "reviews") (go "alice") ReplaceDevMode) (go "alice") (Alias Deployment)] /\
    deck_dev asw' (Application demo_app) = GetApplicationDevMeta a'.
Proof.
  apply (dev_complete_event (go "reviews") Deployment (go "alice") ReplaceDevMode demo_app stale_world
           (bump read_secret 7) demo_watcher []).
  - apply demo_app_ok.
  - apply demo_app_own.
  - apply demo_in_cluster.
  - reflexivity.
  - reflexivity.
Defined.

Lemma annotated_app_installed_witness :
  exists w' meta sec b,
    GetApplicationMeta (Some demo_watcher) (go "ns") (go "shop") {[go "shop"]} true 0 (Ok (go "id")) empty_world
      = (Some demo_watcher, w', meta) /\
    ApplicationState meta = INSTALLED /\ ApplicationType meta = AppType.ManifestLocal /\
    Config meta = Some config_migrated /\ NamespaceId meta = go "id" /\
    stored (cl w') (go "ns") (SecretNamePrefix ++ go "shop") = Some sec /\ Decode (Some sec) = Ok b /\
    ApplicationState b = INSTALLED /\ NamespaceId b = go "id".
Proof.
  apply (annotated_app_installed demo_watcher (go "ns") (go "shop") {[go "shop"]} 0 (go "id") empty_world).
  - reflexivity.
  - set_solver.
  - discriminate.
  - apply (bool_decide_eq_true_1 _). vm_compute. reflexivity.
  - reflexivity.
Defined.
