(* ===== verification/WatchController.v ===== *)
(** * The watch controller ([watcher/commonWatcher.go])

    Every watcher of the daemon is driven by the same controller: an informer
    keeps an index of the watched objects and reports the keys of those that
    change; the keys go through a rate-limited work queue to one worker, which
    looks the key up in the index and calls the watcher; a call that fails is
    retried five times.  The work queue is that of client-go: a key that is
    waiting is not added twice, and one that is being processed waits until the
    worker is done with it. *)

From S2P Require Import Prelude GoStrings.
#[local] Open Scope go_scope.

(** What the controller asks of a watcher: [CreateOrUpdate] for a key with an
    object, [Delete] for one without; [false] is an error. *)
Class Watcher (W V : Type) := {
  CreateOrUpdate : gostring -> V -> W -> W * bool;
  Delete : gostring -> W -> W * bool
}.

(** What the worker is doing. *)
Inductive phase (V : Type) :=
  | Idle
  | Got (key : gostring)
  | Fetched (key : gostring) (obj : option V).
Arguments Idle {V}.
Arguments Got {V} key.
Arguments Fetched {V} key obj.

Definition at_work {V : Type} (p : phase V) : option gostring :=
  match p with Idle => None | Got k => Some k | Fetched k _ => Some k end.

Definition max_retries : nat := 5.

Section controller.
Context {W V : Type} `{!Watcher W V}.

(** The index, the keys the informer has not reported yet, the queue's keys
    (those waiting and, in [dirty], also those to be processed again), the
    worker, the failures of each key and the keys waiting for a retry; the
    watcher's state and the calls it got. *)
Record Controller := mkController {
  indexer : gmap gostring V;
  unreported : list gostring;
  dirty : gset gostring;
  queue : list gostring;
  worker : phase V;
  requeues : gmap gostring nat;
  delayed : list gostring;
  watcher : W;
  calls : list (gostring * option V)
}.

Definition NewController (w : W) : Controller := mkController ∅ [] ∅ [] Idle ∅ [] w [].

(** [queue.Add]. *)
Definition queue_Add (key : gostring) (c : Controller) : Controller :=
  if bool_decide (key ∈ dirty c) then c
  else
    mkController (indexer c) (unreported c) ({[key]} ∪ dirty c)
      (if bool_decide (at_work (worker c) = Some key) then queue c else queue c ++ [key])
      (worker c) (requeues c) (delayed c) (watcher c) (calls c).

(** [queue.Done]. *)
Definition queue_Done (key : gostring) (c : Controller) : Controller :=
  mkController (indexer c) (unreported c) (dirty c)
    (if bool_decide (key ∈ dirty c) then queue c ++ [key] else queue c)
    Idle (requeues c) (delayed c) (watcher c) (calls c).

Definition NumRequeues (key : gostring) (c : Controller) : nat := default 0 (requeues c !! key).

(** [queue.AddRateLimited]: the key is added after a delay. *)
Definition AddRateLimited (key : gostring) (c : Controller) : Controller :=
  mkController (indexer c) (unreported c) (dirty c) (queue c) (worker c)
    (<[key := S (NumRequeues key c)]> (requeues c)) (delayed c ++ [key]) (watcher c) (calls c).

Definition Forget (key : gostring) (c : Controller) : Controller :=
  mkController (indexer c) (unreported c) (dirty c) (queue c) (worker c)
    (delete key (requeues c)) (delayed c) (watcher c) (calls c).

Definition handleErr (ok : bool) (key : gostring) (c : Controller) : Controller :=
  if ok then Forget key c
  else if NumRequeues key c <? max_retries then AddRateLimited key c
  else Forget key c.

(** *** [processNextItem], in three parts *)

Definition queue_Get (c : Controller) : option Controller :=
  match worker c, queue c with
  | Idle, key :: q =>
      Some (mkController (indexer c) (unreported c) (dirty c ∖ {[key]}) q (Got key) (requeues c)
              (delayed c) (watcher c) (calls c))
  | _, _ => None
  end.

(** [indexer.GetByKey]. *)
Definition fetch (c : Controller) : option Controller :=
  match worker c with
  | Got key =>
      Some (mkController (indexer c) (unreported c) (dirty c) (queue c) (Fetched key (indexer c !! key))
              (requeues c) (delayed c) (watcher c) (calls c))
  | _ => None
  end.

(** The rest of [invoke], [handleErr] and the deferred [Done]. *)
Definition invoke (c : Controller) : option Controller :=
  match worker c with
  | Fetched key obj =>
      let '(w, ok) := match obj with
                      | Some o => CreateOrUpdate key o (watcher c)
                      | None => Delete key (watcher c)
                      end in
      let c := mkController (indexer c) (unreported c) (dirty c) (queue c) (worker c) (requeues c)
                 (delayed c) w (calls c ++ [(key, obj)]) in
      Some (queue_Done key (handleErr ok key c))
  | _ => None
  end.

(** *** The informer *)

(** The object of a key changes, or goes. *)
Definition change (key : gostring) (obj : option V) (c : Controller) : Controller :=
  mkController (partial_alter (fun _ => obj) key (indexer c)) (unreported c ++ [key]) (dirty c) (queue c)
    (worker c) (requeues c) (delayed c) (watcher c) (calls c).

(** The event handlers add the key. *)
Definition report (c : Controller) : option Controller :=
  match unreported c with
  | key :: u =>
      Some (queue_Add key (mkController (indexer c) u (dirty c) (queue c) (worker c) (requeues c)
              (delayed c) (watcher c) (calls c)))
  | [] => None
  end.

(** A delay is over; delays differ, so that any key may be next. The delaying
    queue merges two delays of one key; here the second then finds the key dirty. *)
Definition expire (i : nat) (c : Controller) : option Controller :=
  match delayed c !! i with
  | Some key =>
      Some (queue_Add key (mkController (indexer c) (unreported c) (dirty c) (queue c) (worker c)
              (requeues c) (delete i (delayed c)) (watcher c) (calls c)))
  | None => None
  end.

(** ** Runs *)

(** What happens without a change in the cluster. *)
Inductive internal : Controller -> Controller -> Prop :=
  | int_report c c' : report c = Some c' -> internal c c'
  | int_expire i c c' : expire i c = Some c' -> internal c c'
  | int_get c c' : queue_Get c = Some c' -> internal c c'
  | int_fetch c c' : fetch c = Some c' -> internal c c'
  | int_invoke c c' : invoke c = Some c' -> internal c c'.

Inductive step : Controller -> Controller -> Prop :=
  | step_internal c c' : internal c c' -> step c c'
  | step_change key obj c : step c (change key obj c).

Definition reachable (w : W) (c : Controller) : Prop := rtc step (NewController w) c.

Definition quiescent (c : Controller) : Prop :=
  unreported c = [] /\ queue c = [] /\ delayed c = [] /\ worker c = Idle.

(** The object of the last call for a key; [None] when there was none. *)
Definition last_call (l : list (gostring * option V)) (key : gostring) : option (option V) :=
  snd <$> last (filter (fun kv => fst kv = key) l).
End controller.
Arguments Controller : clear implicits.

(** ** The invariant *)

Section invariant.
Context {W V : Type} `{!Watcher W V}.
Implicit Types (c : Controller W V) (key k : gostring).

(** The key still has to be processed, or is about to be with its current
    object. *)
Definition pending c k : Prop :=
  k ∈ unreported c \/ k ∈ dirty c \/ k ∈ delayed c \/ worker c = Got k \/
  worker c = Fetched k (indexer c !! k).

(** The last call for the key was with its current object. *)
Definition current c k : Prop := mjoin (last_call (calls c) k) = indexer c !! k.

Record ctl_inv c : Prop := {
  ci_waiting : forall k, k ∈ queue c <-> k ∈ dirty c /\ at_work (worker c) <> Some k;
  ci_once : NoDup (queue c);
  ci_requeues : forall k n, requeues c !! k = Some n -> n <= max_retries /\
    (k ∈ delayed c \/ k ∈ dirty c \/ at_work (worker c) = Some k);
  ci_fetched : forall k obj, worker c = Fetched k obj ->
    obj = indexer c !! k \/ k ∈ unreported c \/ k ∈ dirty c;
  ci_settled : forall k, pending c k \/ current c k
}.

Lemma inv_init (w : W) : ctl_inv (NewController w).
Proof.
  split; cbn.
  - intros k. rewrite elem_of_empty. split; [by intros ?%elem_of_nil|by intros [[] _]].
  - constructor.
  - intros k n. by rewrite lookup_empty.
  - done.
  - intros k. right. unfold current. cbn. by rewrite lookup_empty.
Qed.

(** Changes of the fields the invariant does not read. *)
Definition same_but_lists c c' : Prop :=
  indexer c' = indexer c /\ worker c' = worker c /\ requeues c' = requeues c /\ calls c' = calls c.

(** Adding a key that was unreported or delayed. *)
Lemma inv_Add c c0 key :
  ctl_inv c -> same_but_lists c c0 -> dirty c0 = dirty c -> queue c0 = queue c ->
  (forall k, k ∈ unreported c -> k = key \/ k ∈ unreported c0) ->
  (forall k, k ∈ delayed c -> k = key \/ k ∈ delayed c0) ->
  ctl_inv (queue_Add key c0).
Proof.
  intros [Hw Ho Hr Hf Hs] (E1 & E2 & E3 & E4) Ed Eq Hu Hdl. unfold queue_Add. case_bool_decide as Hin.
  - split; rewrite ?Ed, ?Eq, ?E2, ?E3; try done.
    + intros k n Hk. destruct (Hr k n Hk) as [Hn Hp]. split; [done|].
      destruct Hp as [[->|?]%Hdl|?]; [right; left; by rewrite <- Ed|by left|by right].
    + intros k obj Hk. rewrite E1. rewrite Ed in Hin. destruct (Hf k obj Hk) as [?|[[->|?]%Hu|?]]; tauto.
    + intros k. unfold pending, current in *. rewrite ?E1, ?E2, ?E4, ?Ed in *.
      destruct (Hs k) as [[[->|?]%Hu|[?|[[->|?]%Hdl|?]]]|?]; tauto.
  - split; cbn [indexer unreported dirty queue worker requeues delayed calls]; rewrite ?Ed, ?Eq, ?E2, ?E3.
    + intros k. rewrite Ed in Hin. case_bool_decide as Hat.
      * rewrite Hw, elem_of_union, elem_of_singleton. split; [tauto|]. intros [[->|?] ?]; [done|tauto].
      * rewrite elem_of_app, list_elem_of_singleton, Hw, elem_of_union, elem_of_singleton.
        split; [intros [?| ->]; tauto|tauto].
    + case_bool_decide; [done|]. apply NoDup_app. split_and!; [done| |apply NoDup_singleton].
      intros k [Hk _]%Hw ->%list_elem_of_singleton. by rewrite Ed in Hin.
    + intros k n Hk. destruct (Hr k n Hk) as [Hn Hp]. split; [done|]. rewrite elem_of_union, elem_of_singleton.
      destruct Hp as [[->|?]%Hdl|[?|?]]; tauto.
    + intros k obj Hk. rewrite E1, elem_of_union, elem_of_singleton.
      destruct (Hf k obj Hk) as [?|[[->|?]%Hu|?]]; tauto.
    + intros k. unfold pending, current in *.
      cbn [indexer unreported dirty queue worker requeues delayed calls]. rewrite ?E1, ?E2, ?E4, ?Ed in *.
      rewrite elem_of_union, elem_of_singleton.
      destruct (Hs k) as [[[->|?]%Hu|[?|[[->|?]%Hdl|?]]]|?]; tauto.
Qed.

Lemma inv_report c c' : ctl_inv c -> report c = Some c' -> ctl_inv c'.
Proof.
  intros Hi. unfold report. destruct (unreported c) as [|key u] eqn:E; [done|]. intros [= <-].
  eapply inv_Add; [exact Hi|done|done|done| |by right]. intros k. rewrite E, elem_of_cons. done.
Qed.

Lemma inv_expire i c c' : ctl_inv c -> expire i c = Some c' -> ctl_inv c'.
Proof.
  intros Hi. unfold expire. destruct (delayed c !! i) as [key|] eqn:E; [|done]. intros [= <-].
  eapply inv_Add; [exact Hi|done|done|done|by right|]. cbn. intros k.
  rewrite (delete_Permutation _ _ _ E) at 1. by rewrite elem_of_cons.
Qed.

Lemma inv_get c c' : ctl_inv c -> queue_Get c = Some c' -> ctl_inv c'.
Proof.
  intros [Hw Ho Hr Hf Hs]. unfold queue_Get. destruct (worker c) eqn:Ew; try done.
  destruct (queue c) as [|key q] eqn:Eq; [done|]. intros [= <-].
  apply NoDup_cons in Ho as [Hk Ho].
  assert (key ∈ dirty c) as Hkd by (apply Hw; set_solver).
  split; cbn.
  - intros k. specialize (Hw k). rewrite elem_of_cons in Hw. cbn in Hw.
    rewrite elem_of_difference, elem_of_singleton. split.
    + intros Hq. assert (k <> key) by congruence. split; [|congruence]. split; [|done]. apply Hw. by right.
    + intros [[Hd Hne] _]. destruct Hw as [_ Hw]. by destruct Hw as [?|?].
  - done.
  - intros k n Hk'. destruct (Hr k n Hk') as [Hn Hp]. split; [done|].
    destruct (decide (k = key)) as [->|Hne]; [by right; right|]. set_solver.
  - done.
  - intros k. unfold pending, current in *. cbn. rewrite Ew in Hs. rewrite elem_of_difference, elem_of_singleton.
    destruct (decide (k = key)) as [->|Hne]; [tauto|].
    destruct (Hs k) as [[?|[?|[?|[?|?]]]]|?]; (done || tauto).
Qed.

Lemma inv_fetch c c' : ctl_inv c -> fetch c = Some c' -> ctl_inv c'.
Proof.
  intros [Hw Ho Hr Hf Hs]. unfold fetch. destruct (worker c) as [|key|] eqn:Ew; try done. intros [= <-].
  split; cbn; [done|done|done| |].
  { intros k obj [= <- <-]. by left. }
  intros k. unfold pending, current in *. cbn. rewrite Ew in Hs. destruct (Hs k) as [[?|[?|[?|[[= ->]|?]]]]|?]; (done || tauto).
Qed.

Lemma inv_change key obj c : ctl_inv c -> ctl_inv (change key obj c).
Proof.
  intros [Hw Ho Hr Hf Hs]. split; cbn; [done|done|done| |].
  { intros k o Hk. rewrite elem_of_app, list_elem_of_singleton. destruct (decide (k = key)) as [->|Hne]; [tauto|].
    rewrite lookup_partial_alter_ne by done. destruct (Hf k o Hk); tauto. }
  intros k. unfold pending, current in *. cbn. rewrite elem_of_app, list_elem_of_singleton. destruct (decide (k = key)) as [->|Hne]; [tauto|].
  rewrite lookup_partial_alter_ne by done. destruct (Hs k); tauto.
Qed.

Lemma last_call_snoc (l : list (gostring * option V)) key obj k :
  last_call (l ++ [(key, obj)]) k = if decide (key = k) then Some obj else last_call l k.
Proof.
  unfold last_call. rewrite filter_app. case_decide as E.
  - subst. rewrite filter_cons_True by done. by rewrite filter_nil, last_snoc.
  - rewrite filter_cons_False by done. by rewrite filter_nil, app_nil_r.
Qed.

(** The end of a call: the key is idle again, unless it was added meanwhile. *)
Lemma inv_invoke c c' : ctl_inv c -> invoke c = Some c' -> ctl_inv c'.
Proof.
  intros [Hw Ho Hr Hf Hs]. unfold invoke. destruct (worker c) as [| |key obj] eqn:Ew; try done.
  destruct (match obj with Some o => _ | None => _ end) as [w ok]. intros [= <-].
  set (c1 := mkController _ _ _ _ _ _ _ w _).
  assert (exists rq dl, handleErr ok key c1 =
    mkController (indexer c) (unreported c) (dirty c) (queue c) (Fetched key obj) rq dl w (calls c ++ [(key, obj)]) /\
    (forall k, k ∈ delayed c -> k ∈ dl) /\
    (forall k n, rq !! k = Some n -> n <= max_retries /\ (k ∈ dl \/ (k <> key /\ requeues c !! k = Some n))))
    as (rq & dl & -> & Hdl & Hrq).
  { unfold handleErr, Forget, AddRateLimited, NumRequeues, c1.
    cbn [indexer unreported dirty queue worker requeues delayed watcher calls].
    assert (forall k n, delete key (requeues c) !! k = Some n ->
      n <= max_retries /\ (k ∈ delayed c \/ (k <> key /\ requeues c !! k = Some n))) as Hdel.
    { intros k n [Hne Hk]%lookup_delete_Some. split; [by eapply Hr|right]. done. }
    destruct ok; [eexists _, _; split; [reflexivity|]; split; [done|exact Hdel]|].
    destruct (Nat.ltb_spec (default 0 (requeues c !! key)) max_retries);
      [|eexists _, _; split; [reflexivity|]; split; [done|exact Hdel]].
    eexists _, _. split; [reflexivity|]. split; [set_solver|]. intros k n Hk. rewrite lookup_insert in Hk.
    case_decide as E; simplify_eq.
    - split; [lia|]. left. set_solver.
    - split; [by eapply Hr|]. right. done. }
  assert (key ∉ queue c) as Hnq by (rewrite Hw; cbn; tauto).
  split; cbn.
  - intros k. specialize (Hw k). cbn in Hw. case_bool_decide as Hd.
    + rewrite elem_of_app, list_elem_of_singleton. destruct (decide (k = key)) as [->|Hne]; [split; [done|by right]|].
      rewrite Hw. split; [intros [[? _]|?]; done|]. intros [? _]. left. split; [done|]. congruence.
    + rewrite Hw. split; [intros [? _]; done|]. intros [? _]. split; [done|]. congruence.
  - case_bool_decide; [|done]. apply NoDup_app. split_and!; [done| |apply NoDup_singleton].
    by intros k Hk ->%list_elem_of_singleton.
  - intros k n Hk. destruct (Hrq k n Hk) as [Hn [Hp|[Hne Hp]]]; split; try done; [by left|].
    destruct (Hr k n Hp) as [_ [?|[?|[= ?]]]]; [left; by apply Hdl|by right; left|congruence].
  - done.
  - intros k. unfold pending, current in *.
    cbn [indexer unreported dirty queue worker requeues delayed watcher calls queue_Done].
    rewrite Ew in Hs. rewrite last_call_snoc.
    destruct (decide (key = k)) as [<-|Hne].
    + destruct (Hf key obj eq_refl) as [->|[?|?]]; tauto.
    + destruct (Hs k) as [[?|[?|[?%Hdl|[?|[= ? _]]]]]|?]; (tauto || congruence).
Qed.
End invariant.

(** ** The queue drains *)

Lemma sum_list_perm (l l' : list nat) : l ≡ₚ l' -> sum_list l = sum_list l'.
Proof. induction 1; cbn; lia. Qed.

Lemma sum_list_bound (l : list nat) b : (forall n, n ∈ l -> n <= b) -> sum_list l <= b * length l.
Proof.
  induction l as [|n l IH]; intros Hb; cbn; [lia|]. pose proof (Hb n ltac:(set_solver)).
  assert (sum_list l <= b * length l) by (apply IH; set_solver). lia.
Qed.

Section drain.
Context {W V : Type} `{!Watcher W V}.
Implicit Types (c : Controller W V) (key k : gostring).

(** All the failures counted. *)
Definition failures (m : gmap gostring nat) : nat := sum_list (map_to_list m).*2.

Lemma failures_delete m key : failures m = default 0 (m !! key) + failures (delete key m).
Proof.
  unfold failures. destruct (m !! key) as [n|] eqn:E; cbn.
  - rewrite (sum_list_perm _ _ (fmap_Permutation snd _ _ (symmetry (map_to_list_delete m key n E)))). done.
  - by rewrite delete_id.
Qed.

Lemma failures_insert m key n : failures (<[key := n]> m) = n + failures (delete key m).
Proof. rewrite (failures_delete _ key), lookup_insert_eq, delete_insert_eq. done. Qed.

Definition busy c : nat := match worker c with Idle => 0 | _ => 1 end.

(** The places where a key waits. *)
Definition places c : nat := length (unreported c) + length (delayed c) + size (dirty c) + busy c.

Lemma failures_bound c : ctl_inv c -> failures (requeues c) <= max_retries * places c.
Proof.
  intros [_ _ Hr _ _]. unfold failures.
  etrans; [apply (sum_list_bound _ max_retries)|].
  { intros n ([k n'] & -> & Hk%elem_of_map_to_list)%list_elem_of_fmap. by apply (Hr k). }
  apply Nat.mul_le_mono_l. rewrite length_fmap.
  rewrite <- (length_fmap fst (map_to_list (requeues c))).
  transitivity (length (delayed c ++ elements (dirty c) ++ option_list (at_work (worker c)))).
  - apply NoDup_incl_length; [apply NoDup_ListNoDup, NoDup_fst_map_to_list|].
    intros k Hk%list_elem_of_In. apply list_elem_of_In.
    apply list_elem_of_fmap in Hk as ([k' n] & -> & Hk%elem_of_map_to_list).
    rewrite !elem_of_app, elem_of_elements. destruct (Hr k' n Hk) as [_ [?|[?| ->]]]; [tauto|tauto|].
    right; right. cbn. set_solver.
  - unfold places, busy. rewrite !length_app. change (length (elements (dirty c))) with (size (dirty c)).
    destruct (worker c); cbn; lia.
Qed.

Definition weight c : nat :=
  3 * length (unreported c) + 3 * length (delayed c) + 2 * size (dirty c) +
  match worker c with Got _ => 1 | _ => 0 end.

(** Each step without a change of the cluster decreases this. *)
Definition measure c : nat := 10 * (7 * places c - failures (requeues c)) + weight c.

Lemma Add_size key (s : gset gostring) : key ∉ s -> size ({[key]} ∪ s) = S (size s).
Proof. intros Hk. rewrite size_union by set_solver. by rewrite size_singleton. Qed.

Lemma measure_Add key c c0 :
  failures (requeues c) <= max_retries * places c ->
  requeues c0 = requeues c -> dirty c0 = dirty c -> worker c0 = worker c ->
  S (length (unreported c0) + length (delayed c0)) = length (unreported c) + length (delayed c) ->
  measure (queue_Add key c0) < measure c.
Proof.
  unfold measure, places, weight, busy, max_retries. intros Hf E1 E2 E3 E4. unfold queue_Add.
  case_bool_decide; cbn [unreported delayed dirty worker requeues]; rewrite E1, E2, E3;
    rewrite ?Add_size by congruence; destruct (worker c); lia.
Qed.

Lemma measure_internal c c' : ctl_inv c -> internal c c' -> measure c' < measure c.
Proof.
  intros Hi Hint. pose proof (failures_bound c Hi) as Hf.
  destruct Hint as [c c' E|i c c' E|c c' E|c c' E|c c' E].
  - unfold report in E. destruct (unreported c) as [|key u] eqn:Eu; simplify_eq.
    apply measure_Add; [done|done|done|done|]. cbn. rewrite Eu. cbn. lia.
  - unfold expire in E. destruct (delayed c !! i) as [key|] eqn:Ed; simplify_eq.
    apply measure_Add; [done|done|done|done|]. cbn. apply lookup_lt_Some in Ed as Hlt.
    rewrite length_delete by (by eexists). lia.
  - unfold queue_Get in E. destruct (worker c) eqn:Ew; try done.
    destruct (queue c) as [|key q] eqn:Eq; simplify_eq.
    assert (key ∈ dirty c) as Hk by (apply (ci_waiting c Hi key); rewrite Eq; set_solver).
    assert (size (dirty c) = S (size (dirty c ∖ {[key]}))) as Hsz.
    { rewrite <- (Add_size key) by set_solver. f_equal. apply set_eq. intros x. destruct (decide (x = key)); set_solver. }
    unfold measure, places, weight, busy in *. cbn [unreported delayed dirty worker requeues]. rewrite Ew in *. lia.
  - unfold fetch in E. destruct (worker c) eqn:Ew; simplify_eq.
    unfold measure, places, weight, busy in *. cbn [unreported delayed dirty worker requeues]. rewrite Ew in *. lia.
  - unfold invoke in E. destruct (worker c) as [| |key obj] eqn:Ew; try done.
    destruct (match obj with Some o => _ | None => _ end) as [w ok]. simplify_eq.
    pose proof (failures_delete (requeues c) key) as Hdel.
    assert (default 0 (requeues c !! key) <= max_retries) as Hmax.
    { destruct (requeues c !! key) as [n|] eqn:En; cbn; [|lia]. by apply (ci_requeues c Hi key). }
    unfold queue_Done, handleErr, NumRequeues, AddRateLimited, Forget.
    cbn [unreported delayed dirty worker requeues indexer queue watcher calls].
    unfold measure, places, weight, busy, max_retries in *.
    destruct ok; [|destruct (Nat.ltb_spec (default 0 (requeues c !! key)) 5)];
      cbn [unreported delayed dirty worker requeues indexer queue watcher calls];
      rewrite ?failures_insert, ?length_app; cbn [length]; rewrite Ew in *; unfold NumRequeues in *;
      cbn [requeues]; lia.
Qed.
End drain.

(** ** Theorems *)

Section theorems.
Context {W V : Type} `{!Watcher W V}.
Implicit Types (c : Controller W V) (w : W).

Lemma inv_internal c c' : ctl_inv c -> internal c c' -> ctl_inv c'.
Proof.
  intros Hi Hint. destruct Hint; eauto using inv_report, inv_expire, inv_get, inv_fetch, inv_invoke.
Qed.

Lemma inv_reachable w c : reachable w c -> ctl_inv c.
Proof.
  unfold reachable. intros Hr. refine (rtc_ind_r (R := step) ctl_inv (NewController w) _ _ c Hr); [apply inv_init|].
  intros y z _ [? ? Hint|]; [|apply inv_change]. intros Hy. by eapply inv_internal.
Qed.

Lemma quiescent_dirty c : ctl_inv c -> quiescent c -> dirty c = ∅.
Proof.
  intros Hi (_ & Hq & _ & Hw). apply set_eq. intros k. split; [|set_solver]. intros Hk.
  assert (k ∈ queue c) as Hkq by (apply (ci_waiting c Hi); by rewrite Hw). rewrite Hq in Hkq.
  by apply elem_of_nil in Hkq.
Qed.

Lemma quiescent_current c k : ctl_inv c -> quiescent c -> current c k.
Proof.
  intros Hi Hqs. pose proof (quiescent_dirty c Hi Hqs) as Hd. destruct Hqs as (Hu & _ & Hdl & Hw).
  destruct (ci_settled c Hi k) as [Hp|]; [|done]. exfalso. unfold pending in Hp.
  rewrite Hu, Hd, Hdl, Hw, elem_of_empty in Hp. destruct Hp as [Hp|[Hp|[Hp|[Hp|Hp]]]]; try done;
    by apply elem_of_nil in Hp.
Qed.

(** Unless everything is done, something can happen. *)
Lemma progress c : ~ red internal c -> quiescent c.
Proof.
  intros Hn. unfold quiescent.
  destruct (worker c) as [|key|key obj] eqn:Ew.
  2:{ destruct Hn. eexists. apply int_fetch. unfold fetch. by rewrite Ew. }
  2:{ destruct Hn. destruct (invoke c) as [c'|] eqn:E; [by exists c'; apply int_invoke|].
      unfold invoke in E. rewrite Ew in E. by destruct (match obj with Some o => _ | None => _ end). }
  destruct (unreported c) as [|k u] eqn:Eu.
  2:{ destruct Hn. eexists. apply int_report. unfold report. by rewrite Eu. }
  destruct (queue c) as [|k q] eqn:Eq.
  2:{ destruct Hn. eexists. apply int_get. unfold queue_Get. by rewrite Ew, Eq. }
  destruct (delayed c) as [|k l] eqn:El; [done|].
  destruct Hn. eexists. apply (int_expire 0). unfold expire. by rewrite El.
Qed.

Lemma internal_terminates c : ctl_inv c -> sn internal c.
Proof.
  remember (measure c) as n eqn:En. revert c En.
  induction n as [n IH] using lt_wf_ind. intros c -> Hi. constructor. intros c' Hint.
  eapply IH; [by apply measure_internal|done|by eapply inv_internal].
Qed.

Lemma internal_indexer c c' : internal c c' -> indexer c' = indexer c.
Proof.
  intros [? ? E|? ? ? E|? ? E|? ? E|? ? E];
    unfold report, expire, queue_Get, fetch, invoke, queue_Add, queue_Done, handleErr, Forget, AddRateLimited in E;
    repeat (case_match; simplify_eq/=); done.
Qed.

(** C15: Once the cluster stops changing, the controller comes to rest whatever
    the watcher answers and in whatever order delays end; and at rest the last
    call the watcher got for every key was with the object the key then has, or
    without one when it has none. *)
Theorem watch_comes_to_rest w c :
  reachable w c ->
  sn internal c /\
  forall c', rtc internal c c' -> ~ red internal c' ->
    quiescent c' /\ indexer c' = indexer c /\
    forall k, mjoin (last_call (calls c') k) = indexer c !! k.
Proof.
  intros Hi%inv_reachable. split; [by apply internal_terminates|].
  intros c' Hrun Hend.
  assert (ctl_inv c' /\ indexer c' = indexer c) as [Hi' Hx].
  { clear Hend. induction Hrun as [c|c c1 c' Hstep _ IH]; [done|].
    rewrite <- (internal_indexer _ _ Hstep). apply IH. by eapply inv_internal. }
  apply progress in Hend as Hq. split; [done|]. split; [done|]. intros k. rewrite <- Hx.
  by apply quiescent_current.
Qed.

(** The watcher's state comes from its calls. *)
Definition run_call (w : W) (call : gostring * option V) : W :=
  fst match snd call with
      | Some o => CreateOrUpdate (fst call) o w
      | None => Delete (fst call) w
      end.

(** A step makes one call at most, and the watcher is what the call leaves. *)
Lemma step_calls c c' : step c c' ->
  exists new, calls c' = calls c ++ new /\ watcher c' = foldl run_call (watcher c) new /\ length new <= 1.
Proof.
  intros [y' z' Hint|key obj y']; [|exists []; cbn; rewrite app_nil_r; auto].
  destruct Hint as [? ? E|? ? ? E|? ? E|? ? E|y' z' E].
  1-4: exists []; rewrite app_nil_r; unfold report, expire, queue_Get, fetch, queue_Add in E; repeat (case_match; simplify_eq/=); auto.
  unfold invoke in E. destruct (worker y') as [| |key obj]; try done.
  destruct (match obj with Some o => _ | None => _ end) as [w' ok] eqn:Ew. simplify_eq.
  exists [(key, obj)]. cbn. unfold run_call. cbn. rewrite Ew.
  unfold queue_Done, handleErr, Forget, AddRateLimited. repeat case_match; auto.
Qed.

Lemma inv_step c c' : ctl_inv c -> step c c' -> ctl_inv c'.
Proof. intros Hi Hs. destruct Hs; [by eapply inv_internal|by apply inv_change]. Qed.

Lemma watcher_calls w c : reachable w c -> watcher c = foldl run_call w (calls c).
Proof.
  unfold reachable. intros Hr.
  refine (rtc_ind_r (R := step) (fun c => watcher c = foldl run_call w (calls c)) (NewController w) _ _ c Hr);
    [done|].
  intros y z _ (new & -> & -> & _)%step_calls ->. by rewrite foldl_app.
Qed.

Lemma reachable_quiescent w c k : reachable w c -> quiescent c -> mjoin (last_call (calls c) k) = indexer c !! k.
Proof. intros Hi%inv_reachable Hq. by apply quiescent_current. Qed.

(** The run in which one object appears and is handled. *)
Lemma one_change w key v :
  snd (CreateOrUpdate key v w) = true ->
  exists c, reachable w c /\ quiescent c /\ calls c = [(key, Some v)] /\ indexer c !! key = Some v.
Proof.
  intros Hok. destruct (CreateOrUpdate key v w) as [w' ok] eqn:Ew. cbn in Hok. subst ok.
  set (c0 := change key (Some v) (NewController w)).
  set (c1 := queue_Add key (mkController (indexer c0) [] ∅ [] Idle ∅ [] w [])).
  assert (dirty c1 = {[key]} ∪ ∅ /\ queue c1 = [key] /\ worker c1 = Idle /\ indexer c1 = indexer c0 /\
    calls c1 = [] /\ watcher c1 = w /\ unreported c1 = [] /\ delayed c1 = [] /\ requeues c1 = ∅)
    as (E1 & E2 & E3 & E4 & E5 & E6 & E7 & E8 & E9).
  { unfold c1, queue_Add. cbn [dirty]. rewrite (bool_decide_eq_false_2 (key ∈ ∅)) by set_solver.
    cbn [worker at_work queue]. rewrite (bool_decide_eq_false_2 (None = Some key)) by done. done. }
  assert (indexer c0 !! key = Some v) as Hx by apply lookup_partial_alter_eq.
  destruct (queue_Get c1) as [c2|] eqn:Eg; [|unfold queue_Get in Eg; by rewrite E3, E2 in Eg].
  assert (c2 = mkController (indexer c0) [] (({[key]} ∪ ∅) ∖ {[key]}) [] (Got key) ∅ [] w []) as ->.
  { unfold queue_Get in Eg. rewrite E3, E2, E1, E4, E5, E6, E7, E8, E9 in Eg. by simplify_eq. }
  set (c3 := mkController (indexer c0) [] (({[key]} ∪ ∅) ∖ {[key]}) [] (Fetched key (Some v)) ∅ [] w []).
  destruct (invoke c3) as [c4|] eqn:Ei; [|unfold invoke in Ei; cbn in Ei; by rewrite Ew in Ei].
  assert (c4 = mkController (indexer c0) [] (({[key]} ∪ ∅) ∖ {[key]}) [] Idle (delete key ∅) [] w' [(key, Some v)]) as Ec4.
  { unfold invoke, c3 in Ei. cbn [worker watcher indexer unreported dirty queue requeues delayed calls] in Ei.
    rewrite Ew in Ei. unfold queue_Done, handleErr, Forget in Ei.
    cbn [worker watcher indexer unreported dirty queue requeues delayed calls app] in Ei.
    rewrite (bool_decide_eq_false_2 (key ∈ ({[key]} ∪ ∅) ∖ {[key]})) in Ei by set_solver. by injection Ei. }
  exists c4. split; [|subst c4; split; [|split]; [done|done|exact Hx]].
  eapply rtc_l; [apply step_change|]. eapply rtc_l; [apply step_internal, int_report; reflexivity|].
  eapply rtc_l; [apply step_internal, int_get, Eg|].
  eapply rtc_l; [apply step_internal, int_fetch; unfold fetch; cbn [worker]; reflexivity|].
  cbn [indexer unreported dirty queue requeues delayed watcher calls]. rewrite Hx.
  eapply rtc_l; [apply step_internal, int_invoke, Ei|]. apply rtc_refl.
Qed.
End theorems.

(** ** A watcher that always fails *)

Section demo.
#[local] Instance failing : Watcher unit gostring := {|
  CreateOrUpdate := fun _ _ w => (w, false);
  Delete := fun _ w => (w, false)
|}.

Lemma watch_comes_to_rest_witness :
  sn internal (change (go "ns/secret") (Some (go "data")) (NewController tt)).
Proof.
  apply (watch_comes_to_rest tt). eapply rtc_l; [apply step_change|apply rtc_refl].
Defined.
End demo.
