(* ===== verification/AppMetaSync.v ===== *)
(** * The deck follows the secrets

    The application watcher behind the watch controller, together with the listing
    that fills its deck first and the others that write to it: however the secrets of
    a namespace change and however calls fail and are retried, once the changes stop
    and the controller is at rest each application is in the deck as its last writer
    left it, which for the controller is exactly what its secret decodes to. *)

From S2P Require Import Prelude GoStrings FilePath DevDir AppMeta DevMode AppMetaThms AppMetaEvents AppMetaFlow WatchController.
#[local] Open Scope go_scope.

Section deck.
Context {C : Type} `{!MapOrder gostring} `{!JsonDevMeta} `{!Xz} `{!MetaYaml C}.

(** The deck and the event queue. *)
Abbreviation deck_state := (applicationSecretWatcher C * list ApplicationEventPack)%type.

Definition is_ok {E A : Type} (r : res E A) : bool := match r with Ok _ => true | Err _ => false end.

#[export] Instance secret_watcher : Watcher deck_state Secret := {|
  WatchController.CreateOrUpdate := fun key secret st =>
    let '(asw, queue, r) := AppMetaEvents.CreateOrUpdate (fst st) (snd st) key (Some secret) in
    ((asw, queue), is_ok r);
  WatchController.Delete := fun key st =>
    let '(asw, queue, r) := AppMetaEvents.Delete (fst st) (snd st) key in ((asw, queue), is_ok r)
|}.

Context (ns : gostring).

(** The key the informer has for the secret of an application. *)
Definition secret_path (app : gostring) : gostring := ns ++ slash ++ SecretNamePrefix ++ app.


Hypothesis ns_nonempty : ns <> [].
Hypothesis ns_slash : slash_free ns.






(** *** All who write the deck

    The controller is not alone: [nhctl] reports what it has written to the daemon,
    and a query for an application initialises one that is named in annotations in
    the meta it shares with the deck. *)

Context `{!Api}.

Definition with_watcher (c : Controller deck_state Secret) (st : deck_state) : Controller deck_state Secret :=
  mkController (indexer c) (unreported c) (dirty c) (queue c) (worker c) (requeues c) (delayed c) st (calls c).

(** A write of the entry of a key: by a call of the controller, or by others, with
    what they left there. *)
Abbreviation write := (gostring * option (option (ApplicationMeta C)))%type.

Inductive runs (st : deck_state) : Controller deck_state Secret -> list write -> Prop :=
  | runs_start : runs st (NewController st) []
  | runs_step c c' l : runs st c l -> step c c' ->
      runs st c' (l ++ map (fun call => (fst call, None)) (drop (length (calls c)) (calls c')))
  | runs_reported c l app secret asw queue r : runs st c l ->
      slash_free app -> (forall sec, secret = Some sec -> SecretName sec = SecretNamePrefix ++ app) ->
      UpdateApplicationMetasManually (Some (fst (watcher c))) (snd (watcher c)) ns (SecretNamePrefix ++ app) secret = (Some asw, queue, r) ->
      runs st (with_watcher c (asw, queue)) (l ++ [(secret_path app, Some (OneApplicationMeta asw app))])
  | runs_asked c l app annotated operator_ok now uuid w asw w' meta : runs st c l ->
      GetApplicationMeta (Some (fst (watcher c))) ns app annotated operator_ok now uuid w = (Some asw, w', meta) ->
      runs st (with_watcher c (asw, snd (watcher c)))
        (if IsNotInstall (default (placeholder UNINSTALLED ns app) (OneApplicationMeta (fst (watcher c)) app))
         then l ++ [(secret_path app, Some (OneApplicationMeta asw app))] else l).








(** *** The first listing *)




End deck.

(** ** A run *)

Section demo.
#[local] Existing Instances demo_json demo_xz demo_meta_yaml demo_api.

Abbreviation demo_state := (applicationSecretWatcher gostring * list ApplicationEventPack)%type.


(** A secret that is deleted after the listing and before the informer lists stays in
    the deck: the controller is at rest without a call. *)
Theorem vanished_secret_stays :
  let r := Prepare (C := gostring) (NewApplicationSecretWatcher (go "kubeconfig") (go "ns")) [] (Some [prepared_secret]) in
  let c := NewController (V := Secret) (fst r) in
  snd r = Ok tt /\ runs (go "ns") (fst r) c [] /\ quiescent c /\ indexer c = ∅ /\
  bool_decide (is_Some (OneApplicationMeta (fst (watcher c)) (go "bookinfo"))) = true.
Proof. intros r c. split; [vm_compute; reflexivity|]. split; [constructor|]. do 2 (split; [done|]). vm_compute. reflexivity. Qed.
End demo.
