(* ===== verification/Helm.v ===== *)
(** * Helm releases as applications ([appmeta_manager/helmUtil.go],
    [helm_secret_watcher.go], [helm_configmap_watcher.go])

    Helm keeps each revision of a release in a secret or in a config map named
    [sh.helm.release.v1.NAME.vREVISION].  Two watchers per namespace turn them
    into applications: a release that appears is installed as an application, one
    that is deleted uninstalls it.  Here are the names, the decoding of a release
    and both watchers, on top of the supervisor's deck and of the application
    meta.  Base64, gzip and JSON are parameters. *)

From S2P Require Import Prelude GoStrings FilePath DevDir AppMeta DevMode AppMetaThms AppMetaEvents AppMetaFlow.
#[local] Open Scope go_scope.

(** ** Releases *)

Record Info := mkInfo {
  FirstDeployed : gostring;
  LastDeployed : gostring;
  Deleted : gostring;
  Description : gostring;
  InfoStatus : gostring;
  Notes : gostring
}.

(** The values and the labels, which are not read, are left out. *)
Record Release := mkRelease {
  rls_Name : gostring;
  rls_Info : option Info;
  rls_Manifest : gostring;
  rls_Version : Z;
  rls_Namespace : gostring
}.

(** [base64.StdEncoding.DecodeString], [gzip.NewReader] with [ioutil.ReadAll],
    and [json.Unmarshal]. *)
Class ReleaseCodec := {
  b64_decode : gostring -> option gostring;
  gunzip : gostring -> option gostring;
  json_release : gostring -> option Release
}.

Definition release_prefix : gostring := go "sh.helm.release.v1.".
Definition revision_mark : gostring := go ".v".

Definition magicGzip : gostring := [ascii_of_nat 31; ascii_of_nat 139; ascii_of_nat 8].

Inductive helm_error :=
  | InvalidHelmKey
  | Base64Error
  | GzipError
  | JsonError
  | NotCast
  | MetaError (e : metaerr)
  | OperatorError.

(** [strings.Split] never returns an empty slice for a separator that is not
    empty, so the first check of the code never fails. *)
Definition GetRlsNameFromKey (key : gostring) : res helm_error gostring :=
  match last (Split key release_prefix) with
  | None => Err InvalidHelmKey
  | Some keyWithoutPrefix =>
      match Split keyWithoutPrefix revision_mark with
      | [name; _] => Ok name
      | _ => Err InvalidHelmKey
      end
  end.

Section helm.
Context {C : Type} `{!MapOrder gostring} `{!JsonDevMeta} `{!Xz} `{!MetaYaml C} `{!Api} `{!ReleaseCodec}.
Implicit Types (asw : option (applicationSecretWatcher C)) (w : world).

(** The slice [b[0:3]] is within the capacity of the decoded bytes, three for
    every four bytes of the text; below it the expression panics. *)
Definition DecodeRelease (data : gostring) : outcome (res helm_error Release) :=
  match b64_decode data with
  | None => Done (Err Base64Error)
  | Some b =>
      if length data / 4 * 3 <? 3 then Panic
      else
        match (if HasPrefix b magicGzip then gunzip b else Some b) with
        | None => Done (Err GzipError)
        | Some b => Done match json_release b with Some rls => Ok rls | None => Err JsonError end
        end
  end.

(** What the environment answers during a call: the applications named in
    annotations, whether the temporary operators can be set up, the clock and the
    generated id. *)
Record env := mkEnv {
  annotated : gset gostring;
  operator1 : bool;
  operator2 : bool;
  now_ : Z;
  uuid_ : res metaerr gostring
}.

Definition get_meta asw (ns appName : gostring) (e : env) w
    : option (applicationSecretWatcher C) * world * ApplicationMeta C :=
  GetApplicationMeta asw ns appName (annotated e) (operator1 e) (now_ e) (uuid_ e) w.

(** The meta that was returned is the deck's when the deck has the application;
    what happens to it then stays in the deck. *)
Definition write_back asw (appName : gostring) (meta : ApplicationMeta C)
    : option (applicationSecretWatcher C) :=
  match asw with
  | None => None
  | Some d =>
      match OneApplicationMeta d appName with
      | Some m =>
          if bool_decide (Application m = []) then Some d
          else Some (mkWatcher (configBytes d) (asw_ns d) (<[appName := meta]> (applicationMetas d)))
      | None => Some d
      end
  end.

Definition tryDelAppFromHelmRelease (appName ns : gostring) (e : env) asw w
    : option (applicationSecretWatcher C) * world * res helm_error unit :=
  let '(asw, w, meta) := get_meta asw ns appName e w in
  if IsNotInstall meta || IsInstalling meta then (asw, w, Ok tt)
  else if negb (operator2 e) then (asw, w, Err OperatorError)
  else
    let '(meta, w, r) := AppMeta.Delete (now_ e) meta w in
    (write_back asw appName meta, w, match r with Ok _ => Ok tt | Err er => Err (MetaError er) end).

(** The closure given to [OneTimesInitial]. *)
Definition as_helm (name : gostring) (m : ApplicationMeta C) : ApplicationMeta C :=
  let '(mkMeta _ _ a3 _ a5 a6 a7 a8 a9 b1 b2 b3 b4 b5 b6 _ b8 b9) := m in
  mkMeta name name a3 AppType.HelmLocal a5 a6 a7 a8 a9 b1 b2 b3 b4 b5 b6 (Some config_migrated) b8 b9.

(** The information of a release is dereferenced without a check. *)
Definition tryNewAppFromHelmRelease (releaseStr ns : gostring) (e : env) asw w
    : outcome (option (applicationSecretWatcher C) * world * res helm_error unit) :=
  release <~ DecodeRelease releaseStr;
  match release with
  | Err er => Done (asw, w, Err er)
  | Ok release =>
      match rls_Info release with
      | None => Panic
      | Some info =>
          if bool_decide (Deleted info <> []) then Done (tryDelAppFromHelmRelease (rls_Name release) ns e asw w)
          else
            let '(asw, w, meta) := get_meta asw ns (rls_Name release) e w in
            if IsInstalled meta || IsInstalling meta then Done (asw, w, Ok tt)
            else if negb (operator2 e) then Done (asw, w, Err OperatorError)
            else
              let '(meta, w, r) := OneTimesInitial (now_ e) (uuid_ e) (as_helm (rls_Name release)) true meta w in
              Done (write_back asw (rls_Name release) meta, w,
                    match r with Ok _ => Ok tt | Err er => Err (MetaError er) end)
      end
  end.

(** ** The watcher of secrets *)

Record helmSecretWatcher := mkHelmWatcher { hws_configBytes : gostring; hws_ns : gostring }.

Definition NewHelmSecretWatcher (configBytes ns : gostring) : helmSecretWatcher :=
  mkHelmWatcher configBytes ns.

(** Errors are only logged. *)
Definition hws_join (hws : helmSecretWatcher) (secret : Secret) (e : env) asw w
    : outcome (option (applicationSecretWatcher C) * world * res helm_error unit) :=
  r <~ tryNewAppFromHelmRelease (at_ (default ∅ (Data secret)) (go "release")) (hws_ns hws) e asw w;
  Done (fst (fst r), snd (fst r), Ok tt).

Definition hws_left (hws : helmSecretWatcher) (appName : gostring) (e : env) asw w
    : option (applicationSecretWatcher C) * world * res helm_error unit :=
  let '(asw, w, _) := tryDelAppFromHelmRelease appName (hws_ns hws) e asw w in (asw, w, Ok tt).

(** [obj] is [None] when it is not a secret. *)
Definition hws_CreateOrUpdate (hws : helmSecretWatcher) (key : gostring) (obj : option Secret) (e : env) asw w
    : outcome (option (applicationSecretWatcher C) * world * res helm_error unit) :=
  match obj with
  | Some secret => hws_join hws secret e asw w
  | None => Done (asw, w, Err NotCast)
  end.

Definition hws_Delete (hws : helmSecretWatcher) (key : gostring) (e : env) asw w
    : option (applicationSecretWatcher C) * world * res helm_error unit :=
  match GetRlsNameFromKey key with
  | Err _ => (asw, w, Ok tt)
  | Ok rlsName => hws_left hws rlsName e asw w
  end.

(** ** The watcher of config maps *)

Record helmCmWatcher := mkHelmCmWatcher { hcmw_configBytes : gostring; hcmw_ns : gostring }.

Definition NewHelmCmWatcher (configBytes ns : gostring) : helmCmWatcher := mkHelmCmWatcher configBytes ns.

Definition hcmw_join (hcmw : helmCmWatcher) (data : gmap gostring gostring) (e : env) asw w
    : outcome (option (applicationSecretWatcher C) * world * res helm_error unit) :=
  r <~ tryNewAppFromHelmRelease (at_ data (go "release")) (hcmw_ns hcmw) e asw w;
  Done (fst (fst r), snd (fst r), Ok tt).

Definition hcmw_left (hcmw : helmCmWatcher) (appName : gostring) (e : env) asw w
    : option (applicationSecretWatcher C) * world * res helm_error unit :=
  let '(asw, w, _) := tryDelAppFromHelmRelease appName (hcmw_ns hcmw) e asw w in (asw, w, Ok tt).

(** [obj] is the data of the config map, [None] when it is not one. *)
Definition hcmw_CreateOrUpdate (hcmw : helmCmWatcher) (key : gostring) (obj : option (gmap gostring gostring))
    (e : env) asw w : outcome (option (applicationSecretWatcher C) * world * res helm_error unit) :=
  match obj with
  | Some configMap => hcmw_join hcmw configMap e asw w
  | None => Done (asw, w, Err NotCast)
  end.

Definition hcmw_Delete (hcmw : helmCmWatcher) (key : gostring) (e : env) asw w
    : option (applicationSecretWatcher C) * world * res helm_error unit :=
  match GetRlsNameFromKey key with
  | Err _ => (asw, w, Ok tt)
  | Ok rlsName => hcmw_left hcmw rlsName e asw w
  end.
End helm.

(** ** Names *)

Section names.

(** The key of a revision: [namespace/sh.helm.release.v1.NAME.vREVISION]. *)
Definition release_key (ns name : gostring) (revision : Z) : gostring :=
  (ns ++ slash) ++ release_prefix ++ name ++ revision_mark ++ Itoa revision.

(** An occurrence that lies inside the first part. *)
Lemma HasPrefix_inside (sep q rest : gostring) j :
  j + length sep <= length q -> HasPrefix (drop j (q ++ rest)) sep = true -> HasPrefix (drop j q) sep = true.
Proof.
  intros Hle [k Hk]%HasPrefix_spec. apply HasPrefix_spec. exists (drop (length sep) (drop j q)).
  rewrite drop_app_le in Hk by lia. apply (f_equal (take (length sep))) in Hk.
  rewrite take_app_length, take_app_le in Hk by (rewrite length_drop; lia).
  rewrite <- (take_drop (length sep) (drop j q)) at 1. by rewrite Hk.
Qed.

(** A piece that ends with a byte the separator does not have. *)
Lemma piece_ok_snoc (sep q : gostring) c :
  Index q sep = None -> c ∉ sep -> piece_ok sep (q ++ [c]).
Proof.
  intros Hq Hc. apply Index_first.
  - rewrite drop_app_length. rewrite <- (app_nil_r sep) at 1. apply HasPrefix_app.
  - rewrite !length_app. lia.
  - intros j Hj. destruct (HasPrefix (drop j ((q ++ [c]) ++ sep)) sep) eqn:E; [|done].
    rewrite length_app in Hj. cbn in Hj. rewrite <- app_assoc in E.
    destruct (decide (j + length sep <= length q)) as [Hle|Hgt].
    + apply HasPrefix_inside in E; [|done]. rewrite Index_None in Hq. by rewrite Hq in E by lia.
    + apply HasPrefix_spec in E as [k Hk]. apply (f_equal (lookup (length q - j))) in Hk.
      rewrite lookup_drop in Hk. replace (j + (length q - j)) with (length q) in Hk by lia.
      rewrite lookup_app_r, Nat.sub_diag in Hk by lia. cbn in Hk.
      rewrite lookup_app_l in Hk by lia. destruct Hc. by eapply list_elem_of_lookup_2.
Qed.

Lemma piece_ok_mark name : Index name revision_mark = None -> piece_ok revision_mark name.
Proof.
  intros Hn. apply Index_first.
  - rewrite drop_app_length. reflexivity.
  - rewrite length_app. lia.
  - intros j Hj. destruct (HasPrefix (drop j (name ++ revision_mark)) revision_mark) eqn:E; [|done].
    destruct (decide (j + 2 <= length name)) as [Hle|Hgt].
    + apply HasPrefix_inside in E; [|done]. rewrite Index_None in Hn. by rewrite Hn in E by lia.
    + apply HasPrefix_spec in E as [k Hk]. apply (f_equal (lookup 1)) in Hk.
      rewrite lookup_drop, lookup_app_r in Hk by lia. by replace (j + 1 - length name) with 0 in Hk by lia.
Qed.

Lemma Index_missing (sep s : gostring) c : c ∈ sep -> c ∉ s -> Index s sep = None.
Proof.
  intros Hc Hs. apply Index_None. intros j _. destruct (HasPrefix (drop j s) sep) eqn:E; [|done].
  apply HasPrefix_spec in E as [k Hk]. destruct Hs. apply (subseteq_drop j). rewrite Hk.
  apply elem_of_app. by left.
Qed.

Lemma Split_none s sep : sep <> [] -> Index s sep = None -> Split s sep = [s].
Proof. intros Hsep Hn. rewrite Split_eq by done. by rewrite Hn. Qed.

Lemma revision_no_mark n : Index (Itoa n) revision_mark = None.
Proof.
  apply (Index_missing _ _ "."%char); [by left|]. intros Hc%Itoa_bytes.
  change (byte_val "."%char) with 46%Z in Hc. lia.
Qed.

(** What is left of a key when everything up to the prefix is cut off. *)
Lemma key_rest ns rest :
  "."%char ∉ ns -> Index rest release_prefix = None ->
  last (Split ((ns ++ slash) ++ release_prefix ++ rest) release_prefix) = Some rest.
Proof.
  intros Hns Hrest. rewrite Split_piece; [|done|].
  - by rewrite Split_none.
  - apply piece_ok_snoc.
    + apply (Index_missing _ _ "."%char); [|done]. apply (bool_decide_eq_true_1 _). reflexivity.
    + apply (bool_decide_eq_true_1 _). reflexivity.
Qed.

Lemma release_name ns name n :
  "."%char ∉ ns -> Index name revision_mark = None ->
  Index (name ++ revision_mark ++ Itoa n) release_prefix = None ->
  GetRlsNameFromKey (release_key ns name n) = Ok name.
Proof.
  intros Hns Hname Hp. unfold GetRlsNameFromKey, release_key. rewrite key_rest by done.
  rewrite Split_piece by (done || by apply piece_ok_mark).
  by rewrite Split_none by (done || apply revision_no_mark).
Qed.

(** The name of a release is read back from the key of each of its revisions,
    when the name itself contains no [.v]; a name with one [.v] in it, which helm
    allows, is refused. *)
Theorem release_name_roundtrip ns name n :
  "."%char ∉ ns -> Index (name ++ revision_mark ++ Itoa n) release_prefix = None ->
  (Index name revision_mark = None -> GetRlsNameFromKey (release_key ns name n) = Ok name) /\
  (forall a b, name = a ++ revision_mark ++ b -> Index a revision_mark = None -> Index b revision_mark = None ->
     GetRlsNameFromKey (release_key ns name n) = Err InvalidHelmKey).
Proof.
  intros Hns Hp. split; [intros Hn; by apply release_name|].
  intros a b -> Ha Hb. unfold GetRlsNameFromKey, release_key. rewrite key_rest by done.
  rewrite <- !app_assoc. rewrite Split_piece by (done || by apply piece_ok_mark).
  rewrite Split_piece by (done || by apply piece_ok_mark).
  by rewrite Split_none by (done || apply revision_no_mark).
Qed.
End names.

(** ** Releases and applications *)

Section theorems.
Context {C : Type} `{!MapOrder gostring} `{!JsonDevMeta} `{!ReleaseCodec}.
Context `{!Xz} `{!XzLaws} `{!MetaYaml C} `{!MetaYamlLaws C} `{!Api} `{!ApiLaws}.
Implicit Types (d : applicationSecretWatcher C) (w : world) (a : ApplicationMeta C) (hws : helmSecretWatcher).

(** Looking up an application of the deck that is not uninstalled. *)
Lemma get_meta_deck d ns appName e w a :
  OneApplicationMeta d appName = Some a -> IsNotInstall a = false -> Application a <> [] ->
  get_meta (Some d) ns appName e w = (Some d, w, a).
Proof.
  intros Hd Hn Ha. unfold get_meta, GetApplicationMeta. rewrite Hd. simpl default. rewrite Hn. cbn [andb].
  rewrite bool_decide_eq_false_2 by done. do 2 f_equal. destruct d as [cb n m]. cbn. do 2 f_equal.
  unfold OneApplicationMeta in Hd. cbn in Hd. by rewrite insert_id.
Qed.

(** Deleting the secret of any one revision uninstalls the application, also
    when helm only prunes an old revision of a release that stays: the handler
    looks at the name and not at the other revisions. *)
Theorem any_revision_uninstalls hws d ns name n e a w old :
  "."%char ∉ ns -> Index name revision_mark = None ->
  Index (name ++ revision_mark ++ Itoa n) release_prefix = None ->
  OneApplicationMeta d name = Some a -> Application a = name -> ApplicationState a = INSTALLED -> name <> [] ->
  meta_ok a -> own_secret a -> in_cluster w a old -> operator2 e = true -> in_int64 (now_ e + backoff) = true ->
  exists d' w' sec a' b,
    hws_Delete hws (release_key ns name n) e (Some d) w = (Some d', w', Ok tt) /\
    OneApplicationMeta d' name = Some a' /\ ApplicationState a' = UNINSTALLED /\
    stored (cl w') (MetaNs a) (secret_key a) = Some sec /\ Decode (Some sec) = Ok b /\
    ApplicationState b = UNINSTALLED.
Proof.
  intros Hns Hname Hp Hd Happ Hst Hne Hok Hown Hin Hop Hb.
  unfold hws_Delete. rewrite release_name by done. unfold hws_left, tryDelAppFromHelmRelease.
  rewrite (get_meta_deck d _ name e w a) by (done || (unfold IsNotInstall; by rewrite Hst) || congruence).
  replace (IsNotInstall a || IsInstalling a) with false by (unfold IsNotInstall, IsInstalling; by rewrite Hst).
  rewrite Hop. cbn [negb].
  destruct (Update_in_cluster (deleted (now_ e) a) w old Hown Hin) as (w' & sec & Hu & Hh & _).
  unfold AppMeta.Delete. fold (deleted (now_ e) a). rewrite Hu. unfold write_back. rewrite Hd.
  rewrite bool_decide_eq_false_2 by congruence.
  eexists _, w', sec, _, _. split; [done|]. split; [apply lookup_insert_eq|]. split; [done|].
  split; [apply Hh|]. split; [eapply holds_Decode; [|exact Hh]; by apply deleted_ok|]. done.
Qed.

(** A release helm has deployed and whose application neither the deck nor the
    cluster has is installed: its secret is created in state installed, as a
    local helm application with the release's name. *)
Theorem release_installed hws d secret release info e id w :
  DecodeRelease (at_ (default ∅ (Data secret)) (go "release")) = Done (Ok release) ->
  rls_Info release = Some info -> Deleted info = [] ->
  OneApplicationMeta d (rls_Name release) = None -> rls_Name release ∉ annotated e ->
  rls_Name release <> [] -> "/"%char ∉ rls_Name release -> operator2 e = true -> uuid_ e = Ok id ->
  stored (cl w) (hws_ns hws) (SecretNamePrefix ++ rls_Name release) = None ->
  exists w' sec b,
    hws_CreateOrUpdate hws [] (Some secret) e (Some d) w = Done (Some d, w', Ok tt) /\
    stored (cl w') (hws_ns hws) (SecretNamePrefix ++ rls_Name release) = Some sec /\
    Decode (Some sec) = Ok b /\ ApplicationState b = INSTALLED /\ ApplicationType b = AppType.HelmLocal /\
    HelmReleaseName b = rls_Name release /\ NamespaceId b = id.
Proof.
  intros Hdec Hinfo Hdel Hdeck Hann Hne Hsl Hop Hid Hst.
  set (name := rls_Name release) in *.
  unfold hws_CreateOrUpdate, hws_join, tryNewAppFromHelmRelease. rewrite Hdec, Hinfo, Hdel.
  rewrite (bool_decide_eq_false_2 ([] <> [])) by auto. fold name.
  assert (get_meta (Some d) (hws_ns hws) name e w = (Some d, w, placeholder UNINSTALLED (hws_ns hws) name)) as ->.
  { unfold get_meta, GetApplicationMeta. rewrite Hdeck. simpl default.
    rewrite (bool_decide_eq_false_2 (name ∈ annotated e)), andb_false_r by done. cbn [andb].
    by rewrite bool_decide_eq_false_2. }
  assert (IsInstalled (placeholder (C := C) UNINSTALLED (hws_ns hws) name) = false) as -> by done.
  assert (IsInstalling (placeholder (C := C) UNINSTALLED (hws_ns hws) name) = false) as -> by done.
  cbn [orb]. rewrite Hop, Hid. cbn [negb].
  destruct (OneTimesInitial_fresh (now_ e) id (as_helm name) true (placeholder UNINSTALLED (hws_ns hws) name) w
              (mkMeta name name (hws_ns hws) AppType.HelmLocal INSTALLED [] [] [] [] [] [] [] [] 0%Z (Some ∅)
                 (Some config_migrated) (Some (fresh_secret (placeholder UNINSTALLED (hws_ns hws) name))) id))
    as (w' & sec & Hone & Hst' & Hd); [done|done| |done|done|].
  { split; [by eexists|]. split; [done|]. by split. }
  rewrite Hone. unfold write_back. rewrite Hdeck.
  eexists w', sec, _. split; [done|]. split; [exact Hst'|]. split; [exact Hd|]. done.
Qed.

(** An object labelled as helm's that has no release in it makes the handler
    panic, since the decoded bytes are sliced without a look at their length. *)
Theorem missing_release_panics hws secret e d w :
  b64_decode [] = Some [] -> default ∅ (Data secret) !! go "release" = None ->
  hws_CreateOrUpdate hws [] (Some secret) e (Some d) w = Panic.
Proof.
  intros Hb Hr. unfold hws_CreateOrUpdate, hws_join, tryNewAppFromHelmRelease, DecodeRelease, at_.
  rewrite Hr. simpl default. by rewrite Hb.
Qed.
End theorems.

(** ** Witnesses *)

Section demo.
#[local] Existing Instances demo_json demo_xz demo_xz_laws demo_meta_yaml demo_meta_yaml_laws
  demo_api demo_api_laws.

(** A codec that knows one release. *)
#[local] Instance demo_release_codec : ReleaseCodec := {|
  b64_decode := fun s => Some s;
  gunzip := fun s => Some s;
  json_release := fun s =>
    if bool_decide (s = go "shop-release")
    then Some (mkRelease (go "shop") (Some (mkInfo [] [] [] [] (go "deployed") [])) [] 1 (go "ns")) else None
|}.

Definition demo_env : env := mkEnv ∅ true true 5 (Ok (go "id")).
Definition demo_helm : helmSecretWatcher := NewHelmSecretWatcher (go "kubeconfig") (go "ns").

Lemma release_name_roundtrip_witness :
  GetRlsNameFromKey (release_key (go "ns") (go "bookinfo") 3) = Ok (go "bookinfo") /\
  GetRlsNameFromKey (release_key (go "ns") (go "shop.v2") 3) = Err InvalidHelmKey.
Proof.
  split.
  - apply (release_name_roundtrip (go "ns") (go "bookinfo") 3).
    + apply (bool_decide_eq_true_1 _). reflexivity.
    + reflexivity.
    + reflexivity.
  - destruct (release_name_roundtrip (go "ns") (go "shop.v2") 3) as [_ Hr].
    + apply (bool_decide_eq_true_1 _). reflexivity.
    + reflexivity.
    + apply (Hr (go "shop") (go "2")); reflexivity.
Defined.

(** The deck holds the application. *)
Definition installed_deck : applicationSecretWatcher gostring :=
  mkWatcher (go "kubeconfig") (go "ns") {[go "bookinfo" := demo_app]}.

Lemma any_revision_uninstalls_witness :
  exists d' w' a',
    hws_Delete demo_helm (release_key (go "ns") (go "bookinfo") 1) demo_env (Some installed_deck) stale_world
      = (Some d', w', Ok tt) /\
    OneApplicationMeta d' (go "bookinfo") = Some a' /\ ApplicationState a' = UNINSTALLED.
Proof.
  destruct (any_revision_uninstalls demo_helm installed_deck (go "ns") (go "bookinfo") 1 demo_env demo_app
              stale_world (bump read_secret 7)) as (d' & w' & sec & a' & b & Hd & Ha & Hs & _).
  - apply (bool_decide_eq_true_1 _). reflexivity.
  - reflexivity.
  - reflexivity.
  - reflexivity.
  - reflexivity.
  - reflexivity.
  - discriminate.
  - apply demo_app_ok.
  - apply demo_app_own.
  - apply demo_in_cluster.
  - reflexivity.
  - vm_compute. reflexivity.
  - exists d', w', a'. exact (conj Hd (conj Ha Hs)).
Defined.

Definition release_secret : Secret :=
  mkSecret (go "sh.helm.release.v1.shop.v1") (go "ns") (go "helm.sh/release.v1") 1
    (Some {[go "release" := go "shop-release"]}).

Lemma release_installed_witness :
  exists w' sec b,
    hws_CreateOrUpdate demo_helm [] (Some release_secret) demo_env (Some demo_watcher) empty_world
      = Done (Some demo_watcher, w', Ok tt) /\
    stored (cl w') (go "ns") (SecretNamePrefix ++ go "shop") = Some sec /\
    Decode (Some sec) = Ok b /\ ApplicationState b = INSTALLED /\ ApplicationType b = AppType.HelmLocal /\
    HelmReleaseName b = go "shop" /\ NamespaceId b = go "id".
Proof.
  apply (release_installed demo_helm demo_watcher release_secret
           (mkRelease (go "shop") (Some (mkInfo [] [] [] [] (go "deployed") [])) [] 1 (go "ns"))
           (mkInfo [] [] [] [] (go "deployed") []) demo_env (go "id") empty_world).
  - vm_compute. reflexivity.
  - reflexivity.
  - reflexivity.
  - reflexivity.
  - apply not_elem_of_empty.
  - discriminate.
  - apply (bool_decide_eq_true_1 _). reflexivity.
  - reflexivity.
  - reflexivity.
  - reflexivity.
Defined.

Lemma missing_release_panics_witness :
  hws_CreateOrUpdate demo_helm [] (Some (mkSecret (go "sh.helm.release.v1.shop.v1") (go "ns") [] 1 None)) demo_env
    (Some demo_watcher) empty_world = Panic.
Proof.
  apply (missing_release_panics demo_helm
           (mkSecret (go "sh.helm.release.v1.shop.v1") (go "ns") [] 1 None) demo_env demo_watcher empty_world);
    reflexivity.
Defined.
End demo.
