(* ===== verification/Dhcp.v ===== *)
(** * IP leases of the VPN ([internal/nhctl/vpn/remote/dhcp.go])

    Each machine that connects to the cluster's VPN rents addresses of
    223.254.254.0/24.  The leases are a text under one key of a config map, one
    line per MAC address.  [RentIP] writes that text by a JSON merge patch,
    [ReleaseIP] and [InitDHCPIfNecessary] by an update and a create.  The
    kubernetes client is reduced to the config map and to which calls fail; the
    MAC address, its MD5 sum, the choice of [PopAny] and the clock are
    parameters. *)

From stdpp Require Import sorting.
From S2P Require Import Prelude GoStrings.
#[local] Open Scope go_scope.

(** ** Text form *)

Definition Splitter : gostring := go "#".
Definition comma : gostring := go ",".
Definition newline : gostring := [Ascii.ascii_of_nat 10].

(** The two characters of the Go literal [\\n]. *)
Definition backslash_n : gostring := [Ascii.ascii_of_nat 92; "n"%char].

Abbreviation leases := (gmap gostring (gset Z)).

(** The decimal texts of a set of integers, as [sets.String.List] returns them:
    without repetition, sorted as strings. *)
Definition ip_texts (ips : gset Z) : list gostring :=
  merge_sort str_le (remove_dups (map Itoa (merge_sort Z.le (elements ips)))).

Section text.
Context `{!MapOrder gostring}.

Definition lease_line (mac : gostring) (ips : gset Z) : gostring :=
  mac ++ Splitter ++ Join (ip_texts ips) comma.

Definition ToString (m : leases) : gostring :=
  foldl (fun sb '(mac, ips) => sb ++ (lease_line mac ips ++ backslash_n)) [] (range m).

Definition parse_ips (s : gostring) : gset Z :=
  foldl (fun ints x => match Atoi x with Some i => {[i]} ∪ ints | None => ints end)
    ∅ (Split s comma).

Definition FromStringToDHCP (str : gostring) : leases :=
  foldl (fun result line =>
           match Split line Splitter with
           | [mac; ips] => <[mac := parse_ips ips]> result
           | _ => result
           end)
    ∅ (Split str newline).

(** ** Choosing an address *)

Definition used_ips (m : leases) : gset Z :=
  foldl (fun used '(_, s) => s ∪ used) ∅ (range m).

(** [for i := lo; i < lo + n; i++]. *)
Definition int_range (lo : Z) (n : nat) : list Z := map (fun k => lo + Z.of_nat k)%Z (seq 0 n).

Definition GetAvailableIPs (m : leases) : gset Z :=
  foldl (fun available i =>
           if negb (bool_decide (i ∈ used_ips m)) && negb (i =? 100)%Z
           then {[i]} ∪ available else available)
    ∅ (int_range 2 252).
End text.

(** The first four bytes, big-endian; 0 when there are fewer. *)
Definition BytesToInt (b : gostring) : Z :=
  match b with
  | b0 :: b1 :: b2 :: b3 :: _ =>
      (byte_val b0 * 16777216 + byte_val b1 * 65536 + byte_val b2 * 256 + byte_val b3)%Z
  | _ => 0%Z
  end.

(** The loop over [retry]: [v] is a [uint32]. *)
Fixpoint getIP_loop (tries : nat) (v : Z) (availableIp : gset Z) : option Z :=
  match tries with
  | 0 => None
  | S tries =>
      if bool_decide ((v mod 255)%Z ∈ availableIp) then Some (v mod 255)%Z
      else getIP_loop tries (wrap32 (v + 1)) availableIp
  end.

(** [sum]: the MD5 sum of the MAC address. *)
Definition getIP (sum : gostring) (availableIp : gset Z) : Z :=
  let v := BytesToInt sum in
  match getIP_loop 254 v availableIp with
  | Some i => i
  | None => (v mod 255)%Z
  end.

(** [PopAny]: any element of a set that is not empty. *)
Class SetPick := {
  pop_any : gset Z -> option Z;
  pop_any_in : forall s x, pop_any s = Some x -> x ∈ s;
  pop_any_none : forall s, pop_any s = None -> s = ∅
}.

(** ** The config map *)

Definition TrafficManager : gostring := go "kubevpn.traffic.manager".
Definition DHCP : gostring := go "DHCP".

(** The config map's data; [None] when it does not exist. *)
Abbreviation configmap := (option (gmap gostring gostring)).

Record cm_faults := { cm_get_fails : bool; cm_write_fails : bool }.
Definition cm_ok : cm_faults := {| cm_get_fails := false; cm_write_fails := false |}.

Inductive cm_error := CmNotFound | CmFailure | CmBadPatch.

(** The value of a JSON string from the bytes between its quotes. *)
Fixpoint json_string (s : gostring) : option gostring :=
  match s with
  | [] => Some []
  | c :: s' =>
      if (byte_val c =? 92)%Z then
        match s' with
        | "n"%char :: s' => cons (Ascii.ascii_of_nat 10) <$> json_string s'
        | "t"%char :: s' => cons (Ascii.ascii_of_nat 9) <$> json_string s'
        | "r"%char :: s' => cons (Ascii.ascii_of_nat 13) <$> json_string s'
        | "b"%char :: s' => cons (Ascii.ascii_of_nat 8) <$> json_string s'
        | "f"%char :: s' => cons (Ascii.ascii_of_nat 12) <$> json_string s'
        | "/"%char :: s' => cons "/"%char <$> json_string s'
        | d :: s' =>
            if (byte_val d =? 92)%Z || (byte_val d =? 34)%Z then cons d <$> json_string s' else None
        | [] => None
        end
      else if (byte_val c =? 34)%Z || (byte_val c <? 32)%Z then None
      else cons c <$> json_string s'
  end.

Definition cm_get (f : cm_faults) (cm : configmap) : res cm_error (gmap gostring gostring) :=
  if cm_get_fails f then Err CmFailure
  else match cm with Some d => Ok d | None => Err CmNotFound end.

(** A merge patch of one data key, given the text between the value's quotes. *)
Definition cm_patch (f : cm_faults) (cm : configmap) (key raw : gostring)
    : configmap * res cm_error unit :=
  if cm_write_fails f then (cm, Err CmFailure)
  else match cm, json_string raw with
       | None, _ => (cm, Err CmNotFound)
       | _, None => (cm, Err CmBadPatch)
       | Some d, Some v => (Some (<[key := v]> d), Ok tt)
       end.

Definition cm_update (f : cm_faults) (cm : configmap) (d : gmap gostring gostring)
    : configmap * res cm_error unit :=
  if cm_write_fails f then (cm, Err CmFailure)
  else match cm with
       | None => (cm, Err CmNotFound)
       | Some _ => (Some d, Ok tt)
       end.

Section manager.
Context `{!MapOrder gostring} `{!SetPick} (mac sum : gostring).

(** Created when it could not be read; an existing one is no error. *)
Definition InitDHCPIfNecessary (f : cm_faults) (cm : configmap) : configmap * res cm_error unit :=
  match cm_get f cm with
  | Ok _ => (cm, Ok tt)
  | Err _ =>
      if cm_write_fails f then (cm, Err CmFailure)
      else match cm with
           | Some _ => (cm, Ok tt)
           | None => (Some {[DHCP := ToString {[mac := {[100%Z]}]}]}, Ok tt)
           end
  end.

Definition data_at (d : gmap gostring gostring) (k : gostring) : gostring := default [] (d !! k).

(** The last byte of the address, of which [byte(ip)] keeps eight bits. *)
Definition RentIP (f : cm_faults) (cm : configmap) (random : bool) : configmap * res cm_error Z :=
  match cm_get f cm with
  | Err e => (cm, Err e)
  | Ok d =>
      let used := FromStringToDHCP (data_at d DHCP) in
      let ip := if random then default 0%Z (pop_any (GetAvailableIPs used))
                else getIP sum (GetAvailableIPs used) in
      let used := <[mac := {[ip]} ∪ default ∅ (used !! mac)]> used in
      match cm_patch f cm DHCP (ToString used) with
      | (cm, Err e) => (cm, Err e)
      | (cm, Ok _) => (cm, Ok (ip mod 256)%Z)
      end
  end.

Definition release (ips : list Z) (used : leases) : leases :=
  foldl (fun used ip => (fun s => s ∖ {[ip]}) <$> used) used ips.

(** Data without any key are a nil map, and assigning to it panics. *)
Definition ReleaseIP (f : cm_faults) (cm : configmap) (ips : list Z) : outcome (configmap * res cm_error unit) :=
  match cm_get f cm with
  | Err e => Done (cm, Err e)
  | Ok d =>
      let used := release ips (FromStringToDHCP (data_at d DHCP)) in
      if bool_decide (d = ∅) then Panic else Done (cm_update f cm (<[DHCP := ToString used]> d))
  end.
End manager.

(** ** The record map, MAC address to address and deadline *)

(** [time.Parse] and [Format] with the RFC 3339 layout, and [net.IP.String]. *)
Class Clock := {
  time_now : Z;
  time_parse : gostring -> option Z;
  time_format : Z -> gostring
}.

Record DHCPRecord := mkRecord {
  RecordMac : gostring;
  RecordIP : gostring;
  Deadline : Z
}.

Abbreviation DHCPRecordMap := (gmap gostring DHCPRecord).

(** Nanoseconds. *)
Definition minute : Z := 60000000000.

Section records.
Context `{!MapOrder gostring} `{!Clock}.

Definition FromStringToMac2IP (str : gostring) : DHCPRecordMap :=
  foldl (fun result s =>
           match Split s (go "#") with
           | [mac; ip; deadline] =>
               let parse := match time_parse deadline with
                            | Some t => t
                            | None => (time_now + 30 * minute)%Z
                            end in
               <[mac := mkRecord mac ip parse]> result
           | _ => result
           end)
    ∅ (Split str newline).

Definition record_line (v : DHCPRecord) : gostring :=
  Join [RecordMac v; RecordIP v; time_format (Deadline v)] Splitter.

Definition RecordsToString (maps : DHCPRecordMap) : gostring :=
  foldl (fun sb '(_, v) => sb ++ (record_line v ++ backslash_n)) [] (range maps).

Definition ToMac2IPMap (maps : DHCPRecordMap) : gmap gostring gostring :=
  foldl (fun result '(_, record) => <[RecordMac record := RecordIP record]> result) ∅ (range maps).

Definition GetIPByMac (maps : DHCPRecordMap) (mac : gostring) : gostring :=
  match maps !! mac with
  | Some record => RecordIP record
  | None => []
  end.

Definition AddMacToIPRecord (maps : DHCPRecordMap) (mac ip : gostring) : DHCPRecordMap :=
  <[mac := mkRecord mac ip (time_now + minute / 2)%Z]> maps.
End records.

(** ** Sorting numbers that are strings *)

Definition sortString (m : list gostring) : list gostring :=
  map Itoa (merge_sort Z.le
    (foldl (fun result v =>
              if 0 <? length v then
                match Atoi v with Some i => result ++ [i] | None => result end
              else result) [] m)).

Definition getValueFromMap `{!MapOrder Z} (m : gmap Z Z) : list gostring :=
  map Itoa (merge_sort Z.le (foldl (fun result '(_, v) => result ++ [v]) [] (range m))).

(** ** Texts and sets *)

Lemma ip_texts_elem ips x : x ∈ ip_texts ips <-> exists i, i ∈ ips /\ x = Itoa i.
Proof.
  unfold ip_texts. rewrite merge_sort_Permutation, elem_of_remove_dups.
  rewrite list_elem_of_In, in_map_iff. setoid_rewrite <- list_elem_of_In.
  setoid_rewrite (merge_sort_Permutation Z.le (elements ips)). setoid_rewrite elem_of_elements.
  naive_solver.
Qed.

Definition ints_ok (ips : gset Z) : Prop := set_Forall (fun i => in_int64 i = true) ips.

Lemma parse_fold_elem l acc i :
  i ∈ foldl (fun ints x => match Atoi x with Some i => {[i]} ∪ ints | None => ints end) acc l <->
  i ∈ (acc : gset Z) \/ exists x, x ∈ l /\ Atoi x = Some i.
Proof.
  revert acc. induction l as [|x l IH]; intros acc; simpl; [set_solver|].
  rewrite IH. setoid_rewrite elem_of_cons. destruct (Atoi x) as [j|] eqn:E.
  - rewrite elem_of_union, elem_of_singleton. naive_solver.
  - naive_solver.
Qed.

Lemma comma_not_in_texts ips : Forall (fun p => ","%char ∉ p) (ip_texts ips).
Proof.
  apply Forall_forall. intros x (i & _ & ->)%ip_texts_elem Hc.
  apply Itoa_bytes in Hc. vm_compute in Hc. destruct Hc as [|[]]; done.
Qed.

Lemma parse_ips_texts ips : ints_ok ips -> parse_ips (Join (ip_texts ips) comma) = ips.
Proof.
  intros Hok. apply set_eq. intros i. unfold parse_ips.
  destruct (ip_texts ips) as [|t l] eqn:E.
  - assert (ips = ∅) as ->; [|vm_compute; naive_solver].
    apply set_eq. intros j. split; [|set_solver]. intros Hj.
    assert (Itoa j ∈ ip_texts ips) as Hin by (apply ip_texts_elem; eauto).
    rewrite E in Hin. set_solver.
  - rewrite <- E. unfold comma. rewrite (Split_Join_single ","%char).
    + rewrite parse_fold_elem. setoid_rewrite ip_texts_elem. split.
      * intros [Hi|(x & (j & Hj & ->) & Hx)]; [set_solver|].
        rewrite Atoi_Itoa in Hx by (by apply Hok). by simplify_eq.
      * intros Hi. right. exists (Itoa i). split; [by eexists|]. apply Atoi_Itoa. by apply Hok.
    + by rewrite E.
    + apply comma_not_in_texts.
Qed.

(** ** Lines *)

(** A byte a JSON string holds as it is. *)
Definition json_plain (c : ascii) : bool :=
  (32 <=? byte_val c)%Z && negb (byte_val c =? 34)%Z && negb (byte_val c =? 92)%Z.

Lemma json_string_plain a r :
  Forall (fun c => json_plain c = true) a -> json_string (a ++ r) = app a <$> json_string r.
Proof.
  induction 1 as [|c a Hc Ha IH]; simpl; [by destruct (json_string r)|].
  unfold json_plain in Hc. rewrite IH.
  destruct (Z.eqb_spec (byte_val c) 92), (Z.eqb_spec (byte_val c) 34), (Z.ltb_spec (byte_val c) 32);
    simpl; try lia. by destruct (json_string r).
Qed.

Lemma json_string_newline r : json_string (backslash_n ++ r) = app newline <$> json_string r.
Proof. done. Qed.

(** The text of some lines, each ended by [e]. *)
Definition lines (e : gostring) (l : list gostring) : gostring := l ≫= fun x => x ++ e.

Lemma json_string_lines l :
  Forall (Forall (fun c => json_plain c = true)) l ->
  json_string (lines backslash_n l) = Some (lines newline l).
Proof.
  induction 1 as [|x l Hx Hl IH]; [done|]. unfold lines. rewrite !bind_cons. fold (lines backslash_n l).
  rewrite <- app_assoc, json_string_plain, json_string_newline, IH by done. simpl.
  by rewrite <- app_assoc.
Qed.

Lemma plain_no_newline x : Forall (fun c => json_plain c = true) x -> Ascii.ascii_of_nat 10 ∉ x.
Proof. rewrite Forall_forall. intros Hx Hin. by apply Hx in Hin. Qed.

Lemma Split_lines l :
  Forall (Forall (fun c => json_plain c = true)) l -> Split (lines newline l) newline = l ++ [[]].
Proof.
  induction 1 as [|x l Hx Hl IH]; [done|]. unfold lines. rewrite bind_cons. fold (lines newline l).
  rewrite <- app_assoc, Split_piece, IH; [done|done|]. by apply piece_ok_single, plain_no_newline.
Qed.

Lemma Itoa_plain i : Forall (fun c => json_plain c = true) (Itoa i).
Proof. apply Forall_forall. intros c Hc%Itoa_bytes. unfold json_plain. lia. Qed.

Lemma Join_Forall (P : ascii -> Prop) l sep :
  Forall P sep -> Forall (Forall P) l -> Forall P (Join l sep).
Proof.
  intros Hs. induction 1 as [|x l Hx Hl IH]; [constructor|].
  destruct l as [|y l]; [by simpl|]. rewrite Join_cons by done.
  apply Forall_app. split; [done|]. by apply Forall_app.
Qed.

Definition mac_ok (mac : gostring) : Prop :=
  Forall (fun c => json_plain c = true) mac /\ "#"%char ∉ mac.

Lemma texts_plain ips : Forall (fun c => json_plain c = true) (Join (ip_texts ips) comma).
Proof.
  apply Join_Forall; [by repeat constructor|]. apply Forall_forall.
  intros x (i & _ & ->)%ip_texts_elem. apply Itoa_plain.
Qed.

Lemma texts_no_sharp ips : "#"%char ∉ Join (ip_texts ips) comma.
Proof.
  assert (Forall (fun c => c <> "#"%char) (Join (ip_texts ips) comma)) as HF.
  { apply Join_Forall; [by repeat constructor|]. apply Forall_forall.
    intros x (i & _ & ->)%ip_texts_elem. apply Forall_forall. intros c Hc%Itoa_bytes ->.
    vm_compute in Hc. destruct Hc as [|[]]; done. }
  rewrite Forall_forall in HF. intros Hin. by apply HF in Hin.
Qed.

Lemma lease_line_plain mac ips : mac_ok mac -> Forall (fun c => json_plain c = true) (lease_line mac ips).
Proof.
  intros [Hm _]. unfold lease_line. apply Forall_app. split; [done|].
  apply Forall_app. split; [by repeat constructor|apply texts_plain].
Qed.

Lemma Split_lease_line mac ips :
  mac_ok mac -> Split (lease_line mac ips) Splitter = [mac; Join (ip_texts ips) comma].
Proof.
  intros [_ Hm]. unfold lease_line. change Splitter with ["#"%char]. rewrite Split_piece by (done || by apply piece_ok_single).
  f_equal. rewrite Split_eq by done. by rewrite (proj2 (Index_single_None _ _) (texts_no_sharp ips)).
Qed.

(** ** Leases *)

Definition leases_ok (m : leases) : Prop := map_Forall (fun mac ips => mac_ok mac /\ ints_ok ips) m.

Section leases.
Context `{!MapOrder gostring}.

Lemma ToString_lines m :
  ToString m = lines backslash_n ((fun '(mac, ips) => lease_line mac ips) <$> range m).
Proof.
  unfold lines. rewrite <- (app_nil_l (_ ≫= _)), <- foldl_app_bind, foldl_fmap. unfold ToString.
  apply foldl_ext'. by intros r [mac ips].
Qed.

Lemma leases_lines_plain m :
  leases_ok m ->
  Forall (Forall (fun c => json_plain c = true)) ((fun '(mac, ips) => lease_line mac ips) <$> range m).
Proof.
  intros Hok. apply Forall_fmap, Forall_forall. intros [mac ips] Hin%elem_of_range.
  apply lease_line_plain. by apply (Hok mac ips).
Qed.

Lemma json_ToString m :
  leases_ok m ->
  json_string (ToString m) = Some (lines newline ((fun '(mac, ips) => lease_line mac ips) <$> range m)).
Proof. intros Hok. rewrite ToString_lines. by apply json_string_lines, leases_lines_plain. Qed.

Lemma FromString_lines m :
  leases_ok m ->
  FromStringToDHCP (lines newline ((fun '(mac, ips) => lease_line mac ips) <$> range m)) = m.
Proof.
  intros Hok. unfold FromStringToDHCP. rewrite Split_lines by (by apply leases_lines_plain).
  rewrite foldl_app. simpl. rewrite foldl_fmap. rewrite <- (foldl_insert_range m) at 2.
  assert (Forall (fun kv => mac_ok (fst kv) /\ ints_ok (snd kv)) (range m)) as HF.
  { apply Forall_forall. intros [mac ips] Hin%elem_of_range. by apply (Hok mac ips). }
  generalize (∅ : leases) as acc. induction HF as [|[mac ips] l [Hmac Hips] HF IH]; intros acc; [done|].
  cbn [foldl compose]. rewrite Split_lease_line, parse_ips_texts by done. apply IH.
Qed.
End leases.

(** ** The text read without the JSON step *)

Section literal.
Context `{!MapOrder gostring}.

Lemma Split_sharps (x : gostring) (l : list (gostring * gostring)) :
  "#"%char ∉ x -> Forall (fun ab => "#"%char ∉ fst ab /\ "#"%char ∉ snd ab) l ->
  length (Split (x ++ (l ≫= fun '(a, b) => a ++ Splitter ++ b)) Splitter) = S (length l).
Proof.
  intros Hx HF. revert x Hx. induction HF as [|[a b] l [Ha Hb] HF IH]; intros x Hx.
  - change Splitter with ["#"%char]. simpl. rewrite app_nil_r, Split_eq by done.
    by rewrite (proj2 (Index_single_None _ _) Hx).
  - rewrite bind_cons. simpl fst in *. simpl snd in *.
    replace (x ++ (a ++ Splitter ++ b) ++ (l ≫= fun '(a, b) => a ++ Splitter ++ b))
      with ((x ++ a) ++ Splitter ++ (b ++ (l ≫= fun '(a, b) => a ++ Splitter ++ b)))
      by (by rewrite <- !app_assoc).
    change Splitter with ["#"%char] at 1 3.
    rewrite Split_piece; [|done|apply piece_ok_single; set_solver].
    cbn [length]. f_equal. by apply IH.
Qed.

Lemma length_range {V} (m : gmap gostring V) : length (range m) = size m.
Proof. by rewrite range_perm, length_map_to_list. Qed.

Lemma ToString_no_newline m : leases_ok m -> Ascii.ascii_of_nat 10 ∉ ToString m.
Proof.
  intros Hok. rewrite ToString_lines. unfold lines. rewrite list_elem_of_bind. intros (x & Hin & Hx).
  pose proof (leases_lines_plain m Hok) as HF. rewrite Forall_forall in HF. specialize (HF x Hx).
  apply elem_of_app in Hin as [Hin|Hin]; [by eapply plain_no_newline|].
  revert Hin. by apply (bool_decide_eq_true_1 _).
Qed.

(** With two or more machines nothing of the literal text is recognised. *)
Lemma FromString_literal m : leases_ok m -> 2 <= size m -> FromStringToDHCP (ToString m) = ∅.
Proof.
  intros Hok Hsz. unfold FromStringToDHCP. change newline with [Ascii.ascii_of_nat 10].
  rewrite Split_eq by done. rewrite (proj2 (Index_single_None _ _) (ToString_no_newline m Hok)). simpl.
  assert (length (Split (ToString m) Splitter) = S (size m)) as Hlen.
  { set (l := (fun '(mac, ips) => (mac, Join (ip_texts ips) comma ++ backslash_n)) <$> range m).
    assert (ToString m = [] ++ (l ≫= fun '(a, b) => a ++ Splitter ++ b)) as ->.
    { rewrite ToString_lines. unfold lines, l. rewrite !list_fmap_bind.
      apply list_bind_ext; [|done]. intros [mac ips]. unfold lease_line. simpl. by rewrite <- !app_assoc. }
    rewrite Split_sharps; [|set_solver|].
    - unfold l. by rewrite length_fmap, length_range.
    - apply Forall_fmap, Forall_forall. intros [mac ips] Hin%elem_of_range. simpl.
      split; [by apply (Hok mac ips)|]. apply not_elem_of_app. split; [apply texts_no_sharp|].
      by apply (bool_decide_eq_true_1 _). }
  destruct (Split (ToString m) Splitter) as [|? [|? [|? ?]]]; simpl in Hlen; try done; lia.
Qed.
End literal.

(** ** Addresses *)

Section addresses.
Context `{!MapOrder gostring}.

Lemma used_ips_elem m i : i ∈ used_ips m <-> exists mac s, m !! mac = Some s /\ i ∈ s.
Proof.
  unfold used_ips.
  transitivity (exists mac s, (mac, s) ∈ range m /\ i ∈ s).
  2:{ by setoid_rewrite elem_of_range. }
  induction (range m) as [|[mac s] l IH] using rev_ind; [simpl; set_solver|].
  rewrite foldl_app; simpl. rewrite elem_of_union, IH. set_solver.
Qed.

Lemma int_range_elem lo n i : i ∈ int_range lo n <-> (lo <= i < lo + Z.of_nat n)%Z.
Proof.
  unfold int_range. rewrite list_elem_of_In, in_map_iff. setoid_rewrite in_seq. split.
  - intros (k & <- & Hk). lia.
  - intros Hi. exists (Z.to_nat (i - lo)). lia.
Qed.

(** The addresses offered: from 2 to 253, not 100, and not rented. *)
Lemma GetAvailableIPs_elem m i :
  i ∈ GetAvailableIPs m <->
  (2 <= i < 254)%Z /\ i <> 100%Z /\ forall mac s, m !! mac = Some s -> i ∉ s.
Proof.
  unfold GetAvailableIPs.
  transitivity (i ∈ int_range 2 252 /\ i ∉ used_ips m /\ i <> 100%Z).
  - induction (int_range 2 252) as [|j l IH] using rev_ind; [simpl; set_solver|].
    rewrite foldl_app, elem_of_app, list_elem_of_singleton; simpl.
    destruct (bool_decide_reflect (j ∈ used_ips m)) as [Hu|Hu], (Z.eqb_spec j 100) as [E|E]; simpl;
      rewrite ?elem_of_union, ?elem_of_singleton, IH; naive_solver.
  - rewrite int_range_elem, used_ips_elem. split; intros H'; repeat split; try lia; naive_solver.
Qed.

Lemma getIP_loop_in tries v avail i : getIP_loop tries v avail = Some i -> i ∈ avail.
Proof.
  revert v. induction tries as [|n IH]; intros v; simpl; [done|]. case_bool_decide; [|apply IH].
  by intros [= <-].
Qed.

(** As long as the counter does not wrap, the loop tries consecutive residues. *)
Lemma getIP_loop_finds tries v avail k :
  (0 <= v)%Z -> (v + Z.of_nat tries <= 4294967296)%Z -> k < tries ->
  ((v + Z.of_nat k) mod 255)%Z ∈ avail -> is_Some (getIP_loop tries v avail).
Proof.
  revert v k. induction tries as [|n IH]; intros v k Hv Hw Hk Hin; [lia|]. simpl.
  case_bool_decide as E; [by eexists|]. destruct k as [|k].
  - destruct E. by rewrite Z.add_0_r in Hin.
  - destruct n as [|n]; [lia|].
    assert (wrap32 (v + 1) = (v + 1)%Z) as -> by (unfold wrap32; apply Z.mod_small; lia).
    apply (IH _ k); [lia|lia|lia|]. by replace (v + 1 + Z.of_nat k)%Z with (v + Z.of_nat (S k))%Z by lia.
Qed.

Lemma getIP_loop_misses tries v avail :
  (0 <= v)%Z -> (v + Z.of_nat tries <= 4294967296)%Z ->
  (forall k, k < tries -> ((v + Z.of_nat k) mod 255)%Z ∉ avail) -> getIP_loop tries v avail = None.
Proof.
  revert v. induction tries as [|n IH]; intros v Hv Hw Hno; [done|]. simpl.
  rewrite bool_decide_eq_false_2 by (rewrite <- (Z.add_0_r v); apply (Hno 0); lia).
  destruct n as [|n]; [done|].
  assert (wrap32 (v + 1) = (v + 1)%Z) as -> by (unfold wrap32; apply Z.mod_small; lia).
  apply IH; [lia|lia|]. intros k Hk.
  replace (v + 1 + Z.of_nat k)%Z with (v + Z.of_nat (S k))%Z by lia. apply Hno. lia.
Qed.

Lemma BytesToInt_nonneg b : (0 <= BytesToInt b)%Z.
Proof.
  unfold BytesToInt. repeat case_match; try done.
  pose proof (byte_val_range a). pose proof (byte_val_range a0).
  pose proof (byte_val_range a1). pose proof (byte_val_range a2). lia.
Qed.
End addresses.

(** ** Releasing *)

Lemma release_lookup ips used mac :
  release ips used !! mac = (fun s => s ∖ list_to_set ips) <$> used !! mac.
Proof.
  unfold release. revert used. induction ips as [|i ips IH]; intros used; cbn [foldl].
  - destruct (used !! mac) as [s|]; simpl; [f_equal; set_solver|done].
  - rewrite IH, lookup_fmap. destruct (used !! mac) as [s|]; simpl; [f_equal; set_solver|done].
Qed.

Lemma release_size ips used : size (release ips used) = size used.
Proof.
  rewrite <- !size_dom. f_equal. apply set_eq. intros mac. rewrite !elem_of_dom, release_lookup.
  by rewrite fmap_is_Some.
Qed.

Lemma release_ok ips used : leases_ok used -> leases_ok (release ips used).
Proof.
  intros Hok mac s. rewrite release_lookup. intros (s0 & Hs0 & ->)%fmap_Some.
  destruct (Hok _ _ Hs0) as [Hm Hi]. split; [done|]. intros i Hin. apply Hi. set_solver.
Qed.

Lemma leases_ok_rent used mac ip :
  leases_ok used -> mac_ok mac -> (0 <= ip < 255)%Z ->
  leases_ok (<[mac := {[ip]} ∪ default ∅ (used !! mac)]> used).
Proof.
  intros Hok Hmac Hr. apply map_Forall_insert_2; [|done]. split; [done|]. intros i.
  rewrite elem_of_union, elem_of_singleton. intros [->|Hi].
  - unfold in_int64, int64_min, int64_max. lia.
  - destruct (used !! mac) as [s|] eqn:Es; simpl in Hi; [by apply (Hok mac s)|set_solver].
Qed.

(** No address is rented by two machines. *)
Definition exclusive (m : leases) : Prop :=
  forall mac1 mac2 s1 s2 i, m !! mac1 = Some s1 -> m !! mac2 = Some s2 -> i ∈ s1 -> i ∈ s2 -> mac1 = mac2.

(** ** Theorems *)

Section theorems.
Context `{!MapOrder gostring} `{!SetPick} (mac sum : gostring).

(** the text of the leases, written through a JSON patch, reads back as the
    same leases, whatever order the maps are walked in. *)
Theorem leases_patch_roundtrip m :
  leases_ok m -> exists s, json_string (ToString m) = Some s /\ FromStringToDHCP s = m.
Proof. intros Hok. eexists. split; [by apply json_ToString|by apply FromString_lines]. Qed.

(** the address derived from the MAC address is a free one whenever some
    free address is not the single residue the 254 attempts leave out. *)
Theorem getIP_finds_free avail x :
  (BytesToInt sum + 254 <= 4294967296)%Z -> x ∈ avail -> (0 <= x < 255)%Z ->
  x <> ((BytesToInt sum + 254) mod 255)%Z -> getIP sum avail ∈ avail.
Proof.
  intros Hv Hx Hr Hne. unfold getIP. pose proof (BytesToInt_nonneg sum) as Hpos.
  set (v := BytesToInt sum) in *. set (k := ((x - v) mod 255)%Z).
  assert (((v + k) mod 255 = x)%Z) as Hk.
  { unfold k. rewrite Z.add_mod_idemp_r by lia. replace (v + (x - v))%Z with x by lia. apply Z.mod_small. lia. }
  assert (0 <= k < 255)%Z as Hk255 by (apply Z.mod_pos_bound; lia).
  assert (k <> 254)%Z by congruence.
  destruct (getIP_loop_finds 254 v avail (Z.to_nat k)) as [i Hi]; [lia|lia|lia| |].
  - rewrite Z2Nat.id by lia. by rewrite Hk.
  - rewrite Hi. by eapply getIP_loop_in.
Qed.

(** An address that can be rented. *)
Definition free (used : leases) (i : Z) : Prop :=
  (2 <= i <= 253)%Z /\ i <> 100%Z /\ forall m s, used !! m = Some s -> i ∉ s.

Lemma available_free used i : i ∈ GetAvailableIPs used <-> free used i.
Proof. rewrite GetAvailableIPs_elem. unfold free. intuition lia. Qed.

(** C36: [RentIP] succeeds when an address is free - from 2 to 253, not the reserved
    100, and rented by no machine - and, when it derives the address from the MAC
    address, another than the single residue its 254 tries leave out, the number
    derived being none of the last 253 of 32 bits.  The address it gives is then free
    in this sense; the config map reads back as the leases with that one added; and if
    no address was rented by two machines before, none is.  The leases on record are
    ones this code can read, and the requests to the cluster succeed. *)
Theorem rent_fresh_address (d : gmap gostring gostring) (random : bool) (used : leases) x :
  FromStringToDHCP (data_at d DHCP) = used -> leases_ok used -> mac_ok mac -> free used x ->
  (random = false -> (BytesToInt sum + 254 <= 4294967296)%Z /\ x <> ((BytesToInt sum + 254) mod 255)%Z) ->
  exists d' ip, RentIP mac sum cm_ok (Some d) random = (Some d', Ok ip) /\ free used ip /\
    FromStringToDHCP (data_at d' DHCP) = <[mac := {[ip]} ∪ default ∅ (used !! mac)]> used /\
    (exclusive used -> exclusive (FromStringToDHCP (data_at d' DHCP))).
Proof.
  intros Hu Hok Hmac Hx Hav. unfold RentIP, cm_get. cbn [cm_get_fails cm_ok]. cbv iota zeta. rewrite Hu. clear Hu.
  match goal with |- context [if random then ?x else ?y] => set (ip := if random then x else y) end.
  assert (ip ∈ GetAvailableIPs used) as Hip.
  { unfold ip. pose proof Hx as Hx'. apply available_free in Hx'. destruct random.
    - destruct (pop_any _) eqn:E; simpl; [by apply pop_any_in in E|]. apply pop_any_none in E. by rewrite E in Hx'.
    - destruct Hav as [Hv Hne]; [done|]. apply (getIP_finds_free _ x); [done|done| |done]. destruct Hx. lia. }
  apply available_free in Hip. pose proof Hip as (Hr & _ & Hfree).
  set (used' := <[mac := _]> used).
  assert (leases_ok used') as Hok' by (apply leases_ok_rent; done || lia).
  unfold cm_patch. simpl. rewrite json_ToString by done.
  eexists _, ip. split; [f_equal; f_equal; apply Z.mod_small; lia|]. split; [done|].
  assert (forall v : gostring, data_at (<[DHCP := v]> d) DHCP = v) as Hat.
  { intros v. unfold data_at. by rewrite lookup_insert_eq. }
  rewrite Hat, FromString_lines by done. split; [done|]. intros Hex.
  intros m1 m2 s1 s2 i. unfold used'. rewrite !lookup_insert.
  repeat case_decide; subst; try done; intros Hl1 Hl2 Hi1 Hi2; simplify_eq.
  - apply elem_of_union in Hi1 as [Hi1|Hi1]; [apply elem_of_singleton in Hi1 as ->; by apply Hfree in Hl2|].
    destruct (used !! m1) eqn:E; simpl in Hi1; [by eapply Hex|set_solver].
  - apply elem_of_union in Hi2 as [Hi2|Hi2]; [apply elem_of_singleton in Hi2 as ->; by apply Hfree in Hl1|].
    destruct (used !! m2) eqn:E; simpl in Hi2; [by eapply Hex|set_solver].
  - by eapply Hex.
Qed.

(** The last address the comment promises is never offered. *)
Theorem last_address_not_offered m : 254%Z ∉ GetAvailableIPs m.
Proof. intros [[_ Hi] _]%available_free. lia. Qed.

(** when the only free address is the residue left out, the derived address
    is not a free one, and [RentIP] rents it all the same. *)
Theorem getIP_misses_free avail :
  (BytesToInt sum + 254 <= 4294967296)%Z -> avail = {[((BytesToInt sum + 254) mod 255)%Z]} ->
  getIP sum avail ∉ avail.
Proof.
  intros Hv ->. unfold getIP. pose proof (BytesToInt_nonneg sum) as Hpos.
  set (v := BytesToInt sum) in *.
  assert (forall k, k < 254 -> ((v + Z.of_nat k) mod 255)%Z ∉ ({[((v + 254) mod 255)%Z]} : gset Z)) as Hno.
  { intros k Hk. rewrite elem_of_singleton. Z.to_euclidean_division_equations. lia. }
  rewrite getIP_loop_misses by (done || lia).
  rewrite <- (Z.add_0_r v) at 1. apply (Hno 0). lia.
Qed.

(** when no address is free, [RentIP] still succeeds and rents one: the
    network address 0 when it chooses at random, else one that is not free. *)
Theorem rent_when_exhausted (d : gmap gostring gostring) (random : bool) (used : leases) :
  FromStringToDHCP (data_at d DHCP) = used ->
  leases_ok used -> mac_ok mac -> GetAvailableIPs used = ∅ ->
  exists d' ip, RentIP mac sum cm_ok (Some d) random = (Some d', Ok ip) /\
    (random = true -> ip = 0%Z) /\ ip ∉ GetAvailableIPs used.
Proof.
  intros Hu Hok Hmac Hav. unfold RentIP, cm_get. cbn [cm_get_fails cm_ok]. cbv iota zeta. rewrite Hu, Hav.
  match goal with |- context [if random then ?x else ?y] => set (ip := if random then x else y) end.
  assert ((random = true -> ip = 0%Z) /\ (0 <= ip < 255)%Z) as [Hz Hr].
  { unfold ip. destruct random.
    - destruct (pop_any ∅) eqn:E; [by apply pop_any_in in E|]. done.
    - split; [done|]. unfold getIP. destruct (getIP_loop _ _ _) eqn:E; [by apply getIP_loop_in in E|].
      apply Z.mod_pos_bound. lia. }
  set (used' := <[mac := _]> used).
  assert (leases_ok used') as Hok' by (apply leases_ok_rent; done || lia).
  unfold cm_patch. simpl. rewrite json_ToString by done.
  eexists _, ip. split; [f_equal; f_equal; apply Z.mod_small; lia|]. split; [done|]. rewrite ?Hav. apply not_elem_of_empty.
Qed.

(** [ReleaseIP] stores the text without the JSON step that turns its [\\n]
    into line ends: with two or more machines, every lease is forgotten, those
    of the other machines too, and their addresses are offered again. *)
Theorem release_forgets_leases d ips used :
  FromStringToDHCP (data_at d DHCP) = used ->
  leases_ok used -> 2 <= size used ->
  exists d', ReleaseIP cm_ok (Some d) ips = Done (Some d', Ok tt) /\
    FromStringToDHCP (data_at d' DHCP) = ∅ /\
    forall i, (2 <= i < 254)%Z -> i <> 100%Z -> i ∈ GetAvailableIPs (FromStringToDHCP (data_at d' DHCP)).
Proof.
  intros Hu Hok Hsz. unfold ReleaseIP. simpl. rewrite Hu, bool_decide_eq_false_2.
  2:{ intros ->. rewrite <- Hu in Hsz. vm_compute in Hsz. lia. }
  eexists. split; [done|].
  assert (FromStringToDHCP (data_at (<[DHCP := ToString (release ips used)]> d) DHCP) = ∅) as ->.
  { unfold data_at. rewrite lookup_insert_eq. simpl.
    apply FromString_literal; [by apply release_ok|by rewrite release_size]. }
  split; [done|]. intros i Hi Hne. apply GetAvailableIPs_elem. split; [done|]. split; [done|].
  intros m s. by rewrite lookup_empty.
Qed.
End theorems.

(** ** Witnesses *)

#[export] Instance ints_ok_dec ips : Decision (ints_ok ips).
Proof. unfold ints_ok. apply _. Defined.

#[export] Instance mac_ok_dec mac : Decision (mac_ok mac).
Proof. unfold mac_ok. apply _. Defined.

#[export] Instance leases_ok_dec m : Decision (leases_ok m).
Proof. unfold leases_ok. apply _. Defined.

Definition demo_pick : SetPick.
Proof.
  refine {| pop_any := fun s => head (elements s) |}.
  - intros s x Hx. apply elem_of_elements. destruct (elements s); simplify_eq/=. set_solver.
  - intros s Hs. apply leibniz_equiv, elements_empty_inv. by destruct (elements s).
Defined.

#[local] Existing Instance demo_pick.

Definition mac_a : gostring := go "02:42:ac:11:00:02".
Definition mac_b : gostring := go "02:42:ac:11:00:03".
Definition demo_leases : leases := {[mac_a := {[100%Z; 5%Z]}; mac_b := {[7%Z]}]}.
Definition demo_data (m : leases) : gmap gostring gostring :=
  {[DHCP := default [] (json_string (ToString m))]}.

Lemma demo_data_leases m : leases_ok m -> FromStringToDHCP (data_at (demo_data m) DHCP) = m.
Proof.
  intros Hok. unfold demo_data, data_at. rewrite lookup_singleton_eq, json_ToString by done.
  by apply FromString_lines.
Qed.

Lemma demo_leases_ok : leases_ok demo_leases.
Proof. apply (bool_decide_eq_true_1 _). vm_compute. reflexivity. Qed.

(** Sums whose first four bytes are 0, 0, 0 and the given one. *)
Definition sum_of (n : nat) : gostring := map Ascii.ascii_of_nat [0; 0; 0; n].

Lemma demo_exclusive : exclusive demo_leases.
Proof.
  intros m1 m2 s1 s2 i. unfold demo_leases. rewrite !lookup_insert, !lookup_singleton.
  repeat case_decide; subst; intros; simplify_eq; try done; set_solver.
Qed.

Lemma leases_patch_roundtrip_witness :
  exists s, json_string (ToString demo_leases) = Some s /\ FromStringToDHCP s = demo_leases.
Proof. apply (leases_patch_roundtrip demo_leases). apply demo_leases_ok. Defined.

Lemma rent_fresh_address_witness :
  exists d' ip, RentIP mac_b (sum_of 9) cm_ok (Some (demo_data demo_leases)) false = (Some d', Ok ip) /\
    free demo_leases ip /\ exclusive (FromStringToDHCP (data_at d' DHCP)).
Proof.
  destruct (rent_fresh_address mac_b (sum_of 9) (demo_data demo_leases) false demo_leases 9) as (d' & ip & H1 & H2 & _ & H3).
  - apply demo_data_leases, demo_leases_ok.
  - apply demo_leases_ok.
  - apply (bool_decide_eq_true_1 _). vm_compute. reflexivity.
  - apply available_free. apply (bool_decide_eq_true_1 _). vm_compute. reflexivity.
  - intros _. vm_compute. split; discriminate.
  - exists d', ip. split; [exact H1|]. split; [exact H2|]. apply H3, demo_exclusive.
Defined.

Lemma getIP_finds_free_witness : getIP (sum_of 4) {[77%Z]} ∈ ({[77%Z]} : gset Z).
Proof.
  apply (getIP_finds_free (sum_of 4) {[77%Z]} 77).
  - vm_compute. discriminate.
  - set_solver.
  - lia.
  - vm_compute. discriminate.
Defined.

Lemma getIP_misses_free_witness : getIP (sum_of 4) {[3%Z]} ∉ ({[3%Z]} : gset Z).
Proof.
  apply (getIP_misses_free (sum_of 4) {[3%Z]}).
  - vm_compute. discriminate.
  - vm_compute. reflexivity.
Defined.

(** One machine holds every address. *)
Definition full_leases : leases := {[mac_a := list_to_set (int_range 2 252)]}.

Lemma full_leases_ok : leases_ok full_leases.
Proof. apply (bool_decide_eq_true_1 _). vm_compute. reflexivity. Qed.

Lemma rent_when_exhausted_witness :
  exists d' ip, RentIP mac_b (sum_of 4) cm_ok (Some (demo_data full_leases)) true = (Some d', Ok ip) /\
    (true = true -> ip = 0%Z) /\ ip ∉ GetAvailableIPs full_leases.
Proof.
  apply (rent_when_exhausted mac_b (sum_of 4) (demo_data full_leases) true full_leases).
  - apply demo_data_leases, full_leases_ok.
  - apply full_leases_ok.
  - apply (bool_decide_eq_true_1 _). vm_compute. reflexivity.
  - apply (bool_decide_eq_true_1 _). vm_compute. reflexivity.
Defined.

Lemma release_forgets_leases_witness :
  exists d', ReleaseIP cm_ok (Some (demo_data demo_leases)) [5%Z] = Done (Some d', Ok tt) /\
    FromStringToDHCP (data_at d' DHCP) = ∅ /\
    forall i, (2 <= i < 254)%Z -> i <> 100%Z -> i ∈ GetAvailableIPs (FromStringToDHCP (data_at d' DHCP)).
Proof.
  apply (release_forgets_leases (demo_data demo_leases) [5%Z] demo_leases).
  - apply demo_data_leases, demo_leases_ok.
  - apply demo_leases_ok.
  - vm_compute. lia.
Defined.
