(* ===== verification/VpnStatus.v ===== *)
(** * The VPN's shared status ([daemon_handler/set.go], [vpnstatushandler.go])

    Which machine is connected to a namespace, and which workloads each machine
    redirects to itself ("reverses"), are texts in the config map the DHCP leases
    are in.  Here are the sets of resources with their health, the two texts with
    their readers and writers, and the operations of [vpnhandler.go] that read,
    change and patch them. *)

From stdpp Require Import sorting.
From S2P Require Import Prelude GoStrings Dhcp.
#[local] Open Scope go_scope.

(** ** Sets of resources ([set.go]) *)

(** A string type; [NoHealth] is the empty string, its zero value. *)
Inductive HealthEnum := NoHealth | Unknown | UnHealthy | Healthy.

Record resourceInfo := mkInfo {
  info_string : gostring;
  Health : HealthEnum
}.

Abbreviation Set_ := (gmap gostring resourceInfo).

Definition Insert (s : Set_) (items : list resourceInfo) : Set_ :=
  foldl (fun s item => <[info_string item := item]> s) s items.

Definition InsertByKeys (s : Set_) (items : list gostring) : Set_ :=
  foldl (fun s item => <[item := mkInfo item UnHealthy]> s) s items.

Definition NewSet (items : list resourceInfo) : Set_ := Insert ∅ items.

Definition NewSetByKeys (items : list gostring) : Set_ := InsertByKeys ∅ items.

Definition Delete (s : Set_) (items : list resourceInfo) : Set_ :=
  foldl (fun s item => delete (info_string item) s) s items.

Definition DeleteByKeys (s : Set_) (items : list gostring) : Set_ :=
  foldl (fun s item => delete item s) s items.

Definition HasKey (s : Set_) (item : gostring) : bool := bool_decide (is_Some (s !! item)).

Definition Get (s : Set_) (item : gostring) : resourceInfo :=
  match s !! item with
  | Some k => k
  | None => mkInfo item Unknown
  end.

Definition KeySet `{!MapOrder gostring} (s : Set_) : list gostring := (range s).*1.

Definition Len (s : Set_) : nat := size s.

(** ** The reversed resources *)

(** MAC address to resources. *)
Abbreviation ReverseTotal := (gmap gostring Set_).

Record ReverseRecord := mkReverse {
  MacAddress : gostring;
  Resources : gset gostring
}.

Definition NewReverseRecordWithWorkloads (mac workloads : gostring) : ReverseRecord :=
  mkReverse mac {[workloads]}.

Definition NewReverseRecord (mac resourceType resourceName : gostring) : ReverseRecord :=
  mkReverse mac {[resourceType ++ go "/" ++ resourceName]}.

(** [sets.String.List]: sorted. *)
Definition string_list (s : gset gostring) : list gostring := merge_sort str_le (elements s).

Definition AddRecord (t : ReverseTotal) (records : list ReverseRecord) : ReverseTotal :=
  foldl (fun t record =>
           match t !! MacAddress record with
           | Some m => <[MacAddress record := InsertByKeys m (string_list (Resources record))]> t
           | None => <[MacAddress record := NewSetByKeys (string_list (Resources record))]> t
           end) t records.

Definition RemoveRecord (t : ReverseTotal) (records : list ReverseRecord) : ReverseTotal :=
  foldl (fun t record =>
           match t !! MacAddress record with
           | Some m =>
               let m := DeleteByKeys m (string_list (Resources record)) in
               if Len m =? 0 then delete (MacAddress record) t else <[MacAddress record := m]> t
           | None => t
           end) t records.

(** The line of one item: two fields around one splitter. *)
Definition add_line (t : ReverseTotal) (item : gostring) : ReverseTotal :=
  if Count item Splitter =? 1 then
    match Split item Splitter with
    | i0 :: i1 :: _ => AddRecord t [mkReverse i0 (list_to_set (Split i1 comma))]
    | _ => t
    end
  else t.

Definition FromStringToReverseTotal (s : gostring) : ReverseTotal :=
  if length s =? 0 then ∅ else foldl add_line ∅ (Split s newline).

Section reverse.
Context `{!MapOrder gostring}.

Definition reverse_line (k : gostring) (v : Set_) : gostring := k ++ Splitter ++ Join (KeySet v) comma.

Definition ReverseToString (t : ReverseTotal) : gostring :=
  foldl (fun sb '(k, v) => sb ++ (reverse_line k v ++ backslash_n)) [] (range t) ++ backslash_n.

Definition ReversedResource (t : ReverseTotal) : gset gostring :=
  foldl (fun result '(_, v) => list_to_set (KeySet v) ∪ result) ∅ (range t).

Definition GetBelongToMeResources (mac : gostring) (t : ReverseTotal) : Set_ := default ∅ (t !! mac).

Definition LoadAndDeleteBelongToMeResources (mac : gostring) (t : ReverseTotal)
    : ReverseTotal * Set_ :=
  (delete mac t, default ∅ (t !! mac)).
End reverse.

(** ** The connected machines *)

Abbreviation ConnectTotal := (gset gostring).

Definition IsConnected (mac : gostring) (c : ConnectTotal) : bool := bool_decide (mac ∈ c).

Definition FromStringToConnectInfo (str : gostring) : ConnectTotal :=
  foldl (fun result s => if negb (length s =? 0) then {[s]} ∪ result else result) ∅ (Split str newline).

Definition ConnectToString (c : ConnectTotal) : gostring :=
  foldl (fun sb s => if negb (length s =? 0) then sb ++ (s ++ backslash_n) else sb) [] (string_list c)
    ++ backslash_n.

(** ** The status *)

Definition REVERSE : gostring := go "REVERSE".
Definition Connect : gostring := go "Connect".
Definition MacToIP : gostring := go "MAC_TO_IP".

Record status := mkStatus {
  st_kubeconfigBytes : gostring;
  st_namespace : gostring;
  reverse : ReverseTotal;
  connect : ConnectTotal;
  mac2ip : DHCPRecordMap;
  dhcp : leases
}.

Definition ToStatus `{!Clock} (m : gmap gostring gostring) : status :=
  mkStatus [] []
    (FromStringToReverseTotal (data_at m REVERSE))
    (FromStringToConnectInfo (data_at m Connect))
    (FromStringToMac2IP (data_at m MacToIP))
    (FromStringToDHCP (data_at m DHCP)).

(** ** Changing the config map ([vpnhandler.go]) *)

Section updates.
Context `{!MapOrder gostring} (mac : gostring).

Definition add (total : ReverseTotal) (record : ReverseRecord) : ReverseTotal := AddRecord total [record].
Definition remove (total : ReverseTotal) (record : ReverseRecord) : ReverseTotal :=
  RemoveRecord total [record].

Definition updateReverseConfigMap (f : cm_faults) (cm : configmap) (resource : list gostring)
    (fn : ReverseTotal -> ReverseRecord -> ReverseTotal) : configmap * res cm_error unit :=
  match cm_get f cm with
  | Err e => (cm, Err e)
  | Ok d =>
      let t := FromStringToReverseTotal (data_at d REVERSE) in
      let t := foldl (fun t s => fn t (NewReverseRecordWithWorkloads mac s)) t resource in
      cm_patch f cm REVERSE (ReverseToString t)
  end.

Definition insertFunc (connectedList : ConnectTotal) (macAddress : gostring) : ConnectTotal :=
  {[macAddress]} ∪ connectedList.
Definition deleteFunc (connectedList : ConnectTotal) (macAddress : gostring) : ConnectTotal :=
  connectedList ∖ {[macAddress]}.

Definition updateConnectConfigMap (f : cm_faults) (cm : configmap)
    (fn : ConnectTotal -> gostring -> ConnectTotal) : configmap * res cm_error unit :=
  match cm_get f cm with
  | Err e => (cm, Err e)
  | Ok d =>
      let t := fn (FromStringToConnectInfo (data_at d Connect)) mac in
      cm_patch f cm Connect (ConnectToString t)
  end.
End updates.

(** ** Sets of resources, by key *)

Lemma string_list_elem s x : x ∈ string_list s <-> x ∈ s.
Proof. unfold string_list. by rewrite merge_sort_Permutation, elem_of_elements. Qed.

Lemma InsertByKeys_lookup s l k :
  InsertByKeys s l !! k = if bool_decide (k ∈ l) then Some (mkInfo k UnHealthy) else s !! k.
Proof.
  unfold InsertByKeys. induction l as [|x l IH] using rev_ind; [done|].
  rewrite foldl_app; simpl. destruct (decide (k = x)) as [->|Hne].
  - rewrite lookup_insert_eq, bool_decide_eq_true_2; [done|set_solver].
  - rewrite lookup_insert_ne, IH by done. by rewrite (bool_decide_ext (k ∈ l ++ [x]) (k ∈ l)) by set_solver.
Qed.

Lemma DeleteByKeys_lookup s l k :
  DeleteByKeys s l !! k = if bool_decide (k ∈ l) then None else s !! k.
Proof.
  unfold DeleteByKeys. induction l as [|x l IH] using rev_ind; [done|].
  rewrite foldl_app; simpl. destruct (decide (k = x)) as [->|Hne].
  - rewrite lookup_delete_eq, bool_decide_eq_true_2; [done|set_solver].
  - rewrite lookup_delete_ne, IH by done. by rewrite (bool_decide_ext (k ∈ l ++ [x]) (k ∈ l)) by set_solver.
Qed.

(** The set of the same keys, none of them checked. *)
Definition unchecked (s : Set_) : Set_ := map_imap (fun k _ => Some (mkInfo k UnHealthy)) s.

Lemma unchecked_lookup s k : unchecked s !! k = (fun _ => mkInfo k UnHealthy) <$> s !! k.
Proof. unfold unchecked. rewrite map_lookup_imap. by destruct (s !! k). Qed.

Lemma NewSetByKeys_dom (s : Set_) : NewSetByKeys (string_list (dom s)) = unchecked s.
Proof.
  apply map_eq. intros k. unfold NewSetByKeys. rewrite InsertByKeys_lookup, unchecked_lookup, lookup_empty.
  rewrite (bool_decide_ext _ (is_Some (s !! k))) by (by rewrite string_list_elem, elem_of_dom).
  case_bool_decide as E; [by destruct E as [x ->]|]. by rewrite (proj2 (eq_None_not_Some _) E).
Qed.

Lemma unchecked_dom s : dom (unchecked s) = dom s.
Proof. apply set_eq. intros k. rewrite !elem_of_dom, unchecked_lookup. by rewrite fmap_is_Some. Qed.

(** ** Reading back the reversed resources *)

Definition name_ok (k : gostring) : Prop :=
  Forall (fun c => json_plain c = true) k /\ "#"%char ∉ k /\ ","%char ∉ k.

Definition reverse_ok (t : ReverseTotal) : Prop :=
  map_Forall (fun mac s => mac_ok mac /\ s <> ∅ /\ map_Forall (fun k _ => name_ok k) s) t.

Section readback.
Context `{!MapOrder gostring}.

Lemma KeySet_elem (s : Set_) k : k ∈ KeySet s <-> is_Some (s !! k).
Proof.
  unfold KeySet. rewrite list_elem_of_fmap. split.
  - intros ([k' i] & -> & Hin%elem_of_range). by eexists.
  - intros [i Hi]. exists (k, i). by rewrite elem_of_range.
Qed.

Lemma KeySet_nonempty (s : Set_) : s <> ∅ -> KeySet s <> [].
Proof.
  intros (k & i & Hk)%map_choose E. assert (k ∈ KeySet s) as Hin by (apply KeySet_elem; by eexists).
  rewrite E in Hin. set_solver.
Qed.

Lemma KeySet_Forall (P : gostring -> Prop) (s : Set_) :
  map_Forall (fun k _ => P k) s -> Forall P (KeySet s).
Proof. intros Hs. apply Forall_forall. intros k [i Hi]%KeySet_elem. by eapply Hs. Qed.

Lemma KeySet_dom (s : Set_) : list_to_set (KeySet s) = dom s.
Proof. apply set_eq. intros k. by rewrite elem_of_list_to_set, KeySet_elem, elem_of_dom. Qed.

Lemma reverse_line_plain mac s :
  mac_ok mac -> map_Forall (fun k _ => name_ok k) s ->
  Forall (fun c => json_plain c = true) (reverse_line mac s).
Proof.
  intros [Hm _] Hs. unfold reverse_line. apply Forall_app. split; [done|].
  apply Forall_app. split; [by repeat constructor|]. apply Join_Forall; [by repeat constructor|].
  apply KeySet_Forall. eapply map_Forall_impl; [exact Hs|]. by intros k i [? _].
Qed.

Lemma add_line_reverse t mac s :
  mac_ok mac -> s <> ∅ -> map_Forall (fun k _ => name_ok k) s ->
  add_line t (reverse_line mac s) = AddRecord t [mkReverse mac (dom s)].
Proof.
  intros [_ Hm] Hne Hs. unfold add_line, Count.
  assert (Split (reverse_line mac s) Splitter = [mac; Join (KeySet s) comma]) as ->.
  { unfold reverse_line. change Splitter with ["#"%char].
    rewrite Split_piece by (done || by apply piece_ok_single). f_equal. rewrite Split_eq by done.
    rewrite (proj2 (Index_single_None _ _)); [done|].
    assert (Forall (fun c => c <> "#"%char) (Join (KeySet s) comma)) as HF.
    { apply Join_Forall; [by repeat constructor|]. apply KeySet_Forall.
      eapply map_Forall_impl; [exact Hs|]. intros k i (_ & Hk & _).
      apply Forall_forall. by intros c Hc ->. }
    rewrite Forall_forall in HF. intros Hin. by apply HF in Hin. }
  simpl. change comma with [","%char]. rewrite Split_Join_single.
  - by rewrite KeySet_dom.
  - by apply KeySet_nonempty.
  - apply KeySet_Forall. eapply map_Forall_impl; [exact Hs|]. by intros k i (_ & _ & Hk).
Qed.

Definition reverse_lines (t : ReverseTotal) : list gostring :=
  ((fun '(k, v) => reverse_line k v) <$> range t) ++ [[]].

Lemma ReverseToString_lines t : ReverseToString t = lines backslash_n (reverse_lines t).
Proof.
  unfold lines, reverse_lines. rewrite bind_app. unfold ReverseToString. f_equal.
  rewrite <- (app_nil_l (_ ≫= _)), <- foldl_app_bind, foldl_fmap. apply foldl_ext'. by intros r [k v].
Qed.

Lemma reverse_lines_plain t :
  reverse_ok t -> Forall (Forall (fun c => json_plain c = true)) (reverse_lines t).
Proof.
  intros Hok. apply Forall_app. split; [|by repeat constructor].
  apply Forall_fmap, Forall_forall. intros [mac s] Hin%elem_of_range.
  destruct (Hok _ _ Hin) as (Hm & _ & Hs). by apply reverse_line_plain.
Qed.

(** Adding the lines one by one to machines not seen yet. *)
Lemma add_lines_fresh (l : list (gostring * Set_)) (acc : ReverseTotal) :
  NoDup l.*1 -> Forall (fun k => acc !! k = None) l.*1 ->
  Forall (fun kv => mac_ok (fst kv) /\ snd kv <> ∅ /\ map_Forall (fun k _ => name_ok k) (snd kv)) l ->
  foldl add_line acc ((fun '(k, v) => reverse_line k v) <$> l) =
  foldl (fun r '(k, v) => <[k := unchecked v]> r) acc l.
Proof.
  revert acc. induction l as [|[k v] l IH]; intros acc Hnd Hacc HF; [done|].
  inversion_clear HF as [|? ? (Hm & Hne & Hs) HF']. simpl in Hnd, Hacc.
  apply NoDup_cons in Hnd as [Hk Hnd]. apply Forall_cons in Hacc as [Hk0 Hacc].
  cbn [fmap list_fmap foldl]. rewrite add_line_reverse by done. unfold AddRecord. simpl.
  rewrite Hk0, NewSetByKeys_dom. apply IH; [done| |done].
  rewrite Forall_forall in Hacc |- *. intros y Hy. rewrite lookup_insert_ne; [by apply Hacc|].
  intros ->. done.
Qed.

Lemma FromString_reverse t :
  reverse_ok t -> FromStringToReverseTotal (lines newline (reverse_lines t)) = unchecked <$> t.
Proof.
  intros Hok. unfold FromStringToReverseTotal.
  assert (length (lines newline (reverse_lines t)) =? 0 = false) as ->.
  { apply Nat.eqb_neq. unfold lines, reverse_lines. rewrite bind_app, length_app. simpl. lia. }
  rewrite Split_lines by (by apply reverse_lines_plain). unfold reverse_lines.
  rewrite !foldl_app. simpl. rewrite add_lines_fresh.
  - assert (forall x : ReverseTotal, add_line x [] = x) as Hnil by done.
    rewrite !Hnil. by rewrite foldl_insert_range_f.
  - apply NoDup_range_fst.
  - apply Forall_forall. intros. apply lookup_empty.
  - apply Forall_forall. intros [mac s] Hin%elem_of_range. by apply (Hok mac s).
Qed.
End readback.

(** ** Who reverses what *)

Definition entry (t : ReverseTotal) (mac r : gostring) : option resourceInfo :=
  t !! mac ≫= fun s => s !! r.

Definition reversing (t : ReverseTotal) (mac r : gostring) : Prop := is_Some (entry t mac r).

Lemma reversing_unchecked t mac r : reversing (unchecked <$> t) mac r <-> reversing t mac r.
Proof.
  unfold reversing, entry. rewrite lookup_fmap. destruct (t !! mac) as [s|]; simpl; [|done].
  by rewrite unchecked_lookup, fmap_is_Some.
Qed.

Lemma insert_one s r k :
  InsertByKeys s (string_list {[r]}) !! k = if bool_decide (k = r) then Some (mkInfo k UnHealthy) else s !! k.
Proof.
  rewrite InsertByKeys_lookup.
  by rewrite (bool_decide_ext _ (k = r)) by (rewrite string_list_elem; set_solver).
Qed.

Lemma delete_one s r k :
  DeleteByKeys s (string_list {[r]}) !! k = if bool_decide (k = r) then None else s !! k.
Proof.
  rewrite DeleteByKeys_lookup.
  by rewrite (bool_decide_ext _ (k = r)) by (rewrite string_list_elem; set_solver).
Qed.

(** A machine gains a resource. *)
Lemma add_eq t mac r :
  add t (NewReverseRecordWithWorkloads mac r) =
  <[mac := InsertByKeys (default ∅ (t !! mac)) (string_list {[r]})]> t.
Proof. unfold add, AddRecord. simpl. by destruct (t !! mac). Qed.

Lemma add_entry t mac r m x :
  entry (add t (NewReverseRecordWithWorkloads mac r)) m x =
  if bool_decide (m = mac /\ x = r) then Some (mkInfo r UnHealthy) else entry t m x.
Proof.
  unfold entry. rewrite add_eq, lookup_insert. case_decide as E.
  - subst m. simpl. rewrite insert_one. repeat case_bool_decide; try naive_solver.
    destruct (t !! mac); [done|]. simpl. by rewrite lookup_empty.
  - rewrite bool_decide_eq_false_2; [done|naive_solver].
Qed.

Lemma add_ok t mac r :
  reverse_ok t -> mac_ok mac -> name_ok r -> reverse_ok (add t (NewReverseRecordWithWorkloads mac r)).
Proof.
  intros Hok Hm Hr. rewrite add_eq. apply map_Forall_insert_2; [|done]. split; [done|]. split.
  - intros E. pose proof (insert_one (default ∅ (t !! mac)) r r) as Hi.
    rewrite E, lookup_empty, bool_decide_eq_true_2 in Hi; done.
  - intros k i. rewrite insert_one. case_bool_decide; [by subst|].
    destruct (t !! mac) as [s|] eqn:Es; simpl; [|by rewrite lookup_empty].
    destruct (Hok _ _ Es) as (_ & _ & Hs). apply Hs.
Qed.

(** A machine loses a resource, and its entry with the last one. *)
Lemma remove_entry t mac r m x :
  entry (remove t (NewReverseRecordWithWorkloads mac r)) m x =
  if bool_decide (m = mac /\ x = r) then None else entry t m x.
Proof.
  unfold remove, RemoveRecord, entry. simpl. destruct (t !! mac) as [s|] eqn:Es.
  - set (s' := DeleteByKeys s (string_list {[r]})).
    assert (forall y, s' !! y = if bool_decide (y = r) then None else s !! y) as Hs' by (intros; apply delete_one).
    destruct (Nat.eqb_spec (Len s') 0) as [Hl|Hl].
    + apply map_size_empty_inv in Hl. rewrite lookup_delete. case_decide as E.
      * subst m. rewrite Es. simpl. specialize (Hs' x). rewrite Hl, lookup_empty in Hs'.
        repeat case_bool_decide; naive_solver.
      * rewrite bool_decide_eq_false_2; [done|naive_solver].
    + rewrite lookup_insert. case_decide as E.
      * subst m. rewrite Es. simpl. rewrite Hs'. repeat case_bool_decide; naive_solver.
      * rewrite bool_decide_eq_false_2; [done|naive_solver].
  - case_bool_decide as E; [|done]. destruct E as [-> ->]. by rewrite Es.
Qed.

Lemma remove_ok t mac r : reverse_ok t -> reverse_ok (remove t (NewReverseRecordWithWorkloads mac r)).
Proof.
  intros Hok. unfold remove, RemoveRecord. simpl. destruct (t !! mac) as [s|] eqn:Es; [|done].
  destruct (Nat.eqb_spec (Len (DeleteByKeys s (string_list {[r]}))) 0) as [Hl|Hl].
  - by apply map_Forall_delete.
  - apply map_Forall_insert_2; [|done]. destruct (Hok _ _ Es) as (Hm & _ & Hs). split; [done|]. split.
    + intros E. rewrite E in Hl. unfold Len in Hl. by rewrite map_size_empty in Hl.
    + intros k i. rewrite delete_one. case_bool_decide; [done|]. apply Hs.
Qed.

Section many.
Variables (mac : gostring) (rs : list gostring).

Lemma add_many_entry t m x :
  reversing (foldl (fun t s => add t (NewReverseRecordWithWorkloads mac s)) t rs) m x <->
  reversing t m x \/ (m = mac /\ x ∈ rs).
Proof.
  revert t. induction rs as [|r l IH]; intros t; simpl; [set_solver|].
  rewrite IH. unfold reversing. rewrite add_entry, elem_of_cons.
  case_bool_decide; [naive_solver (by eexists)|naive_solver].
Qed.

Lemma remove_many_entry t m x :
  reversing (foldl (fun t s => remove t (NewReverseRecordWithWorkloads mac s)) t rs) m x <->
  reversing t m x /\ ~ (m = mac /\ x ∈ rs).
Proof.
  revert t. induction rs as [|r l IH]; intros t; simpl; [set_solver|].
  rewrite IH. unfold reversing. rewrite remove_entry, elem_of_cons.
  case_bool_decide as E; [|naive_solver]. split; [by intros [[] _]|naive_solver].
Qed.

Lemma add_many_ok t :
  reverse_ok t -> mac_ok mac -> Forall name_ok rs ->
  reverse_ok (foldl (fun t s => add t (NewReverseRecordWithWorkloads mac s)) t rs).
Proof.
  intros Hok Hm HF. revert t Hok. induction HF as [|r l Hr HF IH]; intros t Hok; simpl; [done|].
  by apply IH, add_ok.
Qed.

Lemma remove_many_ok t :
  reverse_ok t -> reverse_ok (foldl (fun t s => remove t (NewReverseRecordWithWorkloads mac s)) t rs).
Proof.
  revert t. induction rs as [|r l IH]; intros t Hok; simpl; [done|]. by apply IH, remove_ok.
Qed.
End many.

(** ** Reading back the connected machines *)

Definition connect_ok (c : ConnectTotal) : Prop :=
  set_Forall (fun s => Forall (fun x => json_plain x = true) s) c.

Definition connect_lines (c : ConnectTotal) : list gostring :=
  filter (fun s => s <> []) (string_list c) ++ [[]].

Lemma ConnectToString_lines c : ConnectToString c = lines backslash_n (connect_lines c).
Proof.
  unfold ConnectToString, connect_lines, lines. rewrite bind_app. f_equal.
  assert (forall l (acc : gostring),
    foldl (fun sb s => if negb (length s =? 0) then sb ++ (s ++ backslash_n) else sb) acc l =
    acc ++ (filter (fun s => s <> []) l ≫= fun x => x ++ backslash_n)) as Hg; [|by rewrite Hg].
  induction l as [|s l IH]; intros acc; [by rewrite app_nil_r|].
  cbn [foldl]. rewrite IH. destruct s as [|x s].
  - by rewrite filter_cons_False by naive_solver.
  - rewrite filter_cons_True by done. rewrite bind_cons. by rewrite !app_assoc.
Qed.

Lemma connect_fold_elem (l : list gostring) (acc : ConnectTotal) (x : gostring) :
  x ∈ foldl (fun result s => if negb (length s =? 0) then {[s]} ∪ result else result) acc l <->
  x ∈ acc \/ (x ∈ l /\ x <> []).
Proof.
  revert acc. induction l as [|s l IH]; intros acc; simpl; [set_solver|]. rewrite IH, elem_of_cons.
  destruct s as [|c s]; simpl; [naive_solver|]. rewrite elem_of_union, elem_of_singleton. naive_solver.
Qed.

Lemma FromString_connect c :
  connect_ok c -> FromStringToConnectInfo (lines newline (connect_lines c)) = c ∖ {[[]]}.
Proof.
  intros Hok. apply set_eq. intros x. unfold FromStringToConnectInfo. rewrite Split_lines.
  - rewrite connect_fold_elem. unfold connect_lines.
    rewrite !elem_of_app, list_elem_of_filter, string_list_elem. set_solver.
  - apply Forall_app. split; [|by repeat constructor]. apply Forall_forall.
    intros s [_ Hs%string_list_elem]%list_elem_of_filter. by apply Hok.
Qed.

(** ** Theorems *)

Section theorems.
Context `{!MapOrder gostring} (mac : gostring).

Lemma update_reverse d rs fn t :
  foldl (fun t s => fn t (NewReverseRecordWithWorkloads mac s))
    (FromStringToReverseTotal (data_at d REVERSE)) rs = t -> reverse_ok t ->
  exists d', updateReverseConfigMap mac cm_ok (Some d) rs fn = (Some d', Ok tt) /\
    FromStringToReverseTotal (data_at d' REVERSE) = unchecked <$> t /\
    forall k, k <> REVERSE -> d' !! k = d !! k.
Proof.
  intros Ht Hok. unfold updateReverseConfigMap, cm_patch. simpl. rewrite Ht, ReverseToString_lines.
  rewrite json_string_lines by (by apply reverse_lines_plain). eexists. split; [done|]. split.
  - unfold data_at. rewrite lookup_insert_eq. by apply FromString_reverse.
  - intros k Hk. by rewrite lookup_insert_ne.
Qed.

(** adding resources to the config map and reading it back, exactly those
    resources are now also reversed by this machine; every other machine's are
    as they were, and so is the rest of the config map. *)
Theorem reverse_add_readback d rs :
  reverse_ok (FromStringToReverseTotal (data_at d REVERSE)) -> mac_ok mac -> Forall name_ok rs ->
  exists d', updateReverseConfigMap mac cm_ok (Some d) rs add = (Some d', Ok tt) /\
    (forall m x, reversing (FromStringToReverseTotal (data_at d' REVERSE)) m x <->
       reversing (FromStringToReverseTotal (data_at d REVERSE)) m x \/ (m = mac /\ x ∈ rs)) /\
    forall k, k <> REVERSE -> d' !! k = d !! k.
Proof.
  intros Hok Hm Hrs. destruct (update_reverse d rs add _ eq_refl) as (d' & Hu & Hr & Hk).
  { by apply add_many_ok. }
  exists d'. split; [done|]. split; [|done]. intros m x. rewrite Hr, reversing_unchecked.
  apply add_many_entry.
Qed.

(** removing resources and reading back, exactly those of this machine are
    gone, and a machine left without resources has no line any more. *)
Theorem reverse_remove_readback d rs :
  reverse_ok (FromStringToReverseTotal (data_at d REVERSE)) ->
  exists d', updateReverseConfigMap mac cm_ok (Some d) rs remove = (Some d', Ok tt) /\
    (forall m x, reversing (FromStringToReverseTotal (data_at d' REVERSE)) m x <->
       reversing (FromStringToReverseTotal (data_at d REVERSE)) m x /\ ~ (m = mac /\ x ∈ rs)) /\
    (forall m s, FromStringToReverseTotal (data_at d' REVERSE) !! m = Some s -> s <> ∅).
Proof.
  intros Hok. pose proof (remove_many_ok mac rs _ Hok) as Hok'.
  destruct (update_reverse d rs remove _ eq_refl Hok') as (d' & Hu & Hr & Hk).
  exists d'. split; [done|]. split.
  - intros m x. rewrite Hr, reversing_unchecked. apply remove_many_entry.
  - intros m s. rewrite Hr, lookup_fmap. intros (s0 & Hs0 & ->)%fmap_Some.
    destruct (Hok' _ _ Hs0) as (_ & Hne & _). intros E. apply Hne.
    apply (f_equal dom) in E. rewrite unchecked_dom, dom_empty_L in E. by apply dom_empty_inv_L.
Qed.

(** entering this machine in the list of connected ones, or taking it off,
    and reading the config map back gives the list with that change and no
    other, and so the answer of [IsConnected]. *)
Theorem connect_readback d c :
  FromStringToConnectInfo (data_at d Connect) = c -> connect_ok c -> mac_ok mac -> mac <> [] ->
  (exists d', updateConnectConfigMap mac cm_ok (Some d) insertFunc = (Some d', Ok tt) /\
     FromStringToConnectInfo (data_at d' Connect) = {[mac]} ∪ c /\
     IsConnected mac (FromStringToConnectInfo (data_at d' Connect)) = true) /\
  (exists d', updateConnectConfigMap mac cm_ok (Some d) deleteFunc = (Some d', Ok tt) /\
     FromStringToConnectInfo (data_at d' Connect) = c ∖ {[mac]} /\
     IsConnected mac (FromStringToConnectInfo (data_at d' Connect)) = false).
Proof.
  intros Hc Hok Hm Hne.
  assert ([] ∉ c) as Hnil.
  { rewrite <- Hc. unfold FromStringToConnectInfo. rewrite connect_fold_elem. set_solver. }
  assert (forall fn c', fn c mac = c' -> connect_ok c' -> [] ∉ c' ->
    exists d', updateConnectConfigMap mac cm_ok (Some d) fn = (Some d', Ok tt) /\
      FromStringToConnectInfo (data_at d' Connect) = c') as Hup.
  { intros fn c' Hf Hok' Hn'. unfold updateConnectConfigMap, cm_patch. simpl.
    rewrite Hc, Hf, ConnectToString_lines, json_string_lines.
    - eexists. split; [done|]. unfold data_at. rewrite lookup_insert_eq. simpl.
      rewrite FromString_connect by done. set_solver.
    - apply Forall_app. split; [|by repeat constructor]. apply Forall_forall.
      intros s [_ Hs%string_list_elem]%list_elem_of_filter. by apply Hok'. }
  split.
  - destruct (Hup insertFunc ({[mac]} ∪ c)) as (d' & Hu & Hr); [done| |set_solver|].
    { intros s [->%elem_of_singleton|Hs]%elem_of_union; [by destruct Hm|by apply Hok]. }
    exists d'. split; [done|]. rewrite Hr. split; [done|]. apply bool_decide_eq_true_2. set_solver.
  - destruct (Hup deleteFunc (c ∖ {[mac]})) as (d' & Hu & Hr); [done| |set_solver|].
    { intros s Hs. apply Hok. set_solver. }
    exists d'. split; [done|]. rewrite Hr. split; [done|]. apply bool_decide_eq_false_2. set_solver.
Qed.
End theorems.

(** ** Witnesses *)

#[export] Instance name_ok_dec k : Decision (name_ok k).
Proof. unfold name_ok. apply _. Defined.

#[export] Instance reverse_ok_dec t : Decision (reverse_ok t).
Proof. unfold reverse_ok. apply _. Defined.

#[export] Instance connect_ok_dec c : Decision (connect_ok c).
Proof. unfold connect_ok. apply _. Defined.

(** One machine reverses a workload and is connected. *)
Definition demo_vpn_data : gmap gostring gostring :=
  {[REVERSE := mac_a ++ go "#deployments/a" ++ newline ++ newline; Connect := mac_a ++ newline ++ newline]}.

Lemma reverse_add_readback_witness :
  exists d', updateReverseConfigMap mac_b cm_ok (Some demo_vpn_data) [go "deployments/b"] add = (Some d', Ok tt) /\
    (forall m x, reversing (FromStringToReverseTotal (data_at d' REVERSE)) m x <->
       reversing (FromStringToReverseTotal (data_at demo_vpn_data REVERSE)) m x \/
       (m = mac_b /\ x ∈ [go "deployments/b"])) /\
    forall k, k <> REVERSE -> d' !! k = demo_vpn_data !! k.
Proof.
  apply (reverse_add_readback mac_b demo_vpn_data [go "deployments/b"]);
    apply (bool_decide_eq_true_1 _); vm_compute; reflexivity.
Defined.

Lemma reverse_remove_readback_witness :
  exists d', updateReverseConfigMap mac_a cm_ok (Some demo_vpn_data) [go "deployments/a"] remove = (Some d', Ok tt) /\
    (forall m x, reversing (FromStringToReverseTotal (data_at d' REVERSE)) m x <->
       reversing (FromStringToReverseTotal (data_at demo_vpn_data REVERSE)) m x /\
       ~ (m = mac_a /\ x ∈ [go "deployments/a"])) /\
    (forall m s, FromStringToReverseTotal (data_at d' REVERSE) !! m = Some s -> s <> ∅).
Proof.
  apply (reverse_remove_readback mac_a demo_vpn_data [go "deployments/a"]).
  apply (bool_decide_eq_true_1 _); vm_compute; reflexivity.
Defined.

Lemma connect_readback_witness :
  exists d', updateConnectConfigMap mac_b cm_ok (Some demo_vpn_data) insertFunc = (Some d', Ok tt) /\
    IsConnected mac_b (FromStringToConnectInfo (data_at d' Connect)) = true.
Proof.
  destruct (connect_readback mac_b demo_vpn_data (FromStringToConnectInfo (data_at demo_vpn_data Connect)))
    as [(d' & Hu & _ & Hc) _].
  - reflexivity.
  - apply (bool_decide_eq_true_1 _); vm_compute; reflexivity.
  - apply (bool_decide_eq_true_1 _); vm_compute; reflexivity.
  - discriminate.
  - exists d'. split; [exact Hu|exact Hc].
Defined.
