(* ===== verification/VpnWatcher.v ===== *)
(** * The config map watcher ([daemon_handler/vpnconfigmapwatcher.go])

    The daemon watches the config map of every namespace it was asked about.  Its
    handlers keep, under a lock, the reversed resources of each namespace with
    their health, and the one connection of this machine; what the sudo daemon
    has to do about it is queued.  The state of the package's variables is one
    record, a queued closure is a [task], and running one gives the requests to
    the sudo daemon.  The watchers of all namespaces are one system, since they share
    those variables. *)

From S2P Require Import Prelude GoStrings Dhcp VpnStatus.
#[local] Open Scope go_scope.

(** ** State *)

(** [util.GenerateKey]: a hash of the kubeconfig after the namespace. *)
Class Keys := {
  GenerateKey : gostring -> gostring -> gostring
}.

Record ConnectInfo := mkConnect {
  uid : gostring;
  ci_kubeconfigBytes : gostring;
  ci_namespace : gostring;
  kubeNs : gset gostring;
  ci_ip : gostring;
  health : HealthEnum
}.

Definition zeroConnect : ConnectInfo := mkConnect [] [] [] ∅ [] NoHealth.

(** The health is kept. *)
Definition cleanup (c : ConnectInfo) : ConnectInfo := mkConnect [] [] [] ∅ [] (health c).

Definition IsEmpty (c : option ConnectInfo) : bool :=
  match c with
  | None => true
  | Some c => bool_decide (uid c = [])
  end.

Definition IsSameUid (c : ConnectInfo) (u : gostring) : bool := bool_decide (uid c = u).

Definition IsSameCluster `{!Keys} (c : ConnectInfo) (kubeconfigBytes : gostring) : bool :=
  bool_decide (GenerateKey kubeconfigBytes [] ∈ kubeNs c).

Definition getIPIfIsMe `{!Keys} (c : ConnectInfo) (kubeconfigBytes namespace : gostring) : gostring :=
  if bool_decide (GenerateKey kubeconfigBytes namespace ∈ kubeNs c) then ci_ip c else [].

Record resourceHandler := mkHandler {
  h_uid : gostring;
  h_namespace : gostring;
  h_kubeconfigBytes : gostring
}.

(** The closures put on [funcChan], with the handler as it was then (its uid
    changes only when the config map is created anew). *)
Inductive task :=
  | ConnectTask (backup : ConnectInfo) (h : resourceHandler)
  | DisConnectTask (h : resourceHandler).

Record vpnState := mkVpn {
  statusInfo : gmap gostring status;
  connectInfo : ConnectInfo;
  funcChan : list task
}.

Section handlers.
Context `{!MapOrder gostring} `{!Clock} `{!Keys} (mac : gostring).

Definition toKey (h : resourceHandler) : gostring := GenerateKey (h_kubeconfigBytes h) (h_namespace h).

(** ** Merging the latest status *)

(** Add what is missing: one machine of the latest status. *)
Definition add_missing (local : ReverseTotal) (kv : gostring * Set_) : ReverseTotal :=
  let '(macAddress, latestResources) := kv in
  match local !! macAddress with
  | Some localResource =>
      <[macAddress := foldl (fun l resource =>
           if negb (HasKey l resource) then InsertByKeys l [resource] else l)
           localResource (KeySet latestResources)]> local
  | None => <[macAddress := latestResources]> local
  end.

(** Remove what is gone: one machine of the local status. *)
Definition remove_useless (latest : ReverseTotal) (local : ReverseTotal) (kv : gostring * Set_)
    : ReverseTotal :=
  let '(macAddress, localResources) := kv in
  match latest !! macAddress with
  | None => delete macAddress local
  | Some latestResource =>
      <[macAddress := foldl (fun l resource =>
           if negb (HasKey latestResource resource) then DeleteByKeys l [resource] else l)
           localResources (KeySet localResources)]> local
  end.

Definition merge_reverse (latest local : ReverseTotal) : ReverseTotal :=
  let local := foldl add_missing local (range latest) in
  foldl (remove_useless latest) local (range local).

Definition with_reverse (s : status) (r : ReverseTotal) : status :=
  mkStatus (st_kubeconfigBytes s) (st_namespace s) r (connect s) (mac2ip s) (dhcp s).

Definition modifyReverseInfo (h : resourceHandler) (latest : status) (info : gmap gostring status)
    : gmap gostring status :=
  match info !! toKey h with
  | None =>
      <[toKey h := mkStatus (h_kubeconfigBytes h) (h_namespace h) (reverse latest) ∅ ∅ ∅]> info
  | Some local =>
      <[toKey h := with_reverse local (merge_reverse (reverse latest) (reverse local))]> info
  end.

(** ** The three handlers *)

(** This machine is connected to the handler's namespace. *)
Definition connected_to (h : resourceHandler) (s : status) (c : ConnectInfo) : ConnectInfo :=
  mkConnect (h_uid h) (h_kubeconfigBytes h) (h_namespace h)
    {[GenerateKey (h_kubeconfigBytes h) (h_namespace h); GenerateKey (h_kubeconfigBytes h) []]}
    (GetIPByMac (mac2ip s) mac) (health c).

Definition OnAdd (h : resourceHandler) (configUid : gostring) (data : gmap gostring gostring)
    (st : vpnState) : resourceHandler * vpnState :=
  let h := mkHandler configUid (h_namespace h) (h_kubeconfigBytes h) in
  let toStatus := ToStatus data in
  let info := modifyReverseInfo h toStatus (statusInfo st) in
  let backup := connectInfo st in
  if IsConnected mac (connect toStatus) then
    (h, mkVpn info (connected_to h toStatus backup) (funcChan st ++ [ConnectTask backup h]))
  else (h, mkVpn info backup (funcChan st)).

Definition OnUpdate (h : resourceHandler) (oldData newData : gmap gostring gostring)
    (st : vpnState) : vpnState :=
  let oldStatus := ToStatus oldData in
  let newStatus := ToStatus newData in
  let info := modifyReverseInfo h newStatus (statusInfo st) in
  let backup := connectInfo st in
  if IsConnected mac (connect newStatus) then
    mkVpn info (connected_to h newStatus backup) (funcChan st ++ [ConnectTask backup h])
  else if IsConnected mac (connect oldStatus) && negb (IsConnected mac (connect newStatus)) &&
          IsSameUid backup (h_uid h) then
    mkVpn info (cleanup backup) (funcChan st ++ [DisConnectTask h])
  else mkVpn info backup (funcChan st).

Definition OnDelete (h : resourceHandler) (data : gmap gostring gostring) (st : vpnState) : vpnState :=
  let toStatus := ToStatus data in
  let info := delete (toKey h) (statusInfo st) in
  if IsConnected mac (connect toStatus) && IsSameUid (connectInfo st) (h_uid h) then
    mkVpn info (cleanup (connectInfo st)) (funcChan st ++ [DisConnectTask h])
  else mkVpn info (connectInfo st) (funcChan st).

(** ** Questions about a namespace's status *)

Definition getMacByResource (n : status) (st : vpnState) (resource : gostring) : gostring :=
  match statusInfo st !! GenerateKey (st_kubeconfigBytes n) (st_namespace n) with
  | Some load =>
      match List.find (fun '(_, v) => HasKey v resource) (range (reverse load)) with
      | Some (k, _) => k
      | None => []
      end
  | None => []
  end.

Definition deleteByResource (n : status) (st : vpnState) (resource : gostring) : vpnState :=
  let key := GenerateKey (st_kubeconfigBytes n) (st_namespace n) in
  match statusInfo st !! key with
  | Some load =>
      mkVpn (<[key := with_reverse load ((fun v => DeleteByKeys v [resource]) <$> reverse load)]>
               (statusInfo st)) (connectInfo st) (funcChan st)
  | None => st
  end.

Definition isReversingByMe (n : status) (st : vpnState) (resource : gostring) : bool :=
  let a := getMacByResource n st resource in
  negb (length a =? 0) && bool_decide (mac = a).

Definition isReversingByOther (n : status) (st : vpnState) (resource : gostring) : bool :=
  if isReversingByMe n st resource then false
  else
    let a := getMacByResource n st resource in
    negb (length a =? 0) && negb (bool_decide (mac = a)).

(** The health checks. *)
Definition checkConnect (ping_ok : bool) (st : vpnState) : vpnState :=
  let c := connectInfo st in
  if negb (IsEmpty (Some c)) then
    mkVpn (statusInfo st)
      (mkConnect (uid c) (ci_kubeconfigBytes c) (ci_namespace c) (kubeNs c) (ci_ip c)
         (if ping_ok then Healthy else UnHealthy)) (funcChan st)
  else st.
End handlers.

(** ** Requests to the sudo daemon *)

Inductive request :=
  | ReqRelease (kubeconfig namespace : gostring)
  | ReqConnect (kubeconfig namespace : gostring)
  | ReqDisConnect (kubeconfig namespace : gostring).

(** What the sudo daemon answers: whether it can be reached, which connection it
    reports ([None] when asking fails: the errors of the steps are shadowed, so
    that the caller sees no error), and whether a disconnect succeeds. *)
Record sudoDaemon := {
  reachable : bool;
  sudo_info : option ConnectInfo;
  disconnect_ok : bool
}.

Definition getSudoConnectInfo (d : sudoDaemon) : option ConnectInfo := sudo_info d.

Definition notifySudoDaemonToConnect (d : sudoDaemon) (u kubeconfigBytes namespace : gostring)
    : list request :=
  if negb (reachable d) then []
  else match getSudoConnectInfo d with
       | Some info =>
           if negb (IsEmpty (Some info)) then
             if IsSameUid info u then []
             else ReqDisConnect (ci_kubeconfigBytes info) (ci_namespace info) ::
                  (if disconnect_ok d then [ReqConnect kubeconfigBytes namespace] else [])
           else [ReqConnect kubeconfigBytes namespace]
       | None => [ReqConnect kubeconfigBytes namespace]
       end.

Definition notifySudoDaemonToDisConnect (d : sudoDaemon) (u kubeconfigBytes namespace : gostring)
    : list request :=
  if negb (reachable d) then []
  else if IsEmpty (getSudoConnectInfo d) then []
  else match getSudoConnectInfo d with
       | Some info => if negb (IsSameUid info u) then [] else [ReqDisConnect kubeconfigBytes namespace]
       | None => []
       end.

(** One closure of [funcChan]. *)
Definition run_task (d : sudoDaemon) (t : task) : list request :=
  match t with
  | ConnectTask backup h =>
      (if negb (IsEmpty (Some backup)) && negb (IsSameUid backup (h_uid h))
       then [ReqRelease (ci_kubeconfigBytes backup) (ci_namespace backup)] else []) ++
      notifySudoDaemonToConnect d (h_uid h) (h_kubeconfigBytes h) (h_namespace h)
  | DisConnectTask h =>
      notifySudoDaemonToDisConnect d (h_uid h) (h_kubeconfigBytes h) (h_namespace h)
  end.

(** ** Merging *)

Section merging.
Context `{!MapOrder gostring} `{!Clock} `{!Keys} (mac : gostring).

Lemma HasKey_spec s x : HasKey s x = true <-> is_Some (s !! x).
Proof. unfold HasKey. by rewrite bool_decide_eq_true. Qed.

Definition add_all (l : Set_) (ks : list gostring) : Set_ :=
  foldl (fun l resource => if negb (HasKey l resource) then InsertByKeys l [resource] else l) l ks.

Lemma add_all_lookup l ks x :
  add_all l ks !! x =
  match l !! x with
  | Some i => Some i
  | None => if bool_decide (x ∈ ks) then Some (mkInfo x UnHealthy) else None
  end.
Proof.
  unfold add_all. revert l. induction ks as [|k ks IH]; intros l; cbn [foldl].
  { destruct (l !! x); [done|]. by rewrite bool_decide_eq_false_2 by set_solver. }
  rewrite IH. unfold HasKey.
  destruct (bool_decide_reflect (is_Some (l !! k))) as [Hk|Hk]; simpl negb; cbv iota.
  - destruct (l !! x) eqn:Ex; [done|]. rewrite (bool_decide_ext (x ∈ k :: ks) (x ∈ ks)); [done|].
    rewrite elem_of_cons. split; [|by right]. intros [->|?]; [|done]. rewrite Ex in Hk. by destruct Hk.
  - rewrite InsertByKeys_lookup. destruct (decide (x = k)) as [->|Hne].
    + rewrite (bool_decide_eq_true_2 (k ∈ [k])), (bool_decide_eq_true_2 (k ∈ k :: ks)) by set_solver.
      by rewrite (proj2 (eq_None_not_Some _) Hk).
    + rewrite (bool_decide_eq_false_2 (x ∈ [k])) by set_solver.
      by rewrite (bool_decide_ext (x ∈ k :: ks) (x ∈ ks)) by set_solver.
Qed.

Definition keep_only (keep : Set_) (l : Set_) (ks : list gostring) : Set_ :=
  foldl (fun l resource => if negb (HasKey keep resource) then DeleteByKeys l [resource] else l) l ks.

Lemma keep_only_lookup keep l ks x :
  keep_only keep l ks !! x = if negb (HasKey keep x) && bool_decide (x ∈ ks) then None else l !! x.
Proof.
  unfold keep_only. revert l. induction ks as [|k ks IH]; intros l; cbn [foldl].
  { rewrite bool_decide_eq_false_2 by set_solver. by rewrite andb_false_r. }
  rewrite IH. destruct (decide (x = k)) as [->|Hne].
  - rewrite (bool_decide_eq_true_2 (k ∈ k :: ks)) by set_solver.
    destruct (HasKey keep k); cbn [negb andb]; [done|].
    rewrite DeleteByKeys_lookup, (bool_decide_eq_true_2 (k ∈ [k])) by set_solver. by case_bool_decide.
  - rewrite (bool_decide_ext (x ∈ k :: ks) (x ∈ ks)) by set_solver.
    destruct (negb (HasKey keep k)); [|done].
    by rewrite DeleteByKeys_lookup, (bool_decide_eq_false_2 (x ∈ [k])) by set_solver.
Qed.

Lemma add_missing_lookup (latest local : ReverseTotal) k :
  foldl add_missing local (range latest) !! k =
  match latest !! k with
  | Some s => Some (match local !! k with Some l => add_all l (KeySet s) | None => s end)
  | None => local !! k
  end.
Proof.
  apply (foldl_range_pointwise (fun _ s old =>
    Some (match old with Some l => add_all l (KeySet s) | None => s end))).
  - intros acc k' s. unfold add_missing. destruct (acc !! k'); by rewrite lookup_insert_eq.
  - intros acc k' s k'' Hne. unfold add_missing. destruct (acc !! k'); by rewrite lookup_insert_ne.
Qed.

Lemma remove_useless_lookup (latest local : ReverseTotal) k :
  foldl (remove_useless latest) local (range local) !! k =
  match local !! k with
  | Some l => (fun s => keep_only s l (KeySet l)) <$> latest !! k
  | None => None
  end.
Proof.
  rewrite (foldl_range_pointwise (fun k l _ => (fun s => keep_only s l (KeySet l)) <$> latest !! k)).
  - by destruct (local !! k).
  - intros acc k' l. unfold remove_useless. destruct (latest !! k'); simpl;
      [by rewrite lookup_insert_eq|by rewrite lookup_delete_eq].
  - intros acc k' l k'' Hne. unfold remove_useless. destruct (latest !! k'); simpl;
      [by rewrite lookup_insert_ne|by rewrite lookup_delete_ne].
Qed.

Lemma merge_lookup latest local k :
  merge_reverse latest local !! k =
  (fun s => let l := match local !! k with Some l => add_all l (KeySet s) | None => s end in
            keep_only s l (KeySet l)) <$> latest !! k.
Proof.
  unfold merge_reverse. rewrite remove_useless_lookup, add_missing_lookup.
  destruct (latest !! k) as [s|]; simpl; [done|]. by destruct (local !! k).
Qed.

Lemma merge_entry latest local m x :
  entry (merge_reverse latest local) m x =
  match entry latest m x with
  | None => None
  | Some i =>
      match local !! m with
      | None => Some i
      | Some _ => Some (default (mkInfo x UnHealthy) (entry local m x))
      end
  end.
Proof.
  unfold entry. rewrite merge_lookup. destruct (latest !! m) as [s|]; simpl; [|done].
  set (l := match local !! m with Some _ => _ | None => _ end).
  assert (keep_only s l (KeySet l) !! x = if HasKey s x then l !! x else None) as ->.
  { rewrite keep_only_lookup. destruct (HasKey s x); simpl; [done|].
    case_bool_decide as E; [done|]. rewrite KeySet_elem in E. by apply eq_None_not_Some. }
  unfold HasKey. case_bool_decide as Hs.
  - destruct Hs as [i Hi]. rewrite Hi. unfold l. destruct (local !! m) as [l0|]; [|done]. simpl.
    rewrite add_all_lookup. destruct (l0 !! x); [done|]. simpl.
    rewrite bool_decide_eq_true_2; [done|]. apply KeySet_elem. by eexists.
  - by rewrite (proj2 (eq_None_not_Some _) Hs).
Qed.

Lemma merge_reversing latest local m x :
  reversing (merge_reverse latest local) m x <-> reversing latest m x.
Proof.
  unfold reversing. rewrite merge_entry. destruct (entry latest m x); [|done].
  destruct (local !! m); split; intros _; by eexists.
Qed.
End merging.

(** ** The watchers together

    The daemon starts a watcher for a kubeconfig and a namespace when it is first
    asked about them and never stops one; all of them share the package's variables.
    The informer of a watcher delivers the events of its config map: it is added when
    absent, updated from the data seen last, deleted with the data seen last.  After a
    missed deletion a new config map comes as an update; the handler does not look at
    its uid then and keeps the old one; a deletion that the informer only finds when it
    lists again, which the handler's type assertion does not survive, is not an event
    here.  Besides, a resource is taken from a status
    when it is no longer reversed ([deleteByResource]), all those of this machine when
    it leaves a namespace ([disconnectedFromNamespace]), and the health of the
    connection is measured.  The handlers run under one lock, so that each is a step;
    that a full queue would hold them up is not modelled. *)

Inductive cm_event :=
  | EvAdd (configUid : gostring) (data : gmap gostring gostring)
  | EvUpdate (data : gmap gostring gostring)
  | EvDelete.

Inductive sys_event :=
  | Started (client : bool) (kubeconfigBytes namespace : gostring)
  | Delivered (key : gostring) (e : cm_event)
  | Removed (n : status) (resource : gostring)
  | Left (kubeconfigBytes namespace : gostring)
  | Pinged (ok : bool).

Section informer.
Context `{!MapOrder gostring} `{!Clock} `{!Keys} (mac : gostring).

(** What leaving a namespace does to the status of it. *)
Definition leave_status (kubeconfigBytes namespace : gostring) (st : vpnState) : vpnState :=
  let key := GenerateKey kubeconfigBytes namespace in
  match statusInfo st !! key with
  | Some value =>
      mkVpn (<[key := with_reverse value (fst (LoadAndDeleteBelongToMeResources mac (reverse value)))]> (statusInfo st))
        (connectInfo st) (funcChan st)
  | None => st
  end.

(** A watcher: its handler, the data it saw last, the resources that were taken from
    its status since, and whether those of this machine were. *)
Record watchState := mkWatch {
  w_handler : resourceHandler;
  w_last : option (gmap gostring gostring);
  w_removed : gset gostring;
  w_left : bool
}.

Record system := mkSys {
  sy_watchers : gmap gostring watchState;
  sy_vpn : vpnState
}.

Definition sys_init : system := mkSys ∅ (mkVpn ∅ zeroConnect []).

(** An event the informer cannot deliver in a state changes nothing. *)
Definition deliver (key : gostring) (e : cm_event) (sy : system) : system :=
  match sy_watchers sy !! key with
  | None => sy
  | Some w =>
      match e, w_last w with
      | EvAdd configUid data, None =>
          let '(h, st) := OnAdd mac (w_handler w) configUid data (sy_vpn sy) in
          mkSys (<[key := mkWatch h (Some data) ∅ false]> (sy_watchers sy)) st
      | EvUpdate data, Some old =>
          mkSys (<[key := mkWatch (w_handler w) (Some data) ∅ false]> (sy_watchers sy)) (OnUpdate mac (w_handler w) old data (sy_vpn sy))
      | EvDelete, Some old =>
          mkSys (<[key := mkWatch (w_handler w) None ∅ false]> (sy_watchers sy)) (OnDelete mac (w_handler w) old (sy_vpn sy))
      | _, _ => sy
      end
  end.

(** Without a client there is no watcher. *)
Definition GetOrGenerateConfigMapWatcher (client : bool) (kubeconfigBytes namespace : gostring) (sy : system) : system :=
  let k := GenerateKey kubeconfigBytes namespace in
  match sy_watchers sy !! k with
  | Some _ => sy
  | None =>
      if negb client then sy else
      mkSys (<[k := mkWatch (mkHandler [] namespace kubeconfigBytes) None ∅ false]> (sy_watchers sy)) (sy_vpn sy)
  end.

Definition sys_step (sy : system) (e : sys_event) : system :=
  match e with
  | Started client kube ns => GetOrGenerateConfigMapWatcher client kube ns sy
  | Delivered key e => deliver key e sy
  | Removed n resource =>
      mkSys (alter (fun w => mkWatch (w_handler w) (w_last w) ({[resource]} ∪ w_removed w) (w_left w))
               (GenerateKey (st_kubeconfigBytes n) (st_namespace n)) (sy_watchers sy)) (deleteByResource n (sy_vpn sy) resource)
  | Left kube ns =>
      mkSys (alter (fun w => mkWatch (w_handler w) (w_last w) (w_removed w) true) (GenerateKey kube ns) (sy_watchers sy))
        (leave_status kube ns (sy_vpn sy))
  | Pinged ok => mkSys (sy_watchers sy) (checkConnect ok (sy_vpn sy))
  end.

(** The data list this machine. *)
Definition lists_me (d : gmap gostring gostring) : bool := IsConnected mac (FromStringToConnectInfo (data_at d Connect)).

(** The connection is to the config map of a watcher, which lists this machine. *)
Definition holds (w : watchState) (c : ConnectInfo) : Prop :=
  (uid c, ci_kubeconfigBytes c, ci_namespace c) =
    (h_uid (w_handler w), h_kubeconfigBytes (w_handler w), h_namespace (w_handler w)) /\
  exists d, w_last w = Some d /\ lists_me d = true.

Definition holder (sy : system) : Prop := exists k w, sy_watchers sy !! k = Some w /\ holds w (connectInfo (sy_vpn sy)).

(** The resource of a machine was not taken from the status. *)
Definition kept (w : watchState) (m x : gostring) : Prop := x ∉ w_removed w /\ (w_left w = true -> m <> mac).

(** The status of a watcher's namespace: the resources of its config map, but for
    those taken away since it was seen; none when there is no config map. *)
Definition status_of (k : gostring) (w : watchState) (st : vpnState) : Prop :=
  match w_last w with
  | Some d => exists s, statusInfo st !! k = Some s /\
      forall m x, reversing (reverse s) m x <-> reversing (FromStringToReverseTotal (data_at d REVERSE)) m x /\ kept w m x
  | None => statusInfo st !! k = None
  end.

Record sys_ok (sy : system) : Prop := {
  own_key : forall k w, sy_watchers sy !! k = Some w -> toKey (w_handler w) = k;
  statuses : forall k w, sy_watchers sy !! k = Some w -> status_of k w (sy_vpn sy);
  unwatched : forall k, sy_watchers sy !! k = None -> statusInfo (sy_vpn sy) !! k = None;
  connection : uid (connectInfo (sy_vpn sy)) = [] \/ holder sy
}.

Lemma modify_tracks h d info :
  exists s, modifyReverseInfo h (ToStatus d) info !! toKey h = Some s /\
    forall m x, reversing (reverse s) m x <-> reversing (FromStringToReverseTotal (data_at d REVERSE)) m x.
Proof.
  unfold modifyReverseInfo. destruct (info !! toKey h) as [local|]; rewrite lookup_insert_eq;
    eexists; (split; [done|]); intros m x; [apply merge_reversing|done].
Qed.

Lemma modify_others h d info k : k <> toKey h -> modifyReverseInfo h (ToStatus d) info !! k = info !! k.
Proof. intros Hne. unfold modifyReverseInfo. destruct (info !! toKey h); by rewrite lookup_insert_ne. Qed.

(** What a handler does to the shared state, seen from its watcher [k]: the statuses of
    the others stay, and the connection is to this one, or is ended, or stays. *)
Lemma sys_ok_put sy k w w' st :
  sys_ok sy -> sy_watchers sy !! k = Some w -> toKey (w_handler w') = k -> status_of k w' st ->
  (forall k', k' <> k -> statusInfo st !! k' = statusInfo (sy_vpn sy) !! k') ->
  (holds w' (connectInfo st) \/ uid (connectInfo st) = [] \/
   (connectInfo st = connectInfo (sy_vpn sy) /\ ~ holds w (connectInfo (sy_vpn sy)))) ->
  sys_ok (mkSys (<[k := w']> (sy_watchers sy)) st).
Proof.
  intros Hok Hw Hk Hs Hoth Hc. split; cbn [sy_watchers sy_vpn].
  - intros k' x [[<- <-]|[Hne Hx]]%lookup_insert_Some; [done|]. by apply (own_key sy Hok).
  - intros k' x [[<- <-]|[Hne Hx]]%lookup_insert_Some; [done|]. pose proof (statuses sy Hok k' x Hx) as H'.
    unfold status_of in *. by rewrite (Hoth k') by done.
  - intros k' [Hne Hx]%lookup_insert_None. rewrite (Hoth k') by done. by apply (unwatched sy Hok).
  - destruct Hc as [Hc|[Hc|[Hc Hn]]]; [right|by left|].
    + exists k, w'. cbn. by rewrite lookup_insert_eq.
    + rewrite Hc. destruct (connection sy Hok) as [He|(k' & x & Hx & Hh)]; [by left|right].
      exists k', x. cbn. rewrite Hc. split; [|done]. rewrite lookup_insert_ne; [done|]. intros <-. by simplify_eq.
Qed.

Lemma connected_holds h d c r b :
  lists_me d = true -> holds (mkWatch h (Some d) r b) (connected_to mac h (ToStatus d) c).
Proof. intros Hd. split; [done|]. by exists d. Qed.

Lemma deliver_ok key e sy : sys_ok sy -> sys_ok (deliver key e sy).
Proof.
  intros Hok. unfold deliver. destruct (sy_watchers sy !! key) as [w|] eqn:Hw; [|done].
  pose proof (own_key sy Hok key w Hw) as Hk.
  assert (forall d, status_of key (mkWatch (w_handler w) (Some d) ∅ false) (mkVpn (modifyReverseInfo (w_handler w) (ToStatus d) (statusInfo (sy_vpn sy))) zeroConnect [])) as Hst.
  { intros d. destruct (modify_tracks (w_handler w) d (statusInfo (sy_vpn sy))) as (x & Hx & Hr). exists x. cbn [statusInfo]. rewrite <- Hk.
    split; [done|]. intros m y. rewrite Hr. unfold kept. cbn. set_solver. }
  assert (forall d st, statusInfo st = modifyReverseInfo (w_handler w) (ToStatus d) (statusInfo (sy_vpn sy)) ->
    forall k', k' <> key -> statusInfo st !! k' = statusInfo (sy_vpn sy) !! k') as Hoth.
  { intros d st -> k' Hne. apply modify_others. by rewrite Hk. }
  destruct e as [u d|d|], (w_last w) as [old|] eqn:Hl; try done.
  - unfold OnAdd. cbv zeta. set (h := mkHandler u _ _).
    assert (modifyReverseInfo h (ToStatus d) (statusInfo (sy_vpn sy)) = modifyReverseInfo (w_handler w) (ToStatus d) (statusInfo (sy_vpn sy))) as -> by done.
    destruct (IsConnected mac (connect (ToStatus d))) eqn:E; (eapply sys_ok_put; [done|done|exact Hk|exact (Hst d)|by apply (Hoth d)|]); cbn [connectInfo].
    + left. by apply connected_holds.
    + right. right. split; [done|]. intros [_ (d' & Hd' & _)]. congruence.
  - unfold OnUpdate. cbv zeta.
    destruct (IsConnected mac (connect (ToStatus d))) eqn:E;
      [eapply sys_ok_put; [done|done|exact Hk|exact (Hst d)|by apply (Hoth d)|]; cbn [connectInfo]; left; by apply connected_holds|].
    destruct (IsConnected mac (connect (ToStatus old))) eqn:Eo; cbn [andb negb].
    + destruct (IsSameUid (connectInfo (sy_vpn sy)) (h_uid (w_handler w))) eqn:Eu;
        (eapply sys_ok_put; [done|done|exact Hk|exact (Hst d)|by apply (Hoth d)|]); cbn [connectInfo].
      * right. left. done.
      * right. right. split; [done|]. intros [Hh _]. unfold IsSameUid in Eu. apply bool_decide_eq_false in Eu. congruence.
    + eapply sys_ok_put; [done|done|exact Hk|exact (Hst d)|by apply (Hoth d)|]; cbn [connectInfo].
      right. right. split; [done|]. intros [_ (d' & Hd' & Hme)]. rewrite Hl in Hd'. injection Hd' as <-. unfold lists_me in Hme.
      cbn [connect ToStatus] in Eo. congruence.
  - assert (forall st, statusInfo st = delete (toKey (w_handler w)) (statusInfo (sy_vpn sy)) ->
      status_of key (mkWatch (w_handler w) None ∅ false) st /\
      forall k', k' <> key -> statusInfo st !! k' = statusInfo (sy_vpn sy) !! k') as Hdel.
    { intros st E. unfold status_of. cbn [w_last]. rewrite E, Hk. split; [apply lookup_delete_eq|]. intros k' Hne. by rewrite lookup_delete_ne. }
    unfold OnDelete. cbv zeta. destruct (IsConnected mac (connect (ToStatus old))) eqn:Eo; cbn [andb].
    + destruct (IsSameUid (connectInfo (sy_vpn sy)) (h_uid (w_handler w))) eqn:Eu;
        (eapply sys_ok_put; [done|done|exact Hk|by apply Hdel|by apply Hdel|]); cbn [connectInfo].
      * right. left. done.
      * right. right. split; [done|]. intros [Hh _]. unfold IsSameUid in Eu. apply bool_decide_eq_false in Eu. congruence.
    + eapply sys_ok_put; [done|done|exact Hk|by apply Hdel|by apply Hdel|]; cbn [connectInfo].
      right. right. split; [done|]. intros [_ (d' & Hd' & Hme)]. rewrite Hl in Hd'. injection Hd' as <-. unfold lists_me in Hme.
      cbn [connect ToStatus] in Eo. congruence.
Qed.

Lemma started_ok client kube ns sy : sys_ok sy -> sys_ok (GetOrGenerateConfigMapWatcher client kube ns sy).
Proof.
  intros Hok. unfold GetOrGenerateConfigMapWatcher. destruct (sy_watchers sy !! GenerateKey kube ns) eqn:Hw; [done|].
  destruct client; [|done]. cbn [negb].
  split; cbn [sy_watchers sy_vpn].
  - intros k w [[<- <-]|[Hne Hx]]%lookup_insert_Some; [done|]. by apply (own_key sy Hok).
  - intros k w [[<- <-]|[Hne Hx]]%lookup_insert_Some; [by apply (unwatched sy Hok)|]. by apply (statuses sy Hok).
  - intros k [Hne Hx]%lookup_insert_None. by apply (unwatched sy Hok).
  - destruct (connection sy Hok) as [He|(k & w & Hk & Hh)]; [by left|right]. exists k, w. cbn. split; [|done].
    rewrite lookup_insert_ne; [done|]. intros <-. by simplify_eq.
Qed.

Lemma reversing_delete (r : ReverseTotal) resource m x :
  reversing ((fun v => DeleteByKeys v [resource]) <$> r) m x <-> reversing r m x /\ x <> resource.
Proof.
  unfold reversing, entry. rewrite lookup_fmap. destruct (r !! m) as [v|]; cbn [fmap option_fmap option_map mbind option_bind].
  - rewrite DeleteByKeys_lookup. case_bool_decide as E; rewrite list_elem_of_singleton in E; [|naive_solver].
    subst x. split; [by intros [? ?]|naive_solver].
  - split; [by intros [? ?]|]. by intros [[? ?] _].
Qed.

(** Resources are taken from the status of one namespace, [T] telling which stay. *)
Lemma taken_ok (f : watchState -> watchState) (g : ReverseTotal -> ReverseTotal) (T : gostring -> gostring -> Prop) key sy st :
  sys_ok sy -> connectInfo st = connectInfo (sy_vpn sy) ->
  (forall k, statusInfo st !! k =
    if decide (k = key) then (fun s => with_reverse s (g (reverse s))) <$> statusInfo (sy_vpn sy) !! k else statusInfo (sy_vpn sy) !! k) ->
  (forall w, w_handler (f w) = w_handler w /\ w_last (f w) = w_last w) ->
  (forall w m x, kept (f w) m x <-> kept w m x /\ T m x) -> (forall r m x, reversing (g r) m x <-> reversing r m x /\ T m x) ->
  sys_ok (mkSys (alter f key (sy_watchers sy)) st).
Proof.
  intros Hok Ec Es Hf Hk Hg.
  assert (forall k w, alter f key (sy_watchers sy) !! k = Some w ->
    exists w0, sy_watchers sy !! k = Some w0 /\ w = if decide (k = key) then f w0 else w0) as Hal.
  { intros k w Hw. destruct (decide (k = key)) as [->|Hne].
    - rewrite lookup_alter_eq in Hw. destruct (sy_watchers sy !! key) as [w0|]; [|done]. injection Hw as <-. eauto.
    - rewrite lookup_alter_ne in Hw by done. eauto. }
  split; cbn [sy_watchers sy_vpn].
  - intros k w (w0 & Hw & ->)%Hal. pose proof (own_key sy Hok k w0 Hw). case_decide; [by rewrite (proj1 (Hf w0))|done].
  - intros k w (w0 & Hw & ->)%Hal. pose proof (statuses sy Hok k w0 Hw) as Hs. unfold status_of in *. rewrite Es.
    destruct (decide (k = key)); [|done]. rewrite (proj2 (Hf w0)). destruct (w_last w0) as [d|]; [|by rewrite Hs].
    destruct Hs as (s & -> & Hr). eexists. split; [done|]. intros m x. cbn [reverse with_reverse]. rewrite Hg, Hr, Hk. tauto.
  - intros k Hn. rewrite Es. assert (sy_watchers sy !! k = None) as Hn'.
    { destruct (decide (k = key)) as [->|Hne]; [|by rewrite lookup_alter_ne in Hn]. rewrite lookup_alter_eq in Hn.
      by destruct (sy_watchers sy !! key). }
    rewrite (unwatched sy Hok k Hn'). by case_decide.
  - rewrite Ec. destruct (connection sy Hok) as [He|(k & w & Hw & Hh)]; [by left|right].
    exists k, (if decide (k = key) then f w else w). cbn. rewrite Ec. split.
    + case_decide; [subst k; by rewrite lookup_alter_eq, Hw|by rewrite lookup_alter_ne].
    + case_decide; [|done]. unfold holds. by rewrite (proj1 (Hf w)), (proj2 (Hf w)).
Qed.

Lemma put_status (info : gmap gostring status) key (g : status -> status) k :
  match info !! key with Some s => <[key := g s]> info | None => info end !! k =
  if decide (k = key) then g <$> info !! k else info !! k.
Proof.
  destruct (info !! key) as [s|] eqn:E; case_decide; subst; [by rewrite lookup_insert_eq, E|by rewrite lookup_insert_ne|by rewrite E|done].
Qed.

Lemma removed_ok n resource sy : sys_ok sy -> sys_ok (sys_step sy (Removed n resource)).
Proof.
  intros Hok. cbn [sys_step]. eapply (taken_ok _ (fmap (fun v => DeleteByKeys v [resource])) (fun _ x => x <> resource)); [done|..].
  - unfold deleteByResource. by destruct (statusInfo (sy_vpn sy) !! _).
  - intros k. rewrite <- put_status. unfold deleteByResource. by destruct (statusInfo (sy_vpn sy) !! GenerateKey _ _).
  - done.
  - intros w m x. unfold kept. cbn. set_solver.
  - intros r m x. apply reversing_delete.
Qed.

Lemma left_ok kube ns sy : sys_ok sy -> sys_ok (sys_step sy (Left kube ns)).
Proof.
  intros Hok. cbn [sys_step].
  eapply (taken_ok _ (fun r => fst (LoadAndDeleteBelongToMeResources mac r)) (fun m _ => m <> mac)); [done|..].
  - unfold leave_status. by destruct (statusInfo (sy_vpn sy) !! _).
  - intros k. rewrite <- (put_status _ _ (fun s => with_reverse s (fst (LoadAndDeleteBelongToMeResources mac (reverse s))))).
    unfold leave_status. by destruct (statusInfo (sy_vpn sy) !! GenerateKey _ _).
  - done.
  - intros w m x. unfold kept. cbn. naive_solver.
  - intros r m x. unfold reversing, entry, LoadAndDeleteBelongToMeResources. cbn [fst]. rewrite lookup_delete. case_decide as E; [|naive_solver].
    subst. cbn. split; [by intros [? ?]|naive_solver].
Qed.

Lemma ping_ok ok sy : sys_ok sy -> sys_ok (sys_step sy (Pinged ok)).
Proof.
  intros [H1 H2 H3 H4]. cbn [sys_step]. unfold checkConnect. destruct (negb _) eqn:E; [|by destruct sy].
  split; cbn [sy_watchers sy_vpn]; [done|done|done|]. destruct H4 as [He|(k & w & Hk & Hh)]; [by left|right]. by exists k, w.
Qed.

Lemma run_ok events : sys_ok (foldl sys_step sys_init events).
Proof.
  assert (sys_ok sys_init) as Hi.
  { split; cbn; [intros *; by rewrite lookup_empty|intros *; by rewrite lookup_empty|intros; apply lookup_empty|by left]. }
  revert Hi. generalize sys_init. induction events as [|e l IH]; intros sy Hi; [done|]. cbn [foldl]. apply IH.
  destruct e; [by apply started_ok|by apply deliver_ok|by apply removed_ok|by apply left_ok|by apply ping_ok].
Qed.

(** ** Theorems *)

(** refreshing the status of a namespace makes its reversed resources those
    of the config map, machine by machine, and keeps the health already
    measured for those that stay; new ones of a known machine start unhealthy. *)
Theorem refresh_keeps_health h latest info local :
  info !! toKey h = Some local ->
  exists s, modifyReverseInfo h latest info !! toKey h = Some s /\
    dom (reverse s) = dom (reverse latest) /\
    forall m x,
      (reversing (reverse s) m x <-> reversing (reverse latest) m x) /\
      (forall i, entry (reverse local) m x = Some i -> reversing (reverse latest) m x ->
         entry (reverse s) m x = Some i) /\
      (is_Some (reverse local !! m) -> entry (reverse local) m x = None ->
         reversing (reverse latest) m x -> entry (reverse s) m x = Some (mkInfo x UnHealthy)).
Proof.
  intros Hl. unfold modifyReverseInfo. rewrite Hl, lookup_insert_eq. eexists. split; [done|]. simpl. split.
  - apply set_eq. intros m. rewrite !elem_of_dom, merge_lookup. by rewrite fmap_is_Some.
  - intros m x. split; [apply merge_reversing|]. unfold reversing. rewrite merge_entry. split.
    + intros i Hi [j ->]. unfold entry in *. destruct (reverse local !! m); [|done]. simpl in *. by rewrite Hi.
    + intros [l Hm] Hn [j ->]. by rewrite Hm, Hn.
Qed.

(** A resync: watchers report their config maps unchanged. *)
Definition resync (sy : system) (k : gostring) : system :=
  match sy_watchers sy !! k with
  | Some w => match w_last w with Some d => deliver k (EvUpdate d) sy | None => sy end
  | None => sy
  end.

(** The data each watcher saw last. *)
Definition seen (sy : system) (k : gostring) : option (gmap gostring gostring) := sy_watchers sy !! k ≫= w_last.

Lemma resync_seen sy k k' : seen (resync sy k) k' = seen sy k'.
Proof.
  unfold resync, deliver, seen. destruct (sy_watchers sy !! k) as [w|] eqn:Hw; [|done]. destruct (w_last w) as [d|] eqn:Hl; [|done].
  rewrite ?Hw, ?Hl. cbn [sy_watchers]. destruct (decide (k' = k)) as [->|Hne].
  - rewrite lookup_insert_eq, Hw. cbn. by rewrite Hl.
  - by rewrite lookup_insert_ne.
Qed.

(** A resync never ends a connection, and the one of a watcher whose config map
    lists this machine connects to it. *)
Lemma resync_connection sy k :
  (connectInfo (sy_vpn (resync sy k)) = connectInfo (sy_vpn sy) /\ ~ (exists d, seen sy k = Some d /\ lists_me d = true)) \/
  (exists w, sy_watchers (resync sy k) !! k = Some w /\ holds w (connectInfo (sy_vpn (resync sy k)))).
Proof.
  unfold resync, deliver, seen. destruct (sy_watchers sy !! k) as [w|] eqn:Hw; cbn; [|left; split; [done|by intros (d & ? & _)]].
  destruct (w_last w) as [d|] eqn:Hl; [|left; split; [done|by intros (d & ? & _)]].
  unfold OnUpdate. cbv zeta. destruct (IsConnected mac (connect (ToStatus d))) eqn:E.
  - right. cbn. eexists. rewrite lookup_insert_eq. split; [done|]. by apply connected_holds.
  - cbn. left. split; [done|]. intros (d' & [= <-] & Hme). unfold lists_me in Hme. cbn [connect ToStatus] in E. congruence.
Qed.

(** C37: All watchers together, through any sequence of their events - watchers
    started, config maps added, updated and deleted, one resource or all those of this
    machine taken from a status, the connection measured: the one connection of this machine is to a config map
    that a watcher last saw listing this machine, or to none; each watcher's status
    holds exactly the resources its config map was last seen to describe, less those
    taken away since, and is gone once the config map is.  And when the watchers
    report their config maps anew, as they do every five seconds, in any order, and
    one of them lists this machine, the connection is then to one that does. *)
Theorem watcher_tracks_configmap events :
  let sy := foldl sys_step sys_init events in
  (uid (connectInfo (sy_vpn sy)) = [] \/ holder sy) /\
  (forall k w, sy_watchers sy !! k = Some w -> status_of k w (sy_vpn sy)) /\
  forall ks k d, k ∈ ks -> seen sy k = Some d -> lists_me d = true -> holder (foldl resync sy ks).
Proof.
  intros sy. pose proof (run_ok events) as Hok. fold sy in Hok. split; [exact (connection sy Hok)|]. split; [exact (statuses sy Hok)|].
  clear Hok. generalize sy. clear sy. intros sy ks. revert sy.
  induction ks as [|k' ks IH] using rev_ind; intros sy k d Hk Hd Hme; [by apply elem_of_nil in Hk|]. rewrite foldl_snoc.
  set (sy1 := foldl resync sy ks) in *.
  assert (seen sy1 k = Some d) as Hd1.
  { unfold sy1. clear -Hd. revert sy Hd. induction ks as [|x l IHl]; intros sy Hd; [done|]. cbn. apply IHl. by rewrite resync_seen. }
  destruct (resync_connection sy1 k') as [[Ec Hn]|(w & Hw & Hh)]; [|by exists k', w].
  apply elem_of_app in Hk as [Hk| ->%list_elem_of_singleton]; [|exfalso; apply Hn; eauto].
  destruct (IH sy k d Hk Hd Hme) as (k1 & w1 & Hw1 & Hh1). fold sy1 in Hw1, Hh1.
  assert (k1 <> k') as Hne. { intros ->. apply Hn. unfold seen. rewrite Hw1. destruct Hh1 as [_ (d1 & ? & ?)]. eauto. }
  exists k1, w1. rewrite Ec. split; [|done]. unfold resync, deliver.
  destruct (sy_watchers sy1 !! k') as [w'|] eqn:Hw'; [|done]. destruct (w_last w'); [|done]. cbn. by rewrite lookup_insert_ne.
Qed.

(** the sudo daemon is asked to connect only when it reports no connection
    to another cluster, or after a successful disconnect from the one it
    reports; it is not asked again when it already has the connection. *)
Theorem connect_request_safe d u kubeconfig ns info :
  sudo_info d = Some info -> uid info <> [] ->
  ReqConnect kubeconfig ns ∈ notifySudoDaemonToConnect d u kubeconfig ns ->
  uid info <> u /\ disconnect_ok d = true /\
  notifySudoDaemonToConnect d u kubeconfig ns =
    [ReqDisConnect (ci_kubeconfigBytes info) (ci_namespace info); ReqConnect kubeconfig ns].
Proof.
  intros Hi Hu. unfold notifySudoDaemonToConnect, getSudoConnectInfo. rewrite Hi. simpl.
  destruct (reachable d); simpl; [|set_solver].
  rewrite (bool_decide_eq_false_2 (uid info = [])) by done. simpl. unfold IsSameUid.
  case_bool_decide as E; [set_solver|]. destruct (disconnect_ok d); [done|].
  rewrite list_elem_of_singleton. done.
Qed.
End informer.

(** ** Witnesses *)

#[local] Instance demo_clock : Clock := {| time_now := 0; time_parse := fun _ => None; time_format := fun _ => [] |}.
#[local] Instance demo_keys : Keys := {| GenerateKey := fun k ns => ns ++ go "/" ++ k |}.

Definition demo_handler : resourceHandler := mkHandler (go "u1") (go "ns") (go "kube").

(** Alice's machine reverses two resources, one of them found healthy. *)
Definition local_status : status :=
  mkStatus (go "kube") (go "ns")
    {[mac_a := {[go "deployments/a" := mkInfo (go "deployments/a") Healthy;
                 go "deployments/b" := mkInfo (go "deployments/b") UnHealthy]}]} ∅ ∅ ∅.

Definition latest_status : status :=
  mkStatus [] [] {[mac_a := {[go "deployments/a" := mkInfo (go "deployments/a") UnHealthy]}]} ∅ ∅ ∅.

Lemma refresh_keeps_health_witness :
  exists s, modifyReverseInfo demo_handler latest_status {[toKey demo_handler := local_status]} !! toKey demo_handler
      = Some s /\
    entry (reverse s) mac_a (go "deployments/a") = Some (mkInfo (go "deployments/a") Healthy).
Proof.
  destruct (refresh_keeps_health demo_handler latest_status {[toKey demo_handler := local_status]} local_status)
    as (s & Hs & _ & Hall).
  - reflexivity.
  - exists s. split; [exact Hs|]. apply (Hall mac_a (go "deployments/a")).
    + reflexivity.
    + by eexists.
Defined.

Definition busy_sudo : sudoDaemon :=
  {| reachable := true;
     sudo_info := Some (mkConnect (go "u0") (go "kube0") (go "ns0") ∅ [] Healthy);
     disconnect_ok := true |}.

Lemma connect_request_safe_witness :
  go "u0" <> go "u1" /\ disconnect_ok busy_sudo = true /\
  notifySudoDaemonToConnect busy_sudo (go "u1") (go "kube") (go "ns") =
    [ReqDisConnect (go "kube0") (go "ns0"); ReqConnect (go "kube") (go "ns")].
Proof.
  apply (connect_request_safe busy_sudo (go "u1") (go "kube") (go "ns")
           (mkConnect (go "u0") (go "kube0") (go "ns0") ∅ [] Healthy)).
  - reflexivity.
  - discriminate.
  - vm_compute. set_solver.
Defined.
