(* ===== verification/Search.v ===== *)
(** * The resource cache: schemas and queries ([resouce_cache/search.go])

    The daemon answers questions about a cluster's resources from informers,
    which keep the objects of each resource type in a store.  Here are the table
    of supported resource types, built from what the API server discovers and
    from the custom resource definitions, and the queries: by name or through a
    chain of filters on namespace, application, labels and visibility.  A query
    fills in the kind of the objects it returns, which are shared with the
    stores. *)

From stdpp Require Import sorting.
From S2P Require Import Prelude GoStrings FilePath DevDir.
#[local] Open Scope go_scope.

(** ** Groups, versions, kinds and resources *)

Record GroupVersionKind := mkGVK {
  gvk_Group : gostring;
  gvk_Version : gostring;
  gvk_Kind : gostring
}.

Record GroupVersionResource := mkGVR {
  gvr_Group : gostring;
  gvr_Version : gostring;
  gvr_Resource : gostring
}.

#[export] Instance GroupVersionKind_eq_dec : EqDecision GroupVersionKind.
Proof. solve_decision. Defined.

#[export] Instance GroupVersionResource_eq_dec : EqDecision GroupVersionResource.
Proof. solve_decision. Defined.

#[export] Program Instance GroupVersionResource_countable : Countable GroupVersionResource :=
  inj_countable' (fun g => (gvr_Group g, gvr_Version g, gvr_Resource g))
    (fun '(g, v, r) => mkGVR g v r) _.
Next Obligation. by intros []. Qed.

(** [schema.GroupKind]. *)
Definition GroupKind (g : GroupVersionKind) : gostring * gostring := (gvk_Group g, gvk_Kind g).

Definition gvk_Empty (g : GroupVersionKind) : bool :=
  bool_decide (gvk_Group g = []) && bool_decide (gvk_Version g = []) && bool_decide (gvk_Kind g = []).

(** [schema.ParseKindArg]: the kind of [Kind.version.group], if there are two
    dots. *)
Definition ParseKindArg (arg : gostring) : option GroupVersionKind :=
  match Split arg (go ".") with
  | kind :: version :: (_ :: _) as group => Some (mkGVK (Join group (go ".")) version kind)
  | _ => None
  end.

(** [schema.ParseGroupVersion]. *)
Definition ParseGroupVersion (gv : gostring) : option (gostring * gostring) :=
  if bool_decide (gv = []) || bool_decide (gv = slash) then Some ([], [])
  else match Split gv slash with
       | [v] => Some ([], v)
       | [g; v] => Some (g, v)
       | _ => None
       end.

(** [resource.go]. *)
Definition GroupToTypeMap : list (gostring * list gostring) :=
  [(go "Workloads",
    [go "Deployment.v1.apps"; go "StatefulSet.v1.apps"; go "DaemonSet.v1.apps"; go "Job.v1.batch";
     go "CronJob.v1beta1.batch"; go "CronJob.v1.batch"; go "Pod.v1."]);
   (go "Networks",
    [go "Service.v1."; go "Endpoints.v1."; go "Ingress.v1.networking.k8s.io";
     go "NetworkPolicy.v1.networking.k8s.io"]);
   (go "Configurations",
    [go "ConfigMap.v1."; go "Secret.v1."; go "HorizontalPodAutoscaler.v1.autoscaling";
     go "ResourceQuota.v1."; go "PodDisruptionBudget.v1.policy"]);
   (go "Storages",
    [go "PersistentVolume.v1."; go "PersistentVolumeClaim.v1."; go "StorageClass.v1.storage.k8s.io"])].

Record GvkGvrWithAlias := mkGgwa {
  Gvr : GroupVersionResource;
  Gvk : GroupVersionKind;
  alias : list gostring;
  Namespaced : bool
}.

#[export] Instance GvkGvrWithAlias_eq_dec : EqDecision GvkGvrWithAlias.
Proof. solve_decision. Defined.

Definition fullName (gvr : GroupVersionResource) : gostring :=
  gvr_Resource gvr ++
  (if bool_decide (gvr_Version gvr <> []) && bool_decide (gvr_Group gvr <> [])
   then go "." ++ gvr_Version gvr ++ go "." ++ gvr_Group gvr else []).

Definition GetFullName (g : GvkGvrWithAlias) : gostring := fullName (Gvr g).

(** ** What discovery returns *)

Record APIResource := mkAPIResource {
  ar_Name : gostring;
  ar_SingularName : gostring;
  ar_Kind : gostring;
  ar_ShortNames : list gostring;
  ar_Namespaced : bool
}.

Record APIGroupResources := mkAPIGroup {
  GroupName : gostring;
  VersionedResources : gmap gostring (list APIResource)
}.

Record CustomResourceDefinition := mkCRD {
  crd_Group : gostring;
  crd_Kind : gostring;
  crd_NamespaceScoped : bool;
  crd_Versions : list gostring
}.

Inductive search_error :=
  | NoSchema
  | NoApiResource
  | UnknownResourceType
  | SearchNil
  | NoResourceType
  | NotNamespaced
  | NotFound
  | ListError.

(** The first element for which [f] returns. *)
Fixpoint first_some {A B : Type} (f : A -> option B) (l : list A) : option B :=
  match l with
  | [] => None
  | x :: l => match f x with Some b => Some b | None => first_some f l end
  end.

(** The order in which the goroutines of [getCrdSchema] append. *)
Class Schedule := {
  schedule : forall {A : Type}, list A -> list A;
  schedule_perm : forall {A : Type} (l : list A), schedule l ≡ₚ l
}.

Section schema.
Context `{!UnicodeLower} `{!MapOrder gostring} `{!MapOrder (gostring * gostring)} `{!Schedule}.

(** The kinds of a list of arguments. *)
Definition kinds_of (l : list gostring) : gset gostring :=
  foldl (fun m s => match ParseKindArg s with Some g => {[gvk_Kind g]} ∪ m | None => m end) ∅ l.

Definition resourceNeeded : list gostring :=
  ([go "Namespace.v1."] ++ (GroupToTypeMap ≫= snd)) ++ [go "ReplicaSet.v1.apps"].

(** [m.Has(kind)]. *)
Definition needed (kind : gostring) : bool := bool_decide (kind ∈ kinds_of resourceNeeded).

Definition workload_kinds : gset gostring :=
  kinds_of (default [] (snd <$> head GroupToTypeMap)).

(** The entry of a discovered resource. *)
Definition ggwa_of (group version : gostring) (r : APIResource) : GvkGvrWithAlias :=
  let gvr := mkGVR group version (ar_Name r) in
  mkGgwa gvr (mkGVK group version (ar_Kind r))
    (([ar_Name r; ar_SingularName r; ToLower (ar_Kind r)] ++ ar_ShortNames r) ++ [fullName gvr])
    (ar_Namespaced r).

Abbreviation mapping_map := (gmap (gostring * gostring) (list GvkGvrWithAlias)).

Definition group_one (group version : gostring) (acc : mapping_map) (r : APIResource) : mapping_map :=
  if negb (needed (ar_Kind r)) then acc
  else if 0 <? Count (ar_Name r) slash then acc
  else
    let ggwa := ggwa_of group version r in
    match acc !! GroupKind (Gvk ggwa) with
    | Some v => <[GroupKind (Gvk ggwa) := v ++ [ggwa]]> acc
    | None => <[GroupKind (Gvk ggwa) := [ggwa]]> acc
    end.

Definition nameToMapping (apiResources : list APIGroupResources) : mapping_map :=
  foldl (fun acc ag =>
           foldl (fun acc '(version, resources) => foldl (group_one (GroupName ag) version) acc resources)
             acc (range (VersionedResources ag)))
    ∅ apiResources.

Section callbacks.
Context {S : Type} (filter : GvkGvrWithAlias -> S -> S * bool) (addEventHandler : GvkGvrWithAlias -> S -> S).

(** The first version the filter accepts. *)
Fixpoint pick (workload : bool) (l : list GvkGvrWithAlias) (s : S) : S * list GvkGvrWithAlias :=
  match l with
  | [] => (s, [])
  | g :: l =>
      match filter g s with
      | (s, true) => (if workload then addEventHandler g s else s, [g])
      | (s, false) => pick workload l s
      end
  end.

Definition pick_all (m : mapping_map) (s : S) : S * list GvkGvrWithAlias :=
  foldl (fun '(s, result) '(k, l) =>
           let '(s, r) := pick (bool_decide (snd k ∈ workload_kinds)) l s in (s, result ++ r))
    (s, []) (range m).

Definition getSupportedSchema (apiResources : list APIGroupResources) (s : S)
    : S * res search_error (list GvkGvrWithAlias) :=
  let '(s, result) := pick_all (nameToMapping apiResources) s in
  if bool_decide (result = []) then (s, Err NoSchema) else (s, Ok result).
End callbacks.

Definition ConvertGvkToApiResource (gvk : GroupVersionKind) (grs : list APIGroupResources)
    : res search_error APIResource :=
  match first_some (fun gr =>
          if bool_decide (GroupName gr <> gvk_Group gvk) then None
          else first_some (fun '(version, resources) =>
                 if bool_decide (version <> gvk_Version gvk) then None
                 else List.find (fun r => bool_decide (ar_Kind r = gvk_Kind gvk)) resources)
               (range (VersionedResources gr))) grs with
  | Some r => Ok r
  | None => Err NoApiResource
  end.

Definition ConvertCRDToGgwa (crd : CustomResourceDefinition) (agrs : list APIGroupResources)
    : list GvkGvrWithAlias :=
  crd_Versions crd ≫= fun version =>
    let gvk := mkGVK (crd_Group crd) version (crd_Kind crd) in
    match ConvertGvkToApiResource gvk agrs with
    | Err _ => []
    | Ok apiR =>
        let gvr := mkGVR (gvk_Group gvk) (gvk_Version gvk) (ar_Name apiR) in
        [mkGgwa gvr gvk [ar_Name apiR ++ go "." ++ gvr_Version gvr ++ go "." ++ gvr_Group gvr]
           (crd_NamespaceScoped crd)]
    end.

Definition crdGvk : GroupVersionKind :=
  mkGVK (go "apiextensions.k8s.io") (go "v1") (go "CustomResourceDefinition").

(** [crds]: what the listing returns, with [None] for an object that could not
    be converted. *)
Definition getCrdSchema (crds : res search_error (list (option CustomResourceDefinition)))
    (agrs : list APIGroupResources) : res search_error (list GvkGvrWithAlias) :=
  crds <-! crds;
  let found := schedule (omap (fun crd => (fun c => ConvertCRDToGgwa c agrs) <$> crd) crds) ≫= id in
  let all := match ConvertGvkToApiResource crdGvk agrs with
             | Err _ => found
             | Ok apiR =>
                 found ++ [mkGgwa (mkGVR (gvk_Group crdGvk) (gvk_Version crdGvk) (ar_Name apiR)) crdGvk
                   (([ar_Name apiR; ar_SingularName apiR; ToLower (ar_Kind apiR)] ++ ar_ShortNames apiR)
                      ++ [go "crds"]) false]
             end in
  if bool_decide (all = []) then Err NoSchema else Ok all.

(** ** A searcher *)

Record Searcher := mkSearcher {
  kubeconfigBytes : gostring;
  supportSchemaWithAlias : gmap gostring GvkGvrWithAlias;
  SupportSchemaList : list GvkGvrWithAlias
}.

(** What the closures of [initSearcher] write: the table and the resources whose
    informers got an event handler. *)
Record build := mkBuild {
  supportedSchema : gmap gostring GvkGvrWithAlias;
  handlers : list GroupVersionResource
}.

Definition store_aliases (g : GvkGvrWithAlias) (m : gmap gostring GvkGvrWithAlias)
    : gmap gostring GvkGvrWithAlias :=
  foldl (fun m a => if bool_decide (a <> []) then <[a := g]> m else m) m (alias g).

(** [typed_ok]: whether the typed informer factory knows the resource. *)
Definition schema_filter (typed_ok : GroupVersionResource -> bool) (g : GvkGvrWithAlias) (b : build)
    : build * bool :=
  if typed_ok (Gvr g) then (mkBuild (store_aliases g (supportedSchema b)) (handlers b), true)
  else (b, false).

Definition schema_handler (g : GvkGvrWithAlias) (b : build) : build :=
  mkBuild (supportedSchema b) (handlers b ++ [Gvr g]).

(** [admins]: the kubeconfigs known to be a cluster administrator's. *)
Definition initSearcher (typed_ok : GroupVersionResource -> bool) (kubeconfig : gostring)
    (isClusterAdmin : bool) (crds : res search_error (list (option CustomResourceDefinition)))
    (gr : list APIGroupResources) (admins : gset gostring)
    : gset gostring * res search_error (Searcher * list GroupVersionResource) :=
  let admins := if isClusterAdmin then {[kubeconfig]} ∪ admins else admins in
  let crdRestMappingList :=
    if isClusterAdmin then match getCrdSchema crds gr with Ok l => l | Err _ => [] end else [] in
  match getSupportedSchema (schema_filter typed_ok) schema_handler gr (mkBuild ∅ []) with
  | (_, Err e) => (admins, Err e)
  | (b, Ok restMappingList) =>
      let table := foldl (fun m g => store_aliases g m) (supportedSchema b) crdRestMappingList in
      (admins, Ok (mkSearcher kubeconfig table (restMappingList ++ crdRestMappingList), handlers b))
  end.

Definition GetResourceInfo (s : Searcher) (resourceType : gostring) : res search_error GvkGvrWithAlias :=
  match supportSchemaWithAlias s !! ToLower resourceType with
  | Some g => Ok g
  | None => Err UnknownResourceType
  end.
End schema.

(** ** Objects and their owners *)

Record OwnerReference := mkOwner {
  or_APIVersion : gostring;
  or_Kind : gostring;
  or_Name : gostring;
  or_Controller : option bool
}.

(** What a query reads of an API object; [obj_Annotations] is [None] for the nil
    map. *)
Record Obj := mkObj {
  obj_Namespace : gostring;
  obj_Name : gostring;
  obj_Labels : gmap gostring gostring;
  obj_Annotations : option (gmap gostring gostring);
  obj_Deleting : bool;
  obj_Owners : list OwnerReference;
  obj_GVK : GroupVersionKind
}.

#[export] Instance OwnerReference_eq_dec : EqDecision OwnerReference.
Proof. solve_decision. Defined.

#[export] Instance Obj_eq_dec : EqDecision Obj.
Proof. solve_decision. Defined.

Definition DefaultNocalhostApplication : gostring := go "default.application".
Definition NocalhostApplicationName : gostring := go "dev.nocalhost/application-name".
Definition HelmReleaseNameKey : gostring := go "meta.helm.sh/release-name".
Definition DevWorkloadIgnored : gostring := go "nocalhost.dev.workload.ignored".

(** [clientgoutils.GetControllerOfNoCopy]. *)
Definition GetControllerOfNoCopy (refs : list OwnerReference) : option OwnerReference :=
  List.find (fun r => match or_Controller r with Some b => b | None => false end) refs.

Definition nsResource (ns resourceName : gostring) : gostring := ns ++ slash ++ resourceName.

Definition getAppNameOrigin (e : Obj) : gostring :=
  match obj_Deleting e, obj_Annotations e with
  | false, Some annotations =>
      if bool_decide (at_ annotations NocalhostApplicationName <> [])
      then at_ annotations NocalhostApplicationName
      else if bool_decide (at_ annotations HelmReleaseNameKey <> [])
      then at_ annotations HelmReleaseNameKey
      else []
  | _, _ => []
  end.

Definition getAppName (e : Obj) : gostring :=
  let appName := getAppNameOrigin e in
  if bool_decide (appName = []) then DefaultNocalhostApplication else appName.

Definition getOwnRefInfo (e : Obj) : option (gostring * GroupVersionKind) :=
  match GetControllerOfNoCopy (obj_Owners e) with
  | None => None
  | Some ownerRef =>
      match ParseGroupVersion (or_APIVersion ownerRef) with
      | None => None
      | Some (g, v) =>
          Some (nsResource (obj_Namespace e) (or_Name ownerRef), mkGVK g v (or_Kind ownerRef))
      end
  end.

(** ** Informers *)

(** A store holds objects under [namespace/name], or [name] when the object has
    no namespace. *)
Abbreviation store := (gmap gostring Obj).

Definition obj_key (o : Obj) : gostring :=
  if bool_decide (obj_Namespace o = []) then obj_Name o
  else nsResource (obj_Namespace o) (obj_Name o).

(** The stores of the two informer factories. *)
Record informers := mkInformers {
  typed : gmap GroupVersionResource store;
  dynamic : gmap GroupVersionResource store
}.

(** The typed factory's resources and the REST mapper of the client:
    [rest_mapping] gives the resource of a kind and whether it is namespaced. *)
Class Client := {
  typed_ok : GroupVersionResource -> bool;
  rest_mapping : GroupVersionKind -> option (GroupVersionResource * bool);
  kind_for : GroupVersionResource -> option GroupVersionKind
}.

Record criteria := mkCriteria {
  c_search : option Searcher;
  c_resourceType : gostring;
  c_resourceName : gostring;
  c_appName : gostring;
  c_ns : gostring;
  c_label : gmap gostring gostring;
  c_showHidden : bool
}.

Definition newCriteria (search : option Searcher) : criteria := mkCriteria search [] [] [] [] ∅ false.

Definition Criteria (s : option Searcher) : criteria := newCriteria s.

Definition Namespace (namespace : gostring) (c : criteria) : criteria :=
  mkCriteria (c_search c) (c_resourceType c) (c_resourceName c) (c_appName c) namespace (c_label c)
    (c_showHidden c).

Definition AppName (appName : gostring) (c : criteria) : criteria :=
  mkCriteria (c_search c) (c_resourceType c) (c_resourceName c) appName (c_ns c) (c_label c)
    (c_showHidden c).

Definition ResourceType (resourceType : gostring) (c : criteria) : criteria :=
  mkCriteria (c_search c) resourceType (c_resourceName c) (c_appName c) (c_ns c) (c_label c)
    (c_showHidden c).

Definition ResourceName (resourceName : gostring) (c : criteria) : criteria :=
  mkCriteria (c_search c) (c_resourceType c) resourceName (c_appName c) (c_ns c) (c_label c)
    (c_showHidden c).

Definition Label (label : gmap gostring gostring) (c : criteria) : criteria :=
  mkCriteria (c_search c) (c_resourceType c) (c_resourceName c) (c_appName c) (c_ns c) label
    (c_showHidden c).

Definition ShowHidden (showHidden : bool) (c : criteria) : criteria :=
  mkCriteria (c_search c) (c_resourceType c) (c_resourceName c) (c_appName c) (c_ns c) (c_label c)
    showHidden.

Section query.
Context `{!UnicodeLower} `{!MapOrder gostring} `{!Client}.

Definition IsNamespaced (gvr : GroupVersionResource) : option bool :=
  kind ← kind_for gvr;
  mapping ← rest_mapping kind;
  Some (snd mapping).

Definition ResourceForGVK (gvk : GroupVersionKind) : option (GroupVersionResource * bool) :=
  mapping ← rest_mapping gvk;
  nsed ← IsNamespaced (fst mapping);
  Some (fst mapping, nsed).

(** The store behind [informerGetter]: an informer that was never started has an
    empty one. *)
Definition informerGetter (st : informers) (gvr : GroupVersionResource) : store :=
  if typed_ok gvr then default ∅ (typed st !! gvr) else default ∅ (dynamic st !! gvr).

Definition informerGetterGvKVer (st : informers) (gvk : GroupVersionKind) : res search_error store :=
  match ResourceForGVK gvk with
  | Some (gvr, true) => Ok (informerGetter st gvr)
  | _ => Err NotNamespaced
  end.

(** The recursion follows owners; [None] when the fuel is used up. *)
Fixpoint appNameByAnnotationsAndOwnerRef (fuel : nat) (st : informers) (e : Obj) : option gostring :=
  match fuel with
  | 0 => None
  | S fuel =>
      let app := getAppNameOrigin e in
      if bool_decide (app <> []) then Some app
      else
        match getOwnRefInfo e with
        | Some (key, gvk) =>
            match informerGetterGvKVer st gvk with
            | Ok s =>
                match s !! key with
                | Some ownRef => appNameByAnnotationsAndOwnerRef fuel st ownRef
                | None => Some DefaultNocalhostApplication
                end
            | Err _ => Some DefaultNocalhostApplication
            end
        | None => Some DefaultNocalhostApplication
        end
  end.

(** ** Filters *)

Definition filter_namespace (namespace : gostring) (element : list Obj) : list Obj :=
  if bool_decide (namespace = []) then element
  else filter (fun e => obj_Namespace e = namespace) element.

Fixpoint app_loop (fuel : nat) (st : informers) (appName : gostring) (element : list Obj)
    : option (list Obj) :=
  match element with
  | [] => Some []
  | e :: element =>
      app ← appNameByAnnotationsAndOwnerRef fuel st e;
      result ← app_loop fuel st appName element;
      Some (if bool_decide (app = appName) then e :: result else result)
  end.

Definition filter_appName (fuel : nat) (st : informers) (appName : gostring) (element : list Obj)
    : option (list Obj) :=
  if bool_decide (appName = []) then Some element else app_loop fuel st appName element.

Definition labelSelector (element : list Obj) (label : gmap gostring gostring)
    (f : gostring -> gostring -> bool) : list Obj :=
  List.filter (fun e => forallb (fun '(k, v) => f (at_ (obj_Labels e) k) v) (range label)) element.

Definition filter_label (label : gmap gostring gostring) (element : list Obj) : list Obj :=
  labelSelector element label (fun v1 v2 => bool_decide (v1 = v2)).

Definition filter_notLabel (label : gmap gostring gostring) (element : list Obj) : list Obj :=
  labelSelector element label (fun v1 v2 => bool_decide (v1 <> v2)).

Definition name_le (a b : Obj) : Prop := str_le (obj_Name a) (obj_Name b).

#[export] Instance name_le_dec : RelDecision name_le.
Proof. intros a b. unfold name_le. apply _. Defined.

#[export] Instance name_le_total : Total name_le.
Proof. intros a b. apply str_le_total. Qed.

Definition filter_sort (element : list Obj) : list Obj := merge_sort name_le element.

(** ** Queries *)

Definition set_gvk (gvk : GroupVersionKind) (o : Obj) : Obj :=
  if gvk_Empty (obj_GVK o)
  then mkObj (obj_Namespace o) (obj_Name o) (obj_Labels o) (obj_Annotations o) (obj_Deleting o)
         (obj_Owners o) gvk
  else o.

(** The objects of a store that are in [data] get their kind. *)
Definition fill_store (gvk : GroupVersionKind) (data : list Obj) (s : store) : store :=
  foldl (fun s o => alter (set_gvk gvk) (obj_key o) s) s data.

Definition fill (m : GvkGvrWithAlias) (data : list Obj) (st : informers) : informers :=
  if typed_ok (Gvr m)
  then mkInformers (alter (fill_store (Gvk m) data) (Gvr m) (typed st)) (dynamic st)
  else mkInformers (typed st) (alter (fill_store (Gvk m) data) (Gvr m) (dynamic st)).

(** The filters that both kinds of listing end with. *)
Definition select (fuel : nat) (c : criteria) (st : informers) (element : list Obj)
    : option (list Obj) :=
  element ← filter_appName fuel st (c_appName c) element;
  let element := filter_label (c_label c) element in
  let element := if c_showHidden c then element
                 else filter_notLabel {[DevWorkloadIgnored := go "true"]} element in
  Some (filter_sort element).

(** The body, before the deferred function. *)
Definition query_body (fuel : nat) (c : criteria) (mapping : GvkGvrWithAlias) (st : informers)
    : option (res search_error (list Obj)) :=
  let s := informerGetter st (Gvr mapping) in
  let objs := map snd (range s) in
  if negb (Namespaced mapping) then
    if bool_decide (c_resourceName c <> []) then
      match List.find (fun o => bool_decide (obj_Name o = c_resourceName c)) objs with
      | Some o => Some (Ok [o])
      | None => Some (Ok [])
      end
    else Ok <$> select fuel c st objs
  else if bool_decide (c_ns c <> []) && bool_decide (c_resourceName c <> []) then
    match s !! nsResource (c_ns c) (c_resourceName c) with
    | None => Some (Err NotFound)
    | Some item =>
        if bool_decide (c_appName c = []) || bool_decide (c_appName c = getAppName item)
        then Some (Ok [item]) else Some (Ok [])
    end
  else Ok <$> select fuel c st (filter_namespace (c_ns c) objs).

(** The deferred function fills in the kinds of the data; it dereferences the
    searcher, also when there is none. *)
Definition Query (fuel : nat) (c : criteria) (st : informers)
    : outcome (informers * res search_error (list Obj)) :=
  match c_search c with
  | None => Panic
  | Some search =>
      if bool_decide (c_resourceType c = []) then Done (st, Err NoResourceType)
      else
        match GetResourceInfo search (c_resourceType c) with
        | Err e => Done (st, Err e)
        | Ok mapping =>
            match query_body fuel c mapping st with
            | None => Fuel
            | Some (Err e) => Done (st, Err e)
            | Some (Ok data) => Done (fill mapping data st, Ok (map (set_gvk (Gvk mapping)) data))
            end
        end
  end.

Definition QueryOne (fuel : nat) (c : criteria) (st : informers)
    : outcome (informers * res search_error Obj) :=
  r <~ Query fuel c st;
  Done (fst r, match snd r with
               | Err e => Err e
               | Ok [] => Err NotFound
               | Ok (o :: _) => Ok o
               end).

Definition Consume {A : Type} (consumer : list Obj -> res search_error A) (fuel : nat) (c : criteria)
    (st : informers) : outcome (informers * res search_error A) :=
  r <~ Query fuel c st;
  Done (fst r, match snd r with Err e => Err e | Ok l => consumer l end).
End query.

(** ** What the filters select *)

Section selection.
Context `{!UnicodeLower} `{!MapOrder gostring} `{!Client}.
Implicit Types (st : informers) (e o : Obj) (s : store).

(** The object the controller reference of [e] resolves to. *)
Definition owner st e : option Obj :=
  '(key, gvk) ← getOwnRefInfo e;
  match informerGetterGvKVer st gvk with Ok s => s !! key | Err _ => None end.

(** The application of an object: its own annotation, else its owner's
    application, else the default one. *)
Inductive app_of st : Obj -> gostring -> Prop :=
  | app_annotated e : getAppNameOrigin e <> [] -> app_of st e (getAppNameOrigin e)
  | app_owned e o a :
      getAppNameOrigin e = [] -> owner st e = Some o -> app_of st o a -> app_of st e a
  | app_default e :
      getAppNameOrigin e = [] -> owner st e = None -> app_of st e DefaultNocalhostApplication.

(** At most [n] owners are above [e]. *)
Fixpoint depth_le (n : nat) st e : bool :=
  match owner st e with
  | None => true
  | Some o => match n with 0 => false | S n => depth_le n st o end
  end.

Definition matches (c : criteria) st o : Prop :=
  (c_appName c = [] \/ app_of st o (c_appName c)) /\
  (forall k v, c_label c !! k = Some v -> at_ (obj_Labels o) k = v) /\
  (c_showHidden c = true \/ at_ (obj_Labels o) DevWorkloadIgnored <> go "true").

(** Every object is under its key. *)
Definition store_wf s : Prop := forall k o, s !! k = Some o -> obj_key o = k.

Lemma app_step fuel st e :
  appNameByAnnotationsAndOwnerRef (S fuel) st e =
  if bool_decide (getAppNameOrigin e <> []) then Some (getAppNameOrigin e)
  else match owner st e with
       | Some o => appNameByAnnotationsAndOwnerRef fuel st o
       | None => Some DefaultNocalhostApplication
       end.
Proof. unfold owner. simpl. repeat (case_match; simplify_eq/=; try done). Qed.

Lemma app_sound fuel st e a :
  appNameByAnnotationsAndOwnerRef fuel st e = Some a -> app_of st e a.
Proof.
  revert e. induction fuel as [|fuel IH]; intros e; [done|]. rewrite app_step.
  case_bool_decide as Ho; [intros [= <-]; by constructor|].
  destruct (owner st e) as [o|] eqn:E.
  - intros Ha. by eapply app_owned, IH.
  - intros [= <-]. by apply app_default.
Qed.

Lemma app_det st e a b : app_of st e a -> app_of st e b -> a = b.
Proof.
  intros Ha. revert b. induction Ha; intros b Hb; inversion Hb; simplify_eq; auto.
Qed.

Lemma app_total n fuel st e :
  depth_le n st e = true -> n < fuel -> is_Some (appNameByAnnotationsAndOwnerRef fuel st e).
Proof.
  revert fuel e. induction n as [|n IH]; intros fuel e; (destruct fuel as [|fuel]; [lia|]);
    rewrite app_step; simpl; case_bool_decide; try done; destruct (owner st e); try done.
  intros Hd Hn. apply IH; [done|lia].
Qed.

(** An application that there is is found, with fuel for its owners. *)
Lemma app_complete st e a :
  app_of st e a -> exists n, forall fuel, n <= fuel -> appNameByAnnotationsAndOwnerRef fuel st e = Some a.
Proof.
  induction 1 as [e Ha|e o a Ha Ho _ [n IH]|e Ha Ho].
  - exists 1. intros [|fuel] Hf; [lia|]. by rewrite app_step, bool_decide_eq_true_2.
  - exists (S n). intros [|fuel] Hf; [lia|]. rewrite app_step, Ha, bool_decide_eq_false_2, Ho by auto. apply IH. lia.
  - exists 1. intros [|fuel] Hf; [lia|]. by rewrite app_step, Ha, bool_decide_eq_false_2, Ho by auto.
Qed.

Lemma app_loop_total st app l :
  (forall e, e ∈ l -> exists a, app_of st e a) -> exists n, forall fuel, n <= fuel -> is_Some (app_loop fuel st app l).
Proof.
  induction l as [|e l IH]; intros Hl; [by exists 0|]. destruct IH as [n IH]; [set_solver|].
  destruct (Hl e) as [a [m Ha]%app_complete]; [set_solver|]. exists (n `max` m). intros fuel Hf. cbn.
  destruct (IH fuel) as [l' ->]; [lia|]. rewrite (Ha fuel) by lia. by eexists.
Qed.

Lemma app_loop_sound fuel st app l l' :
  app_loop fuel st app l = Some l' ->
  l' `sublist_of` l /\ (forall e, e ∈ l' <-> e ∈ l /\ app_of st e app) /\ (forall e, e ∈ l -> exists a, app_of st e a).
Proof.
  revert l'. induction l as [|e l IH]; intros l'; cbn.
  - intros [= <-]. split_and!; [done|set_solver|set_solver].
  - destruct (appNameByAnnotationsAndOwnerRef fuel st e) as [a|] eqn:Ha; [|done]. cbn. apply app_sound in Ha.
    destruct (app_loop fuel st app l) as [l1|]; [|done]. destruct (IH l1 eq_refl) as (Hsub & Hin & Hall). cbn. intros [= <-].
    split_and!; [case_bool_decide; [by constructor|by apply sublist_cons]| |].
    + intros x. case_bool_decide as E; rewrite ?elem_of_cons, Hin.
      * subst. naive_solver.
      * split; [naive_solver|]. intros [[->|Hx] Hax]; [|done]. destruct E. by eapply app_det.
    + intros x [->|Hx]%elem_of_cons; eauto.
Qed.

(** Objects without annotation whose owners are again such objects. *)
Lemma app_diverges (P : Obj -> Prop) fuel st e :
  (forall e, P e -> getAppNameOrigin e = [] /\ exists o, owner st e = Some o /\ P o) ->
  P e -> appNameByAnnotationsAndOwnerRef fuel st e = None.
Proof.
  intros HP. revert e. induction fuel as [|fuel IH]; intros e He; [done|].
  rewrite app_step. destruct (HP e He) as (-> & o & -> & Ho). rewrite bool_decide_eq_false_2 by auto.
  by apply IH.
Qed.

Lemma app_loop_spec n fuel st app l :
  (forall e, e ∈ l -> depth_le n st e = true) -> n < fuel ->
  exists l', app_loop fuel st app l = Some l' /\ l' `sublist_of` l /\
    forall e, e ∈ l' <-> e ∈ l /\ app_of st e app.
Proof.
  intros Hl Hn. induction l as [|e l IH]; simpl.
  - exists []. split_and!; [done|done|set_solver].
  - destruct IH as (l' & -> & Hsub & Hin); [set_solver|].
    destruct (app_total n fuel st e) as [a Ha]; [apply Hl; set_solver|done|]. rewrite Ha. simpl.
    apply app_sound in Ha. eexists. split; [done|]. case_bool_decide as E.
    + subst. split; [by constructor|]. intros x. rewrite !elem_of_cons, Hin. naive_solver.
    + split; [by apply sublist_cons|]. intros x. rewrite Hin, elem_of_cons. split; [naive_solver|].
      intros [[->|Hx] Hax]; [|done]. destruct E. by eapply app_det.
Qed.

Lemma app_loop_diverges fuel st app l e :
  e ∈ l -> appNameByAnnotationsAndOwnerRef fuel st e = None -> app_loop fuel st app l = None.
Proof.
  intros Hin He. induction Hin as [e l|e y l Hin IH]; simpl; [by rewrite He|].
  rewrite (IH He). by destruct (appNameByAnnotationsAndOwnerRef fuel st y).
Qed.

Lemma labelSelector_sub l label f : labelSelector l label f `sublist_of` l.
Proof.
  unfold labelSelector. induction l as [|x l IH]; simpl; [done|].
  case_match; [by apply sublist_skip|by apply sublist_cons].
Qed.

Lemma elem_of_labelSelector l label f e :
  e ∈ labelSelector l label f <->
  e ∈ l /\ forall k v, label !! k = Some v -> f (at_ (obj_Labels e) k) v = true.
Proof.
  unfold labelSelector. rewrite !list_elem_of_In, List.filter_In, forallb_forall. apply and_iff_compat_l.
  split.
  - intros Hf k v Hk. specialize (Hf (k, v)). apply Hf, list_elem_of_In. by apply elem_of_range.
  - intros Hf [k v] Hin. apply Hf. by apply elem_of_range, list_elem_of_In.
Qed.

(** The applications of the objects, as far as they are asked for. *)
Definition resolved (c : criteria) st (l : list Obj) : Prop := c_appName c = [] \/ forall e, e ∈ l -> exists a, app_of st e a.

(** What [select] returns: the objects that match, sorted by name. *)
Lemma select_sound fuel c st l data :
  select fuel c st l = Some data ->
  (exists l', data ≡ₚ l' /\ l' `sublist_of` l) /\ Sorted name_le data /\ (forall e, e ∈ data <-> e ∈ l /\ matches c st e) /\
  resolved c st l.
Proof.
  unfold select. destruct (filter_appName fuel st (c_appName c) l) as [l1|] eqn:E1; [|done].
  assert (l1 `sublist_of` l /\ (forall e, e ∈ l1 <-> e ∈ l /\ (c_appName c = [] \/ app_of st e (c_appName c))) /\ resolved c st l)
    as (Hs1 & H1 & Hr).
  { unfold filter_appName in E1. case_bool_decide as E.
    - injection E1 as <-. split_and!; [done| |by left]. naive_solver.
    - apply app_loop_sound in E1 as (Hs & Hin & Hall). split_and!; [done| |by right]. naive_solver. }
  cbn [mbind option_bind]. set (l2 := filter_label (c_label c) l1).
  set (l3 := if c_showHidden c then l2 else filter_notLabel _ l2). intros [= <-]. split_and!; [| | |done].
  - exists l3. split; [apply merge_sort_Permutation|]. trans l1; [|done]. trans l2; [|apply labelSelector_sub].
    unfold l3. destruct (c_showHidden c); [done|apply labelSelector_sub].
  - apply (Sorted_merge_sort _).
  - intros e. unfold filter_sort. rewrite merge_sort_Permutation.
    assert (e ∈ l3 <-> e ∈ l2 /\ (c_showHidden c = true \/ at_ (obj_Labels e) DevWorkloadIgnored <> go "true")) as ->.
    { unfold l3. destruct (c_showHidden c); [naive_solver|]. unfold filter_notLabel.
      rewrite elem_of_labelSelector. apply and_iff_compat_l. split.
      - intros Hf. right. specialize (Hf DevWorkloadIgnored (go "true")).
        rewrite lookup_singleton_eq in Hf. by apply (bool_decide_eq_true_1 _), Hf.
      - intros [?|Hne]; [done|]. intros k v [<- <-]%lookup_singleton_Some.
        by apply (bool_decide_eq_true_2 _). }
    unfold l2, filter_label. rewrite elem_of_labelSelector, H1. setoid_rewrite bool_decide_eq_true.
    unfold matches. tauto.
Qed.

Lemma select_total c st l : resolved c st l -> exists n, forall fuel, n <= fuel -> is_Some (select fuel c st l).
Proof.
  intros Hr. assert (exists n, forall fuel, n <= fuel -> is_Some (filter_appName fuel st (c_appName c) l)) as [n Hn].
  { unfold filter_appName. case_bool_decide as E; [by exists 0|]. destruct Hr as [?|Hr]; [done|by apply app_loop_total]. }
  exists n. intros fuel [l1 E]%Hn. unfold select. rewrite E. by eexists.
Qed.

Lemma select_spec n fuel c st l :
  (forall e, e ∈ l -> depth_le n st e = true) -> n < fuel ->
  exists data l', select fuel c st l = Some data /\ data ≡ₚ l' /\ l' `sublist_of` l /\
    Sorted name_le data /\ forall e, e ∈ data <-> e ∈ l /\ matches c st e.
Proof.
  intros Hl Hn. assert (is_Some (select fuel c st l)) as [data E].
  { unfold select, filter_appName. case_bool_decide; [by eexists|].
    destruct (app_loop_spec n fuel st (c_appName c) l Hl Hn) as (l1 & -> & _). by eexists. }
  destruct (select_sound _ _ _ _ _ E) as ((l' & Hp & Hs) & Hsort & Hin & _). by exists data, l'.
Qed.
End selection.

(** ** Stores up to the kinds of their objects

    A query writes to objects it shares with the stores, but only their kind. *)

Section kinds.
Context `{!UnicodeLower} `{!MapOrder gostring} `{!Client}.
Implicit Types (st : informers) (e o : Obj) (s : store) (g : GroupVersionKind).

Definition erase o : Obj :=
  mkObj (obj_Namespace o) (obj_Name o) (obj_Labels o) (obj_Annotations o) (obj_Deleting o)
    (obj_Owners o) (mkGVK [] [] []).

Definition obj_sim o o' : Prop := erase o = erase o'.

Definition informers_sim st st' : Prop :=
  forall gvr, erase <$> informerGetter st gvr = erase <$> informerGetter st' gvr.

#[export] Instance obj_sim_equiv : Equivalence obj_sim.
Proof. unfold obj_sim. split; [done|congruence|congruence]. Qed.

#[export] Instance informers_sim_equiv : Equivalence informers_sim.
Proof. unfold informers_sim. split; [done|congruence|congruence]. Qed.

#[export] Instance origin_proper : Proper (obj_sim ==> eq) getAppNameOrigin.
Proof. intros [] [] [=]. by subst. Qed.

#[export] Instance ownref_proper : Proper (obj_sim ==> eq) getOwnRefInfo.
Proof. intros [] [] [=]. by subst. Qed.

#[export] Instance key_proper : Proper (obj_sim ==> eq) obj_key.
Proof. intros [] [] [=]. by subst. Qed.

#[export] Instance labels_proper : Proper (obj_sim ==> eq) obj_Labels.
Proof. intros [] [] [=]. by subst. Qed.

Lemma set_gvk_sim g o : obj_sim (set_gvk g o) o.
Proof. unfold obj_sim, set_gvk. by destruct (gvk_Empty _). Qed.

Lemma set_gvk_idem g o : set_gvk g (set_gvk g o) = set_gvk g o.
Proof.
  unfold set_gvk. destruct (gvk_Empty (obj_GVK o)) eqn:E; [|by rewrite E].
  cbn. by destruct (gvk_Empty g).
Qed.

Lemma owner_sim st st' e e' :
  informers_sim st st' -> obj_sim e e' -> erase <$> owner st e = erase <$> owner st' e'.
Proof.
  intros Hst He. unfold owner. rewrite He. destruct (getOwnRefInfo e') as [[key gvk]|]; [|done]. simpl.
  unfold informerGetterGvKVer. destruct (ResourceForGVK gvk) as [[gvr []]|]; [|done|done].
  rewrite <- !lookup_fmap. by rewrite Hst.
Qed.

Lemma owner_sim_Some st st' e e' o :
  informers_sim st st' -> obj_sim e e' -> owner st e = Some o ->
  exists o', owner st' e' = Some o' /\ obj_sim o o'.
Proof.
  intros Hst He Ho. pose proof (owner_sim st st' e e' Hst He) as E. rewrite Ho in E.
  destruct (owner st' e') as [o'|]; [|done]. exists o'. split; [done|]. by apply (inj Some) in E.
Qed.

Lemma owner_sim_None st st' e e' :
  informers_sim st st' -> obj_sim e e' -> owner st e = None -> owner st' e' = None.
Proof.
  intros Hst He Ho. pose proof (owner_sim st st' e e' Hst He) as E. rewrite Ho in E.
  by destruct (owner st' e').
Qed.

#[export] Instance app_of_proper : Proper (informers_sim ==> obj_sim ==> eq ==> iff) app_of.
Proof.
  assert (forall st st' e e' a, informers_sim st st' -> obj_sim e e' -> app_of st e a -> app_of st' e' a)
    as Himp.
  { intros st st' e e' a Hst He Ha. revert e' He.
    induction Ha as [e Hn|e o a Hn Ho _ IH|e Hn Ho]; intros e' He.
    - rewrite He. apply app_annotated. by rewrite <- He.
    - destruct (owner_sim_Some _ _ _ _ _ Hst He Ho) as (o' & Ho' & Hs).
      apply app_owned with o'; [by rewrite <- He|done|by apply IH].
    - apply app_default; [by rewrite <- He|by eapply owner_sim_None]. }
  intros st st' Hst e e' He a a' <-. split; apply Himp; done.
Qed.

Lemma depth_sim n st st' e e' :
  informers_sim st st' -> obj_sim e e' -> depth_le n st e = true -> depth_le n st' e' = true.
Proof.
  intros Hst. revert e e'. induction n as [|n IH]; intros e e' He; simpl;
    destruct (owner st e) as [o|] eqn:Ho; try done.
  - intros _. by rewrite (owner_sim_None st st' e e').
  - destruct (owner_sim_Some _ _ _ _ _ Hst He Ho) as (o' & -> & Hs). by apply IH.
  - intros _. by rewrite (owner_sim_None st st' e e').
Qed.

#[export] Instance matches_proper c : Proper (informers_sim ==> obj_sim ==> iff) (matches c).
Proof. intros st st' Hst e e' He. unfold matches. setoid_rewrite He. by setoid_rewrite Hst. Qed.

(** *** What [fill] writes *)

Lemma fill_store_kinds g data s : set_gvk g <$> fill_store g data s = set_gvk g <$> s.
Proof.
  unfold fill_store. revert s. induction data as [|o data IH]; intros s; [done|]. cbn. rewrite IH.
  apply map_eq. intros k. rewrite !lookup_fmap, lookup_alter.
  case_decide; subst; [|done]. destruct (s !! _); simpl; [by rewrite set_gvk_idem|done].
Qed.

Lemma fill_here m data st :
  set_gvk (Gvk m) <$> informerGetter (fill m data st) (Gvr m) =
  set_gvk (Gvk m) <$> informerGetter st (Gvr m).
Proof.
  unfold fill, informerGetter. destruct (typed_ok (Gvr m)); cbn; rewrite lookup_alter_eq.
  - destruct (typed st !! Gvr m); simpl; [apply fill_store_kinds|done].
  - destruct (dynamic st !! Gvr m); simpl; [apply fill_store_kinds|done].
Qed.

Lemma fill_other m data st gvr :
  gvr <> Gvr m -> informerGetter (fill m data st) gvr = informerGetter st gvr.
Proof.
  intros Hne. unfold fill, informerGetter.
  destruct (typed_ok (Gvr m)); cbn; by rewrite ?lookup_alter_ne by done.
Qed.

Lemma fill_lookup m data st k o :
  informerGetter st (Gvr m) !! k = Some o ->
  exists o', informerGetter (fill m data st) (Gvr m) !! k = Some o' /\ obj_sim o o' /\
    set_gvk (Gvk m) o = set_gvk (Gvk m) o'.
Proof.
  intros Hk. pose proof (fill_here m data st) as E. apply (f_equal (.!! k)) in E.
  rewrite !lookup_fmap, Hk in E. destruct (informerGetter (fill m data st) (Gvr m) !! k) as [o'|];
    [|done]. apply (inj Some) in E. exists o'. split_and!; [done| |done].
  rewrite <- (set_gvk_sim (Gvk m) o), <- (set_gvk_sim (Gvk m) o'). by rewrite E.
Qed.

Lemma fill_lookup_inv m data st k o' :
  informerGetter (fill m data st) (Gvr m) !! k = Some o' ->
  exists o, informerGetter st (Gvr m) !! k = Some o /\ obj_sim o o' /\
    set_gvk (Gvk m) o = set_gvk (Gvk m) o'.
Proof.
  intros Hk. destruct (informerGetter st (Gvr m) !! k) as [o|] eqn:E.
  - destruct (fill_lookup m data st k o E) as (o2 & ? & ? & ?). exists o. by simplify_eq.
  - pose proof (fill_here m data st) as H1. apply (f_equal (.!! k)) in H1.
    by rewrite !lookup_fmap, Hk, E in H1.
Qed.

Lemma fill_sim m data st : informers_sim st (fill m data st).
Proof.
  intros gvr. destruct (decide (gvr = Gvr m)) as [->|Hne]; [|by rewrite fill_other].
  apply map_eq. intros k. rewrite !lookup_fmap.
  destruct (informerGetter st (Gvr m) !! k) as [o|] eqn:E.
  - destruct (fill_lookup m data st k o E) as (o' & -> & Hs & _). simpl. by rewrite Hs.
  - destruct (informerGetter (fill m data st) (Gvr m) !! k) as [o'|] eqn:E'; [|done].
    apply fill_lookup_inv in E' as (o & ? & _). congruence.
Qed.
End kinds.

(** ** Theorems on queries *)

Section theorems.
Context `{!UnicodeLower} `{!MapOrder gostring} `{!Client}.
Context (c : criteria) (search : Searcher) (mapping : GvkGvrWithAlias).
Hypothesis Hsearch : c_search c = Some search.
Hypothesis Htype : c_resourceType c <> [].
Hypothesis Hmapping : GetResourceInfo search (c_resourceType c) = Ok mapping.
Implicit Types (st : informers) (o : Obj).

Definition in_namespace o : Prop := c_ns c = [] \/ obj_Namespace o = c_ns c.

Lemma Query_body fuel st :
  Query fuel c st =
  match query_body fuel c mapping st with
  | None => Fuel
  | Some (Err e) => Done (st, Err e)
  | Some (Ok data) => Done (fill mapping data st, Ok (map (set_gvk (Gvk mapping)) data))
  end.
Proof using All. unfold Query. by rewrite Hsearch, bool_decide_eq_false_2, Hmapping by done. Qed.

Lemma elem_of_objs (s : store) o : o ∈ map snd (range s) <-> exists k, s !! k = Some o.
Proof.
  rewrite list_elem_of_fmap. split.
  - intros ([k o'] & -> & Hin%elem_of_range). by exists k.
  - intros [k Hk]. exists (k, o). split; [done|]. by apply elem_of_range.
Qed.

Lemma keys_NoDup (s : store) : store_wf s -> NoDup (map obj_key (map snd (range s))).
Proof.
  intros Hwf. replace (map obj_key (map snd (range s))) with ((range s).*1); [apply NoDup_range_fst|].
  rewrite map_map. apply list_fmap_ext. intros i [k o] Hi. simpl. symmetry. apply Hwf.
  apply elem_of_range. by eapply list_elem_of_lookup_2.
Qed.

Lemma elem_of_filter_namespace ns l o :
  o ∈ filter_namespace ns l <-> o ∈ l /\ (ns = [] \/ obj_Namespace o = ns).
Proof.
  unfold filter_namespace. case_bool_decide; [naive_solver|]. rewrite list_elem_of_filter. naive_solver.
Qed.

Lemma filter_namespace_sub ns l : filter_namespace ns l `sublist_of` l.
Proof. unfold filter_namespace. case_bool_decide; [done|apply sublist_filter]. Qed.

Lemma keys_set_gvk g l : map obj_key (map (set_gvk g) l) = map obj_key l.
Proof. rewrite map_map. apply map_ext. intros o. by rewrite set_gvk_sim. Qed.

Lemma sorted_set_gvk g l : Sorted name_le l -> Sorted name_le (map (set_gvk g) l).
Proof.
  intros Hs. apply Sorted_fmap with (R1 := name_le); [|done].
  intros x y. unfold name_le, set_gvk. repeat case_match; done.
Qed.

(** What a listing of a namespaced resource returns. *)
Lemma listing n fuel st :
  Namespaced mapping = true -> c_ns c = [] \/ c_resourceName c = [] ->
  store_wf (informerGetter st (Gvr mapping)) ->
  (forall k o, informerGetter st (Gvr mapping) !! k = Some o -> depth_le n st o = true) -> n < fuel ->
  exists sel,
    Query fuel c st = Done (fill mapping sel st, Ok (map (set_gvk (Gvk mapping)) sel)) /\
    Sorted name_le sel /\ NoDup (map obj_key sel) /\
    forall o, o ∈ sel <->
      exists k, informerGetter st (Gvr mapping) !! k = Some o /\ in_namespace o /\ matches c st o.
Proof using All.
  intros Hns Hname Hwf Hd Hn.
  destruct (select_spec n fuel c st (filter_namespace (c_ns c) (map snd (range (informerGetter st (Gvr mapping))))))
    as (data & l' & Hsel & Hp & Hsub & Hsort & Hin); [|done|].
  { intros e [He _]%elem_of_filter_namespace. apply elem_of_objs in He as [k Hk]. by eapply Hd. }
  exists data. split_and!; [|done| |].
  - rewrite Query_body. unfold query_body. rewrite Hns. cbn. rewrite Hsel.
    destruct Hname as [->| ->]; [|rewrite (bool_decide_eq_false_2 ([] <> [])), andb_false_r by auto];
      by rewrite ?(bool_decide_eq_false_2 ([] <> [])) by auto.
  - rewrite Hp. eapply sublist_NoDup; [apply (keys_NoDup _ Hwf)|].
    apply (fmap_sublist obj_key). etrans; [apply Hsub|apply filter_namespace_sub].
  - intros o. rewrite Hin, elem_of_filter_namespace, elem_of_objs. unfold in_namespace. naive_solver.
Qed.

(** The objects a listing is about: for a type of the cluster all of them, for a
    namespaced one those of the namespace asked for, or all. *)
Definition in_scope o : Prop := Namespaced mapping = false \/ in_namespace o.

Definition scope st : list Obj :=
  let objs := map snd (range (informerGetter st (Gvr mapping))) in
  if Namespaced mapping then filter_namespace (c_ns c) objs else objs.

Lemma elem_of_scope st o : o ∈ scope st <-> exists k, informerGetter st (Gvr mapping) !! k = Some o /\ in_scope o.
Proof using Type.
  clear Hsearch Htype Hmapping. unfold scope, in_scope, in_namespace. destruct (Namespaced mapping).
  - rewrite elem_of_filter_namespace, elem_of_objs. naive_solver.
  - rewrite elem_of_objs. naive_solver.
Qed.

Lemma scope_sub st : scope st `sublist_of` map snd (range (informerGetter st (Gvr mapping))).
Proof using Type. unfold scope. destruct (Namespaced mapping); [apply filter_namespace_sub|done]. Qed.

Lemma listing_body fuel st :
  c_resourceName c = [] \/ (Namespaced mapping = true /\ c_ns c = []) ->
  query_body fuel c mapping st = Ok <$> select fuel c st (scope st).
Proof using Type.
  intros Hl. unfold query_body, scope. destruct Hl as [->|[-> ->]].
  - rewrite (bool_decide_eq_false_2 ([] <> [])), andb_false_r by auto. by destruct (Namespaced mapping).
  - by rewrite (bool_decide_eq_false_2 ([] <> [])) by auto.
Qed.

(** C23: A listing - a query by type without a name, or for a namespaced type without
    a namespace - returns exactly when the application of every object it is about
    can be told, if one is asked for: no chain of owners without annotation goes on
    for ever ([query_owner_cycle] is a cluster where one does).  Its data are then
    exactly the stored objects whose application (their own annotation, else their
    owners') and labels are those asked for and which are not hidden - of a
    namespaced type those of the namespace asked for, of a type of the cluster all,
    whatever namespace is asked for - each once, sorted by name, with their kind
    filled in. *)
Theorem query_listing st :
  c_resourceName c = [] \/ (Namespaced mapping = true /\ c_ns c = []) -> store_wf (informerGetter st (Gvr mapping)) ->
  let told := c_appName c = [] \/
    forall k o, informerGetter st (Gvr mapping) !! k = Some o -> in_scope o -> exists a, app_of st o a in
  (forall fuel, Query fuel c st <> Fuel -> told) /\
  (told -> exists n, forall fuel, n <= fuel -> exists st' data,
    Query fuel c st = Done (st', Ok data) /\ Sorted name_le data /\ NoDup (map obj_key data) /\
    forall o', o' ∈ data <->
      exists k o, informerGetter st (Gvr mapping) !! k = Some o /\ in_scope o /\ matches c st o /\
        o' = set_gvk (Gvk mapping) o).
Proof using All.
  intros Hl Hwf told. assert (told <-> resolved c st (scope st)) as Ht.
  { unfold told, resolved. split; (intros [Hr|Hr]; [by left|right]).
    - intros e (k & Hk & He)%elem_of_scope. by eapply Hr.
    - intros k o Hk Ho. apply Hr. apply elem_of_scope. eauto. }
  split.
  - intros fuel Hq. apply Ht. rewrite Query_body, listing_body in Hq by done.
    destruct (select fuel c st (scope st)) as [sel|] eqn:Es; [|done]. by apply select_sound in Es as (_ & _ & _ & ?).
  - intros [n Hn]%Ht%select_total. exists n. intros fuel [sel Es]%Hn. rewrite Query_body, listing_body, Es by done.
    apply select_sound in Es as ((l' & Hp & Hsub) & Hs & Hin & _). eexists _, _. split; [done|].
    split; [by apply sorted_set_gvk|]. split.
    + rewrite keys_set_gvk, Hp. eapply sublist_NoDup; [apply (keys_NoDup _ Hwf)|]. apply (fmap_sublist obj_key). etrans; [exact Hsub|apply scope_sub].
    + intros o'. rewrite list_elem_of_fmap. setoid_rewrite Hin. setoid_rewrite elem_of_scope. clear Hl told Ht. naive_solver.
Qed.

(** A listing writes the kinds of the objects it returns into the stores it
    shares them with; that changes nothing for queries: asked again, it returns
    the same data. *)
Theorem query_repeats n fuel st st' data :
  Namespaced mapping = true -> c_ns c = [] \/ c_resourceName c = [] ->
  store_wf (informerGetter st (Gvr mapping)) ->
  (forall k o, informerGetter st (Gvr mapping) !! k = Some o -> depth_le n st o = true) -> n < fuel ->
  Query fuel c st = Done (st', Ok data) ->
  exists st'' data', Query fuel c st' = Done (st'', Ok data') /\ data' ≡ₚ data.
Proof using All.
  intros Hns Hname Hwf Hd Hn Hq. destruct (listing n fuel st) as (sel & Hq1 & _ & Hnd & Hin); try done.
  rewrite Hq in Hq1. simplify_eq.
  destruct (listing n fuel (fill mapping sel st)) as (sel' & Hq' & _ & Hnd' & Hin'); try done.
  - intros k o' (o & Hk & Hs & _)%fill_lookup_inv. rewrite <- Hs. by apply Hwf.
  - intros k o' (o & Hk & Hs & _)%fill_lookup_inv. eapply depth_sim; [apply fill_sim|done|by eapply Hd].
  - eexists _, _. split; [done|]. apply NoDup_Permutation.
    + apply (NoDup_fmap_1 obj_key). change (NoDup (map obj_key (map (set_gvk (Gvk mapping)) sel'))).
      by rewrite keys_set_gvk.
    + apply (NoDup_fmap_1 obj_key). change (NoDup (map obj_key (map (set_gvk (Gvk mapping)) sel))).
      by rewrite keys_set_gvk.
    + assert (forall o o', obj_sim o o' -> in_namespace o <-> in_namespace o') as Hsc.
      { intros [] [] [=]. by subst. }
      intros x. rewrite !list_elem_of_fmap. setoid_rewrite Hin'. setoid_rewrite Hin. split.
      * intros (o' & -> & k & Hk & Hi & Hm). destruct (fill_lookup_inv _ _ _ _ _ Hk) as (o & Ho & Hs & E).
        exists o. split; [done|]. exists k. split_and!; [done|by rewrite Hsc|].
        by rewrite (fill_sim mapping sel st), Hs.
      * intros (o & -> & k & Hk & Hi & Hm). destruct (fill_lookup mapping sel _ _ _ Hk) as (o' & Ho & Hs & E).
        exists o'. split; [done|]. exists k. split_and!; [done|by rewrite <- (Hsc o)|].
        by rewrite <- (fill_sim mapping sel st), <- Hs.
Qed.

(** When a namespaced object that carries no annotation is asked for by name
    together with its owner's application, the answer is empty: the query by
    name does not look at the owners, the listing does. *)
Theorem query_by_name_misses_owner fuel st o o1 :
  Namespaced mapping = true -> c_ns c <> [] -> c_resourceName c <> [] ->
  informerGetter st (Gvr mapping) !! nsResource (c_ns c) (c_resourceName c) = Some o ->
  getAppNameOrigin o = [] -> owner st o = Some o1 -> getAppNameOrigin o1 = c_appName c ->
  c_appName c <> [] -> c_appName c <> DefaultNocalhostApplication ->
  app_of st o (c_appName c) /\ exists st', Query fuel c st = Done (st', Ok []).
Proof using All.
  intros Hns Hn Hr Ho Ha How Ha1 Hne Hnd. split.
  - eapply app_owned; [done|done|]. rewrite <- Ha1. apply app_annotated. by rewrite Ha1.
  - exists (fill mapping [] st). rewrite Query_body. unfold query_body. rewrite Hns. cbn.
    rewrite !bool_decide_eq_true_2 by done. cbn. rewrite Ho. unfold getAppName. rewrite Ha.
    by rewrite (bool_decide_eq_true_2 ([] = [])), !bool_decide_eq_false_2 by done.
Qed.

(** Owner references that form a cycle of objects without annotation make a
    listing by application recurse for ever. *)
Theorem query_owner_cycle (P : Obj -> Prop) fuel st k o :
  (forall e, P e -> getAppNameOrigin e = [] /\ exists e', owner st e = Some e' /\ P e') ->
  Namespaced mapping = true -> c_resourceName c = [] -> c_appName c <> [] ->
  informerGetter st (Gvr mapping) !! k = Some o -> in_namespace o -> P o ->
  Query fuel c st = Fuel.
Proof using All.
  intros HP Hns Hname Happ Ho Hin Hp. rewrite Query_body. unfold query_body. rewrite Hns. cbn.
  rewrite Hname, (bool_decide_eq_false_2 ([] <> [])), andb_false_r by auto. cbn.
  unfold select, filter_appName. rewrite (bool_decide_eq_false_2 (c_appName c = [])) by done.
  rewrite (app_loop_diverges fuel st (c_appName c) _ o); [done| |by apply (app_diverges P)].
  apply elem_of_filter_namespace. split; [|done]. apply elem_of_objs. by exists k.
Qed.
End theorems.

(** ** The table of resource types *)

Lemma foldl_bind {A B C : Type} (f : C -> B -> C) (h : A -> list B) l acc :
  foldl (fun acc x => foldl f acc (h x)) acc l = foldl f acc (l ≫= h).
Proof. revert acc. induction l as [|x l IH]; intros acc; cbn; [done|]. by rewrite IH, foldl_app. Qed.

Section schema_facts.
Context `{!UnicodeLower} `{!MapOrder gostring} `{!MapOrder (gostring * gostring)} `{!Schedule}.
Context (typed_ok : GroupVersionResource -> bool).
Implicit Types (g : GvkGvrWithAlias) (gr : list APIGroupResources) (l : list GvkGvrWithAlias).

#[local] Opaque needed.

(** [g] is the entry of a discovered resource of a kind that is needed. *)
Definition discovered gr g : Prop :=
  exists ag version rs r, ag ∈ gr /\ VersionedResources ag !! version = Some rs /\ r ∈ rs /\
    needed (ar_Kind r) = true /\ Count (ar_Name r) slash = 0 /\
    g = ggwa_of (GroupName ag) version r.

Definition kind_of g : gostring * gostring := GroupKind (Gvk g).

Definition put_mapping (acc : gmap (gostring * gostring) (list GvkGvrWithAlias)) g
    : gmap (gostring * gostring) (list GvkGvrWithAlias) :=
  <[kind_of g := default [] (acc !! kind_of g) ++ [g]]> acc.

Definition wanted (group version : gostring) (r : APIResource) : list GvkGvrWithAlias :=
  if negb (needed (ar_Kind r)) || (0 <? Count (ar_Name r) slash) then []
  else [ggwa_of group version r].

Definition all_wanted gr : list GvkGvrWithAlias :=
  gr ≫= fun ag => range (VersionedResources ag) ≫= fun '(version, rs) => rs ≫= wanted (GroupName ag) version.

Lemma group_one_put group version acc r :
  group_one group version acc r = foldl put_mapping acc (wanted group version r).
Proof.
  unfold group_one, wanted, put_mapping. destruct (needed (ar_Kind r)); [|done]. cbn [orb negb]. destruct (0 <? Count (ar_Name r) slash); [done|].
  cbn. unfold kind_of, ggwa_of. cbn. by destruct (acc !! _).
Qed.

Lemma nameToMapping_put gr : nameToMapping gr = foldl put_mapping ∅ (all_wanted gr).
Proof.
  unfold nameToMapping, all_wanted. rewrite <- foldl_bind. apply foldl_ext'. intros acc ag.
  rewrite <- foldl_bind. apply foldl_ext'. intros acc' [version rs].
  rewrite <- foldl_bind. apply foldl_ext'. intros acc'' r. apply group_one_put.
Qed.

Lemma elem_of_all_wanted gr g : g ∈ all_wanted gr <-> discovered gr g.
Proof.
  unfold all_wanted, discovered, wanted. generalize needed as nd. intros nd.
  rewrite list_elem_of_bind. split.
  - intros (ag & Hg & Hag). apply list_elem_of_bind in Hg as ([version rs] & Hg & Hr%elem_of_range).
    apply list_elem_of_bind in Hg as (r & Hg & Hin).
    destruct (nd (ar_Kind r)) eqn:Hb; [|by apply elem_of_nil in Hg].
    destruct (0 <? Count (ar_Name r) slash) eqn:Hc; [by apply elem_of_nil in Hg|].
    apply list_elem_of_singleton in Hg.
    apply Nat.ltb_ge in Hc. exists ag, version, rs, r. split_and!; try done. lia.
  - intros (ag & version & rs & r & Hag & Hv & Hr & Hk & Hc & ->). exists ag. split; [|done].
    apply list_elem_of_bind. exists (version, rs). split; [|by apply elem_of_range].
    apply list_elem_of_bind. exists r. split; [|done].
    rewrite Hk, Hc. by apply list_elem_of_singleton.
Qed.

Lemma foldl_put_lookup acc l k :
  default [] (foldl put_mapping acc l !! k) = default [] (acc !! k) ++ filter (fun g => kind_of g = k) l.
Proof.
  revert acc. induction l as [|g l IH]; intros acc; [by rewrite app_nil_r|].
  change (foldl put_mapping acc (g :: l)) with (foldl put_mapping (put_mapping acc g) l).
  rewrite IH. unfold put_mapping. rewrite lookup_insert, filter_cons.
  case_decide; subst; [|done]. cbn. by rewrite <- app_assoc.
Qed.

Lemma nameToMapping_lookup gr k l g :
  nameToMapping gr !! k = Some l -> g ∈ l <-> discovered gr g /\ kind_of g = k.
Proof.
  intros Hk. pose proof (foldl_put_lookup ∅ (all_wanted gr) k) as E.
  rewrite <- nameToMapping_put, Hk in E. rewrite lookup_empty in E. cbn in E. subst l.
  rewrite list_elem_of_filter, elem_of_all_wanted. tauto.
Qed.

Lemma nameToMapping_has gr g :
  discovered gr g -> exists l, nameToMapping gr !! kind_of g = Some l /\ g ∈ l.
Proof.
  intros Hg. pose proof (foldl_put_lookup ∅ (all_wanted gr) (kind_of g)) as E.
  rewrite <- nameToMapping_put, lookup_empty in E. cbn in E.
  assert (g ∈ filter (fun g' => kind_of g' = kind_of g) (all_wanted gr)) as Hin.
  { apply list_elem_of_filter. split; [done|]. by apply elem_of_all_wanted. }
  rewrite <- E in Hin. destruct (nameToMapping gr !! kind_of g) as [l|]; [by exists l|set_solver].
Qed.

(** *** The loop over the kinds *)

Definition accepted l : list GvkGvrWithAlias :=
  option_list (List.find (fun g => typed_ok (Gvr g)) l).

Lemma pick_spec w l b :
  exists h, pick (schema_filter typed_ok) schema_handler w l b =
    (mkBuild (foldl (fun m g => store_aliases g m) (supportedSchema b) (accepted l)) h, accepted l).
Proof.
  induction l as [|g l IH]; cbn; [exists (handlers b); by destruct b|].
  unfold schema_filter at 1, accepted. cbn. destruct (typed_ok (Gvr g)); cbn; [|apply IH].
  destruct w; cbn; by eexists.
Qed.

Lemma pick_all_spec (m : gmap (gostring * gostring) (list GvkGvrWithAlias)) b :
  exists h, pick_all (schema_filter typed_ok) schema_handler m b =
    (mkBuild (foldl (fun m g => store_aliases g m) (supportedSchema b) (range m ≫= fun '(_, l) => accepted l)) h,
     range m ≫= fun '(_, l) => accepted l).
Proof.
  unfold pick_all.
  assert (forall (ks : list (gostring * gostring * list GvkGvrWithAlias)) r0, exists h, foldl (fun '(s, result) '(k, l) =>
      let '(s, r) := pick (schema_filter typed_ok) schema_handler (bool_decide (snd k ∈ workload_kinds)) l s in
      (s, result ++ r)) (b, r0) ks =
    (mkBuild (foldl (fun m g => store_aliases g m) (supportedSchema b) (ks ≫= fun '(_, l) => accepted l)) h,
     r0 ++ (ks ≫= fun '(_, l) => accepted l))) as Hks.
  { intros ks. revert b. induction ks as [|[k l] ks IH]; intros b r0; cbn.
    - exists (handlers b). rewrite app_nil_r. by destruct b.
    - destruct (pick_spec (bool_decide (snd k ∈ workload_kinds)) l b) as [h E]. cbn in E. rewrite E.
      destruct (IH (mkBuild (foldl (fun m g => store_aliases g m) (supportedSchema b) (accepted l)) h)
        (r0 ++ accepted l)) as [h' E']. cbn in E'. rewrite E'. exists h'.
      by rewrite foldl_app, <- app_assoc. }
  destruct (Hks (range m) []) as [h E]. exists h. apply E.
Qed.

(** *** The table *)

Abbreviation table := (gmap gostring GvkGvrWithAlias).
Abbreviation build_table l := (foldl (fun m g => store_aliases g m) (∅ : table) l).

Lemma store_aliases_lookup g (m : table) a :
  store_aliases g m !! a = if bool_decide (a ∈ alias g /\ a <> []) then Some g else m !! a.
Proof.
  unfold store_aliases. revert m. induction (alias g) as [|b l IH]; intros m; cbn.
  - rewrite bool_decide_eq_false_2; [done|]. intros [H1 _]. by apply elem_of_nil in H1.
  - rewrite IH. repeat case_bool_decide; rewrite ?lookup_insert; try case_decide; try done;
      exfalso; rewrite ?elem_of_cons in *; naive_solver.
Qed.

Lemma table_sound l (m : table) a g :
  foldl (fun m g => store_aliases g m) m l !! a = Some g ->
  m !! a = Some g \/ (g ∈ l /\ a ∈ alias g /\ a <> []).
Proof.
  revert m. induction l as [|g' l IH]; intros m; cbn; [by left|]. intros [H1|H1]%IH; [|naive_solver set_solver].
  rewrite store_aliases_lookup in H1. case_bool_decide; [|by left]. simplify_eq. right. split; [|done].
  apply elem_of_cons. by left.
Qed.

Lemma table_complete l (m : table) a g :
  g ∈ l -> a ∈ alias g -> a <> [] -> is_Some (foldl (fun m g => store_aliases g m) m l !! a).
Proof.
  intros Hg Ha Hne.
  assert (forall l (m : table), is_Some (m !! a) ->
    is_Some (foldl (fun m g => store_aliases g m) m l !! a)) as Hkeep.
  { clear. intros l. induction l as [|g l IH]; intros m Hm; cbn; [done|]. apply IH.
    rewrite store_aliases_lookup. by case_bool_decide. }
  revert m. induction Hg as [g l|g y l _ IH]; intros m; cbn; [|by apply IH].
  apply Hkeep. rewrite store_aliases_lookup, bool_decide_eq_true_2 by done. done.
Qed.

(** A searcher's table and list come from the same entries. *)
Lemma initSearcher_inv kube admin crds gr admins admins' s h :
  initSearcher typed_ok kube admin crds gr admins = (admins', Ok (s, h)) ->
  exists extra,
    SupportSchemaList s = (range (nameToMapping gr) ≫= fun '(_, l) => accepted l) ++ extra /\
    (admin = false -> extra = []) /\
    supportSchemaWithAlias s = build_table (SupportSchemaList s).
Proof.
  unfold initSearcher, getSupportedSchema.
  destruct (pick_all_spec (nameToMapping gr) (mkBuild ∅ [])) as [h' ->]. cbn.
  case_bool_decide; [intros [= _ ?]; done|]. intros [= _ <- _]. cbn. eexists. split_and!; [done| |].
  - intros ->. done.
  - by rewrite foldl_app.
Qed.

Lemma accepted_spec l g : g ∈ accepted l -> g ∈ l /\ typed_ok (Gvr g) = true.
Proof.
  unfold accepted. destruct (List.find _ l) as [g'|] eqn:E; cbn; [|by intros ?%elem_of_nil].
  intros ->%list_elem_of_singleton. apply List.find_some in E as [Hin Ht].
  split; [by apply list_elem_of_In|done].
Qed.

Lemma accepted_one l : length (accepted l) <= 1.
Proof. unfold accepted. destruct (List.find _ l); cbn; lia. Qed.

Lemma accepted_has l g : g ∈ l -> typed_ok (Gvr g) = true -> exists g', g' ∈ accepted l.
Proof.
  intros Hg Ht. unfold accepted. destruct (List.find _ l) as [g'|] eqn:E.
  - exists g'. by apply list_elem_of_singleton.
  - apply list_elem_of_In in Hg. pose proof (List.find_none _ _ E _ Hg) as H1. cbn in H1. congruence.
Qed.

Lemma accepted_kinds gr :
  NoDup (map kind_of (range (nameToMapping gr) ≫= fun '(_, l) => accepted l)).
Proof.
  assert (forall ks : list (gostring * gostring * list GvkGvrWithAlias), NoDup ks.*1 ->
    (forall k l, (k, l) ∈ ks -> nameToMapping gr !! k = Some l) ->
    NoDup (map kind_of (ks ≫= fun '(_, l) => accepted l))) as Hks.
  { induction ks as [|[k l] ks IH]; intros Hnd Hin; [constructor|].
    apply NoDup_cons in Hnd as [Hk Hnd]. rewrite bind_cons, map_app.
    assert (forall g, g ∈ accepted l -> kind_of g = k) as Hkind.
    { intros g [Hg _]%accepted_spec. apply (nameToMapping_lookup gr k l g); [|done].
      apply Hin, elem_of_cons. by left. }
    apply NoDup_app. split_and!.
    - pose proof (accepted_one l). destruct (accepted l) as [|g1 [|g2 l']]; cbn in *;
        [constructor|apply NoDup_singleton|lia].
    - intros k' (g & -> & Hg)%list_elem_of_fmap (g' & E & Hg')%list_elem_of_fmap.
      apply list_elem_of_bind in Hg' as ([k' l'] & Hg' & Hin').
      apply accepted_spec in Hg' as [Hg' _].
      apply (nameToMapping_lookup gr k' l' g') in Hg' as [_ Hk']; [|apply Hin, elem_of_cons; by right].
      apply Hk, list_elem_of_fmap. exists (k', l'). split; [|done]. cbn. rewrite <- (Hkind g Hg). congruence.
    - apply IH; [done|]. intros k' l' Hin'. apply Hin, elem_of_cons. by right. }
  apply Hks; [apply NoDup_range_fst|]. intros k l. apply elem_of_range.
Qed.

(** Every entry of the table of resource types is an entry of the list of
    supported types and is filed under one of its own names, and every name of
    every supported type is in the table. *)
Theorem schema_table kube admin crds gr admins admins' s h a :
  initSearcher typed_ok kube admin crds gr admins = (admins', Ok (s, h)) -> a <> [] ->
  (forall g, supportSchemaWithAlias s !! a = Some g -> g ∈ SupportSchemaList s /\ a ∈ alias g) /\
  (forall g, g ∈ SupportSchemaList s -> a ∈ alias g -> is_Some (supportSchemaWithAlias s !! a)).
Proof.
  intros (extra & _ & _ & ->)%initSearcher_inv Ha. split.
  - intros g [H1|(H1 & H2 & _)]%table_sound; [by rewrite lookup_empty in H1|done].
  - intros g Hg Hin. by eapply table_complete.
Qed.

(** For a user who is not the cluster's administrator, the supported types
    hold one version of each kind that is needed, that the API server serves and
    that the informers can watch, and nothing else. *)
Theorem schema_versions kube crds gr admins admins' s h :
  initSearcher typed_ok kube false crds gr admins = (admins', Ok (s, h)) ->
  NoDup (map kind_of (SupportSchemaList s)) /\
  (forall g, g ∈ SupportSchemaList s -> discovered gr g /\ typed_ok (Gvr g) = true) /\
  (forall g, discovered gr g -> typed_ok (Gvr g) = true ->
     exists g', g' ∈ SupportSchemaList s /\ kind_of g' = kind_of g).
Proof.
  intros (extra & -> & Hex & _)%initSearcher_inv. rewrite Hex, app_nil_r by done. split_and!.
  - apply accepted_kinds.
  - intros g ([k l] & Hg & Hr%elem_of_range)%list_elem_of_bind. apply accepted_spec in Hg as [Hg Ht].
    split; [|done]. by apply (nameToMapping_lookup gr k l g).
  - intros g Hd Ht. destruct (nameToMapping_has gr g Hd) as (l & Hl & Hg).
    destruct (accepted_has l g Hg Ht) as [g' Hg']. exists g'. split.
    + apply list_elem_of_bind. exists (kind_of g, l). split; [done|]. by apply elem_of_range.
    + apply accepted_spec in Hg' as [Hg' _]. by apply (nameToMapping_lookup gr _ l g').
Qed.
End schema_facts.

(** ** A small cluster *)

Section demo.
#[local] Instance demo_lower : UnicodeLower := {| lower_runes := fun s => s |}.
#[local] Instance demo_schedule : Schedule :=
  {| schedule := fun A l => l; schedule_perm := fun A l => reflexivity l |}.

Lemma store_check (P : gostring -> Obj -> bool) (s : store) :
  forallb (fun ko => P (fst ko) (snd ko)) (map_to_list s) = true ->
  forall k o, s !! k = Some o -> P k o = true.
Proof.
  rewrite forallb_forall. intros HP k o Hk. apply (HP (k, o)), list_elem_of_In.
  by apply elem_of_map_to_list.
Qed.

Definition pods_gvr : GroupVersionResource := mkGVR [] (go "v1") (go "pods").
Definition rs_gvr : GroupVersionResource := mkGVR (go "apps") (go "v1") (go "replicasets").

Definition demo_typed (g : GroupVersionResource) : bool :=
  bool_decide (g = pods_gvr) || bool_decide (g = rs_gvr).

#[local] Instance demo_client : Client := {|
  typed_ok := demo_typed;
  rest_mapping := fun k =>
    if bool_decide (gvk_Kind k = go "ReplicaSet") then Some (rs_gvr, true)
    else if bool_decide (gvk_Kind k = go "Pod") then Some (pods_gvr, true) else None;
  kind_for := fun g =>
    if bool_decide (g = rs_gvr) then Some (mkGVK (go "apps") (go "v1") (go "ReplicaSet"))
    else Some (mkGVK [] (go "v1") (go "Pod"))
|}.

(** What discovery returns; the replica sets are served in two versions. *)
Definition demo_groups : list APIGroupResources :=
  [mkAPIGroup [] {[go "v1" := [mkAPIResource (go "pods") (go "pod") (go "Pod") [go "po"] true;
                               mkAPIResource (go "pods/log") [] (go "Pod") [] true]]};
   mkAPIGroup (go "apps")
     (<[go "v1beta1" := [mkAPIResource (go "replicasets") [] (go "ReplicaSet") [go "rs"] true]]>
      {[go "v1" := [mkAPIResource (go "replicasets") [] (go "ReplicaSet") [go "rs"] true]]})].

Definition demo_init : gset gostring * res search_error (Searcher * list GroupVersionResource) :=
  initSearcher demo_typed (go "kube") false (Err ListError) demo_groups ∅.

Definition demo_search : Searcher :=
  match snd demo_init with Ok (s, _) => s | Err _ => mkSearcher [] ∅ [] end.

Definition pods_mapping : GvkGvrWithAlias :=
  ggwa_of [] (go "v1") (mkAPIResource (go "pods") (go "pod") (go "Pod") [go "po"] true).

Definition object (name : string) (annotations : option (gmap gostring gostring))
    (owners : list OwnerReference) : Obj :=
  mkObj (go "ns") (go name) ∅ annotations false owners (mkGVK [] [] []).

Definition owned_by (kind name : string) : list OwnerReference :=
  [mkOwner (go "apps/v1") (go kind) (go name) (Some true)].

(** A pod of an annotated replica set, and a pod that owns itself. *)
Definition web_rs : Obj := object "web" (Some {[NocalhostApplicationName := go "shop"]}) [].
Definition web_pod : Obj := object "web-1" None (owned_by "ReplicaSet" "web").
Definition loop_pod : Obj := object "loop" None (owned_by "Pod" "loop").

Definition to_store (l : list Obj) : store := list_to_map (map (fun o => (obj_key o, o)) l).

Definition demo_st (pods : list Obj) : informers :=
  mkInformers (<[pods_gvr := to_store pods]> {[rs_gvr := to_store [web_rs]]}) ∅.

Definition shop_pods (name : gostring) : criteria :=
  ResourceName name (Namespace (go "ns") (AppName (go "shop") (ResourceType (go "Pods") (Criteria (Some demo_search))))).

Lemma query_listing_witness :
  exists fuel st' data, Query fuel (shop_pods []) (demo_st [web_pod]) = Done (st', Ok data) /\ Sorted name_le data.
Proof.
  destruct (query_listing (shop_pods []) demo_search pods_mapping eq_refl) with (st := demo_st [web_pod]) as [_ Hl].
  - discriminate.
  - vm_compute. reflexivity.
  - by left.
  - intros k o Hk. apply (bool_decide_eq_true_1 (obj_key o = k)). revert k o Hk.
    apply (store_check (fun k o => bool_decide (obj_key o = k))). vm_compute. reflexivity.
  - destruct Hl as [n Hn].
    + right. intros k o Hk _.
      assert (bool_decide (appNameByAnnotationsAndOwnerRef 3 (demo_st [web_pod]) o = Some (go "shop")) = true) as E.
      { revert k o Hk. apply (store_check (fun _ o => bool_decide (appNameByAnnotationsAndOwnerRef 3 (demo_st [web_pod]) o = Some (go "shop")))).
        vm_compute. reflexivity. }
      exists (go "shop"). apply (app_sound 3). exact (bool_decide_eq_true_1 _ E).
    + destruct (Hn n (le_n n)) as (st' & data & Hq & Hs & _). exists n, st', data. exact (conj Hq Hs).
Defined.

Lemma query_repeats_witness :
  exists st' st'' data data', Query 3 (shop_pods []) (demo_st [web_pod]) = Done (st', Ok data) /\
    Query 3 (shop_pods []) st' = Done (st'', Ok data') /\ data' ≡ₚ data.
Proof.
  destruct (query_repeats (shop_pods []) demo_search pods_mapping eq_refl) with
    (n := 1) (fuel := 3) (st := demo_st [web_pod])
    (st' := fill pods_mapping [web_pod] (demo_st [web_pod]))
    (data := [set_gvk (Gvk pods_mapping) web_pod]) as (st'' & data' & Hq & Hp).
  - discriminate.
  - vm_compute. reflexivity.
  - reflexivity.
  - by right.
  - intros k o Hk. apply (bool_decide_eq_true_1 (obj_key o = k)). revert k o Hk.
    apply (store_check (fun k o => bool_decide (obj_key o = k))). vm_compute. reflexivity.
  - apply (store_check (fun _ o => depth_le 1 (demo_st [web_pod]) o)). vm_compute. reflexivity.
  - lia.
  - vm_compute. reflexivity.
  - exists (fill pods_mapping [web_pod] (demo_st [web_pod])), st'', [set_gvk (Gvk pods_mapping) web_pod], data'.
    split; [vm_compute; reflexivity|exact (conj Hq Hp)].
Defined.

Lemma query_by_name_misses_owner_witness :
  app_of (demo_st [web_pod]) web_pod (go "shop") /\
  exists st', Query 3 (shop_pods (go "web-1")) (demo_st [web_pod]) = Done (st', Ok []).
Proof.
  apply (query_by_name_misses_owner (shop_pods (go "web-1")) demo_search pods_mapping) with (o1 := web_rs);
    [reflexivity|discriminate|vm_compute; reflexivity|reflexivity|discriminate|discriminate
    |vm_compute; reflexivity|reflexivity|vm_compute; reflexivity|reflexivity|discriminate|discriminate].
Defined.

Lemma query_owner_cycle_witness : Query 10 (shop_pods []) (demo_st [loop_pod]) = Fuel.
Proof.
  apply (query_owner_cycle (shop_pods []) demo_search pods_mapping) with
    (P := fun e => e = loop_pod) (k := go "ns/loop") (o := loop_pod);
    [reflexivity|discriminate|vm_compute; reflexivity| |reflexivity|reflexivity|discriminate
    |vm_compute; reflexivity| |reflexivity].
  - intros e ->. split; [reflexivity|]. exists loop_pod. split; [vm_compute; reflexivity|reflexivity].
  - by right.
Defined.

Lemma schema_table_witness :
  supportSchemaWithAlias demo_search !! go "po" = Some pods_mapping /\
  pods_mapping ∈ SupportSchemaList demo_search.
Proof.
  destruct (schema_table demo_typed (go "kube") false (Err ListError) demo_groups ∅ (fst demo_init)
              demo_search [pods_gvr] (go "po")) as [Hs _].
  - vm_compute. reflexivity.
  - discriminate.
  - assert (supportSchemaWithAlias demo_search !! go "po" = Some pods_mapping) as E by (vm_compute; reflexivity).
    exact (conj E (proj1 (Hs pods_mapping E))).
Defined.

Lemma schema_versions_witness :
  NoDup (map kind_of (SupportSchemaList demo_search)) /\ length (SupportSchemaList demo_search) = 2.
Proof.
  split; [|vm_compute; reflexivity].
  apply (schema_versions demo_typed (go "kube") (Err ListError) demo_groups ∅ (fst demo_init)
           demo_search [pods_gvr]). vm_compute. reflexivity.
Defined.
End demo.
