(* ===== verification/SearchCache.v ===== *)
(** * The cache of searchers ([resouce_cache/search.go])

    A searcher watches a cluster with informers until it is stopped.  Searchers
    are kept in a least-recently-used cache of twenty, whose eviction callback
    stops them; a call that does not find one builds it outside the lock and then
    looks again.  Here are the cache (of [simplelru]), the operations on it, the
    calls as a step relation, and the theorems: exactly the cached searchers and
    those being built are running, and what the keys of the cache miss. *)

From S2P Require Import Prelude GoStrings FilePath DevDir Search.
#[local] Open Scope go_scope.

(** ** The LRU ([simplelru], created with size 20), the most recent entry first *)

Definition lru_size : nat := 20.

Section lru.
Context {V : Type}.
Abbreviation lru := (list (gostring * V)).

Definition lru_find (key : gostring) (m : lru) : option V :=
  snd <$> List.find (fun kv => bool_decide (fst kv = key)) m.

Definition lru_delete (key : gostring) (m : lru) : lru :=
  List.filter (fun kv => bool_decide (fst kv <> key)) m.

Definition lru_get (key : gostring) (m : lru) : lru * option V :=
  match lru_find key m with
  | Some v => ((key, v) :: lru_delete key m, Some v)
  | None => (m, None)
  end.

(** The value that is evicted, if one is. *)
Definition lru_add (key : gostring) (v : V) (m : lru) : lru * option V :=
  match lru_find key m with
  | Some _ => ((key, v) :: lru_delete key m, None)
  | None =>
      let m := (key, v) :: m in
      if lru_size <? length m then (take (length m - 1) m, snd <$> last m) else (m, None)
  end.

Definition lru_remove (key : gostring) (m : lru) : lru * option V :=
  match lru_find key m with
  | Some v => (lru_delete key m, Some v)
  | None => (m, None)
  end.

(** From the oldest to the newest. *)
Definition lru_keys (m : lru) : list gostring := reverse m.*1.

Lemma lru_find_None key m : lru_find key m = None <-> key ∉ m.*1.
Proof.
  unfold lru_find. induction m as [|[k v] m IH]; cbn; [split; [intros _ ?%elem_of_nil; done|done]|].
  case_bool_decide; subst; cbn; rewrite elem_of_cons; [naive_solver|]. rewrite IH. naive_solver.
Qed.

Lemma lru_delete_notin key m : key ∉ m.*1 -> lru_delete key m = m.
Proof.
  unfold lru_delete. induction m as [|[k v] m IH]; cbn; [done|]. rewrite elem_of_cons. intros Hn.
  rewrite bool_decide_eq_true_2 by naive_solver. rewrite IH by naive_solver. done.
Qed.

Lemma lru_find_perm key m v :
  NoDup m.*1 -> lru_find key m = Some v -> m ≡ₚ (key, v) :: lru_delete key m.
Proof.
  unfold lru_find, lru_delete. induction m as [|[k w] m IH]; cbn; [done|].
  intros [Hk Hnd]%NoDup_cons. case_bool_decide as E; cbn.
  - intros [= <-]. subst k. rewrite bool_decide_eq_false_2 by auto.
    pose proof (lru_delete_notin key m Hk) as E'. unfold lru_delete in E'. by rewrite E'.
  - intros Hf. rewrite bool_decide_eq_true_2 by done. rewrite (IH Hnd Hf) at 1. apply Permutation_swap.
Qed.

Lemma lru_get_perm key m : NoDup m.*1 -> fst (lru_get key m) ≡ₚ m.
Proof.
  intros Hnd. unfold lru_get. destruct (lru_find key m) as [v|] eqn:E; [|done]. cbn.
  by rewrite <- lru_find_perm.
Qed.
End lru.

(** ** The state of the package *)

(** [searchMap]; the kubeconfigs known to be an administrator's; the keys of
    [apiGroupResourcesMap]; the searchers that were stopped, the times they were
    last used, and how many were made. *)
Record cache := mkCache {
  searchMap : list (gostring * nat);
  admins : gset gostring;
  apis : gset gostring;
  stopped : gset nat;
  lastUsed : gmap nat Z;
  made : nat
}.

Definition with_map (c : cache) (m : list (gostring * nat)) : cache :=
  mkCache m (admins c) (apis c) (stopped c) (lastUsed c) (made c).

(** [Stop]: closing a channel twice panics, which is recovered. *)
Definition Stop (s : nat) (c : cache) : cache :=
  mkCache (searchMap c) (admins c) (apis c) ({[s]} ∪ stopped c) (lastUsed c) (made c).

(** The eviction callback. *)
Definition onEvict (s : option nat) (c : cache) : cache :=
  match s with Some s => Stop s c | None => c end.

(** The deferred assignment of [GetSearcherWithLRU], which follows the release of
    the lock; it is merged with the part before it. *)
Definition use (s : nat) (now : Z) (c : cache) : cache :=
  mkCache (searchMap c) (admins c) (apis c) (stopped c) (<[s := now]> (lastUsed c)) (made c).

(** Whether the client can be made, the discovery answers, the kubeconfig is an
    administrator's and the table of resource types is not empty. *)
Record answers := mkAnswers {
  client_ok : bool;
  discovery_ok : bool;
  cluster_admin : bool;
  schema_ok : bool
}.

Definition day : Z := 86400000000000.

Section cache.
Context (sha1 : gostring -> gostring).

(** [h.Sum(b)] appends the digest to [b]. *)
Definition generateKey (c : cache) (kubeconfigBytes namespace : gostring) : gostring :=
  if bool_decide (kubeconfigBytes ∈ admins c) then sha1 kubeconfigBytes
  else namespace ++ sha1 kubeconfigBytes.

Definition cache_get (key : gostring) (c : cache) : cache * option nat :=
  let '(m, s) := lru_get key (searchMap c) in (with_map c m, s).

(** The discovery, which is done once for each key. *)
Definition load_apis (key : gostring) (a : answers) (c : cache) : cache * bool :=
  if bool_decide (key ∈ apis c) then (c, true)
  else if discovery_ok a
  then (mkCache (searchMap c) (admins c) ({[key]} ∪ apis c) (stopped c) (lastUsed c) (made c), true)
  else (c, false).

Definition GetApiGroupResources (kubeBytes ns : gostring) (a : answers) (c : cache) : cache * bool :=
  let key := generateKey c kubeBytes ns in
  if bool_decide (key ∈ apis c) then (c, true)
  else if client_ok a then load_apis key a c else (c, false).

(** *** [GetSearcherWithLRU] in its three parts *)

(** Up to the first look at the cache: the searcher, or the key to build one
    for. *)
Definition get_begin (kube ns : gostring) (now : Z) (c : cache) : cache * (nat + gostring) :=
  let key := generateKey c kube ns in
  match cache_get key c with
  | (c, Some s) => (use s now c, inl s)
  | (c, None) => (c, inr key)
  end.

(** Outside the lock; [None] when an error is returned. *)
Definition get_init (kube key : gostring) (a : answers) (c : cache) : cache * option nat :=
  if negb (client_ok a) then (c, None)
  else
    match load_apis key a c with
    | (c, false) => (c, None)
    | (c, true) =>
        let adm := if cluster_admin a then {[kube]} ∪ admins c else admins c in
        if schema_ok a
        then (mkCache (searchMap c) adm (apis c) (stopped c) (lastUsed c) (S (made c)), Some (made c))
        else (mkCache (searchMap c) adm (apis c) (stopped c) (lastUsed c) (made c), None)
    end.

(** Under the lock again. *)
Definition get_finish (key : gostring) (s : nat) (now : Z) (c : cache) : cache * nat :=
  match cache_get key c with
  | (c, Some s') => (use s' now (Stop s c), s')
  | (c, None) =>
      let '(m, evicted) := lru_add key s (searchMap c) in
      (use s now (onEvict evicted (with_map c m)), s)
  end.

(** A call nothing interferes with. *)
Definition GetSearcherWithLRU (kube ns : gostring) (a : answers) (now : Z) (c : cache)
    : cache * option nat :=
  match get_begin kube ns now c with
  | (c, inl s) => (c, Some s)
  | (c, inr key) =>
      match get_init kube key a c with
      | (c, None) => (c, None)
      | (c, Some s) => let '(c, s) := get_finish key s now c in (c, Some s)
      end
  end.

(** *** Removal *)

Definition removeInformer (key : gostring) (c : cache) : cache :=
  match cache_get key c with
  | (c, Some s) =>
      let c := Stop s c in
      let '(m, evicted) := lru_remove key (searchMap c) in onEvict evicted (with_map c m)
  | (c, None) => c
  end.

(** [namespaces]: what listing the namespaces returns, [None] when the client
    cannot be made or the listing fails. *)
Definition RemoveSearcherByKubeconfig (kube namespace : gostring) (namespaces : option (list Obj))
    (c : cache) : cache :=
  let c := removeInformer (generateKey c kube namespace) c in
  match namespaces with
  | None => c
  | Some l => foldl (fun c item => removeInformer (generateKey c kube (obj_Namespace item)) c) c l
  end.

(** Whether a call of [GetSearcherWithLRU] is started. *)
Definition AddSearcherByKubeconfig (kube namespace : gostring) (c : cache) : cache * bool :=
  match cache_get (generateKey c kube namespace) c with
  | (c, Some _) => (c, false)
  | (c, None) => (c, true)
  end.

(** The check of every five minutes. *)
Definition sweep_key (now : Z) (c : cache) (key : gostring) : cache :=
  match cache_get key c with
  | (c, None) => c
  | (c, Some s) =>
      match lastUsed c !! s with
      | Some t =>
          if (day <=? now - t)%Z then
            let c := Stop s c in
            let '(m, evicted) := lru_remove key (searchMap c) in onEvict evicted (with_map c m)
          else c
      | None => c
      end
  end.

Definition sweep (now : Z) (c : cache) : cache := foldl (sweep_key now) c (lru_keys (searchMap c)).

(** ** Calls that interleave *)

Inductive pending :=
  | Looking (kube key : gostring)
  | Built (key : gostring) (s : nat).

(** The lock makes each part of a call atomic; the answers of the cluster are
    arbitrary. *)
Inductive step : cache * list pending -> cache * list pending -> Prop :=
  | step_hit c ps kube ns now c' s :
      get_begin kube ns now c = (c', inl s) -> step (c, ps) (c', ps)
  | step_miss c ps kube ns now c' key :
      get_begin kube ns now c = (c', inr key) -> step (c, ps) (c', Looking kube key :: ps)
  | step_built c ps1 ps2 kube key a c' s :
      get_init kube key a c = (c', Some s) ->
      step (c, ps1 ++ Looking kube key :: ps2) (c', ps1 ++ Built key s :: ps2)
  | step_failed c ps1 ps2 kube key a c' :
      get_init kube key a c = (c', None) -> step (c, ps1 ++ Looking kube key :: ps2) (c', ps1 ++ ps2)
  | step_finish c ps1 ps2 key s now c' s' :
      get_finish key s now c = (c', s') -> step (c, ps1 ++ Built key s :: ps2) (c', ps1 ++ ps2)
  | step_remove c ps key : step (c, ps) (removeInformer key c, ps)
  | step_sweep c ps now : step (c, ps) (sweep now c, ps).

Definition no_searchers : cache := mkCache [] ∅ ∅ ∅ ∅ 0.

Definition reachable (c : cache) (ps : list pending) : Prop := rtc step (no_searchers, []) (c, ps).

(** The searchers of calls under way. *)
Definition in_flight (ps : list pending) : list nat :=
  omap (fun p => match p with Built _ s => Some s | Looking _ _ => None end) ps.

Definition running (c : cache) (s : nat) : Prop := s < made c /\ s ∉ stopped c.
End cache.

(** ** The searchers that run *)

Section invariant.
Context (sha1 : gostring -> gostring).
Implicit Types (c : cache) (fly : list nat) (m : list (gostring * nat)).

(** The cached searchers and those of calls under way are the running ones. *)
Record cache_core c fly : Prop := {
  core_keys : NoDup (searchMap c).*1;
  core_ids : NoDup ((searchMap c).*2 ++ fly);
  core_running : forall s, s ∈ (searchMap c).*2 ++ fly <-> running c s
}.

Record cache_inv c fly : Prop := {
  inv_core : cache_core c fly;
  inv_size : length (searchMap c) <= lru_size
}.

#[local] Hint Resolve inv_core inv_size : nh.

(** The same running searchers, listed in another order. *)
Lemma core_perm c c' fly fly' :
  cache_core c fly -> searchMap c' ≡ₚ searchMap c -> fly' ≡ₚ fly -> stopped c' = stopped c ->
  made c' = made c -> cache_core c' fly'.
Proof.
  intros [Hk Hi Hr] Hp Hf Hs Hm. split.
  - by rewrite Hp.
  - by rewrite Hp, Hf.
  - intros s. rewrite Hp, Hf, Hr. unfold running. by rewrite Hs, Hm.
Qed.

(** Dropping a searcher from the lists and stopping it. *)
Lemma core_stop c c' fly fly' s :
  cache_core c fly -> NoDup (searchMap c').*1 ->
  (searchMap c).*2 ++ fly ≡ₚ s :: (searchMap c').*2 ++ fly' ->
  stopped c' = {[s]} ∪ stopped c -> made c' = made c -> cache_core c' fly'.
Proof.
  intros [Hk Hi Hr] Hnd Hp Hs Hm. rewrite Hp in Hi. apply NoDup_cons in Hi as [Hns Hi]. split; [done|done|].
  intros x. unfold running. rewrite Hs, Hm, not_elem_of_union, elem_of_singleton.
  specialize (Hr x). rewrite Hp, elem_of_cons in Hr. unfold running in Hr. naive_solver.
Qed.

(** Making a searcher. *)
Lemma core_make c c' fly :
  cache_core c fly -> searchMap c' = searchMap c -> stopped c' = stopped c -> made c' = S (made c) ->
  (forall s, s ∈ stopped c -> s < made c) -> cache_core c' (made c :: fly).
Proof.
  intros [Hk Hi Hr] Hp Hs Hm Hst.
  assert ((searchMap c').*2 ++ made c :: fly ≡ₚ made c :: (searchMap c).*2 ++ fly) as Hl
    by (by rewrite Hp, Permutation_middle).
  split.
  - by rewrite Hp.
  - rewrite Hl. apply NoDup_cons. split; [|done]. intros [? _]%Hr. lia.
  - intros s. rewrite Hl, elem_of_cons, Hr. unfold running. rewrite Hs, Hm. split.
    + intros [->|[? ?]]; [|split; [lia|done]]. split; [lia|]. intros ?%Hst. lia.
    + intros [Hlt Hn]. destruct (decide (s = made c)); [by left|right]. split; [lia|done].
Qed.

(** Only searchers that were made are stopped. *)
Definition stopped_made c : Prop := forall s, s ∈ stopped c -> s < made c.

Lemma stopped_made_stop c s : stopped_made c -> s < made c -> stopped_made (Stop s c).
Proof. intros Hc Hs x. cbn. rewrite elem_of_union, elem_of_singleton. intros [->|?]; [done|by apply Hc]. Qed.

Definition good c fly : Prop := cache_inv c fly /\ stopped_made c.

Lemma good_get c fly key : good c fly -> good (fst (cache_get key c)) fly.
Proof.
  intros [[Hc Hl] Hs]. unfold cache_get. pose proof (lru_get_perm key (searchMap c) (core_keys _ _ Hc)) as Hp.
  destruct (lru_get key (searchMap c)) as [m o]. cbn in *. split; [|done]. split.
  - by eapply core_perm.
  - cbn. by rewrite Hp.
Qed.

Lemma good_use c fly s now : good c fly -> good (use s now c) fly.
Proof. intros [[Hc Hl] Hs]. split; [|done]. split; [eapply core_perm; [exact Hc|done..]|done]. Qed.

Lemma cache_get_Some key c c' s :
  cache_get key c = (c', Some s) -> exists m, searchMap c' = (key, s) :: m.
Proof.
  unfold cache_get, lru_get. destruct (lru_find key (searchMap c)); intros; simplify_eq/=. by eexists.
Qed.

Lemma cache_get_None key c c' :
  cache_get key c = (c', None) -> c' = c /\ key ∉ (searchMap c).*1.
Proof.
  unfold cache_get, lru_get. destruct (lru_find key (searchMap c)) eqn:E; intros; simplify_eq/=.
  split; [by destruct c|]. by apply lru_find_None.
Qed.

(** A cached searcher is stopped and its entry removed. *)
Lemma good_drop c fly key s m :
  good c fly -> searchMap c = (key, s) :: m -> good (with_map (Stop s c) m) fly.
Proof.
  intros [[Hc Hl] Hs] Hm.
  assert (running c s) as Hrun.
  { apply (core_running _ _ Hc). rewrite Hm. cbn. set_solver. }
  split; [split|].
  - apply (core_stop c _ fly _ s); [exact Hc| |by rewrite Hm|done|done].
    cbn. pose proof (core_keys _ _ Hc) as Hk. rewrite Hm in Hk. by apply NoDup_cons in Hk as [_ Hk].
  - cbn. rewrite Hm in Hl. cbn in Hl. lia.
  - apply (stopped_made_stop c s Hs), Hrun.
Qed.

(** Stopping a searcher that is stopped changes nothing. *)
Lemma Stop_twice s c m : Stop s (with_map (Stop s c) m) = with_map (Stop s c) m.
Proof. unfold Stop, with_map. cbn. f_equal. set_solver. Qed.

(** What both removals do after they found the searcher. *)
Lemma good_remove c fly key s m :
  good c fly -> searchMap c = (key, s) :: m ->
  good (let '(m, evicted) := lru_remove key (searchMap (Stop s c)) in
        onEvict evicted (with_map (Stop s c) m)) fly.
Proof.
  intros Hg Hm. pose proof (core_keys _ _ (inv_core _ _ (proj1 Hg))) as Hk. rewrite Hm in Hk.
  apply NoDup_cons in Hk as [Hk _].
  assert (lru_remove key ((key, s) :: m) = (m, Some s)) as E.
  { unfold lru_remove, lru_find. cbn. rewrite bool_decide_eq_true_2 by done. cbn.
    unfold lru_delete. cbn. rewrite bool_decide_eq_false_2 by auto. f_equal. by apply lru_delete_notin. }
  cbn. rewrite Hm, E. cbn [onEvict]. rewrite Stop_twice. by eapply good_drop.
Qed.

Lemma good_removeInformer c fly key : good c fly -> good (removeInformer key c) fly.
Proof.
  intros Hg. unfold removeInformer. pose proof (good_get c fly key Hg) as Hg'.
  destruct (cache_get key c) as [c' [s|]] eqn:E; [|done]. cbn in Hg'.
  apply cache_get_Some in E as [m Hm]. by eapply good_remove.
Qed.

Lemma good_sweep c fly now : good c fly -> good (sweep now c) fly.
Proof.
  unfold sweep. generalize (lru_keys (searchMap c)) as ks. intros ks. revert c.
  induction ks as [|key ks IH]; intros c Hg; cbn; [done|]. apply IH. unfold sweep_key.
  pose proof (good_get c fly key Hg) as Hg'.
  destruct (cache_get key c) as [c' [s|]] eqn:E; [|done]. cbn in Hg'.
  destruct (lastUsed c' !! s); [|done]. destruct (_ <=? _)%Z; [|done].
  apply cache_get_Some in E as [m Hm]. by eapply good_remove.
Qed.

Lemma good_init c fly kube key a c' s :
  good c fly -> get_init kube key a c = (c', s) ->
  good c' (match s with Some s => s :: fly | None => fly end).
Proof.
  intros [[Hc Hl] Hs]. unfold get_init, load_apis.
  repeat (case_match; simplify_eq/=; try done); intros; simplify_eq/=;
    (split; [split; [first [eapply core_make; [exact Hc|done..] | eapply core_perm; [exact Hc|done..]]|done]|]);
    intros x Hx; cbn in *; apply Hs in Hx; lia.
Qed.

(** The running searchers change places between the cache and the calls. *)
Lemma core_move c c' fly fly' :
  cache_core c fly -> NoDup (searchMap c').*1 ->
  (searchMap c').*2 ++ fly' ≡ₚ (searchMap c).*2 ++ fly -> stopped c' = stopped c ->
  made c' = made c -> cache_core c' fly'.
Proof.
  intros [Hk Hi Hr] Hnd Hp Hs Hm. split; [done|by rewrite Hp|].
  intros s. rewrite Hp, Hr. unfold running. by rewrite Hs, Hm.
Qed.

Lemma good_fly c fly fly' : fly ≡ₚ fly' -> good c fly -> good c fly'.
Proof.
  intros Hf [[Hc Hl] Hs]. split; [|done]. split; [|done]. by eapply core_perm; [exact Hc|..].
Qed.

Lemma take_last {A : Type} (l : list A) x : last l = Some x -> take (length l - 1) l ++ [x] = l.
Proof.
  intros [l' ->]%last_Some. rewrite length_app, Nat.add_sub. by rewrite take_app_length.
Qed.

(** The searcher that was built takes its place in the cache. *)
Lemma good_add c fly key s m evicted :
  good c (s :: fly) -> key ∉ (searchMap c).*1 -> lru_add key s (searchMap c) = (m, evicted) ->
  good (onEvict evicted (with_map c m)) fly.
Proof.
  intros [[Hc Hl] Hs] Hkey. unfold lru_add. rewrite (proj2 (lru_find_None key (searchMap c))) by done.
  assert (cache_core (with_map c ((key, s) :: searchMap c)) fly) as Hc1.
  { eapply core_move; [exact Hc| | |done|done]; cbn.
    - apply NoDup_cons. split; [done|apply Hc].
    - by rewrite Permutation_middle. }
  destruct (Nat.ltb_spec lru_size (length ((key, s) :: searchMap c))) as [Hlt|Hge]; intros [= Hm Hev];
    [|subst; by split].
  destruct (last ((key, s) :: searchMap c)) as [[k0 s0]|] eqn:Elast; [|by apply last_None in Elast].
  pose proof (take_last _ _ Elast) as Etake. cbn in Hm, Etake. rewrite Hm in Etake. subst evicted.
  cbn [snd fmap option_fmap option_map onEvict]. clear Elast Hm.
  assert (((key, s) :: searchMap c).*2 = m.*2 ++ [s0]) as Eids by (by rewrite <- Etake, fmap_app).
  assert (running c s0) as Hrun.
  { apply (core_running _ _ Hc1). cbn [searchMap with_map]. rewrite Eids.
    apply elem_of_app. left. apply elem_of_app. right. by apply list_elem_of_singleton. }
  split; [split|].
  - apply (core_stop (with_map c ((key, s) :: searchMap c)) _ fly _ s0); [exact Hc1| | |done|done].
    + pose proof (core_keys _ _ Hc1) as Hk. cbn [searchMap with_map] in Hk.
      rewrite <- Etake, fmap_app in Hk. by apply NoDup_app in Hk as [Hk _].
    + cbn [searchMap with_map Stop]. rewrite Eids, <- app_assoc. symmetry. apply Permutation_middle.
  - cbn. apply (f_equal length) in Etake. rewrite length_app in Etake. cbn in Etake. lia.
  - apply stopped_made_stop; [done|apply Hrun].
Qed.

Lemma good_finish c fly key s now c' s' :
  good c (s :: fly) -> get_finish key s now c = (c', s') -> good c' fly.
Proof.
  intros Hg. unfold get_finish. pose proof (good_get c (s :: fly) key Hg) as Hg'.
  destruct (cache_get key c) as [c1 [s1|]] eqn:E; cbn in Hg'.
  - intros [= <- _]. apply good_use. destruct Hg' as [[Hc Hl] Hs]. split; [split|].
    + apply (core_stop c1 _ (s :: fly) fly s); [exact Hc|apply Hc| |done|done].
      by rewrite <- Permutation_middle.
    + done.
    + apply stopped_made_stop; [done|]. apply (core_running _ _ Hc). set_solver.
  - apply cache_get_None in E as [-> Hkey].
    destruct (lru_add key s (searchMap c)) as [m evicted] eqn:Ea. intros [= <- _].
    apply good_use. by eapply good_add.
Qed.

(** *** Along the steps *)

Lemma in_flight_app ps1 ps2 : in_flight (ps1 ++ ps2) = in_flight ps1 ++ in_flight ps2.
Proof. apply omap_app. Qed.

Lemma good_step x y :
  step sha1 x y -> good (fst x) (in_flight (snd x)) -> good (fst y) (in_flight (snd y)).
Proof.
  intros Hstep Hg. destruct Hstep as [c ps kube ns now c' s E|c ps kube ns now c' key E
    |c ps1 ps2 kube key a c' s E|c ps1 ps2 kube key a c' E|c ps1 ps2 key s now c' s' E|c ps key|c ps now];
    cbn [fst snd] in *.
  1, 2: unfold get_begin in E; pose proof (good_get c _ (generateKey sha1 c kube ns) Hg) as Hg';
    destruct (cache_get (generateKey sha1 c kube ns) c) as [c1 []]; cbn in Hg'; simplify_eq.
  - by apply good_use.
  - done.
  - rewrite in_flight_app in *. cbn in *. apply (good_init _ _ _ _ _ _ _ Hg) in E.
    eapply good_fly; [|exact E]. by rewrite <- Permutation_middle.
  - rewrite in_flight_app in *. cbn in *. exact (good_init _ _ _ _ _ _ _ Hg E).
  - rewrite in_flight_app in *. cbn in *. eapply good_finish; [|exact E].
    eapply good_fly; [|exact Hg]. by rewrite <- Permutation_middle.
  - by apply good_removeInformer.
  - by apply good_sweep.
Qed.

Lemma good_reachable c ps : reachable sha1 c ps -> good c (in_flight ps).
Proof.
  unfold reachable. intros Hr.
  change c with (fst (c, ps)). change ps with (snd (c, ps)) at 2.
  apply (rtc_ind_r (fun x => good (fst x) (in_flight (snd x))) (no_searchers, []) ) with (2 := fun x y _ Hs IH => good_step x y Hs IH); [|done].
  split; [split; [split|]|]; cbn.
  - constructor.
  - constructor.
  - unfold running. cbn. intros s. split; [by intros ?%elem_of_nil|lia].
  - lia.
  - intros s Hs. by apply not_elem_of_empty in Hs.
Qed.

(** However calls, removals and clean-ups interleave and whatever the cluster
    answers, the searchers that run are exactly the cached ones and those that
    calls under way have just built: none is leaked, none is cached after it was
    stopped. *)
Theorem searchers_not_leaked c ps s :
  reachable sha1 c ps -> running c s <-> s ∈ (searchMap c).*2 \/ s ∈ in_flight ps.
Proof.
  intros [[Hc _] _]%good_reachable. rewrite <- elem_of_app. symmetry. apply Hc.
Qed.

(** At most twenty searchers run when no call is under way, one for each key. *)
Theorem searchers_bounded c (l : list nat) :
  reachable sha1 c [] -> NoDup l -> (forall s, s ∈ l -> running c s) ->
  length l <= 20 /\ NoDup (searchMap c).*1.
Proof.
  intros [[Hc Hl] _]%good_reachable Hnd Hrun. split; [|apply Hc].
  transitivity (length (searchMap c).*2); [|by rewrite length_fmap].
  apply NoDup_incl_length.
  - by apply NoDup_ListNoDup.
  - intros s Hin%list_elem_of_In. apply list_elem_of_In. apply Hrun in Hin.
    apply (core_running _ _ Hc) in Hin. by rewrite app_nil_r in Hin.
Qed.
End invariant.

(** ** What is kept and what is removed *)

Section entries.
Implicit Types (c : cache) (key : gostring) (s : nat).

Definition entries c : list (gostring * nat) := searchMap c.

Lemma cache_get_entries key c : NoDup (entries c).*1 -> entries (fst (cache_get key c)) ≡ₚ entries c.
Proof.
  intros Hnd. pose proof (lru_get_perm key (searchMap c) Hnd) as Hp. unfold cache_get, entries in *.
  by destruct (lru_get key (searchMap c)).
Qed.

Lemma cache_get_same key c :
  lastUsed (fst (cache_get key c)) = lastUsed c /\ admins (fst (cache_get key c)) = admins c.
Proof. unfold cache_get. by destruct (lru_get key (searchMap c)). Qed.

(** Removing the entry of [key], which a look-up has moved to the front. *)
Lemma lru_remove_front key s m :
  NoDup ((key, s) :: m).*1 -> lru_remove key ((key, s) :: m) = (m, Some s).
Proof.
  intros [Hk _]%NoDup_cons. unfold lru_remove, lru_find. cbn. rewrite bool_decide_eq_true_2 by done.
  cbn. unfold lru_delete. cbn. rewrite bool_decide_eq_false_2 by auto. f_equal. by apply lru_delete_notin.
Qed.

Lemma removed_entries c key s m k x :
  NoDup (entries c).*1 -> searchMap c = (key, s) :: m ->
  let c' := (let '(m, evicted) := lru_remove key (searchMap (Stop s c)) in
             onEvict evicted (with_map (Stop s c) m)) in
  NoDup (entries c').*1 /\ lastUsed c' = lastUsed c /\ admins c' = admins c /\
  ((k, x) ∈ entries c' <-> (k, x) ∈ entries c /\ k <> key).
Proof.
  unfold entries. intros Hnd Hm. cbn [searchMap Stop]. rewrite Hm in *.
  rewrite lru_remove_front by done. cbn. apply NoDup_cons in Hnd as [Hk Hnd]. split_and!; [done|done|done|].
  rewrite elem_of_cons. split.
  - intros Hin. split; [by right|]. intros ->. apply Hk, list_elem_of_fmap. by exists (key, x).
  - intros [[[= -> ->]|Hin] Hne]; [done|done].
Qed.

Lemma removeInformer_entries c key k x :
  NoDup (entries c).*1 ->
  NoDup (entries (removeInformer key c)).*1 /\ admins (removeInformer key c) = admins c /\
  ((k, x) ∈ entries (removeInformer key c) <-> (k, x) ∈ entries c /\ k <> key).
Proof.
  intros Hnd. unfold removeInformer. pose proof (cache_get_entries key c Hnd) as Hp.
  destruct (cache_get_same key c) as [_ Ha].
  destruct (cache_get key c) as [c' [s|]] eqn:E; cbn in *.
  - apply cache_get_Some in E as [m Hm].
    destruct (removed_entries c' key s m k x) as (H1 & _ & H3 & H4); [by rewrite Hp|done|].
    split_and!; [exact H1|etrans; [exact H3|exact Ha]|]. etrans; [exact H4|]. by rewrite Hp.
  - apply cache_get_None in E as [-> Hkey]. split_and!; [done|done|]. split; [|naive_solver].
    intros Hin. split; [done|]. intros ->. apply Hkey, list_elem_of_fmap. by exists (key, x).
Qed.

(** Removing the searchers of a kubeconfig that is not an administrator's
    removes the one of the namespace given, but not those of its other
    namespaces: the loop over the namespaces reads the namespace of a namespace
    object, which is empty, and not its name. *)
Theorem remove_misses_namespaces (sha1 : gostring -> gostring) kube ns ns' items c s :
  NoDup (searchMap c).*1 -> kube ∉ admins c -> ns' <> ns -> ns' <> [] ->
  (forall i, i ∈ items -> obj_Namespace i = []) ->
  (generateKey sha1 c kube ns', s) ∈ searchMap c ->
  (generateKey sha1 c kube ns', s) ∈ searchMap (RemoveSearcherByKubeconfig sha1 kube ns (Some items) c) /\
  generateKey sha1 c kube ns ∉ (searchMap (RemoveSearcherByKubeconfig sha1 kube ns (Some items) c)).*1.
Proof.
  intros Hnd Hadm Hne Hne' Hitems Hin.
  assert (forall c n, admins c = admins c -> kube ∉ admins c -> generateKey sha1 c kube n = n ++ sha1 kube) as Hkey.
  { intros c1 n _ Ha. unfold generateKey. by rewrite bool_decide_eq_false_2 by done. }
  rewrite !Hkey in * by done. unfold RemoveSearcherByKubeconfig. rewrite Hkey by done.
  assert (forall l c1, NoDup (entries c1).*1 -> kube ∉ admins c1 -> (forall i, i ∈ l -> obj_Namespace i = []) ->
    let c2 := foldl (fun c item => removeInformer (generateKey sha1 c kube (obj_Namespace item)) c) c1 l in
    ((ns' ++ sha1 kube, s) ∈ entries c1 -> (ns' ++ sha1 kube, s) ∈ entries c2) /\
    (ns ++ sha1 kube ∉ (entries c1).*1 -> ns ++ sha1 kube ∉ (entries c2).*1)) as Hloop.
  { clear -Hkey Hne'. induction l as [|i l IH]; intros c1 Hnd Hadm Hitems; cbn; [done|].
    rewrite (Hitems i) by set_solver. rewrite Hkey by done. cbn.
    destruct (removeInformer_entries c1 (sha1 kube) (ns' ++ sha1 kube) s Hnd) as (H1 & H2 & H3).
    destruct (IH (removeInformer (sha1 kube) c1)) as [I1 I2]; [done|by rewrite H2|set_solver|]. split.
    - intros Hin. apply I1, H3. split; [done|]. intros E. apply Hne'.
      apply (app_inv_tail (sha1 kube) ns' []). done.
    - intros Hn. apply I2. intros ([k x] & Ek & Hin)%list_elem_of_fmap. cbn in Ek. subst k. apply Hn.
      apply list_elem_of_fmap. exists (ns ++ sha1 kube, x). split; [done|].
      by apply (removeInformer_entries c1 (sha1 kube) (ns ++ sha1 kube) x Hnd). }
  destruct (removeInformer_entries c (ns ++ sha1 kube) (ns' ++ sha1 kube) s Hnd) as (H1 & H2 & H3).
  destruct (Hloop items (removeInformer (ns ++ sha1 kube) c)) as [I1 I2]; [done|by rewrite H2|done|].
  split.
  - apply I1, H3. split; [done|]. by intros E%app_inv_tail.
  - apply I2. intros ([k x] & Ek & Hx)%list_elem_of_fmap. cbn in Ek. subst k.
    by apply (removeInformer_entries c (ns ++ sha1 kube) (ns ++ sha1 kube) x Hnd) in Hx as [_ []].
Qed.

(** *** The clean-up *)

Definition expired (now : Z) c s : Prop := exists t, lastUsed c !! s = Some t /\ (day <= now - t)%Z.

Lemma sweep_key_entries now c key k x :
  NoDup (entries c).*1 ->
  NoDup (entries (sweep_key now c key)).*1 /\ lastUsed (sweep_key now c key) = lastUsed c /\
  ((k, x) ∈ entries (sweep_key now c key) <-> (k, x) ∈ entries c /\ (k = key -> ~ expired now c x)).
Proof.
  intros Hnd. unfold sweep_key. pose proof (cache_get_entries key c Hnd) as Hp.
  destruct (cache_get_same key c) as [Hlast _].
  destruct (cache_get key c) as [c' [s|]] eqn:E; cbn in *.
  2:{ apply cache_get_None in E as [-> Hkey]. split_and!; [done|done|]. split; [|naive_solver].
      intros Hin. split; [done|]. intros ->. destruct Hkey. apply list_elem_of_fmap. by exists (key, x). }
  apply cache_get_Some in E as [m Hm].
  assert (NoDup (entries c').*1) as Hnd' by (by rewrite Hp).
  assert (forall x, (key, x) ∈ entries c -> x = s) as Huniq.
  { intros y Hin. rewrite <- Hp in Hin. unfold entries in *. rewrite Hm in Hin, Hnd'.
    apply NoDup_cons in Hnd' as [Hk _]. apply elem_of_cons in Hin as [[= ->]|Hin]; [done|].
    destruct Hk. apply list_elem_of_fmap. by exists (key, y). }
  assert ((k, x) ∈ entries c' <-> (k, x) ∈ entries c) as Hin' by (by rewrite Hp).
  destruct (lastUsed c' !! s) as [t|] eqn:Et; [destruct (Z.leb_spec day (now - t))|].
  - destruct (removed_entries c' key s m k x Hnd' Hm) as (H1 & H2 & _ & H4).
    split_and!; [exact H1|etrans; [exact H2|exact Hlast]|]. etrans; [exact H4|]. rewrite Hin'.
    split; [naive_solver|]. intros [Hx He]. split; [done|]. intros ->. rewrite (Huniq x Hx) in He.
    apply He; [done|]. exists t. by rewrite <- Hlast.
  - split_and!; [done|done|]. rewrite Hin'. split; [|naive_solver]. intros Hx. split; [done|]. intros ->.
    rewrite (Huniq x Hx). intros (t' & Ht' & Hge). rewrite <- Hlast in Ht'. simplify_eq. lia.
  - split_and!; [done|done|]. rewrite Hin'. split; [|naive_solver]. intros Hx. split; [done|]. intros ->.
    rewrite (Huniq x Hx). intros (t' & Ht' & Hge). rewrite <- Hlast in Ht'. congruence.
Qed.

(** The clean-up removes exactly the searchers that were last used a day ago
    or longer; the others stay cached. *)
Theorem sweep_exact now c k s :
  NoDup (searchMap c).*1 ->
  (k, s) ∈ searchMap (sweep now c) <-> (k, s) ∈ searchMap c /\ ~ expired now c s.
Proof.
  intros Hnd. unfold sweep.
  assert (forall ks c1, NoDup (entries c1).*1 ->
    (k, s) ∈ entries (foldl (sweep_key now) c1 ks) <-> (k, s) ∈ entries c1 /\ (k ∈ ks -> ~ expired now c1 s))
    as Hloop.
  { clear. induction ks as [|key ks IH]; intros c1 Hnd; cbn.
    - split; [intros Hin; split; [done|by intros ?%elem_of_nil]|tauto].
    - destruct (sweep_key_entries now c1 key k s Hnd) as (H1 & H2 & H3). rewrite IH, H3 by done.
      unfold expired. rewrite H2, elem_of_cons. naive_solver. }
  specialize (Hloop (lru_keys (searchMap c)) c Hnd). unfold entries in Hloop. rewrite Hloop.
  split; [|naive_solver]. intros [Hin He]. split; [done|]. apply He. unfold lru_keys.
  rewrite elem_of_reverse. apply list_elem_of_fmap. by exists (k, s).
Qed.
End entries.

(** ** Calls nothing interferes with *)

Section calls.
Context (sha1 : gostring -> gostring).
Implicit Types (c : cache) (a : answers).

(** A call that finds nothing builds a searcher, which it caches. *)
Lemma GetSearcher_miss kube ns a now c c' s :
  generateKey sha1 c kube ns ∉ (searchMap c).*1 -> length (searchMap c) < lru_size ->
  GetSearcherWithLRU sha1 kube ns a now c = (c', Some s) ->
  s = made c /\ made c' = S (made c) /\ stopped c' = stopped c /\
  searchMap c' = (generateKey sha1 c kube ns, s) :: searchMap c /\
  admins c' = (if cluster_admin a then {[kube]} ∪ admins c else admins c) /\
  lastUsed c' = <[s := now]> (lastUsed c).
Proof.
  intros Hkey Hlen. unfold GetSearcherWithLRU, get_begin.
  set (key := generateKey sha1 c kube ns) in *.
  assert (forall c1, searchMap c1 = searchMap c -> cache_get key c1 = (with_map c1 (searchMap c1), None)) as Hget.
  { intros c1 E. unfold cache_get, lru_get. by rewrite E, (proj2 (lru_find_None key (searchMap c))). }
  rewrite (Hget c) by done. unfold get_init. destruct (client_ok a); [|done]. cbn.
  destruct (load_apis key a (with_map c (searchMap c))) as [c1 ok] eqn:E.
  assert (searchMap c1 = searchMap c /\ admins c1 = admins c /\ stopped c1 = stopped c /\
    lastUsed c1 = lastUsed c /\ made c1 = made c) as (E1 & E2 & E3 & E4 & E5).
  { unfold load_apis in E. repeat case_match; by simplify_eq. }
  destruct ok; [|done]. destruct (schema_ok a); [|done]. unfold get_finish. rewrite Hget by done. cbn.
  unfold lru_add. rewrite E1, (proj2 (lru_find_None key (searchMap c))) by done.
  destruct (Nat.ltb_spec lru_size (length ((key, made c1) :: searchMap c))) as [Hlt|_]; [cbn in Hlt; lia|].
  intros [= <- <-]. cbn. rewrite E2, E3, E4, E5. done.
Qed.

(** A call that finds a searcher returns it. *)
Lemma GetSearcher_hit kube ns a now c s :
  NoDup (searchMap c).*1 -> (generateKey sha1 c kube ns, s) ∈ searchMap c ->
  snd (GetSearcherWithLRU sha1 kube ns a now c) = Some s.
Proof.
  intros Hnd Hin. unfold GetSearcherWithLRU, get_begin, cache_get, lru_get.
  set (key := generateKey sha1 c kube ns) in *.
  destruct (lru_find key (searchMap c)) as [s'|] eqn:E.
  - cbn. f_equal. pose proof (lru_find_perm key _ _ Hnd E) as Hp. rewrite Hp in Hin, Hnd.
    apply NoDup_cons in Hnd as [Hk _]. apply elem_of_cons in Hin as [[= ->]|Hin]; [done|].
    destruct Hk. apply list_elem_of_fmap. by exists (key, s).
  - apply lru_find_None in E. destruct E. apply list_elem_of_fmap. by exists (key, s).
Qed.

(** For a user who is not the cluster's administrator, the searcher a call
    built is the one the next call with the same arguments gets. *)
Theorem searcher_reused kube ns a a' now now' c c' s :
  NoDup (searchMap c).*1 -> kube ∉ admins c -> cluster_admin a = false ->
  generateKey sha1 c kube ns ∉ (searchMap c).*1 -> length (searchMap c) < lru_size ->
  GetSearcherWithLRU sha1 kube ns a now c = (c', Some s) ->
  snd (GetSearcherWithLRU sha1 kube ns a' now' c') = Some s.
Proof.
  intros Hnd Hadm Ha Hkey Hlen Hget.
  destruct (GetSearcher_miss kube ns a now c c' s Hkey Hlen Hget) as (_ & _ & _ & Hm & Had & _).
  rewrite Ha in Had. apply GetSearcher_hit.
  - rewrite Hm. cbn. by apply NoDup_cons.
  - rewrite Hm. unfold generateKey. rewrite Had. apply elem_of_cons. by left.
Qed.

(** For the cluster's administrator it is not: the key of the first call has
    the namespace, since who he is is only found while the searcher is built, and
    the key of the next call has not.  Two searchers then watch the cluster for
    him. *)
Theorem admin_searcher_twice kube ns a now now' c c1 c2 s1 s2 :
  kube ∉ admins c -> cluster_admin a = true -> ns <> [] ->
  ns ++ sha1 kube ∉ (searchMap c).*1 -> sha1 kube ∉ (searchMap c).*1 ->
  S (length (searchMap c)) < lru_size -> stopped_made c ->
  GetSearcherWithLRU sha1 kube ns a now c = (c1, Some s1) ->
  GetSearcherWithLRU sha1 kube ns a now' c1 = (c2, Some s2) ->
  s2 <> s1 /\ running c2 s1 /\ running c2 s2.
Proof.
  intros Hadm Ha Hns Hk1 Hk2 Hlen Hst H1 H2.
  apply GetSearcher_miss in H1 as (-> & Hmade & Hstop & Hm & Had & _); [| |lia].
  2:{ unfold generateKey. by rewrite bool_decide_eq_false_2. }
  rewrite Ha in Had.
  assert (generateKey sha1 c1 kube ns = sha1 kube) as Ekey.
  { unfold generateKey. rewrite Had, bool_decide_eq_true_2; [done|set_solver]. }
  apply GetSearcher_miss in H2 as (-> & Hmade2 & Hstop2 & _); rewrite ?Ekey, ?Hm; [| |cbn; lia].
  2:{ cbn. apply not_elem_of_cons. split; [|done]. unfold generateKey. rewrite bool_decide_eq_false_2 by done.
      intros E. apply Hns. apply (app_inv_tail (sha1 kube) ns []). done. }
  unfold running. rewrite Hmade2, Hstop2, Hmade, Hstop. split_and!; [lia|lia| |lia|].
  - intros ?%Hst. lia.
  - intros ?%Hst. lia.
Qed.
End calls.

(** ** A run *)

Section demo.
#[local] Abbreviation sha := (fun s : gostring => s).

Definition all_ok (admin : bool) : answers := mkAnswers true true admin true.

(** One call has built a searcher, which is not cached yet. *)
Definition demo_built : cache := mkCache [] ∅ {[go "nskube"]} ∅ ∅ 1.

Lemma demo_built_reachable : reachable sha demo_built [Built (go "nskube") 0].
Proof.
  eapply rtc_l; [eapply (step_miss sha no_searchers [] (go "kube") (go "ns") 0); vm_compute; reflexivity|].
  eapply rtc_l; [|apply rtc_refl].
  apply (step_built sha _ [] [] (go "kube") (go "nskube") (all_ok false)). vm_compute. reflexivity.
Qed.

(** It is cached. *)
Definition demo_cached : cache := mkCache [(go "nskube", 0)] ∅ {[go "nskube"]} ∅ {[0 := 5%Z]} 1.

Lemma demo_cached_reachable : reachable sha demo_cached [].
Proof.
  eapply rtc_r; [apply demo_built_reachable|].
  apply (step_finish sha _ [] [] (go "nskube") 0 5 demo_cached 0). vm_compute. reflexivity.
Qed.

Lemma searchers_not_leaked_witness : running demo_built 0.
Proof.
  apply (searchers_not_leaked sha demo_built [Built (go "nskube") 0] 0 demo_built_reachable).
  right. cbn. by apply list_elem_of_singleton.
Defined.

Lemma searchers_bounded_witness : length [0] <= 20 /\ NoDup (searchMap demo_cached).*1.
Proof.
  apply (searchers_bounded sha demo_cached [0] demo_cached_reachable).
  - apply NoDup_singleton.
  - intros s ->%list_elem_of_singleton. split; [cbn; lia|apply not_elem_of_empty].
Defined.

Definition namespace_object (name : gostring) : Obj :=
  mkObj [] name ∅ None false [] (mkGVK [] [] []).

Lemma remove_misses_namespaces_witness :
  (go "nskube", 0) ∈
  searchMap (RemoveSearcherByKubeconfig sha (go "kube") (go "other") (Some [namespace_object (go "ns")]) demo_cached).
Proof.
  apply (remove_misses_namespaces sha (go "kube") (go "other") (go "ns") [namespace_object (go "ns")] demo_cached 0).
  - apply NoDup_singleton.
  - apply not_elem_of_empty.
  - discriminate.
  - discriminate.
  - intros i ->%list_elem_of_singleton. reflexivity.
  - by apply list_elem_of_singleton.
Defined.

Lemma sweep_exact_witness :
  (go "nskube", 0) ∈ searchMap (sweep 6 demo_cached) /\ searchMap (sweep (5 + day) demo_cached) = [].
Proof.
  split; [|vm_compute; reflexivity].
  apply (sweep_exact 6 demo_cached (go "nskube") 0).
  - apply NoDup_singleton.
  - split; [by apply list_elem_of_singleton|]. intros (t & Ht & Hd). vm_compute in Ht. simplify_eq.
    vm_compute in Hd. done.
Defined.

Lemma searcher_reused_witness :
  snd (GetSearcherWithLRU sha (go "kube") (go "ns") (all_ok false) 9 demo_cached) = Some 0.
Proof.
  apply (searcher_reused sha (go "kube") (go "ns") (all_ok false) (all_ok false) 5 9 no_searchers demo_cached 0).
  - constructor.
  - apply not_elem_of_empty.
  - reflexivity.
  - by intros ?%elem_of_nil.
  - cbn. unfold lru_size. lia.
  - vm_compute. reflexivity.
Defined.

Lemma admin_searcher_twice_witness : exists c2, 1 <> 0 /\ running c2 0 /\ running c2 1.
Proof.
  eexists.
  eapply (admin_searcher_twice sha (go "kube") (go "ns") (all_ok true) 5 6 no_searchers _ _ 0 1).
  - apply not_elem_of_empty.
  - reflexivity.
  - discriminate.
  - by intros ?%elem_of_nil.
  - by intros ?%elem_of_nil.
  - cbn. unfold lru_size. lia.
  - intros s Hs. by apply not_elem_of_empty in Hs.
  - vm_compute. reflexivity.
  - vm_compute. reflexivity.
Defined.
End demo.
