(* ===== verification/AppCache.v ===== *)
(** * Which applications a namespace has ([resouce_cache/appcache.go])

    The informers of workloads report changes to handlers, which keep, for each
    user and namespace and for each workload type, the names of the applications
    the stored objects belong to.  Additions and updates are handled at most once
    in five seconds; a deletion recomputes the names and asks the VPN to release
    the workload. *)

From S2P Require Import Prelude GoStrings FilePath DevDir Search.
#[local] Open Scope go_scope.

(** [maps]: from [toKey] of a kubeconfig and a namespace, and a resource type, to
    the names. *)
Abbreviation app_maps := (gmap gostring (gmap gostring (gset gostring))).

Record ResourceEventHandlerFuncs := mkHandler {
  h_kubeconfigBytes : gostring;
  nextTime : Z;
  h_Gvr : GroupVersionResource
}.

(** What is sent to the daemon: the namespace and the name of the workload. *)
Record disconnect := mkDisconnect {
  dis_ns : gostring;
  dis_name : gostring
}.

(** Nanoseconds. *)
Definition five_seconds : Z := 5000000000.

Section handlers.
Context `{!MapOrder gostring} (sha1 : gostring -> gostring).

Definition toKey (kubeconfigBytes ns : gostring) : gostring := ns ++ sha1 kubeconfigBytes.

Definition GetAllAppNameByNamespace (maps : app_maps) (kubeconfigBytes ns : gostring) : gset gostring :=
  match maps !! toKey kubeconfigBytes ns with
  | Some kinds => foldl (fun result '(_, apps) => result ∪ apps) ∅ (range kinds)
  | None => ∅
  end.

Definition NewResourceEventHandlerFuncs (now : Z) (kubeconfigBytes : gostring)
    (gvr : GroupVersionResource) : ResourceEventHandlerFuncs :=
  mkHandler kubeconfigBytes now gvr.

(** The names by [key] of the namespace: the first loop of both handlers. *)
Definition collect (key : gostring -> gostring) (list : list Obj) : gmap gostring (gset gostring) :=
  foldl (fun m o =>
           if bool_decide (obj_Namespace o = []) then m
           else <[key (obj_Namespace o) :=
                    {[getAppName o]} ∪ default ∅ (m !! key (obj_Namespace o))]> m)
    ∅ list.

(** The second loop's body: the first object of a namespace takes its names. *)
Definition record_one (r : ResourceEventHandlerFuncs)
    (st : app_maps * gmap gostring (gset gostring)) (o : Obj)
    : app_maps * gmap gostring (gset gostring) :=
  let '(maps, namespaceToApp) := st in
  if bool_decide (obj_Namespace o = []) then st
  else
    let key := toKey (h_kubeconfigBytes r) (obj_Namespace o) in
    let kinds := default ∅ (maps !! key) in
    let set := default ∅ (kinds !! gvr_Resource (h_Gvr r)) in
    match namespaceToApp !! obj_Namespace o with
    | Some value =>
        (<[key := <[gvr_Resource (h_Gvr r) := value]> kinds]> maps,
         delete (obj_Namespace o) namespaceToApp)
    | None => (<[key := <[gvr_Resource (h_Gvr r) := set]> kinds]> maps, namespaceToApp)
    end.

(** [objs]: the content of the informer's store. *)
Definition handleAddOrUpdate (r : ResourceEventHandlerFuncs) (objs : store) (maps : app_maps) : app_maps :=
  let list := map snd (range objs) in
  fst (foldl (record_one r) (maps, collect (fun ns => ns) list) list).

(** [later]: the time when the function has returned. *)
Definition timeUp (now later : Z) (f : app_maps -> app_maps) (r : ResourceEventHandlerFuncs)
    (maps : app_maps) : ResourceEventHandlerFuncs * app_maps :=
  if (0 <? nextTime r - now)%Z then (r, maps)
  else (mkHandler (h_kubeconfigBytes r) (later + five_seconds)%Z (h_Gvr r), f maps).

Definition OnAdd (now later : Z) (objs : store) (r : ResourceEventHandlerFuncs) (maps : app_maps)
    : ResourceEventHandlerFuncs * app_maps :=
  timeUp now later (handleAddOrUpdate r objs) r maps.

Definition OnUpdate (now later : Z) (objs : store) (r : ResourceEventHandlerFuncs) (maps : app_maps)
    : ResourceEventHandlerFuncs * app_maps :=
  timeUp now later (handleAddOrUpdate r objs) r maps.

(** A pod that has owners is not released: the VPN replaces such pods. *)
Definition disconnect_of (r : ResourceEventHandlerFuncs) (obj : option Obj) : option disconnect :=
  match obj with
  | None => None
  | Some o =>
      if bool_decide (gvr_Resource (h_Gvr r) = go "pods") && bool_decide (obj_Owners o <> []) then None
      else Some (mkDisconnect (obj_Namespace o)
             (gvr_Resource (h_Gvr r) ++ go "." ++ gvr_Version (h_Gvr r) ++ go "." ++ gvr_Group (h_Gvr r)
                ++ go "/" ++ obj_Name o))
  end.

(** [obj] is [None] when it is not an API object.  Every entry of the map is
    visited, whoever's it is. *)
Definition OnDelete (objs : store) (obj : option Obj) (r : ResourceEventHandlerFuncs) (maps : app_maps)
    : app_maps * option disconnect :=
  let namespaceToApp := collect (toKey (h_kubeconfigBytes r)) (map snd (range objs)) in
  (map_imap (fun uniqueKey kinds =>
               Some (alter (fun _ => default ∅ (namespaceToApp !! uniqueKey)) (gvr_Resource (h_Gvr r)) kinds))
     maps,
   disconnect_of r obj).
End handlers.

(** ** What is recorded *)

Section facts.
Context `{!MapOrder gostring} (sha1 : gostring -> gostring).
Implicit Types (r : ResourceEventHandlerFuncs) (maps : app_maps) (objs : store) (l : list Obj).

Definition recorded maps (key resource : gostring) : option (gset gostring) :=
  maps !! key ≫= fun kinds => kinds !! resource.

(** The applications of the objects of a namespace. *)
Definition apps_in l (ns : gostring) : gset gostring :=
  list_to_set (getAppName <$> filter (fun o => obj_Namespace o = ns) l).

Definition occurs l (ns : gostring) : Prop := exists o, o ∈ l /\ obj_Namespace o = ns.

#[local] Instance occurs_dec l ns : Decision (occurs l ns).
Proof.
  destruct (decide (ns ∈ obj_Namespace <$> l)) as [H1|H1]; [left|right].
  - apply list_elem_of_fmap in H1 as (o & -> & Ho). by exists o.
  - intros (o & Ho & <-). apply H1, list_elem_of_fmap. by exists o.
Defined.

Lemma occurs_cons o l ns : occurs (o :: l) ns <-> obj_Namespace o = ns \/ occurs l ns.
Proof. unfold occurs. setoid_rewrite elem_of_cons. naive_solver. Qed.

Lemma apps_in_cons o l ns :
  apps_in (o :: l) ns = (if bool_decide (obj_Namespace o = ns) then {[getAppName o]} else ∅) ∪ apps_in l ns.
Proof.
  unfold apps_in. rewrite filter_cons. case_decide as E.
  - rewrite bool_decide_eq_true_2 by done. done.
  - rewrite bool_decide_eq_false_2 by done. by rewrite (left_id_L ∅ (∪)).
Qed.

Lemma apps_in_none l ns : ~ occurs l ns -> apps_in l ns = ∅.
Proof.
  intros Hn. unfold apps_in. rewrite filter_none; [done|]. intros o Ho E. apply Hn. by exists o.
Qed.

Lemma collect_lookup (key : gostring -> gostring) l ns :
  Inj (=) (=) key -> ns <> [] ->
  collect key l !! key ns = if decide (occurs l ns) then Some (apps_in l ns) else None.
Proof.
  intros Hinj Hns. unfold collect.
  assert (forall m : gmap gostring (gset gostring),
    foldl (fun m o => if bool_decide (obj_Namespace o = []) then m
             else <[key (obj_Namespace o) := {[getAppName o]} ∪ default ∅ (m !! key (obj_Namespace o))]> m) m l
      !! key ns = if decide (occurs l ns) then Some (apps_in l ns ∪ default ∅ (m !! key ns)) else m !! key ns) as Hl.
  { induction l as [|o l IH]; intros m; cbn [foldl].
    - rewrite decide_False; [done|]. intros (o & Ho & _). by apply elem_of_nil in Ho.
    - rewrite IH, apps_in_cons. destruct (decide (obj_Namespace o = ns)) as [E|E].
      + rewrite (bool_decide_eq_true_2 (obj_Namespace o = ns)) by done.
        rewrite (bool_decide_eq_false_2 (obj_Namespace o = [])) by congruence.
        rewrite E, lookup_insert_eq. rewrite (decide_True (P := occurs (o :: l) ns)); [|by apply occurs_cons; left].
        cbn. case_decide as Ho; [f_equal; set_solver|]. rewrite (apps_in_none l ns Ho). f_equal. set_solver.
      + rewrite (bool_decide_eq_false_2 (obj_Namespace o = ns)) by done.
        assert ((if bool_decide (obj_Namespace o = []) then m
             else <[key (obj_Namespace o) := {[getAppName o]} ∪ default ∅ (m !! key (obj_Namespace o))]> m)
             !! key ns = m !! key ns) as ->.
        { case_bool_decide; [done|]. apply lookup_insert_ne. by intros ?%(inj key). }
        destruct (decide (occurs l ns)) as [H1|H1], (decide (occurs (o :: l) ns)) as [H2|H2];
          rewrite occurs_cons in H2; [|exfalso; apply H2; by right|exfalso; by destruct H2|done].
        f_equal. set_solver. }
  rewrite Hl, lookup_empty. case_decide; [|done]. f_equal. cbn. set_solver.
Qed.

(** *** Additions and updates *)

Lemma recorded_insert maps key key' resource kinds :
  recorded (<[key := kinds]> maps) key' resource =
  if decide (key = key') then kinds !! resource else recorded maps key' resource.
Proof. unfold recorded. rewrite lookup_insert. by case_decide. Qed.

Lemma record_loop r l (ns : gostring) maps (pend : gmap gostring (gset gostring)) :
  ns <> [] ->
  recorded (fst (foldl (record_one sha1 r) (maps, pend) l)) (toKey sha1 (h_kubeconfigBytes r) ns) (gvr_Resource (h_Gvr r)) =
  let old := recorded maps (toKey sha1 (h_kubeconfigBytes r) ns) (gvr_Resource (h_Gvr r)) in
  if decide (occurs l ns) then Some (match pend !! ns with Some v => v | None => default ∅ old end) else old.
Proof.
  intros Hns. revert maps pend. induction l as [|o l IH]; intros maps pend.
  { cbn. rewrite decide_False; [done|]. intros (o & Ho & _). by apply elem_of_nil in Ho. }
  cbn [foldl]. unfold record_one at 2. case_bool_decide as E0.
  - rewrite IH. cbn zeta. destruct (decide (occurs l ns)) as [H1|H1].
    + rewrite decide_True; [done|]. apply occurs_cons. by right.
    + rewrite decide_False; [done|]. rewrite occurs_cons. intros [?|?]; [congruence|done].
  - set (key := toKey sha1 (h_kubeconfigBytes r)). set (res := gvr_Resource (h_Gvr r)).
    destruct (decide (obj_Namespace o = ns)) as [E|E].
    + rewrite (decide_True (P := occurs (o :: l) ns)); [|by apply occurs_cons; left].
      rewrite E. destruct (pend !! ns) as [v|] eqn:Ep; rewrite IH; fold key res; cbn zeta;
        rewrite recorded_insert, (decide_True (P := key ns = key ns)) by done; rewrite lookup_insert_eq.
      * rewrite lookup_delete_eq. by case_decide.
      * rewrite Ep. unfold recorded. destruct (maps !! key ns); cbn; by case_decide.
    + assert (forall p, recorded (<[key (obj_Namespace o) := p]> maps) (key ns) res = recorded maps (key ns) res)
        as Hoff.
      { intros p. rewrite recorded_insert, decide_False; [done|]. unfold key, toKey. by intros ?%app_inv_tail. }
      assert (occurs (o :: l) ns <-> occurs l ns) as Hocc by (rewrite occurs_cons; tauto).
      destruct (pend !! obj_Namespace o) as [v|] eqn:Ep; rewrite IH; fold key res; cbn zeta; rewrite Hoff;
        rewrite ?lookup_delete_ne by done;
        destruct (decide (occurs (o :: l) ns)), (decide (occurs l ns)); (done || tauto).
Qed.

Lemma record_other r l maps (pend : gmap gostring (gset gostring)) (key resource : gostring) :
  (resource <> gvr_Resource (h_Gvr r) \/ forall ns, key <> toKey sha1 (h_kubeconfigBytes r) ns) ->
  recorded (fst (foldl (record_one sha1 r) (maps, pend) l)) key resource = recorded maps key resource.
Proof.
  intros Hk. revert maps pend. induction l as [|o l IH]; intros maps pend; [done|]. cbn [foldl].
  unfold record_one at 2. case_bool_decide; [apply IH|].
  destruct (pend !! obj_Namespace o); rewrite IH, recorded_insert; case_decide as E; try done; subst key;
    (destruct Hk as [Hk|Hk]; [|by destruct (Hk (obj_Namespace o))]); rewrite lookup_insert_ne by done;
    unfold recorded; by destruct (maps !! _).
Qed.

Lemma handled_lookup r objs maps (ns : gostring) :
  ns <> [] ->
  recorded (handleAddOrUpdate sha1 r objs maps) (toKey sha1 (h_kubeconfigBytes r) ns) (gvr_Resource (h_Gvr r)) =
  if decide (occurs (map snd (range objs)) ns) then Some (apps_in (map snd (range objs)) ns)
  else recorded maps (toKey sha1 (h_kubeconfigBytes r) ns) (gvr_Resource (h_Gvr r)).
Proof.
  intros Hns. unfold handleAddOrUpdate. rewrite record_loop by done. cbn zeta.
  case_decide as E; [|done]. rewrite (collect_lookup (fun ns => ns)) by (done || intros ???; done).
  by rewrite decide_True.
Qed.

(** *** The names of a namespace *)

Lemma foldl_union {K : Type} (l : list (K * gset gostring)) (acc : gset gostring) x :
  x ∈ foldl (fun result '(_, apps) => result ∪ apps) acc l <-> x ∈ acc \/ exists k s, (k, s) ∈ l /\ x ∈ s.
Proof.
  revert acc. induction l as [|[k s] l IH]; intros acc; cbn.
  - split; [by left|]. intros [?|(k & s & Hin & _)]; [done|]. by apply elem_of_nil in Hin.
  - rewrite IH, elem_of_union. setoid_rewrite elem_of_cons. naive_solver.
Qed.

Lemma elem_of_GetAll maps kube ns x :
  x ∈ GetAllAppNameByNamespace sha1 maps kube ns <->
  exists resource s, recorded maps (toKey sha1 kube ns) resource = Some s /\ x ∈ s.
Proof.
  unfold GetAllAppNameByNamespace, recorded. destruct (maps !! toKey sha1 kube ns) as [kinds|]; cbn.
  - rewrite foldl_union. setoid_rewrite elem_of_range. set_solver.
  - split; [set_solver|]. by intros (? & ? & ? & _).
Qed.

(** The application [x] has an object in namespace [ns] of the store. *)
Definition has_app objs (ns x : gostring) : Prop :=
  exists k o, objs !! k = Some o /\ obj_Namespace o = ns /\ x = getAppName o.

Lemma elem_of_apps_in objs ns x : x ∈ apps_in (map snd (range objs)) ns <-> has_app objs ns x.
Proof.
  unfold apps_in, has_app. rewrite elem_of_list_to_set, list_elem_of_fmap. split.
  - intros (o & -> & [Hns Ho]%list_elem_of_filter).
    apply list_elem_of_fmap in Ho as ([k o'] & -> & Ho%elem_of_range). by exists k, o'.
  - intros (k & o & Hk & Hns & ->). exists o. split; [done|]. apply list_elem_of_filter. split; [done|].
    apply list_elem_of_fmap. exists (k, o). split; [done|]. by apply elem_of_range.
Qed.

Lemma has_app_occurs objs ns x : has_app objs ns x -> occurs (map snd (range objs)) ns.
Proof.
  intros (k & o & Hk & Hns & _). exists o. split; [|done]. apply list_elem_of_fmap. exists (k, o).
  split; [done|]. by apply elem_of_range.
Qed.

(** After an addition or an update that is not throttled, the names of a
    namespace with stored objects are those of these objects, together with what
    the handlers of the other workload types recorded. *)
Theorem app_names_updated now later objs r maps (ns x y : gostring) :
  ns <> [] -> (nextTime r <= now)%Z -> has_app objs ns y ->
  x ∈ GetAllAppNameByNamespace sha1 (snd (OnAdd sha1 now later objs r maps)) (h_kubeconfigBytes r) ns <->
  has_app objs ns x \/
  exists resource s, resource <> gvr_Resource (h_Gvr r) /\
    recorded maps (toKey sha1 (h_kubeconfigBytes r) ns) resource = Some s /\ x ∈ s.
Proof.
  intros Hns Hnow Hy. unfold OnAdd, timeUp. destruct (Z.ltb_spec 0 (nextTime r - now)); [lia|]. cbn [snd].
  rewrite elem_of_GetAll, <- elem_of_apps_in. split.
  - intros (resource & s & Hr & Hx). destruct (decide (resource = gvr_Resource (h_Gvr r))) as [->|Hne].
    + left. rewrite handled_lookup, decide_True in Hr by (done || by eapply has_app_occurs). by simplify_eq.
    + right. exists resource, s. unfold handleAddOrUpdate in Hr. rewrite record_other in Hr by (by left). done.
  - intros [Hx|(resource & s & Hne & Hr & Hx)].
    + exists (gvr_Resource (h_Gvr r)). rewrite handled_lookup, decide_True by (done || by eapply has_app_occurs).
      by eexists.
    + exists resource, s. split; [|done]. unfold handleAddOrUpdate. by rewrite record_other by (by left).
Qed.

Lemma deleted_lookup objs obj r maps key resource :
  recorded (fst (OnDelete sha1 objs obj r maps)) key resource =
  if decide (resource = gvr_Resource (h_Gvr r))
  then (fun _ => default ∅ (collect (toKey sha1 (h_kubeconfigBytes r)) (map snd (range objs)) !! key))
         <$> recorded maps key resource
  else recorded maps key resource.
Proof.
  unfold OnDelete, recorded. cbn [fst]. rewrite map_lookup_imap.
  destruct (maps !! key) as [kinds|]; cbn; [|by case_decide]. rewrite lookup_alter.
  case_decide as E1; case_decide as E2; congruence.
Qed.

#[local] Instance toKey_inj kube : Inj (=) (=) (toKey sha1 kube).
Proof. intros ns1 ns2. unfold toKey. apply app_inv_tail. Qed.

(** A deletion leaves, for each namespace of the user that had names, the
    applications that still have an object in it. *)
Theorem app_names_deleted objs obj r maps (ns x : gostring) s :
  ns <> [] -> recorded maps (toKey sha1 (h_kubeconfigBytes r) ns) (gvr_Resource (h_Gvr r)) = Some s ->
  exists s', recorded (fst (OnDelete sha1 objs obj r maps)) (toKey sha1 (h_kubeconfigBytes r) ns)
               (gvr_Resource (h_Gvr r)) = Some s' /\
             (x ∈ s' <-> has_app objs ns x).
Proof.
  intros Hns Hr. rewrite deleted_lookup, decide_True, Hr by done. cbn. eexists. split; [done|].
  rewrite collect_lookup by (apply _ || done). rewrite <- elem_of_apps_in. case_decide as Ho; cbn; [done|].
  by rewrite apps_in_none by done.
Qed.

(** A deletion in one cluster empties what the handlers of every other
    cluster recorded for the same workload type: the loop over the recorded keys
    does not ask whose they are. *)
Theorem delete_forgets_other_clusters objs obj r maps kube' (ns' : gostring) s :
  (forall k, length (sha1 k) = 20) -> sha1 kube' <> sha1 (h_kubeconfigBytes r) ->
  recorded maps (toKey sha1 kube' ns') (gvr_Resource (h_Gvr r)) = Some s ->
  recorded (fst (OnDelete sha1 objs obj r maps)) (toKey sha1 kube' ns') (gvr_Resource (h_Gvr r)) = Some ∅.
Proof.
  intros Hlen Hne Hr. rewrite deleted_lookup, decide_True, Hr by done. cbn. do 2 f_equal.
  assert (forall l, collect (toKey sha1 (h_kubeconfigBytes r)) l !! toKey sha1 kube' ns' = None) as Hn.
  { intros l. unfold collect. assert (forall m : gmap gostring (gset gostring),
      m !! toKey sha1 kube' ns' = None ->
      foldl (fun m o => if bool_decide (obj_Namespace o = []) then m
             else <[toKey sha1 (h_kubeconfigBytes r) (obj_Namespace o) := {[getAppName o]} ∪
                default ∅ (m !! toKey sha1 (h_kubeconfigBytes r) (obj_Namespace o))]> m) m l
        !! toKey sha1 kube' ns' = None) as Hl; [|apply Hl, lookup_empty].
    induction l as [|o l IH]; intros m Hm; cbn [foldl]; [done|]. apply IH. case_bool_decide; [done|].
    rewrite lookup_insert_ne; [done|]. unfold toKey. intros E. apply Hne.
    apply app_inj_2 in E as [_ E]; [done|]. by rewrite !Hlen. }
  by rewrite Hn.
Qed.
End facts.


(** ** Two clusters *)

Section demo.
(** A digest of twenty bytes. *)
Definition demo_sha (s : gostring) : gostring := take 20 (s ++ replicate 20 "0"%char).

Lemma demo_sha_length s : length (demo_sha s) = 20.
Proof. unfold demo_sha. rewrite length_take, length_app, length_replicate. lia. Qed.

Definition deployments : GroupVersionResource := mkGVR (go "apps") (go "v1") (go "deployments").

Definition shop_object : Obj :=
  mkObj (go "ns") (go "web") ∅ (Some {[NocalhostApplicationName := go "shop"]}) false [] (mkGVK [] [] []).

Definition demo_store : store := {[go "ns/web" := shop_object]}.

Definition demo_handler (kube : string) : ResourceEventHandlerFuncs :=
  NewResourceEventHandlerFuncs 0 (go kube) deployments.

Lemma shop_in_ns : has_app demo_store (go "ns") (go "shop").
Proof. exists (go "ns/web"), shop_object. split_and!; [apply lookup_singleton_eq|done|reflexivity]. Qed.

Lemma app_names_updated_witness :
  go "shop" ∈ GetAllAppNameByNamespace demo_sha (snd (OnAdd demo_sha 1 1 demo_store (demo_handler "a") ∅)) (go "a") (go "ns").
Proof.
  apply (app_names_updated demo_sha 1 1 demo_store (demo_handler "a") ∅ (go "ns") (go "shop") (go "shop")).
  - discriminate.
  - cbn. lia.
  - apply shop_in_ns.
  - left. apply shop_in_ns.
Defined.

(** The names both clusters recorded. *)
Definition both : app_maps :=
  snd (OnAdd demo_sha 1 1 demo_store (demo_handler "b") (snd (OnAdd demo_sha 1 1 demo_store (demo_handler "a") ∅))).

Lemma app_names_deleted_witness :
  exists s', recorded (fst (OnDelete demo_sha ∅ None (demo_handler "a") both)) (toKey demo_sha (go "a") (go "ns"))
               (go "deployments") = Some s' /\ (go "shop" ∈ s' <-> has_app ∅ (go "ns") (go "shop")).
Proof.
  apply (app_names_deleted demo_sha ∅ None (demo_handler "a") both (go "ns") (go "shop") {[go "shop"]}).
  - discriminate.
  - vm_compute. reflexivity.
Defined.

Lemma delete_forgets_other_clusters_witness :
  recorded (fst (OnDelete demo_sha ∅ None (demo_handler "a") both)) (toKey demo_sha (go "b") (go "ns"))
    (go "deployments") = Some ∅.
Proof.
  apply (delete_forgets_other_clusters demo_sha ∅ None (demo_handler "a") both (go "b") (go "ns") {[go "shop"]}).
  - apply demo_sha_length.
  - vm_compute. discriminate.
  - vm_compute. reflexivity.
Defined.
End demo.
