(* ===== verification/Profile.v ===== *)
(** * The application profile ([internal/nhctl/profile/profile_v2.go],
      [nocalhost/leveldb_profile.go], [controller/profile.go], [app/application.go])

    nhctl keeps a profile of each application on disk: the kubeconfig, an
    identifier of this machine and, for each workload, its port-forwards and
    syncthing ports.  The profile is YAML under one key of a LevelDB in the
    application's directory; a file [portforward] in that directory marks the
    applications whose port-forwards the daemon recovers when it starts.

    The nhctl home is the state: its databases and the marker files, under
    paths.  Paths are lists of names below the namespace directory; the names
    are Kubernetes names and ids, which [filepath.Join] leaves as they are.
    The YAML codec, the clock, the identifier of the machine and LevelDB's
    failures are parameters. *)

From stdpp Require Import sorting.
From S2P Require Import Prelude GoStrings FilePath DevDir AppMeta.
#[local] Open Scope go_scope.

(** ** Data *)

Record DevPortForward := mkPf {
  LocalPort : Z;
  RemotePort : Z;
  Role : gostring;
  Status : gostring;
  Reason : gostring;
  PodName : gostring;
  Labels : gmap gostring gostring;
  OwnerKind : gostring;
  OwnerApiVersion : gostring;
  OwnerName : gostring;
  Updated : gostring;
  Sudo : bool;
  DaemonServerPid : Z;
  ServiceType : gostring
}.

#[export] Instance DevPortForward_eq_dec : EqDecision DevPortForward.
Proof. solve_decision. Defined.

(** The fields of the service profile that the code here uses; the others are
    carried along in [sp_rest]. *)
Record SvcProfile := mkSvc {
  sp_ActualName : gostring;
  sp_Name : gostring;
  sp_Type : gostring;
  PortForwarded : bool;
  Syncing : bool;
  RemoteSyncthingPort : Z;
  RemoteSyncthingGUIPort : Z;
  LocalSyncthingPort : Z;
  LocalSyncthingGUIPort : Z;
  LocalAbsoluteSyncDir : list gostring;
  DevPortForwardList : list DevPortForward;
  sp_rest : gostring
}.

#[export] Instance SvcProfile_eq_dec : EqDecision SvcProfile.
Proof. solve_decision. Defined.

Record AppProfileV2 := mkProfile {
  Kubeconfig : gostring;
  Identifier : gostring;
  SvcProfiles : list SvcProfile;
  ap_rest : gostring
}.

#[export] Instance AppProfileV2_eq_dec : EqDecision AppProfileV2.
Proof. solve_decision. Defined.

Definition empty_profile : AppProfileV2 := mkProfile [] [] [] [].

(** A service profile that is first looked up. *)
Definition new_svc (svcType svcName : gostring) : SvcProfile :=
  mkSvc [] svcName svcType false false 0 0 0 0 [] [] [].

Definition with_list (s : SvcProfile) (l : list DevPortForward) : SvcProfile :=
  mkSvc (sp_ActualName s) (sp_Name s) (sp_Type s) (PortForwarded s) (Syncing s) (RemoteSyncthingPort s)
    (RemoteSyncthingGUIPort s) (LocalSyncthingPort s) (LocalSyncthingGUIPort s) (LocalAbsoluteSyncDir s)
    l (sp_rest s).

Class ProfileYaml := {
  yaml_profile : AppProfileV2 -> gostring;
  unyaml_profile : gostring -> option AppProfileV2
}.

(** Marshalling then unmarshalling gives the profile back, and the document is
    not empty. *)
Class ProfileYamlLaws `{!ProfileYaml} := {
  unyaml_yaml_profile : forall p, unyaml_profile (yaml_profile p) = Some p;
  yaml_profile_nonempty : forall p, yaml_profile p <> []
}.

(** ** The home directory ([nocalhost_path/filepath.go]) *)

Abbreviation path := (list gostring).

Record home := mkHome {
  dbs : gmap path levelDB;
  marks : gset path
}.

Definition DefaultApplicationDbDir : gostring := go "db".
Definition DefaultNhctlPortForward : gostring := go "portforward".

Definition GetAppDirUnderNs (appName namespace nid : gostring) : path := [namespace; nid; appName].
Definition GetAppDirUnderNsWithoutNid (appName namespace : gostring) : path := [namespace; appName].

Definition GetAppDbDir (ns app nid : gostring) : path :=
  (if bool_decide (nid <> []) then GetAppDirUnderNs app ns nid
   else GetAppDirUnderNsWithoutNid app ns) ++ [DefaultApplicationDbDir].

(** [filepath.Dir]. *)
Definition Dir (p : path) : path := take (length p - 1) p.

Inductive profile_error :=
  | NoSuchDb          (* the database's directory is missing *)
  | DbError           (* another failure of LevelDB *)
  | ProfileNotFound
  | ProfileSyntax
  | PortForwardNotFound
  | Migrating
  | AppUnknown
  | AppNotInstalled
  | MetaFailure       (* the meta cannot be read or written *)
  | KubeconfigMissing
  | ClientFailure
  | NoIdentifier
  | PortUnavailable   (* the local port is in use *)
  | AlreadyForwarded
  | PodMissing
  | Unfinished.       (* the call has not returned within its fuel *)

(** ** Code on the home: a state that survives errors *)

Definition io (A : Type) : Type := home -> home * res profile_error A.

Definition ret {A : Type} (a : A) : io A := fun h => (h, Ok a).
Definition fail {A : Type} (e : profile_error) : io A := fun h => (h, Err e).

Definition bind {A B : Type} (c : io A) (k : A -> io B) : io B :=
  fun h => match c h with
           | (h, Ok a) => k a h
           | (h, Err e) => (h, Err e)
           end.

Notation "x <-# c1 ; c2" := (bind c1 (fun x => c2))
  (at level 100, c1 at next level, right associativity) : go_scope.

Lemma bind_Ok {A B : Type} (c : io A) (k : A -> io B) h h' a :
  c h = (h', Ok a) -> bind c k h = k a h'.
Proof. unfold bind. by intros ->. Qed.

Lemma bind_inv {A B : Type} (c : io A) (k : A -> io B) h h' b :
  bind c k h = (h', Ok b) -> exists h1 a, c h = (h1, Ok a) /\ k a h1 = (h', Ok b).
Proof. unfold bind. destruct (c h) as [h1 [a|e]]; [eauto|done]. Qed.

(** Controllers name the profile of a workload. *)
Record Controller := mkCtl {
  c_ns : gostring;
  c_app : gostring;
  c_name : gostring;
  c_type : gostring;
  c_nid : gostring
}.

Definition ctl_dir (c : Controller) : path := GetAppDbDir (c_ns c) (c_app c) (c_nid c).

Section profile.
Context `{!MapOrder gostring} `{!ProfileYaml} (f : faults).

(** *** LevelDB *)

Definition OpenLevelDB (p : path) : io levelDB := fun h =>
  if open_fails f then (h, Err DbError)
  else match dbs h !! p with
       | Some d => (h, Ok d)
       | None => (h, Err NoSuchDb)
       end.

Definition db_put (p : path) (k v : gostring) : io unit := fun h =>
  if put_fails f then (h, Err DbError)
  else (mkHome (<[p := <[k := v]> (default ∅ (dbs h !! p))]> (dbs h)) (marks h), Ok tt).

(** *** Loading and saving *)

Definition profile_suffix : gostring := go "profile.v2".

Definition ProfileV2Key (ns app : gostring) : gostring :=
  ns ++ go "." ++ app ++ go ".profile.v2".

Definition NewAppProfileV2ForUpdate (ns name nid : gostring) : io AppProfileV2 :=
  d <-# OpenLevelDB (GetAppDbDir ns name nid);
  bys <-# (if get_fails f then fail DbError
           else match d !! ProfileV2Key ns name with
                | Some b => ret b
                | None =>
                    if list_fails f then fail DbError
                    else match List.find (fun kv => Contains (fst kv) profile_suffix) (range d) with
                         | Some (_, v) => ret v
                         | None => ret []
                         end
                end);
  if bool_decide (bys = []) then fail ProfileNotFound
  else match unyaml_profile bys with
       | Some p => ret p
       | None => fail ProfileSyntax
       end.

Definition has_port_forward (p : AppProfileV2) : bool :=
  existsb (fun s => negb (bool_decide (DevPortForwardList s = []))) (SvcProfiles p).

(** The deferred function that writes the marker file. *)
Definition mark_port_forward (db_path : path) (p : AppProfileV2) (h : home) : home :=
  if has_port_forward p then mkHome (dbs h) ({[Dir db_path ++ [DefaultNhctlPortForward]]} ∪ marks h) else h.

Definition Save (ns appName nid : gostring) (a : AppProfileV2) : io unit := fun h =>
  let db_path := GetAppDbDir ns appName nid in
  let '(h, r) := db_put db_path (ProfileV2Key ns appName) (yaml_profile a) h in
  (mark_port_forward db_path a h, r).

(** [machine] is the hardware address, or else a random text. *)
Definition GenerateIdentifierIfNeeded (machine : gostring) (a : AppProfileV2) : AppProfileV2 :=
  if bool_decide (Identifier a = []) then
    mkProfile (Kubeconfig a) (go "i" ++ ReplaceAll machine (go ":") (go "-")) (SvcProfiles a) (ap_rest a)
  else a.

(** [GetName] also fills the name in. *)
Definition GetName (s : SvcProfile) : SvcProfile :=
  if bool_decide (sp_Name s = []) then
    mkSvc (sp_ActualName s) (sp_ActualName s) (sp_Type s) (PortForwarded s) (Syncing s)
      (RemoteSyncthingPort s) (RemoteSyncthingGUIPort s) (LocalSyncthingPort s) (LocalSyncthingGUIPort s)
      (LocalAbsoluteSyncDir s) (DevPortForwardList s) (sp_rest s)
  else s.

Definition is_svc (svcName svcType : gostring) (s : SvcProfile) : bool :=
  bool_decide (sp_Name (GetName s) = svcName) && bool_decide (sp_Type s = svcType).

(** [AppProfileV2.SvcProfileV2] and what the caller does to the profile it
    returns, a pointer into the list: the names of the profiles looked at are
    filled in, and a missing one is appended. *)
Fixpoint SvcProfileV2 {A : Type} (svcName svcType : gostring) (k : SvcProfile -> SvcProfile * A)
    (l : list SvcProfile) : list SvcProfile * A :=
  match l with
  | [] => let '(s, a) := k (new_svc svcType svcName) in ([s], a)
  | s :: l =>
      if is_svc svcName svcType s then let '(s, a) := k (GetName s) in (s :: l, a)
      else let '(l, a) := SvcProfileV2 svcName svcType k l in (GetName s :: l, a)
  end.

(** [UnmarshalProfileUnStrict]. *)
Definition UnmarshalProfileUnStrict (b : gostring) : option AppProfileV2 :=
  match unyaml_profile b with
  | Some p => Some p
  | None => unyaml_profile (drop_ports (length b) b)
  end.

Definition GetProfileV2 (ns app nid : gostring) : io AppProfileV2 :=
  let db_path := GetAppDbDir ns app nid in
  d <-# OpenLevelDB db_path;
  if get_fails f then fail DbError
  else match d !! ProfileV2Key ns app with
       | None => _ <-# db_put db_path (ProfileV2Key ns app) (yaml_profile empty_profile); ret empty_profile
       | Some bys =>
           if bool_decide (bys = []) then fail ProfileNotFound
           else match UnmarshalProfileUnStrict bys with
                | Some p => ret p
                | None => fail ProfileSyntax
                end
       end.

Definition GetKubeConfigFromProfile (ns app nid : gostring) : io gostring :=
  p <-# GetProfileV2 ns app nid; ret (Kubeconfig p).

(** The document is made before the identifier, which only the caller's profile
    gets. *)
Definition UpdateProfileV2 (machine ns app nid : gostring) (p : AppProfileV2) : io AppProfileV2 :=
  _ <-# OpenLevelDB (GetAppDbDir ns app nid);
  _ <-# db_put (GetAppDbDir ns app nid) (ProfileV2Key ns app) (yaml_profile p);
  ret (GenerateIdentifierIfNeeded machine p).

(** *** The controller's operations ([controller/service.go],
        [controller/profile.go], [controller/port_forward.go]) *)

Section controller.
Context (machine : gostring).

Definition UpdateSvcProfile (c : Controller) (modify : SvcProfile -> res profile_error SvcProfile) : io unit :=
  p <-# NewAppProfileV2ForUpdate (c_ns c) (c_app c) (c_nid c);
  match SvcProfileV2 (c_name c) (c_type c)
          (fun s => match modify s with Ok s' => (s', Ok tt) | Err e => (s, Err e) end) (SvcProfiles p) with
  | (_, Err e) => fail e
  | (l, Ok _) =>
      Save (c_ns c) (c_app c) (c_nid c)
        (GenerateIdentifierIfNeeded machine (mkProfile (Kubeconfig p) (Identifier p) l (ap_rest p)))
  end.

Definition GetProfile (c : Controller) : io SvcProfile :=
  p <-# GetProfileV2 (c_ns c) (c_app c) (c_nid c);
  ret (snd (SvcProfileV2 (c_name c) (c_type c) (fun s => (s, s)) (SvcProfiles p))).

(** An unreadable profile counts as forwarding. *)
Definition IsPortForwarding (c : Controller) : home -> home * bool := fun h =>
  match GetProfileV2 (c_ns c) (c_app c) (c_nid c) h with
  | (h, Err _) => (h, true)
  | (h, Ok p) => (h, has_port_forward p)
  end.

Definition same_ports (localPort remotePort : Z) (pf : DevPortForward) : bool :=
  (LocalPort pf =? localPort)%Z && (RemotePort pf =? remotePort)%Z.

Definition GetPortForwardForSync (c : Controller) : io (option DevPortForward) :=
  s <-# GetProfile c;
  ret (List.find (fun pf => bool_decide (Role pf = go "SYNC")) (DevPortForwardList s)).

Definition SetPortForwardedStatus (c : Controller) (forwarded : bool) : io unit :=
  UpdateSvcProfile c (fun s => Ok
    (mkSvc (sp_ActualName s) (sp_Name s) (sp_Type s) forwarded (Syncing s) (RemoteSyncthingPort s)
       (RemoteSyncthingGUIPort s) (LocalSyncthingPort s) (LocalSyncthingGUIPort s) (LocalAbsoluteSyncDir s)
       (DevPortForwardList s) (sp_rest s))).

Definition setSyncthingProfileEndStatus (c : Controller) : io unit :=
  UpdateSvcProfile c (fun s => Ok
    (mkSvc (sp_ActualName s) (sp_Name s) (sp_Type s) false false 0 0 0 0 []
       (DevPortForwardList s) (sp_rest s))).

Definition SetSyncthingPort (c : Controller) (remotePort remoteGUIPort localPort localGUIPort : Z) : io unit :=
  UpdateSvcProfile c (fun s => Ok
    (mkSvc (sp_ActualName s) (sp_Name s) (sp_Type s) (PortForwarded s) (Syncing s) remotePort remoteGUIPort
       localPort localGUIPort (LocalAbsoluteSyncDir s) (DevPortForwardList s) (sp_rest s))).

Definition AddPortForwardToDB (c : Controller) (port : DevPortForward) : io unit :=
  UpdateSvcProfile c (fun s => Ok (with_list s (DevPortForwardList s ++ [port]))).

(** The list without the first entry with the two ports. *)
Fixpoint remove_first (localPort remotePort : Z) (l : list DevPortForward) : option (list DevPortForward) :=
  match l with
  | [] => None
  | pf :: l =>
      if same_ports localPort remotePort pf then Some l
      else (cons pf) <$> remove_first localPort remotePort l
  end.

Definition DeletePortForwardFromDB (c : Controller) (localPort remotePort : Z) : io unit :=
  UpdateSvcProfile c (fun s =>
    match remove_first localPort remotePort (DevPortForwardList s) with
    | Some l => Ok (with_list s l)
    | None => Err PortForwardNotFound
    end).

Definition GetPortForward (c : Controller) (localPort remotePort : Z) : io DevPortForward :=
  s <-# GetProfile c;
  match List.find (same_ports localPort remotePort) (DevPortForwardList s) with
  | Some pf => ret pf
  | None => fail PortForwardNotFound
  end.

Definition CheckIfPortForwardExists (c : Controller) (localPort remotePort : Z) : io bool :=
  s <-# GetProfile c;
  ret (existsb (same_ports localPort remotePort) (DevPortForwardList s)).

Definition with_status (now portStatus reason : gostring) (pf : DevPortForward) : DevPortForward :=
  mkPf (LocalPort pf) (RemotePort pf) (Role pf) portStatus reason (PodName pf) (Labels pf) (OwnerKind pf)
    (OwnerApiVersion pf) (OwnerName pf) now (Sudo pf) (DaemonServerPid pf) (ServiceType pf).

Fixpoint update_first (g : DevPortForward -> DevPortForward) (localPort remotePort : Z)
    (l : list DevPortForward) : list DevPortForward :=
  match l with
  | [] => []
  | pf :: l =>
      if same_ports localPort remotePort pf then g pf :: l else pf :: update_first g localPort remotePort l
  end.

Definition UpdatePortForwardStatus (now : gostring) (c : Controller) (localPort remotePort : Z)
    (portStatus reason : gostring) : io unit :=
  pf <-# GetPortForward c localPort remotePort;
  if bool_decide (Status pf = portStatus) then ret tt
  else UpdateSvcProfile c (fun s => Ok
         (with_list s (update_first (with_status now portStatus reason) localPort remotePort
                         (DevPortForwardList s)))).
End controller.

(** *** Applications ([app/application.go], [nocalhost/nocalhost.go]) *)

(** What the cluster and the machine answer while an application is opened: the
    kubeconfig file exists; the meta, if the daemon returns one; copying a
    directory works and is not being done by another process; a client can be
    made. *)
Record MetaAnswer := mkAnswer {
  ma_unknown : bool;
  ma_not_installed : bool;
  ma_nid : option gostring;     (* after [GenerateNidINE] *)
  ma_migrated : bool;           (* the configuration is in the meta *)
  ma_update : bool              (* [Update] of the meta succeeds *)
}.

Record app_env := mkAppEnv {
  machine_id : gostring;
  stat_ok : bool;
  app_meta : option MetaAnswer;
  another_migration : bool;
  copy_ok : bool;
  new_client_ok : bool
}.

Definition is_prefix (d p : path) : bool := bool_decide (take (length d) p = d).

Definition dir_exists (d : path) (h : home) : bool :=
  existsb (is_prefix d) (elements (dom (dbs h))) || existsb (is_prefix d) (elements (marks h)).

Definition move_path (old new p : path) : path :=
  if is_prefix old p then new ++ drop (length old) p else p.

Definition move_dir (old new : path) (h : home) : home :=
  mkHome (list_to_map ((fun '(p, d) => (move_path old new p, d)) <$> map_to_list (dbs h)))
    (set_map (move_path old new) (marks h)).

Definition MigrateNsDirToSupportNidIfNeeded (e : app_env) (app ns nid : gostring) : io unit := fun h =>
  let newDir := GetAppDirUnderNs app ns nid in
  let oldDir := GetAppDirUnderNsWithoutNid app ns in
  if dir_exists newDir h then (h, Ok tt)
  else if negb (dir_exists oldDir h) then (h, Ok tt)
  else if another_migration e || negb (copy_ok e) then (h, Err Migrating)
  else (move_dir oldDir newDir h, Ok tt).

Definition createLevelDbIfNotExists (e : app_env) (ns name nid : gostring) : io unit := fun h =>
  match OpenLevelDB (GetAppDbDir ns name nid) h with
  | (h, Ok _) => (h, Ok tt)
  | (h, Err NoSuchDb) =>
      db_put (GetAppDbDir ns name nid) (ProfileV2Key ns name)
        (yaml_profile (GenerateIdentifierIfNeeded (machine_id e) empty_profile)) h
  | (h, Err er) => (h, Err er)
  end.

(** [Application.UpdateProfile]. *)
Definition UpdateProfile (ns name nid : gostring) (modify : AppProfileV2 -> AppProfileV2) : io unit :=
  p <-# NewAppProfileV2ForUpdate ns name nid; Save ns name nid (modify p).

Definition set_kubeconfig (kubeconfig : gostring) (p : AppProfileV2) : AppProfileV2 :=
  mkProfile kubeconfig (Identifier p) (SvcProfiles p) (ap_rest p).

(** The application that is returned: its namespace id and identifier. *)
Record Application := mkApp {
  app_nid : gostring;
  app_Identifier : gostring
}.

(** The second half of [newApplication], from the directory on; the
    configuration of an older profile goes to the meta, not to the home. *)
Definition open_application (e : app_env) (name ns nid kubeconfig : gostring) (meta : MetaAnswer)
    (initClient : bool) : io Application :=
  _ <-# MigrateNsDirToSupportNidIfNeeded e name ns nid;
  _ <-# createLevelDbIfNotExists e ns name nid;
  profileV2 <-# GetProfileV2 ns name nid;
  if negb (ma_migrated meta) && bool_decide (SvcProfiles profileV2 <> []) && negb (ma_update meta)
  then fail MetaFailure
  else
    profileV2 <-# (if bool_decide (Identifier profileV2 = []) then
                     _ <-# UpdateProfile ns name nid (GenerateIdentifierIfNeeded (machine_id e));
                     GetProfileV2 ns name nid
                   else ret profileV2);
    _ <-# (if bool_decide (kubeconfig <> []) && bool_decide (kubeconfig <> Kubeconfig profileV2)
           then UpdateProfile ns name nid (set_kubeconfig kubeconfig) else ret tt);
    if initClient && negb (new_client_ok e) then fail ClientFailure
    else ret (mkApp nid (Identifier profileV2)).

(** [newApplication] without a meta given. *)
Definition newApplication (e : app_env) (name ns kubeconfig : gostring) (initClient : bool) : io Application :=
  if negb (stat_ok e) then fail KubeconfigMissing
  else match app_meta e with
       | None => fail MetaFailure
       | Some meta =>
           if ma_unknown meta then fail AppUnknown
           else if ma_not_installed meta then fail AppNotInstalled
           else match ma_nid meta with
                | None => fail MetaFailure
                | Some nid => open_application e name ns nid kubeconfig meta initClient
                end
       end.

(** [Application.Controller], which refuses an application without identifier. *)
Definition app_Controller (a : Application) (ns app name svcType : gostring) : option Controller :=
  if bool_decide (app_Identifier a = []) then None else Some (mkCtl ns app name svcType (app_nid a)).

(** [GetNsAndApplicationInfo] after the migration, from the directories of the
    home in the order of their names. *)
Record AppInfo := mkAppInfo { ai_Namespace : gostring; ai_Nid : gostring; ai_Name : gostring }.

Fixpoint path_leb (a b : path) : bool :=
  match a, b with
  | [], _ => true
  | _ :: _, [] => false
  | x :: a, y :: b => if bool_decide (x = y) then path_leb a b else str_leb x y
  end.

Definition path_le (a b : path) : Prop := path_leb a b = true.

#[export] Instance path_le_dec : RelDecision path_le.
Proof. intros a b. unfold path_le. apply _. Defined.

Definition app_of_dir (p : path) : option AppInfo :=
  match p with
  | [ns; nid; app; last] =>
      if bool_decide (last = DefaultApplicationDbDir) then Some (mkAppInfo ns nid app) else None
  | _ => None
  end.

(** [IsPortForwarding] of an application directory. *)
Definition dir_IsPortForwarding (h : home) (a : AppInfo) : bool :=
  bool_decide (GetAppDirUnderNs (ai_Name a) (ai_Namespace a) (ai_Nid a) ++ [DefaultNhctlPortForward] ∈ marks h).

Definition GetNsAndApplicationInfo (portForwardFilter : bool) (h : home) : list AppInfo :=
  List.filter (fun a => negb portForwardFilter || dir_IsPortForwarding h a)
    (omap app_of_dir (merge_sort path_le (elements (dom (dbs h))))).
End profile.

(** ** Looking services up *)

Section services.
Implicit Types (l : list SvcProfile) (s : SvcProfile).

Definition svc_at l (svcName svcType : gostring) : SvcProfile :=
  snd (SvcProfileV2 svcName svcType (fun s => (s, s)) l).

(** What a caller may do to a profile: it keeps the names and the type. *)
Definition keeps_names (g : SvcProfile -> SvcProfile) : Prop :=
  forall s, sp_ActualName (g s) = sp_ActualName s /\ sp_Name (g s) = sp_Name s /\ sp_Type (g s) = sp_Type s.

Lemma GetName_idem s : GetName (GetName s) = GetName s.
Proof. unfold GetName. repeat case_bool_decide; try done. Qed.

Lemma GetName_type s : sp_Type (GetName s) = sp_Type s.
Proof. unfold GetName. by case_bool_decide. Qed.

Lemma is_svc_GetName svcName svcType s : is_svc svcName svcType (GetName s) = is_svc svcName svcType s.
Proof. unfold is_svc. by rewrite GetName_idem, GetName_type. Qed.

Lemma GetName_fixed s : GetName s = s <-> (sp_Name s = [] -> sp_ActualName s = []).
Proof.
  unfold GetName. destruct s as [an n]. cbn. case_bool_decide; [subst|naive_solver].
  split; [by intros [= ->]|]. intros E. by rewrite E.
Qed.

Lemma GetName_keeps g s : keeps_names g -> GetName s = s -> GetName (g s) = g s.
Proof. rewrite !GetName_fixed. intros Hg. by destruct (Hg s) as (-> & -> & _). Qed.

Lemma is_svc_keeps g svcName svcType s :
  keeps_names g -> GetName s = s -> is_svc svcName svcType (g s) = is_svc svcName svcType s.
Proof.
  intros Hg Hs. unfold is_svc. rewrite (GetName_keeps g s Hg Hs), Hs.
  by destruct (Hg s) as (_ & -> & ->).
Qed.

Lemma new_svc_GetName svcType svcName : GetName (new_svc svcType svcName) = new_svc svcType svcName.
Proof. unfold GetName. by case_bool_decide as E; [cbn in E; subst|]. Qed.

Lemma is_svc_new svcName svcType a b :
  is_svc svcName svcType (new_svc b a) = bool_decide (a = svcName) && bool_decide (b = svcType).
Proof. unfold is_svc. by rewrite new_svc_GetName. Qed.

Lemma svc_at_cons s l svcName svcType :
  svc_at (s :: l) svcName svcType = if is_svc svcName svcType s then GetName s else svc_at l svcName svcType.
Proof. unfold svc_at. cbn. destruct (is_svc svcName svcType s); [done|]. by destruct (SvcProfileV2 _ _ _ l). Qed.

Lemma SvcProfileV2_nil {A : Type} svcName svcType (k : SvcProfile -> SvcProfile * A) :
  fst (SvcProfileV2 svcName svcType k []) = [fst (k (new_svc svcType svcName))].
Proof. cbn. by destruct (k _). Qed.

Lemma SvcProfileV2_cons {A : Type} svcName svcType (k : SvcProfile -> SvcProfile * A) s l :
  fst (SvcProfileV2 svcName svcType k (s :: l)) =
  if is_svc svcName svcType s then fst (k (GetName s)) :: l
  else GetName s :: fst (SvcProfileV2 svcName svcType k l).
Proof. cbn. destruct (is_svc svcName svcType s); [by destruct (k _)|]. by destruct (SvcProfileV2 _ _ _ l). Qed.

(** The service found has the name and type asked for, filled in. *)
Lemma svc_at_named l svcName svcType :
  is_svc svcName svcType (svc_at l svcName svcType) = true /\
  GetName (svc_at l svcName svcType) = svc_at l svcName svcType.
Proof.
  induction l as [|s l IH].
  - cbn. rewrite is_svc_new, new_svc_GetName. by rewrite !bool_decide_eq_true_2.
  - rewrite svc_at_cons. destruct (is_svc svcName svcType s) eqn:E; [|done].
    by rewrite is_svc_GetName, GetName_idem.
Qed.

Lemma SvcProfileV2_snd {A : Type} svcName svcType (k : SvcProfile -> SvcProfile * A) l :
  snd (SvcProfileV2 svcName svcType k l) = snd (k (svc_at l svcName svcType)).
Proof.
  induction l as [|s l IH]; [cbn; by destruct (k _)|].
  rewrite svc_at_cons. cbn. destruct (is_svc svcName svcType s); [by destruct (k (GetName s))|].
  rewrite <- IH. by destruct (SvcProfileV2 svcName svcType k l).
Qed.

(** Looking a service up and changing it changes that one. *)
Lemma svc_at_update {A : Type} svcName svcType (k : SvcProfile -> SvcProfile * A) g l :
  keeps_names g -> (forall s, fst (k s) = g s) ->
  svc_at (fst (SvcProfileV2 svcName svcType k l)) svcName svcType = g (svc_at l svcName svcType).
Proof.
  intros Hg Hk. induction l as [|s l IH].
  - rewrite SvcProfileV2_nil, Hk, svc_at_cons, (is_svc_keeps g) by auto using new_svc_GetName.
    rewrite is_svc_new, !bool_decide_eq_true_2 by done. apply GetName_keeps; [done|apply new_svc_GetName].
  - rewrite SvcProfileV2_cons, svc_at_cons. destruct (is_svc svcName svcType s) eqn:E.
    + rewrite Hk, svc_at_cons, (is_svc_keeps g), is_svc_GetName, E by auto using GetName_idem.
      apply GetName_keeps; [done|apply GetName_idem].
    + by rewrite svc_at_cons, is_svc_GetName, E.
Qed.

(** ... and no other. *)
Lemma svc_at_other {A : Type} svcName svcType name' type' (k : SvcProfile -> SvcProfile * A) g l :
  keeps_names g -> (forall s, fst (k s) = g s) -> (name', type') <> (svcName, svcType) ->
  svc_at (fst (SvcProfileV2 svcName svcType k l)) name' type' = svc_at l name' type'.
Proof.
  intros Hg Hk Hne.
  assert (Hno : forall s, is_svc svcName svcType s = true -> is_svc name' type' s = false).
  { intros s. unfold is_svc. rewrite !andb_true_iff, !bool_decide_eq_true, andb_false_iff, !bool_decide_eq_false.
    intros [E1 E2]. destruct (decide (name' = svcName)); [right; congruence|left; congruence]. }
  induction l as [|s l IH].
  - rewrite SvcProfileV2_nil, Hk, svc_at_cons, Hno; [done|].
    rewrite (is_svc_keeps g), is_svc_new by auto using new_svc_GetName. by rewrite !bool_decide_eq_true_2.
  - rewrite SvcProfileV2_cons, svc_at_cons. destruct (is_svc svcName svcType s) eqn:E.
    + rewrite (Hno s E), Hk, svc_at_cons, Hno; [done|].
      by rewrite (is_svc_keeps g), is_svc_GetName by auto using GetName_idem.
    + rewrite svc_at_cons, is_svc_GetName, GetName_idem. by destruct (is_svc name' type' s).
Qed.
End services.

(** ** Reading back what was written *)

Section readback.
Context `{!MapOrder gostring} `{!ProfileYaml} `{!ProfileYamlLaws} (machine : gostring).
Implicit Types (c : Controller) (h : home) (p : AppProfileV2) (s : SvcProfile).

Definition stored c h p : Prop :=
  exists d, dbs h !! ctl_dir c = Some d /\ d !! ProfileV2Key (c_ns c) (c_app c) = Some (yaml_profile p).

Definition saved c p h : home :=
  mark_port_forward (ctl_dir c) p
    (mkHome (<[ctl_dir c := <[ProfileV2Key (c_ns c) (c_app c) := yaml_profile p]>
                              (default ∅ (dbs h !! ctl_dir c))]> (dbs h)) (marks h)).

(** The service profile of a controller. *)
Definition ctl_svc c p : SvcProfile := svc_at (SvcProfiles p) (c_name c) (c_type c).

Lemma mark_dbs dir p h : dbs (mark_port_forward dir p h) = dbs h.
Proof. unfold mark_port_forward. by destruct (has_port_forward p). Qed.

Lemma stored_saved c p h : stored c (saved c p h) p.
Proof.
  unfold stored, saved. rewrite mark_dbs. cbn. eexists. rewrite lookup_insert_eq. split; [done|].
  apply lookup_insert_eq.
Qed.

Lemma saved_other c p h dir : dir <> ctl_dir c -> dbs (saved c p h) !! dir = dbs h !! dir.
Proof. intros Hne. unfold saved. rewrite mark_dbs. cbn. by rewrite lookup_insert_ne. Qed.

Lemma load_stored c h p :
  stored c h p -> NewAppProfileV2ForUpdate no_faults (c_ns c) (c_app c) (c_nid c) h = (h, Ok p).
Proof.
  intros (d & Hd & Hk). unfold NewAppProfileV2ForUpdate, bind, OpenLevelDB, ret. cbn.
  unfold ctl_dir in Hd. rewrite Hd, Hk, bool_decide_eq_false_2 by apply yaml_profile_nonempty.
  by rewrite unyaml_yaml_profile.
Qed.

Lemma GetProfileV2_stored c h p :
  stored c h p -> GetProfileV2 no_faults (c_ns c) (c_app c) (c_nid c) h = (h, Ok p).
Proof.
  intros (d & Hd & Hk). unfold GetProfileV2, bind, OpenLevelDB, ret. cbn. unfold ctl_dir in Hd.
  rewrite Hd, Hk, bool_decide_eq_false_2 by apply yaml_profile_nonempty.
  unfold UnmarshalProfileUnStrict. by rewrite unyaml_yaml_profile.
Qed.

Lemma GetProfile_stored c h p : stored c h p -> GetProfile no_faults c h = (h, Ok (ctl_svc c p)).
Proof. intros Hs. unfold GetProfile. by rewrite (bind_Ok _ _ _ _ _ (GetProfileV2_stored c h p Hs)). Qed.

(** What [modify] makes of a profile; a refused one is left. *)
Definition applied (modify : SvcProfile -> res profile_error SvcProfile) s : SvcProfile :=
  match modify s with Ok s' => s' | Err _ => s end.

Definition modified c (modify : SvcProfile -> res profile_error SvcProfile) p : AppProfileV2 :=
  GenerateIdentifierIfNeeded machine
    (mkProfile (Kubeconfig p) (Identifier p)
       (fst (SvcProfileV2 (c_name c) (c_type c)
               (fun s => match modify s with Ok s' => (s', Ok tt) | Err e => (s, Err e) end) (SvcProfiles p)))
       (ap_rest p)).

Lemma UpdateSvcProfile_Ok c h p modify s' :
  stored c h p -> modify (ctl_svc c p) = Ok s' ->
  UpdateSvcProfile no_faults machine c modify h = (saved c (modified c modify p) h, Ok tt).
Proof.
  intros Hs Hm. unfold UpdateSvcProfile. rewrite (bind_Ok _ _ _ _ _ (load_stored c h p Hs)).
  unfold modified. set (k := fun s => _).
  pose proof (SvcProfileV2_snd (c_name c) (c_type c) k (SvcProfiles p)) as E.
  fold (ctl_svc c p) in E. unfold k in E at 2. rewrite Hm in E.
  destruct (SvcProfileV2 (c_name c) (c_type c) k (SvcProfiles p)) as [l r]. cbn in E. subst r. done.
Qed.

Lemma UpdateSvcProfile_Err c h p modify e :
  stored c h p -> modify (ctl_svc c p) = Err e ->
  UpdateSvcProfile no_faults machine c modify h = (h, Err e).
Proof.
  intros Hs Hm. unfold UpdateSvcProfile. rewrite (bind_Ok _ _ _ _ _ (load_stored c h p Hs)).
  set (k := fun s => _).
  pose proof (SvcProfileV2_snd (c_name c) (c_type c) k (SvcProfiles p)) as E.
  fold (ctl_svc c p) in E. unfold k in E at 2. rewrite Hm in E.
  destruct (SvcProfileV2 (c_name c) (c_type c) k (SvcProfiles p)) as [l r]. cbn in E. subst r. done.
Qed.

Lemma GenerateIdentifier_svcs p : SvcProfiles (GenerateIdentifierIfNeeded machine p) = SvcProfiles p.
Proof. unfold GenerateIdentifierIfNeeded. by case_bool_decide. Qed.

Lemma GenerateIdentifier_nonempty p : Identifier (GenerateIdentifierIfNeeded machine p) <> [].
Proof. unfold GenerateIdentifierIfNeeded. by case_bool_decide. Qed.

Lemma ctl_svc_modified c modify p :
  keeps_names (applied modify) -> ctl_svc c (modified c modify p) = applied modify (ctl_svc c p).
Proof.
  intros Hg. unfold ctl_svc, modified. rewrite GenerateIdentifier_svcs. cbn. apply svc_at_update; [done|].
  intros s. unfold applied. by destruct (modify s).
Qed.

Lemma svc_modified_other c modify p name' type' :
  keeps_names (applied modify) -> (name', type') <> (c_name c, c_type c) ->
  svc_at (SvcProfiles (modified c modify p)) name' type' = svc_at (SvcProfiles p) name' type'.
Proof.
  intros Hg Hne. unfold modified. rewrite GenerateIdentifier_svcs. cbn.
  eapply svc_at_other; [exact Hg| |done]. intros s. unfold applied. by destruct (modify s).
Qed.

(** an accepted change of a service profile is read back, in this profile
    only: the other services of the application, its kubeconfig and the other
    applications' databases are as before, and the profile has an identifier. *)
Theorem svc_update_readback c h p modify s' :
  stored c h p -> keeps_names (applied modify) -> modify (ctl_svc c p) = Ok s' ->
  exists h' p',
    UpdateSvcProfile no_faults machine c modify h = (h', Ok tt) /\ stored c h' p' /\
    GetProfile no_faults c h' = (h', Ok s') /\
    (forall name' type', (name', type') <> (c_name c, c_type c) ->
       svc_at (SvcProfiles p') name' type' = svc_at (SvcProfiles p) name' type') /\
    Kubeconfig p' = Kubeconfig p /\ Identifier p' <> [] /\
    (forall dir, dir <> ctl_dir c -> dbs h' !! dir = dbs h !! dir).
Proof.
  intros Hs Hg Hm. exists (saved c (modified c modify p) h), (modified c modify p).
  split_and!.
  - by eapply UpdateSvcProfile_Ok.
  - apply stored_saved.
  - rewrite (GetProfile_stored c _ (modified c modify p)) by apply stored_saved.
    rewrite ctl_svc_modified by done. unfold applied. by rewrite Hm.
  - intros. by apply svc_modified_other.
  - unfold modified, GenerateIdentifierIfNeeded. by case_bool_decide.
  - apply GenerateIdentifier_nonempty.
  - intros. by apply saved_other.
Qed.

(** *** Port-forward records *)

Abbreviation pf_list s := (DevPortForwardList s).

Lemma with_list_keeps (t : SvcProfile -> res profile_error (list DevPortForward)) :
  keeps_names (applied (fun s => match t s with Ok l => Ok (with_list s l) | Err e => Err e end)).
Proof. intros s. unfold applied. by destruct (t s). Qed.

Lemma remove_first_app lp rp l pf :
  existsb (same_ports lp rp) l = false -> same_ports lp rp pf = true ->
  remove_first lp rp (l ++ [pf]) = Some l.
Proof.
  intros Hl Hpf. induction l as [|q l IH]; cbn in *; [by rewrite Hpf|].
  apply orb_false_iff in Hl as [-> Hl]. by rewrite IH.
Qed.

Lemma remove_first_None lp rp l :
  existsb (same_ports lp rp) l = false -> remove_first lp rp l = None.
Proof.
  induction l as [|q l IH]; cbn; [done|]. intros [-> Hl]%orb_false_iff. by rewrite IH.
Qed.

Lemma with_list_same s : with_list s (pf_list s) = s.
Proof. by destruct s. Qed.

Lemma find_app_last lp rp l pf :
  existsb (same_ports lp rp) l = false -> same_ports lp rp pf = true ->
  List.find (same_ports lp rp) (l ++ [pf]) = Some pf.
Proof.
  intros Hl Hpf. induction l as [|q l IH]; cbn in *; [by rewrite Hpf|].
  apply orb_false_iff in Hl as [-> Hl]. by apply IH.
Qed.

(** Adding a record. *)
Lemma add_stored c h p pf :
  stored c h p ->
  exists h1 p1, AddPortForwardToDB no_faults machine c pf h = (h1, Ok tt) /\ stored c h1 p1 /\
    ctl_svc c p1 = with_list (ctl_svc c p) (pf_list (ctl_svc c p) ++ [pf]).
Proof.
  intros Hs. unfold AddPortForwardToDB. set (modify := fun s => _).
  exists (saved c (modified c modify p) h), (modified c modify p). split_and!.
  - eapply UpdateSvcProfile_Ok; done.
  - apply stored_saved.
  - rewrite ctl_svc_modified; [done|].
    apply (with_list_keeps (fun s => Ok (pf_list s ++ [pf]))).
Qed.

(** Deleting one. *)
Lemma delete_stored c h p lp rp l :
  stored c h p -> remove_first lp rp (pf_list (ctl_svc c p)) = Some l ->
  exists h1 p1, DeletePortForwardFromDB no_faults machine c lp rp h = (h1, Ok tt) /\ stored c h1 p1 /\
    ctl_svc c p1 = with_list (ctl_svc c p) l.
Proof.
  intros Hs Hr. unfold DeletePortForwardFromDB. set (modify := fun s => _).
  assert (E : modify (ctl_svc c p) = Ok (with_list (ctl_svc c p) l)) by (unfold modify; by rewrite Hr).
  exists (saved c (modified c modify p) h), (modified c modify p). split_and!.
  - by eapply UpdateSvcProfile_Ok.
  - apply stored_saved.
  - rewrite ctl_svc_modified; [unfold applied; by rewrite E|].
    intros s. unfold applied, modify. by destruct (remove_first lp rp (pf_list s)).
Qed.

(** recording a port-forward makes it readable; deleting it gives the service
    profile it was added to back, and deleting it once more is refused without a
    change. *)
Theorem port_forward_record c h p pf :
  stored c h p ->
  existsb (same_ports (LocalPort pf) (RemotePort pf)) (pf_list (ctl_svc c p)) = false ->
  exists h1 h2,
    AddPortForwardToDB no_faults machine c pf h = (h1, Ok tt) /\
    GetPortForward no_faults c (LocalPort pf) (RemotePort pf) h1 = (h1, Ok pf) /\
    DeletePortForwardFromDB no_faults machine c (LocalPort pf) (RemotePort pf) h1 = (h2, Ok tt) /\
    GetProfile no_faults c h2 = (h2, Ok (ctl_svc c p)) /\
    DeletePortForwardFromDB no_faults machine c (LocalPort pf) (RemotePort pf) h2 = (h2, Err PortForwardNotFound).
Proof.
  intros Hs Hno.
  assert (Hpf : same_ports (LocalPort pf) (RemotePort pf) pf = true)
    by (unfold same_ports; by rewrite !Z.eqb_refl).
  destruct (add_stored c h p pf Hs) as (h1 & p1 & E1 & Hs1 & L1).
  destruct (delete_stored c h1 p1 (LocalPort pf) (RemotePort pf) (pf_list (ctl_svc c p)) Hs1)
    as (h2 & p2 & E2 & Hs2 & L2); [rewrite L1; by apply remove_first_app|].
  assert (L2' : ctl_svc c p2 = ctl_svc c p) by (rewrite L2, L1; by destruct (ctl_svc c p)).
  exists h1, h2. split_and!; [done| |done| |].
  - unfold GetPortForward. rewrite (bind_Ok _ _ _ _ _ (GetProfile_stored c h1 p1 Hs1)), L1.
    cbn [DevPortForwardList with_list]. by rewrite find_app_last.
  - by rewrite (GetProfile_stored c h2 p2 Hs2), L2'.
  - eapply UpdateSvcProfile_Err; [exact Hs2|]. rewrite L2'. cbn beta. by rewrite remove_first_None.
Qed.
End readback.

(** ** The marker files *)

Section marker.
Context `{!MapOrder gostring} `{!ProfileYaml} `{!ProfileYamlLaws}.
Implicit Types (h : home) (p : AppProfileV2).

(** Each database is in the directory [db] of an application, and every profile
    with port-forwards that can be read has its application marked. *)
Record marked h : Prop := {
  marked_depth : forall dir, is_Some (dbs h !! dir) -> 3 <= length dir;
  marked_file : forall dir d k b p,
    dbs h !! dir = Some d -> d !! k = Some b -> unyaml_profile b = Some p -> has_port_forward p = true ->
    Dir dir ++ [DefaultNhctlPortForward] ∈ marks h
}.

Definition keeps_marked {A : Type} (m : io A) : Prop := forall h, marked h -> marked (fst (m h)).

Lemma keeps_ret {A : Type} (a : A) : keeps_marked (ret a).
Proof. by intros h. Qed.

Lemma keeps_fail {A : Type} e : keeps_marked (A := A) (fail e).
Proof. by intros h. Qed.

Lemma keeps_bind {A B : Type} (m : io A) (k : A -> io B) :
  keeps_marked m -> (forall a, keeps_marked (k a)) -> keeps_marked (bind m k).
Proof.
  intros Hm Hk h Hh. unfold bind. specialize (Hm h Hh). destruct (m h) as [h1 [a|e]]; [|done].
  by apply Hk.
Qed.

Lemma GetAppDbDir_depth ns app nid : 3 <= length (GetAppDbDir ns app nid).
Proof. unfold GetAppDbDir. case_bool_decide; cbn; lia. Qed.

Lemma keeps_open f dir : keeps_marked (OpenLevelDB f dir).
Proof. intros h Hh. unfold OpenLevelDB. destruct (open_fails f), (dbs h !! dir); done. Qed.

(** Writing a document, when its application is marked if it must be. *)
Lemma marked_put dir k p ms h :
  3 <= length dir -> marked h -> marks h ⊆ ms ->
  (has_port_forward p = true -> Dir dir ++ [DefaultNhctlPortForward] ∈ ms) ->
  marked (mkHome (<[dir := <[k := yaml_profile p]> (default ∅ (dbs h !! dir))]> (dbs h)) ms).
Proof.
  intros Hlen [Hd Hf] Hsub Hmark. split; cbn [dbs marks].
  - intros dir'. destruct (decide (dir' = dir)) as [->|Hne]; [by intros _|]. rewrite lookup_insert_ne by done.
    apply Hd.
  - intros dir' d' k' b' p'. destruct (decide (dir' = dir)) as [->|Hne].
    + rewrite lookup_insert_eq. intros [= <-]. destruct (decide (k' = k)) as [->|Hk].
      * rewrite lookup_insert_eq. intros [= <-]. rewrite unyaml_yaml_profile. intros [= <-]. exact Hmark.
      * rewrite lookup_insert_ne by done. destruct (dbs h !! dir) as [d|] eqn:E; [|done].
        intros Hk' Hb Hp. eapply Hsub, Hf; eauto.
    + rewrite lookup_insert_ne by done. intros H1 H2 H3 H4. eapply Hsub, Hf; eauto.
Qed.

Lemma keeps_put f ns app nid k p :
  has_port_forward p = false -> keeps_marked (db_put f (GetAppDbDir ns app nid) k (yaml_profile p)).
Proof.
  intros Hp h Hh. unfold db_put. destruct (put_fails f); [done|].
  apply marked_put; [apply GetAppDbDir_depth|done|done|by rewrite Hp].
Qed.

Lemma keeps_Save f ns app nid p : keeps_marked (Save f ns app nid p).
Proof.
  intros h Hh. unfold Save, db_put. destruct (put_fails f); cbn [fst]; unfold mark_port_forward.
  - destruct (has_port_forward p) eqn:E; [|done]. destruct Hh as [Hd Hf].
    split; [exact Hd|]. cbn. intros. apply elem_of_union_r. eauto.
  - destruct (has_port_forward p) eqn:E; cbn [dbs marks].
    + apply marked_put; [apply GetAppDbDir_depth|done|set_solver|]. intros _. set_solver.
    + apply marked_put; [apply GetAppDbDir_depth|done|done|by rewrite E].
Qed.

Create HintDb marker.
#[local] Hint Resolve keeps_ret keeps_fail keeps_open keeps_Save keeps_put keeps_bind : marker.

Lemma keeps_load f ns name nid : keeps_marked (NewAppProfileV2ForUpdate f ns name nid).
Proof.
  apply keeps_bind; [auto with marker|intros d]. apply keeps_bind.
  - repeat case_match; auto with marker.
  - intros b. repeat case_match; auto with marker.
Qed.

Lemma keeps_GetProfileV2 f ns name nid : keeps_marked (GetProfileV2 f ns name nid).
Proof. apply keeps_bind; [auto with marker|intros d]. repeat case_match; auto with marker. Qed.

Lemma keeps_UpdateSvcProfile f machine c modify : keeps_marked (UpdateSvcProfile f machine c modify).
Proof. apply keeps_bind; [apply keeps_load|intros p]. repeat case_match; auto with marker. Qed.

Lemma keeps_UpdateProfile f ns name nid modify : keeps_marked (UpdateProfile f ns name nid modify).
Proof. apply keeps_bind; [apply keeps_load|auto with marker]. Qed.

Lemma keeps_create f e ns name nid : keeps_marked (createLevelDbIfNotExists f e ns name nid).
Proof.
  intros h Hh. unfold createLevelDbIfNotExists. pose proof (keeps_open f (GetAppDbDir ns name nid) h Hh) as Ho.
  destruct (OpenLevelDB f _ h) as [h1 [d|er]]; [done|]. cbn in Ho. destruct er; try done.
  apply keeps_put; [|done]. unfold GenerateIdentifierIfNeeded. by case_bool_decide.
Qed.

(** Moving a directory of two names. *)
Lemma is_prefix_spec (d q : path) : is_prefix d q = true <-> take (length d) q = d.
Proof. unfold is_prefix. apply bool_decide_eq_true. Qed.

Lemma move_path_mark (old new q : path) :
  length old = 2 -> 3 <= length q ->
  move_path old new (Dir q ++ [DefaultNhctlPortForward]) = Dir (move_path old new q) ++ [DefaultNhctlPortForward].
Proof.
  intros Hold Hq. unfold move_path.
  assert (E : is_prefix old (Dir q ++ [DefaultNhctlPortForward]) = is_prefix old q).
  { unfold is_prefix, Dir. rewrite take_app_le by (rewrite length_take; lia).
    rewrite take_take, Nat.min_l by lia. done. }
  rewrite E. destruct (is_prefix old q); [|done]. unfold Dir.
  rewrite drop_app_le by (rewrite length_take; lia). rewrite app_assoc. f_equal.
  rewrite length_app, length_drop, take_app_ge by lia. f_equal.
  rewrite skipn_firstn_comm. f_equal. lia.
Qed.

Lemma keeps_Migrate e app ns nid : keeps_marked (MigrateNsDirToSupportNidIfNeeded e app ns nid).
Proof.
  intros h Hh. unfold MigrateNsDirToSupportNidIfNeeded. repeat case_match; [done|done|done|]. cbn [fst].
  unfold move_dir. set (mv := move_path _ _). destruct Hh as [Hd Hf].
  assert (Hin : forall dir d, (list_to_map ((fun '(p, d) => (mv p, d)) <$> map_to_list (dbs h)) : gmap path levelDB)
                              !! dir = Some d -> exists dir0, dbs h !! dir0 = Some d /\ dir = mv dir0).
  { intros dir d [[dir0 d0] [[= -> ->] Hin%elem_of_map_to_list]]%elem_of_list_to_map_2%list_elem_of_fmap.
    eauto. }
  split; cbn [dbs marks].
  - intros dir [d (dir0 & Hdir0 & ->)%Hin]. pose proof (Hd dir0 ltac:(eauto)) as Hl.
    unfold mv, move_path. case_match; [|done]. rewrite length_app, length_drop. cbn. lia.
  - intros dir d k b p (dir0 & Hdir0 & ->)%Hin Hk Hb Hp.
    unfold mv. rewrite <- move_path_mark by (eauto || done). apply elem_of_map_2. eauto.
Qed.

#[local] Hint Resolve keeps_load keeps_GetProfileV2 keeps_UpdateProfile keeps_create keeps_Migrate : marker.

Lemma keeps_open_application f e name ns nid kubeconfig meta initClient :
  keeps_marked (open_application f e name ns nid kubeconfig meta initClient).
Proof.
  do 2 (apply keeps_bind; [auto with marker|intros _]).
  apply keeps_bind; [auto with marker|intros p]. case_match; [auto with marker|].
  apply keeps_bind; [case_match; auto with marker|intros p'].
  apply keeps_bind; [case_match; auto with marker|intros _]. case_match; auto with marker.
Qed.

Lemma keeps_newApplication f e name ns kubeconfig initClient :
  keeps_marked (newApplication f e name ns kubeconfig initClient).
Proof. unfold newApplication. repeat case_match; auto using keeps_open_application with marker. Qed.

(** What nhctl and its daemon do to the home, each with its faults. *)
Inductive action :=
  | ActUpdate (f : faults) (machine : gostring) (c : Controller) (modify : SvcProfile -> res profile_error SvcProfile)
  | ActRead (f : faults) (ns app nid : gostring)
  | ActOpen (f : faults) (e : app_env) (name ns kubeconfig : gostring) (initClient : bool).

Definition act (h : home) (a : action) : home :=
  match a with
  | ActUpdate f machine c modify => fst (UpdateSvcProfile f machine c modify h)
  | ActRead f ns app nid => fst (GetProfileV2 f ns app nid h)
  | ActOpen f e name ns kubeconfig initClient => fst (newApplication f e name ns kubeconfig initClient h)
  end.

Lemma act_marked h a : marked h -> marked (act h a).
Proof.
  destruct a; cbn; [apply keeps_UpdateSvcProfile|apply keeps_GetProfileV2|apply keeps_newApplication].
Qed.

Lemma acts_marked l h : marked h -> marked (foldl act h l).
Proof. revert h. induction l as [|a l IH]; [done|]. intros h Hh. by apply IH, act_marked. Qed.

Lemma info_iff h b ns nid app :
  mkAppInfo ns nid app ∈ GetNsAndApplicationInfo b h <->
  is_Some (dbs h !! (GetAppDirUnderNs app ns nid ++ [DefaultApplicationDbDir])) /\
  (b = true -> GetAppDirUnderNs app ns nid ++ [DefaultNhctlPortForward] ∈ marks h).
Proof.
  unfold GetNsAndApplicationInfo. rewrite list_elem_of_In, filter_In, <- list_elem_of_In, list_elem_of_omap.
  unfold dir_IsPortForwarding. cbn [ai_Name ai_Namespace ai_Nid].
  rewrite orb_true_iff, negb_true_iff, bool_decide_eq_true. split.
  - intros [(dir & Hin & Ha) Hb]. split; [|destruct b; naive_solver].
    rewrite merge_sort_Permutation, elem_of_elements, elem_of_dom in Hin.
    destruct dir as [|x1 [|x2 [|x3 [|x4 [|]]]]]; try done. cbn in Ha. case_bool_decide; [|done].
    by simplify_eq.
  - intros [Hd Hb]. split; [|destruct b; naive_solver].
    exists (GetAppDirUnderNs app ns nid ++ [DefaultApplicationDbDir]). split.
    + by rewrite merge_sort_Permutation, elem_of_elements, elem_of_dom.
    + cbn. by rewrite bool_decide_eq_true_2.
Qed.

(** whatever nhctl does to the home, failures of the database included, every
    application whose profile has port-forwards is among those the daemon
    recovers when it starts. *)
Theorem recovery_finds_all l h c p :
  marked h -> stored c (foldl act h l) p -> c_nid c <> [] -> has_port_forward p = true ->
  mkAppInfo (c_ns c) (c_nid c) (c_app c) ∈ GetNsAndApplicationInfo true (foldl act h l).
Proof.
  intros Hm (d & Hd & Hk) Hnid Hp. apply (acts_marked l) in Hm.
  unfold ctl_dir, GetAppDbDir in Hd. rewrite bool_decide_eq_true_2 in Hd by done.
  rewrite info_iff. split; [by eauto|]. intros _.
  exact (marked_file _ Hm _ _ _ _ _ Hd Hk (unyaml_yaml_profile p) Hp).
Qed.
End marker.

(** ** Opening an application *)

Section opening.
Context `{!MapOrder gostring} `{!ProfileYaml} `{!ProfileYamlLaws}.
Implicit Types (c : Controller) (h : home) (p : AppProfileV2) (e : app_env).

(** The cluster knows the application under a namespace id and the machine has
    what it takes. *)
Definition can_open e (nid : gostring) (meta : MetaAnswer) : Prop :=
  stat_ok e = true /\ app_meta e = Some meta /\ ma_unknown meta = false /\ ma_not_installed meta = false /\
  ma_nid meta = Some nid /\ ma_migrated meta || ma_update meta = true /\ new_client_ok e = true.

(** The profile there is, or no directory of the application yet. *)
Definition profile_or_none c h p : Prop :=
  stored c h p \/
  p = empty_profile /\ dir_exists (GetAppDirUnderNs (c_app c) (c_ns c) (c_nid c)) h = false /\
  dir_exists (GetAppDirUnderNsWithoutNid (c_app c) (c_ns c)) h = false.

Lemma dir_exists_db dir rest h : is_Some (dbs h !! (dir ++ rest)) -> dir_exists dir h = true.
Proof.
  intros Hs. unfold dir_exists. apply orb_true_iff. left. apply existsb_exists. exists (dir ++ rest). split.
  - apply list_elem_of_In. by rewrite elem_of_elements, elem_of_dom.
  - apply is_prefix_spec. by rewrite take_app_length.
Qed.

Lemma UpdateProfile_stored c h p g :
  stored c h p -> UpdateProfile no_faults (c_ns c) (c_app c) (c_nid c) g h = (saved c (g p) h, Ok tt).
Proof. intros Hs. unfold UpdateProfile. by rewrite (bind_Ok _ _ _ _ _ (load_stored c h p Hs)). Qed.

Lemma ctl_dir_nid c :
  c_nid c <> [] -> ctl_dir c = GetAppDirUnderNs (c_app c) (c_ns c) (c_nid c) ++ [DefaultApplicationDbDir].
Proof. intros Hn. unfold ctl_dir, GetAppDbDir. by rewrite bool_decide_eq_true_2. Qed.

(** The directory is there afterwards, with the services it had. *)
Lemma open_directory c h p e :
  c_nid c <> [] -> profile_or_none c h p ->
  exists h1 p1,
    (_ <-# MigrateNsDirToSupportNidIfNeeded e (c_app c) (c_ns c) (c_nid c);
     createLevelDbIfNotExists no_faults e (c_ns c) (c_app c) (c_nid c)) h = (h1, Ok tt) /\
    stored c h1 p1 /\ SvcProfiles p1 = SvcProfiles p.
Proof.
  intros Hn [Hs|(-> & Hnew & Hold)].
  - exists h, p. split_and!; [|done|done]. destruct Hs as (d & Hd & Hk).
    unfold bind, MigrateNsDirToSupportNidIfNeeded. rewrite (dir_exists_db _ [DefaultApplicationDbDir]).
    2: { rewrite <- ctl_dir_nid by done. by eauto. }
    unfold createLevelDbIfNotExists, OpenLevelDB. cbn. unfold ctl_dir in Hd. by rewrite Hd.
  - set (p1 := GenerateIdentifierIfNeeded (machine_id e) empty_profile).
    exists (mkHome (<[ctl_dir c := {[ProfileV2Key (c_ns c) (c_app c) := yaml_profile p1]}]> (dbs h)) (marks h)), p1.
    assert (Hno : dbs h !! ctl_dir c = None).
    { destruct (dbs h !! ctl_dir c) as [d|] eqn:E; [|done]. exfalso.
      rewrite ctl_dir_nid in E by done. rewrite (dir_exists_db _ [DefaultApplicationDbDir]) in Hnew by eauto. done. }
    split_and!.
    + unfold bind, MigrateNsDirToSupportNidIfNeeded. rewrite Hnew, Hold. cbn [negb].
      unfold createLevelDbIfNotExists, OpenLevelDB, db_put. cbn. unfold ctl_dir in Hno. rewrite Hno. cbn. by rewrite Hno.
    + eexists. cbn. rewrite lookup_insert_eq. split; [done|]. by rewrite lookup_singleton_eq.
    + unfold p1. by rewrite GenerateIdentifier_svcs.
Qed.

Lemma bind_assoc {A B D : Type} (m : io A) (k : A -> io B) (k' : B -> io D) h :
  bind m (fun a => bind (k a) k') h = bind (bind m k) k' h.
Proof. unfold bind. by destruct (m h) as [h1 [a|e]]. Qed.

(** opening an application, with or without a profile on disk, returns the
    namespace id of its meta and an identifier; the profile stored then has that
    identifier, the kubeconfig given and the services there were. *)
Theorem application_opened c h p e meta kubeconfig :
  can_open e (c_nid c) meta -> c_nid c <> [] -> kubeconfig <> [] -> profile_or_none c h p ->
  exists h' p',
    newApplication no_faults e (c_app c) (c_ns c) kubeconfig true h =
      (h', Ok (mkApp (c_nid c) (Identifier p'))) /\
    stored c h' p' /\ Identifier p' <> [] /\ Kubeconfig p' = kubeconfig /\ SvcProfiles p' = SvcProfiles p.
Proof.
  intros (Hstat & Hmeta & Hu & Hi & Hnid & Hup & Hcl) Hn Hk Hp.
  unfold newApplication. rewrite Hstat, Hmeta, Hu, Hi, Hnid. cbn [negb].
  destruct (open_directory c h p e Hn Hp) as (h1 & p1 & E1 & Hs1 & L1).
  unfold open_application. rewrite bind_assoc, (bind_Ok _ _ _ _ _ E1).
  rewrite (bind_Ok _ _ _ _ _ (GetProfileV2_stored c h1 p1 Hs1)).
  assert (Hmig : negb (ma_migrated meta) && bool_decide (SvcProfiles p1 <> []) && negb (ma_update meta) = false).
  { destruct (ma_migrated meta); [done|]. cbn [orb] in Hup. rewrite Hup. apply andb_false_r. }
  rewrite Hmig. clear Hmig.
  set (p2 := GenerateIdentifierIfNeeded (machine_id e) p1).
  assert (exists h2, (if bool_decide (Identifier p1 = []) then
            _ <-# UpdateProfile no_faults (c_ns c) (c_app c) (c_nid c) (GenerateIdentifierIfNeeded (machine_id e));
            GetProfileV2 no_faults (c_ns c) (c_app c) (c_nid c) else ret p1) h1 = (h2, Ok p2) /\ stored c h2 p2)
    as (h2 & E2 & Hs2).
  { unfold p2. case_bool_decide as Hid.
    - exists (saved c (GenerateIdentifierIfNeeded (machine_id e) p1) h1). split; [|apply stored_saved].
      rewrite (bind_Ok _ _ _ _ _ (UpdateProfile_stored c h1 p1 (GenerateIdentifierIfNeeded (machine_id e)) Hs1)).
      by apply GetProfileV2_stored, stored_saved.
    - exists h1. unfold GenerateIdentifierIfNeeded. rewrite bool_decide_eq_false_2 by done. by split. }
  rewrite (bind_Ok _ _ _ _ _ E2). rewrite bool_decide_eq_true_2 by done. rewrite Hcl. cbn [andb negb].
  assert (L2 : SvcProfiles p2 = SvcProfiles p) by (unfold p2; by rewrite GenerateIdentifier_svcs).
  assert (I2 : Identifier p2 <> []) by apply GenerateIdentifier_nonempty.
  clear E2. case_bool_decide as Hkc.
  - exists (saved c (set_kubeconfig kubeconfig p2) h2), (set_kubeconfig kubeconfig p2).
    rewrite (bind_Ok _ _ _ _ _ (UpdateProfile_stored c h2 p2 (set_kubeconfig kubeconfig) Hs2)).
    split_and!; [done|apply stored_saved|done|done|done].
  - unfold bind, ret. exists h2, p2. split_and!; [done|done|done| |done].
    destruct (decide (kubeconfig = Kubeconfig p2)); [done|contradiction].
Qed.
End opening.

(** ** Witnesses *)

Section demo.

#[local] Instance pf_countable : Countable DevPortForward.
Proof.
  refine (inj_countable'
    (fun pf => (LocalPort pf, RemotePort pf, Role pf, Status pf, Reason pf, PodName pf, Labels pf,
                (OwnerKind pf, OwnerApiVersion pf, OwnerName pf, Updated pf, Sudo pf, DaemonServerPid pf,
                 ServiceType pf)))
    (fun '(a, b, c, d, e, g, h, (i, j, k, l, m, n, o)) => mkPf a b c d e g h i j k l m n o) _).
  by intros [].
Defined.

#[local] Instance svc_countable : Countable SvcProfile.
Proof.
  refine (inj_countable'
    (fun s => (sp_ActualName s, sp_Name s, sp_Type s, PortForwarded s, Syncing s, RemoteSyncthingPort s,
               (RemoteSyncthingGUIPort s, LocalSyncthingPort s, LocalSyncthingGUIPort s,
                LocalAbsoluteSyncDir s, DevPortForwardList s, sp_rest s)))
    (fun '(a, b, c, d, e, g, (h, i, j, k, l, m)) => mkSvc a b c d e g h i j k l m) _).
  by intros [].
Defined.

#[local] Instance profile_countable : Countable AppProfileV2.
Proof.
  refine (inj_countable' (fun p => (Kubeconfig p, Identifier p, SvcProfiles p, ap_rest p))
            (fun '(a, b, c, d) => mkProfile a b c d) _).
  by intros [].
Defined.

#[export] Instance demo_profile_yaml : ProfileYaml := {|
  yaml_profile := to_text; unyaml_profile := of_text
|}.

#[export] Instance demo_profile_laws : ProfileYamlLaws.
Proof. split; [exact of_to_text|exact to_text_nonempty]. Qed.

Definition web : Controller := mkCtl (go "ns") (go "shop") (go "web") (go "deployment") (go "id").

Definition web_forward : DevPortForward :=
  mkPf 8080 80 [] (go "New") (go "Add") (go "web-1") ∅ [] [] [] [] false 7 (go "deployment").

Definition shop_profile : AppProfileV2 := mkProfile (go "/kube") (go "ime") [] [].
Definition shop_home : home := saved web shop_profile (mkHome ∅ ∅).

Lemma svc_update_readback_witness :
  exists h' p', stored web h' p' /\ GetProfile no_faults web h' =
    (h', Ok (with_list (new_svc (go "deployment") (go "web")) [web_forward])).
Proof.
  destruct (svc_update_readback (go "me") web shop_home shop_profile
              (fun s => Ok (with_list s [web_forward]))
              (with_list (new_svc (go "deployment") (go "web")) [web_forward]))
    as (h' & p' & _ & H1 & H2 & _).
  - apply stored_saved.
  - intros s. split_and!; reflexivity.
  - reflexivity.
  - exists h', p'. split; [exact H1|exact H2].
Defined.

Lemma port_forward_record_witness :
  exists h1 h2, AddPortForwardToDB no_faults (go "me") web web_forward shop_home = (h1, Ok tt) /\
    DeletePortForwardFromDB no_faults (go "me") web 8080 80 h1 = (h2, Ok tt).
Proof.
  destruct (port_forward_record (go "me") web shop_home shop_profile web_forward)
    as (h1 & h2 & H1 & _ & H2 & _).
  - apply stored_saved.
  - reflexivity.
  - exists h1, h2. split; [exact H1|exact H2].
Defined.

Definition forwarded_profile : AppProfileV2 :=
  mkProfile [] (go "i") [with_list (new_svc (go "deployment") (go "web")) [web_forward]] [].

Lemma empty_home_marked : marked (mkHome ∅ ∅).
Proof. split; cbn; intros *; [intros [? Hl]|intros Hl]; by rewrite lookup_empty in Hl. Qed.

Lemma saved_marked c p h : marked h -> marked (saved c p h).
Proof. intros Hh. exact (keeps_Save no_faults (c_ns c) (c_app c) (c_nid c) p h Hh). Qed.

Lemma recovery_finds_all_witness :
  mkAppInfo (go "ns") (go "id") (go "shop") ∈
    GetNsAndApplicationInfo true (foldl act (saved web forwarded_profile (mkHome ∅ ∅)) []).
Proof.
  apply (recovery_finds_all [] (saved web forwarded_profile (mkHome ∅ ∅)) web forwarded_profile).
  - apply saved_marked, empty_home_marked.
  - apply stored_saved.
  - discriminate.
  - reflexivity.
Defined.

Lemma application_opened_witness :
  exists h' p', newApplication no_faults
      (mkAppEnv (go "me") true (Some (mkAnswer false false (Some (go "id")) true true)) false true true)
      (go "shop") (go "ns") (go "/new") true (mkHome ∅ ∅) = (h', Ok (mkApp (go "id") (Identifier p'))) /\
    Kubeconfig p' = go "/new".
Proof.
  destruct (application_opened web (mkHome ∅ ∅) empty_profile
      (mkAppEnv (go "me") true (Some (mkAnswer false false (Some (go "id")) true true)) false true true)
      (mkAnswer false false (Some (go "id")) true true) (go "/new"))
    as (h' & p' & H1 & _ & _ & H2 & _).
  - split_and!; reflexivity.
  - discriminate.
  - discriminate.
  - right. split_and!; reflexivity.
  - exists h', p'. split; [exact H1|exact H2].
Defined.
End demo.
