(* ===== verification/PortForward.v ===== *)
(** * The port-forward manager ([daemon_server/portforward_manager.go],
      [controller/port_forward.go], [utils.GetPortForwardForString])

    The daemon forwards local ports to pods.  Each port-forward is a goroutine
    that connects, reconnects after failures and, when it is cancelled, deletes
    its record from the application's profile ([Profile]).  A table of the
    running ones is keyed by the two ports; a command starts or stops one, and
    at start the daemon recovers those on record.

    The state is the table, the goroutines and the home.  The daemon runs each
    command in a goroutine of its own and the table has no lock: a start is three
    steps - it looks for a running port-forward and stops it, prepares and records the
    new one, and puts it into the table - between which anything else can happen.  A
    stop is one step, as is each round of a goroutine; what the cluster, the network
    and the disk answer is an argument of the step.  That Go may abort the daemon when
    two goroutines write the table at once is not modelled. *)

From S2P Require Import Prelude GoStrings FilePath DevDir AppMeta Search Profile.
#[local] Open Scope go_scope.

(** ** Ports as text *)

Inductive port_error :=
  | WrongFormat
  | OutOfRange
  | NoPort.            (* no local port is available *)

(** [utils.GetPortForwardForString]; [available] is a free local port. *)
Definition GetPortForwardForString (available : option Z) (portStr : gostring) : res port_error (Z * Z) :=
  match Split portStr (go ":") with
  | [_] =>
      match Atoi portStr with
      | None => Err WrongFormat
      | Some port =>
          if ((65535 <? port) || (port <? 0))%Z then Err OutOfRange else Ok (port, port)
      end
  | sLocalPort :: s1 :: _ =>
      localPort <-! (if bool_decide (sLocalPort = []) then
                       match available with Some p => Ok p | None => Err NoPort end
                     else match Atoi sLocalPort with Some p => Ok p | None => Err WrongFormat end);
      remotePort <-! match Atoi s1 with Some p => Ok p | None => Err WrongFormat end;
      if ((65535 <? localPort) || (localPort <? 0))%Z then Err OutOfRange
      else if ((65535 <? remotePort) || (localPort <? 0))%Z then Err OutOfRange
      else Ok (localPort, remotePort)
  | [] => Err WrongFormat
  end.

(** ** Commands *)

Record PortForwardCommand := mkCmd {
  cmd_NameSpace : gostring;
  cmd_AppName : gostring;
  cmd_Service : gostring;
  cmd_ServiceType : gostring;
  cmd_PodName : gostring;
  cmd_LocalPort : Z;
  cmd_RemotePort : Z;
  cmd_Role : gostring;
  cmd_Nid : gostring;
  cmd_Labels : gmap gostring gostring;
  cmd_OwnerKind : gostring;
  cmd_OwnerApiVersion : gostring;
  cmd_OwnerName : gostring
}.

Definition set_pod (cmd : PortForwardCommand) (pod : gostring) : PortForwardCommand :=
  mkCmd (cmd_NameSpace cmd) (cmd_AppName cmd) (cmd_Service cmd) (cmd_ServiceType cmd) pod (cmd_LocalPort cmd)
    (cmd_RemotePort cmd) (cmd_Role cmd) (cmd_Nid cmd) (cmd_Labels cmd) (cmd_OwnerKind cmd)
    (cmd_OwnerApiVersion cmd) (cmd_OwnerName cmd).

Definition pf_key (localPort remotePort : Z) : gostring := Itoa localPort ++ go ":" ++ Itoa remotePort.

Definition cmd_key (cmd : PortForwardCommand) : gostring := pf_key (cmd_LocalPort cmd) (cmd_RemotePort cmd).

(** The command the daemon client sends to stop a port-forward. *)
Definition stop_command (c : Controller) (podName : gostring) (localPort remotePort : Z) : PortForwardCommand :=
  mkCmd (c_ns c) (c_app c) (c_name c) (c_type c) podName localPort remotePort [] (c_nid c) ∅ [] [] [].

(** [EndDevPortForward]: the request, if any, to the daemon that runs as root or
    not. *)
Definition EndDevPortForward `{!MapOrder gostring} `{!ProfileYaml} (f : faults) (c : Controller)
    (localPort remotePort : Z) : io (option (bool * PortForwardCommand)) :=
  s <-# GetProfile f c;
  ret ((fun pf => (Sudo pf, stop_command c [] localPort remotePort)) <$>
         List.find (same_ports localPort remotePort) (DevPortForwardList s)).

(** The two ports [StopPortForwardByPort] reads; a text without a colon panics. *)
Definition stop_ports (port : gostring) : outcome (res port_error (Z * Z)) :=
  match Split port (go ":") with
  | [] => Panic
  | p0 :: ports =>
      match Atoi p0 with
      | None => Done (Err WrongFormat)
      | Some localPort =>
          match ports with
          | [] => Panic
          | p1 :: _ =>
              match Atoi p1 with
              | None => Done (Err WrongFormat)
              | Some remotePort => Done (Ok (localPort, remotePort))
              end
          end
      end
  end.

(** ** Pods and their owners *)

(** What the API server answers: the pod of a name, the pods with labels, and
    the object of a resource type and name. *)
Record cluster := mkCluster {
  get_pod : gostring -> option Obj;
  list_pods : gmap gostring gostring -> list Obj;
  get_unstructured : gostring -> gostring -> option Obj
}.

Section pods.
Context `{!Client}.

(** [None] when the fuel runs out. *)
Fixpoint GetTopController (fuel : nat) (cl : cluster) (refs : list OwnerReference)
    : option (option OwnerReference) :=
  match fuel with
  | 0 => None
  | S fuel =>
      match GetControllerOfNoCopy refs with
      | None => Some None
      | Some controller =>
          match ParseGroupVersion (or_APIVersion controller) with
          | None => Some (Some controller)
          | Some (group, version) =>
              match ResourceForGVK (mkGVK group version (or_Kind controller)) with
              | Some (gvr, true) =>
                  match get_unstructured cl (gvr_Resource gvr) (or_Name controller) with
                  | None => Some (Some controller)
                  | Some u =>
                      match GetTopController fuel cl (obj_Owners u) with
                      | None => None
                      | Some None => Some (Some controller)
                      | Some (Some ownerRef) => Some (Some ownerRef)
                      end
                  end
              | _ => Some (Some controller)
              end
          end
      end
  end.

Definition is_owner (cmd : PortForwardCommand) (controller : OwnerReference) : bool :=
  bool_decide (or_Name controller = cmd_OwnerName cmd) &&
  bool_decide (or_APIVersion controller = cmd_OwnerApiVersion cmd) &&
  bool_decide (or_Kind controller = cmd_OwnerKind cmd).

Fixpoint first_pod (fuel : nat) (cl : cluster) (cmd : PortForwardCommand) (pods : list Obj)
    : option (option Obj) :=
  match pods with
  | [] => Some None
  | pod :: pods =>
      if bool_decide (cmd_OwnerName cmd <> []) then
        match GetTopController fuel cl (obj_Owners pod) with
        | None => None
        | Some None => first_pod fuel cl cmd pods
        | Some (Some controller) =>
            if is_owner cmd controller then Some (Some pod) else first_pod fuel cl cmd pods
        end
      else Some (Some pod)
  end.

(** [Some None] is the error of a pod that is not found. *)
Definition howToGetCurrentPod (fuel : nat) (cl : cluster) (cmd : PortForwardCommand) : option (option Obj) :=
  match get_pod cl (cmd_PodName cmd) with
  | Some pod => Some (Some pod)
  | None =>
      if bool_decide (cmd_Labels cmd = ∅) then Some None
      else first_pod fuel cl cmd (list_pods cl (cmd_Labels cmd))
  end.
End pods.

(** ** The manager *)

(** A goroutine: the workload, the command it started with and the pod it now
    forwards to, whether its context is cancelled, and its back-off in seconds. *)
Record routine := mkRoutine {
  r_ctl : Controller;
  r_cmd : PortForwardCommand;
  r_cancelled : bool;
  sleepBackOff : Z
}.

Definition r_key (r : routine) : gostring := cmd_key (r_cmd r).

(** [PortForwardProfile]: the goroutine whose context [Cancel] cancels, the
    buffer of [StopCh] and the command the other fields come from. *)
Record PortForwardProfile := mkPfProfile {
  pp_routine : nat;
  StopCh : option (option profile_error);
  pp_cmd : PortForwardCommand
}.

Record PortForwardManager := mkManager {
  pfList : gmap gostring PortForwardProfile;
  routines : gmap nat routine;
  next_routine : nat;
  disk : home
}.

Definition NewPortForwardManager (h : home) : PortForwardManager := mkManager ∅ ∅ 0 h.

Definition on_disk (st : PortForwardManager) (h : home) : PortForwardManager :=
  mkManager (pfList st) (routines st) (next_routine st) h.

(** What a step finds: the disk's faults, the answers to opening the
    application, whether the local port can be listened on, the cluster, the
    time as text, and the daemon's process id and whether it runs as root. *)
Record pf_env := mkPfEnv {
  pe_faults : faults;
  pe_app : app_env;
  pe_listen : bool;
  pe_cluster : cluster;
  pe_now : gostring;
  pe_pid : Z;
  isSudo : bool
}.

Section manager.
Context `{!MapOrder gostring} `{!ProfileYaml} `{!Client} (fuel : nat).

(** Writing or removing the file [portforward]; here in the database's own
    directory. *)
Definition recordPortForward (ns nid app : gostring) (forwarding : bool) (h : home) : home :=
  let file := GetAppDbDir ns app nid ++ [DefaultNhctlPortForward] in
  if forwarding then
    if dir_exists (GetAppDbDir ns app nid) h then mkHome (dbs h) ({[file]} ∪ marks h) else h
  else mkHome (dbs h) (marks h ∖ {[file]}).

Definition cancel (i : nat) (st : PortForwardManager) : PortForwardManager :=
  mkManager (pfList st)
    (alter (fun r => mkRoutine (r_ctl r) (r_cmd r) true (sleepBackOff r)) i (routines st))
    (next_routine st) (disk st).

Definition StopPortForwardGoRoutine (e : pf_env) (cmd : PortForwardCommand) (st : PortForwardManager)
    : PortForwardManager * res profile_error unit :=
  match pfList st !! cmd_key cmd with
  | Some pfProfile =>
      let st := cancel (pp_routine pfProfile) st in
      (mkManager (delete (cmd_key cmd) (pfList st)) (routines st) (next_routine st) (disk st),
       match StopCh pfProfile with Some (Some err) => Err err | _ => Ok tt end)
  | None =>
      let svcType := if bool_decide (cmd_ServiceType cmd = []) then go "deployment" else cmd_ServiceType cmd in
      let '(h, r) :=
        (kube <-# GetKubeConfigFromProfile (pe_faults e) (cmd_NameSpace cmd) (cmd_AppName cmd) (cmd_Nid cmd);
         a <-# newApplication (pe_faults e) (pe_app e) (cmd_AppName cmd) (cmd_NameSpace cmd) kube false;
         match app_Controller a (cmd_NameSpace cmd) (cmd_AppName cmd) (cmd_Service cmd) svcType with
         | None => fail NoIdentifier
         | Some c =>
             DeletePortForwardFromDB (pe_faults e) (machine_id (pe_app e)) c (cmd_LocalPort cmd) (cmd_RemotePort cmd)
         end) (disk st) in
      (on_disk st h, r)
  end.

(** *** Starting *)

Definition start_prepare (e : pf_env) (cmd : PortForwardCommand) : io Controller :=
  kube <-# GetKubeConfigFromProfile (pe_faults e) (cmd_NameSpace cmd) (cmd_AppName cmd) (cmd_Nid cmd);
  a <-# newApplication (pe_faults e) (pe_app e) (cmd_AppName cmd) (cmd_NameSpace cmd) kube true;
  if negb (pe_listen e) then fail PortUnavailable
  else match app_Controller a (cmd_NameSpace cmd) (cmd_AppName cmd) (cmd_Service cmd) (cmd_ServiceType cmd) with
       | None => fail NoIdentifier
       | Some c => fun h => (recordPortForward (cmd_NameSpace cmd) (cmd_Nid cmd) (cmd_AppName cmd) true h, Ok c)
       end.

Definition start_pod (e : pf_env) (cmd : PortForwardCommand) : io Obj :=
  match howToGetCurrentPod fuel (pe_cluster e) cmd with
  | None => fail Unfinished
  | Some None => fail PodMissing
  | Some (Some pod) => ret pod
  end.

Definition top_of (e : pf_env) (pod : Obj) : io (option OwnerReference) :=
  match GetTopController fuel (pe_cluster e) (obj_Owners pod) with
  | None => fail Unfinished
  | Some o => ret o
  end.

Definition new_record (e : pf_env) (cmd : PortForwardCommand) (pod : Obj) (o : option OwnerReference)
    : DevPortForward :=
  let field g := match o with Some r => g r | None => [] end in
  mkPf (cmd_LocalPort cmd) (cmd_RemotePort cmd) (cmd_Role cmd) (go "New") (go "Add") (cmd_PodName cmd)
    (obj_Labels pod) (field or_Kind) (field or_APIVersion) (field or_Name) (pe_now e) (isSudo e) (pe_pid e)
    (cmd_ServiceType cmd).

Definition start_record (e : pf_env) (cmd : PortForwardCommand) (saveToDB : bool) (c : Controller) : io Obj :=
  if saveToDB then fun h =>
    let '(h, existed) :=
      match CheckIfPortForwardExists (pe_faults e) c (cmd_LocalPort cmd) (cmd_RemotePort cmd) h with
      | (h, Ok b) => (h, b)
      | (h, Err _) => (h, false)
      end in
    if existed then (h, Err AlreadyForwarded)
    else
      (pod <-# start_pod e cmd;
       o <-# top_of e pod;
       _ <-# AddPortForwardToDB (pe_faults e) (machine_id (pe_app e)) c (new_record e cmd pod o);
       ret pod) h
  else start_pod e cmd.

(** The first step: a port-forward of the same ports is stopped. *)
Definition start_check (e : pf_env) (startCmd : PortForwardCommand) (st : PortForwardManager) : PortForwardManager :=
  match pfList st !! cmd_key startCmd with
  | Some _ => fst (StopPortForwardGoRoutine e startCmd st)
  | None => st
  end.

(** The second: everything that can fail. *)
Definition start_work (e : pf_env) (startCmd : PortForwardCommand) (saveToDB : bool) : io (Controller * Obj) :=
  c <-# start_prepare e startCmd; pod <-# start_record e startCmd saveToDB c; ret (c, pod).

(** The third: the entry and the goroutine. *)
Definition start_insert (startCmd : PortForwardCommand) (c : Controller) (pod : Obj) (st : PortForwardManager)
    : PortForwardManager :=
  let cmd := set_pod startCmd (obj_Name pod) in
  let i := next_routine st in
  mkManager (<[cmd_key startCmd := mkPfProfile i None cmd]> (pfList st)) (<[i := mkRoutine c cmd false 15]> (routines st))
    (S i) (disk st).

Definition StartPortForwardGoRoutine (e : pf_env) (startCmd : PortForwardCommand) (saveToDB : bool)
    (st : PortForwardManager) : PortForwardManager * res profile_error unit :=
  let st := start_check e startCmd st in
  match start_work e startCmd saveToDB (disk st) with
  | (h, Err er) => (on_disk st h, Err er)
  | (h, Ok (c, pod)) => (start_insert startCmd c pod (on_disk st h), Ok tt)
  end.

(** *** Recovering *)

Definition recover_command (ns appName nid : gostring) (s : SvcProfile) (pf : DevPortForward) : PortForwardCommand :=
  let svcType := if bool_decide (ServiceType pf = []) then sp_Type s else ServiceType pf in
  let svcType := if bool_decide (svcType = []) then go "deployment" else svcType in
  mkCmd ns appName (sp_Name (GetName s)) svcType (PodName pf) (LocalPort pf) (RemotePort pf) (Role pf) nid
    (Labels pf) (OwnerKind pf) (OwnerApiVersion pf) (OwnerName pf).

(** The commands, in order, for the records of this daemon. *)
Definition recover_commands (sudo : bool) (ns appName nid : gostring) (p : AppProfileV2) : list PortForwardCommand :=
  s ← SvcProfiles p; pf ← DevPortForwardList s;
  if bool_decide (Sudo pf = sudo) then [recover_command ns appName nid s pf] else [].

(** Failures are logged. *)
Definition RecoverPortForwardForApplication (e : pf_env) (ns appName nid : gostring) (st : PortForwardManager)
    : PortForwardManager * res profile_error unit :=
  match GetProfileV2 (pe_faults e) ns appName nid (disk st) with
  | (h, Err ProfileNotFound) => (on_disk st h, Ok tt)
  | (h, Err er) => (on_disk st h, Err er)
  | (h, Ok p) =>
      let cmds := recover_commands (isSudo e) ns appName nid p in
      let st := foldl (fun st cmd => fst (StartPortForwardGoRoutine e cmd false st)) (on_disk st h) cmds in
      (match cmds with
       | [] => st
       | _ :: _ => on_disk st (recordPortForward ns nid appName true (disk st))
       end, Ok tt)
  end.

(** [scanned] is the flag of the daemon's own database. *)
Definition RecoverAllPortForward (e : pf_env) (scanned : bool) (st : PortForwardManager) : PortForwardManager :=
  foldl (fun st a => fst (RecoverPortForwardForApplication e (ai_Namespace a) (ai_Name a) (ai_Nid a) st)) st
    (GetNsAndApplicationInfo scanned (disk st)).

(** *** A goroutine's rounds *)

(** [Duration.String] of whole seconds below an hour. *)
Definition duration_text (seconds : Z) : gostring :=
  if (seconds <? 60)%Z then Itoa seconds ++ go "s"
  else Itoa (seconds / 60) ++ go "m" ++ Itoa (seconds mod 60) ++ go "s".

Definition reconnectMsg (backOff : Z) : gostring :=
  go "Reconnecting after " ++ duration_text backOff ++ go " seconds...".

Inductive event :=
  | Ready            (* the connection is up *)
  | PodGone          (* an error "not found" *)
  | NoSocat          (* an error "failed to find socat" *)
  | Failed           (* any other end of the connection *)
  | Cancelled.       (* the context is done *)

Definition set_status (e : pf_env) (r : routine) (status reason : gostring) (h : home) : home :=
  fst (UpdatePortForwardStatus (pe_faults e) (machine_id (pe_app e)) (pe_now e) (r_ctl r)
         (cmd_LocalPort (r_cmd r)) (cmd_RemotePort (r_cmd r)) status reason h).

Definition next_backoff (b : Z) : Z := let b := (b + 15)%Z in if (60 <? b)%Z then 60%Z else b.

Definition set_routine (i : nat) (r : routine) (st : PortForwardManager) : PortForwardManager :=
  mkManager (pfList st) (<[i := r]> (routines st)) (next_routine st) (disk st).

(** What a cancelled goroutine does last: a full [StopCh] would hold it there. *)
Definition finish (e : pf_env) (i : nat) (r : routine) (st : PortForwardManager) : PortForwardManager :=
  let '(h, err) := DeletePortForwardFromDB (pe_faults e) (machine_id (pe_app e)) (r_ctl r)
                     (cmd_LocalPort (r_cmd r)) (cmd_RemotePort (r_cmd r)) (disk st) in
  let '(h, forwarding) := IsPortForwarding (pe_faults e) (r_ctl r) h in
  let h := recordPortForward (cmd_NameSpace (r_cmd r)) (cmd_Nid (r_cmd r)) (cmd_AppName (r_cmd r)) forwarding h in
  let send p := match StopCh p with
                | None => mkPfProfile (pp_routine p) (Some (match err with Ok _ => None | Err er => Some er end)) (pp_cmd p)
                | Some _ => p
                end in
  mkManager (alter send (r_key r) (pfList st)) (delete i (routines st)) (next_routine st) h.

(** One round of goroutine [i]; [None] when it cannot be taken. *)
Definition round (e : pf_env) (i : nat) (ev : event) (st : PortForwardManager) : option PortForwardManager :=
  r ← routines st !! i;
  match ev with
  | Ready => Some (on_disk st (set_status e r (go "LISTEN") (go "listen") (disk st)))
  | PodGone =>
      match howToGetCurrentPod fuel (pe_cluster e) (r_cmd r) with
      | None => None
      | Some None =>
          let h := set_status e r (go "RECONNECTING") (reconnectMsg (sleepBackOff r)) (disk st) in
          Some (set_routine i (mkRoutine (r_ctl r) (r_cmd r) (r_cancelled r) (next_backoff (sleepBackOff r)))
                  (on_disk st h))
      | Some (Some pod) =>
          Some (set_routine i (mkRoutine (r_ctl r) (set_pod (r_cmd r) (obj_Name pod)) (r_cancelled r)
                                 (sleepBackOff r)) st)
      end
  | NoSocat =>
      let h := set_status e r (go "Socat not found") (go "failed to find socat") (disk st) in
      Some (mkManager (delete (r_key r) (pfList st)) (delete i (routines st)) (next_routine st) h)
  | Failed =>
      Some (on_disk st (set_status e r (go "RECONNECTING") (reconnectMsg (sleepBackOff r)) (disk st)))
  | Cancelled => if r_cancelled r then Some (finish e i r st) else None
  end.

(** A start that has not come to its end: the ports were checked, or the new
    port-forward is prepared. *)
Inductive pending :=
  | Checked (cmd : PortForwardCommand) (save : bool)
  | Prepared (cmd : PortForwardCommand) (c : Controller) (pod : Obj).

Definition pending_key (x : pending) : gostring := match x with Checked cmd _ | Prepared cmd _ _ => cmd_key cmd end.

(** Commands, recoveries and rounds in any order, the starts interleaved.  A recovery
    reads the profile, starts what is on record and writes the mark, so that it is
    starts and writes of a mark.  When [calm] holds, no two starts for the same ports
    overlap and a goroutine that was cancelled no longer finds that socat is missing. *)
Inductive step (calm : bool) : PortForwardManager * list pending -> PortForwardManager * list pending -> Prop :=
  | step_begin e cmd save st ps :
      (calm = true -> cmd_key cmd ∉ pending_key <$> ps) -> step calm (st, ps) (start_check e cmd st, Checked cmd save :: ps)
  | step_prepare e cmd save c pod h st ps ps' :
      start_work e cmd save (disk st) = (h, Ok (c, pod)) ->
      step calm (st, ps ++ Checked cmd save :: ps') (on_disk st h, ps ++ Prepared cmd c pod :: ps')
  | step_give_up e cmd save er h st ps ps' :
      start_work e cmd save (disk st) = (h, Err er) -> step calm (st, ps ++ Checked cmd save :: ps') (on_disk st h, ps ++ ps')
  | step_insert cmd c pod st ps ps' :
      step calm (st, ps ++ Prepared cmd c pod :: ps') (start_insert cmd c pod st, ps ++ ps')
  | step_stop e cmd st ps : step calm (st, ps) (fst (StopPortForwardGoRoutine e cmd st), ps)
  | step_mark ns nid appName b st ps : step calm (st, ps) (on_disk st (recordPortForward ns nid appName b (disk st)), ps)
  | step_round e i ev r st st' ps :
      routines st !! i = Some r -> (ev = NoSocat -> calm = true -> r_cancelled r = false) ->
      round e i ev st = Some st' -> step calm (st, ps) (st', ps).

Definition reachable (calm : bool) (st : PortForwardManager) : Prop :=
  exists h ps, rtc (step calm) (NewPortForwardManager h, []) (st, ps).
End manager.

(** ** Ports as text: facts *)

Lemma colon_free z : ":"%char ∉ Itoa z.
Proof. intros Hc. apply Itoa_bytes in Hc. assert (byte_val ":" = 58)%Z by reflexivity. lia. Qed.

Lemma Split_pf_key l r : Split (pf_key l r) (go ":") = [Itoa l; Itoa r].
Proof.
  change (pf_key l r) with (Join [Itoa l; Itoa r] [":"%char]). change (go ":") with [":"%char].
  apply Split_Join_single; [done|]. repeat constructor; apply colon_free.
Qed.

Lemma Itoa_nonempty z : Itoa z <> [].
Proof. unfold Itoa. case_match; [done|apply digits_nonempty]. Qed.

(** the text [local:remote] is accepted, and read as the two ports, exactly
    when the local port is a port number and the remote one is not above 65535;
    a negative remote port is accepted too. *)
Theorem port_text_accepted available l r :
  in_int64 l = true -> in_int64 r = true ->
  (GetPortForwardForString available (pf_key l r) = Ok (l, r) <-> (0 <= l <= 65535)%Z /\ (r <= 65535)%Z) /\
  (forall l' r', GetPortForwardForString available (pf_key l r) = Ok (l', r') -> (l', r') = (l, r)) /\
  stop_ports (pf_key l r) = Done (Ok (l, r)).
Proof.
  intros Hl Hr. unfold GetPortForwardForString, stop_ports. rewrite Split_pf_key.
  rewrite bool_decide_eq_false_2 by apply Itoa_nonempty. rewrite !Atoi_Itoa by done.
  destruct (Z.ltb_spec 65535 l), (Z.ltb_spec l 0), (Z.ltb_spec 65535 r); cbn [orb];
    (split; [split; [intros; simplify_eq|intros]; try lia|split; [congruence|]]; done).
Qed.

(** ** The table and the goroutines *)

Section table.
Context `{!MapOrder gostring} `{!ProfileYaml} `{!Client} (fuel : nat).
Implicit Types (st : PortForwardManager) (r : routine) (e : pf_env) (cmd : PortForwardCommand).

Record table_ok (calm : bool) st : Prop := {
  entry_live : forall key p, pfList st !! key = Some p ->
    exists r, routines st !! pp_routine p = Some r /\ r_cancelled r = false /\ r_key r = key;
  live_entry : calm = true -> forall i r, routines st !! i = Some r -> r_cancelled r = false ->
    exists p, pfList st !! r_key r = Some p /\ pp_routine p = i;
  ids_below : forall i r, routines st !! i = Some r -> i < next_routine st;
  backoff_range : forall i r, routines st !! i = Some r ->
    (15 <= sleepBackOff r <= 60)%Z /\ (sleepBackOff r mod 15 = 0)%Z
}.

Lemma table_on_disk calm st h : table_ok calm st -> table_ok calm (on_disk st h).
Proof. by intros []. Qed.

Lemma set_pod_key cmd pod : cmd_key (set_pod cmd pod) = cmd_key cmd.
Proof. done. Qed.

(** Two live goroutines do not have the same ports. *)
Lemma live_unique st i j r r' :
  table_ok true st -> routines st !! i = Some r -> routines st !! j = Some r' ->
  r_cancelled r = false -> r_cancelled r' = false -> r_key r = r_key r' -> i = j.
Proof.
  intros Ht Hi Hj Cr Cr' Ek. destruct (live_entry _ st Ht eq_refl i r Hi Cr) as (p & Hp & <-).
  destruct (live_entry _ st Ht eq_refl j r' Hj Cr') as (p' & Hp' & <-). rewrite Ek in Hp. by simplify_eq.
Qed.

(** The goroutine of an entry is cancelled and the entry removed. *)
Lemma table_cancel calm st key p :
  table_ok calm st -> pfList st !! key = Some p ->
  table_ok calm (mkManager (delete key (pfList st)) (routines (cancel (pp_routine p) st)) (next_routine st) (disk st)).
Proof.
  intros Ht Hp. destruct (entry_live _ st Ht key p Hp) as (r & Hr & Cr & Ek).
  split; cbn [pfList routines next_routine cancel].
  - intros key' p' [Hne Hp']%lookup_delete_Some.
    destruct (entry_live _ st Ht key' p' Hp') as (r' & Hr' & Cr' & Ek').
    rewrite lookup_alter_ne; [by eauto|]. intros Eq. rewrite Eq in Hr. by simplify_eq.
  - intros Hcalm i r' [(<- & r0 & Hr' & ->)|[Hne Hr']]%lookup_alter_Some Cr'; [done|].
    destruct (live_entry _ st Ht Hcalm i r' Hr' Cr') as (p' & Hp' & <-). exists p'. split; [|done].
    apply lookup_delete_Some. split; [|done]. intros Eq. rewrite <- Eq, Hp in Hp'. by simplify_eq.
  - intros i r' [(<- & r0 & Hr' & ->)|[_ Hr']]%lookup_alter_Some; by eapply ids_below.
  - intros i r' [(<- & r0 & Hr' & ->)|[_ Hr']]%lookup_alter_Some; exact (backoff_range _ st Ht _ _ Hr').
Qed.

Lemma table_stop calm e cmd st : table_ok calm st -> table_ok calm (fst (StopPortForwardGoRoutine e cmd st)).
Proof.
  intros Ht. unfold StopPortForwardGoRoutine. destruct (pfList st !! cmd_key cmd) as [p|] eqn:Hp.
  - exact (table_cancel calm st _ p Ht Hp).
  - case_match. by apply table_on_disk.
Qed.

Lemma table_check calm e cmd st : table_ok calm st -> table_ok calm (start_check e cmd st).
Proof. intros Ht. unfold start_check. case_match; [by apply table_stop|done]. Qed.

(** Stopping and checking take entries away, never add any. *)
Lemma stop_entries e cmd st key : pfList st !! key = None -> pfList (fst (StopPortForwardGoRoutine e cmd st)) !! key = None.
Proof.
  intros Hk. unfold StopPortForwardGoRoutine. destruct (pfList st !! cmd_key cmd).
  - cbn [fst pfList cancel]. by rewrite lookup_delete_None; right.
  - by case_match.
Qed.

Lemma check_entries e cmd st key : pfList st !! key = None -> pfList (start_check e cmd st) !! key = None.
Proof. intros Hk. unfold start_check. case_match; [by apply stop_entries|done]. Qed.

Lemma check_removes e cmd st : pfList (start_check e cmd st) !! cmd_key cmd = None.
Proof.
  unfold start_check, StopPortForwardGoRoutine. destruct (pfList st !! cmd_key cmd) eqn:Hp; [apply lookup_delete_eq|done].
Qed.

(** A new goroutine, in a calm run under ports that have none. *)
Lemma table_insert calm st cmd c pod :
  table_ok calm st -> (calm = true -> pfList st !! cmd_key cmd = None) -> table_ok calm (start_insert cmd c pod st).
Proof.
  intros Ht Hno. split; cbn [start_insert pfList routines next_routine].
  - intros key' p' [[<- <-]|[Hne Hp']]%lookup_insert_Some.
    + eexists. cbn [pp_routine]. by rewrite lookup_insert_eq.
    + destruct (entry_live _ st Ht key' p' Hp') as (r' & Hr' & Cr' & Ek').
      exists r'. split; [|done]. rewrite lookup_insert_ne; [done|].
      apply (ids_below _ st Ht) in Hr'. lia.
  - intros Hcalm i r' [[<- <-]|[Hne Hr']]%lookup_insert_Some Cr'.
    + eexists. unfold r_key. cbn [r_cmd]. by rewrite set_pod_key, lookup_insert_eq.
    + destruct (live_entry _ st Ht Hcalm i r' Hr' Cr') as (p' & Hp' & Hi). exists p'. split; [|done].
      rewrite lookup_insert_ne; [done|]. intros Eq'. rewrite <- Eq', (Hno Hcalm) in Hp'. done.
  - intros i r' [[<- _]|[_ Hr']]%lookup_insert_Some; [lia|]. apply (ids_below _ st Ht) in Hr'. lia.
  - intros i r' [[_ <-]|[_ Hr']]%lookup_insert_Some; [done|]. exact (backoff_range _ st Ht _ _ Hr').
Qed.

Lemma table_start calm e cmd save st : table_ok calm st -> table_ok calm (fst (StartPortForwardGoRoutine fuel e cmd save st)).
Proof.
  intros Ht%(table_check calm e cmd). pose proof (check_removes e cmd st) as Hno. unfold StartPortForwardGoRoutine.
  destruct (start_work fuel e cmd save (disk (start_check e cmd st))) as [h [[c pod]|er]]; [|by apply table_on_disk].
  apply table_insert; [by apply table_on_disk|done].
Qed.

Lemma table_set_routine calm st i r r' :
  table_ok calm st -> routines st !! i = Some r -> r_key r' = r_key r -> r_cancelled r' = r_cancelled r ->
  (15 <= sleepBackOff r' <= 60)%Z /\ (sleepBackOff r' mod 15 = 0)%Z -> table_ok calm (set_routine i r' st).
Proof.
  intros Ht Hi Ek Ec Hb. split; cbn [pfList routines next_routine set_routine].
  - intros key p Hp. destruct (entry_live _ st Ht key p Hp) as (r0 & Hr0 & C0 & K0).
    destruct (decide (pp_routine p = i)) as [<-|Hne].
    + exists r'. rewrite lookup_insert_eq. simplify_eq. by rewrite Ek, Ec.
    + exists r0. by rewrite lookup_insert_ne.
  - intros Hcalm j r0 [[<- <-]|[Hne Hr0]]%lookup_insert_Some C0.
    + rewrite Ek. apply (live_entry _ st Ht Hcalm); [done|congruence].
    + by apply (live_entry _ st Ht Hcalm).
  - intros j r0 [[<- _]|[_ Hr0]]%lookup_insert_Some; by eapply (ids_below _ st Ht).
  - intros j r0 [[_ <-]|[_ Hr0]]%lookup_insert_Some; [done|]. by eapply (backoff_range _ st Ht).
Qed.

Lemma next_backoff_range b :
  (15 <= b <= 60)%Z /\ (b mod 15 = 0)%Z -> (15 <= next_backoff b <= 60)%Z /\ (next_backoff b mod 15 = 0)%Z.
Proof.
  intros [Hb Hm]. unfold next_backoff. cbn zeta. destruct (Z.ltb_spec 60 (b + 15)); [done|]. split; [lia|].
  replace (b + 15)%Z with (b + 1 * 15)%Z by lia. by rewrite Z.mod_add.
Qed.

(** A goroutine that ends and takes the entry of its ports away, which in a calm run
    is its own. *)
Lemma table_end calm st i r h :
  table_ok calm st -> routines st !! i = Some r -> (calm = true -> r_cancelled r = false) ->
  table_ok calm (mkManager (delete (r_key r) (pfList st)) (delete i (routines st)) (next_routine st) h).
Proof.
  intros Ht Hi Cr. split; cbn [pfList routines next_routine].
  - intros key p [Hne Hp]%lookup_delete_Some. destruct (entry_live _ st Ht key p Hp) as (r0 & Hr0 & C0 & K0).
    exists r0. split; [|done]. apply lookup_delete_Some. split; [|done]. intros E. rewrite <- E, Hi in Hr0.
    by simplify_eq.
  - intros Hcalm j r0 [Hne Hr0]%lookup_delete_Some C0. destruct (live_entry _ st Ht Hcalm j r0 Hr0 C0) as (p & Hp & Hj).
    exists p. split; [|done]. apply lookup_delete_Some. split; [|done]. intros Ek.
    apply Hne. rewrite Hcalm in Ht. apply (live_unique st i j r r0); auto.
  - intros j r0 [_ Hr0]%lookup_delete_Some. by eapply (ids_below _ st Ht).
  - intros j r0 [_ Hr0]%lookup_delete_Some. by eapply (backoff_range _ st Ht).
Qed.

Lemma table_finish calm e st i r :
  table_ok calm st -> routines st !! i = Some r -> r_cancelled r = true -> table_ok calm (finish e i r st).
Proof.
  intros Ht Hi Cr. unfold finish. destruct (DeletePortForwardFromDB _ _ _ _ _ _) as [h1 err].
  destruct (IsPortForwarding _ _ _) as [h2 fw]. set (send := fun p => _).
  assert (Hs : forall p, pp_routine (send p) = pp_routine p) by (intros p; unfold send; by destruct (StopCh p)).
  clearbody send. split; cbn [pfList routines next_routine].
  - intros key p Hp. assert (exists p0, pfList st !! key = Some p0 /\ pp_routine p0 = pp_routine p) as (p0 & Hp0 & <-).
    { apply lookup_alter_Some in Hp as [(<- & p0 & Hp0 & ->)|[_ Hp]]; [|by eauto].
      exists p0. by rewrite Hs. }
    destruct (entry_live _ st Ht key p0 Hp0) as (r0 & Hr0 & C0 & K0). exists r0. split; [|done].
    apply lookup_delete_Some. split; [|done]. intros E. rewrite <- E, Hi in Hr0. simplify_eq. congruence.
  - intros Hcalm j r0 [Hne Hr0]%lookup_delete_Some C0. destruct (live_entry _ st Ht Hcalm j r0 Hr0 C0) as (p & Hp & Hj).
    destruct (decide (r_key r0 = r_key r)) as [Ek|Ek].
    + exists (send p). rewrite Ek, lookup_alter_eq, <- Ek, Hp. split; [done|]. by rewrite Hs.
    + exists p. by rewrite lookup_alter_ne.
  - intros j r0 [_ Hr0]%lookup_delete_Some. by eapply (ids_below _ st Ht).
  - intros j r0 [_ Hr0]%lookup_delete_Some. by eapply (backoff_range _ st Ht).
Qed.

Lemma table_round calm e i ev r st st' :
  table_ok calm st -> routines st !! i = Some r -> (ev = NoSocat -> calm = true -> r_cancelled r = false) ->
  round fuel e i ev st = Some st' -> table_ok calm st'.
Proof.
  intros Ht Hi Hs. unfold round. rewrite Hi. cbn [mbind option_bind]. destruct ev.
  - intros [= <-]. by apply table_on_disk.
  - destruct (howToGetCurrentPod fuel (pe_cluster e) (r_cmd r)) as [[pod|]|]; [| |done]; intros [= <-].
    + apply (table_set_routine calm st i r); [done..|]. exact (backoff_range _ st Ht i r Hi).
    + apply (table_set_routine calm (on_disk st _) i r); [by apply table_on_disk|done..|].
      apply next_backoff_range. exact (backoff_range _ st Ht i r Hi).
  - intros [= <-]. apply table_end; auto.
  - intros [= <-]. by apply table_on_disk.
  - destruct (r_cancelled r) eqn:Cr; [|done]. intros [= <-]. by apply table_finish.
Qed.

Lemma round_entries e i ev st st' key : round fuel e i ev st = Some st' -> pfList st !! key = None -> pfList st' !! key = None.
Proof.
  unfold round. destruct (routines st !! i) as [r|]; [|done]. cbn [mbind option_bind]. intros Hr Hk. destruct ev.
  - by injection Hr as <-.
  - destruct (howToGetCurrentPod _ _ _) as [[pod|]|]; [| |done]; by injection Hr as <-.
  - injection Hr as <-. cbn [pfList]. by rewrite lookup_delete_None; right.
  - by injection Hr as <-.
  - destruct (r_cancelled r); [|done]. injection Hr as <-. unfold finish.
    destruct (DeletePortForwardFromDB _ _ _ _ _ _) as [h1 err]. destruct (IsPortForwarding _ _ _) as [h2 fw]. cbn [pfList].
    by rewrite lookup_alter_None.
Qed.

(** In a calm run the ports of the starts under way differ and have no entry. *)
Definition starts_ok (calm : bool) (x : PortForwardManager * list pending) : Prop :=
  calm = true -> NoDup (pending_key <$> snd x) /\ forall key, key ∈ pending_key <$> snd x -> pfList (fst x) !! key = None.

Lemma starts_keep calm st st' ps ps' :
  starts_ok calm (st, ps) -> pending_key <$> ps' `sublist_of` pending_key <$> ps ->
  (forall key, pfList st !! key = None -> pfList st' !! key = None) -> starts_ok calm (st', ps').
Proof.
  intros Hs Hsub Hk Hcalm. destruct (Hs Hcalm) as [Hnd Hno]. cbn in *. split; [by eapply sublist_NoDup|].
  intros key Hin. apply Hk, Hno. by eapply elem_of_sublist.
Qed.

Lemma drop_pending (ps : list pending) x ps' : pending_key <$> ps ++ ps' `sublist_of` pending_key <$> ps ++ x :: ps'.
Proof. apply fmap_sublist, sublist_app; [done|]. by apply sublist_cons. Qed.

Lemma step_keeps calm x y :
  step fuel calm x y -> table_ok calm (fst x) /\ starts_ok calm x -> table_ok calm (fst y) /\ starts_ok calm y.
Proof.
  intros Hstep [Ht Hs]. destruct Hstep as [e cmd save st ps Hnew|e cmd save c pod h st ps ps' Hw|e cmd save er h st ps ps' Hw|
    cmd c pod st ps ps'|e cmd st ps|ns nid app b st ps|e i ev r st st' ps Hi Hl Hround]; cbn [fst] in Ht |- *.
  - split; [by apply table_check|]. intros Hcalm. destruct (Hs Hcalm) as [Hnd Hno]. cbn in *. split.
    + apply NoDup_cons. split; [by apply Hnew|done].
    + intros key [->|Hin]%elem_of_cons; [apply check_removes|by apply check_entries, Hno].
  - split; [by apply table_on_disk|]. eapply starts_keep; [exact Hs| |done]. by rewrite !fmap_app.
  - split; [by apply table_on_disk|]. eapply starts_keep; [exact Hs|apply drop_pending|done].
  - split.
    + apply table_insert; [done|]. intros Hcalm. apply (proj2 (Hs Hcalm)). cbn. rewrite fmap_app. apply elem_of_app. right. left.
    + intros Hcalm. destruct (Hs Hcalm) as [Hnd Hno]. cbn in Hnd, Hno |- *. rewrite fmap_app in Hnd, Hno. cbn in Hnd, Hno.
      rewrite fmap_app. rewrite <- Permutation_middle in Hnd. apply NoDup_cons in Hnd as [Hout Hnd]. split; [done|].
      intros key Hin. rewrite lookup_insert_ne; [|by intros <-]. apply Hno. rewrite <- Permutation_middle. by right.
  - split; [by apply table_stop|]. eapply starts_keep; [exact Hs|done|]. intros key. apply stop_entries.
  - split; [by apply table_on_disk|]. by eapply starts_keep.
  - split; [by eapply table_round|]. eapply starts_keep; [exact Hs|done|]. intros key. by eapply round_entries.
Qed.

Lemma table_reachable calm st : reachable fuel calm st -> table_ok calm st.
Proof.
  intros (h & ps & Hr). assert (Hinit : table_ok calm (NewPortForwardManager h)) by (split; cbn; intros *; by rewrite ?lookup_empty).
  enough (table_ok calm (fst (st, ps)) /\ starts_ok calm (st, ps)) by tauto.
  assert (Hx : table_ok calm (fst (NewPortForwardManager h, @nil pending)) /\ starts_ok calm (NewPortForwardManager h, [])).
  { split; [done|]. intros _. split; [apply NoDup_nil_2|]. by intros key ?%elem_of_nil. }
  revert Hx Hr. generalize (NewPortForwardManager h, @nil pending), (st, ps). intros x y Hx Hr.
  induction Hr as [|x y z Hxy _ IH]; [done|]. apply IH. by eapply step_keeps.
Qed.

(** A whole command is a run of its steps, and so is a recovery. *)
Lemma start_reachable calm e cmd save st h :
  rtc (step fuel calm) (NewPortForwardManager h, []) (st, []) ->
  rtc (step fuel calm) (NewPortForwardManager h, []) (fst (StartPortForwardGoRoutine fuel e cmd save st), []).
Proof.
  intros Hr. etrans; [exact Hr|]. clear Hr.
  eapply rtc_l; [eapply (step_begin fuel calm e cmd save); intros _; apply not_elem_of_nil|].
  unfold StartPortForwardGoRoutine. destruct (start_work fuel e cmd save (disk (start_check e cmd st))) as [h' [[c pod]|er]] eqn:Ew.
  - eapply rtc_l; [exact (step_prepare fuel calm e cmd save c pod h' _ [] [] Ew)|].
    eapply rtc_l; [exact (step_insert fuel calm cmd c pod _ [] [])|]. apply rtc_refl.
  - eapply rtc_l; [exact (step_give_up fuel calm e cmd save er h' _ [] [] Ew)|]. apply rtc_refl.
Qed.

(** C16: Through commands, recoveries and rounds in any order - starts interleaved
    step by step, as they run without a lock - every entry of the table is a
    goroutine that forwards the ports it is listed under and is not cancelled, so
    that a stop for those ports cancels it; the back-off of every goroutine stays
    between 15 and 60 seconds.  In the runs that are [calm] - no two starts for the
    same ports overlap, and no goroutine finds socat missing after it was cancelled -
    the table also misses none: every goroutine that is not cancelled is listed, so
    that there is at most one for two ports and it can be stopped.  Otherwise one can
    be lost ([overlapping_starts_orphan], [late_socat_orphans]). *)
Theorem forwards_controlled calm st :
  reachable fuel calm st ->
  (forall key p, pfList st !! key = Some p ->
     exists r, routines st !! pp_routine p = Some r /\ r_cancelled r = false /\ r_key r = key /\
       forall e cmd, cmd_key cmd = key ->
         exists r', routines (fst (StopPortForwardGoRoutine e cmd st)) !! pp_routine p = Some r' /\ r_cancelled r' = true) /\
  (forall i r, routines st !! i = Some r -> (15 <= sleepBackOff r <= 60)%Z) /\
  (calm = true -> forall i r, routines st !! i = Some r -> r_cancelled r = false ->
     exists p, pfList st !! r_key r = Some p /\ pp_routine p = i).
Proof.
  intros Ht%table_reachable. split_and!.
  - intros key p Hp. destruct (entry_live _ st Ht key p Hp) as (r & Hr & Cr & Ek). exists r. do 3 (split; [done|]).
    intros e cmd Ec. unfold StopPortForwardGoRoutine. rewrite Ec, Hp. cbn [fst routines cancel]. rewrite lookup_alter_eq, Hr. by eexists.
  - intros i r Hi. by apply (backoff_range _ st Ht i).
  - exact (live_entry _ st Ht).
Qed.

(** When a goroutine that was cancelled does find socat missing, it removes
    the entry of the one that replaced it, which stop commands for its ports then
    no longer reach. *)
Theorem late_socat_orphans e st i j r r' :
  reachable fuel false st -> routines st !! i = Some r -> r_cancelled r = true ->
  routines st !! j = Some r' -> r_cancelled r' = false -> r_key r = r_key r' ->
  exists st', round fuel e i NoSocat st = Some st' /\ reachable fuel false st' /\
    pfList st' !! r_key r' = None /\
    forall e' cmd, cmd_key cmd = r_key r' ->
      routines (fst (StopPortForwardGoRoutine e' cmd st')) !! j = Some r'.
Proof.
  intros (h & ps & Hreach) Hi Ci Hj Cj Ek. assert (Hne : i <> j) by (intros ->; simplify_eq; congruence).
  assert (exists st', round fuel e i NoSocat st = Some st') as [st' Hround].
  { unfold round. rewrite Hi. eexists. done. }
  exists st'. split; [done|]. split.
  { exists h, ps. eapply rtc_r; [exact Hreach|]. by eapply (step_round fuel false e i NoSocat r). }
  unfold round in Hround. rewrite Hi in Hround. cbn [mbind option_bind] in Hround. simplify_eq.
  cbn [pfList]. rewrite Ek. split; [apply lookup_delete_eq|].
  intros e' cmd Ec. unfold StopPortForwardGoRoutine. cbn [pfList]. rewrite Ec, lookup_delete_eq.
  case_match. cbn [fst routines on_disk]. by rewrite lookup_delete_ne.
Qed.

(** Two starts for the same ports that overlap, both checked before either is in the
    table: the second takes the place of the first, which goes on and which no stop
    reaches. *)
Theorem overlapping_starts_orphan cmd c pod c' pod' h st ps :
  rtc (step fuel false) (NewPortForwardManager h, []) (st, Prepared cmd c pod :: Prepared cmd c' pod' :: ps) ->
  exists st', rtc (step fuel false) (NewPortForwardManager h, []) (st', ps) /\
    routines st' !! next_routine st = Some (mkRoutine c (set_pod cmd (obj_Name pod)) false 15) /\
    forall e', pfList (fst (StopPortForwardGoRoutine e' cmd st')) !! cmd_key cmd = None /\
      routines (fst (StopPortForwardGoRoutine e' cmd st')) !! next_routine st =
        Some (mkRoutine c (set_pod cmd (obj_Name pod)) false 15).
Proof.
  intros Hr. exists (start_insert cmd c' pod' (start_insert cmd c pod st)). split.
  { eapply rtc_r; [eapply rtc_r; [exact Hr|]|]; [apply (step_insert fuel false cmd c pod st [])|apply (step_insert fuel false cmd c' pod' _ [])]. }
  assert (S (next_routine st) <> next_routine st) as Hne by lia.
  cbn [start_insert routines next_routine pfList]. rewrite lookup_insert_ne, lookup_insert_eq by exact Hne. split; [done|].
  intros e'. unfold StopPortForwardGoRoutine. cbn [start_insert routines next_routine pfList].
  rewrite lookup_insert_eq. cbn [fst pfList routines cancel pp_routine start_insert].
  rewrite lookup_delete_eq, lookup_alter_ne, lookup_insert_ne, lookup_insert_eq by exact Hne. done.
Qed.
End table.

(** ** Commands against the profile *)

Section commands.
Context `{!MapOrder gostring} `{!ProfileYaml} `{!ProfileYamlLaws} `{!Client} (fuel : nat).
Implicit Types (st : PortForwardManager) (r : routine) (e : pf_env) (cmd : PortForwardCommand) (c : Controller)
  (p : AppProfileV2).

(** The workload of a command. *)
Definition cmd_ctl cmd : Controller :=
  mkCtl (cmd_NameSpace cmd) (cmd_AppName cmd) (cmd_Service cmd) (cmd_ServiceType cmd) (cmd_Nid cmd).

(** The disk works, the application can be opened and the local port is free. *)
Definition serves e cmd : Prop :=
  pe_faults e = no_faults /\ pe_listen e = true /\ cmd_Nid cmd <> [] /\
  exists meta, can_open (pe_app e) (cmd_Nid cmd) meta.

(** A profile with its kubeconfig. *)
Definition on_record c h p : Prop := stored c h p /\ Kubeconfig p <> [].

Lemma stored_marks c h ms p : stored c h p -> stored c (mkHome (dbs h) ms) p.
Proof. done. Qed.

Lemma stored_recorded c h p ns nid app b : stored c h p -> stored c (recordPortForward ns nid app b h) p.
Proof. unfold recordPortForward. intros Hs. repeat case_match; done. Qed.

Lemma kubeconfig_stored c h p :
  stored c h p -> GetKubeConfigFromProfile no_faults (c_ns c) (c_app c) (c_nid c) h = (h, Ok (Kubeconfig p)).
Proof. intros Hs. unfold GetKubeConfigFromProfile. by rewrite (bind_Ok _ _ _ _ _ (GetProfileV2_stored c h p Hs)). Qed.

Lemma start_prepare_ok e cmd h p :
  serves e cmd -> on_record (cmd_ctl cmd) h p ->
  exists h' p', start_prepare e cmd h = (h', Ok (cmd_ctl cmd)) /\ on_record (cmd_ctl cmd) h' p' /\
    SvcProfiles p' = SvcProfiles p.
Proof.
  intros (Hf & Hl & Hn & meta & Ho) [Hs Hk]. unfold start_prepare. rewrite Hf, Hl.
  pose proof (kubeconfig_stored (cmd_ctl cmd) h p Hs) as Ek. cbn [c_ns c_app c_nid cmd_ctl] in Ek.
  rewrite (bind_Ok _ _ _ _ _ Ek).
  destruct (application_opened (cmd_ctl cmd) h p (pe_app e) meta (Kubeconfig p) Ho Hn Hk (or_introl Hs))
    as (h1 & p1 & E1 & Hs1 & Hid & Hk1 & L1).
  cbn [c_ns c_app c_nid cmd_ctl] in E1. rewrite (bind_Ok _ _ _ _ _ E1). cbn [negb].
  unfold app_Controller. cbn [app_Identifier app_nid]. rewrite bool_decide_eq_false_2 by done.
  eexists _, p1. split; [done|]. split; [|done]. split; [by apply stored_recorded|]. by rewrite Hk1.
Qed.

Lemma exists_stored c h p lp rp :
  stored c h p ->
  CheckIfPortForwardExists no_faults c lp rp h =
    (h, Ok (existsb (same_ports lp rp) (DevPortForwardList (ctl_svc c p)))).
Proof. intros Hs. unfold CheckIfPortForwardExists. by rewrite (bind_Ok _ _ _ _ _ (GetProfile_stored c h p Hs)). Qed.

Lemma ctl_svc_ext c p p' : SvcProfiles p' = SvcProfiles p -> ctl_svc c p' = ctl_svc c p.
Proof. unfold ctl_svc. by intros ->. Qed.

(** Starting under free ports, for a workload without a record of them. *)
Lemma start_ok e cmd st p pod o :
  pfList st !! cmd_key cmd = None -> serves e cmd -> on_record (cmd_ctl cmd) (disk st) p ->
  existsb (same_ports (cmd_LocalPort cmd) (cmd_RemotePort cmd)) (DevPortForwardList (ctl_svc (cmd_ctl cmd) p)) = false ->
  howToGetCurrentPod fuel (pe_cluster e) cmd = Some (Some pod) ->
  GetTopController fuel (pe_cluster e) (obj_Owners pod) = Some o ->
  exists h1 p1,
    StartPortForwardGoRoutine fuel e cmd true st =
      (mkManager (<[cmd_key cmd := mkPfProfile (next_routine st) None (set_pod cmd (obj_Name pod))]> (pfList st))
         (<[next_routine st := mkRoutine (cmd_ctl cmd) (set_pod cmd (obj_Name pod)) false 15]> (routines st))
         (S (next_routine st)) h1, Ok tt) /\
    stored (cmd_ctl cmd) h1 p1 /\
    ctl_svc (cmd_ctl cmd) p1 =
      with_list (ctl_svc (cmd_ctl cmd) p)
        (DevPortForwardList (ctl_svc (cmd_ctl cmd) p) ++ [new_record e cmd pod o]).
Proof.
  intros Hno Hsv Hrec Hex Hpod Htop. unfold StartPortForwardGoRoutine, start_check, start_work. rewrite Hno.
  destruct (start_prepare_ok e cmd (disk st) p Hsv Hrec) as (h' & p' & E & [Hs' _] & L).
  rewrite (bind_Ok _ _ _ _ _ E). unfold start_record.
  destruct Hsv as (Hf & _). rewrite Hf. unfold bind at 1.
  rewrite (exists_stored _ _ _ _ _ Hs'), (ctl_svc_ext _ _ _ L), Hex.
  unfold start_pod, top_of. rewrite Hpod. unfold bind at 1, ret at 1. rewrite Htop. unfold bind at 1, ret at 1.
  destruct (add_stored (machine_id (pe_app e)) (cmd_ctl cmd) h' p' (new_record e cmd pod o) Hs')
    as (h1 & p1 & E1 & Hs1 & L1).
  rewrite (bind_Ok _ _ _ _ _ E1). cbn [ret]. exists h1, p1. split; [done|]. split; [done|].
  by rewrite L1, (ctl_svc_ext _ _ _ L).
Qed.

(** a port-forward that is started is in the table and on record; stopping it
    takes it off the table, and once its goroutine has noticed, the service
    profile on disk is the one before. *)
Theorem start_then_stop e e' e'' cmd st p pod o :
  pfList st !! cmd_key cmd = None -> serves e cmd -> on_record (cmd_ctl cmd) (disk st) p ->
  existsb (same_ports (cmd_LocalPort cmd) (cmd_RemotePort cmd)) (DevPortForwardList (ctl_svc (cmd_ctl cmd) p)) = false ->
  howToGetCurrentPod fuel (pe_cluster e) cmd = Some (Some pod) ->
  GetTopController fuel (pe_cluster e) (obj_Owners pod) = Some o -> pe_faults e'' = no_faults ->
  exists st1 st2 st3,
    StartPortForwardGoRoutine fuel e cmd true st = (st1, Ok tt) /\
    is_Some (pfList st1 !! cmd_key cmd) /\
    GetPortForward no_faults (cmd_ctl cmd) (cmd_LocalPort cmd) (cmd_RemotePort cmd) (disk st1) =
      (disk st1, Ok (new_record e cmd pod o)) /\
    StopPortForwardGoRoutine e' cmd st1 = (st2, Ok tt) /\ pfList st2 !! cmd_key cmd = None /\
    round fuel e'' (next_routine st) Cancelled st2 = Some st3 /\ pfList st3 !! cmd_key cmd = None /\
    GetProfile no_faults (cmd_ctl cmd) (disk st3) = (disk st3, Ok (ctl_svc (cmd_ctl cmd) p)).
Proof.
  intros Hno Hsv Hrec Hex Hpod Htop Hf''.
  destruct (start_ok e cmd st p pod o Hno Hsv Hrec Hex Hpod Htop) as (h1 & p1 & E1 & Hs1 & L1).
  assert (Hpf : same_ports (cmd_LocalPort cmd) (cmd_RemotePort cmd) (new_record e cmd pod o) = true)
    by (unfold same_ports; cbn [LocalPort RemotePort new_record]; by rewrite !Z.eqb_refl).
  destruct (delete_stored (machine_id (pe_app e'')) (cmd_ctl cmd) h1 p1 (cmd_LocalPort cmd) (cmd_RemotePort cmd)
              (DevPortForwardList (ctl_svc (cmd_ctl cmd) p)) Hs1) as (h2 & p2 & E2 & Hs2 & L2);
    [rewrite L1; by apply remove_first_app|].
  unfold round, StopPortForwardGoRoutine. eexists _, _, _. split; [exact E1|]. cbn [pfList disk].
  rewrite lookup_insert_eq. split; [by eauto|]. split.
  { unfold GetPortForward. rewrite (bind_Ok _ _ _ _ _ (GetProfile_stored _ h1 p1 Hs1)), L1.
    cbn [DevPortForwardList with_list]. by rewrite find_app_last. }
  cbn [StopCh]. split; [done|]. cbn [pfList routines cancel pp_routine]. split; [apply lookup_delete_eq|].
  rewrite lookup_alter_eq, lookup_insert_eq. cbn [fmap option_fmap option_map mbind option_bind r_cancelled].
  split; [done|]. unfold finish. cbn [r_ctl r_cmd disk pfList cancel cmd_LocalPort cmd_RemotePort set_pod].
  rewrite Hf'', E2. unfold IsPortForwarding.
  rewrite (GetProfileV2_stored (cmd_ctl cmd) h2 p2 Hs2). cbn [pfList disk]. split.
  { unfold r_key. cbn [r_cmd]. rewrite set_pod_key, lookup_alter_eq, lookup_delete_eq. done. }
  rewrite (GetProfile_stored _ _ p2) by by apply stored_recorded. do 2 f_equal.
  rewrite L2, L1. by destruct (ctl_svc (cmd_ctl cmd) p).
Qed.

(** starting a port-forward that is running and on record stops it and is
    then refused, as long as its goroutine has not deleted the record. *)
Theorem start_running_refused e cmd st p q r :
  pfList st !! cmd_key cmd = Some q -> routines st !! pp_routine q = Some r ->
  serves e cmd -> on_record (cmd_ctl cmd) (disk st) p ->
  existsb (same_ports (cmd_LocalPort cmd) (cmd_RemotePort cmd)) (DevPortForwardList (ctl_svc (cmd_ctl cmd) p)) = true ->
  exists st' r', StartPortForwardGoRoutine fuel e cmd true st = (st', Err AlreadyForwarded) /\
    pfList st' !! cmd_key cmd = None /\ routines st' !! pp_routine q = Some r' /\ r_cancelled r' = true.
Proof.
  intros Hq Hr Hsv Hrec Hex. unfold StartPortForwardGoRoutine, start_check, start_work, StopPortForwardGoRoutine. rewrite Hq.
  cbn [fst disk cancel].
  destruct (start_prepare_ok e cmd (disk st) p Hsv Hrec) as (h' & p' & E & [Hs' _] & L).
  rewrite (bind_Ok _ _ _ _ _ E). unfold start_record.
  destruct Hsv as (Hf & _). rewrite Hf. unfold bind at 1.
  rewrite (exists_stored _ _ _ _ _ Hs'), (ctl_svc_ext _ _ _ L), Hex.
  eexists _, _. split; [done|]. cbn [pfList routines on_disk cancel]. split; [apply lookup_delete_eq|].
  rewrite lookup_alter_eq, Hr. by split.
Qed.

(** *** Recovery *)

(** A live goroutine forwards the ports of the command to a pod. *)
Definition running st cmd (pod : Obj) : Prop :=
  exists q r, pfList st !! cmd_key cmd = Some q /\ routines st !! pp_routine q = Some r /\
    r_cancelled r = false /\ r_ctl r = cmd_ctl cmd /\ cmd_PodName (r_cmd r) = obj_Name pod.

Lemma running_on_disk st h cmd pod : running st cmd pod -> running (on_disk st h) cmd pod.
Proof. done. Qed.

Lemma stop_keeps_running e cmd' st cmd pod :
  table_ok true st -> running st cmd pod -> cmd_key cmd' <> cmd_key cmd ->
  running (fst (StopPortForwardGoRoutine e cmd' st)) cmd pod.
Proof.
  intros Ht (q & r & Hq & Hr & Cr & Hc & Hp) Hne. unfold StopPortForwardGoRoutine.
  destruct (pfList st !! cmd_key cmd') as [q'|] eqn:Hq'.
  - exists q, r. cbn [fst pfList routines cancel]. rewrite lookup_delete_ne by done. split; [done|].
    rewrite lookup_alter_ne; [done|]. intros Eq.
    destruct (entry_live _ st Ht _ q' Hq') as (r' & Hr' & _ & Ek'). rewrite Eq, Hr in Hr'.
    destruct (entry_live _ st Ht _ q Hq) as (r'' & Hr'' & _ & Ek). rewrite Hr in Hr''. simplify_eq. congruence.
  - destruct (bind _ _ (disk st)) as [h' res']. by exists q, r.
Qed.

Lemma start_keeps_running e cmd' save st cmd pod :
  table_ok true st -> running st cmd pod -> cmd_key cmd' <> cmd_key cmd ->
  running (fst (StartPortForwardGoRoutine fuel e cmd' save st)) cmd pod.
Proof.
  intros Ht Hrun Hne. unfold StartPortForwardGoRoutine. pose proof (table_check true e cmd' st Ht) as Ht1.
  assert (Hrun1 : running (start_check e cmd' st) cmd pod) by (unfold start_check; case_match; [by apply stop_keeps_running|done]).
  revert Ht1 Hrun1. generalize (start_check e cmd' st). intros st1 Ht1 Hrun1.
  destruct (start_work fuel e cmd' save (disk st1)) as [h' [[c' pod']|er]]; [|done].
  destruct Hrun1 as (q & r & Hq & Hr & Cr & Hc & Hp). exists q, r. cbn [fst start_insert pfList routines].
  rewrite lookup_insert_ne by done. split; [done|]. cbn [on_disk next_routine routines]. rewrite lookup_insert_ne; [done|].
  apply (ids_below _ st1 Ht1) in Hr. lia.
Qed.

Lemma disk_stop_first e cmd st :
  disk (start_check e cmd st) = disk st.
Proof. unfold start_check, StopPortForwardGoRoutine. by destruct (pfList st !! cmd_key cmd). Qed.

Lemma start_unsaved e cmd st p pod :
  serves e cmd -> on_record (cmd_ctl cmd) (disk st) p ->
  howToGetCurrentPod fuel (pe_cluster e) cmd = Some (Some pod) ->
  exists p', running (fst (StartPortForwardGoRoutine fuel e cmd false st)) cmd pod /\
    on_record (cmd_ctl cmd) (disk (fst (StartPortForwardGoRoutine fuel e cmd false st))) p' /\
    SvcProfiles p' = SvcProfiles p.
Proof.
  intros Hsv Hrec Hpod. unfold StartPortForwardGoRoutine, start_work. rewrite disk_stop_first.
  destruct (start_prepare_ok e cmd (disk st) p Hsv Hrec) as (h' & p' & E & Hrec' & L).
  rewrite (bind_Ok _ _ _ _ _ E). unfold start_record, start_pod. rewrite Hpod. cbn [bind ret].
  exists p'. split; [|by split]. unfold bind, ret. cbn [fst].
  eexists _, _. cbn [start_insert pfList routines]. rewrite lookup_insert_eq. split; [done|]. cbn [pp_routine].
  rewrite lookup_insert_eq. by split_and!.
Qed.

Lemma starts_run e ns app nid cmds st p (pods : PortForwardCommand -> Obj) :
  table_ok true st -> on_record (mkCtl ns app [] [] nid) (disk st) p ->
  (forall cmd, cmd ∈ cmds -> serves e cmd /\
     (cmd_NameSpace cmd, cmd_AppName cmd, cmd_Nid cmd) = (ns, app, nid) /\
     howToGetCurrentPod fuel (pe_cluster e) cmd = Some (Some (pods cmd))) ->
  NoDup (cmd_key <$> cmds) ->
  let st' := foldl (fun st cmd => fst (StartPortForwardGoRoutine fuel e cmd false st)) st cmds in
  (forall cmd pod, running st cmd pod -> cmd_key cmd ∉ cmd_key <$> cmds -> running st' cmd pod) /\
  (forall cmd, cmd ∈ cmds -> running st' cmd (pods cmd)) /\
  exists p', stored (mkCtl ns app [] [] nid) (disk st') p' /\ SvcProfiles p' = SvcProfiles p.
Proof.
  revert st p. induction cmds as [|cmd cmds IH]; intros st p Ht Hrec Hall Hnd.
  - cbn. split_and!; [done|intros ? []%elem_of_nil|]. exists p. by destruct Hrec.
  - destruct (Hall cmd (list_elem_of_here _ _)) as (Hsv & [= Ens Eapp Enid] & Hpod).
    assert (Hrec' : on_record (cmd_ctl cmd) (disk st) p).
    { unfold on_record, stored, ctl_dir, cmd_ctl. cbn. by rewrite Ens, Eapp, Enid. }
    destruct (start_unsaved e cmd st p (pods cmd) Hsv Hrec' Hpod) as (p1 & Hrun1 & Hrec1 & L1).
    cbn [fmap list_fmap] in Hnd. apply NoDup_cons in Hnd as [Hnin Hnd].
    destruct (IH (fst (StartPortForwardGoRoutine fuel e cmd false st)) p1) as (Hkeep & Hruns & p2 & Hs2 & L2).
    + by apply table_start.
    + unfold on_record, stored, ctl_dir, cmd_ctl in Hrec1 |- *. cbn in *. by rewrite <- Ens, <- Eapp, <- Enid.
    + intros cmd' Hin. apply Hall. by right.
    + done.
    + cbn [foldl]. split_and!.
      * intros cmd' pod Hrun [Hne Hn]%not_elem_of_cons. apply Hkeep; [|done]. apply start_keeps_running; congruence || done.
      * intros cmd' [->|Hin]%elem_of_cons; [by apply Hkeep|by apply Hruns].
      * exists p2. split; [done|congruence].
Qed.

(** recovering an application starts a goroutine for every record of this
    daemon, on the pod found for it, and keeps the records, when their ports
    differ and the application, the ports and the pods are there. *)
Theorem recovery_starts_all e ns app nid st p meta (pods : PortForwardCommand -> Obj) :
  reachable fuel true st -> stored (mkCtl ns app [] [] nid) (disk st) p -> Kubeconfig p <> [] -> nid <> [] ->
  pe_faults e = no_faults -> pe_listen e = true -> can_open (pe_app e) nid meta ->
  (forall cmd, cmd ∈ recover_commands (isSudo e) ns app nid p ->
     howToGetCurrentPod fuel (pe_cluster e) cmd = Some (Some (pods cmd))) ->
  NoDup (cmd_key <$> recover_commands (isSudo e) ns app nid p) ->
  exists st', RecoverPortForwardForApplication fuel e ns app nid st = (st', Ok tt) /\
    (forall cmd, cmd ∈ recover_commands (isSudo e) ns app nid p -> running st' cmd (pods cmd)) /\
    exists p', stored (mkCtl ns app [] [] nid) (disk st') p' /\ SvcProfiles p' = SvcProfiles p.
Proof.
  intros Ht%table_reachable Hs Hk Hn Hf Hl Hopen Hpods Hnd.
  unfold RecoverPortForwardForApplication. rewrite Hf.
  pose proof (GetProfileV2_stored (mkCtl ns app [] [] nid) (disk st) p Hs) as Eg. cbn [c_ns c_app c_nid] in Eg.
  rewrite Eg. set (cmds := recover_commands (isSudo e) ns app nid p) in *.
  destruct (starts_run e ns app nid cmds (on_disk st (disk st)) p pods) as (_ & Hruns & p' & Hs' & L').
  - by apply table_on_disk.
  - by split.
  - intros cmd Hin. assert (Ec : (cmd_NameSpace cmd, cmd_AppName cmd, cmd_Nid cmd) = (ns, app, nid)).
    { unfold cmds, recover_commands in Hin. apply list_elem_of_bind in Hin as (s & Hin & _).
      apply list_elem_of_bind in Hin as (pf & Hin & _). case_bool_decide; [|by apply elem_of_nil in Hin].
      by apply list_elem_of_singleton in Hin as ->. }
    split_and!; [|done|by apply Hpods]. simplify_eq. unfold serves. split_and!; [done..|]. by eauto.
  - done.
  - eexists. split; [done|]. destruct cmds as [|cmd0 cmds].
    + split; [done|]. by exists p'.
    + split; [by intros cmd Hin; apply running_on_disk, Hruns|]. exists p'. split; [|done]. by apply stored_recorded.
Qed.
End commands.

(** ** Witnesses *)

Section demo.

#[local] Instance demo_client : Client := {|
  typed_ok := fun _ => false; rest_mapping := fun _ => None; kind_for := fun _ => None
|}.

Definition demo_pod : Obj :=
  mkObj (go "ns") (go "web-1") ∅ None false [] (mkGVK [] (go "v1") (go "Pod")).

Definition demo_meta : MetaAnswer := mkAnswer false false (Some (go "id")) true true.

Definition demo_env : pf_env :=
  mkPfEnv no_faults (mkAppEnv (go "me") true (Some demo_meta) false true true) true
    (mkCluster (fun _ => Some demo_pod) (fun _ => []) (fun _ _ => None)) (go "now") 7 false.

Definition demo_cmd : PortForwardCommand :=
  mkCmd (go "ns") (go "shop") (go "web") (go "deployment") (go "web-1") 8080 80 [] (go "id") ∅ [] [] [].

Lemma demo_serves : serves demo_env demo_cmd.
Proof. split_and!; [done..|]. exists demo_meta. by split_and!. Qed.

Lemma demo_record : on_record (cmd_ctl demo_cmd) shop_home shop_profile.
Proof. split; [apply stored_saved|done]. Qed.

Lemma port_text_accepted_witness :
  GetPortForwardForString None (pf_key 8080 (-80)) = Ok (8080, -80)%Z.
Proof. apply (proj1 (port_text_accepted None 8080 (-80) eq_refl eq_refl)). lia. Defined.

Definition demo_started : PortForwardManager :=
  fst (StartPortForwardGoRoutine 1 demo_env demo_cmd false (NewPortForwardManager shop_home)).

Definition demo_replaced : PortForwardManager :=
  fst (StartPortForwardGoRoutine 1 demo_env demo_cmd false demo_started).

Definition demo_routine (cancelled : bool) : routine :=
  mkRoutine (cmd_ctl demo_cmd) demo_cmd cancelled 15.

Lemma forwards_controlled_witness :
  exists p, pfList demo_started !! r_key (demo_routine false) = Some p /\ pp_routine p = 0.
Proof.
  apply (proj2 (proj2 (forwards_controlled 1 true demo_started
    ltac:(exists shop_home, []; apply start_reachable, rtc_refl))) eq_refl 0 (demo_routine false)).
  - vm_compute. reflexivity.
  - reflexivity.
Defined.

Lemma late_socat_orphans_witness :
  exists st', round 1 demo_env 0 NoSocat demo_replaced = Some st' /\
    pfList st' !! r_key (demo_routine false) = None.
Proof.
  destruct (late_socat_orphans 1 demo_env demo_replaced 0 1 (demo_routine true) (demo_routine false))
    as (st' & H1 & _ & H2 & _).
  - exists shop_home, []. apply start_reachable, start_reachable, rtc_refl.
  - vm_compute. reflexivity.
  - reflexivity.
  - vm_compute. reflexivity.
  - reflexivity.
  - reflexivity.
  - exists st'. split; [exact H1|exact H2].
Defined.

(** Two starts that both found the ports free. *)
Definition demo_worked : home * res profile_error (Controller * Obj) := start_work 1 demo_env demo_cmd false shop_home.

Lemma overlapping_starts_orphan_witness :
  exists st', routines st' !! 0 = Some (demo_routine false) /\
    routines (fst (StopPortForwardGoRoutine demo_env demo_cmd st')) !! 0 = Some (demo_routine false).
Proof.
  destruct (overlapping_starts_orphan 1 demo_cmd (cmd_ctl demo_cmd) demo_pod (cmd_ctl demo_cmd) demo_pod shop_home
    (NewPortForwardManager (fst (start_work 1 demo_env demo_cmd false (fst demo_worked)))) []) as (st' & _ & H1 & H2).
  - eapply rtc_l; [apply (step_begin 1 false demo_env demo_cmd false); discriminate|].
    eapply rtc_l; [apply (step_begin 1 false demo_env demo_cmd false); discriminate|].
    eapply rtc_l; [apply (step_prepare 1 false demo_env demo_cmd false (cmd_ctl demo_cmd) demo_pod (fst demo_worked) _ [] [Checked demo_cmd false]);
      vm_compute; reflexivity|].
    eapply rtc_l; [apply (step_prepare 1 false demo_env demo_cmd false (cmd_ctl demo_cmd) demo_pod
      (fst (start_work 1 demo_env demo_cmd false (fst demo_worked))) _ [Prepared demo_cmd (cmd_ctl demo_cmd) demo_pod] []);
      vm_compute; reflexivity|].
    apply rtc_refl.
  - exists st'. split; [exact H1|exact (proj2 (H2 demo_env))].
Defined.

Lemma start_then_stop_witness :
  exists st1 st2, StartPortForwardGoRoutine 1 demo_env demo_cmd true (NewPortForwardManager shop_home) = (st1, Ok tt) /\
    StopPortForwardGoRoutine demo_env demo_cmd st1 = (st2, Ok tt).
Proof.
  destruct (start_then_stop 1 demo_env demo_env demo_env demo_cmd (NewPortForwardManager shop_home) shop_profile
              demo_pod None) as (st1 & st2 & st3 & H1 & _ & _ & H2 & _).
  - reflexivity.
  - exact demo_serves.
  - exact demo_record.
  - reflexivity.
  - reflexivity.
  - reflexivity.
  - reflexivity.
  - exists st1, st2. split; [exact H1|exact H2].
Defined.

(** The application with one record, and the goroutine for it. *)
Definition recorded_profile : AppProfileV2 :=
  mkProfile (go "/kube") (go "ime") [with_list (new_svc (go "deployment") (go "web")) [web_forward]] [].

Definition recorded_home : home := saved (cmd_ctl demo_cmd) recorded_profile (mkHome ∅ ∅).

Definition forwarding : PortForwardManager :=
  mkManager {[cmd_key demo_cmd := mkPfProfile 0 None demo_cmd]} {[0 := demo_routine false]} 1 recorded_home.

Lemma start_running_refused_witness :
  exists st', StartPortForwardGoRoutine 1 demo_env demo_cmd true forwarding = (st', Err AlreadyForwarded).
Proof.
  destruct (start_running_refused 1 demo_env demo_cmd forwarding recorded_profile
              (mkPfProfile 0 None demo_cmd) (demo_routine false)) as (st' & r' & H1 & _).
  - reflexivity.
  - reflexivity.
  - exact demo_serves.
  - split; [apply stored_saved|discriminate].
  - reflexivity.
  - exists st'. exact H1.
Defined.

Lemma recovery_starts_all_witness :
  exists st', RecoverPortForwardForApplication 1 demo_env (go "ns") (go "shop") (go "id")
                (NewPortForwardManager recorded_home) = (st', Ok tt) /\
    running st' demo_cmd demo_pod.
Proof.
  destruct (recovery_starts_all 1 demo_env (go "ns") (go "shop") (go "id") (NewPortForwardManager recorded_home)
              recorded_profile demo_meta (fun _ => demo_pod)) as (st' & H1 & H2 & _).
  - exists recorded_home, []. apply rtc_refl.
  - exact (stored_saved (cmd_ctl demo_cmd) recorded_profile (mkHome ∅ ∅)).
  - discriminate.
  - discriminate.
  - reflexivity.
  - reflexivity.
  - split_and!; reflexivity.
  - intros cmd _. reflexivity.
  - vm_compute. repeat constructor. intros []%elem_of_nil.
  - exists st'. split; [exact H1|]. apply (H2 demo_cmd). vm_compute. left.
Defined.
End demo.
