(* ===== verification/Config.v ===== *)
(** * The nocalhost configuration ([internal/nhctl/profile/config_v2.go],
      [config_v1.go], [svc_config.go], [app/config_converter.go],
      [config_validate/config_validate.go])

    An application's configuration lists its services, each with the
    development options of its containers.  It is stored in the application's
    meta, validated before it is used, and read when dev mode starts; older
    configurations are converted.

    The quantity parser of Kubernetes, the sort of the standard library among
    equal weights, free ports and the environment variables that carry what the
    cluster supports are parameters. *)

From stdpp Require Import sorting.
From S2P Require Import Prelude GoStrings FilePath DevDir AppMeta Search Profile PortForward.
#[local] Open Scope go_scope.

(** ** Data *)

Record WeightablePath := mkWeightable {
  wp_Path : gostring;
  wp_Weight : gostring
}.

Record PersistentVolumeDir := mkPvd {
  pvd_Path : gostring;
  pvd_Capacity : gostring;
  pvd_WaitForFirstConsumer : bool
}.

Record QuotaList := mkQuota { Memory : gostring; Cpu : gostring }.

Record ResourceQuota := mkResources {
  Limits : option QuotaList;
  Requests : option QuotaList
}.

Record DevCommands := mkCommands {
  Build : list gostring;
  Run : list gostring;
  Debug_ : list gostring;
  HotReloadRun : list gostring;
  HotReloadDebug : list gostring
}.

Record SyncConfig := mkSync {
  sync_Type : gostring;
  sync_Mode : gostring;
  DeleteProtection : option bool;
  FilePattern : list gostring;
  IgnoreFilePattern : list gostring
}.

Record DebugConfig := mkDebug {
  RemoteDebugPort : Z;
  Language : gostring
}.

Record DependLabelSelector := mkDepend {
  dep_Pods : list gostring;
  dep_Jobs : list gostring;
  dep_TCP : list gostring;
  dep_HTTP : list gostring
}.

Record HubConfig := mkHub { hub_Image : gostring }.

(** [Env] as pairs, [EnvFrom] as the paths of its files, a patch as its two
    texts. *)
Record ContainerInstallConfig := mkInstall {
  inst_Env : list (gostring * gostring);
  inst_EnvFrom : list gostring;
  inst_PortForward : list gostring
}.

Record ContainerDevConfig := mkDev {
  GitUrl : gostring;
  Image : gostring;
  ImagePullPolicy : gostring;
  Shell : gostring;
  WorkDir : gostring;
  StorageClass : gostring;
  DevContainerName : gostring;
  DevContainerResources : option ResourceQuota;
  PersistentVolumeDirs : list PersistentVolumeDir;
  Command : option DevCommands;
  DebugConf : option DebugConfig;
  HotReload : bool;
  UseDevContainer : bool;
  Sync : option SyncConfig;
  dev_Env : list (gostring * gostring);
  dev_EnvFrom : option (list gostring);
  dev_PortForward : list gostring;
  SidecarImage : gostring;
  Patches : list (gostring * gostring)
}.

Record ContainerConfig := mkContainer {
  cc_Name : gostring;
  Hub : option HubConfig;
  Install : option ContainerInstallConfig;
  Dev : option ContainerDevConfig
}.

Record ServiceConfigV2 := mkSvcConfig {
  svc_Name : gostring;
  svc_Type : gostring;
  PriorityClass : gostring;
  DependSelector : option DependLabelSelector;
  ContainerConfigs : list ContainerConfig
}.

(** The fields of the application configuration used here; the others in
    [app_rest]. *)
Record ApplicationConfig := mkAppConfig {
  app_Name : gostring;
  app_Type : gostring;
  ResourcePath : list gostring;
  IgnoredPath : list gostring;
  PreInstall : list WeightablePath;
  PostInstall : list WeightablePath;
  PreUpgrade : list WeightablePath;
  PostUpgrade : list WeightablePath;
  PreDelete : list WeightablePath;
  PostDelete : list WeightablePath;
  HelmVersion : gostring;
  app_Env : list (gostring * gostring);
  app_EnvFrom : list gostring;
  ServiceConfigs : list ServiceConfigV2;
  app_rest : gostring
}.

Record NocalHostAppConfigV2 := mkConfig {
  Version : gostring;
  EnvFile : gostring;
  Migrated : bool;
  AppConfig : ApplicationConfig
}.

(** ** Services of an application *)

Definition is_config (svcName svcType : gostring) (c : ServiceConfigV2) : bool :=
  bool_decide (svc_Name c = svcName) && bool_decide (svc_Type c = svcType).

Definition GetSvcConfigV2 (n : option NocalHostAppConfigV2) (svcName svcType : gostring)
    : option ServiceConfigV2 :=
  match n with
  | Some n => List.find (is_config svcName svcType) (ServiceConfigs (AppConfig n))
  | None => None
  end.

Definition GetSvcConfigS (n : NocalHostAppConfigV2) (svcName svcType : gostring) : ServiceConfigV2 :=
  match List.find (is_config svcName svcType) (ServiceConfigs (AppConfig n)) with
  | Some config => config
  | None => mkSvcConfig svcName svcType [] None []
  end.

Fixpoint replace_config (c : ServiceConfigV2) (l : list ServiceConfigV2) : option (list ServiceConfigV2) :=
  match l with
  | [] => None
  | x :: l =>
      if is_config (svc_Name c) (svc_Type c) x then Some (c :: l) else cons x <$> replace_config c l
  end.

Definition with_services (n : NocalHostAppConfigV2) (l : list ServiceConfigV2) : NocalHostAppConfigV2 :=
  let a := AppConfig n in
  mkConfig (Version n) (EnvFile n) (Migrated n)
    (mkAppConfig (app_Name a) (app_Type a) (ResourcePath a) (IgnoredPath a) (PreInstall a)
       (PostInstall a) (PreUpgrade a) (PostUpgrade a) (PreDelete a) (PostDelete a) (HelmVersion a)
       (app_Env a) (app_EnvFrom a) l (app_rest a)).

Definition SetSvcConfigV2 (n : NocalHostAppConfigV2) (svcConfig : ServiceConfigV2) : NocalHostAppConfigV2 :=
  if bool_decide (svc_Name svcConfig = []) || bool_decide (svc_Type svcConfig = []) then n
  else match replace_config svcConfig (ServiceConfigs (AppConfig n)) with
       | Some l => with_services n l
       | None => with_services n (ServiceConfigs (AppConfig n) ++ [svcConfig])
       end.

(** ** Containers of a service ([svc_config.go]) *)

Definition GetContainerConfig (s : option ServiceConfigV2) (container : gostring) : option ContainerConfig :=
  match s with
  | None => None
  | Some s => List.find (fun c => bool_decide (cc_Name c = container)) (ContainerConfigs s)
  end.

Definition GetDefaultContainerDevConfig (s : ServiceConfigV2) : option ContainerDevConfig :=
  match ContainerConfigs s with
  | [] => None
  | c :: _ => Dev c
  end.

Definition GetContainerDevConfig (s : ServiceConfigV2) (containerName : gostring) : option ContainerDevConfig :=
  match List.find (fun c => bool_decide (cc_Name c = containerName)) (ContainerConfigs s) with
  | Some c => Dev c
  | None => None
  end.

Definition GetContainerDevConfigOrDefault (s : ServiceConfigV2) (containerName : gostring)
    : option ContainerDevConfig :=
  if bool_decide (containerName = []) then GetDefaultContainerDevConfig s
  else match GetContainerDevConfig s containerName with
       | Some config => Some config
       | None => GetDefaultContainerDevConfig s
       end.

(** [FindSvcConfigInHub]. *)
Definition isSvcConfigInHubMatch (s : ServiceConfigV2) (container image : gostring) : bool :=
  match List.find (fun c => bool_decide (cc_Name c = container)) (ContainerConfigs s) with
  | Some c => match Hub c with Some h => Contains image (hub_Image h) | None => false end
  | None => false
  end.

Definition FindSvcConfigInHub (n : NocalHostAppConfigV2) (svcName svcType container image : gostring)
    : option ServiceConfigV2 :=
  let s := GetSvcConfigS n svcName svcType in
  if isSvcConfigInHubMatch s container image then Some s else None.

(** ** Paths with weights ([config_v1.go]) *)

Definition weight_of (w : WeightablePath) : Z := default 0%Z (Atoi (wp_Weight w)).

Definition lighter (a b : WeightablePath) : Prop := (weight_of a <= weight_of b)%Z.

(** [sort.Sort]: some order by weight; equal weights in any order. *)
Class GoSort := {
  go_sort : list WeightablePath -> list WeightablePath;
  go_sort_perm : forall l, go_sort l ≡ₚ l;
  go_sort_sorted : forall l, StronglySorted lighter (go_sort l)
}.

(** The files that exist. *)
Definition load_paths (o : OS) (f : FilePathEnhance) (l : list gostring) : list gostring :=
  path ← l;
  let file := RelOrAbs o f path in
  if CheckExist o file then [Abs file] else [].

Definition SortedRelPath_Load `{!GoSort} (o : OS) (f : FilePathEnhance) (c : option (list WeightablePath))
    : list gostring :=
  match c with
  | Some c => load_paths o f (wp_Path <$> go_sort c)
  | None => []
  end.

Definition RelPath_Load (o : OS) (f : FilePathEnhance) (c : option (list gostring)) : list gostring :=
  match c with Some c => load_paths o f c | None => [] end.

(** ** Older configurations ([config_converter.go]) *)

Record ServiceDevOptions := mkOptions {
  v1_Name : gostring;
  v1_Type : gostring;
  v1_GitUrl : gostring;
  DevImage : gostring;
  v1_WorkDir : gostring;
  v1_Sync : list gostring;
  v1_PriorityClass : gostring;
  v1_PersistentVolumeDirs : list PersistentVolumeDir;
  BuildCommand : list gostring;
  RunCommand : list gostring;
  DebugCommand : list gostring;
  HotReloadRunCommand : list gostring;
  HotReloadDebugCommand : list gostring;
  DevContainerShell : gostring;
  v1_Resources : option ResourceQuota;
  DevPort : list gostring;
  v1_Jobs : list gostring;
  v1_Pods : list gostring;
  SyncedPattern : list gostring;
  IgnoredPattern : list gostring
}.

Record NocalHostAppConfig := mkConfigV1 {
  v1_PreInstall : list WeightablePath;
  v1_ResourcePath : list gostring;
  SvcConfigs : list ServiceDevOptions;
  v1_AppName : gostring;
  v1_AppType : gostring;
  v1_IgnoredPath : list gostring
}.

Definition convertServiceConfigV1ToV2 (v1 : ServiceDevOptions) : ServiceConfigV2 :=
  let dev :=
    mkDev (v1_GitUrl v1) (DevImage v1) [] (DevContainerShell v1) (v1_WorkDir v1) [] [] (v1_Resources v1)
      (v1_PersistentVolumeDirs v1)
      (Some (mkCommands (BuildCommand v1) (RunCommand v1) (DebugCommand v1) (HotReloadRunCommand v1)
               (HotReloadDebugCommand v1)))
      None false false
      (Some (mkSync [] [] None (SyncedPattern v1) (IgnoredPattern v1)))
      [] None (DevPort v1) [] [] in
  mkSvcConfig (v1_Name v1) (v1_Type v1) (v1_PriorityClass v1)
    (if bool_decide (v1_Jobs v1 <> []) || bool_decide (v1_Pods v1 <> [])
     then Some (mkDepend (v1_Pods v1) (v1_Jobs v1) [] []) else None)
    [mkContainer [] None None (Some dev)].

Definition convertConfigV1ToV2 (configV1 : option NocalHostAppConfig) : option NocalHostAppConfigV2 :=
  v1 ← configV1;
  Some (mkConfig (go "v2") [] false
          (mkAppConfig (v1_AppName v1) (v1_AppType v1) (v1_ResourcePath v1) (v1_IgnoredPath v1) (v1_PreInstall v1)
             [] [] [] [] [] [] [] []
             (convertServiceConfigV1ToV2 <$> SvcConfigs v1) [])).

(** ** Validation ([config_validate.go]) *)

(** What [PrepareForConfigurationValidate] puts into the environment. *)
Record valid_env := mkValidEnv {
  SUPPORT_SC : option gostring;
  CONTAINERS : option gostring
}.

(** The names, each with a line end. *)
Definition lines_of (names : list gostring) : gostring := concat ((fun n => n ++ newline) <$> names).

(** [classes] is [None] without a client and [Some None] when they cannot be
    listed. *)
Definition PrepareForConfigurationValidate (classes : option (option (list gostring))) (containers : list gostring)
    (v : valid_env) : valid_env :=
  let v := if bool_decide (containers <> []) then mkValidEnv (SUPPORT_SC v) (Some (lines_of containers)) else v in
  match classes with
  | None => v
  | Some None => mkValidEnv None (CONTAINERS v)
  | Some (Some l) => mkValidEnv (Some (lines_of l)) (CONTAINERS v)
  end.

(** The rules, by the name of their tag; [required] is the validator's own. *)
Inductive tag :=
  | TagRequired
  | TagContainer
  | TagStorageClass
  | TagQuantity
  | TagSyncType
  | TagSyncMode
  | TagPort
  | TagLanguage
  | TagPortForward.

Section validate.
Context (ParseQuantity : gostring -> bool) (available : option Z).

Definition has_line (lines val : gostring) : bool := bool_decide (val ∈ Split lines newline).

Definition ContainerCheck (v : valid_env) (val : gostring) : bool :=
  match CONTAINERS v with Some l => has_line l val | None => true end.

Definition StorageClassSupported (v : valid_env) (val : gostring) : bool :=
  match SUPPORT_SC v with
  | Some l => bool_decide (val = []) || has_line l val
  | None => true
  end.

Definition IsQuantity (val : gostring) : bool := bool_decide (val = []) || ParseQuantity val.

Definition DefaultSyncType : gostring := go "sendReceive".
Definition SendOnlySyncType : gostring := go "sendonly".
Definition SendOnlySyncTypeAlias : gostring := go "send".
Definition PatternMode : gostring := go "pattern".
Definition GitIgnoreMode : gostring := go "gitIgnore".

Definition IsSyncType (val : gostring) : bool :=
  bool_decide (val ∈ [[]; DefaultSyncType; SendOnlySyncType; SendOnlySyncTypeAlias]).

Definition IsSyncMode (val : gostring) : bool := bool_decide (val ∈ [[]; PatternMode; GitIgnoreMode]).

Definition languages : list gostring :=
  [go "node"; go "java"; go "go"; go "python"; go "php"; go "ruby"].

Definition LanguageCheck (val : gostring) : bool := bool_decide (val = []) || bool_decide (val ∈ languages).

Definition PortForwardCheck (val : gostring) : bool :=
  match GetPortForwardForString available val with Ok _ => true | Err _ => false end.

Definition PortCheck (val : Z) : bool :=
  match GetPortForwardForString available (Itoa val) with
  | Ok (l, r) => (l =? r)%Z
  | Err _ => false
  end.

(** A rule on a field: its name when it does not pass. *)
Definition rule (field : gostring) (t : tag) (pass : bool) : list (gostring * tag) :=
  if pass then [] else [(field, t)].

Definition under (field : gostring) (l : list (gostring * tag)) : list (gostring * tag) :=
  (fun '(g, t) => (field ++ go "." ++ g, t)) <$> l.

Definition item (field : gostring) (i : nat) : gostring := field ++ go "[" ++ Itoa (Z.of_nat i) ++ go "]".

Definition quota_errors (field : gostring) (q : option QuotaList) : list (gostring * tag) :=
  match q with
  | None => []
  | Some q => under field (rule (go "memory") TagQuantity (IsQuantity (Memory q)) ++
                           rule (go "cpu") TagQuantity (IsQuantity (Cpu q)))
  end.

(** The fields in the order of the structs; a nil pointer has no errors. *)
Definition dev_errors (v : valid_env) (d : ContainerDevConfig) : list (gostring * tag) :=
  rule (go "storageClass") TagStorageClass (StorageClassSupported v (StorageClass d)) ++
  match DevContainerResources d with
  | None => []
  | Some r => under (go "resources") (quota_errors (go "limits") (Limits r) ++ quota_errors (go "requests") (Requests r))
  end ++
  concat (imap (fun i p => under (item (go "persistentVolumeDirs") i)
                             (rule (go "capacity") TagQuantity (IsQuantity (pvd_Capacity p))))
            (PersistentVolumeDirs d)) ++
  match DebugConf d with
  | None => []
  | Some g => under (go "debug") (rule (go "remoteDebugPort") TagPort (PortCheck (RemoteDebugPort g)) ++
                                  rule (go "language") TagLanguage (LanguageCheck (Language g)))
  end ++
  match Sync d with
  | None => []
  | Some s => under (go "sync") (rule (go "type") TagSyncType (IsSyncType (sync_Type s)) ++
                                 rule (go "mode") TagSyncMode (IsSyncMode (sync_Mode s)))
  end ++
  concat (imap (fun i p => rule (item (go "portForward") i) TagPortForward (PortForwardCheck p)) (dev_PortForward d)).

Definition container_errors (v : valid_env) (c : ContainerConfig) : list (gostring * tag) :=
  rule (go "name") TagContainer (ContainerCheck v (cc_Name c)) ++
  match Dev c with None => [] | Some d => under (go "dev") (dev_errors v d) end.

(** [Validate]: the fields in error, in order. *)
Definition Validate (v : valid_env) (s : ServiceConfigV2) : list (gostring * tag) :=
  under (go "ServiceConfigV2")
    (rule (go "name") TagRequired (bool_decide (svc_Name s <> [])) ++
     rule (go "serviceType") TagRequired (bool_decide (svc_Type s <> [])) ++
     concat (imap (fun i c => under (item (go "containers") i) (container_errors v c)) (ContainerConfigs s))).
End validate.

(** ** Starting the configured port-forwards ([PortForwardAfterDevStart]) *)

Definition start_command (c : Controller) (podName : gostring) (localPort remotePort : Z) : PortForwardCommand :=
  mkCmd (c_ns c) (c_app c) (c_name c) (c_type c) podName localPort remotePort [] (c_nid c) ∅ [] [] [].

(** The start commands sent to the daemon; a text that is not accepted is
    skipped. *)
Definition PortForwardAfterDevStart (available : option Z) (c : Controller) (p : ServiceConfigV2)
    (podName containerName : gostring) : list PortForwardCommand :=
  match GetContainerDevConfigOrDefault p containerName with
  | None => []
  | Some cc =>
      omap (fun pf => match GetPortForwardForString available pf with
                      | Ok (l, r) => Some (start_command c podName l r)
                      | Err _ => None
                      end) (dev_PortForward cc)
  end.

(** ** Setting and getting a service *)

Section services.
Implicit Types (n : NocalHostAppConfigV2) (c x : ServiceConfigV2) (l : list ServiceConfigV2).

Lemma is_config_self c : is_config (svc_Name c) (svc_Type c) c = true.
Proof. unfold is_config. by rewrite !bool_decide_eq_true_2. Qed.

Lemma is_config_iff (name type : gostring) c :
  is_config name type c = true <-> (svc_Name c, svc_Type c) = (name, type).
Proof. unfold is_config. rewrite andb_true_iff, !bool_decide_eq_true. naive_solver. Qed.

(** The list [SetSvcConfigV2] leaves. *)
Definition set_services c l : list ServiceConfigV2 := default (l ++ [c]) (replace_config c l).

Lemma set_services_cons c x l :
  set_services c (x :: l) =
  if is_config (svc_Name c) (svc_Type c) x then c :: l else x :: set_services c l.
Proof. unfold set_services. cbn. destruct (is_config _ _ x); [done|]. by destruct (replace_config c l). Qed.

Lemma find_set c l : List.find (is_config (svc_Name c) (svc_Type c)) (set_services c l) = Some c.
Proof.
  induction l as [|x l IH]; [cbn; by rewrite is_config_self|]. rewrite set_services_cons.
  destruct (is_config (svc_Name c) (svc_Type c) x) eqn:E; cbn; [by rewrite is_config_self|by rewrite E].
Qed.

Lemma find_set_other c l (name type : gostring) :
  (name, type) <> (svc_Name c, svc_Type c) ->
  List.find (is_config name type) (set_services c l) = List.find (is_config name type) l.
Proof.
  intros Hne. assert (Hc : is_config name type c = false).
  { apply not_true_iff_false. rewrite is_config_iff. congruence. }
  induction l as [|x l IH]; [cbn; by rewrite Hc|]. rewrite set_services_cons.
  destruct (is_config (svc_Name c) (svc_Type c) x) eqn:E; cbn; [|by rewrite IH].
  rewrite Hc. destruct (is_config name type x) eqn:E'; [|done].
  apply is_config_iff in E, E'. congruence.
Qed.

Lemma set_services_idem c l : set_services c (set_services c l) = set_services c l.
Proof.
  induction l as [|x l IH]; [unfold set_services; cbn; by rewrite is_config_self|].
  rewrite set_services_cons. destruct (is_config _ _ x) eqn:E; rewrite set_services_cons.
  - by rewrite is_config_self.
  - by rewrite E, IH.
Qed.

Lemma SetSvcConfigV2_eq n c :
  svc_Name c <> [] -> svc_Type c <> [] ->
  SetSvcConfigV2 n c = with_services n (set_services c (ServiceConfigs (AppConfig n))).
Proof.
  intros Hn Ht. unfold SetSvcConfigV2, set_services. rewrite !bool_decide_eq_false_2 by done. cbn [orb].
  by destruct (replace_config c _).
Qed.

(** a service configuration that was set is the one found under its name and
    type; every other is found as before, and setting it again changes nothing. *)
Theorem svc_config_roundtrip n c :
  svc_Name c <> [] -> svc_Type c <> [] ->
  GetSvcConfigV2 (Some (SetSvcConfigV2 n c)) (svc_Name c) (svc_Type c) = Some c /\
  GetSvcConfigS (SetSvcConfigV2 n c) (svc_Name c) (svc_Type c) = c /\
  (forall name type, (name, type) <> (svc_Name c, svc_Type c) ->
     GetSvcConfigS (SetSvcConfigV2 n c) name type = GetSvcConfigS n name type) /\
  SetSvcConfigV2 (SetSvcConfigV2 n c) c = SetSvcConfigV2 n c.
Proof.
  intros Hn Ht. rewrite !(SetSvcConfigV2_eq _ c) by done. unfold GetSvcConfigV2, GetSvcConfigS. cbn [AppConfig with_services ServiceConfigs].
  rewrite find_set, set_services_idem. split_and!; [done|done| |done].
  intros name type Hne. by rewrite find_set_other.
Qed.
End services.

(** ** Paths in the order of their weights *)

(** the files of a weighted list are those that exist, in the order of their
    weights; a weight that is no number counts as zero. *)
Theorem paths_by_weight `{!GoSort} o f c :
  exists l, StronglySorted lighter l /\
    l ≡ₚ filter (fun w => CheckExist o (RelOrAbs o f (wp_Path w)) = true) c /\
    SortedRelPath_Load o f (Some c) = (fun w => Abs (RelOrAbs o f (wp_Path w))) <$> l.
Proof.
  exists (filter (fun w => CheckExist o (RelOrAbs o f (wp_Path w)) = true) (go_sort c)). split_and!.
  - generalize (go_sort_sorted c). induction 1 as [|w l _ IH Hall]; [constructor|]. rewrite filter_cons.
    destruct (decide _); [|done]. constructor; [done|]. apply Forall_forall. intros x [_ Hx]%list_elem_of_filter.
    rewrite Forall_forall in Hall. by apply Hall.
  - apply filter_Permutation, go_sort_perm.
  - unfold SortedRelPath_Load, load_paths. induction (go_sort c) as [|w l IH]; [done|].
    cbn [fmap list_fmap]. rewrite bind_cons, IH, filter_cons.
    destruct (CheckExist o (RelOrAbs o f (wp_Path w))) eqn:E.
    + by rewrite decide_True.
    + by rewrite decide_False.
Qed.

(** ** The names of containers *)

Lemma Split_lines_of names :
  Forall (fun x => "010"%char ∉ x) names -> Split (lines_of names) newline = names ++ [[]].
Proof.
  intros Hall. assert (E : lines_of names = Join (names ++ [[]]) newline).
  { clear Hall. unfold lines_of. induction names as [|x l IH]; [done|]. cbn [fmap list_fmap concat]. rewrite IH.
    change ((x :: l) ++ [[]]) with (x :: (l ++ [[]])). rewrite Join_cons by (by destruct l). by rewrite <- app_assoc. }
  rewrite E. apply Split_Join_single; [by destruct names|]. apply Forall_app. split; [done|].
  constructor; [apply not_elem_of_nil|constructor].
Qed.

(** once the containers of the workload are known, a container name passes
    exactly when it is one of theirs or empty. *)
Theorem container_rule classes containers v (name : gostring) :
  containers <> [] -> Forall (fun x => "010"%char ∉ x) containers ->
  ContainerCheck (PrepareForConfigurationValidate classes containers v) name = true <->
  name = [] \/ name ∈ containers.
Proof.
  intros Hc Hall. unfold PrepareForConfigurationValidate. rewrite bool_decide_eq_true_2 by done.
  assert (E : forall sc, ContainerCheck (mkValidEnv sc (Some (lines_of containers))) name = true <->
                         name = [] \/ name ∈ containers).
  { intros sc. unfold ContainerCheck, has_line. cbn [CONTAINERS]. rewrite bool_decide_eq_true, Split_lines_of by done.
    rewrite elem_of_app, list_elem_of_singleton. tauto. }
  destruct classes as [[l|]|]; apply E.
Qed.

(** ** Validation *)

Section valid.
Context (ParseQuantity : gostring -> bool).

Lemma under_nil field l : under field l = [] <-> l = [].
Proof. split; [by destruct l|by intros ->]. Qed.

Lemma rule_nil field t pass : rule field t pass = [] <-> pass = true.
Proof. unfold rule. by destruct pass. Qed.

Lemma concat_imap_nil {A B : Type} (g : nat -> A -> list B) (l : list A) :
  concat (imap g l) = [] <-> forall i x, l !! i = Some x -> g i x = [].
Proof.
  revert g. induction l as [|x l IH]; intros g; cbn.
  - split; [by intros _ i y|done].
  - rewrite app_nil, (IH (g ∘ S)). split.
    + intros [H1 H2] [|i] y; cbn; [by intros [= <-]|apply H2].
    + intros H. split; [by apply (H 0)|]. intros i y Hy. by apply (H (S i)).
Qed.

Lemma validated_container available v s c :
  Validate ParseQuantity available v s = [] -> c ∈ ContainerConfigs s ->
  container_errors ParseQuantity available v c = [].
Proof.
  unfold Validate. rewrite under_nil, !app_nil, concat_imap_nil. intros (_ & _ & H) [i Hi]%list_elem_of_lookup.
  by eapply under_nil, H.
Qed.

Lemma dev_config_container s containerName d :
  GetContainerDevConfigOrDefault s containerName = Some d -> exists c, c ∈ ContainerConfigs s /\ Dev c = Some d.
Proof.
  assert (Hdef : GetDefaultContainerDevConfig s = Some d -> exists c, c ∈ ContainerConfigs s /\ Dev c = Some d).
  { unfold GetDefaultContainerDevConfig. destruct (ContainerConfigs s) as [|c l]; [done|].
    intros E. exists c. split; [by left|done]. }
  unfold GetContainerDevConfigOrDefault, GetContainerDevConfig. case_bool_decide; [done|].
  destruct (List.find _ (ContainerConfigs s)) as [c|] eqn:E; [|done].
  apply find_some in E as [Hin _]. destruct (Dev c) as [d'|] eqn:Ed; [|done].
  intros [= <-]. exists c. by rewrite list_elem_of_In.
Qed.

(** The text of a port-forward is accepted whatever free port there is. *)
Lemma port_text_any available p q s l r :
  GetPortForwardForString available s = Ok (l, r) -> p = Some q -> (0 <= q <= 65535)%Z ->
  exists l' r', GetPortForwardForString p s = Ok (l', r') /\ (0 <= l' <= 65535)%Z.
Proof.
  intros H -> Hq. unfold GetPortForwardForString in *. destruct (Split s (go ":")) as [|s0 [|s1 rest]]; [done| |].
  - destruct (Atoi s) as [port|]; [|done]. destruct ((65535 <? port) || (port <? 0))%Z eqn:E; [done|].
    exists port, port. split; [done|]. lia.
  - case_bool_decide.
    + destruct available as [a|]; [|done]. destruct (Atoi s1) as [b|]; [|done].
      assert (Eq : ((65535 <? q) || (q <? 0))%Z = false) by lia. rewrite Eq.
      destruct ((65535 <? a) || (a <? 0))%Z; [done|].
      destruct (65535 <? b)%Z; cbn [orb] in *; [done|]. assert (Eq' : (q <? 0)%Z = false) by lia. rewrite Eq'.
      by exists q, b.
    + destruct (Atoi s0) as [a|]; [|done]. destruct (Atoi s1) as [b|]; [|done].
      destruct ((65535 <? a) || (a <? 0))%Z eqn:Ea; [done|].
      destruct ((65535 <? b) || (a <? 0))%Z eqn:Eb; [done|]. exists a, b. split; [done|]. lia.
Qed.

(** for a configuration that was validated, entering dev mode asks the
    daemon for every port-forward of the container, in order, each on a local
    port between 0 and 65535: none is skipped. *)
Theorem validated_forwards_start available q v s c podName containerName d :
  Validate ParseQuantity available v s = [] ->
  GetContainerDevConfigOrDefault s containerName = Some d -> (0 <= q <= 65535)%Z ->
  Forall2 (fun text cmd => exists l r, GetPortForwardForString (Some q) text = Ok (l, r) /\
             (0 <= l <= 65535)%Z /\ cmd = start_command c podName l r)
    (dev_PortForward d) (PortForwardAfterDevStart (Some q) c s podName containerName).
Proof.
  intros Hv Hd Hq. unfold PortForwardAfterDevStart. rewrite Hd.
  destruct (dev_config_container s containerName d Hd) as (cc & Hin & Ed).
  pose proof (validated_container available v s cc Hv Hin) as Hc. unfold container_errors in Hc.
  rewrite Ed, app_nil, under_nil in Hc. destruct Hc as [_ Hc]. unfold dev_errors in Hc.
  rewrite !app_nil, (concat_imap_nil _ (dev_PortForward d)) in Hc. destruct Hc as (_ & _ & _ & _ & _ & Hc).
  assert (Hall : Forall (fun text => PortForwardCheck available text = true) (dev_PortForward d)).
  { apply Forall_lookup. intros i x Hi. by eapply rule_nil, Hc. }
  clear Hc Hd Ed. induction Hall as [|text l Ht _ IH]; [constructor|].
  unfold PortForwardCheck in Ht. destruct (GetPortForwardForString available text) as [[a b]|] eqn:E; [|done].
  destruct (port_text_any available (Some q) q text a b E eq_refl Hq) as (l' & r' & E' & Hl).
  cbn [omap list_omap]. rewrite E'. constructor; [by exists l', r'|exact IH].
Qed.

(** *** Converted configurations *)

Lemma find_converted (name type : gostring) l :
  List.find (is_config name type) (convertServiceConfigV1ToV2 <$> l) =
  convertServiceConfigV1ToV2 <$>
    List.find (fun o => bool_decide (v1_Name o = name) && bool_decide (v1_Type o = type)) l.
Proof.
  induction l as [|o l IH]; [done|]. cbn [fmap list_fmap List.find]. unfold is_config at 1. cbn [svc_Name svc_Type convertServiceConfigV1ToV2].
  destruct (bool_decide (v1_Name o = name) && bool_decide (v1_Type o = type)); [done|apply IH].
Qed.

Definition quota_texts (q : option QuotaList) : list gostring :=
  match q with Some q => [Memory q; Cpu q] | None => [] end.

(** The quantities in the options of a service. *)
Definition v1_quantities (o : ServiceDevOptions) : list gostring :=
  match v1_Resources o with
  | Some r => quota_texts (Limits r) ++ quota_texts (Requests r)
  | None => []
  end ++ (pvd_Capacity <$> v1_PersistentVolumeDirs o).

Lemma quota_errors_nil field q :
  Forall (fun x => IsQuantity ParseQuantity x = true) (quota_texts q) -> quota_errors ParseQuantity field q = [].
Proof.
  destruct q as [[me cp]|]; [|done]. cbn. intros [H1 [H2 _]%Forall_cons]%Forall_cons. by rewrite H1, H2.
Qed.

(** converting an older configuration keeps each service under its name and
    type, with its ports for whatever container is developed, and a converted
    service passes validation when its name and type are there, its quantities
    parse and its ports are accepted. *)
Theorem converted_service n v1 o available v :
  convertConfigV1ToV2 (Some n) = Some v1 ->
  List.find (fun x => bool_decide (v1_Name x = v1_Name o) && bool_decide (v1_Type x = v1_Type o)) (SvcConfigs n) = Some o ->
  ContainerCheck v [] = true ->
  let s := GetSvcConfigS v1 (v1_Name o) (v1_Type o) in
  (forall c podName containerName, PortForwardAfterDevStart available c s podName containerName =
     omap (fun pf => match GetPortForwardForString available pf with
                     | Ok (l, r) => Some (start_command c podName l r)
                     | Err _ => None
                     end) (DevPort o)) /\
  (v1_Name o <> [] -> v1_Type o <> [] ->
   Forall (fun x => IsQuantity ParseQuantity x = true) (v1_quantities o) ->
   Forall (fun x => PortForwardCheck available x = true) (DevPort o) ->
   Validate ParseQuantity available v s = []).
Proof.
  intros [= <-] Hfind Hcc. unfold GetSvcConfigS. cbn [AppConfig ServiceConfigs]. rewrite find_converted, Hfind.
  cbn [fmap option_fmap option_map]. split.
  - intros c podName containerName. unfold PortForwardAfterDevStart, GetContainerDevConfigOrDefault.
    assert (E : GetDefaultContainerDevConfig (convertServiceConfigV1ToV2 o) =
                GetContainerDevConfig (convertServiceConfigV1ToV2 o) []) by done.
    case_bool_decide as Hn; [done|]. unfold GetContainerDevConfig at 1. cbn [ContainerConfigs convertServiceConfigV1ToV2 List.find cc_Name].
    rewrite bool_decide_eq_false_2 by done. done.
  - intros Hn Ht Hq Hp. unfold Validate. rewrite under_nil. cbn [svc_Name svc_Type convertServiceConfigV1ToV2 ContainerConfigs].
    rewrite !bool_decide_eq_true_2 by done. cbn [rule app]. apply concat_imap_nil. intros i c Hi.
    apply list_lookup_singleton_Some in Hi as [-> <-]. rewrite under_nil. unfold container_errors.
    cbn [cc_Name Dev]. rewrite Hcc. cbn [rule app]. rewrite under_nil. unfold dev_errors. cbn -[under rule IsQuantity StorageClassSupported].
    apply Forall_app in Hq as [Hr Hpv].
    rewrite !app_nil. split_and!.
    + apply rule_nil. unfold StorageClassSupported. by destruct (SUPPORT_SC v).
    + destruct (v1_Resources o) as [r|]; [|done]. apply Forall_app in Hr as [H1 H2].
      by rewrite under_nil, app_nil, !quota_errors_nil.
    + apply concat_imap_nil. intros i p Hp'. rewrite under_nil, rule_nil.
      rewrite Forall_fmap, Forall_lookup in Hpv. by eapply Hpv.
    + done.
    + apply concat_imap_nil. intros i x Hx. apply rule_nil. rewrite Forall_lookup in Hp. by eapply Hp.
Qed.
End valid.

(** ** Witnesses *)

Section demo.

#[export] Instance lighter_dec : RelDecision lighter.
Proof. intros a b. unfold lighter. apply _. Defined.

#[local] Instance lighter_total : Total lighter.
Proof. intros a b. unfold lighter. lia. Qed.

#[local] Instance lighter_trans : Transitive lighter.
Proof. intros a b c. unfold lighter. lia. Qed.

(** A stable sort is one. *)
#[export] Instance merge_go_sort : GoSort := {|
  go_sort := merge_sort lighter;
  go_sort_perm := merge_sort_Permutation lighter;
  go_sort_sorted := StronglySorted_merge_sort lighter
|}.

Definition demo_dev : ContainerDevConfig :=
  mkDev [] [] [] [] [] [] [] None [] None None false false None [] None [go "8080:80"; go ":90"] [] [].

Definition demo_service : ServiceConfigV2 :=
  mkSvcConfig (go "web") (go "deployment") [] None [mkContainer [] None None (Some demo_dev)].

Definition demo_config : NocalHostAppConfigV2 := mkConfig (go "v2") [] true (mkAppConfig [] [] [] [] [] [] [] [] [] [] [] [] [] [] []).

Lemma svc_config_roundtrip_witness :
  GetSvcConfigS (SetSvcConfigV2 demo_config demo_service) (go "web") (go "deployment") = demo_service.
Proof. apply (svc_config_roundtrip demo_config demo_service); discriminate. Defined.

Lemma validated_forwards_start_witness :
  length (PortForwardAfterDevStart (Some 5000%Z) web demo_service (go "web-1") (go "main")) = 2.
Proof.
  erewrite <- (Forall2_length _ _ _ (validated_forwards_start (fun _ => true) (Some 4000%Z) 5000
    (mkValidEnv None (Some (lines_of [go "main"]))) demo_service web (go "web-1") (go "main") demo_dev
    ltac:(vm_compute; reflexivity) eq_refl ltac:(lia))).
  reflexivity.
Defined.

Lemma container_rule_witness :
  ContainerCheck (PrepareForConfigurationValidate None [go "main"] (mkValidEnv None None)) (go "main") = true.
Proof.
  apply (container_rule None [go "main"] (mkValidEnv None None)); [discriminate| |right; left].
  constructor; [|constructor]. apply (bool_decide_unpack _). vm_compute. exact I.
Defined.

Definition demo_options : ServiceDevOptions :=
  mkOptions (go "web") (go "deployment") [] [] [] [] [] [] [] [] [] [] [] [] None [go "8080:80"] [] [] [] [].

Lemma converted_service_witness :
  Validate (fun _ => true) None (mkValidEnv None None)
    (GetSvcConfigS (mkConfig (go "v2") [] false (mkAppConfig [] [] [] [] [] [] [] [] [] [] [] [] [] [convertServiceConfigV1ToV2 demo_options] []))
       (go "web") (go "deployment")) = [].
Proof.
  apply (converted_service (fun _ => true) (mkConfigV1 [] [] [demo_options] [] [] [])
    (mkConfig (go "v2") [] false (mkAppConfig [] [] [] [] [] [] [] [] [] [] [] [] [] [convertServiceConfigV1ToV2 demo_options] []))
    demo_options None (mkValidEnv None None)).
  - reflexivity.
  - reflexivity.
  - reflexivity.
  - discriminate.
  - discriminate.
  - constructor.
  - repeat constructor.
Defined.
End demo.
