(* ===== verification/ConfigLoad.v ===== *)
(** * Loading a configuration ([internal/nhctl/app/build.go], [application.go])

    A configuration is a template: it is rendered, parsed as YAML, the paths of
    its env files are made absolute by the comments the renderer leaves, the env
    files are read into the environments, and a service is looked up in it.  A
    configuration comes from a text (an annotation or a config map) or from a
    local file, which names an env file of its own and may be of the first
    version.

    The YAML libraries are parameters.  What they leave in a list when an entry
    is of the wrong type is part of their answer, since the code goes on with
    it. *)

From S2P Require Import Prelude GoStrings EnvLex FilePath EnvParse DevDir AppMeta Search Profile PortForward Config.
#[local] Open Scope go_scope.

(** A call that can fail, panic or loop. *)
Notation "x <-? c1 ; c2" :=
  (match c1 with
   | Done (Ok x) => c2
   | Done (Err e) => Done (Err e)
   | Panic => Panic
   | Fuel => Fuel
   end)
  (at level 100, c1 at next level, right associativity) : go_scope.

(** ** YAML *)

(** The nodes of a YAML document, with the fields read here and the others in
    [n_rest]. *)
Inductive node := mkNode {
  n_Tag : gostring;
  n_Value : gostring;
  HeadComment : gostring;
  FootComment : gostring;
  n_rest : gostring;
  Content : list node
}.

(** [unmarshal_svcs] and [unmarshal_svc] return what was filled in and whether
    there was no error, [unmarshal_version] what was filled in. *)
Class ConfigYaml := {
  unmarshal_svcs : gostring -> list ServiceConfigV2 * bool;
  unmarshal_svc : gostring -> ServiceConfigV2 * bool;
  unmarshal_version : gostring -> gostring;
  unmarshal_v1 : gostring -> option NocalHostAppConfig;
  marshal_v2 : NocalHostAppConfigV2 -> gostring;
  unmarshal_node : gostring -> option node;
  node_Decode : node -> NocalHostAppConfigV2
}.

(** ** Env files of the configuration *)

Section envfiles.
Context `{!MapOrder gostring} (o : OS).

Definition mergeMap (front : gmap gostring gostring) (back : option (gmap gostring gostring))
    : gmap gostring gostring :=
  match back with
  | Some back => foldl (fun front '(k, v) => <[k := v]> front) front (range back)
  | None => front
  end.

Definition getEnvFromEnvFileArr (envFiles : list gostring) : gmap gostring gostring :=
  foldl (fun envs path => mergeMap envs (ReadEnvFileKV o (Some (NewFilePath o path)))) ∅ envFiles.

(** The variables of the env files, then those written out. *)
Definition joined_env (envFiles : list gostring) (env : list (gostring * gostring)) : list (gostring * gostring) :=
  range (getEnvFromEnvFileArr envFiles) ++ env.

Definition dev_with_env (d : ContainerDevConfig) : ContainerDevConfig :=
  match dev_EnvFrom d with
  | None => d
  | Some envFiles =>
      mkDev (GitUrl d) (Image d) (ImagePullPolicy d) (Shell d) (WorkDir d) (StorageClass d) (DevContainerName d)
        (DevContainerResources d) (PersistentVolumeDirs d) (Command d) (DebugConf d) (HotReload d)
        (UseDevContainer d) (Sync d) (joined_env envFiles (dev_Env d)) None (dev_PortForward d) (SidecarImage d)
        (Patches d)
  end.

Definition install_with_env (i : ContainerInstallConfig) : ContainerInstallConfig :=
  mkInstall (joined_env (inst_EnvFrom i) (inst_Env i)) [] (inst_PortForward i).

Definition parseEnvFromIntoEnvForSvcConfig (s : ServiceConfigV2) : ServiceConfigV2 :=
  mkSvcConfig (svc_Name s) (svc_Type s) (PriorityClass s) (DependSelector s)
    ((fun c => mkContainer (cc_Name c) (Hub c) (install_with_env <$> Install c) (dev_with_env <$> Dev c))
       <$> ContainerConfigs s).

Definition parseEnvFromIntoEnv (n : NocalHostAppConfigV2) : NocalHostAppConfigV2 :=
  let a := AppConfig n in
  mkConfig (Version n) (EnvFile n) (Migrated n)
    (mkAppConfig (app_Name a) (app_Type a) (ResourcePath a) (IgnoredPath a) (PreInstall a)
       (PostInstall a) (PreUpgrade a) (PostUpgrade a) (PreDelete a) (PostDelete a) (HelmVersion a)
       (joined_env (app_EnvFrom a) (app_Env a)) [] (parseEnvFromIntoEnvForSvcConfig <$> ServiceConfigs a)
       (app_rest a)).

(** *** Their paths *)

Definition includeComment (comment : gostring) : option FilePathEnhance :=
  foldl (fun lastFp text =>
           if HasPrefix text AbsSign then Some (NewFilePath o (TrimSpace (TrimPrefix text AbsSign))) else lastFp)
    None (Split comment newline).

(** The depth a node's own children are searched at. *)
Definition child_depth (envFilePathDepth : nat) (tag : gostring) : nat :=
  if (envFilePathDepth =? 1) && bool_decide (tag = go "!!seq") then 2
  else if (envFilePathDepth =? 2) && bool_decide (tag = go "!!map") then 3
  else envFilePathDepth - 1.

(** The path of an env file, relative to the directory of the file it was
    written in. *)
Definition resolved (currentPath : FilePathEnhance) (value : gostring) : gostring :=
  Abs (RelOrAbs o (RelOrAbs o currentPath (go "../")) value).

Fixpoint doParseNode (n : node) (currentPath : FilePathEnhance) (envFilePathDepth : nat) (nowHit : bool) {struct n}
    : node * FilePathEnhance :=
  match n with
  | mkNode tag value hc fc rest content =>
      let currentPath := default currentPath (includeComment hc) in
      let value := if nowHit then resolved currentPath value else value in
      let '(content, currentPath) :=
        (fix children (l : list node) (currentPath : FilePathEnhance) (depth : nat) (hit : bool)
           : list node * FilePathEnhance :=
           match l with
           | [] => ([], currentPath)
           | n :: l =>
               let '(n, currentPath) := doParseNode n currentPath depth hit in
               let depth := if bool_decide (n_Value n = go "envFile") then 1 else depth in
               let hit := (depth =? 3) && bool_decide (n_Value n = go "path") in
               let '(l, currentPath) := children l currentPath depth hit in
               (n :: l, currentPath)
           end) content currentPath (child_depth envFilePathDepth tag) false in
      (mkNode tag value hc fc rest content, default currentPath (includeComment fc))
  end.

Context `{!ConfigYaml}.

Definition parseNocalhostConfigEnvFile (yAml : gostring) (currentPath : FilePathEnhance) : option node :=
  n ← unmarshal_node yAml; Some (fst (doParseNode n currentPath 0 false)).

(** *** The env file of a local configuration *)

(** The expression [^["'](.*)["']$]. *)
Definition quote_char (c : ascii) : bool := bool_decide (c = "034"%char) || bool_decide (c = "039"%char).

Definition unquoted (value : gostring) : gostring :=
  match value with
  | c :: rest =>
      match last rest with
      | Some c' => if quote_char c && quote_char c' then take (length rest - 1) rest else value
      | None => value
      end
  | [] => value
  end.

(** The loop; the slice [text[11:]] panics on a line that is too short. *)
Fixpoint env_file_loop (startMatch : bool) (ls : list gostring) : outcome gostring :=
  match ls with
  | [] => Done []
  | text :: ls =>
      let pureText := TrimSpace text in
      if HasPrefix text (go "configProperties:") then env_file_loop true ls
      else if startMatch && HasPrefix text (go " ") then
        if HasPrefix pureText (go "envFile: ") then
          if length text <? 11 then Panic else Done (unquoted (TrimSpace (drop 11 text)))
        else env_file_loop startMatch ls
      else if bool_decide (pureText = []) then env_file_loop startMatch ls
      else if HasPrefix pureText (go "#") then env_file_loop startMatch ls
      else env_file_loop false ls
  end.

(** A file that cannot be opened ends the program. *)
Definition gettingRenderEnvFile (path : gostring) : outcome gostring :=
  match files o !! path with
  | None => Panic
  | Some c => env_file_loop false (scan_lines c)
  end.
End envfiles.

(** ** Rendering *)

Inductive RenderItem :=
  | TextRenderItem (text : gostring)
  | LocalFileRenderItem (f : FilePathEnhance).

Definition GetContent (o : OS) (item : RenderItem) : gostring :=
  match item with
  | TextRenderItem text => text
  | LocalFileRenderItem f => snd (ReadFile o f)
  end.

Definition GetLocation (item : RenderItem) : gostring :=
  match item with
  | TextRenderItem _ => []
  | LocalFileRenderItem f => Abs f
  end.

Section render.
Context `{!UnicodeTables, !MapOrder gostring, !ConfigYaml}.

(** The process environment, the bound on nested includes, and a temporary
    directory, or the failure to create it. *)
Record render_env := mkRenderEnv {
  environ : list gostring;
  include_depth : nat;
  TempDir : option gostring
}.

Context (e : render_env).

Definition render_item (o : OS) (item : RenderItem) (envFile : option FilePathEnhance)
    : outcome (res gostring gostring) :=
  Render o (environ e) envFile (include_depth e) (GetContent o item) (GetLocation item).

Definition RenderConfigForSvc (o : OS) (item : RenderItem) : outcome (res gostring (list ServiceConfigV2)) :=
  renderedStr <-? render_item o item None;
  let '(renderedConfig, ok) := unmarshal_svcs renderedStr in
  if ok : bool then Done (Ok renderedConfig)
  else
    let '(single, ok) := unmarshal_svc renderedStr in
    Done (Ok (if ok && ((0 <? length (ContainerConfigs single)) || bool_decide (is_Some (DependSelector single)))
              then renderedConfig ++ [single] else renderedConfig)).

(** [checkConfigVersion]. *)
Definition checkConfigVersion (content : gostring) : gostring :=
  let v := unmarshal_version content in if bool_decide (v = []) then go "v1" else v.

Definition DefaultApplicationConfigV2Path : gostring := go ".config_v2.yaml".

Definition write_file (o : OS) (path content : gostring) : OS :=
  {| files := <[path := content]> (files o); cwd := cwd o; FilePath.home := FilePath.home o;
     read_error := read_error o |}.

(** The file system with the converted file; the other errors are those of
    reading and parsing the old one. *)
Definition ConvertConfigFileV1ToV2 (o : OS) (srcFile destFile : gostring) : res gostring OS :=
  bytes <-! os_read o srcFile;
  match unmarshal_v1 bytes with
  | None => Err (go "yaml")
  | Some v1 =>
      match convertConfigV1ToV2 (Some v1) with
      | None => Err (go "V1 config can not be nil")
      | Some v2 => Ok (write_file o destFile (marshal_v2 v2))
      end
  end.

(** The rendered text; that of a file of the first version is the rendering of
    its conversion, which is removed at the end. *)
Definition render_local (o : OS) (f : FilePathEnhance) : outcome (res gostring gostring) :=
  let item := LocalFileRenderItem f in
  let configFileLocation := GetLocation item in
  let configFile := NewFilePath o configFileLocation in
  relPath <~ gettingRenderEnvFile o configFileLocation;
  let envFile := if bool_decide (relPath <> [])
                 then Some (RelOrAbs o (RelOrAbs o configFile (go "../")) relPath) else None in
  renderedStr <-? render_item o item envFile;
  if bool_decide (checkConfigVersion renderedStr = go "v1") then
    match TempDir e with
    | None => Done (Err (go "Fail to create tmp dir"))
    | Some v2TmpDir =>
        let v2Path := v2TmpDir ++ slash ++ DefaultApplicationConfigV2Path in
        match ConvertConfigFileV1ToV2 o configFileLocation v2Path with
        | Err err => Done (Err err)
        | Ok o' => render_item o' (LocalFileRenderItem (NewFilePath o' v2Path)) envFile
        end
    end
  else Done (Ok renderedStr).

(** The last service of each name, in the order a map of the names is ranged
    over. *)
Definition name_index (l : list ServiceConfigV2) : gmap gostring nat :=
  foldl (fun maps '(i, config) => <[svc_Name config := i]> maps) ∅ (imap pair l).

Definition last_services (l : list ServiceConfigV2) : list ServiceConfigV2 :=
  omap (fun '(_, i) => l !! i) (range (name_index l)).

Definition RenderConfig (o : OS) (item : RenderItem) : outcome (res gostring NocalHostAppConfigV2) :=
  renderedStr <-? match item with
                  | LocalFileRenderItem f =>
                      if bool_decide (GetLocation item = []) then render_item o item None else render_local o f
                  | TextRenderItem _ => render_item o item None
                  end;
  match parseNocalhostConfigEnvFile o renderedStr (NewFilePath o (GetLocation item)) with
  | None => Done (Err (go "yaml"))
  | Some n =>
      let config := parseEnvFromIntoEnv o (node_Decode n) in
      Done (Ok (with_services config (last_services (ServiceConfigs (AppConfig config)))))
  end.

(** ** The configuration of a service ([application.go]) *)

Definition set_name_type (s : ServiceConfigV2) (svcName svcType : gostring) : ServiceConfigV2 :=
  mkSvcConfig svcName svcType (PriorityClass s) (DependSelector s) (ContainerConfigs s).

Definition doLoadProfileFromSvcConfig (o : OS) (item : RenderItem) (svcName svcType : gostring)
    : outcome (res gostring ServiceConfigV2) :=
  config <-? RenderConfigForSvc o item;
  match config with
  | [s] =>
      if bool_decide (svc_Name s = []) then Done (Ok (set_name_type s svcName svcType))
      else if is_config svcName svcType s then Done (Ok s)
      else Done (Err (go "Local config loaded, but no valid config found"))
  | _ =>
      match List.find (is_config svcName svcType) config with
      | Some s => Done (Ok s)
      | None => Done (Err (go "Local config loaded, but no valid config found"))
      end
  end.

Definition doLoadProfileFromAppConfig (o : OS) (item : RenderItem) (svcName svcType : gostring)
    : outcome (res gostring (NocalHostAppConfigV2 * option ServiceConfigV2)) :=
  appConfig <-? RenderConfig o item;
  Done (Ok (appConfig, GetSvcConfigV2 (Some appConfig) svcName svcType)).

(** The application's configuration, when that is what it is, and the
    service's. *)
Definition LoadSvcCfgFromStrIfValid (o : OS) (config svcName svcType : gostring)
    : outcome (res gostring (option NocalHostAppConfigV2 * option ServiceConfigV2)) :=
  r <~ doLoadProfileFromSvcConfig o (TextRenderItem config) svcName svcType;
  match r with
  | Ok svcCfg => Done (Ok (None, Some svcCfg))
  | Err _ =>
      r <~ doLoadProfileFromAppConfig o (TextRenderItem config) svcName svcType;
      match r with
      | Ok (appCfg, svcCfg) => Done (Ok (Some appCfg, svcCfg))
      | Err _ => Done (Err (go "can not load cfg, may has syntax error, Content: " ++ config))
      end
  end.
End render.

(** ** Theorems *)

(** *** Variables of env files *)

(** The value a container sees of a variable that is set more than once: the
    last. *)
Definition effective (env : list (gostring * gostring)) (x : gostring) : option gostring :=
  snd <$> last (filter (fun kv => fst kv = x) env).

Section envs.
Context `{!MapOrder gostring}.

(** The value the last of the env files that set a variable gives it. *)
Definition file_value (o : OS) (envFiles : list gostring) (x : gostring) : option gostring :=
  last (omap (fun path => ReadEnvFileKV o (Some (NewFilePath o path)) ≫= lookup x) envFiles).

Lemma mergeMap_lookup front back x :
  mergeMap front back !! x = match back ≫= lookup x with Some v => Some v | None => front !! x end.
Proof.
  destruct back as [back|]; [|done]. unfold mergeMap. cbn [mbind option_bind].
  rewrite (foldl_insert_lookup (fun v => v)) by apply NoDup_range_fst. rewrite find_range.
  by destruct (back !! x).
Qed.

Lemma env_files_lookup o envFiles x : getEnvFromEnvFileArr o envFiles !! x = file_value o envFiles x.
Proof.
  unfold getEnvFromEnvFileArr, file_value.
  induction envFiles as [|path l IH] using rev_ind; [apply lookup_empty|].
  rewrite foldl_app, omap_app. cbn [foldl omap list_omap]. rewrite mergeMap_lookup, IH.
  destruct (ReadEnvFileKV o (Some (NewFilePath o path)) ≫= lookup x) as [v|].
  - by rewrite last_snoc.
  - by rewrite app_nil_r.
Qed.

Lemma effective_app env env' x :
  effective (env ++ env') x = match effective env' x with Some v => Some v | None => effective env x end.
Proof.
  unfold effective. rewrite filter_app, last_app. by destruct (last (filter _ env')) as [[]|].
Qed.

Lemma effective_range (m : gmap gostring gostring) x : effective (range m) x = m !! x.
Proof.
  unfold effective. assert (Hperm := range_perm m). assert (Hnd := NoDup_range_fst m).
  destruct (m !! x) as [v|] eqn:E.
  - assert (Hf : filter (fun kv => fst kv = x) (range m) ≡ₚ [(x, v)]).
    { apply NoDup_Permutation; [by apply NoDup_filter, (NoDup_fmap_1 fst)|apply NoDup_singleton|].
      intros [k w]. rewrite list_elem_of_filter, elem_of_range, list_elem_of_singleton. cbn. naive_solver. }
    apply Permutation_singleton_r in Hf. by rewrite Hf.
  - assert (Hf : filter (fun kv => fst kv = x) (range m) = []).
    { apply filter_none. intros [k w] Hin%elem_of_range. cbn. intros ->. congruence. }
    by rewrite Hf.
Qed.

Lemma joined_effective o envFiles env x :
  effective (joined_env o envFiles env) x =
  match effective env x with Some v => Some v | None => file_value o envFiles x end.
Proof. unfold joined_env. by rewrite effective_app, effective_range, env_files_lookup. Qed.

(** The variables a configuration writes out take precedence over those of its
    env files, and of the env files the last one wins, for the application, for
    the installation and for the development of a container. *)
Theorem env_precedence o n x :
  (effective (app_Env (AppConfig (parseEnvFromIntoEnv o n))) x =
   match effective (app_Env (AppConfig n)) x with
   | Some v => Some v | None => file_value o (app_EnvFrom (AppConfig n)) x end) /\
  (forall i, effective (inst_Env (install_with_env o i)) x =
   match effective (inst_Env i) x with Some v => Some v | None => file_value o (inst_EnvFrom i) x end) /\
  (forall d, effective (dev_Env (dev_with_env o d)) x =
   match effective (dev_Env d) x with
   | Some v => Some v | None => dev_EnvFrom d ≫= fun l => file_value o l x end).
Proof.
  split_and!; intros; [apply joined_effective..|].
  unfold dev_with_env. destruct (dev_EnvFrom d) as [l|]; [apply joined_effective|]. by destruct (effective _ x).
Qed.
End envs.

(** *** Services of a name *)

Section services.
Context `{!MapOrder gostring}.
Implicit Types l : list ServiceConfigV2.

Lemma imap_snoc {A B : Type} (f : nat -> A -> B) (k : list A) (x : A) :
  imap f (k ++ [x]) = imap f k ++ [f (length k) x].
Proof. rewrite imap_app. cbn. by rewrite Nat.add_0_r. Qed.

Lemma name_index_snoc l c : name_index (l ++ [c]) = <[svc_Name c := length l]> (name_index l).
Proof. unfold name_index. by rewrite imap_snoc, foldl_app. Qed.

Lemma name_index_bound l name i : name_index l !! name = Some i -> i < length l.
Proof.
  revert i. induction l as [|c l IH] using rev_ind; intros i; [done|].
  rewrite name_index_snoc, length_app. cbn. intros [[_ <-]|[_ H%IH]]%lookup_insert_Some; lia.
Qed.

Definition last_named l (name : gostring) : option ServiceConfigV2 := last (filter (fun c => svc_Name c = name) l).

Lemma name_index_lookup l name : name_index l !! name ≫= (l !!.) = last_named l name.
Proof.
  unfold last_named. induction l as [|c l IH] using rev_ind; [done|].
  rewrite name_index_snoc, filter_app. destruct (decide (svc_Name c = name)) as [E|E].
  - rewrite <- E, lookup_insert_eq. cbn [mbind option_bind]. rewrite list_lookup_middle by done.
    rewrite filter_cons_True, filter_nil, last_snoc by done. done.
  - rewrite lookup_insert_ne by done. rewrite filter_cons_False, filter_nil, app_nil_r by done. rewrite <- IH.
    destruct (name_index l !! name) as [i|] eqn:Ei; [|done]. cbn [mbind option_bind].
    apply lookup_app_l. by eapply name_index_bound.
Qed.

Lemma last_named_name l name c : last_named l name = Some c -> svc_Name c = name.
Proof.
  unfold last_named. intros H. assert (Hin : c ∈ filter (fun c => svc_Name c = name) l) by by apply last_Some_elem_of.
  by apply list_elem_of_filter in Hin as [? _].
Qed.

Lemma elem_of_last_services l c : c ∈ last_services l <-> last_named l (svc_Name c) = Some c.
Proof.
  unfold last_services. rewrite list_elem_of_omap. split.
  - intros ([name i] & Hin%elem_of_range & Hi).
    assert (Hn : last_named l name = Some c) by by rewrite <- name_index_lookup, Hin.
    by rewrite (last_named_name l name c Hn).
  - intros Hn. rewrite <- name_index_lookup in Hn. destruct (name_index l !! svc_Name c) as [i|] eqn:Ei; [|done].
    exists (svc_Name c, i). split; [by apply elem_of_range|done].
Qed.

Lemma find_last_services l name type :
  List.find (is_config name type) (last_services l) =
  c ← last_named l name; if bool_decide (svc_Type c = type) then Some c else None.
Proof.
  destruct (List.find _ _) as [c|] eqn:Ef.
  - apply find_some in Ef as [Hin%list_elem_of_In Hc]. apply elem_of_last_services in Hin.
    unfold is_config in Hc. apply andb_true_iff in Hc as [<-%bool_decide_eq_true Ht].
    rewrite Hin. cbn [mbind option_bind]. by rewrite Ht.
  - destruct (last_named l name) as [c|] eqn:En; [|done]. cbn [mbind option_bind]. case_bool_decide as Ht; [|done].
    pose proof (last_named_name l name c En) as Hname.
    assert (Hin : c ∈ last_services l) by (apply elem_of_last_services; by rewrite Hname).
    apply list_elem_of_In in Hin. apply (find_none _ _ Ef) in Hin. unfold is_config in Hin.
    by rewrite !bool_decide_eq_true_2 in Hin.
Qed.
End services.

(** *** Paths of env files *)

Section nodes.
Context (o : OS).

Lemma node_nested_ind (P : node -> Prop) :
  (forall tag value hc fc rest content, Forall P content -> P (mkNode tag value hc fc rest content)) ->
  forall n, P n.
Proof.
  intros H. fix IH 1. intros [tag value hc fc rest content]. apply H.
  induction content as [|n l IHl]; constructor; [apply IH|exact IHl].
Qed.

(** The loop of [doParseNode] over the children. *)
Fixpoint parse_children (l : list node) (currentPath : FilePathEnhance) (depth : nat) (hit : bool)
    : list node * FilePathEnhance :=
  match l with
  | [] => ([], currentPath)
  | n :: l =>
      let '(n, currentPath) := doParseNode o n currentPath depth hit in
      let depth := if bool_decide (n_Value n = go "envFile") then 1 else depth in
      let hit := (depth =? 3) && bool_decide (n_Value n = go "path") in
      let '(l, currentPath) := parse_children l currentPath depth hit in
      (n :: l, currentPath)
  end.

Lemma doParseNode_eq tag value hc fc rest content cp depth hit :
  doParseNode o (mkNode tag value hc fc rest content) cp depth hit =
  let cp := default cp (includeComment o hc) in
  let '(content, cp') := parse_children content cp (child_depth depth tag) false in
  (mkNode tag (if hit then resolved o cp value else value) hc fc rest content,
   default cp' (includeComment o fc)).
Proof. reflexivity. Qed.

Lemma no_comment : includeComment o [] = None.
Proof. reflexivity. Qed.

(** The key [envFile] occurs in a document. *)
Fixpoint has_env_file (n : node) : bool :=
  match n with
  | mkNode _ value _ _ _ content => bool_decide (value = go "envFile") || existsb has_env_file content
  end.

Lemma parse_unchanged n cp : has_env_file n = false -> fst (doParseNode o n cp 0 false) = n.
Proof.
  revert cp. induction n as [tag value hc fc rest content IH] using node_nested_ind. intros cp Hn.
  rewrite doParseNode_eq. cbn [has_env_file] in Hn. apply orb_false_iff in Hn as [_ Hn].
  replace (child_depth 0 tag) with 0 by done. cbv zeta. generalize (default cp (includeComment o hc)). clear cp. intros cp.
  assert (E : fst (parse_children content cp 0 false) = content).
  { revert cp. induction IH as [|n l Hhead _ IHl]; intros cp; [done|]. cbn [existsb] in Hn.
    apply orb_false_iff in Hn as [H1 H2]. cbn [parse_children]. pose proof (Hhead cp H1) as E.
    destruct (doParseNode o n cp 0 false) as [n' cp'] eqn:En. cbn in E. subst n'.
    rewrite bool_decide_eq_false_2 by (destruct n; cbn in *; by apply orb_false_iff in H1 as [?%bool_decide_eq_false _]).
    cbn [Nat.eqb andb]. specialize (IHl H2 cp'). destruct (parse_children l cp' 0 false). cbn in *. congruence. }
  destruct (parse_children content cp 0 false) as [content' cp'] eqn:Ec. cbn in *. congruence.
Qed.

(** A list of env files as it is written, the key with a comment above it. *)
Definition scalar (value hc : gostring) : node := mkNode (go "!!str") value hc [] [] [].

Definition path_entry (path : gostring) : node :=
  mkNode (go "!!map") [] [] [] [] [scalar (go "path") []; scalar path []].

Definition env_file_map (hc : gostring) (paths : list gostring) : node :=
  mkNode (go "!!map") [] [] [] []
    [scalar (go "envFile") hc; mkNode (go "!!seq") [] [] [] [] (path_entry <$> paths)].

Lemma parse_scalar value hc cp depth hit :
  doParseNode o (scalar value hc) cp depth hit =
  (scalar (if hit then resolved o (default cp (includeComment o hc)) value else value) hc,
   default cp (includeComment o hc)).
Proof. reflexivity. Qed.

Lemma parse_path_entry path cp : doParseNode o (path_entry path) cp 2 false = (path_entry (resolved o cp path), cp).
Proof.
  unfold path_entry. rewrite doParseNode_eq. replace (child_depth 2 (go "!!map")) with 3 by reflexivity.
  cbn [parse_children]. rewrite parse_scalar, no_comment. cbn [default n_Value scalar].
  replace (bool_decide (go "path" = go "envFile")) with false by reflexivity.
  replace (bool_decide (go "path" = go "path")) with true by reflexivity. cbn [Nat.eqb andb].
  rewrite parse_scalar, no_comment. reflexivity.
Qed.

Lemma parse_path_entries paths cp :
  parse_children (path_entry <$> paths) cp 2 false = (path_entry <$> (resolved o cp <$> paths), cp).
Proof.
  induction paths as [|p l IH]; [done|]. cbn [fmap list_fmap parse_children]. rewrite parse_path_entry.
  cbn [n_Value path_entry].
  replace (bool_decide ([] = go "envFile")) with false by reflexivity. cbn [Nat.eqb andb]. by rewrite IH.
Qed.

(** The paths of the env files listed below a key [envFile] become absolute,
    relative to the file named in the comment the renderer put above the key, or
    else to the current file; a document without that key is not changed. *)
Theorem env_files_resolved n hc paths cp :
  (has_env_file n = false -> fst (doParseNode o n cp 0 false) = n) /\
  fst (doParseNode o (env_file_map hc paths) cp 0 false) =
    env_file_map hc (resolved o (default cp (includeComment o hc)) <$> paths).
Proof.
  split; [apply parse_unchanged|]. unfold env_file_map at 1. rewrite doParseNode_eq, no_comment.
  replace (child_depth 0 (go "!!map")) with 0 by reflexivity. cbn [default parse_children]. rewrite parse_scalar.
  cbn [n_Value scalar]. replace (bool_decide (go "envFile" = go "envFile")) with true by reflexivity.
  replace (bool_decide (go "envFile" = go "path")) with false by reflexivity. cbn [Nat.eqb andb].
  rewrite doParseNode_eq, no_comment. replace (child_depth 1 (go "!!seq")) with 2 by reflexivity. cbn [default].
  by rewrite parse_path_entries.
Qed.
End nodes.

(** *** Rendered configurations *)

Section rendered.
Context `{!UnicodeTables, !MapOrder gostring, !ConfigYaml} (e : render_env).

(** In a configuration that was rendered, a service is found under its name
    and type exactly when it is the last one of that name in the document, of
    whatever type: an earlier one of another type is lost. *)
Theorem rendered_services o item n :
  RenderConfig e o item = Done (Ok n) ->
  exists text doc,
    parseNocalhostConfigEnvFile o text (NewFilePath o (GetLocation item)) = Some doc /\
    forall name type, GetSvcConfigV2 (Some n) name type =
      c ← last_named (ServiceConfigs (AppConfig (parseEnvFromIntoEnv o (node_Decode doc)))) name;
      if bool_decide (svc_Type c = type) then Some c else None.
Proof.
  unfold RenderConfig. destruct (match item with TextRenderItem _ => _ | LocalFileRenderItem _ => _ end) as [[text|]| |]; try done.
  destruct (parseNocalhostConfigEnvFile o text (NewFilePath o (GetLocation item))) as [doc|] eqn:Ed; [|done].
  intros [= <-]. exists text, doc. split; [done|]. intros name type. apply find_last_services.
Qed.

(** What the YAML parser sees of a text in which nothing is to be substituted. *)
Definition plain_text (s : gostring) : gostring := AbsSign ++ newline ++ s.

Lemma render_plain o s :
  0 < include_depth e -> render_item e o (TextRenderItem (escape s)) None = Done (Ok (plain_text s)).
Proof.
  intros Hd. unfold render_item, Render. destruct (include_depth e) as [|d]; [lia|]. apply Parse_escape.
Qed.

(** A document that is no list of services and no service. *)
Lemma load_as_app o s name type n :
  0 < include_depth e ->
  unmarshal_svcs (plain_text s) = ([], false) -> snd (unmarshal_svc (plain_text s)) = false ->
  RenderConfig e o (TextRenderItem (escape s)) = Done (Ok n) ->
  LoadSvcCfgFromStrIfValid e o (escape s) name type = Done (Ok (Some n, GetSvcConfigV2 (Some n) name type)).
Proof.
  intros Hd Hl Hs Hr. unfold LoadSvcCfgFromStrIfValid, doLoadProfileFromSvcConfig, RenderConfigForSvc.
  rewrite render_plain, Hl by done. destruct (unmarshal_svc (plain_text s)) as [single ok]. cbn in Hs. subst ok. cbn.
  unfold doLoadProfileFromAppConfig. by rewrite Hr.
Qed.

(** A configuration given as text, with its dollar signs doubled: a single
    service without a name is the configuration of every workload, a list is
    searched by name and type, and a document that is neither is read as an
    application's configuration, which is then returned with the service. *)
Theorem text_config_loaded o s name type l c n :
  0 < include_depth e ->
  (unmarshal_svcs (plain_text s) = ([c], true) -> svc_Name c = [] ->
   LoadSvcCfgFromStrIfValid e o (escape s) name type = Done (Ok (None, Some (set_name_type c name type)))) /\
  (unmarshal_svcs (plain_text s) = (l, true) -> Forall (fun x => svc_Name x <> []) l ->
   List.find (is_config name type) l = Some c ->
   LoadSvcCfgFromStrIfValid e o (escape s) name type = Done (Ok (None, Some c))) /\
  (unmarshal_svcs (plain_text s) = ([], false) -> snd (unmarshal_svc (plain_text s)) = false ->
   RenderConfig e o (TextRenderItem (escape s)) = Done (Ok n) ->
   LoadSvcCfgFromStrIfValid e o (escape s) name type =
     Done (Ok (Some n, GetSvcConfigV2 (Some n) name type))).
Proof.
  intros Hd. split_and!; [..|intros Hl Hs; by apply load_as_app]; unfold LoadSvcCfgFromStrIfValid,
    doLoadProfileFromSvcConfig, RenderConfigForSvc; rewrite render_plain by done.
  - intros -> Hn. cbn. by rewrite bool_decide_eq_true_2.
  - intros -> Hn Hf. destruct l as [|x [|y l]]; [done| |cbn beta iota; by rewrite Hf].
    apply Forall_cons in Hn as [Hn _]. cbn in Hf |- *. rewrite bool_decide_eq_false_2 by done.
    by destruct (is_config name type x); simplify_eq.
Qed.
End rendered.

(** *** The column of the env file *)

(** The env file of a local configuration is read from column 11 of its line:
    right when the line is indented by two blanks, and cut wrongly when it is
    indented by four. *)
Theorem env_file_column value ls :
  TrimSpace value = value -> unquoted value = value ->
  HasPrefix (TrimSpace (go "  envFile: " ++ value)) (go "envFile: ") = true ->
  HasPrefix (TrimSpace (go "    envFile: " ++ value)) (go "envFile: ") = true ->
  env_file_loop true ((go "  envFile: " ++ value) :: ls) = Done value /\
  env_file_loop true ((go "    envFile: " ++ value) :: ls) = Done (unquoted (TrimSpace (go ": " ++ value))).
Proof.
  intros Ht Hu H2 H4. split; cbn [env_file_loop].
  - rewrite H2. change (drop 11 (go "  envFile: " ++ value)) with value. by rewrite Ht, Hu.
  - rewrite H4. by change (drop 11 (go "    envFile: " ++ value)) with (go ": " ++ value).
Qed.

(** ** Runs *)

Section demo.
#[local] Existing Instance latin1_tables.

Definition demo_files : OS :=
  {| files := {[ go "/app/dev.env" := go "A=1" ++ newline ++ go "B=2" ++ newline;
                 go "/app/local.env" := go "B=3" ++ newline ]};
     cwd := go "/app"; FilePath.home := None; read_error := fun _ => go "no such file" |}.

Definition demo_render : render_env := mkRenderEnv [] 3 None.

Definition demo_service (type : gostring) : ServiceConfigV2 := mkSvcConfig (go "web") type [] None [].

(** A parser that reads any text as the same application with two services of
    one name. *)
#[local] Instance demo_config_yaml : ConfigYaml := {|
  unmarshal_svcs := fun _ => ([], false);
  unmarshal_svc := fun _ => (demo_service [], false);
  unmarshal_version := fun _ => go "v2";
  unmarshal_v1 := fun _ => None;
  marshal_v2 := fun _ => [];
  unmarshal_node := fun s => Some (scalar s []);
  node_Decode := fun _ =>
    mkConfig (go "v2") [] false
      (mkAppConfig [] [] [] [] [] [] [] [] [] [] [] [] [] [demo_service (go "deployment"); demo_service (go "statefulset")] [])
|}.

Lemma env_precedence_witness :
  effective (joined_env demo_files [go "dev.env"; go "local.env"] [(go "A", go "0")]) (go "B") = Some (go "3").
Proof.
  destruct (env_precedence demo_files demo_config (go "B")) as (_ & H & _).
  specialize (H (mkInstall [(go "A", go "0")] [go "dev.env"; go "local.env"] [])).
  etrans; [exact H|]. vm_compute. reflexivity.
Defined.

Lemma rendered_services_witness :
  exists n, RenderConfig demo_render demo_files (TextRenderItem []) = Done (Ok n) /\
    GetSvcConfigV2 (Some n) (go "web") (go "deployment") = None.
Proof.
  assert (Hn : exists n, RenderConfig demo_render demo_files (TextRenderItem []) = Done (Ok n))
    by (eexists; vm_compute; reflexivity).
  destruct Hn as [n Hn]. exists n. split; [exact Hn|].
  destruct (rendered_services demo_render demo_files (TextRenderItem []) n Hn) as (text & doc & _ & H).
  etrans; [apply H|]. vm_compute. reflexivity.
Defined.

Lemma text_config_loaded_witness :
  exists n, LoadSvcCfgFromStrIfValid demo_render demo_files (escape []) (go "web") (go "statefulset") =
    Done (Ok (Some n, GetSvcConfigV2 (Some n) (go "web") (go "statefulset"))).
Proof.
  eexists.
  refine (proj2 (proj2 (text_config_loaded demo_render demo_files [] (go "web") (go "statefulset") []
                          (demo_service []) _ _)) _ _ _); [cbn; lia|reflexivity|reflexivity|].
  vm_compute. reflexivity.
Defined.

Lemma env_files_resolved_witness :
  fst (doParseNode demo_files (env_file_map [] [go "dev.env"]) (NewFilePath demo_files (go "/app/config.yaml")) 0 false) =
  env_file_map [] [go "/app/dev.env"].
Proof.
  etrans; [apply (env_files_resolved demo_files (scalar [] []))|]. vm_compute. reflexivity.
Defined.

Lemma env_file_column_witness :
  env_file_loop true [go "    envFile: dev.env"] = Done (go ": dev.env").
Proof.
  etrans; [apply (env_file_column (go "dev.env") []); vm_compute; reflexivity|]. vm_compute. reflexivity.
Defined.
End demo.
