(* ===== verification/DepWatchers.v ===== *)
(** * The watchers of the dependency webhook ([internal/nocalhost-dep/serviceaccount],
      [internal/nocalhost-dep/cm])

    The admission webhook keeps, for each namespace, a cache of the service
    accounts with whether they administer the cluster, and a cache of the config
    maps that configure applications.  Both are filled by a first listing and
    then kept by the watch controller of [WatchController].

    The caches are shared with pointers: the config map watcher stores pointers
    to config maps, and the first listing stores the address of its loop
    variable.  The cells these pointers refer to are part of the model. *)

From S2P Require Import Prelude GoStrings EnvLex FilePath EnvParse DevDir AppMeta Search Profile PortForward Config ConfigLoad WatchController AppMetaSync.
#[local] Open Scope go_scope.

(** ** Service accounts ([service_account_watcher.go]) *)

(** UID to administrator, and name to UID. *)
Record sa_set := mkSet {
  inner : gmap gostring bool;
  helper : gmap gostring gostring
}.

Definition newSet : sa_set := mkSet ∅ ∅.

Definition record (s : sa_set) (key : gostring) (isClusterAdmin : bool) (saName : gostring) : sa_set :=
  mkSet (<[key := isClusterAdmin]> (inner s)) (<[saName := key]> (helper s)).

Definition removeByServiceAccountName (s : sa_set) (saName : gostring) : sa_set :=
  match helper s !! saName with
  | Some uid => mkSet (delete uid (inner s)) (delete saName (helper s))
  | None => s
  end.

Record ServiceAccount := mkSa {
  sa_UID : gostring;
  sa_Name : gostring;
  sa_Namespace : gostring;
  sa_Secrets : list gostring
}.

(** *** The kubeconfig of an account ([setupcluster/reader.go]) *)

Record kube_config := mkKube {
  kc_Server : gostring;
  kc_CA : gostring;
  kc_Token : gostring;
  kc_Namespace : gostring;
  kc_User : gostring
}.

Inductive reader_error := TokenErr | CaErr.

Record devKubeConfigReader := mkReader {
  inServer : gostring;
  inNameSpace : gostring;
  rd_secret : gmap gostring gostring;
  rd_token : gostring;
  rd_ca : gostring;
  kubeConfigStruct : option kube_config;
  rd_err : option reader_error
}.

Definition NewDevKubeConfigReader (s : gmap gostring gostring) (server namespace : gostring) : devKubeConfigReader :=
  mkReader server namespace s [] [] None None.

Definition GetToken (d : devKubeConfigReader) : devKubeConfigReader :=
  let token := default [] (rd_secret d !! go "token") in
  mkReader (inServer d) (inNameSpace d) (rd_secret d) token (rd_ca d) (kubeConfigStruct d)
    (if bool_decide (token = []) then Some TokenErr else rd_err d).

Definition GetCA (d : devKubeConfigReader) : devKubeConfigReader :=
  let ca := default [] (rd_secret d !! go "ca.crt") in
  mkReader (inServer d) (inNameSpace d) (rd_secret d) (rd_token d) ca (kubeConfigStruct d)
    (if bool_decide (ca = []) then Some CaErr else rd_err d).

Definition NocalhostDevServiceAccountName : gostring := go "nocalhost-dev-account".

Definition AssembleDevKubeConfig (d : devKubeConfigReader) : devKubeConfigReader :=
  mkReader (inServer d) (inNameSpace d) (rd_secret d) (rd_token d) (rd_ca d)
    (Some (mkKube (inServer d) (rd_ca d) (rd_token d) (inNameSpace d) NocalhostDevServiceAccountName)) (rd_err d).

Definition ToStruct (d : devKubeConfigReader) : option kube_config * option reader_error :=
  (kubeConfigStruct d, rd_err d).

(** What the cluster answers: secrets, its address from inside, and whether the
    holder of a kubeconfig may do everything, [None] when asking fails. *)
Record sa_cluster := mkSaCluster {
  get_secret : gostring -> gostring -> option (gmap gostring gostring);
  InClusterConfig : option gostring;
  access_review : kube_config -> option bool
}.

(** [isClusterAdmin]; every error comes with [false], and no caller looks at it. *)
Definition isClusterAdmin (k : sa_cluster) (sa : ServiceAccount) : bool :=
  match sa_Secrets sa with
  | [] => false
  | name :: _ =>
      match get_secret k (sa_Namespace sa) name, InClusterConfig k with
      | Some secret, Some host =>
          let d := AssembleDevKubeConfig (GetToken (GetCA (NewDevKubeConfigReader secret host (sa_Namespace sa)))) in
          match ToStruct d with
          | (Some cfg, None) => default false (access_review k cfg)
          | _ => false
          end
      | _, _ => false
      end
  end.

(** *** The watcher *)

Definition sa_join (k : sa_cluster) (s : sa_set) (sa : ServiceAccount) : sa_set :=
  record s (sa_UID sa) (isClusterAdmin k sa) (sa_Name sa).

Definition sa_CreateOrUpdate (k : sa_cluster) (s : sa_set) (key : gostring) (obj : option ServiceAccount)
    : sa_set * res gostring unit :=
  match obj with
  | Some sa => (sa_join k s sa, Ok tt)
  | None => (s, Err (go "could not cast to sa"))
  end.

Definition sa_left (s : sa_set) (saName : gostring) : sa_set :=
  match Index saName (go "/") with
  | Some idx =>
      if (0 <? idx) && (idx + 1 <? length saName) then removeByServiceAccountName s (drop (idx + 1) saName) else s
  | None => s
  end.

Definition sa_Delete (s : sa_set) (key : gostring) : sa_set * res metaerr unit :=
  match GetApplicationName key with
  | Err err => (s, Err err)
  | Ok appName => (sa_left s appName, Ok tt)
  end.

(** The first listing; [None] when it fails. *)
Definition sa_Prepare (k : sa_cluster) (listing : option (list ServiceAccount)) (s : sa_set) : sa_set :=
  match listing with
  | Some items => foldl (sa_join k) s items
  | None => s
  end.

Definition IsClusterAdmin (s : sa_set) (uid : gostring) : option bool := inner s !! uid.

(** ** Config maps ([cm_watcher.go]) *)

Record ConfigMap := mkCm {
  cm_Name : gostring;
  cm_Data : gmap gostring gostring
}.

(** The cache has pointers into the cells. *)
Record CmWatcher := mkCmWatcher {
  cmw_namespace : gostring;
  cmw_cache : gmap gostring nat;
  cells : list ConfigMap
}.

Definition NewCmWatcher : CmWatcher := mkCmWatcher [] ∅ [].

Definition cm_alloc (cmw : CmWatcher) (cm : ConfigMap) : CmWatcher * nat :=
  (mkCmWatcher (cmw_namespace cmw) (cmw_cache cmw) (cells cmw ++ [cm]), length (cells cmw)).

Definition cm_join (cmw : CmWatcher) (app : gostring) (cm : nat) : CmWatcher :=
  mkCmWatcher (cmw_namespace cmw) (<[app := cm]> (cmw_cache cmw)) (cells cmw).

Definition cm_left (cmw : CmWatcher) (app : gostring) : CmWatcher :=
  mkCmWatcher (cmw_namespace cmw) (delete app (cmw_cache cmw)) (cells cmw).

(** [obj] is a pointer. *)
Definition cm_CreateOrUpdate (cmw : CmWatcher) (key : gostring) (obj : nat) : CmWatcher * res gostring unit :=
  match cells cmw !! obj with
  | Some cm =>
      let appName := GetAppNameFromConfigMapName (cm_Name cm) in
      if bool_decide (appName = []) then (cmw, Ok tt) else (cm_join cmw appName obj, Ok tt)
  | None => (cmw, Err (go "could not cast to cm"))
  end.

Definition cm_Delete (cmw : CmWatcher) (key : gostring) : CmWatcher :=
  let '(namespace, appName) :=
    match Index key (go "/") with
    | Some idx =>
        if (0 <? idx) && (idx + 1 <? length key)
        then (take idx key, GetAppNameFromConfigMapName (drop (idx + 1) key)) else ([], [])
    | None => ([], [])
    end in
  if bool_decide (appName <> []) && bool_decide (namespace <> []) then cm_left cmw appName else cmw.

(** One round of the loop of [Prepare]: the loop variable is assigned and its
    address is handed on. *)
Definition prepare_item (p : nat) (cmw : CmWatcher) (item : ConfigMap) : CmWatcher :=
  fst (cm_CreateOrUpdate (mkCmWatcher (cmw_namespace cmw) (cmw_cache cmw) (<[p := item]> (cells cmw))) (cm_Name item) p).

Definition cm_Prepare (namespace : gostring) (listing : option (list ConfigMap)) (cmw : CmWatcher) : CmWatcher :=
  let cmw := mkCmWatcher namespace (cmw_cache cmw) (cells cmw) in
  match listing with
  | Some items =>
      let '(cmw, item) := cm_alloc cmw (mkCm [] ∅) in
      foldl (prepare_item item) cmw items
  | None => cmw
  end.

(** The config map of an application. *)
Definition configmap_of (cmw : CmWatcher) (app : gostring) : option ConfigMap :=
  p ← cmw_cache cmw !! app; cells cmw !! p.

Inductive cm_error :=
  | NOT_FOUND
  | NoConfigKey
  | LoadErr (e : gostring).

Definition CmConfigKey : gostring := go "config".

Definition GetNocalhostConfig `{!UnicodeTables, !UnicodeLower, !MapOrder gostring, !ConfigYaml} (e : render_env)
    (o : OS) (cmw : CmWatcher) (application svcType svcName : gostring)
    : outcome (res cm_error (option NocalHostAppConfigV2 * option ServiceConfigV2)) :=
  match configmap_of cmw application with
  | None => Done (Err NOT_FOUND)
  | Some cm =>
      let cfgStr := default [] (cm_Data cm !! CmConfigKey) in
      if bool_decide (cfgStr = []) then Done (Err NoConfigKey)
      else
        r <~ LoadSvcCfgFromStrIfValid e o cfgStr svcName (ToLower svcType);
        match r with Ok x => Done (Ok x) | Err err => Done (Err (LoadErr err)) end
  end.

(** ** Theorems *)

(** The key the informer has for an object. *)
Definition object_key (ns name : gostring) : gostring := ns ++ slash ++ name.

Lemma object_key_parts ns name :
  ns <> [] -> slash_free ns -> name <> [] ->
  Index (object_key ns name) (go "/") = Some (length ns) /\
  (0 <? length ns) && (length ns + 1 <? length (object_key ns name)) = true /\
  take (length ns) (object_key ns name) = ns /\ drop (length ns + 1) (object_key ns name) = name.
Proof.
  intros Hns Hsl Hname. unfold object_key. split_and!.
  - apply (Index_piece ns (go "/")). by apply piece_ok_single.
  - rewrite !length_app. change (length slash) with 1.
    assert (0 < length ns) by (destruct ns; cbn in *; [done|lia]).
    assert (0 < length name) by (destruct name; cbn in *; [done|lia]).
    apply andb_true_iff. split; apply Nat.ltb_lt; lia.
  - by rewrite take_app_length.
  - rewrite drop_app_ge by lia. by replace (length ns + 1 - length ns) with 1 by lia.
Qed.

(** *** Accounts *)

(** What happens to the accounts of a namespace: one is seen, in a state of the
    cluster, or is gone. *)
Inductive sa_event :=
  | SaSeen (k : sa_cluster) (key : gostring) (sa : ServiceAccount)
  | SaGone (ns name : gostring).

Definition sa_handle (s : sa_set) (ev : sa_event) : sa_set :=
  match ev with
  | SaSeen k key sa => fst (sa_CreateOrUpdate k s key (Some sa))
  | SaGone ns name => fst (sa_Delete s (object_key ns name))
  end.

Definition proper_event (ev : sa_event) : Prop :=
  match ev with
  | SaSeen _ _ _ => True
  | SaGone ns name => ns <> [] /\ slash_free ns /\ name <> [] /\ slash_free name
  end.

(** Whether an event says that an account administers the cluster. *)
Definition verdict (uid : gostring) (ev : sa_event) : option bool :=
  match ev with
  | SaSeen k _ sa => if bool_decide (sa_UID sa = uid) then Some (isClusterAdmin k sa) else None
  | SaGone _ _ => None
  end.

Lemma Index_no_slash x : slash_free x -> Index x (go "/") = None.
Proof. intros Hx. by apply Index_single_None. Qed.

Lemma sa_gone_nothing s ns name :
  proper_event (SaGone ns name) -> fst (sa_Delete s (object_key ns name)) = s.
Proof.
  intros (H1 & H2 & H3 & H4). destruct (object_key_parts ns name H1 H2 H3) as (Hi & Hb & _ & Hd).
  unfold sa_Delete, GetApplicationName. rewrite Hi, Hb, Hd.
  destruct (negb (HasPrefix name SecretNamePrefix)); [done|]. cbn. unfold sa_left.
  rewrite Index_no_slash; [done|]. intros Hin. apply H4. rewrite <- (take_drop (length SecretNamePrefix) name).
  apply elem_of_app. by right.
Qed.

(** The deletion of a service account never changes the cache: however
    accounts come and go, what it says of an account is what was found when the
    account was last seen, long after it is gone. *)
Theorem deleted_account_stays s evs uid :
  Forall proper_event evs ->
  IsClusterAdmin (foldl sa_handle s evs) uid =
  match last (omap (verdict uid) evs) with Some b => Some b | None => IsClusterAdmin s uid end.
Proof.
  induction evs as [|ev evs IH] using rev_ind; [done|].
  intros [Hevs [Hev _]%Forall_cons]%Forall_app. rewrite foldl_app, omap_app. cbn [foldl omap list_omap].
  specialize (IH Hevs). destruct ev as [k key sa|ns name]; cbn [sa_handle verdict].
  - cbn [sa_CreateOrUpdate fst]. unfold IsClusterAdmin, sa_join, record in *. cbn [inner]. case_bool_decide as E.
    + by rewrite E, lookup_insert_eq, last_snoc.
    + by rewrite lookup_insert_ne, app_nil_r.
  - rewrite app_nil_r, sa_gone_nothing by exact Hev. exact IH.
Qed.

(** *** Config maps *)

Section configmaps.
Context (ns : gostring).
Hypothesis ns_nonempty : ns <> [].
Hypothesis ns_slash : slash_free ns.

(** The key of the config map of an application. *)
Definition cm_path (app : gostring) : gostring := object_key ns (ConfigMapName app).

Lemma app_of_name app : GetAppNameFromConfigMapName (ConfigMapName app) = app.
Proof using Type.
  unfold GetAppNameFromConfigMapName, HasConfigMapPrefix, ConfigMapName. by rewrite HasPrefix_app, TrimPrefix_app.
Qed.

Lemma cm_path_inj app app' : cm_path app = cm_path app' -> app = app'.
Proof using Type. unfold cm_path, object_key, ConfigMapName. intros E. by do 3 apply app_inv_head in E. Qed.

(** The pointer the controller hands on is to an object of its own. *)
Definition cm_handle (cmw : CmWatcher) (key : gostring) (cm : ConfigMap) : CmWatcher * bool :=
  let '(cmw, p) := cm_alloc cmw cm in
  let '(cmw, r) := cm_CreateOrUpdate cmw key p in (cmw, is_ok r).

#[export] Instance cm_watcher : Watcher CmWatcher ConfigMap := {|
  WatchController.CreateOrUpdate := fun key cm cmw => cm_handle cmw key cm;
  WatchController.Delete := fun key cmw => (cm_Delete cmw key, true)
|}.

(** All pointers are to cells. *)
Definition cm_wf (cmw : CmWatcher) : Prop :=
  forall app p, cmw_cache cmw !! app = Some p -> p < length (cells cmw).

Lemma cm_handle_ok cmw key cm :
  cm_wf cmw ->
  let cmw' := fst (cm_handle cmw key cm) in
  cm_wf cmw' /\ forall app, app <> [] -> configmap_of cmw' app =
    if decide (app = GetAppNameFromConfigMapName (cm_Name cm)) then Some cm else configmap_of cmw app.
Proof using Type.
  intros Hwf. unfold cm_handle, cm_alloc, cm_CreateOrUpdate. cbn [cells].
  rewrite list_lookup_middle by done.
  assert (Hold : forall app, (p ← cmw_cache cmw !! app; (cells cmw ++ [cm]) !! p) = configmap_of cmw app).
  { intros app. unfold configmap_of. destruct (cmw_cache cmw !! app) as [p|] eqn:Ep; [|done].
    apply lookup_app_l. by eapply Hwf. }
  case_bool_decide as Hname; cbn [fst]; (split; [intros app p|intros app Happ]).
  - cbn [cmw_cache cells]. rewrite length_app. cbn [length]. intros Hp%Hwf. lia.
  - rewrite Hname, decide_False by done. apply Hold.
  - unfold cm_join. cbn [cmw_cache cells]. rewrite length_app. cbn [length].
    intros [[_ <-]|[_ Hp%Hwf]]%lookup_insert_Some; lia.
  - unfold configmap_of at 1, cm_join. cbn [cmw_cache cells]. case_decide as E.
    + subst app. rewrite lookup_insert_eq. cbn. by rewrite list_lookup_middle.
    + rewrite lookup_insert_ne by done. apply Hold.
Qed.

Lemma cm_Delete_ok cmw name :
  cm_wf cmw -> name <> [] ->
  cm_wf (cm_Delete cmw (object_key ns name)) /\
  forall app, app <> [] -> configmap_of (cm_Delete cmw (object_key ns name)) app =
    if decide (app = GetAppNameFromConfigMapName name) then None else configmap_of cmw app.
Proof using ns_nonempty ns_slash.
  intros Hwf Hn. destruct (object_key_parts ns name ns_nonempty ns_slash Hn) as (Hi & Hb & Ht & Hd).
  unfold cm_Delete. rewrite Hi, Hb, Ht, Hd. rewrite (bool_decide_eq_true_2 (ns <> [])), andb_true_r by done.
  case_bool_decide as Happ'; (split; [|intros app Happ]).
  - intros app p. unfold cm_left. cbn [cmw_cache cells]. intros [_ Hp]%lookup_delete_Some. by eapply Hwf.
  - unfold configmap_of, cm_left. cbn [cmw_cache cells]. case_decide as E.
    + by rewrite E, lookup_delete_eq.
    + by rewrite lookup_delete_ne.
  - done.
  - rewrite decide_False; [done|]. intros ->. done.
Qed.

(** A call about a config map of the namespace. *)
Definition proper_cm_call (call : gostring * option ConfigMap) : Prop :=
  exists name, name <> [] /\ fst call = object_key ns name /\
    match snd call with Some cm => cm_Name cm = name | None => True end.

Lemma path_of_app name app :
  app <> [] -> object_key ns name = cm_path app <-> app = GetAppNameFromConfigMapName name.
Proof using Type.
  intros Happ. split.
  - unfold cm_path, object_key. intros E. do 2 apply app_inv_head in E. subst name. by rewrite app_of_name.
  - unfold GetAppNameFromConfigMapName, HasConfigMapPrefix. destruct (HasPrefix name CmNamePrefix) eqn:E; [|done].
    apply HasPrefix_spec in E as [rest ->]. rewrite TrimPrefix_app. by intros ->.
Qed.

Lemma configmaps_after l cmw app :
  cm_wf cmw -> Forall proper_cm_call l -> app <> [] ->
  cm_wf (foldl run_call cmw l) /\
  configmap_of (foldl run_call cmw l) app =
    match last_call l (cm_path app) with Some obj => obj | None => configmap_of cmw app end.
Proof using ns_nonempty ns_slash.
  intros Hwf Hl Happ. induction l as [|[key obj] l IH] using rev_ind; [done|].
  apply Forall_app in Hl as [Hl [(name & Hname & Hkey & Hobj) _]%Forall_cons]. cbn in Hkey, Hobj. subst key.
  destruct (IH Hl) as [Hwf' IH']. rewrite foldl_app, last_call_snoc. cbn [foldl].
  set (w := foldl run_call cmw l) in *. unfold run_call. cbn [fst snd].
  destruct obj as [cm|]; cbn [WatchController.CreateOrUpdate WatchController.Delete cm_watcher].
  - destruct (cm_handle_ok w (object_key ns name) cm Hwf') as [H1 H2]. split; [exact H1|].
    rewrite (H2 app Happ), Hobj. repeat case_decide; try done; exfalso; rewrite path_of_app in *; tauto.
  - destruct (cm_Delete_ok w name Hwf' Hname) as [H1 H2]. split; [exact H1|]. cbn [fst].
    rewrite (H2 app Happ). repeat case_decide; try done; exfalso; rewrite path_of_app in *; tauto.
Qed.

(** *** The first listing *)

Definition app_of (cm : ConfigMap) : gostring := GetAppNameFromConfigMapName (cm_Name cm).

Lemma prepare_loop p items cmw :
  p < length (cells cmw) -> Forall (fun cm => app_of cm <> []) items ->
  let w := foldl (prepare_item p) cmw items in
  length (cells w) = length (cells cmw) /\
  cells w !! p = match last items with Some cm => Some cm | None => cells cmw !! p end /\
  forall app, cmw_cache w !! app = if decide (app ∈ app_of <$> items) then Some p else cmw_cache cmw !! app.
Proof using Type.
  intros Hp Hn. induction items as [|cm items IH] using rev_ind.
  - split_and!; [done|done|]. intros app. rewrite decide_False; [done|apply not_elem_of_nil].
  - apply Forall_app in Hn as [Hn [Hcm _]%Forall_cons]. destruct (IH Hn) as (IH1 & _ & IH3).
    rewrite foldl_app. cbn [foldl]. set (w := foldl _ _ items) in *. unfold prepare_item, cm_CreateOrUpdate. cbn [cells].
    rewrite list_lookup_insert_eq by lia. rewrite bool_decide_eq_false_2 by exact Hcm.
    cbn [fst cm_join cells cmw_cache]. rewrite length_insert, last_snoc, list_lookup_insert_eq by lia.
    split_and!; [done|done|]. intros app. rewrite fmap_app. cbn [fmap list_fmap].
    destruct (decide (app = app_of cm)) as [->|Hne].
    + rewrite decide_True by (apply elem_of_app; right; by apply list_elem_of_singleton). apply lookup_insert_eq.
    + fold (app_of cm). rewrite lookup_insert_ne by congruence. rewrite IH3.
      apply decide_ext. rewrite elem_of_app, list_elem_of_singleton. tauto.
Qed.

(** After its first listing the watcher has every application under the
    config map that was listed last: the cached pointers are all to the loop
    variable. *)
Theorem prepare_aliases namespace items cm item :
  Forall (fun cm => app_of cm <> []) (items ++ [cm]) -> item ∈ items ++ [cm] ->
  configmap_of (cm_Prepare namespace (Some (items ++ [cm])) NewCmWatcher) (app_of item) = Some cm.
Proof using Type.
  intros Hn Hin. unfold cm_Prepare, cm_alloc, NewCmWatcher. cbn [cells cmw_cache cmw_namespace length app].
  destruct (prepare_loop 0 (items ++ [cm]) (mkCmWatcher namespace ∅ [mkCm [] ∅])) as (_ & H2 & H3); [cbn; lia|done|].
  cbv zeta in *. unfold configmap_of. rewrite H3, decide_True by by apply list_elem_of_fmap_2.
  cbn [mbind option_bind]. by rewrite H2, last_snoc.
Qed.

Lemma prepared_wf namespace listing :
  Forall (fun cm => app_of cm <> []) (default [] listing) -> cm_wf (cm_Prepare namespace listing NewCmWatcher).
Proof using Type.
  intros Hn x p. destruct listing as [items|]; [|done].
  unfold cm_Prepare, cm_alloc, NewCmWatcher. cbn [cells cmw_cache cmw_namespace length app].
  destruct (prepare_loop 0 items (mkCmWatcher namespace ∅ [mkCm [] ∅])) as (H1 & _ & H3); [cbn; lia|done|].
  cbv zeta in *. rewrite H1, H3. cbn [cells length cmw_cache]. case_decide; [intros [= <-]; lia|by rewrite lookup_empty].
Qed.

(** Once the controller is at rest, every application with a config map in
    the informer has exactly that one, whatever the first listing stored; one
    that the controller was never called for keeps what the listing stored. *)
Theorem configmaps_at_rest listing c app :
  Forall (fun cm => app_of cm <> []) (default [] listing) ->
  reachable (cm_Prepare ns listing NewCmWatcher) c -> quiescent c ->
  Forall proper_cm_call (calls c) -> app <> [] ->
  configmap_of (watcher c) app =
    match last_call (calls c) (cm_path app) with
    | Some _ => indexer c !! cm_path app
    | None => configmap_of (cm_Prepare ns listing NewCmWatcher) app
    end /\
  (is_Some (indexer c !! cm_path app) -> configmap_of (watcher c) app = indexer c !! cm_path app).
Proof using ns_nonempty ns_slash.
  intros Hn Hr Hq Hcalls Happ. pose proof (prepared_wf ns listing Hn) as Hwf.
  rewrite (watcher_calls _ _ Hr). rewrite (proj2 (configmaps_after _ _ app Hwf Hcalls Happ)).
  rewrite <- (reachable_quiescent _ _ (cm_path app) Hr Hq).
  destruct (last_call (calls c) (cm_path app)) as [obj|]; cbn; [done|]. split; [done|]. by intros [? ?].
Qed.
End configmaps.

(** ** Runs *)

Definition demo_cluster : sa_cluster :=
  mkSaCluster (fun _ _ => Some {[ go "token" := go "t"; go "ca.crt" := go "c" ]}) (Some (go "https://10.0.0.1"))
    (fun _ => Some true).

Definition demo_account : ServiceAccount := mkSa (go "uid-1") (go "dev") (go "ns") [go "dev-token"].

(** An administrator's account that was deleted still counts as one. *)
Lemma deleted_account_stays_witness :
  IsClusterAdmin (foldl sa_handle newSet [SaSeen demo_cluster (go "ns/dev") demo_account; SaGone (go "ns") (go "dev")])
    (go "uid-1") = Some true.
Proof.
  etrans; [apply deleted_account_stays|vm_compute; reflexivity].
  repeat constructor; (apply (bool_decide_eq_true_1 _); reflexivity) || done.
Defined.

Definition demo_cm (app config : gostring) : ConfigMap := mkCm (ConfigMapName app) {[ CmConfigKey := config ]}.

(** Two applications; the first is given the configuration of the second. *)
Lemma prepare_aliases_witness :
  configmap_of (cm_Prepare (go "ns") (Some [demo_cm (go "a") (go "1"); demo_cm (go "b") (go "2")]) NewCmWatcher)
    (go "a") = Some (demo_cm (go "b") (go "2")).
Proof.
  apply (prepare_aliases (go "ns") [demo_cm (go "a") (go "1")] (demo_cm (go "b") (go "2")) (demo_cm (go "a") (go "1"))).
  - repeat constructor; done.
  - apply elem_of_cons. by left.
Defined.

Lemma configmaps_at_rest_witness :
  exists c : Controller CmWatcher ConfigMap,
    reachable (cm_Prepare (go "ns") (Some [demo_cm (go "a") (go "1"); demo_cm (go "b") (go "2")]) NewCmWatcher) c /\
    configmap_of (watcher c) (go "a") = Some (demo_cm (go "a") (go "1")).
Proof.
  destruct (one_change (cm_Prepare (go "ns") (Some [demo_cm (go "a") (go "1"); demo_cm (go "b") (go "2")]) NewCmWatcher)
    (cm_path (go "ns") (go "a")) (demo_cm (go "a") (go "1"))) as (c & Hr & Hq & Hc & Hx); [reflexivity|].
  exists c. split; [exact Hr|]. rewrite <- Hx.
  apply (configmaps_at_rest (go "ns")) with (listing := Some [demo_cm (go "a") (go "1"); demo_cm (go "b") (go "2")]).
  - done.
  - apply (bool_decide_eq_true_1 _). reflexivity.
  - repeat constructor; done.
  - exact Hr.
  - exact Hq.
  - rewrite Hc. repeat constructor. exists (ConfigMapName (go "a")). done.
  - done.
  - rewrite Hx. by eexists.
Defined.
