(* ===== verification/DevPod.v ===== *)
(** * The development pod ([internal/nhctl/controller/dev_start.go],
      [config.go], [duplicate.go])

    Entering dev mode rewrites the pod of a workload: the container to develop
    gets the development image, name, command, directory, environment and
    volumes; a synchronisation sidecar is added beside it; probes are dropped.
    Persistent directories are kept on claims that are found by label or created.

    The container to develop is handed around as a pointer into the pod: it is
    its index here, and changing it changes the pod.  The API server's claims,
    quantities, the clock and SHA-1 are parameters. *)

From stdpp Require Import sorting.
From S2P Require Import Prelude GoStrings FilePath DevDir AppMeta Search Profile PortForward Config.
#[local] Open Scope go_scope.

(** ** Constants ([const/const.go], [secret-config], [profile_v2.go]) *)

Definition NocalhostDevContainerAnnotations : gostring := go "dev.nocalhost/nocalhost-dev".
Definition NocalhostDefaultDevContainerName : gostring := go "nocalhost-dev".
Definition NocalhostDefaultDevSidecarName : gostring := go "nocalhost-sidecar".
Definition DefaultNocalhostSideCarName : gostring := go "nocalhost-sidecar".
Definition PersistentVolumeDirLabel : gostring := go "nocalhost.dev/dir".
Definition ServiceLabel : gostring := go "nocalhost.dev/service".
Definition ServiceTypeLabel : gostring := go "nocalhost.dev/service-type".
Definition AppLabel : gostring := go "nocalhost.dev/app".
Definition DefaultSideCarImage : gostring := go "10.155.97.245/k8s/nocalhost-sidecar:syncthing".
Definition SSHSideCarImage : gostring := go "10.155.97.245/k8s/nocalhost-sidecar:sshversion".
Definition DevWorkloadIgnored : gostring := go "nocalhost.dev.workload.ignored".
Definition DefaultNewFilePermission : Z := 493.
Definition SyncthingHome : gostring := go "/var/syncthing".
Definition SyncthingSecretHome : gostring := go "/var/syncthing/secret".
Definition SyncSecretName : gostring := go "nocalhost-syncthing-secret".
Definition EmptyDir : gostring := go "nocalhost-syncthing".
Definition DefaultDevImage : gostring := [].
Definition DefaultWorkDir : gostring := go "/home/nocalhost-dev".
Definition PullIfNotPresent : gostring := go "IfNotPresent".

Definition IdentifierKey : gostring := go "identifier".
Definition OriginWorkloadNameKey : gostring := go "origin-workload-name".
Definition OriginWorkloadTypeKey : gostring := go "origin-workload-type".
Definition EnvoySidecarImage : gostring := go "nocalhost-docker.pkg.coding.net/nocalhost/public/nocalhost-envoy:v1".
Definition EnvoyMeshSidecarName : gostring := go "nocalhost-mesh".
Definition AnnotationMeshEnable : gostring := go "dev.mesh.nocalhost.dev".
Definition AnnotationMeshUuid : gostring := go "dev.mesh.nocalhost.dev/uuid".
Definition AnnotationMeshType : gostring := go "dev.mesh.nocalhost.dev/type".
Definition AnnotationMeshHeaderKey : gostring := go "dev.mesh.nocalhost.dev/header-key".
Definition AnnotationMeshHeaderValue : gostring := go "dev.mesh.nocalhost.dev/header-value".
Definition AnnotationMeshPort : gostring := go "dev.mesh.nocalhost.dev/port".

(** [base.DevModeAction]: how a kind of workload enters dev mode. *)
Record DevModeAction := mkAction {
  ScalePatches : list (gostring * gostring);
  PodTemplatePath : gostring;
  Create : bool
}.

(** ** Quantities

    [resource.Quantity]: parsed from text, compared, printed; the zero value is
    what a resource list answers for a resource it lacks. *)
Class Quantities := {
  quantity : Type;
  ParseQ : gostring -> option quantity;
  q_cmp : quantity -> quantity -> comparison;
  q_zero : quantity;
  q_String : quantity -> gostring
}.

(** The literals the code parses are quantities. *)
Class QuantityLaws `{!Quantities} := {
  literals_parse : Forall (fun s => is_Some (ParseQ s)) [go "1Gi"; go "1"; go "50Mi"; go "100m"; go "2Gi"; go "2"]
}.

(** ** Pods

    The fields the code reads or writes; the others are in [.._rest]. *)
Section data.
Context `{!Quantities}.

Record ResourceRequirements := mkReq {
  rr_Limits : option (gmap gostring quantity);
  rr_Requests : option (gmap gostring quantity)
}.

Record EnvVar := mkEnv {
  ev_Name : gostring;
  ev_Value : gostring;
  ev_From : option gostring
}.

Record VolumeMount := mkMount {
  vm_Name : gostring;
  vm_MountPath : gostring;
  vm_SubPath : gostring;
  vm_rest : gostring
}.

Inductive VolumeSource :=
  | EmptyDirVolume
  | SecretVolume (secretName : gostring) (items : list (gostring * gostring * Z)) (defaultMode : Z)
  | ClaimVolume (claimName : gostring)
  | OtherVolume (rest : gostring).

Record Volume := mkVolume {
  vol_Name : gostring;
  vol_Source : VolumeSource
}.

Record SecurityContext := mkSecurity {
  RunAsUser : option Z;
  Privileged : option bool;
  sc_rest : gostring
}.

Record Container := mkPodContainer {
  pc_Name : gostring;
  pc_Image : gostring;
  pc_Command : list gostring;
  pc_Args : list gostring;
  pc_WorkingDir : gostring;
  pc_Ports : list Z;
  pc_Env : list EnvVar;
  pc_Resources : ResourceRequirements;
  pc_VolumeMounts : list VolumeMount;
  LivenessProbe : option gostring;
  ReadinessProbe : option gostring;
  StartupProbe : option gostring;
  pc_ImagePullPolicy : gostring;
  pc_SecurityContext : option SecurityContext;
  pc_rest : gostring
}.

Record PodSpec := mkPodSpec {
  ps_Containers : list Container;
  ps_Volumes : list Volume;
  ps_NodeName : gostring;
  ps_RestartPolicy : gostring;
  ps_rest : gostring
}.

Record PodTemplateSpec := mkTemplate {
  pt_Labels : gmap gostring gostring;
  pt_Annotations : gmap gostring gostring;
  pt_Spec : PodSpec;
  pt_rest : gostring
}.

Definition with_containers (p : PodSpec) (l : list Container) : PodSpec :=
  mkPodSpec l (ps_Volumes p) (ps_NodeName p) (ps_RestartPolicy p) (ps_rest p).

Definition with_volumes (p : PodSpec) (l : list Volume) : PodSpec :=
  mkPodSpec (ps_Containers p) l (ps_NodeName p) (ps_RestartPolicy p) (ps_rest p).

Definition with_spec (t : PodTemplateSpec) (s : PodSpec) : PodTemplateSpec :=
  mkTemplate (pt_Labels t) (pt_Annotations t) s (pt_rest t).

Definition with_pod_annotations (t : PodTemplateSpec) (m : gmap gostring gostring) : PodTemplateSpec :=
  mkTemplate (pt_Labels t) m (pt_Spec t) (pt_rest t).

Definition with_pod_labels (t : PodTemplateSpec) (m : gmap gostring gostring) : PodTemplateSpec :=
  mkTemplate m (pt_Annotations t) (pt_Spec t) (pt_rest t).

(** A claim: [Conditions] as pairs of reason and message. *)
Record Claim := mkClaim {
  claim_Name : gostring;
  claim_Labels : gmap gostring gostring;
  claim_Annotations : gmap gostring gostring;
  claim_Storage : quantity;
  claim_Class : option gostring;
  claim_Phase : gostring;
  claim_Conditions : list (gostring * gostring)
}.
End data.

(** ** Effects

    A step changes the cluster [W] and returns, fails, or panics. *)
Inductive dev_error :=
  | ErrApi (text : gostring)
  | ErrContainerNotFound (name : gostring)
  | ErrManyContainers
  | ErrNoContainer
  | ErrCreatePvc (path : gostring)
  | ErrQuantity
  | ErrNoRequirements
  | ErrNotReady
  | ErrNotFound
  | ErrJson
  | ErrPath (path : gostring)
  | ErrNoAnnotation (key : gostring)
  | ErrSidecarExists (name : gostring)
  | ErrGenerated (count : nat)
  | ErrInfos (count : nat)
  | ErrManaged (name : gostring)
  | ErrKind.

Definition act (W A : Type) : Type := W -> outcome (W * res dev_error A).

Definition act_ret {W A : Type} (a : A) : act W A := fun w => Done (w, Ok a).
Definition act_fail {W A : Type} (e : dev_error) : act W A := fun w => Done (w, Err e).
Definition act_panic {W A : Type} : act W A := fun w => Panic.

Definition act_bind {W A B : Type} (c : act W A) (k : A -> act W B) : act W B :=
  fun w => match c w with
           | Done (w, Ok a) => k a w
           | Done (w, Err e) => Done (w, Err e)
           | Panic => Panic
           | Fuel => Fuel
           end.

(** The error is handed on as a value: [v, err := c()]. *)
Definition act_try {W A : Type} (c : act W A) : act W (res dev_error A) :=
  fun w => match c w with
           | Done (w, r) => Done (w, Ok r)
           | Panic => Panic
           | Fuel => Fuel
           end.

Notation "x <-$ c1 ; c2" := (act_bind c1 (fun x => c2))
  (at level 100, c1 at next level, right associativity) : go_scope.

Notation "' pat <-$ c1 ; c2" := (act_bind c1 (fun x => match x with pat => c2 end))
  (at level 20, pat pattern, c1 at level 100, c2 at level 200) : go_scope.

Definition act_of {W A : Type} (r : res dev_error A) : act W A :=
  match r with Ok a => act_ret a | Err e => act_fail e end.

Definition act_of_outcome {W A : Type} (r : outcome A) : act W A :=
  match r with Done a => act_ret a | Panic => act_panic | Fuel => fun w => Fuel end.

(** The claims of the API server. *)
Class ClaimApi (W : Type) `{!Quantities} := {
  list_claims : gmap gostring gostring -> act W (list Claim);
  create_claim : Claim -> act W Claim;
  get_claim : gostring -> act W Claim;
  delete_claim : gostring -> act W unit;
  claim_events : Claim -> act W (list gostring);
  now : W -> Z
}.

(** The parts of a controller used here; [config] is the service's. *)
Record DevController := mkDevCtl {
  ctl : Controller;
  Identifier : gostring;
  ctl_DevModeType : gostring;
  config : ServiceConfigV2;
  action : DevModeAction
}.

Definition IsDuplicateDevMode (d : gostring) : bool := bool_decide (d = DuplicateDevMode).

Definition getDuplicateLabelsMap (c : DevController) : gmap gostring gostring :=
  <[IdentifierKey := Identifier c]> (<[OriginWorkloadNameKey := c_name (ctl c)]>
    (<[OriginWorkloadTypeKey := c_type (ctl c)]> (<[DevWorkloadIgnored := go "true"]> ∅))).

(** ** Configuration of a container ([config.go], [dev_start.go]) *)

Definition dev_field {A : Type} (c : DevController) (container : gostring) (get : ContainerDevConfig -> A)
    (is_set : ContainerDevConfig -> bool) (d : A) : A :=
  match GetContainerDevConfigOrDefault (config c) container with
  | Some devConfig => if is_set devConfig then get devConfig else d
  | None => d
  end.

Definition nonempty (s : gostring) : bool := negb (bool_decide (s = [])).

Definition GetWorkDir (c : DevController) (container : gostring) : gostring :=
  dev_field c container WorkDir (fun d => nonempty (WorkDir d)) DefaultWorkDir.

Definition GetStorageClass (c : DevController) (container : gostring) : gostring :=
  dev_field c container StorageClass (fun d => nonempty (StorageClass d)) [].

Definition GetDevImage (c : DevController) (container : gostring) : gostring :=
  dev_field c container Image (fun d => nonempty (Image d)) DefaultDevImage.

Definition GetPersistentVolumeDirs (c : DevController) (container : gostring) : list PersistentVolumeDir :=
  dev_field c container PersistentVolumeDirs (fun _ => true) [].

(** The pull policy is only read when an image is set. *)
Definition GetImagePullPolicy (c : DevController) (container : gostring) : gostring :=
  dev_field c container ImagePullPolicy (fun d => nonempty (Image d)) PullIfNotPresent.

Definition config_matches (container : gostring) (v : ContainerConfig) : bool :=
  bool_decide (cc_Name v = container) || bool_decide (container = []).

(** The values of a later setting win; a matching container without a
    development section is dereferenced. *)
Fixpoint collect_env (container : gostring) (l : list ContainerConfig) (kvMap : gmap gostring gostring)
    : outcome (gmap gostring gostring) :=
  match l with
  | [] => Done kvMap
  | v :: l =>
      if config_matches container v then
        match Dev v with
        | None => Panic
        | Some dev => collect_env container l (foldl (fun kv env => <[fst env := snd env]> kv) kvMap (dev_Env dev))
        end
      else collect_env container l kvMap
  end.

Definition GetDevContainerEnv `{!MapOrder gostring} (c : DevController) (container : gostring)
    : outcome (list (gostring * gostring)) :=
  kvMap <~ collect_env container (ContainerConfigs (config c)) ∅;
  Done (range kvMap).

Definition GetDevSidecarImage (c : DevController) (container : gostring) : gostring :=
  match List.find (fun v => config_matches container v && bool_decide (is_Some (Dev v))) (ContainerConfigs (config c)) with
  | Some v => from_option SidecarImage [] (Dev v)
  | None => []
  end.

Definition dev_name_of (v : ContainerConfig) : gostring := from_option DevContainerName [] (Dev v).

Definition GetDevContainerName (c : DevController) (container : gostring) : gostring :=
  match List.find (fun v => config_matches container v && nonempty (dev_name_of v)) (ContainerConfigs (config c)) with
  | Some v => dev_name_of v
  | None => NocalhostDefaultDevContainerName
  end.

Definition debug_of (v : ContainerConfig) : option DebugConfig := Dev v ≫= DebugConf.

Definition GetDevSidecarLanguage (c : DevController) (container : gostring) : gostring :=
  match List.find (fun v => config_matches container v && bool_decide (is_Some (debug_of v)))
          (ContainerConfigs (config c)) with
  | Some v => from_option Language [] (debug_of v)
  | None => []
  end.

Definition GetSyncThingSecretName (c : DevController) : gostring :=
  if IsDuplicateDevMode (ctl_DevModeType c)
  then Join [c_name (ctl c); c_type (ctl c); SyncSecretName; go "dup"; Identifier c] (go "-")
  else Join [c_name (ctl c); c_type (ctl c); SyncSecretName] (go "-").

Definition getDevContainerAnnotations (c : DevController) (devContainer : gostring)
    (originAnnos : gmap gostring gostring) : gmap gostring gostring :=
  <[NocalhostDevContainerAnnotations := GetDevContainerName c devContainer]> originAnnos.

(** ** Volumes *)

Definition generateSyncVolumesAndMounts (c : DevController) : list Volume * list VolumeMount :=
  let mode := DefaultNewFilePermission in
  let item (k : gostring) := (k, k, mode) in
  ([mkVolume EmptyDir EmptyDirVolume;
    mkVolume SyncSecretName
      (SecretVolume (GetSyncThingSecretName c) [item (go "config.xml"); item (go "cert.pem"); item (go "key.pem")] mode)],
   [mkMount EmptyDir SyncthingHome (go "syncthing") [];
    mkMount SyncSecretName SyncthingSecretHome [] []]).

Section claims.
Context `{!Quantities} {W : Type} `{!ClaimApi W} (sha1 : gostring -> gostring).

(** [clientgoutils.CreatePVC]. *)
Definition CreatePVC (name : gostring) (labels annotations : gmap gostring gostring) (quantityStr : gostring)
    (storageClassName : option gostring) : act W Claim :=
  match ParseQ quantityStr with
  | None => act_fail ErrQuantity
  | Some q => create_claim (mkClaim name labels annotations q storageClassName [] [])
  end.

Definition ClaimBound : gostring := go "Bound".

(** Whether a condition of the claim says that it waits for its first consumer,
    before one that says that provisioning failed.  Their messages are logged. *)
Fixpoint waits_for_consumer (l : list (gostring * gostring)) : bool :=
  match l with
  | [] => false
  | (reason, _) :: l =>
      if bool_decide (reason = go "ProvisioningFailed") then false
      else if bool_decide (reason = go "WaitForFirstConsumer") then true
      else waits_for_consumer l
  end.

(** The rounds of the wait.  [pvc] is what the last read returned: nil after a
    failed one, and its name is read first in the next round and after the last. *)
Fixpoint wait_bound (rounds : nat) (path : gostring) (pvc : option Claim) : act W Claim :=
  match pvc with
  | None => act_panic
  | Some claim =>
      match rounds with
      | O =>
          _ <-$ delete_claim (claim_Name claim);
          act_fail (ErrCreatePvc path)
      | S rounds =>
          r <-$ act_try (get_claim (claim_Name claim));
          match r with
          | Err _ => wait_bound rounds path None
          | Ok claim =>
              if bool_decide (claim_Phase claim = ClaimBound) then act_ret claim
              else if waits_for_consumer (claim_Conditions claim) then act_ret claim
              else
                es <-$ act_try (claim_events claim);
                match es with
                | Ok reasons =>
                    if bool_decide (go "WaitForFirstConsumer" ∈ reasons) then act_ret claim
                    else wait_bound rounds path (Some claim)
                | Err _ => wait_bound rounds path (Some claim)
                end
          end
      end
  end.

Definition claim_rounds : nat := 30.

Definition createPvcForPersistentVolumeDir (c : DevController) (v : PersistentVolumeDir)
    (labels : gmap gostring gostring) (storageClass : gostring) : act W Claim := fun w =>
  let pvcName := c_app (ctl c) ++ go "-" ++ Itoa (now w) in
  let annotations := {[PersistentVolumeDirLabel := pvd_Path v]} in
  let capacity := if bool_decide (pvd_Capacity v = []) then go "10Gi" else pvd_Capacity v in
  let class := if bool_decide (storageClass = []) then None else Some storageClass in
  (pvc <-$ CreatePVC pvcName labels annotations capacity class;
   if pvd_WaitForFirstConsumer v then act_ret pvc
   else wait_bound claim_rounds (pvd_Path v) (Some pvc)) w.

Definition claim_labels (c : DevController) (duplicateDevMode : bool) (path : gostring) : gmap gostring gostring :=
  let labels := if duplicateDevMode then <[DevWorkloadIgnored := go "false"]> (getDuplicateLabelsMap c) else ∅ in
  <[PersistentVolumeDirLabel := sha1 path]> (<[ServiceTypeLabel := c_type (ctl c)]>
    (<[ServiceLabel := c_name (ctl c)]> (<[AppLabel := c_app (ctl c)]> labels))).

(** What the loop over the persistent directories accumulates. *)
Record dir_state := mkDirs {
  workDirVol : Volume;
  workDirDefined : bool;
  workDirReside : bool;
  dir_volumes : list Volume;
  dir_mounts : list VolumeMount
}.

Definition persist_name (index : nat) : gostring := go "persist-volume-" ++ Itoa (Z.of_nat index).

Definition dir_mounted (workDir : gostring) (index : nat) (path claimName : gostring) (s : dir_state) : dir_state :=
  if bool_decide (path = workDir) then
    mkDirs (mkVolume (vol_Name (workDirVol s)) (ClaimVolume claimName)) true (workDirReside s) (dir_volumes s) (dir_mounts s)
  else
    mkDirs (workDirVol s) (workDirDefined s)
      (if HasPrefix workDir path && negb (workDirDefined s) then true else workDirReside s)
      (dir_volumes s ++ [mkVolume (persist_name index) (ClaimVolume claimName)])
      (dir_mounts s ++ [mkMount (persist_name index) path [] []]).

(** The claim of a directory, or [None] when the directory is skipped. *)
Definition dir_claim (c : DevController) (container storageClass : gostring) (duplicateDevMode : bool)
    (v : PersistentVolumeDir) : act W (option gostring) :=
  let labels := claim_labels c duplicateDevMode (pvd_Path v) in
  r <-$ act_try (list_claims labels);
  match r with
  | Err _ => act_ret None
  | Ok [] =>
      let storageClass := if nonempty (GetStorageClass c container) then GetStorageClass c container else storageClass in
      r <-$ act_try (createPvcForPersistentVolumeDir c v labels storageClass);
      match r with
      | Ok pvc => act_ret (Some (claim_Name pvc))
      | Err _ => act_fail (ErrCreatePvc (pvd_Path v))
      end
  | Ok [claim] => act_ret (Some (claim_Name claim))
  | Ok _ => act_ret None
  end.

Fixpoint mount_dirs (c : DevController) (container storageClass : gostring) (duplicateDevMode : bool)
    (index : nat) (l : list PersistentVolumeDir) (s : dir_state) : act W dir_state :=
  match l with
  | [] => act_ret s
  | v :: l =>
      if bool_decide (pvd_Path v = []) then mount_dirs c container storageClass duplicateDevMode (S index) l s
      else
        claimName <-$ dir_claim c container storageClass duplicateDevMode v;
        mount_dirs c container storageClass duplicateDevMode (S index) l
          match claimName with
          | None => s
          | Some claimName => dir_mounted (GetWorkDir c container) index (pvd_Path v) claimName s
          end
  end.

Definition SharedVolume : gostring := go "nocalhost-shared-volume".

Definition no_dirs : dir_state := mkDirs (mkVolume SharedVolume EmptyDirVolume) false false [] [].

Definition mount_workdir (workDir : gostring) (ignoreWorkDir : bool) (s : dir_state) : list Volume * list VolumeMount :=
  if (workDirDefined s || negb (workDirReside s)) && negb ignoreWorkDir
  then (dir_volumes s ++ [workDirVol s], dir_mounts s ++ [mkMount (vol_Name (workDirVol s)) workDir [] []])
  else (dir_volumes s, dir_mounts s).

Definition genWorkDirAndPVAndMounts (c : DevController) (container storageClass : gostring)
    (ignoreWorkDir duplicateDevMode : bool) : act W (list Volume * list VolumeMount) :=
  s <-$ mount_dirs c container storageClass duplicateDevMode 0 (GetPersistentVolumeDirs c container) no_dirs;
  act_ret (mount_workdir (GetWorkDir c container) ignoreWorkDir s).

(** ** Resources *)

Definition ResourceMemory : gostring := go "memory".
Definition ResourceCPU : gostring := go "cpu".

Definition put_quantity (name text : gostring) (m : gmap gostring quantity) : res dev_error (gmap gostring quantity) :=
  if bool_decide (text = []) then Ok m
  else match ParseQ text with
       | None => Err ErrQuantity
       | Some q => Ok (<[name := q]> m)
       end.

Definition convertToResourceList (cpu mem : gostring) : res dev_error (gmap gostring quantity) :=
  m <-! put_quantity ResourceMemory mem ∅;
  put_quantity ResourceCPU cpu m.

Definition convert_list (q : option QuotaList) : res dev_error (option (gmap gostring quantity)) :=
  match q with
  | None => Ok None
  | Some q => m <-! convertToResourceList (Cpu q) (Memory q); Ok (Some m)
  end.

Definition convertResourceQuota (quota : ResourceQuota) : res dev_error ResourceRequirements :=
  requests <-! convert_list (Requests quota);
  limits <-! convert_list (Limits quota);
  if bool_decide (dom (default ∅ limits) = ∅) && bool_decide (dom (default ∅ requests) = ∅) then Err ErrNoRequirements
  else Ok (mkReq limits requests).

Definition genResourceReq (c : DevController) (container : gostring) : option ResourceRequirements :=
  match GetContainerDevConfigOrDefault (config c) container with
  | None => None
  | Some containerConfig =>
      match DevContainerResources containerConfig with
      | None => None
      | Some quota => match convertResourceQuota quota with Ok r => Some r | Err _ => None end
      end
  end.

(** [ResourceList.Memory] and [Cpu]: never nil. *)
Definition resource_of (name : gostring) (m : gmap gostring quantity) : quantity := default q_zero (m !! name).

Definition below_literal (q : quantity) (text : gostring) : bool :=
  match q_cmp q (default q_zero (ParseQ text)) with Lt => true | _ => false end.

Definition IsResourcesLimitTooLow (r : ResourceRequirements) : bool :=
  match rr_Limits r with
  | None => false
  | Some limits =>
      below_literal (resource_of ResourceMemory limits) (go "2Gi") ||
      below_literal (resource_of ResourceCPU limits) (go "2")
  end.

(** What is logged about the limits of the development container. *)
Definition limits_warning (r : ResourceRequirements) : option gostring :=
  if IsResourcesLimitTooLow r then
    Some match rr_Limits r with
         | None => []
         | Some limits =>
             let cpu := q_String (resource_of ResourceCPU limits) ++ go " cpu" in
             let memory := q_String (resource_of ResourceMemory limits) in
             if bool_decide (memory = go "0") then cpu else cpu ++ go ", " ++ memory ++ go " memory"
         end
  else None.

(** ** Containers *)

Definition generateSideCarContainer (sidecarImage workDir : gostring) (sshUsed : bool) : Container :=
  let image := if bool_decide (sidecarImage = []) then if sshUsed then SSHSideCarImage else DefaultSideCarImage
               else sidecarImage in
  let start := go "unset STGUIADDRESS && cp " ++ SyncthingSecretHome ++ go "/* " ++ SyncthingHome ++
               go "/ && /bin/entrypoint.sh && /bin/syncthing -home /var/syncthing" in
  mkPodContainer NocalhostDefaultDevSidecarName image [go "/bin/sh"; go "-c"]
    [if sshUsed then go "rc-service sshd restart && " ++ start else start]
    workDir [] [] (mkReq None None) [] None None None []
    (if sshUsed then Some (mkSecurity (Some 0%Z) None []) else None) [].

Definition sidecarContainerSSHUsed (devLanguage devImage : gostring) : bool :=
  if nonempty devLanguage then bool_decide (devLanguage = go "php") else Contains devImage (go "php").

(** The pointer is the index in the pod. *)
Definition findDevContainerInPodSpec (pod : PodSpec) (containerName : gostring) : res dev_error nat :=
  if nonempty containerName then
    match list_find (fun c => pc_Name c = containerName) (ps_Containers pod) with
    | Some (index, _) => Ok index
    | None => Err (ErrContainerNotFound containerName)
    end
  else match ps_Containers pod with
       | [] => Err ErrNoContainer
       | [_] => Ok 0
       | _ => Err ErrManyContainers
       end.

(** The last mount at the working directory. *)
Definition workdir_mount (workDir : gostring) (l : list VolumeMount) : option VolumeMount :=
  last (filter (fun m => vm_MountPath m = workDir) l).

Definition dev_container (c : DevController) (containerName devImage : gostring) (env : list (gostring * gostring))
    (mounts : list VolumeMount) (d : Container) : Container :=
  mkPodContainer (GetDevContainerName c containerName) devImage
    [go "/bin/sh"; go "-c"; go "tail -f /dev/null"] (pc_Args d) (GetWorkDir c containerName) (pc_Ports d)
    (pc_Env d ++ ((fun kv => mkEnv (fst kv) (snd kv) None) <$> env))
    (default (pc_Resources d) (genResourceReq c containerName))
    (pc_VolumeMounts d ++ mounts) (LivenessProbe d) (ReadinessProbe d) (StartupProbe d)
    (GetImagePullPolicy c containerName) (pc_SecurityContext d) (pc_rest d).

Definition sidecar_quota : ResourceQuota :=
  mkResources (Some (mkQuota (go "1Gi") (go "1"))) (Some (mkQuota (go "50Mi") (go "100m"))).

Definition sidecar_with (s : Container) (pullPolicy : gostring) (mounts : list VolumeMount) (r : ResourceRequirements)
    : Container :=
  mkPodContainer (pc_Name s) (pc_Image s) (pc_Command s) (pc_Args s) (pc_WorkingDir s) (pc_Ports s) (pc_Env s) r
    (pc_VolumeMounts s ++ mounts) (LivenessProbe s) (ReadinessProbe s) (StartupProbe s) pullPolicy
    (pc_SecurityContext s) (pc_rest s).

(** The pod with its development container rewritten in place, the index of
    that container, the sidecar and the volumes of dev mode. *)
Definition genContainersAndVolumes `{!MapOrder gostring} (c : DevController) (podSpec : PodSpec)
    (containerName devImage storageClass : gostring) (duplicateDevMode : bool)
    : act W (PodSpec * nat * Container * list Volume) :=
  index <-$ act_of (findDevContainerInPodSpec podSpec containerName);
  match ps_Containers podSpec !! index with
  | None => act_panic
  | Some devContainer =>
      let workDir := GetWorkDir c containerName in
      let workDirVolumeMount := workdir_mount workDir (pc_VolumeMounts devContainer) in
      let '(syncVolumes, syncMounts) := generateSyncVolumesAndMounts c in
      '(dirVolumes, dirMounts) <-$ genWorkDirAndPVAndMounts c containerName storageClass
                                     (bool_decide (is_Some workDirVolumeMount)) duplicateDevMode;
      let devModeMounts := syncMounts ++ dirMounts in
      let devImage := if nonempty devImage then devImage else GetDevImage c containerName in
      let sshUsed := sidecarContainerSSHUsed (GetDevSidecarLanguage c containerName) devImage in
      let sideCar := generateSideCarContainer (GetDevSidecarImage c containerName) workDir sshUsed in
      env <-$ act_of_outcome (GetDevContainerEnv c containerName);
      let devContainer := dev_container c containerName devImage env devModeMounts devContainer in
      match convertResourceQuota sidecar_quota with
      | Err _ => act_panic
      | Ok rq =>
          let sideCar := sidecar_with sideCar (GetImagePullPolicy c containerName)
                           (devModeMounts ++ option_list workDirVolumeMount) rq in
          act_ret (with_containers podSpec (<[index := devContainer]> (ps_Containers podSpec)), index, sideCar,
                   syncVolumes ++ dirVolumes)
      end
  end.

Definition no_probes (c : Container) : Container :=
  mkPodContainer (pc_Name c) (pc_Image c) (pc_Command c) (pc_Args c) (pc_WorkingDir c) (pc_Ports c) (pc_Env c)
    (pc_Resources c) (pc_VolumeMounts c) None None None (pc_ImagePullPolicy c) (pc_SecurityContext c) (pc_rest c).

(** [devContainer] is the index of the container in this very pod. *)
Definition patchDevContainerToPodSpec (podSpec : PodSpec) (containerName : gostring) (devContainer : nat)
    (sidecarContainer : Container) (devModeVolumes : list Volume) : outcome PodSpec :=
  match ps_Containers podSpec !! devContainer with
  | None => Panic
  | Some dev =>
      let containers :=
        if nonempty containerName then
          match list_find (fun c => pc_Name c = containerName) (ps_Containers podSpec) with
          | Some (index, _) => <[index := dev]> (ps_Containers podSpec)
          | None => ps_Containers podSpec
          end
        else <[0 := dev]> (ps_Containers podSpec) in
      Done (with_containers (with_volumes podSpec (ps_Volumes podSpec ++ devModeVolumes))
              ((no_probes <$> containers) ++ [sidecarContainer]))
  end.

(** The two calls as every way into dev mode makes them. *)
Definition develop_pod `{!MapOrder gostring} (c : DevController) (podSpec : PodSpec)
    (containerName devImage storageClass : gostring) (duplicateDevMode : bool) : act W PodSpec :=
  '(podSpec, devContainer, sideCarContainer, devModeVolumes) <-$
    genContainersAndVolumes c podSpec containerName devImage storageClass duplicateDevMode;
  act_of_outcome (patchDevContainerToPodSpec podSpec containerName devContainer sideCarContainer devModeVolumes).
End claims.

(** ** Running pods *)

(** The value [strconv.Atoi] returns beside its error: nothing for a syntax
    error, the nearest integer when the number is out of range, which is noticed
    before the text that follows is read. *)
Definition uint64_max : Z := 18446744073709551615%Z.

Fixpoint scan_uint (acc : Z) (s : gostring) : Z :=
  match s with
  | [] => acc
  | ch :: s =>
      match digit_val ch with
      | None => 0
      | Some d => let n := (10 * acc + d)%Z in if (uint64_max <? n)%Z then uint64_max else scan_uint n s
      end
  end.

Definition Atoi_value (s : gostring) : Z :=
  let '(neg, ds) := match s with
                    | "-"%char :: t => (true, t)
                    | "+"%char :: t => (false, t)
                    | _ => (false, s)
                    end in
  let v := if neg then (- scan_uint 0 ds)%Z else scan_uint 0 ds in
  Z.max int64_min (Z.min v int64_max).

Inductive container_state :=
  | Running
  | Terminated
  | Waiting (reason message : gostring)
  | NoState.

Record ContainerStatus := mkCStatus {
  cs_Name : gostring;
  cs_Ready : bool;
  cs_State : container_state
}.

Record PodCondition := mkCond {
  cond_Status : gostring;
  cond_Reason : gostring;
  cond_Message : gostring
}.

Record Pod := mkPod {
  pod_Name : gostring;
  pod_ResourceVersion : gostring;
  pod_Deleting : bool;
  pod_Annotations : gmap gostring gostring;
  pod_Containers : list gostring;
  pod_Phase : gostring;
  pod_Conditions : list PodCondition;
  pod_Statuses : list ContainerStatus
}.

Definition pod_dev_container (pod : Pod) : gostring :=
  default NocalhostDefaultDevContainerName (pod_Annotations pod !! NocalhostDevContainerAnnotations).

(** A pod is listed once for each sidecar it has. *)
Definition dev_pods (podList : list Pod) : list Pod :=
  podList ≫= fun pod =>
    if pod_Deleting pod then []
    else (fun _ => pod) <$> filter (fun n => n = DefaultNocalhostSideCarName) (pod_Containers pod).

Definition latest (best pod : Pod) : Pod :=
  if (Atoi_value (pod_ResourceVersion best) <? Atoi_value (pod_ResourceVersion pod))%Z then pod else best.

Definition ready_count (pod : Pod) : nat :=
  length (filter (fun s => (cs_Name s = pod_dev_container pod \/ cs_Name s = DefaultNocalhostSideCarName) /\ cs_Ready s = true)
            (pod_Statuses pod)).

Definition findDevPodName (podList : list Pod) : res dev_error gostring :=
  match dev_pods podList with
  | [] => Err ErrNotFound
  | pod :: resultPodList =>
      let latestPod := foldl latest pod resultPodList in
      if bool_decide (ready_count latestPod = 2) then Ok (pod_Name latestPod) else Err ErrNotReady
  end.

Definition nl : gostring := [ascii_of_nat 10].

Definition condition_text (c : PodCondition) : gostring :=
  if bool_decide (cond_Status c = go "True") then []
  else nl ++ go " * Condition: " ++ cond_Reason c ++ go ", " ++ cond_Message c.

Definition status_text (s : ContainerStatus) : gostring :=
  nl ++ go " >> Container: " ++ cs_Name s ++
  match cs_State s with
  | Running => go " is Running"
  | Terminated => go " is Terminated"
  | Waiting reason message =>
      go " is Waiting, Reason: " ++ reason ++ if nonempty message then go " Msg: " ++ message else []
  | NoState => []
  end.

Definition of_dev_mode (pod : Pod) (name : gostring) : Prop :=
  name = pod_dev_container pod \/ name = NocalhostDefaultDevSidecarName.

#[export] Instance of_dev_mode_dec pod name : Decision (of_dev_mode pod name).
Proof. unfold of_dev_mode. apply _. Defined.

(** Whether the pod is a development pod, and the status handed to the printer. *)
Definition containerStatusForDevPod (pod : Pod) : bool * option gostring :=
  if pod_Deleting pod then (false, None)
  else if bool_decide (length (filter (of_dev_mode pod) (pod_Containers pod)) < 2) then (false, None)
  else
    let head := go "Pod " ++ pod_Name pod ++ go " now " ++ pod_Phase pod in
    let conditionMsg := concat (condition_text <$> pod_Conditions pod) in
    let msg := concat (status_text <$> filter (fun s => of_dev_mode pod (cs_Name s)) (pod_Statuses pod)) in
    (true, if nonempty msg || nonempty conditionMsg then Some (head ++ conditionMsg ++ msg ++ nl) else None).

(** ** Traffic mesh ([duplicate.go]) *)

Section mesh.
Context `{!Quantities}.

(** [for k, v = range header { break }]. *)
Definition first_header `{!MapOrder gostring} (header : gmap gostring gostring) : gostring * gostring :=
  default ([], []) (head (range header)).

Definition addAnnotationToDuplicate `{!MapOrder gostring} (podTemplate : PodTemplateSpec) (uuid : gostring)
    (header : gmap gostring gostring) : outcome PodTemplateSpec :=
  let '(k, v) := first_header header in
  match ps_Containers (pt_Spec podTemplate) with
  | c :: _ =>
      match pc_Ports c with
      | port :: _ =>
          Done (with_pod_annotations podTemplate
                  (<[AnnotationMeshHeaderValue := v]> (<[AnnotationMeshHeaderKey := k]>
                     (<[AnnotationMeshPort := Itoa port]> (<[AnnotationMeshType := go "dev"]>
                        (<[AnnotationMeshEnable := go "true"]> (<[AnnotationMeshUuid := uuid]> (pt_Annotations podTemplate))))))))
      | [] => Panic
      end
  | [] => Panic
  end.

Definition addAnnotationToMesh (podTemplate : PodTemplateSpec) (uuid : gostring) : PodTemplateSpec :=
  with_pod_annotations podTemplate
    (<[AnnotationMeshType := go "origin"]> (<[AnnotationMeshEnable := go "true"]>
       (<[AnnotationMeshUuid := uuid]> (pt_Annotations podTemplate)))).

Definition not_mesh (c : Container) : Prop := pc_Name c <> EnvoyMeshSidecarName.

#[export] Instance not_mesh_dec c : Decision (not_mesh c).
Proof. unfold not_mesh. apply _. Defined.

(** The loop that removes container [i] and looks at [i] again. *)
Fixpoint remove_mesh (fuel : nat) (i : nat) (found : bool) (l : list Container) : bool * list Container :=
  match fuel with
  | O => (found, l)
  | S fuel =>
      match l !! i with
      | None => (found, l)
      | Some c =>
          if bool_decide (pc_Name c = EnvoyMeshSidecarName) then remove_mesh fuel i true (take i l ++ drop (S i) l)
          else remove_mesh fuel (S i) found l
      end
  end.

Definition port_set (l : list Container) : gset gostring := list_to_set (Itoa <$> (l ≫= pc_Ports)).

(** [sets.String]'s sorted [List]. *)
Definition set_list (s : gset gostring) : list gostring := merge_sort str_le (elements s).

Definition envoy_sidecar (ports : gset gostring) : Container :=
  mkPodContainer EnvoyMeshSidecarName EnvoySidecarImage []
    [go "envoy"; go "-c"; go "/etc/envoy/envoy.yaml"; go "-l"; go "trace"; go "--service-node"; go "$(POD_NAME)"]
    [] []
    [mkEnv (go "POD_NAME") [] (Some (go "metadata.name"));
     mkEnv (go "NOCALHOST_PORT") (Join (set_list ports) (go ",")) None]
    (mkReq None None) [] None None None PullIfNotPresent (Some (mkSecurity None (Some true) [])) [].

Definition AddEnvoySidecarForMesh (spec : PodTemplateSpec) : PodTemplateSpec * bool :=
  let l := ps_Containers (pt_Spec spec) in
  let '(found, l) := remove_mesh (length l) 0 false l in
  let port := port_set l in
  let port := if bool_decide (port = ∅) then {[go "8080"; go "80"]} else port in
  (with_spec spec (with_containers (pt_Spec spec) (l ++ [envoy_sidecar port])), found).
End mesh.
