(* ===== verification/DevPodThms.v ===== *)
(** * Theorems about the development pod

    What the rewritten pod looks like, that it is well formed, that the working
    directory is shared with the sidecar, which running pod is the development
    pod, what the mesh sidecar listens to, and how claims are found and awaited. *)

From stdpp Require Import sorting.
From S2P Require Import Prelude GoStrings FilePath DevDir AppMeta Search Profile PortForward Config DevPod.
#[local] Open Scope go_scope.

(** ** Steps *)

Lemma act_bind_inv {W A B : Type} (c : act W A) (k : A -> act W B) w w' b :
  act_bind c k w = Done (w', Ok b) -> exists w1 a, c w = Done (w1, Ok a) /\ k a w1 = Done (w', Ok b).
Proof. unfold act_bind. intros H. go_cases; eauto. Qed.

Lemma act_of_inv {W A : Type} (r : res dev_error A) (w w' : W) a :
  act_of r w = Done (w', Ok a) -> w' = w /\ r = Ok a.
Proof. destruct r; intros H; unfold act_of, act_ret, act_fail in H; by simplify_eq. Qed.

Lemma act_of_outcome_inv {W A : Type} (r : outcome A) (w w' : W) a :
  act_of_outcome r w = Done (w', Ok a) -> w' = w /\ r = Done a.
Proof. destruct r; intros H; unfold act_of_outcome, act_ret, act_panic in H; by simplify_eq. Qed.

Lemma act_try_inv {W A : Type} (c : act W A) (w w' : W) r :
  act_try c w = Done (w', Ok r) -> c w = Done (w', r).
Proof. unfold act_try. intros H. by go_cases. Qed.

(** Take a successful run apart into its steps. *)
Ltac act_inv :=
  repeat match goal with
  | H : act_bind _ _ _ = Done (_, Ok _) |- _ =>
      let w := fresh "w" in let a := fresh "a" in let E := fresh "Hstep" in
      apply act_bind_inv in H as (w & a & E & H)
  | H : act_of _ _ = Done (_, Ok _) |- _ => apply act_of_inv in H as [-> H]
  | H : act_of_outcome _ _ = Done (_, Ok _) |- _ => apply act_of_outcome_inv in H as [-> H]
  | H : act_try _ _ = Done (_, Ok _) |- _ => apply act_try_inv in H
  | H : act_ret _ _ = Done (_, Ok _) |- _ => unfold act_ret in H; simplify_eq
  | H : act_fail _ _ = Done (_, Ok _) |- _ => unfold act_fail in H; simplify_eq
  | H : act_panic _ = Done (_, Ok _) |- _ => unfold act_panic in H; simplify_eq
  end.

Lemma nonempty_true s : nonempty s = true <-> s <> [].
Proof. unfold nonempty. rewrite negb_true_iff, bool_decide_eq_false. done. Qed.

Section pods.
Context `{Q : !Quantities} {W : Type} `{CA : !ClaimApi W} `{MO : !MapOrder gostring} (sha1 : gostring -> gostring).
Implicit Types (c : DevController) (p : PodSpec) (m : VolumeMount).

(** ** The directories *)

Lemma persist_name_inj i j : persist_name i = persist_name j -> i = j.
Proof.
  unfold persist_name. intros H. apply app_inj_1 in H as [_ H]; [|done].
  unfold Itoa in H. rewrite !(proj2 (Z.ltb_ge _ _)) in H by lia.
  apply (f_equal (undigits 0)) in H. rewrite !undigits_digits in H by lia. simplify_eq. lia.
Qed.

(** The names the code gives to volumes. *)
Definition dev_volume (n : gostring) : Prop :=
  n ∈ [EmptyDir; SyncSecretName; SharedVolume] \/ exists j, n = persist_name j.

Lemma persist_name_fixed j : persist_name j ∉ [EmptyDir; SyncSecretName; SharedVolume].
Proof. rewrite !not_elem_of_cons. unfold persist_name. repeat split; try done. apply not_elem_of_nil. Qed.

Record dirs_ok (workDir : gostring) (paths : list gostring) (index : nat) (s : dir_state) : Prop := {
  ok_vol : vol_Name (workDirVol s) = SharedVolume;
  ok_fresh : forall n, n ∈ vol_Name <$> dir_volumes s -> exists j, j < index /\ n = persist_name j;
  ok_nodup : NoDup (vol_Name <$> dir_volumes s);
  ok_mounts : vm_Name <$> dir_mounts s = vol_Name <$> dir_volumes s;
  ok_reside : workDirReside s = true ->
    exists m, m ∈ dir_mounts s /\ HasPrefix workDir (vm_MountPath m) = true /\ vm_MountPath m ∈ paths
}.

Lemma no_dirs_ok workDir paths : dirs_ok workDir paths 0 no_dirs.
Proof. split; simpl; [done|set_solver|constructor|done|done]. Qed.

Lemma dirs_ok_next workDir paths index s : dirs_ok workDir paths index s -> dirs_ok workDir paths (S index) s.
Proof. intros []. split; auto. intros n Hn. destruct (ok_fresh0 n Hn) as (j & ? & ?). eauto with lia. Qed.

Lemma dir_mounted_ok workDir paths index path claimName s :
  path ∈ paths -> dirs_ok workDir paths index s ->
  dirs_ok workDir paths (S index) (dir_mounted workDir index path claimName s).
Proof.
  intros Hp Hok. pose proof (dirs_ok_next _ _ _ _ Hok) as Hok'. unfold dir_mounted.
  destruct (bool_decide (path = workDir)); [by destruct Hok'; split|].
  destruct Hok as [Hv Hf Hn Hm Hr]. destruct Hok' as [_ Hf' _ _ _].
  split; simpl; rewrite ?fmap_app; simpl; [done| | |by f_equal|].
  - intros n [Hin| ->%list_elem_of_singleton]%elem_of_app; [by apply Hf'|]. eauto with lia.
  - apply NoDup_app. split; [done|]. split; [|apply NoDup_singleton].
    intros n Hin ->%list_elem_of_singleton. destruct (Hf _ Hin) as (j & ? & Hj%persist_name_inj). lia.
  - intros Hres. destruct (HasPrefix workDir path && negb (workDirDefined s)) eqn:E.
    + apply andb_prop in E as [E _]. eexists. split; [apply elem_of_app; right; by apply list_elem_of_singleton|done].
    + destruct (Hr Hres) as (m & ? & ?). exists m. split; [set_solver|done].
Qed.

Lemma mount_dirs_ok c container storageClass dup l : forall index s s' paths w w',
  (forall v, v ∈ l -> pvd_Path v ∈ paths) ->
  dirs_ok (GetWorkDir c container) paths index s ->
  mount_dirs sha1 c container storageClass dup index l s w = Done (w', Ok s') ->
  exists index', dirs_ok (GetWorkDir c container) paths index' s'.
Proof.
  induction l as [|v l IH]; intros index s s' paths w w' Hl Hok H; cbn [mount_dirs] in H; [act_inv; eauto|].
  assert (forall v, v ∈ l -> pvd_Path v ∈ paths) by set_solver.
  case_bool_decide; [eapply IH; [done| |done]; by apply dirs_ok_next|].
  act_inv. eapply IH; [done| |done]. destruct a as [claimName|]; [|by apply dirs_ok_next].
  apply dir_mounted_ok; [|done]. apply Hl. set_solver.
Qed.

Lemma gen_dirs_inv c container storageClass ignore dup w w' vols mounts :
  genWorkDirAndPVAndMounts sha1 c container storageClass ignore dup w = Done (w', Ok (vols, mounts)) ->
  exists index s, dirs_ok (GetWorkDir c container) (pvd_Path <$> GetPersistentVolumeDirs c container) index s /\
    (vols, mounts) = mount_workdir (GetWorkDir c container) ignore s.
Proof.
  unfold genWorkDirAndPVAndMounts. intros H. act_inv.
  eapply mount_dirs_ok in Hstep as [index Hok]; [| |apply no_dirs_ok].
  - exists index, a. eauto.
  - intros v Hv. by apply list_elem_of_fmap_2.
Qed.

(** ** The pod *)

(** One container is developed, the others lose their probes, the sidecar is
    last, and the volumes of dev mode follow the pod's own. *)
Record developed c (containerName devImage : gostring) p p' (i : nat) (d side : Container)
    (env : list (gostring * gostring)) (vols : list Volume) (mounts : list VolumeMount) : Prop := {
  dv_find : findDevContainerInPodSpec p containerName = Ok i;
  dv_at : ps_Containers p !! i = Some d;
  dv_env : GetDevContainerEnv c containerName = Done env;
  dv_containers : ps_Containers p' =
    (no_probes <$> <[i := dev_container c containerName
                            (if nonempty devImage then devImage else GetDevImage c containerName)
                            env mounts d]> (ps_Containers p)) ++ [side];
  dv_volumes : ps_Volumes p' = ps_Volumes p ++ vols;
  dv_side : pc_Name side = NocalhostDefaultDevSidecarName;
  dv_side_mounts : pc_VolumeMounts side =
    mounts ++ option_list (workdir_mount (GetWorkDir c containerName) (pc_VolumeMounts d));
  dv_rest : (ps_NodeName p', ps_RestartPolicy p', ps_rest p') = (ps_NodeName p, ps_RestartPolicy p, ps_rest p)
}.

Lemma find_dev_at p containerName i :
  findDevContainerInPodSpec p containerName = Ok i ->
  exists d, ps_Containers p !! i = Some d /\ (containerName <> [] -> pc_Name d = containerName).
Proof.
  unfold findDevContainerInPodSpec. destruct (nonempty containerName) eqn:E.
  - apply nonempty_true in E. destruct (list_find _ _) as [[j d]|] eqn:Ef; [|done].
    apply list_find_Some in Ef as (Hj & Hd & _). intros [= ->]. eauto.
  - assert (containerName = []) as -> by (apply negb_false_iff, bool_decide_eq_true_1 in E; done).
    destruct (ps_Containers p) as [|d [|]]; [done| |done]. intros [= <-]. by exists d.
Qed.

(** Renaming the container in place leaves nothing else under its old name. *)
Lemma replaced_only (l : list Container) i d x containerName :
  NoDup (pc_Name <$> l) -> l !! i = Some d -> pc_Name d = containerName ->
  match list_find (fun ct => pc_Name ct = containerName) (<[i := x]> l) with
  | Some (index, _) => <[index := x]> (<[i := x]> l)
  | None => <[i := x]> l
  end = <[i := x]> l.
Proof.
  intros Hnd Hi Hname. destruct (list_find _ _) as [[j y]|] eqn:E; [|done].
  apply list_find_Some in E as (Hj & Hy & _). destruct (decide (j = i)) as [->|Hne].
  - by rewrite list_insert_insert_eq.
  - rewrite list_lookup_insert_ne in Hj by done. destruct Hne.
    eapply (NoDup_lookup _ j i (pc_Name d) Hnd); rewrite list_lookup_fmap; [rewrite Hj|by rewrite Hi].
    simpl. congruence.
Qed.

Lemma develop_pod_inv c p containerName devImage storageClass dup w w' p' :
  NoDup (pc_Name <$> ps_Containers p) ->
  develop_pod sha1 c p containerName devImage storageClass dup w = Done (w', Ok p') ->
  exists i d side env dirVols dirMounts,
    genWorkDirAndPVAndMounts sha1 c containerName storageClass
      (bool_decide (is_Some (workdir_mount (GetWorkDir c containerName) (pc_VolumeMounts d)))) dup w
      = Done (w', Ok (dirVols, dirMounts)) /\
    developed c containerName devImage p p' i d side env
      ((generateSyncVolumesAndMounts c).1 ++ dirVols) ((generateSyncVolumesAndMounts c).2 ++ dirMounts).
Proof.
  intros Hnd Hdev. unfold develop_pod, genContainersAndVolumes in Hdev. act_inv.
  destruct (ps_Containers p !! a0) as [d|] eqn:Hd; [|act_inv]. act_inv.
  destruct (generateSyncVolumesAndMounts c) as [svols smounts] eqn:Es. act_inv.
  destruct a1 as [dirVols dirMounts]. act_inv.
  destruct (convertResourceQuota sidecar_quota) as [rq|]; act_inv. cbn in Hdev. act_inv.
  unfold patchDevContainerToPodSpec in Hdev.
  assert (a0 < length (ps_Containers p)) as Hlt by (by eapply lookup_lt_Some).
  cbn [with_containers with_volumes ps_Containers ps_Volumes ps_NodeName ps_RestartPolicy ps_rest] in Hdev.
  rewrite list_lookup_insert_eq in Hdev by done. injection Hdev as <-.
  destruct (find_dev_at _ _ _ Hstep0) as (d' & Hd' & Hname). simplify_eq.
  exists a0, d. eexists _, a1, dirVols, dirMounts. split; [exact Hstep1|]. split.
  4:{ cbn [with_containers with_volumes ps_Containers ps_Volumes snd]. f_equal. f_equal.
      destruct (nonempty containerName) eqn:En.
      - apply nonempty_true in En. by apply replaced_only with d; auto.
      - apply negb_false_iff, bool_decide_eq_true_1 in En as ->. unfold findDevContainerInPodSpec in Hstep0. cbn in Hstep0.
        destruct (ps_Containers p) as [|x [|]]; [done| |done]. by injection Hstep0 as <-. }
  all: done.
Qed.

(** *** The environment *)

(** Every variable set for the container, in the order of the configuration. *)
Definition env_settings c (container : gostring) : list (gostring * gostring) :=
  filter (fun v => config_matches container v = true) (ContainerConfigs (config c)) ≫=
    fun v => from_option dev_Env [] (Dev v).

Definition last_setting (k : gostring) (l : list (gostring * gostring)) : option gostring :=
  snd <$> last (filter (fun kv => fst kv = k) l).

Lemma last_setting_app k l1 l2 :
  last_setting k (l1 ++ l2) = match last_setting k l2 with Some v => Some v | None => last_setting k l1 end.
Proof. unfold last_setting. rewrite filter_app, last_app. by destruct (last (filter _ l2)). Qed.

Lemma foldl_last_setting (k : gostring) (l : list (gostring * gostring)) (kvMap : gmap gostring gostring) :
  foldl (fun kv env => <[fst env := snd env]> kv) kvMap l !! k =
  match last_setting k l with Some v => Some v | None => kvMap !! k end.
Proof.
  unfold last_setting. revert kvMap. induction l as [|[k' v] l IH] using rev_ind; intros kvMap; [done|].
  rewrite foldl_app, filter_app, filter_cons. cbn [foldl fst snd]. rewrite filter_nil. case_decide as E.
  - subst k'. by rewrite last_snoc, lookup_insert_eq.
  - rewrite lookup_insert_ne, IH by done. by rewrite app_nil_r.
Qed.

Lemma collect_env_settings c (container : gostring) (kvMap : gmap gostring gostring) :
  collect_env container (ContainerConfigs (config c)) ∅ = Done kvMap ->
  forall k, kvMap !! k = last_setting k (env_settings c container).
Proof.
  unfold env_settings. intros Hc k.
  enough (forall l (m : gmap gostring gostring), collect_env container l m = Done kvMap ->
    kvMap !! k = match last_setting k (filter (fun v => config_matches container v = true) l ≫=
                   fun v => from_option dev_Env [] (Dev v)) with Some v => Some v | None => m !! k end) as Hgen.
  { rewrite (Hgen _ _ Hc). by destruct (last_setting _ _). }
  clear Hc. induction l as [|v l IH]; intros m Hc; cbn [collect_env] in Hc; [by injection Hc as <-|].
  rewrite filter_cons. destruct (config_matches container v); [|by apply IH].
  destruct (Dev v) as [dev|] eqn:Ed; [|done]. rewrite decide_True by done. rewrite (IH _ Hc), bind_cons, Ed. cbn [from_option].
  rewrite foldl_last_setting, last_setting_app. by destruct (last_setting k (_ ≫= _)).
Qed.

Lemma dev_env_settings c (container : gostring) env :
  GetDevContainerEnv c container = Done env ->
  NoDup env.*1 /\ forall k v, (k, v) ∈ env <-> last_setting k (env_settings c container) = Some v.
Proof.
  unfold GetDevContainerEnv. destruct (collect_env _ _ _) as [kvMap| |] eqn:E; [|done|done].
  intros [= <-]. split; [apply NoDup_range_fst|]. intros k v. rewrite elem_of_range.
  by rewrite (collect_env_settings _ _ _ E).
Qed.

(** C7: when dev mode rewrites a pod whose containers have distinct names, the
    chosen container becomes the development container (its name, command and
    directory from the configuration, no probes, its own mounts and variables kept
    and each configured variable set to its last value), every other container only
    loses its probes, the sidecar is appended last with the same dev-mode mounts,
    and the pod's volumes are kept with new ones after them. *)
Theorem dev_pod_rewritten c p containerName devImage storageClass dup w w' p' :
  NoDup (pc_Name <$> ps_Containers p) ->
  develop_pod sha1 c p containerName devImage storageClass dup w = Done (w', Ok p') ->
  exists i d d' side mounts env,
    findDevContainerInPodSpec p containerName = Ok i /\ ps_Containers p !! i = Some d /\
    ps_Containers p' !! i = Some d' /\
    (forall j, j <> i -> j < length (ps_Containers p) -> ps_Containers p' !! j = no_probes <$> ps_Containers p !! j) /\
    ps_Containers p' !! length (ps_Containers p) = Some side /\
    length (ps_Containers p') = S (length (ps_Containers p)) /\
    (pc_Name d', pc_Image d', pc_WorkingDir d', pc_Command d') =
      (GetDevContainerName c containerName,
       if nonempty devImage then devImage else GetDevImage c containerName, GetWorkDir c containerName,
       [go "/bin/sh"; go "-c"; go "tail -f /dev/null"]) /\
    (LivenessProbe d', ReadinessProbe d', StartupProbe d') = (None, None, None) /\
    pc_VolumeMounts d' = pc_VolumeMounts d ++ mounts /\
    pc_Env d' = pc_Env d ++ env /\
    (forall k v, mkEnv k v None ∈ env <-> last_setting k (env_settings c containerName) = Some v) /\
    pc_Name side = NocalhostDefaultDevSidecarName /\ mounts `prefix_of` pc_VolumeMounts side /\
    ps_Volumes p `prefix_of` ps_Volumes p' /\
    (ps_NodeName p', ps_RestartPolicy p', ps_rest p') = (ps_NodeName p, ps_RestartPolicy p, ps_rest p).
Proof.
  intros Hnd Hdev. destruct (develop_pod_inv _ _ _ _ _ _ _ _ _ Hnd Hdev) as (i & d & side & env & dv & dm & _ & Hd).
  destruct Hd as [Hf Hat Henv Hcs Hvs Hside Hsm Hrest].
  assert (i < length (ps_Containers p)) as Hi by (by eapply lookup_lt_Some).
  exists i, d, (no_probes (dev_container c containerName
    (if nonempty devImage then devImage else GetDevImage c containerName) env
    ((generateSyncVolumesAndMounts c).2 ++ dm) d)), side, ((generateSyncVolumesAndMounts c).2 ++ dm), ((fun kv => mkEnv (fst kv) (snd kv) None) <$> env).
  split_and!; [done|done| | | | |done|done|done|done| |done| | |done].
  - rewrite Hcs, lookup_app_l, list_lookup_fmap by (by rewrite length_fmap, length_insert).
    by rewrite list_lookup_insert_eq.
  - intros j Hj Hlt. rewrite Hcs, lookup_app_l, list_lookup_fmap by (by rewrite length_fmap, length_insert).
    by rewrite list_lookup_insert_ne.
  - rewrite Hcs, lookup_app_r by (by rewrite length_fmap, length_insert).
    by rewrite length_fmap, length_insert, Nat.sub_diag.
  - rewrite Hcs, length_app, length_fmap, length_insert. simpl. lia.
  - intros k v. destruct (dev_env_settings _ _ _ Henv) as [_ <-]. rewrite list_elem_of_fmap. split.
    + by intros ([k' v'] & [= -> ->] & Hin).
    + intros Hin. by exists (k, v).
  - rewrite Hsm. by eexists.
  - rewrite Hvs. by eexists.
Qed.

(** *** Well-formed pods *)

(** What the API server requires of the names in a pod: containers and volumes
    are named once, and a mount names a volume of the pod. *)
Record pod_ok p : Prop := {
  pk_containers : NoDup (pc_Name <$> ps_Containers p);
  pk_volumes : NoDup (vol_Name <$> ps_Volumes p);
  pk_mounts : forall ct m, ct ∈ ps_Containers p -> m ∈ pc_VolumeMounts ct -> vm_Name m ∈ vol_Name <$> ps_Volumes p
}.

Lemma NoDup_insert_fresh {A : Type} (l : list A) i x :
  NoDup l -> (forall j y, l !! j = Some y -> j <> i -> y <> x) -> NoDup (<[i := x]> l).
Proof.
  intros Hnd Hx. apply NoDup_alt. intros j k y Hj Hk.
  apply list_lookup_insert_Some in Hj, Hk. rewrite NoDup_alt in Hnd.
  destruct Hj as [(<- & <- & _)|[Hji Hj]], Hk as [(<- & ? & _)|[Hki Hk]]; [done| | |by eapply Hnd].
  - by destruct (Hx _ _ Hk).
  - subst y. by destruct (Hx _ _ Hj).
Qed.

(** The volumes of dev mode: their names are distinct and of dev mode, and the
    mounts use them. *)
Lemma dev_volumes_ok c container storageClass ignore dup w w' vols mounts :
  genWorkDirAndPVAndMounts sha1 c container storageClass ignore dup w = Done (w', Ok (vols, mounts)) ->
  let names := vol_Name <$> ((generateSyncVolumesAndMounts c).1 ++ vols) in
  NoDup names /\ (forall n, n ∈ names -> dev_volume n) /\
  (forall m, m ∈ (generateSyncVolumesAndMounts c).2 ++ mounts -> vm_Name m ∈ names).
Proof.
  intros Hgen names. destruct (gen_dirs_inv _ _ _ _ _ _ _ _ _ Hgen) as (index & s & Hok & Hmw).
  destruct Hok as [Hv Hf Hn Hm _].
  assert (exists tail, (tail = [] \/ tail = [SharedVolume]) /\ vol_Name <$> vols = (vol_Name <$> dir_volumes s) ++ tail /\
            vm_Name <$> mounts = vol_Name <$> vols) as (tail & Ht & Hvols & Hmts).
  { unfold mount_workdir in Hmw. case_match; simplify_eq/=.
    - exists [SharedVolume]. rewrite !fmap_app, Hm. simpl. rewrite Hv. auto.
    - exists []. rewrite app_nil_r. auto. }
  assert (forall n, n ∈ vol_Name <$> vols -> n = SharedVolume \/ exists j, n = persist_name j) as Hnames.
  { intros n. rewrite Hvols. intros [Hin|Hin]%elem_of_app.
    - destruct (Hf _ Hin) as (j & _ & ->). eauto.
    - destruct Ht as [-> | ->]; set_solver. }
  subst names. rewrite fmap_app. split_and!.
  - apply NoDup_app. split_and!.
    + apply (bool_decide_eq_true_1 _). vm_compute. reflexivity.
    + intros n Hin Hin'. destruct (Hnames _ Hin') as [-> | [j ->]].
      * revert Hin. apply (bool_decide_eq_false_1 _). vm_compute. reflexivity.
      * destruct (persist_name_fixed j). set_solver.
    + rewrite Hvols. apply NoDup_app. split_and!; [done| |destruct Ht as [-> | ->]; [constructor|apply NoDup_singleton]].
      intros n Hin Hin'. destruct (Hf _ Hin) as (j & _ & ->). destruct (persist_name_fixed j).
      destruct Ht as [-> | ->]; set_solver.
  - intros n [Hin|Hin]%elem_of_app; [left; set_solver|]. destruct (Hnames _ Hin) as [-> |]; [left; set_solver|by right].
  - intros m [Hin|Hin]%elem_of_app; apply elem_of_app; [left|right].
    + apply (list_elem_of_fmap_2 vm_Name) in Hin. exact Hin.
    + rewrite <- Hmts. by apply list_elem_of_fmap_2.
Qed.

(** C17: dev mode keeps a pod well formed: if container and volume names are
    distinct and every mount names a volume, and the pod uses neither the names of
    dev mode's volumes nor those of its two containers, then the rewritten pod
    satisfies the same. *)
Theorem dev_pod_well_formed c p containerName devImage storageClass dup w w' p' i :
  pod_ok p ->
  findDevContainerInPodSpec p containerName = Ok i ->
  (forall j ct, ps_Containers p !! j = Some ct -> j <> i -> pc_Name ct <> GetDevContainerName c containerName) ->
  (forall ct, ct ∈ ps_Containers p -> pc_Name ct <> NocalhostDefaultDevSidecarName) ->
  GetDevContainerName c containerName <> NocalhostDefaultDevSidecarName ->
  (forall v, v ∈ ps_Volumes p -> ~ dev_volume (vol_Name v)) ->
  develop_pod sha1 c p containerName devImage storageClass dup w = Done (w', Ok p') ->
  pod_ok p'.
Proof.
  intros [Hcs Hvs Hms] Hi Hdev Hside Hne Hfresh Hrun.
  destruct (develop_pod_inv _ _ _ _ _ _ _ _ _ Hcs Hrun) as (i' & d & side & env & dv & dm & Hgen & Hd).
  destruct Hd as [Hf Hat Henv Hcs' Hvs' Hsn Hsm _].
  assert (i' = i) as -> by congruence.
  destruct (dev_volumes_ok _ _ _ _ _ _ _ _ _ Hgen) as (Hnd & Hnew & Huse).
  set (names := vol_Name <$> ((generateSyncVolumesAndMounts c).1 ++ dv)) in *.
  assert (d ∈ ps_Containers p) as Hdin by (by eapply list_elem_of_lookup_2).
  split; rewrite ?Hcs', ?Hvs'.
  - rewrite fmap_app. simpl. rewrite Hsn, <- list_fmap_compose, list_fmap_insert. apply NoDup_app. split_and!.
    + apply NoDup_insert_fresh; [exact Hcs|]. intros j n Hj Hji. apply list_lookup_fmap_Some in Hj as (ct & -> & Hj).
      exact (Hdev j ct Hj Hji).
    + intros n Hin ->%list_elem_of_singleton. apply list_elem_of_lookup in Hin as [j Hj].
      apply list_lookup_insert_Some in Hj as [(_ & Hj & _)|[_ Hj]]; [done|].
      apply list_lookup_fmap_Some in Hj as (ct & Hn & Hj). by apply (Hside ct); [eapply list_elem_of_lookup_2|].
    + apply NoDup_singleton.
  - rewrite fmap_app. apply NoDup_app. split_and!; [done| |done]. intros n Hin Hin'.
    apply list_elem_of_fmap in Hin as (v & -> & Hv). by apply (Hfresh v), Hnew.
  - rewrite fmap_app. fold names. intros ct m [Hct|Hct]%elem_of_app Hm; apply elem_of_app.
    + apply list_elem_of_fmap in Hct as (ct' & -> & Hct). simpl in Hm.
      apply list_elem_of_lookup in Hct as [j Hj].
      apply list_lookup_insert_Some in Hj as [(_ & <- & _)|[_ Hj]].
      * simpl in Hm. apply elem_of_app in Hm as [Hm|Hm]; [left; by apply (Hms d)|right; by apply Huse].
      * left. apply (Hms ct'); [by eapply list_elem_of_lookup_2|done].
    + apply list_elem_of_singleton in Hct as ->. rewrite Hsm in Hm. apply elem_of_app in Hm as [Hm|Hm]; [right; by apply Huse|].
      left. apply (Hms d); [done|]. unfold workdir_mount in Hm.
      destruct (last _) as [m'|] eqn:El; [|by apply elem_of_nil in Hm]. apply list_elem_of_singleton in Hm as ->.
      apply last_Some_elem_of in El. by apply list_elem_of_filter in El as [_ ?].
Qed.

(** *** The working directory *)

(** Directory [d] is [p] or lies below it. *)
Definition dir_within (d p : gostring) : Prop :=
  d = p \/ HasPrefix d (p ++ go "/") = true \/ (HasSuffix p (go "/") = true /\ HasPrefix d p = true).

(** C31: the development container and the sidecar share a mount that holds the
    working directory, provided that no persistent directory is a prefix of the
    working directory as text without holding it. *)
Theorem workdir_shared c p containerName devImage storageClass dup w w' p' i :
  NoDup (pc_Name <$> ps_Containers p) ->
  findDevContainerInPodSpec p containerName = Ok i ->
  (forall v, v ∈ GetPersistentVolumeDirs c containerName ->
    HasPrefix (GetWorkDir c containerName) (pvd_Path v) = true -> dir_within (GetWorkDir c containerName) (pvd_Path v)) ->
  develop_pod sha1 c p containerName devImage storageClass dup w = Done (w', Ok p') ->
  exists d side m,
    ps_Containers p' !! i = Some d /\ ps_Containers p' !! length (ps_Containers p) = Some side /\
    m ∈ pc_VolumeMounts d /\ m ∈ pc_VolumeMounts side /\ dir_within (GetWorkDir c containerName) (vm_MountPath m).
Proof.
  intros Hnd Hi Hpre Hrun.
  destruct (develop_pod_inv _ _ _ _ _ _ _ _ _ Hnd Hrun) as (i' & d & side & env & dv & dm & Hgen & Hd).
  destruct Hd as [Hf Hat _ Hcs _ _ Hsm _]. assert (i' = i) as -> by congruence.
  assert (i < length (ps_Containers p)) as Hlt by (by eapply lookup_lt_Some).
  exists (no_probes (dev_container c containerName
    (if nonempty devImage then devImage else GetDevImage c containerName) env
    ((generateSyncVolumesAndMounts c).2 ++ dm) d)), side.
  enough (exists m, m ∈ pc_VolumeMounts d ++ ((generateSyncVolumesAndMounts c).2 ++ dm) /\ m ∈ pc_VolumeMounts side /\
            dir_within (GetWorkDir c containerName) (vm_MountPath m)) as (m & Hm1 & Hm2 & Hm3).
  { exists m. split_and!; [|  |exact Hm1|done|done].
    - rewrite Hcs, lookup_app_l, list_lookup_fmap by (by rewrite length_fmap, length_insert).
      by rewrite list_lookup_insert_eq.
    - rewrite Hcs, lookup_app_r by (by rewrite length_fmap, length_insert).
      by rewrite length_fmap, length_insert, Nat.sub_diag. }
  rewrite Hsm. destruct (workdir_mount (GetWorkDir c containerName) (pc_VolumeMounts d)) as [m|] eqn:Em.
  - unfold workdir_mount in Em. apply last_Some_elem_of, list_elem_of_filter in Em as [Em1 Em2].
    exists m. split_and!; [set_solver|set_solver|by left].
  - rewrite bool_decide_eq_false_2 in Hgen by (by intros []).
    destruct (gen_dirs_inv _ _ _ _ _ _ _ _ _ Hgen) as (index & s & Hok & Hmw). unfold mount_workdir in Hmw.
    destruct (workDirDefined s || negb (workDirReside s)) eqn:E; simplify_eq/=.
    + exists (mkMount (vol_Name (workDirVol s)) (GetWorkDir c containerName) [] []).
      split_and!; [set_solver..|by left].
    + apply orb_false_iff in E as [_ E%negb_false_iff]. destruct Hok as [_ _ _ _ Hres].
      destruct (Hres E) as (m & Hm & Hp & Hin). apply list_elem_of_fmap in Hin as (v & Hv & Hin).
      exists m. split_and!; [set_solver..|]. rewrite Hv. apply Hpre; [done|]. by rewrite <- Hv.
Qed.

(** the test for a persistent directory that holds the working directory
    compares texts: when the only persistent directory is a sibling whose name the
    working directory's name extends, nothing is mounted at the working directory
    and the two containers do not share it. *)
Theorem sibling_dir_unshared c p containerName devImage storageClass dup w w1 w' p' i d v claimName :
  NoDup (pc_Name <$> ps_Containers p) ->
  findDevContainerInPodSpec p containerName = Ok i -> ps_Containers p !! i = Some d ->
  let workDir := GetWorkDir c containerName in
  GetPersistentVolumeDirs c containerName = [v] -> pvd_Path v <> [] ->
  HasPrefix workDir (pvd_Path v) = true -> ~ dir_within workDir (pvd_Path v) ->
  (forall m, m ∈ pc_VolumeMounts d ++ (generateSyncVolumesAndMounts c).2 -> ~ dir_within workDir (vm_MountPath m)) ->
  dir_claim sha1 c containerName storageClass dup v w = Done (w1, Ok (Some claimName)) ->
  develop_pod sha1 c p containerName devImage storageClass dup w = Done (w', Ok p') ->
  exists d', ps_Containers p' !! i = Some d' /\
    forall m, m ∈ pc_VolumeMounts d' -> ~ dir_within workDir (vm_MountPath m).
Proof.
  intros Hnd Hi Hd workDir Hv Hne Hpre Hnot Hown Hclaim Hrun.
  destruct (develop_pod_inv _ _ _ _ _ _ _ _ _ Hnd Hrun) as (i' & d0 & side & env & dv & dm & Hgen & Hdev).
  destruct Hdev as [Hf Hat _ Hcs _ _ Hsm _]. assert (i' = i) as -> by congruence. simplify_eq.
  assert (i < length (ps_Containers p)) as Hlt by (by eapply lookup_lt_Some).
  exists (no_probes (dev_container c containerName
    (if nonempty devImage then devImage else GetDevImage c containerName) env
    ((generateSyncVolumesAndMounts c).2 ++ dm) d)). split.
  { rewrite Hcs, lookup_app_l, list_lookup_fmap by (by rewrite length_fmap, length_insert).
    by rewrite list_lookup_insert_eq. }
  assert (dm = [mkMount (persist_name 0) (pvd_Path v) [] []]) as ->.
  { unfold genWorkDirAndPVAndMounts in Hgen. rewrite Hv in Hgen. cbn [mount_dirs] in Hgen.
    rewrite bool_decide_eq_false_2 in Hgen by done. act_inv.
    match goal with E : mount_workdir _ _ _ = _ |- _ => rename E into Hm end.
    assert (a0 = Some claimName) as -> by congruence. unfold mount_workdir, dir_mounted, no_dirs in Hm. fold workDir in Hm.
    rewrite (bool_decide_eq_false_2 (_ = workDir)) in Hm by (intros Heq; apply Hnot; left; done).
    rewrite Hpre in Hm. by simplify_eq/=. }
  intros m Hm. cbn [no_probes dev_container pc_VolumeMounts] in Hm. rewrite app_assoc in Hm. apply elem_of_app in Hm as [Hm|Hm]; [by apply Hown|].
  by apply list_elem_of_singleton in Hm as ->.
Qed.

(** ** Claims *)

(** a failed read of a new claim's status crashes dev mode: the result of
    the failed read is dereferenced in the next round. *)
Theorem claim_read_error_panics rounds path claim w w1 e :
  get_claim (claim_Name claim) w = Done (w1, Err e) ->
  wait_bound (S rounds) path (Some claim) w = Panic.
Proof. intros Hget. cbn. unfold act_bind, act_try. rewrite Hget. by destruct rounds. Qed.

(** A claim that never leaves its state: not bound, not waiting for a consumer. *)
Definition stuck (claim : Claim) : Prop :=
  claim_Phase claim <> ClaimBound /\ waits_for_consumer (claim_Conditions claim) = false.

(** a claim that is never bound is polled for all the rounds, then deleted,
    and dev mode fails with the directory's error. *)
Theorem stuck_claim_deleted path claim w w' u :
  stuck claim ->
  get_claim (claim_Name claim) w = Done (w, Ok claim) ->
  claim_events claim w = Done (w, Ok []) ->
  delete_claim (claim_Name claim) w = Done (w', Ok u) ->
  wait_bound claim_rounds path (Some claim) w = Done (w', Err (ErrCreatePvc path)).
Proof.
  intros [Hph Hw] Hget Hev Hdel. generalize claim_rounds as n.
  induction n as [|n IH]; cbn.
  - unfold act_bind. by rewrite Hdel.
  - unfold act_bind, act_try. rewrite Hget, bool_decide_eq_false_2, Hw by done. rewrite Hev.
    rewrite bool_decide_eq_false_2 by set_solver. exact IH.
Qed.

(** the labels a directory is looked up with in replace mode are among the
    labels of the claim created for it in duplicate mode, so replace mode finds
    the claims of the duplicates. *)
Theorem replace_finds_duplicate_claims c path :
  claim_labels sha1 c false path ⊆ claim_labels sha1 c true path.
Proof.
  unfold claim_labels. apply map_subseteq_spec. intros k v.
  rewrite !lookup_insert_Some, lookup_empty. naive_solver.
Qed.
End pods.

(** ** The running development pod *)

Definition is_dev_pod (pod : Pod) : Prop :=
  pod_Deleting pod = false /\ DefaultNocalhostSideCarName ∈ pod_Containers pod.

Definition version (pod : Pod) : Z := Atoi_value (pod_ResourceVersion pod).

(** A development pod of the list that no other is newer than. *)
Definition newest (l : list Pod) (pod : Pod) : Prop :=
  pod ∈ l /\ is_dev_pod pod /\ forall q, q ∈ l -> is_dev_pod q -> (version q <= version pod)%Z.

Definition container_ready (pod : Pod) (name : gostring) : Prop :=
  exists s, s ∈ pod_Statuses pod /\ cs_Name s = name /\ cs_Ready s = true.

Definition both_ready (pod : Pod) : Prop :=
  container_ready pod (pod_dev_container pod) /\ container_ready pod DefaultNocalhostSideCarName.

Lemma elem_of_dev_pods l pod : pod ∈ dev_pods l <-> pod ∈ l /\ is_dev_pod pod.
Proof.
  unfold dev_pods, is_dev_pod. rewrite list_elem_of_bind. split.
  - intros (q & Hin & Hq). destruct (pod_Deleting q) eqn:E; [by apply elem_of_nil in Hin|].
    apply list_elem_of_fmap in Hin as (n & -> & Hn). apply list_elem_of_filter in Hn as [-> Hn]. done.
  - intros (Hl & Hd & Hn). exists pod. rewrite Hd. split; [|done].
    apply list_elem_of_fmap. exists DefaultNocalhostSideCarName. split; [done|]. by apply list_elem_of_filter.
Qed.

Lemma latest_max l pod :
  let r := foldl latest pod l in r ∈ pod :: l /\ forall q, q ∈ pod :: l -> (version q <= version r)%Z.
Proof.
  revert pod. induction l as [|x l IH]; intros pod; cbn.
  - split; [set_solver|]. by intros q ->%list_elem_of_singleton.
  - destruct (IH (latest pod x)) as [Hin Hmax]. cbn in Hin, Hmax.
    assert (latest pod x = pod \/ latest pod x = x) as Hl by (unfold latest; case_match; auto).
    assert (version pod <= version (latest pod x) /\ version x <= version (latest pod x))%Z as [Hp Hx].
    { unfold latest. destruct (Z.ltb_spec (Atoi_value (pod_ResourceVersion pod)) (Atoi_value (pod_ResourceVersion x)));
        unfold version; lia. }
    assert (version (latest pod x) <= version (foldl latest (latest pod x) l))%Z by (apply Hmax; set_solver).
    split; [apply elem_of_cons in Hin as [-> | Hin]; [destruct Hl as [-> | ->]|]; set_solver|].
    intros q [-> |[-> | Hq]%elem_of_cons]%elem_of_cons; [lia|lia|]. apply Hmax. set_solver.
Qed.

Lemma ready_both pod :
  NoDup (cs_Name <$> pod_Statuses pod) -> pod_dev_container pod <> DefaultNocalhostSideCarName ->
  ready_count pod = 2 <-> both_ready pod.
Proof.
  intros Hnd Hne. unfold ready_count. set (l := filter _ (pod_Statuses pod)).
  assert (NoDup (cs_Name <$> l)) as Hl.
  { eapply sublist_NoDup; [exact Hnd|]. apply fmap_sublist, sublist_filter. }
  assert (forall n, n ∈ cs_Name <$> l -> n ∈ [pod_dev_container pod; DefaultNocalhostSideCarName]) as Hsub.
  { intros n (s & -> & [[Hs _] _]%list_elem_of_filter)%list_elem_of_fmap. set_solver. }
  assert (forall n, n ∈ [pod_dev_container pod; DefaultNocalhostSideCarName] ->
            n ∈ cs_Name <$> l <-> container_ready pod n) as Hready.
  { intros n Hn. unfold container_ready. rewrite list_elem_of_fmap. unfold l. setoid_rewrite list_elem_of_filter.
    split; [intros (s & -> & [_ ?] & ?); eauto|]. intros (s & ? & <- & ?). exists s. set_solver. }
  assert (NoDup [pod_dev_container pod; DefaultNocalhostSideCarName]) as Htwo.
  { apply NoDup_cons. split; [|apply NoDup_singleton]. by intros ?%list_elem_of_singleton. }
  rewrite <- (length_fmap cs_Name l). split.
  - intros Hlen. assert (cs_Name <$> l ≡ₚ [pod_dev_container pod; DefaultNocalhostSideCarName]) as Hp.
    { apply submseteq_length_Permutation; [by apply NoDup_submseteq|]. simpl. lia. }
    split; apply Hready; rewrite ?Hp; set_solver.
  - intros [Ha Hb]. apply Permutation_length with (l' := [pod_dev_container pod; DefaultNocalhostSideCarName]). symmetry.
    apply NoDup_Permutation; [exact Htwo|done|]. intros n. split; [|apply Hsub].
    intros Hn. apply Hready; [done|]. by apply elem_of_cons in Hn as [-> | ->%list_elem_of_singleton].
Qed.

(** among the pods of a workload the development pod is the newest one that
    has a sidecar and is not being deleted.  Its name is returned exactly when both
    its development container and its sidecar are ready; otherwise the error says
    whether there is no such pod or it is not ready. *)
Theorem dev_pod_found (l : list Pod) :
  (forall q, q ∈ l -> NoDup (cs_Name <$> pod_Statuses q) /\ pod_dev_container q <> DefaultNocalhostSideCarName) ->
  match findDevPodName l with
  | Ok name => exists pod, newest l pod /\ both_ready pod /\ pod_Name pod = name
  | Err e => (e = ErrNotFound /\ forall q, q ∈ l -> ~ is_dev_pod q) \/
             (e = ErrNotReady /\ exists pod, newest l pod /\ ~ both_ready pod)
  end.
Proof.
  intros Hl. unfold findDevPodName. destruct (dev_pods l) as [|p ps] eqn:E.
  - left. split; [done|]. intros q Hq Hdev.
    assert (q ∈ dev_pods l) as Hin by (by apply elem_of_dev_pods). rewrite E in Hin. by apply elem_of_nil in Hin.
  - destruct (latest_max ps p) as [Hin Hmax]. rewrite <- E in Hin, Hmax. set (r := foldl latest p ps) in *.
    apply elem_of_dev_pods in Hin as [Hr Hdev].
    assert (newest l r) as Hnew.
    { split_and!; [done..|]. intros q Hq Hqd. apply Hmax. by apply elem_of_dev_pods. }
    destruct (Hl r Hr) as [Hnd Hne]. case_bool_decide as Hc.
    + exists r. split_and!; [done| |done]. by apply ready_both.
    + right. split; [done|]. exists r. split; [done|]. by rewrite <- ready_both.
Qed.

(** ** The mesh sidecar *)

Section mesh_thms.
Context `{Q : !Quantities}.

Lemma remove_mesh_filter pre l found fuel :
  Forall not_mesh pre -> length l <= fuel ->
  remove_mesh fuel (length pre) found (pre ++ l) =
  (found || bool_decide (Exists (fun ct => pc_Name ct = EnvoyMeshSidecarName) l), pre ++ filter not_mesh l).
Proof.
  revert pre found fuel. induction l as [|ct l IH]; intros pre found fuel Hpre Hf.
  - rewrite bool_decide_eq_false_2 by (by intros ?%Exists_nil). rewrite orb_false_r, filter_nil, app_nil_r.
    destruct fuel; cbn; [done|]. by rewrite lookup_ge_None_2.
  - simpl in Hf. destruct fuel as [|fuel]; [lia|]. cbn [remove_mesh].
    rewrite lookup_app_r, Nat.sub_diag by lia. simpl. destruct (decide (pc_Name ct = EnvoyMeshSidecarName)) as [Hn|Hn].
    + rewrite bool_decide_eq_true_2, take_app_length, filter_cons_False by (unfold not_mesh; tauto).
      replace (drop (S (length pre)) (pre ++ ct :: l)) with l
        by (rewrite drop_app_ge by lia; by replace (S (length pre) - length pre) with 1 by lia).
      rewrite IH by (done || lia). f_equal. rewrite (bool_decide_eq_true_2 (Exists _ (ct :: l))) by (by left). by rewrite orb_true_r.
    + rewrite bool_decide_eq_false_2, filter_cons_True by done.
      replace (pre ++ ct :: l) with ((pre ++ [ct]) ++ l) by (by rewrite <- app_assoc).
      replace (S (length pre)) with (length (pre ++ [ct])) by (rewrite length_app; simpl; lia).
      rewrite IH; [|apply Forall_app; split; [done|by apply Forall_singleton]|lia].
      rewrite <- app_assoc. simpl. f_equal. f_equal. apply bool_decide_ext.
      rewrite Exists_cons. tauto.
Qed.

Definition mesh_ports (l : list Container) : gset gostring :=
  if bool_decide (port_set l = ∅) then {[go "8080"; go "80"]} else port_set l.

Lemma add_envoy_eq (t : PodTemplateSpec) :
  let l := ps_Containers (pt_Spec t) in
  AddEnvoySidecarForMesh t =
  (with_spec t (with_containers (pt_Spec t) (filter not_mesh l ++ [envoy_sidecar (mesh_ports (filter not_mesh l))])),
   bool_decide (Exists (fun ct => pc_Name ct = EnvoyMeshSidecarName) l)).
Proof.
  intros l. unfold AddEnvoySidecarForMesh. fold l.
  pose proof (remove_mesh_filter [] l false (length l) (Forall_nil_2 _) (le_n _)) as Hr.
  cbn [length app orb] in Hr. by rewrite Hr.
Qed.

(** C35: adding the mesh sidecar twice is adding it once: the old sidecar is
    recognised and replaced by an equal one, which stays the only and the last
    one, and its port list names the ports of the other containers, sorted and
    each once (80 and 8080 when there are none). *)
Theorem envoy_sidecar_idempotent (t : PodTemplateSpec) :
  let t1 := fst (AddEnvoySidecarForMesh t) in
  let others := filter not_mesh (ps_Containers (pt_Spec t)) in
  AddEnvoySidecarForMesh t1 = (t1, true) /\
  exists side, ps_Containers (pt_Spec t1) = others ++ [side] /\
    mkEnv (go "NOCALHOST_PORT") (Join (set_list (mesh_ports others)) (go ",")) None ∈ pc_Env side /\
    Sorted str_le (set_list (mesh_ports others)) /\ NoDup (set_list (mesh_ports others)) /\
    (others ≫= pc_Ports <> [] -> forall x, x ∈ set_list (mesh_ports others) <-> x ∈ Itoa <$> (others ≫= pc_Ports)).
Proof.
  intros t1 others. unfold t1. rewrite !add_envoy_eq. cbn [fst with_spec with_containers pt_Spec ps_Containers].
  fold others. assert (filter not_mesh (others ++ [envoy_sidecar (mesh_ports others)]) = others) as Hf.
  { rewrite filter_app, filter_cons_False by (unfold not_mesh; cbn; tauto). rewrite filter_nil, app_nil_r.
    apply filter_all. unfold others. by intros ct [? _]%list_elem_of_filter. }
  split.
  - rewrite Hf. f_equal. apply bool_decide_eq_true_2, Exists_app. right. by left.
  - eexists. split; [done|]. split; [cbn; set_solver|]. unfold set_list. split_and!.
    + apply Sorted_merge_sort. apply _.
    + rewrite merge_sort_Permutation. apply NoDup_elements.
    + intros Hports x. rewrite merge_sort_Permutation, elem_of_elements. unfold mesh_ports.
      rewrite bool_decide_eq_false_2; [unfold port_set; apply elem_of_list_to_set|].
      unfold port_set. destruct (others ≫= pc_Ports); [done|]. simpl. set_solver.
Qed.
End mesh_thms.

(** ** Claims are found again *)

(** What the API server does with claims while nobody else uses them. *)
Class ClaimLaws {W : Type} `{!Quantities} `{!ClaimApi W} (claims : W -> list Claim) := {
  list_law : forall ls w, list_claims ls w = Done (w, Ok (filter (fun cl => ls ⊆ claim_Labels cl) (claims w)));
  create_law : forall cl w w' cl', create_claim cl w = Done (w', Ok cl') ->
    claims w' = claims w ++ [cl'] /\ claim_Labels cl' = claim_Labels cl;
  get_law : forall n w w' r, get_claim n w = Done (w', r) ->
    claims w' = claims w /\ (forall cl, r = Ok cl -> claim_Name cl = n);
  events_law : forall cl w w' r, claim_events cl w = Done (w', r) -> claims w' = claims w
}.

Section reuse.
Context `{Q : !Quantities} {W : Type} `{CA : !ClaimApi W} (claims : W -> list Claim) `{CL : !ClaimLaws claims}.
Context (sha1 : gostring -> gostring) (c : DevController) (container storageClass : gostring) (dup : bool).
Implicit Types (w : W) (v : PersistentVolumeDir).

Definition claims_at (path : gostring) w : list Claim :=
  filter (fun cl => claim_labels sha1 c dup path ⊆ claim_Labels cl) (claims w).

(** The claim a directory uses, given the claims with its labels. *)
Definition one_claim (l : list Claim) : option gostring :=
  match l with [cl] => Some (claim_Name cl) | _ => None end.

(** Directories that have a claim keep what they have. *)
Definition settled w w' : Prop := forall path, claims_at path w <> [] -> claims_at path w' = claims_at path w.

Lemma settled_trans w1 w2 w3 : settled w1 w2 -> settled w2 w3 -> settled w1 w3.
Proof. intros H12 H23 path Hne. rewrite H23; [by apply H12|]. by rewrite H12. Qed.

Lemma settled_same w w' : claims w' = claims w -> settled w w'.
Proof. intros Heq path _. unfold claims_at. by rewrite Heq. Qed.

Lemma labels_subset_eq path path' : claim_labels sha1 c dup path ⊆ claim_labels sha1 c dup path' ->
  claim_labels sha1 c dup path = claim_labels sha1 c dup path'.
Proof.
  rewrite map_subseteq_spec. intros Hsub. specialize (Hsub PersistentVolumeDirLabel (sha1 path)).
  unfold claim_labels in *. rewrite !lookup_insert_eq in Hsub. specialize (Hsub eq_refl). injection Hsub as Heq.
  by rewrite Heq.
Qed.

Lemma wait_bound_claims rounds path cl w w' cl' :
  wait_bound rounds path (Some cl) w = Done (w', Ok cl') -> claims w' = claims w /\ claim_Name cl' = claim_Name cl.
Proof.
  revert cl w. induction rounds as [|rounds IH]; intros cl w Hw; cbn in Hw; act_inv.
  destruct a as [cl1|e]; [|by destruct rounds].
  destruct (get_law _ _ _ _ Hstep) as [Hc Hn]. specialize (Hn cl1 eq_refl).
  case_bool_decide; [act_inv; auto|]. destruct (waits_for_consumer _); act_inv; auto.
  pose proof (events_law _ _ _ _ Hstep0) as He.
  destruct a as [reasons|e]; [case_bool_decide; [act_inv; split; congruence|]|];
    apply IH in Hw as [? ?]; split; congruence.
Qed.

Lemma create_settles v labels sc w w' cl :
  labels = claim_labels sha1 c dup (pvd_Path v) -> claims_at (pvd_Path v) w = [] ->
  createPvcForPersistentVolumeDir c v labels sc w = Done (w', Ok cl) ->
  settled w w' /\ exists cl0, claims_at (pvd_Path v) w' = [cl0] /\ claim_Name cl = claim_Name cl0.
Proof.
  intros -> Hnone Hrun. unfold createPvcForPersistentVolumeDir, CreatePVC in Hrun.
  destruct (ParseQ _) as [q|]; act_inv. apply create_law in Hstep as [Hc Hl]. simpl in Hl.
  assert (claims w' = claims w ++ [a] /\ claim_Name cl = claim_Name a) as [Hw' Hname].
  { destruct (pvd_WaitForFirstConsumer v); [act_inv; auto|]. apply wait_bound_claims in Hrun as [-> ?]. auto. }
  split.
  - intros path Hne. unfold claims_at in *. rewrite Hw', filter_app, (filter_cons_False _ a); [by rewrite filter_nil, app_nil_r|].
    rewrite Hl. intros Heq%labels_subset_eq. by rewrite Heq in Hne.
  - exists a. split; [|done]. unfold claims_at in *. rewrite Hw', filter_app, Hnone.
    rewrite filter_cons_True by (by rewrite Hl). by rewrite filter_nil.
Qed.

Lemma dir_claim_settles v w w' r :
  dir_claim sha1 c container storageClass dup v w = Done (w', Ok r) ->
  settled w w' /\ claims_at (pvd_Path v) w' <> [] /\ r = one_claim (claims_at (pvd_Path v) w').
Proof.
  unfold dir_claim. intros Hrun. act_inv. rewrite list_law in Hstep.
  assert (a = Ok (claims_at (pvd_Path v) w) /\ w0 = w) as [-> ->] by (unfold claims_at; split; congruence).
  destruct (claims_at (pvd_Path v) w) as [|cl [|cl2 l]] eqn:Hat; act_inv.
  - destruct a as [cl|]; act_inv. apply create_settles in Hstep0 as (Hs & cl0 & Hat' & Hn); [|done|done].
    rewrite Hat', Hn. done.
  - rewrite Hat. split; [by apply settled_same|done].
  - rewrite Hat. split; [by apply settled_same|done].
Qed.

Lemma dir_claim_again v w :
  claims_at (pvd_Path v) w <> [] ->
  dir_claim sha1 c container storageClass dup v w = Done (w, Ok (one_claim (claims_at (pvd_Path v) w))).
Proof.
  intros Hne. unfold dir_claim, act_bind, act_try. rewrite list_law. fold (claims_at (pvd_Path v) w).
  by destruct (claims_at (pvd_Path v) w) as [|cl [|]].
Qed.

Lemma mount_dirs_again l : forall index s w w1 s',
  mount_dirs sha1 c container storageClass dup index l s w = Done (w1, Ok s') ->
  settled w w1 /\
  forall w2, settled w1 w2 -> mount_dirs sha1 c container storageClass dup index l s w2 = Done (w2, Ok s').
Proof.
  induction l as [|v l IH]; intros index s w w1 s' Hrun; cbn [mount_dirs] in Hrun |- *.
  - act_inv. split; [by apply settled_same|done].
  - destruct (bool_decide (pvd_Path v = [])); [by apply (IH _ _ _ _ _ Hrun)|]. act_inv.
    apply dir_claim_settles in Hstep as (Hs1 & Hne & ->). apply IH in Hrun as [Hs2 Hagain].
    split; [by eapply settled_trans|]. intros w2 Hs3. unfold act_bind.
    assert (claims_at (pvd_Path v) w2 = claims_at (pvd_Path v) w0) as Heq.
    { rewrite Hs3, Hs2; [done|done|]. by rewrite Hs2. }
    rewrite dir_claim_again by (by rewrite Heq). rewrite Heq. by apply Hagain.
Qed.

(** entering dev mode again uses the claims of the first time: if the
    directories were mounted once, doing it again succeeds, creates and changes
    nothing, and gives the same volumes and mounts. *)
Theorem claims_reused ignore w w1 vm :
  genWorkDirAndPVAndMounts sha1 c container storageClass ignore dup w = Done (w1, Ok vm) ->
  genWorkDirAndPVAndMounts sha1 c container storageClass ignore dup w1 = Done (w1, Ok vm).
Proof.
  unfold genWorkDirAndPVAndMounts. intros Hrun. act_inv. unfold act_bind.
  apply mount_dirs_again in Hstep as [_ Hagain]. by rewrite Hagain by (by apply settled_same).
Qed.
End reuse.

(** ** Concrete runs *)

Section demo.

(** Quantities as their texts, and a server that keeps a list of claims and
    binds each of them at once. *)
#[local] Instance demo_quantities : Quantities := {|
  quantity := gostring; ParseQ := Some; q_cmp := fun _ _ => Eq; q_zero := []; q_String := id
|}.

Definition bound (cl : Claim) : Claim :=
  mkClaim (claim_Name cl) (claim_Labels cl) (claim_Annotations cl) (claim_Storage cl) (claim_Class cl) ClaimBound
    (claim_Conditions cl).

#[local] Instance demo_api : ClaimApi (list Claim) := {|
  list_claims := fun ls w => Done (w, Ok (filter (fun cl => ls ⊆ claim_Labels cl) w));
  create_claim := fun cl w => Done (w ++ [cl], Ok cl);
  get_claim := fun n w => Done (w, match List.find (fun cl => bool_decide (claim_Name cl = n)) w with
                                   | Some cl => Ok (bound cl)
                                   | None => Err (ErrApi (go "not found"))
                                   end);
  delete_claim := fun n w => Done (filter (fun cl => claim_Name cl <> n) w, Ok tt);
  claim_events := fun cl w => Done (w, Ok []);
  now := fun w => Z.of_nat (length w)
|}.

#[local] Instance demo_laws : ClaimLaws (W := list Claim) (fun w => w).
Proof.
  split.
  - done.
  - intros cl w w' cl' H. cbv [create_claim demo_api] in H. by simplify_eq.
  - intros n w w' r H. cbv [get_claim demo_api] in H. simplify_eq. split; [done|]. intros cl H.
    destruct (List.find _ _) as [cl'|] eqn:E; [|done]. apply List.find_some in E as [_ E%bool_decide_eq_true_1]. by simplify_eq.
  - intros cl w w' r H. cbv [claim_events demo_api] in H. by simplify_eq.
Qed.

Definition pod_dev (workDir : gostring) (dirs : list gostring) : ContainerDevConfig :=
  mkDev [] (go "golang:1.17") [] [] workDir [] [] None ((fun p => mkPvd p [] false) <$> dirs) None None false false None
    [(go "MODE", go "a"); (go "MODE", go "dev")] None [] [] [].

Definition demo_ctl (workDir : gostring) (dirs : list gostring) : DevController :=
  mkDevCtl (mkCtl (go "ns") (go "bookinfo") (go "reviews") (go "deployment") (go "nid")) (go "abcdef") ReplaceDevMode
    (mkSvcConfig (go "reviews") (go "deployment") [] None [mkContainer (go "app") None None (Some (pod_dev workDir dirs))])
    (mkAction [] (go "/spec/template") false).

Definition plain_container (name : gostring) : Container :=
  mkPodContainer name (go "img") [] [] [] [9080%Z] [] (mkReq None None) [] (Some (go "probe")) None None [] None [].

Definition demo_spec : PodSpec := mkPodSpec [plain_container (go "app"); plain_container (go "log")] [] [] [] [].

Definition demo_run (workDir : gostring) (dirs : list gostring) : act (list Claim) PodSpec :=
  develop_pod id (demo_ctl workDir dirs) demo_spec (go "app") [] [] false.

(** The run returns a value. *)
Definition succeeds {W A : Type} (r : outcome (W * res dev_error A)) : bool :=
  match r with Done (_, Ok _) => true | _ => false end.

Lemma succeeds_inv {W A : Type} (r : outcome (W * res dev_error A)) :
  succeeds r = true -> exists w a, r = Done (w, Ok a).
Proof. destruct r as [[w [a|]]| |]; eauto; discriminate. Qed.

Lemma demo_names : NoDup (pc_Name <$> ps_Containers demo_spec).
Proof. apply (bool_decide_eq_true_1 _). vm_compute. reflexivity. Qed.

Lemma demo_pod_ok : pod_ok demo_spec.
Proof. split; [apply demo_names|constructor|]. intros ct m [-> | ->%list_elem_of_singleton]%elem_of_cons; set_solver. Qed.

Definition demo_dir : gostring := go "/home/nocalhost-dev/data".
Definition sibling_dir : gostring := go "/home/nocalhost".

Lemma demo_succeeds : succeeds (demo_run [] [demo_dir] []) = true.
Proof. vm_compute. reflexivity. Qed.

Lemma sibling_succeeds : succeeds (demo_run [] [sibling_dir] []) = true.
Proof. vm_compute. reflexivity. Qed.

Lemma dev_pod_rewritten_witness :
  exists w p d, demo_run [] [demo_dir] [] = Done (w, Ok p) /\ ps_Containers p !! 0 = Some d /\
    pc_Name d = NocalhostDefaultDevContainerName.
Proof.
  destruct (succeeds_inv _ demo_succeeds) as (w & p & Hrun).
  destruct (dev_pod_rewritten id (demo_ctl [] [demo_dir]) demo_spec (go "app") [] [] false [] w p demo_names Hrun)
    as (i & d & d' & _ & _ & _ & Hi & _ & Hd' & _ & _ & _ & Hn & _).
  exists w, p, d'. injection Hi as <-. split_and!; [done|done|]. exact (f_equal (fun x => x.1.1.1) Hn).
Defined.

Lemma dev_pod_well_formed_witness : exists w p, demo_run [] [demo_dir] [] = Done (w, Ok p) /\ pod_ok p.
Proof.
  destruct (succeeds_inv _ demo_succeeds) as (w & p & Hrun). exists w, p. split; [done|].
  apply (dev_pod_well_formed id (demo_ctl [] [demo_dir]) demo_spec (go "app") [] [] false [] w p 0 demo_pod_ok).
  - reflexivity.
  - intros [|[|j]] ct Hct Hj; [done| |done]. injection Hct as <-. vm_compute. discriminate.
  - intros ct [-> | ->%list_elem_of_singleton]%elem_of_cons; vm_compute; discriminate.
  - vm_compute. discriminate.
  - intros v Hv. by apply elem_of_nil in Hv.
  - exact Hrun.
Defined.

Lemma workdir_shared_witness :
  exists w p d side m, demo_run [] [demo_dir] [] = Done (w, Ok p) /\
    ps_Containers p !! 0 = Some d /\ ps_Containers p !! 2 = Some side /\
    m ∈ pc_VolumeMounts d /\ m ∈ pc_VolumeMounts side /\ dir_within DefaultWorkDir (vm_MountPath m).
Proof.
  destruct (succeeds_inv _ demo_succeeds) as (w & p & Hrun).
  destruct (workdir_shared id (demo_ctl [] [demo_dir]) demo_spec (go "app") [] [] false [] w p 0 demo_names eq_refl)
    as (d & side & m & Hd); [|exact Hrun|by exists w, p, d, side, m].
  intros v Hv. apply list_elem_of_singleton in Hv as ->. vm_compute. discriminate.
Defined.

Definition sibling_run : outcome (list Claim * res dev_error (option gostring)) :=
  dir_claim id (demo_ctl [] [sibling_dir]) (go "app") [] false (mkPvd sibling_dir [] false) [].

Lemma sibling_claim : succeeds sibling_run = true.
Proof. vm_compute. reflexivity. Qed.

Lemma sibling_dir_unshared_witness :
  exists w p d, demo_run [] [sibling_dir] [] = Done (w, Ok p) /\ ps_Containers p !! 0 = Some d /\
    forall m, m ∈ pc_VolumeMounts d -> ~ dir_within DefaultWorkDir (vm_MountPath m).
Proof.
  destruct (succeeds_inv _ sibling_succeeds) as (w & p & Hrun). exists w, p.
  assert (exists w1 n, dir_claim id (demo_ctl [] [sibling_dir]) (go "app") [] false (mkPvd sibling_dir [] false) []
            = Done (w1, Ok (Some n))) as (w1 & n & Hc).
  { destruct (succeeds_inv _ sibling_claim) as (w1 & [n|] & Hc); [eauto|].
    assert (match sibling_run with Done (_, Ok None) => false | _ => true end = true) as Hs by (vm_compute; reflexivity).
    by rewrite Hc in Hs. }
  destruct (sibling_dir_unshared id (demo_ctl [] [sibling_dir]) demo_spec (go "app") [] [] false [] w1 w p 0
    (plain_container (go "app")) (mkPvd sibling_dir [] false) n demo_names eq_refl eq_refl eq_refl) as (d & Hd & Hm);
    [done|reflexivity| | |exact Hc|exact Hrun|by exists d].
  - intros [Hw|[Hw|[Hw _]]]; vm_compute in Hw; discriminate.
  - intros m [-> | ->%list_elem_of_singleton]%elem_of_cons [Hw|[Hw|[Hw _]]]; vm_compute in Hw; discriminate.
Defined.

Definition pending : Claim := mkClaim (go "p") ∅ ∅ (go "10Gi") None (go "Pending") [].

Lemma claim_read_error_panics_witness : wait_bound (W := list Claim) claim_rounds (go "/data") (Some pending) [] = Panic.
Proof. apply (claim_read_error_panics 29 (go "/data") pending [] [] (ErrApi (go "not found"))). reflexivity. Defined.

(** A server that never binds. *)
Definition stuck_api : ClaimApi (list Claim) := {|
  list_claims := fun ls w => Done (w, Ok w);
  create_claim := fun cl w => Done (w ++ [cl], Ok cl);
  get_claim := fun n w => Done (w, Ok pending);
  delete_claim := fun n w => Done ([], Ok tt);
  claim_events := fun cl w => Done (w, Ok []);
  now := fun w => 0%Z
|}.

Lemma stuck_claim_deleted_witness :
  wait_bound (ClaimApi0 := stuck_api) claim_rounds (go "/data") (Some pending) [pending]
  = Done ([], Err (ErrCreatePvc (go "/data"))).
Proof.
  apply (stuck_claim_deleted (CA := stuck_api) (go "/data") pending [pending] [] tt); [|reflexivity..].
  split; [vm_compute; discriminate|reflexivity].
Defined.

Definition demo_pod (name version : gostring) : Pod :=
  mkPod name version false ∅ [NocalhostDefaultDevContainerName; DefaultNocalhostSideCarName] (go "Running") []
    [mkCStatus NocalhostDefaultDevContainerName true Running; mkCStatus DefaultNocalhostSideCarName true Running].

Lemma dev_pod_found_witness :
  exists pod, newest [demo_pod (go "old") (go "99"); demo_pod (go "new") (go "100")] pod /\ both_ready pod /\
    pod_Name pod = go "new".
Proof.
  apply (dev_pod_found [demo_pod (go "old") (go "99"); demo_pod (go "new") (go "100")]).
  intros q [-> | ->%list_elem_of_singleton]%elem_of_cons;
    (split; [apply (bool_decide_eq_true_1 _); vm_compute; reflexivity|vm_compute; discriminate]).
Defined.

Definition demo_mounts (w : list Claim) : outcome (list Claim * res dev_error (list Volume * list VolumeMount)) :=
  genWorkDirAndPVAndMounts id (demo_ctl [] [demo_dir]) (go "app") [] false false w.

Lemma claims_reused_witness : exists w vm, demo_mounts [] = Done (w, Ok vm) /\ demo_mounts w = Done (w, Ok vm).
Proof.
  destruct (succeeds_inv (demo_mounts [])) as (w & vm & E); [vm_compute; reflexivity|].
  exists w, vm. split; [done|].
  apply (claims_reused (fun w => w) id (demo_ctl [] [demo_dir]) (go "app") [] false false [] w vm E).
Defined.
End demo.
