(* ===== verification/Webhook.v ===== *)
(** * The dependency webhook ([internal/nocalhost-dep/webhook])

    The API server asks the webhook to admit requests.  For a workload it answers
    with a JSON patch that signs the object with its application and adds the
    environment and the waiting init container of its configuration; requests to
    change the resource quota of a development space are denied to those who do
    not administer the cluster.

    Objects are JSON trees, each member of an object once; decoding reads the
    fields the webhook uses, as [encoding/json] does: a missing or null field is
    the zero value, one of another type an error.  The patch is applied as RFC 6902
    says; the code builds additions only.  What the API server and YAML answer are
    parameters.  Requests run concurrently and share the watchers and one global
    variable, the namespace: [mutate] is split where it has been written. *)

From stdpp Require Import sorting.
From S2P Require Import Prelude GoStrings EnvLex FilePath EnvParse DevDir AppMeta Search Profile PortForward Config ConfigLoad WatchController AppMetaSync DepWatchers.
#[local] Open Scope go_scope.

(** ** JSON *)

Inductive json :=
  | JNull
  | JBool (b : bool)
  | JNum (z : Z)
  | JStr (s : gostring)
  | JArr (l : list json)
  | JObj (members : list (gostring * json)).

Fixpoint member (k : gostring) (fs : list (gostring * json)) : option json :=
  match fs with
  | [] => None
  | (k', v) :: fs => if bool_decide (k' = k) then Some v else member k fs
  end.

Fixpoint set_member (k : gostring) (v : json) (fs : list (gostring * json)) : list (gostring * json) :=
  match fs with
  | [] => [(k, v)]
  | (k', v') :: fs => if bool_decide (k' = k) then (k, v) :: fs else (k', v') :: set_member k v fs
  end.

(** An array index, without leading zeros. *)
Definition array_index (t : gostring) : option nat :=
  z ← undigits 0 t; if bool_decide (Itoa z = t) then Some (Z.to_nat z) else None.

(** The part of a value a reference token names, and its replacement. *)
Definition child (t : gostring) (j : json) : option json :=
  match j with
  | JObj fs => member t fs
  | JArr l => i ← array_index t; l !! i
  | _ => None
  end.

Definition set_child (t : gostring) (v j : json) : json :=
  match j with
  | JObj fs => JObj (set_member t v fs)
  | JArr l => match array_index t with Some i => JArr (<[i := v]> l) | None => j end
  | _ => j
  end.

Fixpoint at_path (p : list gostring) (j : json) : option json :=
  match p with
  | [] => Some j
  | t :: p => c ← child t j; at_path p c
  end.

Fixpoint put_path (p : list gostring) (v j : json) : json :=
  match p with
  | [] => v
  | t :: p => match child t j with Some c => set_child t (put_path p v c) j | None => j end
  end.

(** *** JSON patches (RFC 6902), additions *)

Record patchOperation := mkPatch {
  Op : gostring;
  op_Path : gostring;
  op_Value : json
}.

Fixpoint unescape (t : gostring) : gostring :=
  match t with
  | "~"%char :: "1"%char :: t => "/"%char :: unescape t
  | "~"%char :: "0"%char :: t => "~"%char :: unescape t
  | c :: t => c :: unescape t
  | [] => []
  end.

(** The reference tokens of a JSON pointer. *)
Definition tokens (path : gostring) : list gostring := unescape <$> drop 1 (Split path slash).

(** Adding to an object sets a member; to an array, inserts at an index or, with
    [-], at the end. *)
Definition add_child (t : gostring) (v j : json) : option json :=
  match j with
  | JObj fs => Some (JObj (set_member t v fs))
  | JArr l =>
      if bool_decide (t = go "-") then Some (JArr (l ++ [v]))
      else i ← array_index t; if i <=? length l then Some (JArr (take i l ++ v :: drop i l)) else None
  | _ => None
  end.

Fixpoint add_at (p : list gostring) (v j : json) : option json :=
  match p with
  | [] => Some v
  | [t] => add_child t v j
  | t :: p => c ← child t j; c ← add_at p v c; Some (set_child t c j)
  end.

Definition apply_op (op : list gostring * json) (j : json) : option json := add_at (fst op) (snd op) j.

Definition apply_ops (ops : list (list gostring * json)) (j : json) : option json :=
  foldl (fun j op => j ≫= apply_op op) (Some j) ops.

(** [None] also for an operation the code does not build. *)
Definition apply_patch (patch : list patchOperation) (j : json) : option json :=
  ops ← mapM (fun p => if bool_decide (Op p = go "add") then Some (tokens (op_Path p), op_Value p) else None) patch;
  apply_ops ops j.

(** ** Objects *)

Record Container := mkC {
  c_Name : gostring;
  c_Env : list json
}.

Record OwnerReference := mkOwnerRef {
  or_APIVersion : gostring;
  or_Kind : gostring;
  or_Name : gostring
}.

Record ObjectMetaHolder := mkMeta {
  om_Name : gostring;
  om_Namespace : gostring;
  om_Annotations : gmap gostring gostring;
  OwnerReferences : list OwnerReference
}.

(** *** Decoding: [None] is an error *)

Definition dec_string (j : option json) : option gostring :=
  match j with
  | None | Some JNull => Some []
  | Some (JStr s) => Some s
  | _ => None
  end.

Definition dec_list {A : Type} (dec : json -> option A) (j : option json) : option (list A) :=
  match j with
  | None | Some JNull => Some []
  | Some (JArr l) => mapM dec l
  | _ => None
  end.

Definition dec_map (j : option json) : option (gmap gostring gostring) :=
  match j with
  | None | Some JNull => Some ∅
  | Some (JObj fs) =>
      foldl (fun m '(k, v) => m ← m; s ← dec_string (Some v); Some (<[k := s]> m)) (Some ∅) fs
  | _ => None
  end.

(** The members of an object; a null or missing one has none. *)
Definition dec_members (j : option json) : option (list (gostring * json)) :=
  match j with
  | None | Some JNull => Some []
  | Some (JObj fs) => Some fs
  | _ => None
  end.

Fixpoint dec_path (p : list gostring) (j : option json) : option (list (gostring * json)) :=
  match p with
  | [] => dec_members j
  | t :: p => fs ← dec_members j; dec_path p (member t fs)
  end.

Definition dec_container (j : json) : option Container :=
  fs ← dec_members (Some j);
  name ← dec_string (member (go "name") fs);
  env ← dec_list Some (member (go "env") fs);
  Some (mkC name env).

Definition dec_owner (j : json) : option OwnerReference :=
  fs ← dec_members (Some j);
  v ← dec_string (member (go "apiVersion") fs);
  k ← dec_string (member (go "kind") fs);
  n ← dec_string (member (go "name") fs);
  Some (mkOwnerRef v k n).

Definition dec_meta (j : json) : option ObjectMetaHolder :=
  fs ← dec_path [go "metadata"] (Some j);
  name ← dec_string (member (go "name") fs);
  ns ← dec_string (member (go "namespace") fs);
  annotations ← dec_map (member (go "annotations") fs);
  owners ← dec_list dec_owner (member (go "ownerReferences") fs);
  Some (mkMeta name ns annotations owners).

Definition no_meta : ObjectMetaHolder := mkMeta [] [] ∅ [].

(** Where the pod of a workload is described. *)
Definition pod_path (kind : gostring) : option (list gostring) :=
  if bool_decide (kind ∈ [go "Deployment"; go "DaemonSet"; go "ReplicaSet"; go "StatefulSet"; go "Job"])
  then Some [go "spec"; go "template"; go "spec"]
  else if bool_decide (kind = go "CronJob")
  then Some [go "spec"; go "jobTemplate"; go "spec"; go "template"; go "spec"]
  else None.

(** The name, init containers and containers of a workload. *)
Definition dec_workload (p : list gostring) (j : json)
    : option (gostring * list Container * list Container) :=
  m ← dec_meta j;
  fs ← dec_path p (Some j);
  initContainer ← dec_list dec_container (member (go "initContainers") fs);
  containers ← dec_list dec_container (member (go "containers") fs);
  Some (om_Name m, initContainer, containers).

(** ** The patcher ([patcher.go]) *)

(** The init container the webhook adds. *)
Record InitContainer := mkInit {
  ic_Name : gostring;
  ic_Image : gostring;
  ic_ImagePullPolicy : gostring;
  ic_Command : list gostring
}.

Record envVar := mkEnvVar {
  EnvVar : list (gostring * gostring);
  ContainerIndex : nat
}.

(** [json.Marshal] of the values in a patch: an empty value is left out of an
    environment variable, and the members of a map are sorted. *)
Definition env_json (env : gostring * gostring) : json :=
  JObj ((go "name", JStr (fst env)) ::
        if bool_decide (snd env = []) then [] else [(go "value", JStr (snd env))]).

Definition container_json (c : InitContainer) : json :=
  JObj [(go "name", JStr (ic_Name c)); (go "image", JStr (ic_Image c));
        (go "command", JArr (JStr <$> ic_Command c)); (go "resources", JObj []);
        (go "imagePullPolicy", JStr (ic_ImagePullPolicy c))].

Definition key_le {V : Type} (a b : gostring * V) : Prop := str_le (fst a) (fst b).

#[export] Instance key_le_dec {V : Type} : RelDecision (key_le (V := V)).
Proof. intros a b. unfold key_le. apply _. Defined.

Definition map_json (m : gmap gostring gostring) : json :=
  JObj (prod_map id JStr <$> merge_sort key_le (map_to_list m)).

Record Patcher := mkPatcher { patch : list patchOperation }.

Definition addition (path : gostring) (value : json) : patchOperation := mkPatch (go "add") path value.

(** The loops of [addInitContainer] and [addContainerEnvVar]: the first addition
    to nothing creates the array. *)
Fixpoint add_loop (first : bool) (path : gostring) (values : list json) : list patchOperation :=
  match values with
  | [] => []
  | value :: values =>
      (if first then addition path (JArr [value]) else addition (path ++ go "/-") value) :: add_loop false path values
  end.

Definition addInitContainer (objectInit : list Container) (initContainers : list InitContainer) (path : gostring)
    : list patchOperation :=
  add_loop (length objectInit =? 0) path (container_json <$> initContainers).

Definition env_path (k : nat) : gostring :=
  go "/spec/template/spec/containers/" ++ Itoa (Z.of_nat k) ++ go "/env".

(** The variables for the container at an index. *)
Definition env_for (k : nat) (envs : list envVar) : list (gostring * gostring) :=
  add ← envs; if ContainerIndex add =? k then EnvVar add else [].

Definition addContainerEnvVar (k : nat) (target : list json) (envs : list envVar) : list patchOperation :=
  add_loop (length target =? 0) (env_path k) (env_json <$> env_for k envs).

(** The init containers of names that are not there yet. *)
Definition new_init (objectInit : list Container) (initContainers : list InitContainer) : list InitContainer :=
  filter (fun c => ic_Name c ∉ c_Name <$> objectInit) initContainers.

Definition patchInitContainer (p : Patcher) (objectInit : list Container) (initContainers : list InitContainer)
    : Patcher :=
  mkPatcher (patch p ++ addInitContainer objectInit (new_init objectInit initContainers)
                          (go "/spec/template/spec/initContainers")).

Definition patchEnv (p : Patcher) (objContainers : list Container) (envs : list envVar) : Patcher :=
  mkPatcher (patch p ++ concat (imap (fun k c => addContainerEnvVar k (c_Env c) envs) objContainers)).

Definition patchAnnotations (p : Patcher) (currentAnnos : gmap gostring gostring) (kvPair : gostring * gostring)
    : Patcher :=
  if bool_decide (currentAnnos !! fst kvPair = Some (snd kvPair)) then p
  else mkPatcher (patch p ++ [addition (go "/metadata/annotations") (map_json (<[fst kvPair := snd kvPair]> currentAnnos))]).

(** ** What to inject *)

(** Waiting for pods and jobs by label, for addresses as they are. *)
Definition label_arg (s : gostring) : gostring :=
  if Contains s (go "=") then go "-l" ++ s else go "-lapp=" ++ s.

Definition wait_args (kind : gostring) (arg : gostring -> gostring) (l : list gostring) : list gostring :=
  concat (imap (fun key x => (if key =? 0 then [] else [go "&&"]) ++ [go "wait_for.sh"; kind; arg x]) l).

Definition waitForPodArgs : list gostring -> list gostring := wait_args (go "pod") label_arg.
Definition waitForJobArgs : list gostring -> list gostring := wait_args (go "job") label_arg.
Definition waitForTCPArgs : list gostring -> list gostring := wait_args (go "tcp") id.
Definition waitForHTTPArgs : list gostring -> list gostring := wait_args (go "http") id.

Definition and_then (waitCmd : gostring) (args : list gostring) : gostring :=
  (if bool_decide (waitCmd <> []) then waitCmd ++ go " && " else waitCmd) ++ Join args (go " ").

Definition and_some (waitCmd : gostring) (l : list gostring) (args : list gostring -> list gostring) : gostring :=
  if bool_decide (l <> []) then and_then waitCmd (args l) else waitCmd.

(** The command of [nocalhostDepConfigmapCustom]. *)
Definition wait_command (d : option DependLabelSelector) : gostring :=
  match d with
  | None => []
  | Some d =>
      and_some (and_some (and_some (and_some [] (dep_Pods d) waitForPodArgs) (dep_Jobs d) waitForJobArgs)
                 (dep_TCP d) waitForTCPArgs) (dep_HTTP d) waitForHTTPArgs
  end.

Definition waitImages : gostring := go "nocalhost-docker.pkg.coding.net/nocalhost/public/nocalhost-wait:latest".

Definition waiting_job (waitCmd : gostring) : list InitContainer :=
  if bool_decide (waitCmd <> [])
  then [mkInit (go "nocalhost-dependency-waiting-job") waitImages (go "IfNotPresent") [go "sh"; go "-c"; waitCmd]]
  else [].

Definition global_envs (envs : list (gostring * gostring)) (containers : list Container) : list envVar :=
  env ← envs; imap (fun k _ => mkEnvVar [env] k) containers.

(** The last configuration of each name. *)
Definition container_mapping (l : list ContainerConfig) : gmap gostring ContainerConfig :=
  foldl (fun m c => <[cc_Name c := c]> m) ∅ l.

(** The variables for one container; a nil dereference is [None]. *)
Definition container_envs (configs : list ContainerConfig) (containers : list Container) (index : nat)
    (container : Container) : option (list envVar) :=
  let own := i ← (container_mapping configs !! c_Name container ≫= Install);
             if bool_decide (inst_Env i <> []) then Some (inst_Env i) else None in
  match own with
  | Some env => Some ((fun x => mkEnvVar [x] index) <$> env)
  | None =>
      match containers, configs with
      | [_], [cfg] =>
          if bool_decide (cc_Name cfg = []) then
            i ← Install cfg; Some ((fun x => mkEnvVar [x] index) <$> inst_Env i)
          else Some []
      | _, _ => Some []
      end
  end.

Definition nocalhostDepConfigmapCustom (appConfig : option NocalHostAppConfigV2) (svcConfig : option ServiceConfigV2)
    (containers : list Container) : outcome (list InitContainer * list envVar) :=
  match svcConfig with
  | None => Done ([], [])
  | Some svcConfig =>
      let global := match appConfig with Some a => global_envs (app_Env (AppConfig a)) containers | None => [] end in
      match mapM id (imap (container_envs (ContainerConfigs svcConfig) containers) containers) with
      | None => Panic
      | Some own => Done (waiting_job (wait_command (DependSelector svcConfig)), global ++ concat own)
      end
  end.

(** *** The older config maps ([nocalhostDepConfigmap]) *)

Record containerList := mkContainerList {
  cl_Name : gostring;
  InstallEnv : list (gostring * gostring)
}.

Record envList := mkEnvList {
  el_Name : gostring;
  el_Type : gostring;
  el_Container : list containerList
}.

(** A nil list is [None]. *)
Record depApp := mkDepApp {
  da_Name : gostring;
  da_Type : gostring;
  da_Pods : option (list gostring);
  da_Jobs : option (list gostring)
}.

Record mainDep := mkMainDep {
  env_Global : list (gostring * gostring);
  env_Service : list envList;
  Dependency : list depApp;
  ReleaseName : gostring
}.

Section inject.
Context `{!UnicodeLower}.

Definition is_resource (releaseName name type resourceName resourceType : gostring) : bool :=
  bool_decide (name = resourceName) &&
  (bool_decide (ToLower type = ToLower resourceType) || bool_decide (releaseName ++ go "-" ++ name = resourceName)).

Definition service_envs (dep : mainDep) (resourceName resourceType : gostring) (containers : list Container)
    : list envVar :=
  env ← env_Service dep;
  if is_resource (ReleaseName dep) (el_Name env) (el_Type env) resourceName resourceType then
    c ← el_Container env;
    concat (imap (fun k obj => if bool_decide (cl_Name c = c_Name obj) || bool_decide (cl_Name c = [])
                               then [mkEnvVar (InstallEnv c) k] else []) containers)
  else [].

Definition add_wait (resourceName resourceType releaseName waitCmd : gostring) (d : depApp) : gostring :=
  if is_resource releaseName (da_Name d) (da_Type d) resourceName resourceType then
    let waitCmd := match da_Pods d with Some l => and_then waitCmd (waitForPodArgs l) | None => waitCmd end in
    match da_Jobs d with Some l => and_then waitCmd (waitForJobArgs l) | None => waitCmd end
  else waitCmd.

(** One config map; [None] when its text is no YAML, which ends the program. *)
Definition dep_config_map (dep_yaml : gostring -> option mainDep) (resourceName resourceType : gostring)
    (containers : list Container) (acc : list InitContainer * list envVar * gostring) (cm : ConfigMap)
    : option (list InitContainer * list envVar * gostring) :=
  let '(inits, envs, waitCmd) := acc in
  if Contains (cm_Name cm) (go "nocalhost-depends-do-not-overwrite") then
    match cm_Data cm !! go "nocalhost" with
    | Some text =>
        dep ← dep_yaml text;
        let waitCmd := foldl (add_wait resourceName resourceType (ReleaseName dep)) waitCmd (Dependency dep) in
        Some (inits ++ waiting_job waitCmd,
              envs ++ global_envs (env_Global dep) containers ++ service_envs dep resourceName resourceType containers,
              waitCmd)
    | None => Some (inits ++ waiting_job waitCmd, envs, waitCmd)
    end
  else Some acc.

(** [listing] is [None] when it fails, which ends the program too. *)
Definition nocalhostDepConfigmap (dep_yaml : gostring -> option mainDep) (listing : option (list ConfigMap))
    (resourceName resourceType : gostring) (containers : list Container)
    : outcome (list InitContainer * list envVar) :=
  match listing with
  | None => Panic
  | Some items =>
      match foldl (fun acc cm => acc ← acc; dep_config_map dep_yaml resourceName resourceType containers acc cm)
              (Some ([], [], [])) items with
      | Some (inits, envs, _) => Done (inits, envs)
      | None => Panic
      end
  end.
End inject.

(** ** Admission ([webhook.go], [annotation.go]) *)

Record AdmissionRequest := mkRequest {
  req_Kind : gostring;
  req_Operation : gostring;
  req_Name : gostring;
  req_Namespace : gostring;
  req_Object : option json;
  UserInfo_UID : gostring
}.

(** The patch is [None] when there is none. *)
Record AdmissionResponse := mkResponse {
  Allowed : bool;
  Message : option gostring;
  Patch : option (list patchOperation)
}.

Definition allowed : AdmissionResponse := mkResponse true None None.
Definition denied : AdmissionResponse := mkResponse false None None.
Definition failed (e : gostring) : AdmissionResponse := mkResponse false (Some e) None.

(** The watchers and the global variable. *)
Record wh_state := mkState {
  watchers : gmap gostring sa_set;
  cmWatchers : gmap gostring CmWatcher;
  nocalhostNamespace : gostring
}.

(** The process environment, what the cluster lists and answers, and which of the
    owners' annotations arrives first, if one does in time. *)
Record wh_env := mkWhEnv {
  MATCH_NAMESPACE : gostring;
  list_accounts : gostring -> option (list ServiceAccount);
  accounts : sa_cluster;
  list_configmaps : gostring -> option (list ConfigMap);
  list_dep_configmaps : gostring -> option (list ConfigMap);
  dep_yaml : gostring -> option mainDep;
  can_ask : bool;
  owner_annotations : OwnerReference -> gostring -> option (gmap gostring gostring);
  first_arrival : option nat;
  rendering : render_env;
  wh_os : OS
}.

Section mutate.
Context `{!UnicodeTables, !UnicodeLower, !MapOrder gostring, !ConfigYaml} (env : wh_env).

Definition getWatcher (ns : gostring) (st : wh_state) : wh_state * sa_set :=
  match watchers st !! ns with
  | Some w => (st, w)
  | None =>
      let w := sa_Prepare (accounts env) (list_accounts env ns) newSet in
      (mkState (<[ns := w]> (watchers st)) (cmWatchers st) (nocalhostNamespace st), w)
  end.

Definition getCmWatcher (ns : gostring) (st : wh_state) : wh_state * CmWatcher :=
  match cmWatchers st !! ns with
  | Some w => (st, w)
  | None =>
      let w := cm_Prepare ns (list_configmaps env ns) NewCmWatcher in
      (mkState (watchers st) (<[ns := w]> (cmWatchers st)) (nocalhostNamespace st), w)
  end.

Definition ignoredNamespaces : list gostring := [go "kube-system"; go "kube-public"].

Definition mutationRequired (ignoredList : list gostring) (m : ObjectMetaHolder) : bool :=
  let e := MATCH_NAMESPACE env in
  if bool_decide (e <> []) && negb (bool_decide (om_Namespace m ∈ Split (ReplaceAll e (go " ") []) (go ",")))
  then false
  else if bool_decide (om_Namespace m ∈ ignoredList) then false
  else negb (bool_decide (om_Annotations m !! go "nocalhost-dep-ignore" = Some (go "true"))).

Definition containsAnnotationSign (annos : gmap gostring gostring) : option (gostring * gostring) :=
  List.find (fun kv => bool_decide (fst kv = NocalhostApplicationName) || bool_decide (fst kv = HelmReleaseNameKey))
    (range annos).

(** What the goroutines may send: for each owner, found in the cluster or in the
    namespace. *)
Definition owner_pairs (m : ObjectMetaHolder) (ns : gostring) : list (gostring * gostring) :=
  r ← OwnerReferences m;
  scope ← [[]; ns];
  match owner_annotations env r scope ≫= containsAnnotationSign with Some kv => [kv] | None => [] end.

Definition getOwnRefSignedAnnotation (m : ObjectMetaHolder) (ns : gostring) : option (gostring * gostring) :=
  if bool_decide (OwnerReferences m <> []) then
    if negb (can_ask env) then None
    else match first_arrival env ≫= fun i => owner_pairs m ns !! i with
         | Some kv => Some kv
         | None => containsAnnotationSign (om_Annotations m)
         end
  else containsAnnotationSign (om_Annotations m).

(** What is known of a request once the object is decoded. *)
Record work := mkWork {
  wk_meta : ObjectMetaHolder;
  resourceName : gostring;
  initContainer : list Container;
  containers : list Container
}.

Definition admit_quota (req : AdmissionRequest) (m : ObjectMetaHolder) (st : wh_state)
    : wh_state * AdmissionResponse :=
  let namespace := req_Namespace req in
  let quota := go "rq-" ++ namespace in
  if bool_decide (UserInfo_UID req = []) || (bool_decide (om_Name m <> quota) && bool_decide (req_Name req <> quota))
  then (st, allowed)
  else
    let '(st, w) := getWatcher namespace st in
    let '(st, isClusterAdmin) :=
      match IsClusterAdmin w (UserInfo_UID req) with
      | Some b => (st, Some b)
      | None => let '(st, w) := getWatcher (go "default") st in (st, IsClusterAdmin w (UserInfo_UID req))
      end in
    (st, match isClusterAdmin with Some false => denied | _ => allowed end).

(** [mutate] up to the decoded workload; the namespace has then been written. *)
Definition mutate_begin (req : AdmissionRequest) (st : wh_state) : wh_state * (AdmissionResponse + work) :=
  let resourceType := req_Kind req in
  let proceed (omh : ObjectMetaHolder) :=
    let st := mkState (watchers st) (cmWatchers st) (req_Namespace req) in
    if bool_decide (resourceType = go "ResourceQuota") then
      let '(st, r) := admit_quota req omh st in (st, inl r)
    else
      match pod_path resourceType with
      | None => (st, inr (mkWork omh [] [] []))
      | Some p =>
          match req_Object req ≫= dec_workload p with
          | Some (name, inits, cs) => (st, inr (mkWork omh name inits cs))
          | None => (st, inl (failed (go "Could not unmarshal raw object")))
          end
      end in
  if bool_decide (req_Operation req = go "DELETE") then
    if bool_decide (resourceType <> go "ResourceQuota") then (st, inl allowed) else proceed no_meta
  else if bool_decide (req_Operation req = go "CONNECT") then (st, inl allowed)
  else
    match req_Object req ≫= dec_meta with
    | None => (st, inl (failed (go "Could not unmarshal raw object")))
    | Some omh => if negb (mutationRequired ignoredNamespaces omh) then (st, inl allowed) else proceed omh
    end.

(** The annotation, when it is there and not empty. *)
Definition AnnotationKey : gostring := go "dev.nocalhost".

(** The three sources of a configuration, in turn; [None] goes on to the next. *)
Definition from_annotation (req : AdmissionRequest) (wk : work)
    : outcome (option (list InitContainer * list envVar)) :=
  let v := default [] (om_Annotations (wk_meta wk) !! AnnotationKey) in
  if bool_decide (v <> []) && bool_decide (resourceName wk <> []) then
    r <~ LoadSvcCfgFromStrIfValid (rendering env) (wh_os env) v (resourceName wk) (req_Kind req);
    match r with
    | Ok (appCfg, svcCfg) =>
        x <~ nocalhostDepConfigmapCustom appCfg svcCfg (containers wk); Done (Some x)
    | Err _ => Done None
    end
  else Done None.

Definition from_configmap (req : AdmissionRequest) (wk : work) (appName : gostring) (st : wh_state)
    : outcome (wh_state * option (list InitContainer * list envVar)) :=
  if bool_decide (resourceName wk <> []) then
    let '(st, w) := getCmWatcher (req_Namespace req) st in
    r <~ GetNocalhostConfig (rendering env) (wh_os env) w appName (req_Kind req) (resourceName wk);
    match r with
    | Ok (appCfg, svcCfg) =>
        x <~ nocalhostDepConfigmapCustom appCfg svcCfg (containers wk); Done (st, Some x)
    | Err _ => Done (st, None)
    end
  else Done (st, None).

Definition signature (req : AdmissionRequest) (wk : work) : gostring * gostring :=
  match getOwnRefSignedAnnotation (wk_meta wk) (req_Namespace req) with
  | Some kv => kv
  | None => (NocalhostApplicationName, DefaultNocalhostApplication)
  end.

Definition injection (req : AdmissionRequest) (wk : work) (st : wh_state)
    : outcome (wh_state * (list InitContainer * list envVar)) :=
  a <~ from_annotation req wk;
  match a with
  | Some x => Done (st, x)
  | None =>
      r <~ from_configmap req wk (snd (signature req wk)) st;
      match r with
      | (st, Some x) => Done (st, x)
      | (st, None) =>
          x <~ nocalhostDepConfigmap (dep_yaml env) (list_dep_configmaps env (nocalhostNamespace st))
                 (resourceName wk) (req_Kind req) (containers wk);
          Done (st, x)
      end
  end.

Definition patch_of (req : AdmissionRequest) (wk : work) (x : list InitContainer * list envVar)
    : list patchOperation :=
  let p := mkPatcher [] in
  let p := patchAnnotations p (om_Annotations (wk_meta wk)) (signature req wk) in
  let p := patchInitContainer p (initContainer wk) (fst x) in
  let p := patchEnv p (containers wk) (snd x) in
  patch p.

(** The rest of [mutate]. *)
Definition mutate_finish (req : AdmissionRequest) (wk : work) (st : wh_state)
    : outcome (wh_state * AdmissionResponse) :=
  r <~ injection req wk st;
  Done (fst r, mkResponse true None (Some (patch_of req wk (snd r)))).

Definition mutate (req : AdmissionRequest) (st : wh_state) : outcome (wh_state * AdmissionResponse) :=
  match mutate_begin req st with
  | (st, inl r) => Done (st, r)
  | (st, inr wk) => mutate_finish req wk st
  end.
End mutate.

(** ** Lemmas on JSON *)

Lemma member_set_eq k v fs : member k (set_member k v fs) = Some v.
Proof.
  induction fs as [|[k' v'] fs IH]; cbn; [by rewrite bool_decide_eq_true_2|].
  destruct (decide (k' = k)) as [->|Hne]; [rewrite bool_decide_eq_true_2 by done|rewrite bool_decide_eq_false_2 by done]; cbn.
  - by rewrite bool_decide_eq_true_2.
  - by rewrite bool_decide_eq_false_2.
Qed.

Lemma member_set_ne k k' v fs : k <> k' -> member k' (set_member k v fs) = member k' fs.
Proof.
  intros Hne. induction fs as [|[k1 v1] fs IH]; cbn; [by rewrite bool_decide_eq_false_2|].
  destruct (decide (k1 = k)) as [->|Hk]; [rewrite bool_decide_eq_true_2 by done|rewrite bool_decide_eq_false_2 by done]; cbn.
  - by rewrite bool_decide_eq_false_2.
  - by rewrite IH.
Qed.

Lemma set_member_twice k v w fs : set_member k v (set_member k w fs) = set_member k v fs.
Proof.
  induction fs as [|[k1 v1] fs IH]; cbn; [by rewrite bool_decide_eq_true_2|].
  destruct (decide (k1 = k)) as [->|Hk]; [rewrite bool_decide_eq_true_2 by done|rewrite bool_decide_eq_false_2 by done]; cbn.
  - by rewrite bool_decide_eq_true_2.
  - by rewrite bool_decide_eq_false_2, IH.
Qed.

Lemma set_member_same k v fs : member k fs = Some v -> set_member k v fs = fs.
Proof.
  induction fs as [|[k1 v1] fs IH]; cbn; [done|].
  case_bool_decide as E; [|by intros ->%IH]. intros [= ->]. by subst.
Qed.

Lemma array_index_text t i : array_index t = Some i -> t = Itoa (Z.of_nat i).
Proof.
  unfold array_index. destruct (undigits 0 t) as [z|] eqn:E; [|done]. cbn. case_bool_decide as Ht; [|done].
  intros [= <-]. rewrite <- Ht. f_equal. destruct (decide (0 <= z)%Z) as [Hz|Hz]; [lia|].
  exfalso. subst t. unfold Itoa in E. destruct (Z.ltb_spec z 0); [|lia]. cbn in E. done.
Qed.

Lemma array_index_Itoa i : array_index (Itoa (Z.of_nat i)) = Some i.
Proof.
  unfold array_index. assert (E : undigits 0 (Itoa (Z.of_nat i)) = Some (Z.of_nat i)).
  { unfold Itoa. destruct (Z.ltb_spec (Z.of_nat i) 0); [lia|]. apply undigits_digits. lia. }
  rewrite E. cbn. rewrite bool_decide_eq_true_2 by done. by rewrite Nat2Z.id.
Qed.

Lemma child_set_eq t v j : is_Some (child t j) -> child t (set_child t v j) = Some v.
Proof.
  destruct j as [| | | |l|fs]; cbn; intros [c Hc]; try done; [|apply member_set_eq].
  destruct (array_index t) as [i|] eqn:Ei; [|done]. cbn in *. rewrite Ei. cbn.
  apply list_lookup_insert_eq. by eapply lookup_lt_Some.
Qed.

Lemma child_set_ne t t' v j : t <> t' -> child t' (set_child t v j) = child t' j.
Proof.
  intros Hne. destruct j as [| | | |l|fs]; cbn; try done; [|by apply member_set_ne].
  destruct (array_index t) as [i|] eqn:Ei; [|done]. cbn. destruct (array_index t') as [i'|] eqn:Ei'; [|done]. cbn.
  apply list_lookup_insert_ne. intros ->. apply array_index_text in Ei, Ei'. congruence.
Qed.

Lemma set_child_twice t v w j : set_child t v (set_child t w j) = set_child t v j.
Proof.
  destruct j as [| | | |l|fs]; cbn; try done; [|by rewrite set_member_twice].
  destruct (array_index t) as [i|] eqn:Ei; cbn; rewrite Ei; [|done]. by rewrite list_insert_insert_eq.
Qed.

Lemma set_child_same t v j : child t j = Some v -> set_child t v j = j.
Proof.
  destruct j as [| | | |l|fs]; cbn; try done; [|by intros ->%set_member_same].
  destruct (array_index t) as [i|]; [|done]. cbn. intros Hi. by rewrite list_insert_id.
Qed.

Lemma at_put_eq p v j : is_Some (at_path p j) -> at_path p (put_path p v j) = Some v.
Proof.
  revert j. induction p as [|t p IH]; intros j; cbn; [done|].
  destruct (child t j) as [c|] eqn:Ec; cbn; [|by intros [? ?]]. intros Hc. rewrite child_set_eq by by eexists. cbn.
  by apply IH.
Qed.

Lemma at_put_ne t p t' q v j : t <> t' -> at_path (t' :: q) (put_path (t :: p) v j) = at_path (t' :: q) j.
Proof. intros Hne. cbn. destruct (child t j) as [c|]; [|done]. by rewrite child_set_ne. Qed.

Lemma put_put p v w j : is_Some (at_path p j) -> put_path p v (put_path p w j) = put_path p v j.
Proof.
  revert j. induction p as [|t p IH]; intros j; cbn; [done|].
  destruct (child t j) as [c|] eqn:Ec; cbn; [|by intros [? ?]]. intros Hc. rewrite child_set_eq by by eexists.
  by rewrite set_child_twice, IH.
Qed.

Lemma put_same p v j : at_path p j = Some v -> put_path p v j = j.
Proof.
  revert j. induction p as [|t p IH]; intros j; cbn; [by intros [= ->]|].
  destruct (child t j) as [c|] eqn:Ec; cbn; [|done]. intros Hc. rewrite (IH c Hc). by apply set_child_same.
Qed.

(** *** Applying patches *)

Lemma add_at_cons t p v j :
  p <> [] -> add_at (t :: p) v j = (c ← child t j; c ← add_at p v c; Some (set_child t c j)).
Proof. by destruct p. Qed.

(** An operation below a part of a value is one on that part. *)
Lemma add_at_focus p q v j x :
  at_path p j = Some x -> q <> [] -> add_at (p ++ q) v j = (fun x => put_path p x j) <$> add_at q v x.
Proof.
  revert j. induction p as [|t p IH]; intros j; cbn [at_path app].
  { intros [= ->] _. by destruct (add_at q v x). }
  destruct (child t j) as [c|] eqn:Ec; [|done]. cbn [mbind option_bind]. intros Hx Hq.
  rewrite add_at_cons by (intros [_ ?]%app_eq_nil; done). rewrite Ec. cbn [mbind option_bind]. rewrite (IH c) by done.
  destruct (add_at q v x) as [x'|]; [|done]. cbn. by rewrite Ec.
Qed.

Lemma apply_ops_None (ops : list (list gostring * json)) : foldl (fun j op => j ≫= apply_op op) None ops = None.
Proof. by induction ops. Qed.

Lemma apply_ops_cons op ops j : apply_ops (op :: ops) j = apply_op op j ≫= apply_ops ops.
Proof.
  unfold apply_ops. cbn. destruct (apply_op op j); [done|]. apply apply_ops_None.
Qed.

Lemma apply_ops_app ops ops' j : apply_ops (ops ++ ops') j = apply_ops ops j ≫= apply_ops ops'.
Proof.
  unfold apply_ops. rewrite foldl_app. destruct (foldl _ (Some j) ops); [done|]. apply apply_ops_None.
Qed.

Definition below (p : list gostring) (op : list gostring * json) : list gostring * json := (p ++ fst op, snd op).

Lemma apply_ops_focus p ops j x :
  at_path p j = Some x -> Forall (fun op => fst op <> []) ops ->
  apply_ops (below p <$> ops) j = (fun x => put_path p x j) <$> apply_ops ops x.
Proof.
  intros Hx Hops. revert j x Hx. induction Hops as [|op ops Hop _ IH]; intros j x Hx.
  { cbn. by rewrite put_same. }
  cbn [fmap list_fmap]. rewrite !apply_ops_cons. unfold apply_op at 1, below. cbn [fst snd].
  rewrite (add_at_focus p _ _ j x) by done. unfold apply_op. destruct (add_at (fst op) (snd op) x) as [x'|]; [|done].
  cbn [fmap option_fmap option_map mbind option_bind].
  change (fun op0 => (p ++ op0.1, op0.2)) with (below p).
  rewrite (IH _ x') by (apply at_put_eq; by eexists). destruct (apply_ops ops x') as [x''|]; [|done]. cbn.
  by rewrite put_put by by eexists.
Qed.

(** Additions to the end of an array that is a member of an object. *)
Fixpoint append_ops (first : bool) (k : gostring) (values : list json) : list (list gostring * json) :=
  match values with
  | [] => []
  | v :: values => (if first then ([k], JArr [v]) else ([k; go "-"], v)) :: append_ops false k values
  end.

Lemma append_ops_paths first k values : Forall (fun op => fst op <> []) (append_ops first k values).
Proof. revert first. induction values as [|v l IH]; intros []; constructor; done || apply IH. Qed.

(** The array that is a member of an object; empty when there is none. *)
Definition array_at (k : gostring) (fs : list (gostring * json)) : list json :=
  match member k fs with Some (JArr l) => l | _ => [] end.

Definition append_member (k : gostring) (values : list json) (fs : list (gostring * json)) : list (gostring * json) :=
  if bool_decide (values = []) then fs else set_member k (JArr (array_at k fs ++ values)) fs.

Lemma append_existing k values fs l :
  member k fs = Some (JArr l) ->
  apply_ops (append_ops false k values) (JObj fs) = Some (JObj (append_member k values fs)).
Proof.
  revert fs l. induction values as [|v values IH]; intros fs l Hl; [done|].
  cbn [append_ops]. rewrite apply_ops_cons. unfold apply_op. cbn [fst snd add_at child]. rewrite Hl. cbn [mbind option_bind add_child].
  rewrite (bool_decide_eq_true_2 (go "-" = go "-")) by done. cbn [mbind option_bind set_child].
  rewrite (IH _ (l ++ [v])) by apply member_set_eq. unfold append_member, array_at. rewrite member_set_eq, Hl.
  rewrite (bool_decide_eq_false_2 (v :: values = [])) by done. case_bool_decide as E.
  - by subst.
  - by rewrite set_member_twice, <- app_assoc.
Qed.

Lemma append_new k values fs :
  array_at k fs = [] ->
  apply_ops (append_ops true k values) (JObj fs) = Some (JObj (append_member k values fs)).
Proof.
  intros Ha. destruct values as [|v values]; [done|]. cbn [append_ops]. rewrite apply_ops_cons.
  unfold apply_op. cbn [fst snd add_at add_child mbind option_bind].
  rewrite (append_existing _ _ _ [v]) by apply member_set_eq. unfold append_member.
  rewrite (bool_decide_eq_false_2 (v :: values = [])) by done. rewrite Ha. case_bool_decide as E; [by subst|].
  unfold array_at. by rewrite member_set_eq, set_member_twice.
Qed.

Lemma dec_list_array {A : Type} (dec : json -> option A) k fs xs :
  dec_list dec (member k fs) = Some xs ->
  mapM dec (array_at k fs) = Some xs /\ (array_at k fs <> [] -> member k fs = Some (JArr (array_at k fs))).
Proof. unfold dec_list, array_at. destruct (member k fs) as [[]|]; naive_solver. Qed.

(** The additions the webhook makes, by how many entries it decoded. *)
Lemma append_decoded {A : Type} (dec : json -> option A) k fs xs values :
  dec_list dec (member k fs) = Some xs ->
  apply_ops (append_ops (length xs =? 0) k values) (JObj fs) = Some (JObj (append_member k values fs)).
Proof.
  intros [Hm Ha]%dec_list_array. pose proof (length_mapM _ _ _ Hm) as Hlen.
  destruct (array_at k fs) as [|v l] eqn:E; cbn in Hlen; rewrite <- Hlen; cbn [Nat.eqb].
  - by apply append_new.
  - eapply append_existing, Ha. done.
Qed.

Lemma member_append_eq k values fs : array_at k (append_member k values fs) = array_at k fs ++ values.
Proof.
  unfold append_member. case_bool_decide as E; [by rewrite E, app_nil_r|]. unfold array_at at 1. by rewrite member_set_eq.
Qed.

Lemma member_append_ne k k' values fs : k <> k' -> member k' (append_member k values fs) = member k' fs.
Proof. intros Hne. unfold append_member. case_bool_decide; [done|]. by apply member_set_ne. Qed.

(** *** Paths as text *)

Lemma unescape_cons c t : c <> "~"%char -> unescape (c :: t) = c :: unescape t.
Proof. intros Hc. destruct c as [[] [] [] [] [] [] [] []]; try reflexivity. done. Qed.

Lemma unescape_plain t : "~"%char ∉ t -> unescape t = t.
Proof.
  induction t as [|c t IH]; [done|]. intros [Hc Ht]%not_elem_of_cons. rewrite unescape_cons by done. by rewrite IH.
Qed.

Definition ptr (toks : list gostring) : gostring := Join ([] :: toks) slash.

Definition plain_token (t : gostring) : Prop := "/"%char ∉ t /\ "~"%char ∉ t.

Lemma tokens_ptr toks : Forall plain_token toks -> tokens (ptr toks) = toks.
Proof.
  intros Ht. unfold tokens, ptr. change slash with ["/"%char]. rewrite Split_Join_single; [|done|].
  - rewrite skipn_cons, drop_0. induction Ht as [|t toks [_ Ht] _ IH]; [done|]. cbn [fmap list_fmap].
    by rewrite unescape_plain, IH.
  - constructor; [apply not_elem_of_nil|]. eapply Forall_impl; [exact Ht|]. by intros t [? _].
Qed.

Lemma plain_Itoa z : plain_token (Itoa z).
Proof.
  split; intros Hc%Itoa_bytes; [assert (byte_val "/" = 47)%Z by reflexivity|assert (byte_val "~" = 126)%Z by reflexivity];
    lia.
Qed.

(** An operation as a path and a value. *)
Definition op_pair (p : patchOperation) : list gostring * json := (tokens (op_Path p), op_Value p).

Lemma apply_patch_ops ps j :
  Forall (fun p => Op p = go "add") ps -> apply_patch ps j = apply_ops (op_pair <$> ps) j.
Proof.
  intros Hps. unfold apply_patch.
  assert (E : mapM (fun p => if bool_decide (Op p = go "add") then Some (tokens (op_Path p), op_Value p) else None) ps =
              Some (op_pair <$> ps)).
  { induction Hps as [|p ps Hp _ IH]; [done|]. cbn. rewrite bool_decide_eq_true_2 by done. cbn. by rewrite IH. }
  by rewrite E.
Qed.

Lemma add_loop_Op first path values : Forall (fun p => Op p = go "add") (add_loop first path values).
Proof. revert first. induction values as [|v l IH]; intros []; constructor; done || apply IH. Qed.

Lemma add_loop_ops first path values pre k :
  tokens path = pre ++ [k] -> tokens (path ++ go "/-") = pre ++ [k; go "-"] ->
  op_pair <$> add_loop first path values = below pre <$> append_ops first k values.
Proof.
  intros H1 H2. revert first. induction values as [|v l IH]; intros first; [done|]. cbn [add_loop append_ops fmap list_fmap].
  rewrite IH. f_equal. destruct first; unfold op_pair, below, addition; cbn [fst snd op_Path op_Value]; by rewrite ?H1, ?H2.
Qed.

Definition template : list gostring := [go "spec"; go "template"; go "spec"].

Lemma init_ops first values :
  op_pair <$> add_loop first (go "/spec/template/spec/initContainers") values =
  below template <$> append_ops first (go "initContainers") values.
Proof. apply add_loop_ops; reflexivity. Qed.

Lemma plain_template : Forall plain_token template.
Proof. repeat constructor; apply (bool_decide_eq_true_1 _); reflexivity. Qed.

Lemma env_ops first k values :
  op_pair <$> add_loop first (env_path k) values =
  below (template ++ [go "containers"; Itoa (Z.of_nat k)]) <$> append_ops first (go "env") values.
Proof.
  assert (Hp : forall l, Forall plain_token l ->
    Forall plain_token (template ++ [go "containers"; Itoa (Z.of_nat k); go "env"] ++ l)).
  { intros l Hl. apply Forall_app. split; [apply plain_template|].
    repeat (apply Forall_cons; split); try apply plain_Itoa; [| |exact Hl];
      split; apply (bool_decide_eq_true_1 _); reflexivity. }
  apply add_loop_ops.
  - exact (tokens_ptr (template ++ [go "containers"; Itoa (Z.of_nat k); go "env"]) (Hp [] (Forall_nil_2 _))).
  - assert (E : env_path k ++ go "/-" = ptr (template ++ [go "containers"; Itoa (Z.of_nat k); go "env"; go "-"])).
    { unfold env_path. rewrite <- !app_assoc. reflexivity. }
    rewrite E. apply tokens_ptr, (Hp [go "-"]). repeat constructor; apply (bool_decide_eq_true_1 _); reflexivity.
Qed.

(** *** Annotations *)

(** The order in which [json.Marshal] writes a map. *)
#[local] Instance sorted_order : MapOrder gostring := {
  range := fun V m => merge_sort key_le (map_to_list m);
  range_perm := fun V m => merge_sort_Permutation key_le (map_to_list m)
}.

Lemma dec_map_json (m : gmap gostring gostring) : dec_map (Some (map_json m)) = Some m.
Proof.
  transitivity (Some (foldl (fun (r : gmap gostring gostring) '(k, v) => <[k := v]> r) ∅ (range (MapOrder := sorted_order) m)));
    [|by rewrite foldl_insert_range].
  unfold dec_map, map_json. change (merge_sort key_le (map_to_list m)) with (range (MapOrder := sorted_order) m).
  generalize (∅ : gmap gostring gostring). induction (range m) as [|[k v] l IH]; intros acc; [done|]. cbn. apply IH.
Qed.

Lemma dec_path_at p j fs fs' : dec_path p (Some j) = Some fs -> at_path p j = Some (JObj fs') -> fs = fs'.
Proof.
  revert j. induction p as [|t p IH]; intros j; cbn [dec_path at_path]; [intros H [= ->]; by injection H|].
  destruct j as [| | | |l|ms]; cbn [dec_members mbind option_bind]; try done. cbn [child].
  destruct (member t ms) as [c|]; [|done]. cbn [mbind option_bind]. apply IH.
Qed.

Lemma dec_meta_annotations doc m meta :
  dec_meta doc = Some m -> at_path [go "metadata"] doc = Some (JObj meta) ->
  dec_map (member (go "annotations") meta) = Some (om_Annotations m).
Proof.
  unfold dec_meta. destruct (dec_path [go "metadata"] (Some doc)) as [fs|] eqn:Ef; [|done]. cbn [mbind option_bind].
  intros H Hm. rewrite (dec_path_at _ _ _ _ Ef Hm) in H. repeat case_match; simplify_option_eq; done.
Qed.

Lemma annotation_applies doc m meta kv :
  dec_meta doc = Some m -> at_path [go "metadata"] doc = Some (JObj meta) ->
  exists meta', apply_ops (op_pair <$> patch (patchAnnotations (mkPatcher []) (om_Annotations m) kv)) doc =
      Some (put_path [go "metadata"] (JObj meta') doc) /\
    dec_map (member (go "annotations") meta') = Some (<[fst kv := snd kv]> (om_Annotations m)) /\
    forall k, k <> go "annotations" -> member k meta' = member k meta.
Proof.
  intros Hdec Hm. unfold patchAnnotations. case_bool_decide as E.
  - exists meta. split_and!; [|rewrite insert_id by done; by eapply dec_meta_annotations|done].
    cbn. rewrite <- (put_same _ _ _ Hm) at 1. done.
  - set (v := map_json _). exists (set_member (go "annotations") v meta). split_and!.
    + assert (Eop : op_pair <$> [addition (go "/metadata/annotations") v] =
                    below [go "metadata"] <$> [([go "annotations"], v)]) by reflexivity.
      cbn [patch app]. rewrite Eop.
      rewrite (apply_ops_focus [go "metadata"] [([go "annotations"], v)] doc _ Hm) by by repeat constructor.
      reflexivity.
    + rewrite member_set_eq. apply dec_map_json.
    + intros k Hk. by apply member_set_ne.
Qed.

(** *** Environments *)

Definition is_object (j : json) : Prop := exists fs, j = JObj fs.

Definition inject (envs : list envVar) (k : nat) (c : json) : json :=
  match c with
  | JObj fs => JObj (append_member (go "env") (env_json <$> env_for k envs) fs)
  | _ => c
  end.

Definition container_ops (envs : list envVar) (k : nat) (c : Container) : list (list gostring * json) :=
  below [Itoa (Z.of_nat k)] <$> append_ops (length (c_Env c) =? 0) (go "env") (env_json <$> env_for k envs).

Lemma container_applies envs pre c dec suf :
  is_object c -> dec_container c = Some dec ->
  apply_ops (container_ops envs (length pre) dec) (JArr (pre ++ c :: suf)) =
  Some (JArr (pre ++ inject envs (length pre) c :: suf)).
Proof.
  intros [fs ->] Hdec. unfold container_ops.
  assert (Hat : at_path [Itoa (Z.of_nat (length pre))] (JArr (pre ++ JObj fs :: suf)) = Some (JObj fs)).
  { cbn [at_path child]. rewrite array_index_Itoa. cbn [mbind option_bind]. by rewrite list_lookup_middle. }
  rewrite (apply_ops_focus _ _ _ _ Hat) by apply append_ops_paths.
  assert (He : dec_list Some (member (go "env") fs) = Some (c_Env dec)).
  { unfold dec_container in Hdec. cbn [dec_members mbind option_bind] in Hdec.
    destruct (dec_string _) as [name|]; [|done]. cbn [mbind option_bind] in Hdec.
    destruct (dec_list Some _) as [l|]; [|done]. by injection Hdec as <-. }
  rewrite (append_decoded Some (go "env") fs (c_Env dec) _ He). cbn [fmap option_fmap option_map put_path].
  cbn [child]. rewrite array_index_Itoa. cbn [mbind option_bind]. rewrite list_lookup_middle by done.
  cbn [set_child]. rewrite array_index_Itoa. do 2 f_equal. rewrite insert_app_r_alt by lia. by rewrite Nat.sub_diag.
Qed.

Lemma containers_apply envs pre cs decs :
  Forall is_object cs -> mapM dec_container cs = Some decs ->
  apply_ops (concat (imap (fun k => container_ops envs (length pre + k)) decs)) (JArr (pre ++ cs)) =
  Some (JArr (pre ++ imap (fun k => inject envs (length pre + k)) cs)).
Proof.
  intros Hobj. revert pre decs. induction Hobj as [|c cs Hc _ IH]; intros pre decs; cbn [mapM].
  { intros [= <-]. done. }
  destruct (dec_container c) as [d|] eqn:Ed; [|done]. cbn [mbind option_bind].
  destruct (mapM dec_container cs) as [ds|]; [|done]. cbn. intros [= <-]. rewrite !imap_cons. cbn [concat].
  rewrite apply_ops_app, Nat.add_0_r, (container_applies envs pre c d cs Hc Ed). cbn [mbind option_bind].
  specialize (IH (pre ++ [inject envs (length pre) c]) ds eq_refl). rewrite <- !app_assoc, length_app in IH.
  cbn [length app] in IH.
  rewrite (imap_ext _ (fun k => container_ops envs (length pre + 1 + k))) by (intros; cbn; f_equal; lia).
  rewrite IH. do 4 f_equal. apply imap_ext. intros. cbn. f_equal. lia.
Qed.

(** *** The pod *)

Lemma below_below p q (ops : list (list gostring * json)) : below p <$> (below q <$> ops) = below (p ++ q) <$> ops.
Proof. rewrite <- list_fmap_compose. apply list_fmap_ext. intros _ [path v] _. cbn. unfold below. cbn. by rewrite app_assoc. Qed.

Lemma fmap_concat_imap {A B C : Type} (g : B -> C) (f : nat -> A -> list B) (l : list A) :
  g <$> concat (imap f l) = concat (imap (fun k x => g <$> f k x) l).
Proof.
  revert f. induction l as [|x l IH]; intros f; [done|]. rewrite !imap_cons. cbn [concat].
  by rewrite fmap_app, IH.
Qed.

Definition pod_ops (inits : list Container) (cts : list Container) (x : list InitContainer * list envVar)
    : list (list gostring * json) :=
  append_ops (length inits =? 0) (go "initContainers") (container_json <$> new_init inits (fst x)) ++
  (below [go "containers"] <$> concat (imap (container_ops (snd x)) cts)).

Lemma pod_patch_ops p inits cts x :
  op_pair <$> patch (patchEnv (patchInitContainer p inits (fst x)) cts (snd x)) =
  (op_pair <$> patch p) ++ (below template <$> pod_ops inits cts x).
Proof.
  unfold patchEnv, patchInitContainer, pod_ops, addInitContainer. cbn [patch].
  rewrite !fmap_app, <- app_assoc, init_ops. do 2 f_equal.
  rewrite below_below, fmap_concat_imap, fmap_concat_imap. f_equal. apply imap_ext. intros k c _.
  unfold addContainerEnvVar, container_ops. rewrite env_ops, below_below. by rewrite <- app_assoc.
Qed.

Lemma pod_patch_Op inits cts x kv annos :
  Forall (fun p => Op p = go "add")
    (patch (patchEnv (patchInitContainer (patchAnnotations (mkPatcher []) annos kv) inits (fst x)) cts (snd x))).
Proof.
  unfold patchEnv, patchInitContainer, patchAnnotations. cbn [patch]. repeat apply Forall_app_2.
  - case_bool_decide; repeat constructor.
  - apply add_loop_Op.
  - apply Forall_concat, Forall_forall. intros l Hl. apply elem_of_lookup_imap in Hl as (k & c & -> & _).
    apply add_loop_Op.
Qed.

Lemma pod_applies spec cs inits cts x :
  dec_list dec_container (member (go "initContainers") spec) = Some inits ->
  member (go "containers") spec = Some (JArr cs) -> Forall is_object cs -> mapM dec_container cs = Some cts ->
  exists spec', apply_ops (pod_ops inits cts x) (JObj spec) = Some (JObj spec') /\
    array_at (go "initContainers") spec' =
      array_at (go "initContainers") spec ++ (container_json <$> new_init inits (fst x)) /\
    array_at (go "containers") spec' = imap (inject (snd x)) cs /\
    forall k, k <> go "initContainers" -> k <> go "containers" -> member k spec' = member k spec.
Proof.
  intros Hi Hc Hobj Hcts. unfold pod_ops. rewrite apply_ops_app, (append_decoded _ _ _ _ _ Hi). cbn [mbind option_bind].
  set (spec1 := append_member _ _ spec).
  assert (Ech : child (go "containers") (JObj spec1) = Some (JArr cs)).
  { cbn [child]. unfold spec1. by rewrite member_append_ne, Hc. }
  assert (Hat : at_path [go "containers"] (JObj spec1) = Some (JArr cs)) by (unfold at_path; by rewrite Ech).
  rewrite (apply_ops_focus _ _ _ _ Hat).
  2: { apply Forall_concat, Forall_forall. intros l Hl. apply elem_of_lookup_imap in Hl as (k & c & -> & _).
       apply Forall_fmap, Forall_forall. intros op _. done. }
  pose proof (containers_apply (snd x) [] cs cts Hobj Hcts) as Happ. cbn [app length Nat.add] in Happ.
  change (imap (container_ops (snd x)) cts) with (imap (fun k => container_ops (snd x) k) cts). rewrite Happ.
  cbn [fmap option_fmap option_map put_path]. rewrite Ech. cbn [set_child]. eexists. split; [done|]. split_and!.
  - unfold array_at at 1. rewrite member_set_ne by done. fold (array_at (go "initContainers") spec1).
    apply member_append_eq.
  - unfold array_at. by rewrite member_set_eq.
  - intros k H1 H2. rewrite member_set_ne by done. unfold spec1. by rewrite member_append_ne.
Qed.

(** ** Theorems *)

Section theorems.
Context `{!UnicodeTables, !UnicodeLower, !MapOrder gostring, !ConfigYaml} (env : wh_env).

(** The state once the namespace of a request has been written. *)
Definition written (req : AdmissionRequest) (st : wh_state) : wh_state :=
  mkState (watchers st) (cmWatchers st) (req_Namespace req).

(** A patch comes from the decoded workload and what is injected. *)
Lemma mutate_patch req st st' r ops p doc :
  mutate env req st = Done (st', r) -> Patch r = Some ops -> pod_path (req_Kind req) = Some p ->
  req_Object req = Some doc ->
  exists wk x, dec_meta doc = Some (wk_meta wk) /\
    dec_workload p doc = Some (resourceName wk, initContainer wk, containers wk) /\
    injection env req wk (written req st) = Done (st', x) /\ ops = patch_of env req wk x.
Proof.
  unfold mutate, mutate_begin. intros Hm Hops Hp Ho. rewrite Ho in Hm. cbn [mbind option_bind] in Hm.
  assert (Hk : req_Kind req <> go "ResourceQuota") by (intros E; by rewrite E in Hp).
  rewrite (bool_decide_eq_true_2 (req_Kind req <> _)) in Hm by done.
  rewrite (bool_decide_eq_false_2 (req_Kind req = _)) in Hm by done. rewrite Hp in Hm.
  destruct (bool_decide (req_Operation req = go "DELETE")); [by simplify_eq|].
  destruct (bool_decide (req_Operation req = go "CONNECT")); [by simplify_eq|].
  destruct (dec_meta doc) as [m|] eqn:Em; [|by simplify_eq].
  destruct (negb (mutationRequired env ignoredNamespaces m)); [by simplify_eq|].
  destruct (dec_workload p doc) as [[[name inits] cs]|] eqn:Ew; [|by simplify_eq].
  unfold mutate_finish in Hm. fold (written req st) in Hm.
  destruct (injection env req (mkWork m name inits cs) (written req st)) as [[st1 x]| |] eqn:Ei; try done.
  injection Hm as <- <-. injection Hops as <-. by exists (mkWork m name inits cs), x.
Qed.

Lemma dec_workload_pod p doc spec name inits cts :
  dec_workload p doc = Some (name, inits, cts) -> at_path p doc = Some (JObj spec) ->
  dec_list dec_container (member (go "initContainers") spec) = Some inits /\
  dec_list dec_container (member (go "containers") spec) = Some cts.
Proof.
  unfold dec_workload. destruct (dec_meta doc) as [m|]; [|done]. cbn [mbind option_bind].
  destruct (dec_path p (Some doc)) as [fs|] eqn:Ef; [|done]. cbn [mbind option_bind]. intros Hw Hat.
  rewrite (dec_path_at _ _ _ _ Ef Hat) in Hw.
  destruct (dec_list dec_container (member (go "initContainers") spec)) as [i|]; [|done]. cbn [mbind option_bind] in Hw.
  destruct (dec_list dec_container (member (go "containers") spec)) as [c|]; [|done]. by injection Hw as <- <- <-.
Qed.

(** What the patch is for: the metadata [meta] of the object is signed with its
    application, the missing init containers follow those of the pod [spec], every
    one of its containers [cs] has the variables for it after its own, and nothing
    else of the pod or the metadata changes. *)
Definition patched (req : AdmissionRequest) (wk : work) (x : list InitContainer * list envVar)
    (meta spec : list (gostring * json)) (cs : list json) (doc' : json) : Prop :=
  exists meta' spec',
    at_path [go "metadata"] doc' = Some (JObj meta') /\ at_path template doc' = Some (JObj spec') /\
    dec_map (member (go "annotations") meta') =
      Some (<[fst (signature env req wk) := snd (signature env req wk)]> (om_Annotations (wk_meta wk))) /\
    array_at (go "initContainers") spec' =
      array_at (go "initContainers") spec ++ (container_json <$> new_init (initContainer wk) (fst x)) /\
    array_at (go "containers") spec' = imap (inject (snd x)) cs /\
    (forall k, k <> go "annotations" -> member k meta' = member k meta) /\
    (forall k, k <> go "initContainers" -> k <> go "containers" -> member k spec' = member k spec).

Lemma template_patched req wk x doc meta spec cs :
  dec_meta doc = Some (wk_meta wk) -> dec_workload template doc = Some (resourceName wk, initContainer wk, containers wk) ->
  at_path [go "metadata"] doc = Some (JObj meta) -> at_path template doc = Some (JObj spec) ->
  member (go "containers") spec = Some (JArr cs) -> Forall is_object cs ->
  exists doc', apply_patch (patch_of env req wk x) doc = Some doc' /\ patched req wk x meta spec cs doc'.
Proof.
  intros Hdm Hdw Hmeta Hspec Hcs Hobj.
  destruct (dec_workload_pod _ _ _ _ _ _ Hdw Hspec) as [Hinit Hcont]. rewrite Hcs in Hcont.
  destruct (annotation_applies doc _ meta (signature env req wk) Hdm Hmeta) as (meta' & Ha & Hann & Hmk).
  destruct (pod_applies spec cs (initContainer wk) (containers wk) x Hinit Hcs Hobj Hcont) as (spec' & Hs & Hin & Hct & Hsk).
  set (doc1 := put_path [go "metadata"] (JObj meta') doc) in *.
  assert (Hspec1 : at_path template doc1 = Some (JObj spec)) by (unfold doc1, template; by rewrite at_put_ne).
  exists (put_path template (JObj spec') doc1). split; [|exists meta', spec'; split_and!; try done].
  - unfold patch_of. rewrite apply_patch_ops by apply pod_patch_Op. rewrite pod_patch_ops, apply_ops_app, Ha.
    cbn [mbind option_bind]. rewrite (apply_ops_focus _ _ _ _ Hspec1), Hs; [done|].
    unfold pod_ops. apply Forall_app. split; [apply append_ops_paths|]. apply Forall_fmap, Forall_forall. done.
  - unfold template. rewrite at_put_ne by done. apply at_put_eq. by eexists.
  - apply at_put_eq. by eexists.
Qed.

(** *** Cron jobs *)

Lemma add_at_missing p q v j : at_path p j = None -> q <> [] -> add_at (p ++ q) v j = None.
Proof.
  revert j. induction p as [|t p IH]; intros j; cbn [at_path app]; [done|]. intros Hat Hq.
  rewrite add_at_cons by (intros [_ ?]%app_eq_nil; done). destruct (child t j) as [c|]; [|done].
  cbn [mbind option_bind] in *. by rewrite IH.
Qed.

(** There is an init container to add, or a variable for one of the containers. *)
Definition injects (inits cts : list Container) (x : list InitContainer * list envVar) : Prop :=
  new_init inits (fst x) <> [] \/ exists k, k < length cts /\ env_for k (snd x) <> [].

Lemma append_ops_nil first k values : append_ops first k values = [] <-> values = [].
Proof. by destruct values. Qed.

Lemma fmap_nil_eq {A B : Type} (f : A -> B) (l : list A) : f <$> l = [] <-> l = [].
Proof. by destruct l. Qed.

Lemma container_ops_nil envs k c : container_ops envs k c = [] <-> env_for k envs = [].
Proof. unfold container_ops. by rewrite fmap_nil_eq, append_ops_nil, fmap_nil_eq. Qed.

Lemma pod_ops_nonempty inits cts x : pod_ops inits cts x <> [] <-> injects inits cts x.
Proof.
  unfold pod_ops, injects. rewrite app_nil, append_ops_nil, !fmap_nil_eq. split.
  - intros Hne. destruct (new_init inits (fst x)) as [|i l]; [right|by left].
    destruct (decide (Forall (fun k => env_for k (snd x) = []) (seq 0 (length cts)))) as [Hall|Hex].
    + exfalso. apply Hne. split; [done|]. apply concat_nil_Forall, Forall_lookup. intros k ops.
      rewrite list_lookup_imap. destruct (cts !! k) as [c|] eqn:Ec; [|done]. intros [= <-].
      apply container_ops_nil. rewrite Forall_forall in Hall. apply Hall. apply lookup_lt_Some in Ec.
      apply elem_of_seq. lia.
    + apply not_Forall_Exists in Hex; [|intros k; apply _]. apply Exists_exists in Hex as (k & Hk & Hne').
      exists k. apply elem_of_seq in Hk. split; [lia|done].
  - intros [Hi|(k & Hlt & Hne)] [Hn Hc]; [done|]. apply Hne. apply lookup_lt_is_Some in Hlt as [c Ec].
    apply (container_ops_nil (snd x) k c). rewrite concat_nil_Forall, Forall_lookup in Hc.
    apply (Hc k). by rewrite list_lookup_imap, Ec.
Qed.

Lemma template_missing req wk x doc meta :
  dec_meta doc = Some (wk_meta wk) -> at_path [go "metadata"] doc = Some (JObj meta) ->
  at_path [go "spec"; go "template"] doc = None ->
  apply_patch (patch_of env req wk x) doc = None <-> injects (initContainer wk) (containers wk) x.
Proof.
  intros Hdm Hmeta Hno. unfold patch_of. rewrite apply_patch_ops by apply pod_patch_Op.
  destruct (annotation_applies doc _ meta (signature env req wk) Hdm Hmeta) as (meta' & Ha & _ & _).
  rewrite pod_patch_ops, apply_ops_app, Ha. cbn [mbind option_bind].
  rewrite <- pod_ops_nonempty.
  assert (Hpaths : Forall (fun op => fst op <> []) (pod_ops (initContainer wk) (containers wk) x)).
  { unfold pod_ops. apply Forall_app. split; [apply append_ops_paths|]. apply Forall_fmap, Forall_forall. done. }
  destruct (pod_ops (initContainer wk) (containers wk) x) as [|op l]; [done|]. split; [done|]. intros _.
  cbn [fmap list_fmap]. rewrite apply_ops_cons. apply Forall_cons in Hpaths as [Hop _].
  unfold apply_op, below. cbn [fst snd]. change template with ([go "spec"; go "template"] ++ [go "spec"]).
  rewrite <- app_assoc, add_at_missing; [done| |done]. by rewrite at_put_ne.
Qed.

(** The pod of a cron job is not where the patch has it: as soon as there is
    anything to inject, the patch does not apply and the request fails. *)
Theorem cronjob_patch_fails req st st' r ops doc meta :
  mutate env req st = Done (st', r) -> Patch r = Some ops -> req_Kind req = go "CronJob" ->
  req_Object req = Some doc -> at_path [go "metadata"] doc = Some (JObj meta) ->
  at_path [go "spec"; go "template"] doc = None ->
  exists wk x, injection env req wk (written req st) = Done (st', x) /\
    (apply_patch ops doc = None <-> injects (initContainer wk) (containers wk) x).
Proof.
  intros Hm Hops Hk Ho Hmeta Hno.
  destruct (mutate_patch req st st' r ops _ doc Hm Hops ltac:(by rewrite Hk) Ho) as (wk & x & Hdm & _ & Hi & ->).
  exists wk, x. split; [done|]. by eapply template_missing.
Qed.

(** C18: The patch the webhook answers with.  For every kind of workload but cron
    jobs - deployments, daemon sets, replica sets, stateful sets and jobs - it
    applies to the object and does what it is for: the object is signed with its
    application, the missing init containers follow its own, every container has
    the variables for it after its own, and nothing else of the pod or the metadata
    changes.  For a cron job, whose pod is not where the patch has it, it applies
    exactly when there is nothing to inject.  The object has its metadata, its pod
    and an array of containers, as the API server sees to. *)
Theorem patch_applies req st st' r ops p doc meta spec cs :
  mutate env req st = Done (st', r) -> Patch r = Some ops -> pod_path (req_Kind req) = Some p ->
  req_Object req = Some doc -> at_path [go "metadata"] doc = Some (JObj meta) ->
  at_path p doc = Some (JObj spec) -> member (go "containers") spec = Some (JArr cs) -> Forall is_object cs ->
  exists wk x, injection env req wk (written req st) = Done (st', x) /\
    (req_Kind req <> go "CronJob" -> exists doc', apply_patch ops doc = Some doc' /\ patched req wk x meta spec cs doc') /\
    (req_Kind req = go "CronJob" -> at_path [go "spec"; go "template"] doc = None ->
     apply_patch ops doc = None <-> injects (initContainer wk) (containers wk) x).
Proof.
  intros Hm Hops Hp Ho Hmeta Hspec Hcs Hobj.
  destruct (mutate_patch req st st' r ops p doc Hm Hops Hp Ho) as (wk & x & Hdm & Hdw & Hi & ->).
  exists wk, x. split; [done|]. split; [|intros _; by eapply template_missing]. intros Hk.
  assert (p = template) as ->; [|by apply template_patched].
  unfold pod_path in Hp. case_bool_decide; [by injection Hp as <-|]. by rewrite bool_decide_eq_false_2 in Hp.
Qed.

(** *** Quotas *)

(** The cached accounts of a namespace, listed when there are none yet. *)
Definition accounts_of (st : wh_state) (ns : gostring) : sa_set :=
  default (sa_Prepare (accounts env) (list_accounts env ns) newSet) (watchers st !! ns).

(** What is known of a user: from the namespace, else from [default]. *)
Definition known_admin (st : wh_state) (ns uid : gostring) : option bool :=
  match IsClusterAdmin (accounts_of st ns) uid with
  | Some b => Some b
  | None => IsClusterAdmin (accounts_of st (go "default")) uid
  end.

(** The metadata a request is judged by; none when it is not judged. *)
Definition judged (req : AdmissionRequest) : option ObjectMetaHolder :=
  if bool_decide (req_Operation req = go "DELETE") then Some no_meta
  else if bool_decide (req_Operation req = go "CONNECT") then None
  else m ← req_Object req ≫= dec_meta; if mutationRequired env ignoredNamespaces m then Some m else None.

Lemma getWatcher_accounts ns st : snd (getWatcher env ns st) = accounts_of st ns.
Proof. unfold getWatcher, accounts_of. by destruct (watchers st !! ns). Qed.

(** Listing the accounts of one namespace does not change what others have. *)
Lemma getWatcher_keeps ns st ns' : accounts_of (fst (getWatcher env ns st)) ns' = accounts_of st ns'.
Proof.
  unfold getWatcher, accounts_of. destruct (watchers st !! ns) as [w|] eqn:E; [done|]. cbn.
  destruct (decide (ns = ns')) as [->|Hne]; [by rewrite lookup_insert_eq, E|by rewrite lookup_insert_ne].
Qed.

Lemma admit_quota_spec req m st :
  snd (admit_quota env req m st) = denied <->
  UserInfo_UID req <> [] /\ (om_Name m = go "rq-" ++ req_Namespace req \/ req_Name req = go "rq-" ++ req_Namespace req) /\
  known_admin st (req_Namespace req) (UserInfo_UID req) = Some false.
Proof.
  unfold admit_quota, known_admin.
  destruct (bool_decide (UserInfo_UID req = []) || _) eqn:Eb.
  - split; [done|]. intros (Hu & Hn & _). apply orb_true_iff in Eb as [Eb%bool_decide_eq_true|Eb]; [done|].
    apply andb_true_iff in Eb as [E1%bool_decide_eq_true E2%bool_decide_eq_true]. tauto.
  - apply orb_false_iff in Eb as [E0%bool_decide_eq_false Eb].
    assert (Hname : om_Name m = go "rq-" ++ req_Namespace req \/ req_Name req = go "rq-" ++ req_Namespace req).
    { destruct (decide (om_Name m = go "rq-" ++ req_Namespace req)); [by left|].
      rewrite bool_decide_eq_true_2 in Eb by done. right. by apply dec_stable, (bool_decide_eq_false_1 _). }
    pose proof (getWatcher_accounts (req_Namespace req) st) as E1.
    pose proof (getWatcher_keeps (req_Namespace req) st (go "default")) as E2.
    destruct (getWatcher env (req_Namespace req) st) as [st1 w]. cbn [fst snd] in *. subst w.
    destruct (IsClusterAdmin (accounts_of st (req_Namespace req)) (UserInfo_UID req)) as [b|]; cbn [snd].
    + destruct b; naive_solver.
    + pose proof (getWatcher_accounts (go "default") st1) as E3. rewrite E2 in E3.
      destruct (getWatcher env (go "default") st1) as [st2 w]. cbn [fst snd] in *. subst w.
      destruct (IsClusterAdmin _ _) as [[]|]; naive_solver.
Qed.

Lemma accounts_written req st ns : accounts_of (written req st) ns = accounts_of st ns.
Proof. done. Qed.

(** C34: A request about a resource quota is denied exactly when it is judged at
    all, names the quota of its namespace, and comes from an account that is known,
    in the namespace or in [default], not to administer the cluster; an account
    that is not known is let through. *)
Theorem quota_denied_iff req st :
  req_Kind req = go "ResourceQuota" ->
  (exists st', mutate env req st = Done (st', denied)) <->
  exists m, judged req = Some m /\ UserInfo_UID req <> [] /\
    (om_Name m = go "rq-" ++ req_Namespace req \/ req_Name req = go "rq-" ++ req_Namespace req) /\
    known_admin st (req_Namespace req) (UserInfo_UID req) = Some false.
Proof.
  intros Hk. unfold mutate, mutate_begin, judged. rewrite Hk.
  rewrite (bool_decide_eq_true_2 (go "ResourceQuota" = _)) by done.
  rewrite (bool_decide_eq_false_2 (go "ResourceQuota" <> _)) by (intros []; done).
  fold (written req st).
  assert (Hq : forall m, (exists st', (let '(st0, r) := let '(st0, r) := admit_quota env req m (written req st) in (st0, @inl _ work r) in
                    match r with inl r => Done (st0, r) | inr wk => mutate_finish env req wk st0 end) = Done (st', denied)) <->
                 snd (admit_quota env req m (written req st)) = denied).
  { intros m. destruct (admit_quota env req m (written req st)) as [st1 r]. cbn. split; [by intros (? & [= _ ->])|].
    intros ->. by eexists. }
  destruct (bool_decide (req_Operation req = go "DELETE")).
  { rewrite Hq, admit_quota_spec. naive_solver. }
  destruct (bool_decide (req_Operation req = go "CONNECT")); [naive_solver|].
  destruct (req_Object req ≫= dec_meta) as [m|]; cbn [mbind option_bind]; [|naive_solver].
  destruct (mutationRequired env ignoredNamespaces m); cbn [negb]; [|naive_solver].
  rewrite Hq, admit_quota_spec. naive_solver.
Qed.

(** Anyone may change the quota of a development space by giving it the
    annotation that marks objects the webhook is to leave alone. *)
Theorem quota_bypass req st doc m :
  req_Operation req <> go "DELETE" -> req_Object req = Some doc -> dec_meta doc = Some m ->
  om_Annotations m !! go "nocalhost-dep-ignore" = Some (go "true") ->
  mutate env req st = Done (st, allowed).
Proof.
  intros Hd Ho Hm Ha. unfold mutate, mutate_begin. rewrite (bool_decide_eq_false_2 (req_Operation req = _)) by done.
  destruct (bool_decide (req_Operation req = go "CONNECT")); [done|]. rewrite Ho. cbn [mbind option_bind]. rewrite Hm.
  unfold mutationRequired. rewrite (bool_decide_eq_true_2 (om_Annotations m !! _ = _)) by done.
  rewrite andb_comm. destruct (negb (bool_decide (om_Namespace m ∈ Split _ _)) && _); [done|].
  by destruct (bool_decide (om_Namespace m ∈ ignoredNamespaces)).
Qed.

(** *** Concurrent requests *)

Lemma from_configmap_keeps req wk appName st st' x :
  from_configmap env req wk appName st = Done (st', x) -> nocalhostNamespace st' = nocalhostNamespace st.
Proof.
  unfold from_configmap. case_bool_decide; [|by intros [= <- _]].
  unfold getCmWatcher. destruct (cmWatchers st !! req_Namespace req) as [w|];
    destruct (GetNocalhostConfig _ _ _ _ _ _) as [[[appCfg svcCfg]|]| |]; try done; try (by intros [= <- _]);
    destruct (nocalhostDepConfigmapCustom appCfg svcCfg (containers wk)); try done; by intros [= <- _].
Qed.

Lemma begin_writes req st st' wk :
  mutate_begin env req st = (st', inr wk) -> nocalhostNamespace st' = req_Namespace req.
Proof.
  unfold mutate_begin. intros Hb. repeat (case_match; simplify_eq/=; try done).
Qed.

(** What the older config maps of a namespace make of a request. *)
Definition answer_from (ns : gostring) (req : AdmissionRequest) (wk : work) (st : wh_state)
    : outcome (wh_state * AdmissionResponse) :=
  x <~ nocalhostDepConfigmap (dep_yaml env) (list_dep_configmaps env ns) (resourceName wk) (req_Kind req) (containers wk);
  Done (st, mkResponse true None (Some (patch_of env req wk x))).

(** A request that takes its configuration from the older config maps reads
    those of its own namespace when nothing interferes, and those of another
    request's namespace when that one begins before it finishes. *)
Theorem namespace_race reqA reqB st st1 st2 wkA wkB st1' st2' :
  mutate_begin env reqA st = (st1, inr wkA) -> mutate_begin env reqB st1 = (st2, inr wkB) ->
  from_annotation env reqA wkA = Done None ->
  from_configmap env reqA wkA (snd (signature env reqA wkA)) st1 = Done (st1', None) ->
  from_configmap env reqA wkA (snd (signature env reqA wkA)) st2 = Done (st2', None) ->
  mutate_finish env reqA wkA st1 = answer_from (req_Namespace reqA) reqA wkA st1' /\
  mutate_finish env reqA wkA st2 = answer_from (req_Namespace reqB) reqA wkA st2'.
Proof.
  intros HA HB Ha H1c H2c. unfold mutate_finish, injection, answer_from. rewrite Ha, H1c, H2c.
  rewrite (from_configmap_keeps _ _ _ _ _ _ H1c), (from_configmap_keeps _ _ _ _ _ _ H2c).
  rewrite (begin_writes _ _ _ _ HA), (begin_writes _ _ _ _ HB).
  split; by destruct (nocalhostDepConfigmap _ _ _ _ _).
Qed.

(** *** Configurations that are found but do not fit *)

(** A configuration in the annotation of a workload hides the application's
    config map even when it has no service of this kind: kinds are compared as
    they are written there, and in small letters in the config map. *)
Theorem annotation_hides_configmap req wk st s n :
  om_Annotations (wk_meta wk) !! AnnotationKey = Some (escape s) -> s <> [] -> resourceName wk <> [] ->
  0 < include_depth (rendering env) ->
  unmarshal_svcs (plain_text s) = ([], false) -> snd (unmarshal_svc (plain_text s)) = false ->
  RenderConfig (rendering env) (wh_os env) (TextRenderItem (escape s)) = Done (Ok n) ->
  Forall (fun c => svc_Type c <> req_Kind req) (ServiceConfigs (AppConfig n)) ->
  injection env req wk st = Done (st, ([], [])).
Proof.
  intros Ha Hs Hn Hd Hl Hu Hr Hty. unfold injection, from_annotation. rewrite Ha. cbn [default].
  rewrite (bool_decide_eq_true_2 (escape s <> [])), (bool_decide_eq_true_2 (resourceName wk <> [])) by
    (done || (destruct s as [|c s']; [done|]; cbn; by case_match)).
  cbn [andb].
  rewrite (load_as_app (rendering env) (wh_os env) s (resourceName wk) (req_Kind req) n) by done.
  assert (E : GetSvcConfigV2 (Some n) (resourceName wk) (req_Kind req) = None).
  { unfold GetSvcConfigV2. destruct (List.find _ _) as [c|] eqn:Ef; [|done]. exfalso.
    apply find_some in Ef as [Hin Hc]. rewrite Forall_forall in Hty. apply list_elem_of_In in Hin.
    apply (Hty c Hin). unfold is_config in Hc. apply andb_true_iff in Hc as [_ Hc]. by apply bool_decide_eq_true in Hc. }
  by rewrite E.
Qed.
End theorems.

(** *** Waiting *)

Section waiting.

Definition wait_cmd (kind : gostring) (arg : gostring -> gostring) (x : gostring) : gostring :=
  go "wait_for.sh " ++ kind ++ go " " ++ arg x.

Lemma Join_app_ne (l k : list gostring) sep : l <> [] -> k <> [] -> Join (l ++ k) sep = Join l sep ++ sep ++ Join k sep.
Proof.
  intros Hl Hk. induction l as [|x l IH]; [done|]. destruct l as [|y l].
  - cbn [app]. by rewrite Join_cons.
  - change ((x :: y :: l) ++ k) with (x :: ((y :: l) ++ k)). rewrite Join_cons, IH by done.
    rewrite (Join_cons x (y :: l)) by done. by rewrite <- !app_assoc.
Qed.

Definition and_sep : gostring := go " && ".

Lemma Join_args kind arg x l :
  Join ([go "wait_for.sh"; kind; arg x] ++ concat ((fun y => [go "&&"; go "wait_for.sh"; kind; arg y]) <$> l)) (go " ") =
  Join (wait_cmd kind arg <$> x :: l) and_sep.
Proof.
  assert (Hw : forall z, Join [go "wait_for.sh"; kind; arg z] (go " ") = wait_cmd kind arg z) by done.
  revert x. induction l as [|y l IH]; intros x; [by rewrite app_nil_r|].
  cbn [fmap list_fmap concat]. change ((wait_cmd kind arg x :: wait_cmd kind arg y :: (wait_cmd kind arg <$> l)))
    with (wait_cmd kind arg x :: (wait_cmd kind arg <$> y :: l)).
  rewrite (Join_cons (wait_cmd kind arg x)) by done. rewrite <- IH, Join_app_ne, Hw by done. f_equal.
Qed.

Lemma wait_args_cmds kind arg l : Join (wait_args kind arg l) (go " ") = Join (wait_cmd kind arg <$> l) and_sep.
Proof.
  destruct l as [|x l]; [done|]. rewrite <- Join_args. unfold wait_args. rewrite imap_cons.
  rewrite (imap_ext _ (const (fun y => [go "&&"; go "wait_for.sh"; kind; arg y]))) by done. by rewrite imap_const.
Qed.

Lemma and_some_join acc kind arg l :
  Forall (fun c => c <> []) acc ->
  and_some (Join acc and_sep) l (wait_args kind arg) = Join (acc ++ (wait_cmd kind arg <$> l)) and_sep.
Proof.
  intros Hacc. unfold and_some. case_bool_decide as Hl; [|by rewrite Hl, app_nil_r].
  unfold and_then. rewrite wait_args_cmds. destruct acc as [|c acc]; [done|].
  apply Forall_cons in Hacc as [Hc _]. rewrite bool_decide_eq_true_2.
  - rewrite Join_app_ne, <- app_assoc; [done|done|by destruct l].
  - destruct acc; [done|]. rewrite Join_cons by done. by destruct c.
Qed.

(** The commands that wait for what a service depends on. *)
Definition wait_cmds (d : DependLabelSelector) : list gostring :=
  (wait_cmd (go "pod") label_arg <$> dep_Pods d) ++ (wait_cmd (go "job") label_arg <$> dep_Jobs d) ++
  (wait_cmd (go "tcp") id <$> dep_TCP d) ++ (wait_cmd (go "http") id <$> dep_HTTP d).

(** The waiting container runs one command for each pod, job, address and URL
    the service depends on, in this order, each only after those before it have
    succeeded; without dependencies there is no such container. *)
Theorem wait_command_joined d :
  wait_command (Some d) = Join (wait_cmds d) and_sep /\ (wait_command (Some d) = [] <-> wait_cmds d = []).
Proof.
  assert (Hne : forall kind arg l, Forall (fun c : gostring => c <> []) (wait_cmd kind arg <$> l)).
  { intros kind arg l. apply Forall_fmap, Forall_forall. done. }
  assert (E : wait_command (Some d) = Join (wait_cmds d) and_sep).
  { unfold wait_command, wait_cmds, waitForPodArgs, waitForJobArgs, waitForTCPArgs, waitForHTTPArgs.
    change ([] : gostring) with (Join [] and_sep) at 1.
    rewrite !and_some_join by (repeat apply Forall_app_2; auto using Forall_nil_2). by rewrite <- !app_assoc. }
  split; [done|]. rewrite E. split; [|by intros ->]. unfold wait_cmds.
  assert (Hall : Forall (fun c : gostring => c <> []) (wait_cmds d)) by (unfold wait_cmds; repeat apply Forall_app_2; auto).
  fold (wait_cmds d). destruct (wait_cmds d) as [|c l]; [done|]. apply Forall_cons in Hall as [Hc _].
  destruct l; [done|]. rewrite Join_cons by done. by destruct c.
Qed.

(** With two older config maps, the first of which makes the workload wait, the
    waiting container is injected twice under one name. *)
Theorem waiting_job_repeated `{!UnicodeLower} yaml cm1 cm2 text dep name kind cts inits envs :
  Contains (cm_Name cm1) (go "nocalhost-depends-do-not-overwrite") = true ->
  Contains (cm_Name cm2) (go "nocalhost-depends-do-not-overwrite") = true ->
  cm_Data cm1 !! go "nocalhost" = Some text -> yaml text = Some dep ->
  foldl (add_wait name kind (ReleaseName dep)) [] (Dependency dep) <> [] ->
  cm_Data cm2 !! go "nocalhost" = None ->
  nocalhostDepConfigmap yaml (Some [cm1; cm2]) name kind cts = Done (inits, envs) ->
  length inits = 2 /\ ~ NoDup (ic_Name <$> inits).
Proof.
  intros H1 H2 Ht Hy Hw Hn. unfold nocalhostDepConfigmap. cbn [foldl mbind option_bind].
  unfold dep_config_map at 2. rewrite H1, Ht. cbn [mbind option_bind]. rewrite Hy. cbn [mbind option_bind].
  unfold dep_config_map. rewrite H2, Hn. unfold waiting_job. rewrite bool_decide_eq_true_2 by done.
  intros [= <- _]. split; [done|]. cbn. intros [Hnd _]%NoDup_cons. apply Hnd. by apply list_elem_of_singleton.
Qed.

(** A single configuration without a name and without an installation part
    makes the webhook dereference nil for a workload of one container. *)
Theorem unnamed_config_panics a s cfg c :
  ContainerConfigs s = [cfg] -> cc_Name cfg = [] -> Install cfg = None ->
  nocalhostDepConfigmapCustom a (Some s) [c] = Panic.
Proof.
  intros Hs Hn Hi. unfold nocalhostDepConfigmapCustom. rewrite Hs. cbn [imap mapM]. unfold container_envs, container_mapping.
  cbn [foldl]. rewrite Hn. rewrite bool_decide_eq_true_2 by done. rewrite Hi.
  destruct (decide (c_Name c = [])) as [->|Hc].
  - rewrite lookup_insert_eq. cbn. by rewrite Hi.
  - rewrite lookup_insert_ne by done. done.
Qed.
End waiting.

(** ** Runs *)

Section demo.
#[local] Existing Instances latin1_tables demo_config_yaml.
#[local] Instance plain_lower : UnicodeLower := {| lower_runes := fun s => s |}.

Definition demo_dep : mainDep :=
  mkMainDep [(go "A", go "1")] [] [mkDepApp (go "web") (go "deployment") (Some [go "db"]) None] [].

Definition dep_map (name : gostring) : ConfigMap :=
  mkCm (name ++ go "-nocalhost-depends-do-not-overwrite") {[ go "nocalhost" := go "dep" ]}.

(** One namespace has an older config map, the other has none. *)
Definition demo_env : wh_env :=
  mkWhEnv [] (fun _ => Some [mkSa (go "uid-2") (go "dev") (go "ns") []]) demo_cluster (fun _ => None)
    (fun ns => if bool_decide (ns = go "ns") then Some [dep_map (go "a")] else Some [])
    (fun _ => Some demo_dep) false (fun _ _ => None) None demo_render demo_files.

Definition demo_state : wh_state := mkState ∅ ∅ [].

Definition demo_pod : json :=
  JObj [(go "containers", JArr [JObj [(go "name", JStr (go "main"))]])].

Definition demo_object (spec : json) : json :=
  JObj [(go "metadata", JObj [(go "name", JStr (go "web")); (go "namespace", JStr (go "ns"))]); (go "spec", spec)].

Definition demo_deployment : json := demo_object (JObj [(go "template", JObj [(go "spec", demo_pod)])]).

Definition demo_cronjob : json :=
  demo_object (JObj [(go "jobTemplate", JObj [(go "spec", JObj [(go "template", JObj [(go "spec", demo_pod)])])])]).

Definition demo_request (kind : gostring) (ns : gostring) (doc : json) : AdmissionRequest :=
  mkRequest kind (go "CREATE") (go "web") ns (Some doc) (go "uid-2").

Lemma patch_applies_witness :
  exists st r ops doc', mutate demo_env (demo_request (go "Deployment") (go "ns") demo_deployment) demo_state = Done (st, r) /\
    Patch r = Some ops /\ apply_patch ops demo_deployment = Some doc'.
Proof.
  assert (Hm : exists st r ops,
    mutate demo_env (demo_request (go "Deployment") (go "ns") demo_deployment) demo_state = Done (st, r) /\
    Patch r = Some ops) by (eexists _, _, _; split; [vm_compute; reflexivity|reflexivity]).
  destruct Hm as (st & r & ops & Hm & Hops).
  destruct (patch_applies demo_env (demo_request (go "Deployment") (go "ns") demo_deployment) demo_state st r ops
    template demo_deployment _ _ _ Hm Hops eq_refl eq_refl eq_refl eq_refl eq_refl) as (wk & x & _ & Hd & _).
  - repeat constructor. by eexists.
  - destruct Hd as (doc' & H' & _); [discriminate|]. by exists st, r, ops, doc'.
Defined.

(** A variable for the container of a cron job cannot be added. *)
Lemma cronjob_patch_fails_witness :
  exists st r ops, mutate demo_env (demo_request (go "CronJob") (go "ns") demo_cronjob) demo_state = Done (st, r) /\
    Patch r = Some ops /\ apply_patch ops demo_cronjob = None.
Proof.
  assert (Hm : exists st r ops,
    mutate demo_env (demo_request (go "CronJob") (go "ns") demo_cronjob) demo_state = Done (st, r) /\
    Patch r = Some ops /\ apply_patch ops demo_cronjob = None)
    by (eexists _, _, _; split; [vm_compute; reflexivity|split; [reflexivity|vm_compute; reflexivity]]).
  destruct Hm as (st & r & ops & Hm & Hops & Hfail).
  destruct (cronjob_patch_fails demo_env (demo_request (go "CronJob") (go "ns") demo_cronjob) demo_state st r ops
    demo_cronjob _ Hm Hops eq_refl eq_refl eq_refl eq_refl) as (wk & x & _ & Hiff).
  exists st, r, ops. split; [exact Hm|]. split; [exact Hops|]. apply Hiff, Hiff, Hfail.
Defined.

Definition demo_quota (annotations : json) : json :=
  JObj [(go "metadata", JObj [(go "name", JStr (go "rq-ns")); (go "annotations", annotations)])].

Lemma quota_denied_iff_witness :
  exists st, mutate demo_env (demo_request (go "ResourceQuota") (go "ns") (demo_quota JNull)) demo_state = Done (st, denied).
Proof.
  apply (quota_denied_iff demo_env (demo_request (go "ResourceQuota") (go "ns") (demo_quota JNull)) demo_state eq_refl).
  eexists. split; [vm_compute; reflexivity|]. split; [done|]. split; [by left|]. vm_compute. reflexivity.
Defined.

Lemma quota_bypass_witness :
  mutate demo_env (demo_request (go "ResourceQuota") (go "ns")
      (demo_quota (JObj [(go "nocalhost-dep-ignore", JStr (go "true"))]))) demo_state = Done (demo_state, allowed).
Proof.
  eapply quota_bypass; [done|reflexivity|vm_compute; reflexivity|vm_compute; reflexivity].
Defined.

(** The workload of a namespace without older config maps is given those of
    another. *)
Lemma namespace_race_witness :
  exists st1 st2 wkA wkB st2', mutate_begin demo_env (demo_request (go "Deployment") (go "other") demo_deployment) demo_state = (st1, inr wkA) /\
    mutate_begin demo_env (demo_request (go "Deployment") (go "ns") demo_deployment) st1 = (st2, inr wkB) /\
    mutate_finish demo_env (demo_request (go "Deployment") (go "other") demo_deployment) wkA st2 =
      answer_from demo_env (go "ns") (demo_request (go "Deployment") (go "other") demo_deployment) wkA st2'.
Proof.
  eexists _, _, _, _, _. split; [vm_compute; reflexivity|]. split; [vm_compute; reflexivity|].
  eapply (proj2 (namespace_race demo_env (demo_request (go "Deployment") (go "other") demo_deployment)
    (demo_request (go "Deployment") (go "ns") demo_deployment) demo_state _ _ _ _ _ _
    ltac:(vm_compute; reflexivity) ltac:(vm_compute; reflexivity) ltac:(vm_compute; reflexivity)
    ltac:(vm_compute; reflexivity) ltac:(vm_compute; reflexivity))).
Defined.

Lemma annotation_hides_configmap_witness :
  injection demo_env (demo_request (go "Deployment") (go "ns") demo_deployment)
    (mkWork (mkMeta (go "web") (go "ns") {[ AnnotationKey := go "x" ]} []) (go "web") [] []) demo_state =
  Done (demo_state, ([], [])).
Proof.
  eapply (annotation_hides_configmap demo_env _ _ _ (go "x")).
  - reflexivity.
  - done.
  - done.
  - cbn. lia.
  - reflexivity.
  - reflexivity.
  - vm_compute. reflexivity.
  - repeat constructor; apply (bool_decide_eq_true_1 _); vm_compute; reflexivity.
Defined.

Lemma waiting_job_repeated_witness :
  exists inits envs, nocalhostDepConfigmap (fun _ => Some demo_dep) (Some [dep_map (go "a"); mkCm (cm_Name (dep_map (go "b"))) ∅])
      (go "web") (go "Deployment") [] = Done (inits, envs) /\ ~ NoDup (ic_Name <$> inits).
Proof.
  eexists _, _. split; [vm_compute; reflexivity|].
  eapply (waiting_job_repeated (fun _ => Some demo_dep) (dep_map (go "a")) (mkCm (cm_Name (dep_map (go "b"))) ∅) (go "dep")
    demo_dep (go "web") (go "Deployment") []); try (vm_compute; reflexivity).
  vm_compute. done.
Defined.

Lemma unnamed_config_panics_witness :
  nocalhostDepConfigmapCustom None (Some (mkSvcConfig (go "web") (go "deployment") [] None [mkContainer [] None None None]))
    [mkC (go "main") []] = Panic.
Proof. by apply (unnamed_config_panics None _ (mkContainer [] None None None)). Defined.
End demo.
