(* ===== verification/DevWorkload.v ===== *)
(** * Workloads entering and leaving dev mode ([internal/nhctl/controller]:
      [unstructured.go], [service.go], [duplicate.go], [raw_pod_controller.go],
      [duplicate_raw_pod_controller.go], [pod_controller.go], [dev_end.go])

    In replace mode a workload keeps its own manifest in an annotation while its
    pod is developed, and is deleted and created again from it when dev mode ends;
    workloads that cannot be patched get a deployment generated for them, and a
    bare pod is deleted and created again.  In duplicate mode a copy is created
    under the labels of the developer and deleted at the end.

    Objects are JSON trees.  The API server, the JSON codec of the typed objects,
    the text of JSON and [sjson] are parameters. *)

From stdpp Require Import sorting.
From S2P Require Import Prelude GoStrings FilePath DevDir AppMeta Search Profile PortForward Config ConfigLoad DepWatchers Webhook DevPod.
#[local] Open Scope go_scope.

Definition OriginWorkloadDefinition : gostring := go "dev.nocalhost/origin-workload-definition".
Definition OriginSpecJson : gostring := go "nocalhost.origin.spec.json".
Definition DevModeCount : gostring := go "dev.nocalhost/dev-mode-count".
Definition LastApplied : gostring := go "kubectl.kubernetes.io/last-applied-configuration".
Definition NocalhostApplicationName : gostring := go "dev.nocalhost/application-name".
Definition NocalhostApplicationNamespace : gostring := go "dev.nocalhost/application-namespace".
Definition RestartPolicyAlways : gostring := go "Always".
Definition PodType : gostring := go "pod".

(** ** Kinds of workload ([nocalhost/svc_type.go]) *)

(** A literal whose quotes are written as apostrophes. *)
Definition json_lit (s : string) : gostring :=
  (fun ch => if bool_decide (ch = "'"%char) then ascii_of_nat 34 else ch) <$> go s.

Definition DefaultDevModeAction : DevModeAction :=
  mkAction [(json_lit "[{'op':'replace','path':'/spec/replicas','value':1}]", go "json")] (go "/spec/template") false.

Definition PodDevModeAction : DevModeAction := mkAction [] [] false.

Definition DaemonSetDevModeAction : DevModeAction :=
  mkAction [(json_lit "[{'op':'replace','path': '/spec/template/spec/nodeName', 'value': 'nocalhost.unreachable'}]", go "json")]
    (go "/spec/template") true.

Definition JobDevModeAction : DevModeAction := mkAction [] (go "/spec/template") true.

Definition CronJobDevModeAction : DevModeAction :=
  mkAction [(json_lit "{'spec':{'suspend': true}}", go "strategic")] (go "/spec/jobTemplate/spec/template") true.

Definition KruiseCronJobDevModeAction : DevModeAction :=
  mkAction [(json_lit "[{'op':'replace','path': '/spec/suspend', 'value': true}]", go "json")]
    (go "/spec/template/broadcastJobTemplate/spec/template") true.

Definition builtin_types : list (gostring * DevModeAction) :=
  [(go "deployment", DefaultDevModeAction); (go "deployments.v1.apps", DefaultDevModeAction);
   (go "deployments.v1beta1.apps", DefaultDevModeAction); (go "deployments.v1beta2.apps", DefaultDevModeAction);
   (go "deployments.v1beta1.extensions", DefaultDevModeAction); (go "statefulset", DefaultDevModeAction);
   (go "statefulsets.v1.apps", DefaultDevModeAction); (go "statefulsets.v1beta1.apps", DefaultDevModeAction);
   (go "statefulsets.v1beta2.apps", DefaultDevModeAction); (go "statefulsets.v1beta1.extensions", DefaultDevModeAction);
   (go "daemonset", DaemonSetDevModeAction); (go "job", JobDevModeAction); (go "cronjob", CronJobDevModeAction);
   (go "cronjob", CronJobDevModeAction); (go "pod", PodDevModeAction); (go "pods.v1.", PodDevModeAction);
   (go "clonesets.v1alpha1.apps.kruise.io", DefaultDevModeAction);
   (go "statefulsets.v1beta1.apps.kruise.io", DefaultDevModeAction);
   (go "daemonsets.v1alpha1.apps.kruise.io", DaemonSetDevModeAction);
   (go "advancedcronjobs.v1alpha1.apps.kruise.io", KruiseCronJobDevModeAction);
   (go "broadcastjobs.v1alpha1.apps.kruise.io", JobDevModeAction)].

(** The table [init] builds: the actions of the configuration file, when it could
    be read, come after the built-in ones. *)
Definition supportedSvcType (crd : list (gostring * option DevModeAction)) : gmap gostring DevModeAction :=
  foldl (fun m '(crdType, a) => match a with
                                | Some a => if nonempty crdType then <[crdType := a]> m else m
                                | None => m
                                end)
    (foldl (fun m '(k, a) => <[k := a]> m) ∅ builtin_types) crd.

Definition GetDevModeActionBySvcType (crd : list (gostring * option DevModeAction)) (svcType : gostring)
    : option DevModeAction := supportedSvcType crd !! svcType.

(** ** Objects *)

Definition remove_member (k : gostring) (fs : list (gostring * json)) : list (gostring * json) :=
  filter (fun kv => fst kv <> k) fs.

(** [RemoveNestedField] and [SetNestedField] below [metadata]: nothing happens
    when it is not an object; setting creates it when it is missing. *)
Definition on_meta (f : list (gostring * json) -> list (gostring * json)) (create : bool) (j : json) : json :=
  match j with
  | JObj fs =>
      match member (go "metadata") fs with
      | Some (JObj ms) => JObj (set_member (go "metadata") (JObj (f ms)) fs)
      | Some _ => j
      | None => if create then JObj (set_member (go "metadata") (JObj (f [])) fs) else j
      end
  | _ => j
  end.

Definition remove_meta (k : gostring) : json -> json := on_meta (remove_member k) false.
Definition set_meta (k : gostring) (v : json) : json -> json := on_meta (set_member k v) true.

(** [NestedStringMap]: [None] unless all values are strings. *)
Definition string_map (j : json) : option (gmap gostring gostring) :=
  match j with
  | JObj fs => foldl (fun m '(k, v) => m ← m; match v with JStr s => Some (<[k := s]> m) | _ => None end) (Some ∅) fs
  | _ => None
  end.

(** [Unstructured.GetAnnotations]: a nil map is empty. *)
Definition GetAnnotations (j : json) : gmap gostring gostring :=
  default ∅ (at_path [go "metadata"; go "annotations"] j ≫= string_map).

Definition SetAnnotations (m : gmap gostring gostring) : json -> json := set_meta (go "annotations") (map_json m).

Definition GetAnnotationFromUnstructured (u : json) (key : gostring) : res dev_error gostring :=
  match GetAnnotations u !! key with
  | Some v => Ok v
  | None => Err (ErrNoAnnotation key)
  end.

Definition RemoveUselessInfo (u : json) : json :=
  let u := match u with JObj fs => JObj (remove_member (go "status") fs) | _ => u end in
  let u := remove_meta (go "resourceVersion") (remove_meta (go "managedFields") u) in
  let u := remove_meta (go "creationTimestamp") u in
  let u := remove_meta (go "generation") (remove_meta (go "uid") (remove_meta (go "managedFields") u)) in
  let a := GetAnnotations u in
  if bool_decide (a = ∅) then u
  else SetAnnotations (delete OriginSpecJson (delete LastApplied (delete OriginWorkloadDefinition a))) u.

(** *** Paths into an object *)

(** [NestedFieldNoCopy]: [None] when the field is missing. *)
Fixpoint nested_field (fields : list gostring) (j : json) : res dev_error (option json) :=
  match fields with
  | [] => Ok (Some j)
  | k :: fields =>
      match j with
      | JNull => Ok None
      | JObj fs => match member k fs with None => Ok None | Some v => nested_field fields v end
      | _ => Err ErrJson
      end
  end.

Definition nested_map (fields : list gostring) (j : json) : res dev_error (option (list (gostring * json))) :=
  r <-! nested_field fields j;
  match r with
  | None => Ok None
  | Some (JObj fs) => Ok (Some fs)
  | Some _ => Err ErrJson
  end.

Definition nested_slice (fields : list gostring) (j : json) : res dev_error (option (list json)) :=
  r <-! nested_field fields j;
  match r with
  | None => Ok None
  | Some (JArr l) => Ok (Some l)
  | Some _ => Err ErrJson
  end.

(** The first item that is a number, and that number. *)
Fixpoint slice_item (i : nat) (l : list gostring) : option (nat * Z) :=
  match l with
  | [] => None
  | item :: l =>
      if bool_decide (item = []) then slice_item (S i) l
      else match Atoi item with Some index => Some (i, index) | None => slice_item (S i) l end
  end.

Definition found_map (path : gostring) (r : res dev_error (option (list (gostring * json))))
    : res dev_error (list (gostring * json)) :=
  r <-! r; match r with Some fs => Ok fs | None => Err (ErrPath path) end.

Definition GetUnstructuredMapByPath (path : gostring) (u : json) : outcome (res dev_error (list (gostring * json))) :=
  if HasPrefix path [ascii_of_nat 92; "/"%char] then Done (Err (ErrPath path))
  else
    let path := TrimPrefix path slash in
    let pathItems := Split path slash in
    match slice_item 0 pathItems with
    | None => Done (found_map path (nested_map pathItems u))
    | Some (splitIndex, arrayIndex) =>
        match nested_slice (take splitIndex pathItems) u with
        | Err e => Done (Err e)
        | Ok None => Done (Err (ErrPath path))
        | Ok (Some mapSlice) =>
            if (arrayIndex <? 0)%Z || (arrayIndex =? int64_max)%Z then Panic
            else if (Z.of_nat (length mapSlice) <? arrayIndex + 1)%Z then Done (Err (ErrPath path))
            else match mapSlice !! Z.to_nat arrayIndex with
                 | Some (JObj p) => Done (found_map path (nested_map (drop (S splitIndex) pathItems) (JObj p)))
                 | _ => Done (Err (ErrPath path))
                 end
        end
    end.

(** ** Parameters *)

Section params.
Context `{!Quantities}.

(** Encoding and decoding of the typed pod objects.  Decoding a pod starts from a
    value, whose fields the text may leave as they are. *)
Record PodObject := mkPodObject {
  po_Name : gostring;
  po_Kind : gostring;
  po_Labels : gmap gostring gostring;
  po_Annotations : gmap gostring gostring;
  po_ResourceVersion : gostring;
  po_Owners : list gostring;
  po_Spec : PodSpec;
  po_Status : gostring;
  po_rest : gostring
}.

Definition zero_pod : PodObject := mkPodObject [] [] ∅ ∅ [] [] (mkPodSpec [] [] [] [] []) [] [].

Class PodJson := {
  dec_template : json -> option PodTemplateSpec;
  dec_pod_spec : json -> option PodSpec;
  enc_spec : PodSpec -> json;
  enc_template : PodTemplateSpec -> json;
  marshal_pod : PodObject -> gostring;
  unmarshal_pod : gostring -> PodObject -> option PodObject;
  pod_view : PodObject -> Pod
}.

(** The deployments the code creates. *)
Record GenDeployment := mkGen {
  gd_Name : gostring;
  gd_Labels : gmap gostring gostring;
  gd_Selector : gmap gostring gostring;
  gd_Template : PodTemplateSpec;
  gd_Recreate : bool
}.

(** The text of JSON and [sjson], on texts. *)
Class JsonText := {
  json_text : json -> gostring;
  sjson_SetRaw : gostring -> gostring -> gostring -> option gostring;
  sjson_Delete : gostring -> gostring -> option gostring
}.

(** The calls of the client.  [stream_infos] reports no error: it is always asked
    to continue. *)
Class WorkloadApi (W : Type) := {
  get_object : gostring -> gostring -> act W json;
  patch_object : gostring -> gostring -> gostring -> gostring -> act W unit;
  stream_infos : gostring -> act W (list json);
  delete_info : json -> act W unit;
  apply_info : json -> act W unit;
  list_infos : gmap gostring gostring -> gostring -> act W (list json);
  list_deployments : gmap gostring gostring -> act W (list gostring);
  create_deployment : GenDeployment -> act W unit;
  create_deployment_wait : GenDeployment -> act W unit;
  delete_deployment : gostring -> act W unit;
  list_pods : gmap gostring gostring -> act W (list Pod);
  pods_of_deployment : gostring -> act W (list Pod);
  get_pod : gostring -> act W PodObject;
  create_pod : PodObject -> act W unit;
  delete_pod : gostring -> act W unit;
  short_uuid : W -> gostring;
  mesh_manager_exists : gostring -> act W bool;
  mesh_create : gostring -> json -> act W bool
}.
End params.

Definition act_lift {W A : Type} (r : outcome (res dev_error A)) : act W A :=
  match r with Done r => act_of r | Panic => act_panic | Fuel => fun w => Fuel end.

Definition act_opt {W A : Type} (r : option A) : act W A :=
  match r with Some a => act_ret a | None => act_fail ErrJson end.

Fixpoint act_each {W A : Type} (f : A -> act W unit) (l : list A) : act W unit :=
  match l with
  | [] => act_ret tt
  | x :: l => _ <-$ f x; act_each f l
  end.

(** ** What the API server does with a patch

    A merge patch, as RFC 7386 says; JSON patches are in [Webhook]. *)
Fixpoint merge (patch target : json) {struct patch} : json :=
  match patch with
  | JObj ms =>
      JObj ((fix members ms fs :=
               match ms with
               | [] => fs
               | (k, v) :: ms =>
                   members ms match v with
                              | JNull => remove_member k fs
                              | _ => set_member k (merge v (default JNull (member k fs))) fs
                              end
               end) ms match target with JObj fs => fs | _ => [] end)
  | _ => patch
  end.

Section workload.
Context `{!Quantities} `{!MapOrder gostring} `{!PodJson} `{!JsonText}.
Context {W : Type} `{!ClaimApi W} `{!WorkloadApi W} (sha1 : gostring -> gostring).

Definition GetUnstructured (c : DevController) : act W json := get_object (c_type (ctl c)) (c_name (ctl c)).

Definition GetPodTemplateFromSpecPath (path : gostring) (u : json) : outcome (res dev_error PodTemplateSpec) :=
  if bool_decide (path = []) then
    r <~ GetUnstructuredMapByPath (go "/spec") u;
    Done (fs <-! r;
          match dec_pod_spec (JObj fs) with Some spec => Ok (mkTemplate ∅ ∅ spec []) | None => Err ErrJson end)
  else
    r <~ GetUnstructuredMapByPath path u;
    Done (fs <-! r;
          match dec_template (JObj fs) with Some p => Ok p | None => Err ErrJson end).

Definition pod_template (c : DevController) (u : json) : act W PodTemplateSpec :=
  act_lift (GetPodTemplateFromSpecPath (PodTemplatePath (action c)) u).

Definition GetPodTemplate (c : DevController) : act W PodTemplateSpec :=
  um <-$ GetUnstructured c; pod_template c um.

Definition GetContainers (c : DevController) : act W (list Container) :=
  um <-$ GetUnstructured c; pt <-$ pod_template c um; act_ret (ps_Containers (pt_Spec pt)).

Definition GetContainerImage (c : DevController) (container : gostring) : act W gostring :=
  cs <-$ GetContainers c;
  match List.find (fun ct => bool_decide (pc_Name ct = container)) cs with
  | Some ct => act_ret (pc_Image ct)
  | None => act_fail (ErrContainerNotFound container)
  end.

(** [GetUnstructuredFromString]. *)
Definition GetUnstructuredFromString (str : gostring) : act W json :=
  infos <-$ stream_infos str;
  match infos with
  | [obj] => act_ret obj
  | _ => act_fail (ErrInfos (length infos))
  end.

(** The manifest kept by dev mode is read when it can be. *)
Definition GetOriginalContainers (workloadType workloadName path : gostring) : act W (list Container) :=
  um <-$ get_object workloadType workloadName;
  um <-$ match GetAnnotationFromUnstructured um OriginWorkloadDefinition with
         | Ok od => r <-$ act_try (GetUnstructuredFromString od);
                    act_ret match r with Ok originalUm => originalUm | Err _ => um end
         | Err _ => act_ret um
         end;
  pt <-$ act_lift (GetPodTemplateFromSpecPath path um);
  act_ret (ps_Containers (pt_Spec pt)).

Definition string_field (k : gostring) (u : json) : gostring :=
  match u with
  | JObj fs => match member k fs with Some (JStr s) => s | _ => [] end
  | _ => []
  end.

(** [GetKind] and [GetAPIVersion]. *)
Definition GetTypeMeta (c : DevController) : act W (gostring * gostring) :=
  um <-$ GetUnstructured c;
  let k := string_field (go "kind") um in
  let a := string_field (go "apiVersion") um in
  if bool_decide (k = []) || bool_decide (a = []) then act_fail ErrKind else act_ret (k, a).

(** ** Patches *)

Definition jsonPatch (op path : gostring) (value : json) : json :=
  JArr [JObj [(go "op", JStr op); (go "path", JStr path); (go "value", value)]].

Definition patch_workload (c : DevController) (content patchType : gostring) : act W unit :=
  patch_object (c_type (ctl c)) (c_name (ctl c)) content patchType.

Definition json_patch (c : DevController) (op path : gostring) (value : json) : act W unit :=
  patch_workload c (json_text (jsonPatch op path value)) (go "json").

Definition count_path : gostring := go "/metadata/annotations/" ++ ReplaceAll DevModeCount slash (go "~1").

(** [int] arithmetic wraps. *)
Definition int_wrap (z : Z) : Z := ((z - int64_min) mod 18446744073709551616 + int64_min)%Z.

Definition IncreaseDevModeCount (c : DevController) : act W unit :=
  um <-$ GetUnstructured c;
  let count := match GetAnnotationFromUnstructured um DevModeCount with
               | Err _ => 1%Z
               | Ok devModeCount => int_wrap (Atoi_value devModeCount + 1)
               end in
  json_patch c (go "add") count_path (JStr (Itoa count)).

Definition DecreaseDevModeCount (c : DevController) : act W unit :=
  um <-$ GetUnstructured c;
  match GetAnnotationFromUnstructured um DevModeCount with
  | Err _ => act_ret tt
  | Ok devModeCount =>
      let count := Atoi_value devModeCount in
      json_patch c (go "add") count_path (JStr (Itoa (if (0 <? count)%Z then count - 1 else count)%Z))
  end.

(** The configuration is dereferenced; the errors of the patches are logged. *)
Definition patchAfterDevContainerReplaced (c : DevController) (containerName resourceType resourceName : gostring)
    : act W unit :=
  match GetContainerDevConfigOrDefault (config c) containerName with
  | None => act_panic
  | Some d => act_each (fun p => _ <-$ act_try (patch_object resourceType resourceName (fst p) (snd p)); act_ret tt) (Patches d)
  end.

(** ** Replace mode *)

Definition getGeneratedDeploymentLabels (c : DevController) : gmap gostring gostring :=
  <[DevWorkloadIgnored := go "true"]> (<[go "dev.nocalhost/workload-type" := c_type (ctl c)]>
    (<[go "dev.nocalhost/workload-name" := c_name (ctl c)]> ∅)).

Definition getGeneratedDeploymentName (c : DevController) (w : W) : gostring :=
  c_name (ctl c) ++ go "-gen-" ++ short_uuid w.

(** The options the controllers read. *)
Record DevStartOptions := mkStart {
  opt_Container : gostring;
  opt_DevImage : gostring;
  opt_StorageClass : gostring;
  opt_MeshHeader : gmap gostring gostring
}.

Definition has_sidecar (l : list Container) : bool :=
  bool_decide (NocalhostDefaultDevSidecarName ∈ (pc_Name <$> l)).

Definition annotation_patch (key value : gostring) : json :=
  JObj [(go "metadata", JObj [(go "annotations", JObj [(key, JStr value)])])].

Definition scale (c : DevController) (resourceType resourceName : gostring) : act W unit :=
  act_each (fun item => patch_object resourceType resourceName (fst item) (snd item)) (ScalePatches (action c)).

Definition Recreate : json := JObj [(go "type", JStr (go "Recreate"))].

Definition with_policy (p : PodSpec) (policy : gostring) : PodSpec :=
  mkPodSpec (ps_Containers p) (ps_Volumes p) (ps_NodeName p) policy (ps_rest p).

Definition with_node (p : PodSpec) (node : gostring) : PodSpec :=
  mkPodSpec (ps_Containers p) (ps_Volumes p) node (ps_RestartPolicy p) (ps_rest p).

(** The workload itself is patched. *)
Definition patch_in_place (c : DevController) (ops : DevStartOptions) (podTemplate : PodTemplateSpec) (podSpec : PodSpec)
    : act W unit :=
  let path := PodTemplatePath (action c) in
  _ <-$ act_try (json_patch c (go "replace") (go "/spec/strategy") Recreate);
  _ <-$ json_patch c (go "replace") (path ++ go "/spec") (enc_spec podSpec);
  _ <-$ json_patch c (go "replace") (path ++ go "/metadata/annotations")
          (map_json (getDevContainerAnnotations c (opt_Container ops) (pt_Annotations podTemplate)));
  patchAfterDevContainerReplaced c (opt_Container ops) (c_type (ctl c)) (c_name (ctl c)).

(** A deployment is generated for it. *)
Definition generate_deployment (c : DevController) (ops : DevStartOptions) (podTemplate : PodTemplateSpec) (podSpec : PodSpec)
    (labels : gmap gostring gostring) : act W unit := fun w =>
  let template := mkTemplate labels (getDevContainerAnnotations c (opt_Container ops) (pt_Annotations podTemplate))
                    (with_policy podSpec RestartPolicyAlways) (pt_rest podTemplate) in
  let d := mkGen (getGeneratedDeploymentName c w) (getGeneratedDeploymentLabels c) labels template true in
  (_ <-$ create_deployment d;
   patchAfterDevContainerReplaced c (opt_Container ops) (go "deployment") (gd_Name d)) w.

Definition pod_labels (c : DevController) (podTemplate : PodTemplateSpec) : gmap gostring gostring :=
  if Create (action c) && bool_decide (pt_Labels podTemplate = ∅) then getGeneratedDeploymentLabels c
  else pt_Labels podTemplate.

(** The labels of the development pod are returned; the wait for it is
    [first_ready] below. *)
Definition PatchDevModeManifest (c : DevController) (ops : DevStartOptions) : act W (gmap gostring gostring) :=
  um <-$ GetUnstructured c;
  let um := RemoveUselessInfo um in
  let originalSpecJson := json_text um in
  podTemplate <-$ pod_template c um;
  if has_sidecar (ps_Containers (pt_Spec podTemplate)) then act_fail (ErrSidecarExists NocalhostDefaultDevSidecarName)
  else
    _ <-$ patch_workload c (json_text (annotation_patch OriginWorkloadDefinition originalSpecJson)) (go "merge");
    _ <-$ scale c (c_type (ctl c)) (c_name (ctl c));
    podSpec <-$ develop_pod sha1 c (pt_Spec podTemplate) (opt_Container ops) (opt_DevImage ops) (opt_StorageClass ops) false;
    let labels := pod_labels c podTemplate in
    _ <-$ (if Create (action c) then generate_deployment c ops podTemplate podSpec labels
           else patch_in_place c ops podTemplate podSpec);
    act_ret (delete (go "pod-template-hash") labels).

(** [readyChan]: the watcher hands over the pods of the labels one after another,
    and the wait ends with the first that is ready. *)
Fixpoint first_ready (events : list Pod) : option Pod :=
  match events with
  | [] => None
  | pod :: events => match findDevPodName [pod] with Ok _ => Some pod | Err _ => first_ready events end
  end.

(** *** Going back *)

Definition TrimQuote (s : gostring) : gostring :=
  let q := ascii_of_nat 34 in
  let fix strip (s : gostring) := match s with ch :: t => if bool_decide (ch = q) then strip t else s | [] => [] end in
  rev (strip (rev (strip s))).

Definition destroy_generated (c : DevController) (reset : bool) : act W unit :=
  ds <-$ list_deployments (getGeneratedDeploymentLabels c);
  match ds with
  | [d] => delete_deployment d
  | _ =>
      if reset then act_each (fun d => _ <-$ act_try (delete_deployment d); act_ret tt) ds
      else act_fail (ErrGenerated (length ds))
  end.

(** The kept manifest; older versions kept only the specification. *)
Definition kept_manifest (devModeWorkload : json) : res dev_error gostring :=
  match GetAnnotationFromUnstructured devModeWorkload OriginWorkloadDefinition with
  | Ok osj => Ok osj
  | Err _ =>
      osj2 <-! GetAnnotationFromUnstructured devModeWorkload OriginSpecJson;
      match sjson_SetRaw (json_text devModeWorkload) (go "spec") (TrimQuote osj2) with
      | Some osj => Ok osj
      | None => Err ErrJson
      end
  end.

Definition rollback_annotations (c : DevController) (a : gmap gostring gostring) : gmap gostring gostring :=
  <[NocalhostApplicationNamespace := c_ns (ctl c)]> (<[NocalhostApplicationName := c_app (ctl c)]>
    (<[go "nocalhost-dep-ignore" := go "true"]> a)).

Definition recreated (c : DevController) (um : json) : json :=
  SetAnnotations (rollback_annotations c (GetAnnotations um)) um.

Definition RollbackFromAnnotation (c : DevController) (reset : bool) : act W unit :=
  _ <-$ (if Create (action c) then destroy_generated c reset else act_ret tt);
  devModeWorkload <-$ GetUnstructured c;
  osj <-$ act_of (kept_manifest devModeWorkload);
  originalWorkload <-$ GetUnstructuredFromString osj;
  if Create (action c) then apply_info originalWorkload
  else
    _ <-$ delete_info originalWorkload;
    originalWorkload <-$ GetUnstructuredFromString osj;
    apply_info (recreated c originalWorkload).

(** ** Duplicate mode *)

(** The first five bytes of the identifier are sliced off. *)
Definition getDuplicateResourceName (c : DevController) (w : W) : outcome gostring :=
  if bool_decide (5 <= length (Identifier c))
  then Done (Join [c_name (ctl c); take 5 (Identifier c); short_uuid w] (go "-"))
  else Panic.

Definition duplicate_name (c : DevController) : act W gostring := fun w => act_of_outcome (getDuplicateResourceName c w) w.

(** The role, service account, role binding, deployment and service of the mesh. *)
Definition MeshManager : gostring := go "mesh-manager".
Definition MeshControlPlaneImage : gostring := go "nocalhost-docker.pkg.coding.net/nocalhost/public/nocalhost-control-plane:v1".

Definition str (s : string) : json := JStr (go s).

Definition mesh_meta (namespace : gostring) (rest : list (gostring * json)) : gostring * json :=
  (go "metadata", JObj ([(go "name", JStr MeshManager); (go "namespace", JStr namespace)] ++ rest)).

Definition mesh_labels : json := JObj [(go "app", str "mesh-manager")].

Definition mesh_role (namespace : gostring) : json :=
  JObj [mesh_meta namespace [];
        (go "rules", JArr [JObj [(go "verbs", JArr [str "list"; str "watch"; str "get"]); (go "apiGroups", JArr [JStr []]);
                                 (go "resources", JArr [str "pods"])]])].

Definition mesh_account (namespace : gostring) : json := JObj [mesh_meta namespace []].

Definition mesh_binding (namespace : gostring) : json :=
  JObj [mesh_meta namespace [];
        (go "subjects", JArr [JObj [(go "kind", str "ServiceAccount"); (go "name", JStr MeshManager); (go "namespace", JStr namespace)]]);
        (go "roleRef", JObj [(go "apiGroup", str "rbac.authorization.k8s.io"); (go "kind", str "Role"); (go "name", JStr MeshManager)])].

Definition mesh_container : json :=
  JObj [(go "name", str "control-plane"); (go "image", JStr MeshControlPlaneImage);
        (go "env", JArr [JObj [(go "name", str "NAMESPACE");
                               (go "valueFrom", JObj [(go "fieldRef", JObj [(go "fieldPath", str "metadata.namespace")])])]]);
        (go "imagePullPolicy", str "Always")].

Definition mesh_deployment (namespace : gostring) : json :=
  JObj [mesh_meta namespace [(go "labels", mesh_labels)];
        (go "spec", JObj [(go "replicas", JNum 1); (go "selector", JObj [(go "matchLabels", mesh_labels)]);
          (go "template", JObj [(go "metadata", JObj [(go "labels", mesh_labels); (go "annotations", mesh_labels)]);
            (go "spec", JObj [(go "containers", JArr [mesh_container]); (go "serviceAccountName", JStr MeshManager)])])])].

Definition mesh_service (namespace : gostring) : json :=
  JObj [mesh_meta namespace [];
        (go "spec", JObj [(go "ports", JArr [JObj [(go "protocol", str "TCP"); (go "port", JNum 18000); (go "targetPort", JNum 18000)]]);
          (go "selector", mesh_labels); (go "type", str "ClusterIP")])].

(** Each is created unless it exists: [mesh_create] answers whether it did, an
    error is any other.  Nothing is done when the deployment exists. *)
Definition createMeshManagerIfNotExist (namespace : gostring) : act W unit :=
  found <-$ mesh_manager_exists namespace;
  if found : bool then act_ret tt
  else act_each (fun '(resource, obj) => _ <-$ mesh_create resource obj; act_ret tt)
         [(go "roles", mesh_role namespace); (go "serviceaccounts", mesh_account namespace);
          (go "rolebindings", mesh_binding namespace); (go "deployments", mesh_deployment namespace);
          (go "services", mesh_service namespace)].

Definition path_items (path : gostring) : list gostring := filter (fun item => item <> []) (Split path slash).

Definition sjson_act (r : option gostring) : act W gostring := act_opt r.

Definition patchOriginWorkloads (um : json) (podTemplate : PodTemplateSpec) (path : gostring) : act W unit :=
  jsonStr <-$ sjson_act (sjson_SetRaw (json_text um) (Join (path_items path) (go ".")) (json_text (enc_template podTemplate)));
  info <-$ GetUnstructuredFromString jsonStr;
  apply_info info.

(** The mesh parts of a duplicate: the copy's template and, the first time, the
    original workload are changed. *)
Definition join_mesh (c : DevController) (ops : DevStartOptions) (umClone : json) (podTemplate podTemplateOrigin : PodTemplateSpec)
    : act W PodTemplateSpec :=
  if bool_decide (opt_MeshHeader ops = ∅) then act_ret podTemplate
  else
    _ <-$ createMeshManagerIfNotExist (c_ns (ctl c));
    let uuid := default [] (pt_Annotations podTemplate !! AnnotationMeshUuid) in
    let uuid := if nonempty uuid then uuid
                else match at_path [go "metadata"; go "uid"] umClone with Some (JStr u) => u | _ => [] end in
    podTemplate <-$ act_of_outcome (addAnnotationToDuplicate podTemplate uuid (opt_MeshHeader ops));
    let podTemplate := fst (AddEnvoySidecarForMesh podTemplate) in
    let '(podTemplateOrigin, found) := AddEnvoySidecarForMesh podTemplateOrigin in
    _ <-$ (if found : bool then act_ret tt
           else patchOriginWorkloads umClone (addAnnotationToMesh podTemplateOrigin uuid) (PodTemplatePath (action c)));
    act_ret podTemplate.

(** [SetName] and [SetLabels]. *)
Definition SetName (name : gostring) : json -> json :=
  if bool_decide (name = []) then remove_meta (go "name") else set_meta (go "name") (JStr name).
Definition SetLabels (m : gmap gostring gostring) : json -> json := set_meta (go "labels") (map_json m).

Definition object_name (u : json) : gostring :=
  match at_path [go "metadata"; go "name"] u with Some (JStr s) => s | _ => [] end.

(** [GroupVersionKind] of an object: the group is before the slash of the API
    version, if any. *)
Definition kind_of (u : json) : gostring :=
  let apiVersion := string_field (go "apiVersion") u in
  let '(group, version) := match Index apiVersion slash with
                           | Some i => (take i apiVersion, drop (S i) apiVersion)
                           | None => ([], apiVersion)
                           end in
  string_field (go "kind") u ++ (if nonempty version then go "." ++ version else [])
    ++ (if nonempty group then go "." ++ group else []).

(** The copy of the workload: its selector and template are replaced. *)
Definition copy_text (c : DevController) (um : json) (podTemplate : PodTemplateSpec) : option gostring :=
  let pis := path_items (PodTemplatePath (action c)) in
  let lm := JObj [(go "matchLabels", map_json (getDuplicateLabelsMap c))] in
  t ← sjson_SetRaw (json_text um) (Join (removelast pis) (go ".") ++ go "." ++ go "selector") (json_text lm);
  t ← sjson_Delete t (go "status");
  sjson_SetRaw t (Join pis (go ".")) (json_text (enc_template podTemplate)).

Definition duplicate_copy (c : DevController) (ops : DevStartOptions) (um umClone : json) : act W (gmap gostring gostring) :=
  name <-$ duplicate_name c;
  let um := remove_meta (go "resourceVersion") (SetLabels (getDuplicateLabelsMap c) (SetName name um)) in
  podTemplate <-$ pod_template c um;
  podTemplateOrigin <-$ pod_template c umClone;
  let annotations := getDevContainerAnnotations c (opt_Container ops) (pt_Annotations podTemplate) in
  podSpec <-$ develop_pod sha1 c (pt_Spec podTemplate) (opt_Container ops) (opt_DevImage ops) (opt_StorageClass ops) true;
  podTemplate <-$ join_mesh c ops umClone
                    (mkTemplate (getDuplicateLabelsMap c) annotations podSpec (pt_rest podTemplate)) podTemplateOrigin;
  jsonStr <-$ sjson_act (copy_text c um podTemplate);
  info <-$ GetUnstructuredFromString jsonStr;
  _ <-$ apply_info info;
  _ <-$ scale c (kind_of info) (object_name info);
  _ <-$ patchAfterDevContainerReplaced c (opt_Container ops) (kind_of info) (object_name info);
  act_ret (delete (go "pod-template-hash") (pt_Labels podTemplate)).

(** The generated deployment carries no kind, which the patches after it ask for. *)
Definition duplicate_deployment (c : DevController) (ops : DevStartOptions) (um : json) : act W (gmap gostring gostring) :=
  podTemplate <-$ pod_template c um;
  let annotations := getDevContainerAnnotations c (opt_Container ops) (pt_Annotations podTemplate) in
  name <-$ duplicate_name c;
  podSpec <-$ develop_pod sha1 c (with_node (pt_Spec podTemplate) []) (opt_Container ops) (opt_DevImage ops)
                (opt_StorageClass ops) true;
  let labels := getDuplicateLabelsMap c in
  let template := mkTemplate labels annotations (with_policy podSpec RestartPolicyAlways) (pt_rest podTemplate) in
  _ <-$ create_deployment_wait (mkGen name labels labels template false);
  _ <-$ patchAfterDevContainerReplaced c (opt_Container ops) [] name;
  act_ret (delete (go "pod-template-hash") labels).

(** [inReplace] is [IsInReplaceDevMode].  The object is copied before the error of
    its read is looked at: a nil one is dereferenced. *)
Definition ReplaceDuplicateModeImage (c : DevController) (inReplace : bool) (ops : DevStartOptions)
    : act W (gmap gostring gostring) :=
  r <-$ act_try (GetUnstructured c);
  match r with
  | Err _ => act_panic
  | Ok umClone =>
      um <-$ (if inReplace then
                od <-$ act_of (GetAnnotationFromUnstructured umClone OriginWorkloadDefinition);
                GetUnstructuredFromString od
              else act_ret umClone);
      let um := RemoveUselessInfo um in
      if Create (action c) then duplicate_deployment c ops um else duplicate_copy c ops um umClone
  end.

Definition DuplicateModeRollBack (c : DevController) : act W unit :=
  let t := if Create (action c) then go "deployment" else c_type (ctl c) in
  infos <-$ list_infos (getDuplicateLabelsMap c) t;
  match infos with
  | [info] => delete_info info
  | _ => act_fail (ErrInfos (length infos))
  end.

(** ** Bare pods *)

Definition pod_with (p : PodObject) (annotations : gmap gostring gostring) (spec : PodSpec) : PodObject :=
  mkPodObject (po_Name p) (po_Kind p) (po_Labels p) annotations (po_ResourceVersion p) (po_Owners p) spec (po_Status p) (po_rest p).

(** Without its status and version. *)
Definition bare (p : PodObject) : PodObject :=
  mkPodObject (po_Name p) (po_Kind p) (po_Labels p) (po_Annotations p) [] (po_Owners p) (po_Spec p) [] (po_rest p).

Definition RawPod_ReplaceImage (c : DevController) (ops : DevStartOptions) : act W unit :=
  originalPod <-$ get_pod (c_name (ctl c));
  if bool_decide (po_Owners originalPod = []) then
    let originalPod := bare originalPod in
    let annotations := <[NocalhostDevContainerAnnotations := GetDevContainerName c (opt_Container ops)]>
                         (<[OriginWorkloadDefinition := marshal_pod originalPod]> (po_Annotations originalPod)) in
    podSpec <-$ develop_pod sha1 c (po_Spec originalPod) (opt_Container ops) (opt_DevImage ops) (opt_StorageClass ops) false;
    _ <-$ delete_pod (c_name (ctl c));
    _ <-$ create_pod (pod_with originalPod annotations podSpec);
    patchAfterDevContainerReplaced c (opt_Container ops) (po_Kind originalPod) (po_Name originalPod)
  else act_fail (ErrManaged (c_name (ctl c))).

Definition RawPod_RollBack (c : DevController) (reset : bool) : act W unit :=
  originPod <-$ get_pod (c_name (ctl c));
  match po_Annotations originPod !! OriginWorkloadDefinition with
  | None => if reset then act_ret tt else act_fail (ErrNoAnnotation OriginWorkloadDefinition)
  | Some podSpec =>
      originPod <-$ act_opt (unmarshal_pod podSpec zero_pod);
      _ <-$ delete_pod (c_name (ctl c));
      create_pod originPod
  end.

(** In replace mode the kept manifest is decoded into the live pod; otherwise
    into a fresh one, when it is there and can be. *)
Definition kept_pod (inReplace : bool) (originalPod : PodObject) : res dev_error PodObject :=
  if inReplace then
    match po_Annotations originalPod !! OriginWorkloadDefinition with
    | None => Err (ErrNoAnnotation OriginWorkloadDefinition)
    | Some podSpec => match unmarshal_pod podSpec originalPod with Some p => Ok p | None => Err ErrJson end
    end
  else
    Ok match po_Annotations originalPod !! OriginWorkloadDefinition with
       | None => originalPod
       | Some podSpec => default originalPod (unmarshal_pod podSpec zero_pod)
       end.

Definition DuplicateRawPod_ReplaceImage (c : DevController) (inReplace : bool) (ops : DevStartOptions) : act W unit :=
  originalPod <-$ get_pod (c_name (ctl c));
  if bool_decide (po_Owners originalPod = []) then
    originalPod <-$ act_of (kept_pod inReplace originalPod);
    name <-$ duplicate_name c;
    podSpec <-$ develop_pod sha1 c (po_Spec originalPod) (opt_Container ops) (opt_DevImage ops) (opt_StorageClass ops) true;
    let pod := mkPodObject name (po_Kind originalPod) (getDuplicateLabelsMap c)
                 (getDevContainerAnnotations c (opt_Container ops) (po_Annotations originalPod)) [] (po_Owners originalPod)
                 podSpec [] (po_rest originalPod) in
    _ <-$ create_pod pod;
    patchAfterDevContainerReplaced c (opt_Container ops) (po_Kind pod) (po_Name pod)
  else act_fail (ErrManaged (c_name (ctl c))).

(** ** Pods of a workload *)

Definition ListPodOfGeneratedDeployment (c : DevController) : act W (list Pod) :=
  ds <-$ list_deployments (getGeneratedDeploymentLabels c);
  match ds with
  | [d] => pods_of_deployment d
  | _ => act_fail (ErrGenerated (length ds))
  end.

Definition GetPodList (c : DevController) (inReplace : bool) : act W (list Pod) :=
  if IsDuplicateDevMode (ctl_DevModeType c) then list_pods (getDuplicateLabelsMap c)
  else if bool_decide (c_type (ctl c) = PodType) then
    pod <-$ get_pod (c_name (ctl c)); act_ret [pod_view pod]
  else if inReplace && Create (action c) then ListPodOfGeneratedDeployment c
  else pt <-$ GetPodTemplate c; list_pods (delete (go "pod-template-hash") (pt_Labels pt)).

Definition GetDevModePodName (c : DevController) (inReplace : bool) : act W gostring :=
  pods <-$ GetPodList c inReplace; act_of (findDevPodName pods).

Definition DuplicateRawPod_RollBack (c : DevController) (inReplace reset : bool) : act W unit :=
  deploys <-$ GetPodList c inReplace;
  match deploys with
  | [] => if reset then act_ret tt else act_fail (ErrInfos 0)
  | [pod] => delete_pod (pod_Name pod)
  | pod :: _ => if reset then delete_pod (pod_Name pod) else act_fail (ErrInfos (length deploys))
  end.

(** ** Choosing the controller *)

Inductive pod_controller := DuplicateRawPodController | RawPodController | DefaultController.

Definition BuildPodController (c : DevController) : pod_controller :=
  if bool_decide (c_type (ctl c) = PodType) then
    if IsDuplicateDevMode (ctl_DevModeType c) then DuplicateRawPodController else RawPodController
  else DefaultController.

(** The labels of the pod to wait for: those the controller had, for a bare pod. *)
Definition ReplaceImage (c : DevController) (inReplace : bool) (ops : DevStartOptions)
    : act W (option (gmap gostring gostring)) :=
  match BuildPodController c with
  | DuplicateRawPodController => _ <-$ DuplicateRawPod_ReplaceImage c inReplace ops; act_ret None
  | RawPodController => _ <-$ RawPod_ReplaceImage c ops; act_ret None
  | DefaultController =>
      labels <-$ (if IsDuplicateDevMode (ctl_DevModeType c) then ReplaceDuplicateModeImage c inReplace ops
                  else PatchDevModeManifest c ops);
      act_ret (Some labels)
  end.

Definition RollBack (c : DevController) (inReplace reset : bool) : act W unit :=
  match BuildPodController c with
  | DuplicateRawPodController => DuplicateRawPod_RollBack c inReplace reset
  | RawPodController => RawPod_RollBack c reset
  | DefaultController =>
      if IsDuplicateDevMode (ctl_DevModeType c) then DuplicateModeRollBack c else RollbackFromAnnotation c reset
  end.

(** ** Leaving dev mode ([dev_end.go])

    [stop] is what stopping synchronisation and port forwards answered, with
    whether its error is that of a missing file; [leave] records the end in the
    application's meta.  Errors of both last steps are logged. *)
Definition DevEnd (c : DevController) (inReplace reset : bool) (stop : act W (option bool)) (leave : act W unit)
    : act W unit :=
  r <-$ stop;
  match r with
  | Some notExist =>
      if negb reset && negb notExist then act_fail (ErrApi (go "stop"))
      else _ <-$ act_try (RollBack c inReplace reset); _ <-$ act_try leave; act_ret tt
  | None => _ <-$ act_try (RollBack c inReplace reset); _ <-$ act_try leave; act_ret tt
  end.

(** ** Autoscalers ([hpa.go]) *)

Record HPA := mkHPA {
  hpa_Name : gostring;
  ref_APIVersion : gostring;
  ref_Kind : gostring;
  ref_Name : gostring
}.

Definition ListHPA (c : DevController) (hpaList : act W (list HPA)) : act W (list HPA) :=
  '(kind, apiVersion) <-$ GetTypeMeta c;
  l <-$ hpaList;
  act_ret (filter (fun h => ref_APIVersion h = apiVersion /\ ref_Kind h = kind /\ ref_Name h = c_name (ctl c)) l).
End workload.
