(* ===== verification/DevWorkloadThms.v ===== *)
(** * Theorems about workloads in dev mode

    Entering dev mode keeps the manifest and leaving it restores the workload;
    counting dev modes; duplicates and bare pods; the errors that leave a workload
    half way. *)

From stdpp Require Import sorting.
From S2P Require Import Prelude GoStrings FilePath DevDir AppMeta Search Profile PortForward Config ConfigLoad DepWatchers Webhook DevPod DevPodThms DevWorkload.
#[local] Open Scope go_scope.

(** ** Steps that keep an invariant *)

Definition keeps {W A : Type} (I : W -> Prop) (a : act W A) : Prop := forall w w' r, I w -> a w = Done (w', r) -> I w'.

Create HintDb keeps.

Section keeps.
Context {W : Type} (I : W -> Prop).

Lemma act_keeps_ret {A : Type} (a : A) : keeps I (act_ret a).
Proof. intros w w' r Hw [= <- _]. done. Qed.

Lemma act_keeps_fail {A : Type} e : keeps I (act_fail (A := A) e).
Proof. intros w w' r Hw [= <- _]. done. Qed.

Lemma keeps_panic {A : Type} : keeps I (act_panic (A := A)).
Proof. intros w w' r Hw [=]. Qed.

Lemma act_keeps_bind {A B : Type} (c : act W A) (k : A -> act W B) :
  keeps I c -> (forall a, keeps I (k a)) -> keeps I (act_bind c k).
Proof.
  intros Hc Hk w w' r Hw Hrun. unfold act_bind in Hrun. destruct (c w) as [[w1 [a|e]]| |] eqn:E; [|by simplify_eq; eauto|done|done].
  eapply Hk; [|exact Hrun]. eauto.
Qed.

Lemma keeps_try {A : Type} (c : act W A) : keeps I c -> keeps I (act_try c).
Proof. intros Hc w w' r Hw Hrun. unfold act_try in Hrun. go_cases; eauto. Qed.

Lemma keeps_of {A : Type} (r : res dev_error A) : keeps I (act_of r).
Proof. destruct r; [apply act_keeps_ret|apply act_keeps_fail]. Qed.

Lemma keeps_outcome {A : Type} (r : outcome A) : keeps I (act_of_outcome r).
Proof. destruct r; [apply act_keeps_ret|apply keeps_panic|]. intros w w' x Hw [=]. Qed.

Lemma keeps_each {A : Type} (f : A -> act W unit) l : (forall x, x ∈ l -> keeps I (f x)) -> keeps I (act_each f l).
Proof.
  induction l as [|x l IH]; intros Hf; cbn; [apply act_keeps_ret|].
  apply act_keeps_bind; [apply Hf; set_solver|]. intros _. apply IH. set_solver.
Qed.

Lemma keeps_here {A : Type} (f : W -> act W A) : (forall w, keeps I (f w)) -> keeps I (fun w => f w w).
Proof. intros Hf w w' r Hw Hrun. by eapply Hf. Qed.
End keeps.

(** Take an action apart and use the database on its steps. *)
Ltac keeps_auto :=
  lazymatch goal with
  | |- forall _, _ => intros; keeps_auto
  | |- keeps _ (act_ret _) => apply act_keeps_ret
  | |- keeps _ (act_fail _) => apply act_keeps_fail
  | |- keeps _ act_panic => apply keeps_panic
  | |- keeps _ (act_of _) => apply keeps_of
  | |- keeps _ (act_of_outcome _) => apply keeps_outcome
  | |- keeps _ (act_try _) => apply keeps_try; keeps_auto
  | |- keeps _ (act_each _ _) => apply keeps_each; keeps_auto
  | |- keeps _ (act_bind _ _) => apply act_keeps_bind; keeps_auto
  | |- keeps _ (match ?x with _ => _ end) => destruct x; keeps_auto
  | |- keeps _ (let _ := _ in _) => cbv zeta; keeps_auto
  | |- _ => auto with keeps
  end.

Lemma act_bind_ok {W A B : Type} (a : act W A) (k : A -> act W B) w w1 x :
  a w = Done (w1, Ok x) -> act_bind a k w = k x w1.
Proof. unfold act_bind. by intros ->. Qed.

(** Claims do not touch what [I] is about. *)
Class ClaimsKeep {W : Type} `{!Quantities} `{!ClaimApi W} (I : W -> Prop) := {
  keep_list : forall ls, keeps I (list_claims ls);
  keep_create : forall cl, keeps I (create_claim cl);
  keep_get : forall n, keeps I (get_claim n);
  keep_delete : forall n, keeps I (delete_claim n);
  keep_events : forall cl, keeps I (claim_events cl)
}.
#[export] Hint Resolve keep_list keep_create keep_get keep_delete keep_events : keeps.

Section develop_keeps.
Context `{Q : !Quantities} `{MO : !MapOrder gostring} {W : Type} `{CA : !ClaimApi W} (sha1 : gostring -> gostring).
Context (I : W -> Prop) `{CK : !ClaimsKeep I}.

Lemma keeps_wait rounds path pvc : keeps I (wait_bound rounds path pvc).
Proof. revert pvc. induction rounds as [|rounds IH]; intros pvc; cbn [wait_bound]; keeps_auto. Qed.

Lemma keeps_create_claim c v labels class : keeps I (createPvcForPersistentVolumeDir c v labels class).
Proof.
  unfold createPvcForPersistentVolumeDir, CreatePVC. apply (keeps_here I (fun w => _)). intros w.
  pose proof (keeps_wait claim_rounds (pvd_Path v)). keeps_auto.
Qed.

Lemma keeps_mount_dirs c container class dup l : forall index s, keeps I (mount_dirs sha1 c container class dup index l s).
Proof.
  pose proof keeps_create_claim. induction l as [|v l IH]; intros index s; cbn [mount_dirs]; [keeps_auto|].
  unfold dir_claim. keeps_auto.
Qed.

Lemma keeps_develop c p containerName devImage class dup : keeps I (develop_pod sha1 c p containerName devImage class dup).
Proof.
  unfold develop_pod, genContainersAndVolumes, genWorkDirAndPVAndMounts.
  pose proof (keeps_mount_dirs c containerName class dup (GetPersistentVolumeDirs c containerName)). keeps_auto.
Qed.
End develop_keeps.
#[export] Hint Resolve keeps_develop : keeps.

(** ** What the API server promises *)

(** [object] observes the object stored under a type and a name; [effect] is what
    a patch of a type makes of an object; [admitted] what is stored for a new
    object.  An object's type is told by its version and kind. *)
Section laws.
Context `{!Quantities} `{!PodJson} `{!JsonText} {W : Type} `{!WorkloadApi W}.
Context (kind_for : gostring -> gostring * gostring) (object : W -> gostring -> gostring -> option json).
Context (effect : gostring -> gostring -> json -> option json) (admitted : json -> json).

Definition is_kind (ty name : gostring) (j : json) : Prop :=
  (string_field (go "apiVersion") j, string_field (go "kind") j) = kind_for ty /\ object_name j = name.

(** Both are the same object: no patch changes that. *)
Definition same_id (j j' : json) : Prop :=
  string_field (go "apiVersion") j' = string_field (go "apiVersion") j /\
  string_field (go "kind") j' = string_field (go "kind") j /\ object_name j' = object_name j.

Class WorkloadLaws := {
  object_kind : forall w ty n j, object w ty n = Some j -> is_kind ty n j;
  get_object_law : forall w ty n j, object w ty n = Some j -> get_object ty n w = Done (w, Ok j);
  patch_law : forall w ty n content pt j, object w ty n = Some j ->
    match effect pt content j with
    | Some j' => exists w', patch_object ty n content pt w = Done (w', Ok tt) /\ object w' ty n = Some j'
    | None => exists e, patch_object ty n content pt w = Done (w, Err e)
    end;
  merge_law : forall p j, same_id j (merge p j) -> effect (go "merge") (json_text p) j = Some (merge p j);
  replace_law : forall path v j, is_Some (at_path (tokens path) j) -> same_id j (put_path (tokens path) v j) ->
    effect (go "json") (json_text (jsonPatch (go "replace") path v)) j = Some (put_path (tokens path) v j);
  (** a missing target is an error, or is added by a lenient server *)
  replace_missing_law : forall path v j, at_path (tokens path) j = None ->
    effect (go "json") (json_text (jsonPatch (go "replace") path v)) j = None \/
    effect (go "json") (json_text (jsonPatch (go "replace") path v)) j = add_at (tokens path) v j;
  add_law : forall path v j,
    match add_at (tokens path) v j with
    | Some j' => same_id j j' -> effect (go "json") (json_text (jsonPatch (go "add") path v)) j = Some j'
    | None => effect (go "json") (json_text (jsonPatch (go "add") path v)) j = None
    end;
  stream_law : forall ty n j w, is_kind ty n j -> stream_infos (json_text j) w = Done (w, Ok [j]);
  (** deleting and applying may be refused *)
  delete_law : forall ty n j w, is_kind ty n j ->
    exists w' r, delete_info j w = Done (w', r) /\ (r = Ok tt -> object w' ty n = None);
  apply_law : forall ty n j w, is_kind ty n j -> object w ty n = None ->
    exists w' r, apply_info j w = Done (w', r) /\ (r = Ok tt -> object w' ty n = Some (admitted j))
}.
End laws.

(** ** Objects *)

Definition metadata : list gostring := [go "metadata"].

(** The annotations of the object say [k = v]; they are strings. *)
Definition annotated (k v : gostring) (j : json) : Prop :=
  exists a m, at_path [go "metadata"; go "annotations"] j = Some a /\ string_map a = Some m /\ m !! k = Some v.

Lemma annotated_read k v j : annotated k v j -> GetAnnotationFromUnstructured j k = Ok v.
Proof.
  intros (a & m & Ha & Hm & Hk). unfold GetAnnotationFromUnstructured, GetAnnotations.
  by rewrite Ha; simpl; rewrite Hm; simpl; rewrite Hk.
Qed.

Lemma annotated_meta k v j j' : at_path metadata j' = at_path metadata j -> annotated k v j -> annotated k v j'.
Proof.
  intros Heq (a & m & Ha & Hm). exists a, m. split; [|done]. cbn in Heq, Ha |- *.
  destruct (child (go "metadata") j) as [c|], (child (go "metadata") j') as [c'|]; simplify_eq/=; done.
Qed.

(** Writing at a path that does not start at the metadata leaves it alone. *)
Lemma put_keeps_meta p v j : head p <> Some (go "metadata") -> p <> [] -> at_path metadata (put_path p v j) = at_path metadata j.
Proof. destruct p as [|t p]; [done|]. intros Hh _. apply at_put_ne. intros ->. by apply Hh. Qed.

Lemma add_child_ne t v j j' t' : t <> t' -> array_index t' = None -> add_child t v j = Some j' -> child t' j' = child t' j.
Proof.
  intros Hne Hidx Hadd. destruct j as [| | | |l|fs]; cbn in Hadd; try done.
  - assert (exists l', j' = JArr l') as [l' ->]; [|by cbn; rewrite Hidx].
    case_bool_decide; [by simplify_eq; eauto|]. destruct (array_index t); [|done]. cbn in Hadd. go_cases; eauto.
  - simplify_eq. cbn. by apply member_set_ne.
Qed.

Lemma add_keeps_meta p v j j' :
  head p <> Some (go "metadata") -> p <> [] -> add_at p v j = Some j' -> at_path metadata j' = at_path metadata j.
Proof.
  destruct p as [|t p]; [done|]. intros Hh _ Hadd.
  assert (t <> go "metadata") as Hne by (intros ->; by apply Hh).
  assert (child (go "metadata") j' = child (go "metadata") j) as Hc; [|cbn; by rewrite Hc].
  destruct p as [|t' p].
  - eapply add_child_ne; [exact Hne|reflexivity|exact Hadd].
  - rewrite add_at_cons in Hadd by done. destruct (child t j) as [c|]; [|done]. cbn [mbind option_bind] in Hadd.
    destruct (add_at (t' :: p) v c) as [c'|]; [|done]. injection Hadd as <-. by apply child_set_ne.
Qed.

(** The members that say which object it is. *)
Definition id_fields : list gostring := [go "metadata"; go "apiVersion"; go "kind"].

Lemma string_field_at k j : array_index k = None ->
  string_field k j = match at_path [k] j with Some (JStr s) => s | _ => [] end.
Proof. intros Hk. destruct j as [| | | |l|fs]; cbn; try done; [by rewrite Hk|by destruct (member k fs)]. Qed.

Lemma object_name_at j : object_name j =
  match at_path metadata j ≫= at_path [go "name"] with Some (JStr s) => s | _ => [] end.
Proof. unfold object_name, metadata. cbn [at_path]. by destruct (child (go "metadata") j). Qed.

Lemma same_id_at j j' : (forall t, t ∈ id_fields -> at_path [t] j' = at_path [t] j) -> same_id j j'.
Proof.
  intros Hat. split_and!.
  - rewrite !string_field_at by reflexivity. by rewrite Hat by set_solver.
  - rewrite !string_field_at by reflexivity. by rewrite Hat by set_solver.
  - rewrite !object_name_at. unfold metadata. by rewrite Hat by set_solver.
Qed.

Lemma put_same_id p v j : p <> [] -> (forall t, head p = Some t -> t ∉ id_fields) -> same_id j (put_path p v j).
Proof.
  destruct p as [|t p]; [done|]. intros _ Hh. apply same_id_at. intros t' Ht'. apply at_put_ne.
  intros ->. by apply (Hh t' eq_refl).
Qed.

(** Writing below the annotations keeps the object. *)
Lemma annotations_same_id v j : is_Some (at_path [go "metadata"; go "annotations"] j) ->
  same_id j (put_path [go "metadata"; go "annotations"] v j).
Proof.
  intros [a Ha]. split_and!.
  - rewrite !string_field_at by reflexivity. by rewrite at_put_ne by (vm_compute; discriminate).
  - rewrite !string_field_at by reflexivity. by rewrite at_put_ne by (vm_compute; discriminate).
  - unfold object_name. cbn in Ha |- *. destruct (child (go "metadata") j) as [m|] eqn:Em; [|done]. cbn in Ha.
    destruct (child (go "annotations") m) as [a'|]; [|done]. rewrite child_set_eq by (by exists m). cbn.
    by rewrite child_set_ne by (vm_compute; discriminate).
Qed.

(** *** String maps *)

Definition strings (fs : list (gostring * json)) : Prop := NoDup fs.*1 /\ Forall (fun kv => exists s, kv.2 = JStr s) fs.

Lemma string_map_fold fs : forall m0 : gmap gostring gostring, Forall (fun kv => exists s, kv.2 = JStr s) fs -> NoDup fs.*1 ->
  exists m : gmap gostring gostring, foldl (fun m '(k, v) => m ← m; match v with JStr s => Some (<[k := s]> m) | _ => None end) (Some m0) fs = Some m /\
    forall k, m !! k = match member k fs with Some (JStr s) => Some s | _ => m0 !! k end.
Proof.
  induction fs as [|[k v] fs IH]; intros m0 Hs Hnd; [by exists m0|].
  apply Forall_cons in Hs as [[s Hv] Hs]. simpl in Hv. subst v. apply NoDup_cons in Hnd as [Hk Hnd]. cbn.
  destruct (IH (<[k := s]> m0) Hs Hnd) as (m & Hm & Hl). exists m. split; [exact Hm|]. intros k'. rewrite Hl.
  case_bool_decide as Hkk.
  - subst k'. assert (member k fs = None) as ->; [|by rewrite lookup_insert_eq].
    clear - Hk. induction fs as [|[k1 v1] fs IH]; [done|]. simpl in Hk. cbn.
    rewrite bool_decide_eq_false_2 by set_solver. apply IH. set_solver.
  - destruct (member k' fs) as [[]|]; try done; by rewrite lookup_insert_ne.
Qed.

Lemma string_map_strings fs : strings fs ->
  exists m, string_map (JObj fs) = Some m /\ forall k, m !! k = match member k fs with Some (JStr s) => Some s | _ => None end.
Proof.
  intros [Hnd Hs]. destruct (string_map_fold fs ∅ Hs Hnd) as (m & Hm & Hl). exists m. split; [exact Hm|].
  intros k. rewrite Hl. by rewrite lookup_empty.
Qed.

Lemma set_member_strings k s fs : strings fs -> strings (set_member k (JStr s) fs).
Proof.
  assert (forall fs, forall x, x ∈ (set_member k (JStr s) fs).*1 -> x = k \/ x ∈ fs.*1) as Hin.
  { intros fs'. induction fs' as [|[k1 v1] fs' IH]; cbn; [set_solver|]. intros x. case_bool_decide; set_solver. }
  intros [Hnd Hs]. split.
  - induction fs as [|[k1 v1] fs IH]; cbn; [apply NoDup_singleton|]. apply NoDup_cons in Hnd as [Hk Hnd].
    apply Forall_cons in Hs as [_ Hs]. case_bool_decide as E.
    + subst k1. cbn. by apply NoDup_cons.
    + cbn. apply NoDup_cons. split; [|by apply IH]. intros [Hx|Hx]%Hin; [done|done].
  - induction Hs as [|[k1 v1] fs Hv Hs IH]; cbn; [by constructor; [eexists|constructor]|].
    apply NoDup_cons in Hnd as [_ Hnd]. case_bool_decide; constructor; eauto.
Qed.

(** An object whose annotations, if it has any, are strings. *)
Definition plain_object (j : json) : Prop :=
  exists fs ms, j = JObj fs /\ member (go "metadata") fs = Some (JObj ms) /\
    (member (go "annotations") ms = None \/ exists a, member (go "annotations") ms = Some (JObj a) /\ strings a).

Lemma merge_same_id k v j : plain_object j -> same_id j (merge (annotation_patch k v) j).
Proof.
  intros (fs & ms & -> & Hm & _). split_and!.
  - cbn -[go]. by rewrite member_set_ne by (vm_compute; discriminate).
  - cbn -[go]. by rewrite member_set_ne by (vm_compute; discriminate).
  - unfold object_name. cbn -[go]. rewrite Hm, member_set_eq. cbn -[go]. by rewrite member_set_ne by (vm_compute; discriminate).
Qed.

Lemma merge_annotated k v j : plain_object j -> annotated k v (merge (annotation_patch k v) j).
Proof.
  intros (fs & ms & -> & Hm & Ha). unfold annotated. cbn -[go]. rewrite Hm. cbn -[go]. rewrite member_set_eq. cbn -[go].
  rewrite member_set_eq. cbn -[go].
  set (a := match member (go "annotations") ms with Some (JObj a) => a | _ => [] end).
  assert (strings a) as Hs.
  { unfold a. destruct Ha as [-> |(a' & -> & Hs)]; [split; constructor|done]. }
  destruct (string_map_strings _ (set_member_strings k v a Hs)) as (m & Hm' & Hl).
  eexists _, m. split; [done|]. split.
  - rewrite <- Hm'. f_equal. f_equal. unfold a. by destruct Ha as [-> |(a' & -> & _)].
  - by rewrite Hl, member_set_eq.
Qed.

(** *** Cleaning keeps the identity of an object *)

Lemma member_remove_ne k k' fs : k <> k' -> member k' (remove_member k fs) = member k' fs.
Proof.
  intros Hne. unfold remove_member. induction fs as [|[k1 v1] fs IH]; [done|]. rewrite filter_cons. cbn [fst].
  case_decide as E; cbn; [by rewrite IH|]. assert (k1 = k) as -> by (by destruct (decide (k1 = k))).
  by rewrite bool_decide_eq_false_2.
Qed.

Lemma on_meta_field k f create j : k <> go "metadata" -> string_field k (on_meta f create j) = string_field k j.
Proof.
  intros Hne. destruct j as [| | | | |fs]; try done. cbn -[go]. destruct (member (go "metadata") fs) as [[]|]; try done.
  - cbn -[go]. by rewrite member_set_ne.
  - destruct create; [|done]. cbn -[go]. by rewrite member_set_ne.
Qed.

Lemma on_meta_name f create j :
  (forall ms, member (go "name") (f ms) = member (go "name") ms) -> object_name (on_meta f create j) = object_name j.
Proof.
  intros Hf. unfold object_name. destruct j as [| | | | |fs]; try done. cbn -[go].
  destruct (member (go "metadata") fs) as [[]|] eqn:Hm; cbn -[go]; rewrite ?Hm; try done.
  - rewrite member_set_eq. cbn -[go]. by rewrite Hf.
  - destruct create; cbn -[go]; [|by rewrite Hm]. rewrite member_set_eq. cbn -[go]. by rewrite Hf.
Qed.

Section identity.
Context (kind_for : gostring -> gostring * gostring).

Lemma on_meta_kind f create ty n j :
  (forall ms, member (go "name") (f ms) = member (go "name") ms) ->
  is_kind kind_for ty n j -> is_kind kind_for ty n (on_meta f create j).
Proof.
  intros Hf [Hk Hn]. split; [|by rewrite on_meta_name].
  by rewrite !on_meta_field by (vm_compute; discriminate).
Qed.

Lemma remove_meta_kind k ty n j : k <> go "name" -> is_kind kind_for ty n j -> is_kind kind_for ty n (remove_meta k j).
Proof. intros Hne. apply on_meta_kind. intros ms. by apply member_remove_ne. Qed.

Lemma set_meta_kind k v ty n j : k <> go "name" -> is_kind kind_for ty n j -> is_kind kind_for ty n (set_meta k v j).
Proof. intros Hne. apply on_meta_kind. intros ms. by apply member_set_ne. Qed.

Lemma clean_kind ty n j : is_kind kind_for ty n j -> is_kind kind_for ty n (RemoveUselessInfo j).
Proof.
  intros Hj. unfold RemoveUselessInfo.
  assert (is_kind kind_for ty n match j with JObj fs => JObj (remove_member (go "status") fs) | _ => j end) as H0.
  { destruct j as [| | | | |fs]; try done. destruct Hj as [Hk Hn]. split.
    - unfold string_field in *. by rewrite !member_remove_ne by (vm_compute; discriminate).
    - unfold object_name in *. cbn -[go] in *. by rewrite !member_remove_ne by (vm_compute; discriminate). }
  case_bool_decide; [|unfold SetAnnotations; apply set_meta_kind; [vm_compute; discriminate|]];
    do 3 (apply remove_meta_kind; [vm_compute; discriminate|]);
    do 3 (apply remove_meta_kind; [vm_compute; discriminate|]); exact H0.
Qed.

Lemma recreated_kind c ty n j : is_kind kind_for ty n j -> is_kind kind_for ty n (recreated c j).
Proof. intros Hj. apply set_meta_kind; [vm_compute; discriminate|done]. Qed.
End identity.

Lemma ptr_snoc toks t : ptr toks ++ go "/" ++ t = ptr (toks ++ [t]).
Proof.
  unfold ptr. change slash with (go "/"). generalize (@nil ascii) as x. induction toks as [|t' toks IH]; intros x; [done|].
  rewrite Join_cons by done. rewrite <- !app_assoc. cbn [app].
  rewrite (Join_cons x (t' :: toks ++ [t])) by (by destruct toks). by rewrite IH.
Qed.

(** ** Numbers *)

Lemma digit_val_nonneg ch d : digit_val ch = Some d -> (0 <= d)%Z.
Proof. unfold digit_val. intros H. go_cases. lia. Qed.

Lemma undigits_ge s : forall acc n, (0 <= acc)%Z -> undigits acc s = Some n -> (acc <= n)%Z.
Proof.
  induction s as [|ch s IH]; intros acc n Hacc H; cbn in H; [simplify_eq; lia|].
  destruct (digit_val ch) as [d|] eqn:E; [|done]. apply digit_val_nonneg in E. apply IH in H; lia.
Qed.

Lemma scan_undigits s : forall acc n, (0 <= acc)%Z -> undigits acc s = Some n -> (n <= uint64_max)%Z -> scan_uint acc s = n.
Proof.
  induction s as [|ch s IH]; intros acc n Hacc H Hn; cbn [undigits scan_uint] in *; [by simplify_eq|].
  destruct (digit_val ch) as [d|] eqn:E; [|done]. apply digit_val_nonneg in E.
  pose proof (undigits_ge s (10 * acc + d) n ltac:(lia) H). destruct (Z.ltb_spec uint64_max (10 * acc + d)); [lia|].
  by apply IH; [lia|..].
Qed.

(** Without an error the value is the number. *)
Lemma Atoi_value_ok s v : Atoi s = Some v -> Atoi_value s = v.
Proof.
  unfold Atoi, Atoi_value. match goal with |- context [match ?e with pair _ _ => _ end] => destruct e as [neg ds] end. intros H.
  destruct ds as [|ch ds]; [done|]. destruct (undigits 0 (ch :: ds)) as [n|] eqn:E; [|done].
  pose proof (undigits_ge _ 0 n ltac:(lia) E).
  assert (in_int64 v = true /\ v = if neg then (- n)%Z else n) as [Hv ->] by (destruct (in_int64 _) eqn:Hi; simplify_eq; done).
  unfold in_int64, int64_min, int64_max in *. apply andb_prop in Hv as [H1%Z.leb_le H2%Z.leb_le].
  rewrite (scan_undigits _ 0 n) by (done || unfold uint64_max; destruct neg; lia). destruct neg; lia.
Qed.

(** ** Replace mode *)

Section replace.
Context `{Q : !Quantities} `{MO : !MapOrder gostring} `{PJ : !PodJson} `{JT : !JsonText}.
Context {W : Type} `{CA : !ClaimApi W} `{WA : !WorkloadApi W} (sha1 : gostring -> gostring).
Context (kind_for : gostring -> gostring * gostring) (object : W -> gostring -> gostring -> option json).
Context (effect : gostring -> gostring -> json -> option json) (admitted : json -> json).
Context `{WL : !WorkloadLaws kind_for object effect admitted}.
Context (c : DevController) `{CK : !forall o, ClaimsKeep (fun w => object w (c_type (ctl c)) (c_name (ctl c)) = o)}.
Implicit Types (w : W) (j : json).

Definition here w : option json := object w (c_type (ctl c)) (c_name (ctl c)).

(** The workload exists and carries the manifest [text]. *)
Definition recorded (text : gostring) w : Prop := exists j, here w = Some j /\ annotated OriginWorkloadDefinition text j.

Lemma keeps_weaken {A : Type} (a : act W A) (P : option json -> Prop) :
  (forall o, keeps (fun w => here w = o) a) -> keeps (fun w => P (here w)) a.
Proof. intros Ha w w' r Hw Hrun. by rewrite (Ha (here w) w w' r eq_refl Hrun). Qed.

#[local] Instance recorded_claims text : ClaimsKeep (recorded text).
Proof.
  set (P := fun o => exists j, o = Some j /\ annotated OriginWorkloadDefinition text j).
  split; intros x; apply (keeps_weaken _ P); intros o; unfold here; auto with keeps.
Qed.

(** A patch that leaves the metadata alone. *)
Definition safe (p : gostring * gostring) : Prop :=
  forall j j', effect (snd p) (fst p) j = Some j' -> at_path metadata j' = at_path metadata j.

Lemma keeps_patch text p : safe p -> keeps (recorded text) (patch_object (c_type (ctl c)) (c_name (ctl c)) (fst p) (snd p)).
Proof.
  intros Hsafe w w' r (j & Hj & Ha) Hrun.
  pose proof (patch_law _ _ _ _ w _ _ (fst p) (snd p) j Hj) as Hlaw.
  destruct (effect (snd p) (fst p) j) as [j'|] eqn:E.
  - destruct Hlaw as (w1 & Hw1 & Hj'). assert (w' = w1) as -> by congruence. exists j'. split; [done|].
    eapply annotated_meta; [by apply Hsafe|done].
  - destruct Hlaw as [e He]. assert (w' = w) as -> by congruence. by exists j.
Qed.

Lemma replace_safe toks path v :
  tokens path = toks -> toks <> [] -> (forall t, head toks = Some t -> t ∉ id_fields) ->
  safe (json_text (jsonPatch (go "replace") path v), go "json").
Proof.
  intros Hp Hne Hid j j' E. cbn in E.
  assert (head toks <> Some (go "metadata")) as Hh by (intros Heq; apply (Hid _ Heq); set_solver).
  destruct (at_path (tokens path) j) as [x|] eqn:Hx.
  - rewrite (replace_law _ _ _ _ path v j) in E; [|by exists x|rewrite Hp; by apply put_same_id].
    simplify_eq. by apply put_keeps_meta.
  - destruct (replace_missing_law _ _ _ _ path v j Hx) as [Hn|Ha]; [congruence|].
    rewrite Ha in E. eapply add_keeps_meta; [..|exact E]; by rewrite Hp.
Qed.

(** The pod template is under [toks], outside of what identifies the object. *)
Record template_at (toks : list gostring) : Prop := {
  ta_path : PodTemplatePath (action c) = ptr toks;
  ta_plain : Forall plain_token toks;
  ta_nonempty : toks <> [];
  ta_head : forall t, head toks = Some t -> t ∉ id_fields
}.

Lemma template_tokens toks l : template_at toks -> Forall plain_token l -> tokens (ptr (toks ++ l)) = toks ++ l.
Proof. intros [_ Hp _ _] Hl. apply tokens_ptr. by apply Forall_app. Qed.

Lemma template_replace_safe toks l v : template_at toks -> Forall plain_token l ->
  safe (json_text (jsonPatch (go "replace") (ptr (toks ++ l)) v), go "json").
Proof.
  intros Ht Hl. apply replace_safe with (toks ++ l); [by apply template_tokens| |]; destruct Ht as [_ _ Hne Hh];
    by destruct toks.
Qed.

Definition after_patches (containerName : gostring) : list (gostring * gostring) :=
  from_option Patches [] (GetContainerDevConfigOrDefault (config c) containerName).

Lemma keeps_after text containerName :
  (forall p, p ∈ after_patches containerName -> safe p) ->
  keeps (recorded text) (patchAfterDevContainerReplaced c containerName (c_type (ctl c)) (c_name (ctl c))).
Proof.
  intros Hsafe. unfold patchAfterDevContainerReplaced, after_patches in *.
  destruct (GetContainerDevConfigOrDefault (config c) containerName) as [d|]; [|apply keeps_panic].
  apply keeps_each. intros p Hp. apply act_keeps_bind; [|intros; apply act_keeps_ret]. apply keeps_try, keeps_patch, Hsafe, Hp.
Qed.

Lemma keeps_in_place text toks ops pt spec :
  template_at toks -> (forall p, p ∈ after_patches (opt_Container ops) -> safe p) ->
  keeps (recorded text) (patch_in_place c ops pt spec).
Proof.
  intros Ht Hafter. unfold patch_in_place, json_patch, patch_workload. rewrite (ta_path _ Ht).
  change (go "/metadata/annotations") with (go "/" ++ go "metadata" ++ go "/" ++ go "annotations").
  change (go "/spec") with (go "/" ++ go "spec").
  rewrite !app_assoc, <- !(app_assoc _ (go "/")), !ptr_snoc, <- app_assoc.
  assert (forall l v, Forall plain_token l -> keeps (recorded text)
    (patch_object (c_type (ctl c)) (c_name (ctl c)) (json_text (jsonPatch (go "replace") (ptr (toks ++ l)) v)) (go "json"))) as Hp.
  { intros l v Hl. exact (keeps_patch text _ (template_replace_safe toks l v Ht Hl)). }
  apply act_keeps_bind; [apply keeps_try|intros _].
  { apply (keeps_patch text (_, _)). apply replace_safe with [go "spec"; go "strategy"]; [reflexivity|done|].
    intros t [= <-]. apply (bool_decide_eq_true_1 _). vm_compute. reflexivity. }
  apply act_keeps_bind; [apply Hp; repeat constructor; by apply (bool_decide_eq_true_1 _)|intros _].
  apply act_keeps_bind; [apply Hp; repeat constructor; by apply (bool_decide_eq_true_1 _)|intros _].
  by apply keeps_after.
Qed.

(** The server refuses to delete the object, or to create it again once it is
    deleted. *)
Definition refused j w : Prop :=
  (exists w' e, delete_info j w = Done (w', Err e)) \/
  (exists w' w'' e, delete_info j w = Done (w', Ok tt) /\ apply_info (recreated c j) w' = Done (w'', Err e)).

(** The kept manifest brings the workload back. *)
Lemma rollback_recorded j0 reset w :
  Create (action c) = false -> is_kind kind_for (c_type (ctl c)) (c_name (ctl c)) j0 -> recorded (json_text j0) w ->
  (exists w2, RollbackFromAnnotation c reset w = Done (w2, Ok tt) /\ here w2 = Some (admitted (recreated c j0))) \/
  (refused j0 w /\ exists w2 e, RollbackFromAnnotation c reset w = Done (w2, Err e)).
Proof.
  intros Hcr Hkind (j & Hj & Ha). unfold RollbackFromAnnotation, GetUnstructured. rewrite Hcr.
  assert (forall w, GetUnstructuredFromString (json_text j0) w = Done (w, Ok j0)) as Hstream.
  { intros w'. unfold GetUnstructuredFromString. by rewrite (act_bind_ok _ _ _ _ _ (stream_law _ _ _ _ _ _ j0 w' Hkind)). }
  rewrite (act_bind_ok _ _ _ w tt) by done.
  rewrite (act_bind_ok _ _ _ _ _ (get_object_law _ _ _ _ _ _ _ j Hj)).
  rewrite (act_bind_ok _ _ _ w (json_text j0)) by (unfold kept_manifest; by rewrite (annotated_read _ _ _ Ha)).
  rewrite (act_bind_ok _ _ _ _ _ (Hstream w)).
  destruct (delete_law _ _ _ _ _ _ j0 w Hkind) as (w1 & [[]|e] & Hdel & Hgone).
  - rewrite (act_bind_ok _ _ _ _ _ Hdel), (act_bind_ok _ _ _ _ _ (Hstream w1)).
    destruct (apply_law _ _ _ _ _ _ _ w1 (recreated_kind kind_for c _ _ _ Hkind) (Hgone eq_refl)) as (w2 & [[]|e] & Happ & Hnew).
    + left. exists w2. auto.
    + right. split; [|eauto]. right. eauto 10.
  - right. split; [left; eauto|]. exists w1, e. unfold act_bind. by rewrite Hdel.
Qed.

Lemma start_records toks ops w w1 j0 r :
  Create (action c) = false -> template_at toks ->
  (forall p, p ∈ ScalePatches (action c) ++ after_patches (opt_Container ops) -> safe p) ->
  here w = Some j0 -> plain_object j0 ->
  PatchDevModeManifest sha1 c ops w = Done (w1, r) ->
  recorded (json_text (RemoveUselessInfo j0)) w1 \/ (here w1 = Some j0 /\ exists e, r = Err e).
Proof.
  intros Hcr Ht Hsafe Hj Hplain Hrun. unfold PatchDevModeManifest, GetUnstructured, act_bind at 1 in Hrun.
  rewrite (get_object_law _ _ _ _ _ _ _ j0 Hj) in Hrun. cbv zeta in Hrun. unfold act_bind at 1 in Hrun.
  unfold pod_template, act_lift in Hrun.
  destruct (GetPodTemplateFromSpecPath _ _) as [[pt|e]| |]; cbn [act_of act_fail act_ret act_panic] in Hrun; simplify_eq; eauto.
  destruct (has_sidecar _); [unfold act_fail in Hrun; simplify_eq; eauto|].
  unfold act_bind at 1, patch_workload in Hrun.
  pose proof (patch_law _ _ _ _ w _ _ (json_text (annotation_patch OriginWorkloadDefinition (json_text (RemoveUselessInfo j0))))
    (go "merge") j0 Hj) as Hmerge.
  rewrite (merge_law _ _ _ _) in Hmerge by (by apply merge_same_id). destruct Hmerge as (w' & Hw' & Hj').
  rewrite Hw' in Hrun. left. eapply act_keeps_bind; [| | |exact Hrun].
  - apply keeps_each. intros p Hp. apply keeps_patch, Hsafe. set_solver.
  - intros u. cbv beta. apply act_keeps_bind; [apply keeps_develop; apply _|]. intros spec. cbv zeta.
    apply act_keeps_bind; [|intros _; apply act_keeps_ret]. rewrite Hcr. apply keeps_in_place with toks; [done|]. set_solver.
  - eexists. split; [exact Hj'|]. by apply merge_annotated.
Qed.

(** C6: leaving dev mode restores the workload.  This is about replace mode of a
    workload that is changed in place (its action creates no other object), whose pod
    template is where the action says and whose annotations are strings, with scale
    and development patches that leave the metadata alone.  Once entering replace mode
    has changed the workload - whether it succeeded or failed half way - rolling back
    deletes it and creates it again from the manifest read at the start, without the
    fields the server fills and with the three annotations of the application.  It
    fails only when the server refuses to delete the workload or to create it again. *)
Theorem dev_mode_restores toks ops reset w w1 j0 r :
  Create (action c) = false -> template_at toks ->
  (forall p, p ∈ ScalePatches (action c) ++ after_patches (opt_Container ops) -> safe p) ->
  object w (c_type (ctl c)) (c_name (ctl c)) = Some j0 -> plain_object j0 ->
  PatchDevModeManifest sha1 c ops w = Done (w1, r) ->
  (exists labels, r = Ok labels) \/ object w1 (c_type (ctl c)) (c_name (ctl c)) <> Some j0 ->
  (exists w2, RollbackFromAnnotation c reset w1 = Done (w2, Ok tt) /\
     object w2 (c_type (ctl c)) (c_name (ctl c)) = Some (admitted (recreated c (RemoveUselessInfo j0)))) \/
  (refused (RemoveUselessInfo j0) w1 /\ exists w2 e, RollbackFromAnnotation c reset w1 = Done (w2, Err e)).
Proof.
  intros Hcr Ht Hsafe Hj Hplain Hrun Hchanged.
  destruct (start_records toks ops w w1 j0 r Hcr Ht Hsafe Hj Hplain Hrun) as [Hrec|[Hsame [e ->]]].
  - apply rollback_recorded; [done| |done]. apply clean_kind. by eapply object_kind.
  - by destruct Hchanged as [[labels ?]|?].
Qed.

(** *** The count of dev modes *)

Definition annotation_path : list gostring := [go "metadata"; go "annotations"].

(** The annotations are strings and say that [k] dev modes run: none when there is
    no count. *)
Definition counts (k : Z) j : Prop :=
  exists a, at_path annotation_path j = Some (JObj a) /\ strings a /\
    (member DevModeCount a = Some (JStr (Itoa k)) \/ (member DevModeCount a = None /\ k = 0%Z)).

Lemma counts_read k j : counts k j ->
  GetAnnotationFromUnstructured j DevModeCount = Ok (Itoa k) \/
  (GetAnnotationFromUnstructured j DevModeCount = Err (ErrNoAnnotation DevModeCount) /\ k = 0%Z).
Proof.
  intros (a & Ha & Hs & Hk). unfold GetAnnotationFromUnstructured, GetAnnotations. fold annotation_path. rewrite Ha.
  destruct (string_map_strings a Hs) as (m & Hm & Hl). cbn [mbind option_bind]. rewrite Hm. cbn [default].
  rewrite Hl. destruct Hk as [-> |[-> ->]]; auto.
Qed.

Lemma count_patched k k' w j :
  here w = Some j -> counts k j ->
  exists w' j', json_patch c (go "add") count_path (JStr (Itoa k')) w = Done (w', Ok tt) /\ here w' = Some j' /\ counts k' j'.
Proof.
  intros Hj (a & Ha & Hs & _).
  assert (tokens count_path = annotation_path ++ [DevModeCount]) as Htok by (vm_compute; reflexivity).
  pose proof (patch_law _ _ _ _ w _ _ (json_text (jsonPatch (go "add") count_path (JStr (Itoa k')))) (go "json") j Hj) as Hp.
  pose proof (add_law _ _ _ _ count_path (JStr (Itoa k')) j) as Hadd.
  rewrite Htok, (add_at_focus _ _ _ _ _ Ha) in Hadd by done. cbn [add_at add_child fmap option_fmap option_map] in Hadd.
  rewrite Hadd in Hp by (apply annotations_same_id; by exists (JObj a)).
  destruct Hp as (w' & Hw' & Hj'). eexists w', _. split; [exact Hw'|]. split; [exact Hj'|].
  exists (set_member DevModeCount (JStr (Itoa k')) a). split_and!.
  - apply at_put_eq. by exists (JObj a).
  - by apply set_member_strings.
  - left. apply member_set_eq.
Qed.

(** entering and leaving dev mode count up and down: on a workload that has
    annotations and runs [k] dev modes, the count is [k + 1] after the increase and
    [k] again after the decrease. *)
Theorem dev_mode_count k w j :
  object w (c_type (ctl c)) (c_name (ctl c)) = Some j -> counts k j -> (0 <= k < int64_max)%Z ->
  exists w1 j1 w2 j2,
    IncreaseDevModeCount c w = Done (w1, Ok tt) /\ here w1 = Some j1 /\ counts (k + 1) j1 /\
    DecreaseDevModeCount c w1 = Done (w2, Ok tt) /\ here w2 = Some j2 /\ counts k j2.
Proof.
  intros Hj Hk Hrange.
  assert (forall z, (0 <= z <= int64_max)%Z -> Atoi_value (Itoa z) = z) as Hatoi.
  { intros z Hz. apply Atoi_value_ok, Atoi_Itoa. unfold in_int64, int64_min, int64_max in *. lia. }
  destruct (count_patched k (k + 1) w j Hj Hk) as (w1 & j1 & Hw1 & Hj1 & Hk1).
  destruct (count_patched (k + 1) k w1 j1 Hj1 Hk1) as (w2 & j2 & Hw2 & Hj2 & Hk2).
  exists w1, j1, w2, j2. split_and!; [|done|done| |done|done].
  - unfold IncreaseDevModeCount, GetUnstructured. rewrite (act_bind_ok _ _ _ _ _ (get_object_law _ _ _ _ _ _ _ j Hj)). cbv zeta.
    destruct (counts_read k j Hk) as [-> |[-> ->]]; [|exact Hw1]. rewrite Hatoi by lia.
    unfold int_wrap. rewrite Z.mod_small by (unfold int64_min, int64_max in *; lia).
    replace (k + 1 - int64_min + int64_min)%Z with (k + 1)%Z by lia. exact Hw1.
  - unfold DecreaseDevModeCount, GetUnstructured. rewrite (act_bind_ok _ _ _ _ _ (get_object_law _ _ _ _ _ _ _ j1 Hj1)).
    destruct (counts_read (k + 1) j1 Hk1) as [-> |[_ Hz]]; [|lia]. rewrite Hatoi by lia. cbv zeta.
    rewrite (proj2 (Z.ltb_lt _ _)) by lia. replace (k + 1 - 1)%Z with k by lia. exact Hw2.
Qed.

(** a workload without annotations cannot be counted: the count is added below
    the missing annotations, which the server refuses. *)
Theorem count_needs_annotations w j :
  object w (c_type (ctl c)) (c_name (ctl c)) = Some j -> at_path annotation_path j = None ->
  exists e, IncreaseDevModeCount c w = Done (w, Err e).
Proof.
  intros Hj Hnone. unfold IncreaseDevModeCount, GetUnstructured.
  rewrite (act_bind_ok _ _ _ _ _ (get_object_law _ _ _ _ _ _ _ j Hj)). cbv zeta. unfold json_patch, patch_workload.
  pose proof (patch_law _ _ _ _ w _ _
    (json_text (jsonPatch (go "add") count_path (JStr (Itoa match GetAnnotationFromUnstructured j DevModeCount with
       | Ok x => int_wrap (Atoi_value x + 1) | Err _ => 1%Z end)))) (go "json") j Hj) as Hp.
  assert (tokens count_path = annotation_path ++ [DevModeCount]) as Htok by (vm_compute; reflexivity).
  pose proof (add_law _ _ _ _ count_path (JStr (Itoa match GetAnnotationFromUnstructured j DevModeCount with
    | Ok x => int_wrap (Atoi_value x + 1) | Err _ => 1%Z end)) j) as Hadd.
  rewrite Htok, add_at_missing in Hadd by done. rewrite Hadd in Hp. exact Hp.
Qed.
End replace.

(** ** Bare pods *)

Section raw_pods.
Context `{Q : !Quantities} `{MO : !MapOrder gostring} `{PJ : !PodJson} `{JT : !JsonText}.
Context {W : Type} `{CA : !ClaimApi W} `{WA : !WorkloadApi W} (sha1 : gostring -> gostring).
Context (pods : W -> gostring -> option PodObject) (stored : PodObject -> PodObject).

(** What the API server does with pods: [stored] is what it keeps of a new one. *)
Class PodLaws := {
  get_pod_law : forall w n, match pods w n with
                            | Some p => get_pod n w = Done (w, Ok p)
                            | None => exists e, get_pod n w = Done (w, Err e)
                            end;
  pods_named : forall w n p, pods w n = Some p -> po_Name p = n;
  delete_pod_law : forall w n p, pods w n = Some p -> exists w', delete_pod n w = Done (w', Ok tt) /\ pods w' n = None;
  create_pod_law : forall w p w' r, pods w (po_Name p) = None -> create_pod p w = Done (w', r) ->
    match r with
    | Ok _ => pods w' (po_Name p) = Some (stored p)
    | Err _ => pods w' (po_Name p) = None
    end;
  stored_annotations : forall p k, po_Annotations (stored p) !! k = po_Annotations p !! k
}.

Context `{PL : !PodLaws} (c : DevController) `{CK : !forall o, ClaimsKeep (fun w => pods w (c_name (ctl c)) = o)}.

(** a bare pod survives dev mode: when its manifest decodes to itself, entering
    succeeded and no patches are configured for after it, rolling back either brings back
    the pod that was read, without its status and version, or fails to create it. *)
Theorem raw_pod_restored ops reset w w1 p :
  pods w (c_name (ctl c)) = Some p ->
  unmarshal_pod (marshal_pod (bare p)) zero_pod = Some (bare p) ->
  after_patches c (opt_Container ops) = [] ->
  RawPod_ReplaceImage sha1 c ops w = Done (w1, Ok tt) ->
  exists w2, pods w2 (c_name (ctl c)) = None /\ RawPod_RollBack c reset w1 = create_pod (bare p) w2 /\
    forall w3 r, RawPod_RollBack c reset w1 = Done (w3, r) ->
      match r with Ok _ => pods w3 (c_name (ctl c)) = Some (stored (bare p)) | Err _ => pods w3 (c_name (ctl c)) = None end.
Proof.
  intros Hp Hcodec Hafter Hrun. pose proof (get_pod_law w (c_name (ctl c))) as Hget. rewrite Hp in Hget.
  unfold RawPod_ReplaceImage in Hrun. rewrite (act_bind_ok _ _ _ _ _ Hget) in Hrun.
  destruct (bool_decide (po_Owners p = [])); [|act_inv]. cbv zeta in Hrun. act_inv.
  assert (pods w0 (c_name (ctl c)) = Some p) as Hp0.
  { eapply (keeps_develop sha1 (fun w => pods w (c_name (ctl c)) = Some p)); [exact Hp|exact Hstep]. }
  destruct (delete_pod_law w0 _ p Hp0) as (w' & Hdel & Hgone). rewrite Hdel in Hstep0. simplify_eq.
  set (dev := pod_with _ _ _) in Hstep1.
  assert (po_Name dev = c_name (ctl c)) as Hname by (exact (pods_named w _ p Hp)).
  pose proof (create_pod_law _ dev _ _ ltac:(by rewrite Hname) Hstep1) as Hdev.
  cbv beta iota in Hdev. rewrite Hname in Hdev.
  assert (w1 = w3) as ->.
  { unfold patchAfterDevContainerReplaced, after_patches in *.
    destruct (GetContainerDevConfigOrDefault _ _) as [d|]; [|act_inv]. cbn in Hafter. rewrite Hafter in Hrun. cbn in Hrun.
    by act_inv. }
  destruct (delete_pod_law _ _ _ Hdev) as (w4 & Hdel4 & Hgone4).
  assert (RawPod_RollBack c reset w3 = create_pod (bare p) w4) as Hroll.
  { unfold RawPod_RollBack. pose proof (get_pod_law w3 (c_name (ctl c))) as Hget3. rewrite Hdev in Hget3.
    rewrite (act_bind_ok _ _ _ _ _ Hget3), stored_annotations. unfold dev at 1. cbn [pod_with po_Annotations].
    rewrite lookup_insert_ne, lookup_insert_eq by (vm_compute; discriminate).
    rewrite Hcodec. unfold act_opt. rewrite (act_bind_ok _ _ _ w3 (bare p)) by done.
    by rewrite (act_bind_ok _ _ _ _ _ Hdel4). }
  exists w4. split_and!; [done|done|]. intros w5 r Hr. rewrite Hroll in Hr.
  assert (po_Name (bare p) = c_name (ctl c)) as Hn by (exact (pods_named w _ p Hp)).
  pose proof (create_pod_law _ _ _ _ ltac:(by rewrite Hn) Hr) as Hfin. by rewrite Hn in Hfin.
Qed.

(** C40: when the pod cannot be created again the manifest is lost with the pod that
    carried it: rolling back fails, no pod is left, and every later attempt fails,
    also a reset. *)
Theorem raw_pod_lost reset reset' w w1 e p text orig :
  pods w (c_name (ctl c)) = Some p -> po_Annotations p !! OriginWorkloadDefinition = Some text ->
  unmarshal_pod text zero_pod = Some orig -> po_Name orig = c_name (ctl c) ->
  RawPod_RollBack c reset w = Done (w1, Err e) ->
  pods w1 (c_name (ctl c)) = None /\ exists e', RawPod_RollBack c reset' w1 = Done (w1, Err e').
Proof.
  intros Hp Hann Hdec Hname Hrun. pose proof (get_pod_law w (c_name (ctl c))) as Hget. rewrite Hp in Hget.
  destruct (delete_pod_law w _ p Hp) as (w2 & Hdel & Hgone).
  unfold RawPod_RollBack in Hrun. rewrite (act_bind_ok _ _ _ _ _ Hget), Hann, Hdec in Hrun.
  unfold act_opt in Hrun. rewrite (act_bind_ok _ _ _ w orig), (act_bind_ok _ _ _ _ _ Hdel) in Hrun by done.
  pose proof (create_pod_law _ orig _ _ ltac:(by rewrite Hname) Hrun) as Hnone.
  cbv beta iota in Hnone. rewrite Hname in Hnone.
  split; [done|]. pose proof (get_pod_law w1 (c_name (ctl c))) as Hget1. rewrite Hnone in Hget1. destruct Hget1 as [e' He'].
  exists e'. unfold RawPod_RollBack, act_bind. by rewrite He'.
Qed.
End raw_pods.

(** ** Leaving dev mode *)

Section ending.
Context `{Q : !Quantities} `{MO : !MapOrder gostring} `{PJ : !PodJson} `{JT : !JsonText}.
Context {W : Type} `{CA : !ClaimApi W} `{WA : !WorkloadApi W} (sha1 : gostring -> gostring).

(** leaving dev mode hides a failed rollback: once synchronisation is stopped
    the end is recorded and success returned, also when the workload could not be
    rolled back and is still the development workload. *)
Theorem dev_end_hides_rollback c inReplace reset stop leave w w1 w2 w3 e r :
  stop w = Done (w1, Ok None) ->
  RollBack c inReplace reset w1 = Done (w2, Err e) ->
  leave w2 = Done (w3, r) ->
  DevEnd c inReplace reset stop leave w = Done (w3, Ok tt).
Proof.
  intros Hstop Hroll Hleave. unfold DevEnd. rewrite (act_bind_ok _ _ _ _ _ Hstop).
  unfold act_bind, act_try. by rewrite Hroll, Hleave.
Qed.

(** duplicating a workload that cannot be read crashes: the missing object is
    copied before the error is looked at. *)
Theorem missing_duplicate_panics c inReplace ops w w1 e :
  get_object (c_type (ctl c)) (c_name (ctl c)) w = Done (w1, Err e) ->
  ReplaceDuplicateModeImage sha1 c inReplace ops w = Panic.
Proof. intros Hget. unfold ReplaceDuplicateModeImage, GetUnstructured, act_bind, act_try. by rewrite Hget. Qed.
End ending.

(** ** Paths *)

Lemma nested_at_path toks j : Forall (fun t => array_index t = None) toks ->
  match nested_field toks j with Ok o => at_path toks j = o | Err _ => at_path toks j = None end.
Proof.
  intros Ht. revert j. induction Ht as [|t toks Ht _ IH]; intros j; [done|]. cbn [nested_field at_path].
  destruct j as [| | | |l|fs]; cbn; try done.
  - by rewrite Ht.
  - destruct (member t fs) as [v|]; [apply IH|done].
Qed.

Lemma slice_item_none i l : Forall (fun t => t <> [] /\ Atoi t = None) l -> slice_item i l = None.
Proof.
  intros Hl. revert i. induction Hl as [|t l [Hne Ht] _ IH]; intros i; cbn; [done|].
  by rewrite bool_decide_eq_false_2, Ht by done.
Qed.

(** the lookup of a pod template by its path is that of a JSON pointer: a path
    of plain names that are not numbers finds the object that the pointer names,
    and fails when it names none. *)
Theorem map_by_path_pointer toks u :
  toks <> [] -> Forall plain_token toks ->
  Forall (fun t => t <> [] /\ Atoi t = None /\ array_index t = None) toks ->
  exists r, GetUnstructuredMapByPath (ptr toks) u = Done r /\
    forall fs, r = Ok fs <-> at_path toks u = Some (JObj fs).
Proof.
  intros Hne Hplain Htoks. unfold GetUnstructuredMapByPath.
  assert (ptr toks = slash ++ Join toks slash) as Hptr by (unfold ptr; by rewrite Join_cons).
  assert (HasPrefix (ptr toks) [ascii_of_nat 92; "/"%char] = false) as ->.
  { rewrite Hptr. destruct (HasPrefix _ _) eqn:E; [|done]. apply HasPrefix_spec in E as [k Hk].
    apply (f_equal head) in Hk. vm_compute in Hk. discriminate. }
  rewrite Hptr, TrimPrefix_app. change slash with ["/"%char]. rewrite Split_Join_single; [|done|].
  2:{ eapply Forall_impl; [exact Hplain|]. by intros t [? _]. }
  rewrite slice_item_none by (eapply Forall_impl; [exact Htoks|]; naive_solver).
  eexists. split; [done|]. intros fs.
  pose proof (nested_at_path toks u ltac:(eapply Forall_impl; [exact Htoks|]; naive_solver)) as Hat.
  unfold found_map, nested_map. destruct (nested_field toks u) as [[[]|]|]; rewrite Hat; split; intros H; simplify_eq; done.
Qed.

(** ** A concrete server

    Texts of JSON with a parser, so that patches can be read back. *)

Fixpoint quote (s : gostring) : gostring :=
  match s with
  | [] => ["."%char]
  | ch :: s => "!"%char :: ch :: quote s
  end.

Fixpoint unquote (t : gostring) : option (gostring * gostring) :=
  match t with
  | "."%char :: t => Some ([], t)
  | "!"%char :: ch :: t => '(s, t) ← unquote t; Some (ch :: s, t)
  | _ => None
  end.

Lemma unquote_quote s t : unquote (quote s ++ t) = Some (s, t).
Proof. induction s as [|ch s IH]; [done|]. cbn. by rewrite IH. Qed.

Fixpoint print_json (j : json) : gostring :=
  match j with
  | JNull => ["n"%char]
  | JBool true => ["t"%char]
  | JBool false => ["f"%char]
  | JNum z => "#"%char :: quote (to_text z)
  | JStr s => "s"%char :: quote s
  | JArr l => "["%char :: ((fix items l := match l with [] => ["]"%char] | x :: l => ","%char :: print_json x ++ items l end) l)
  | JObj fs =>
      "{"%char :: ((fix members fs := match fs with [] => ["}"%char] | (k, x) :: fs => ","%char :: quote k ++ print_json x ++ members fs end) fs)
  end.

Definition print_items : list json -> gostring :=
  fix items l := match l with [] => ["]"%char] | x :: l => ","%char :: print_json x ++ items l end.

Definition print_members : list (gostring * json) -> gostring :=
  fix members fs := match fs with [] => ["}"%char] | (k, x) :: fs => ","%char :: quote k ++ print_json x ++ members fs end.

Fixpoint parse_json (n : nat) (t : gostring) : option (json * gostring) :=
  match n with
  | O => None
  | S n =>
      match t with
      | "n"%char :: t => Some (JNull, t)
      | "t"%char :: t => Some (JBool true, t)
      | "f"%char :: t => Some (JBool false, t)
      | "#"%char :: t => '(s, t) ← unquote t; z ← of_text s; Some (JNum z, t)
      | "s"%char :: t => '(s, t) ← unquote t; Some (JStr s, t)
      | "["%char :: t => '(l, t) ← parse_items n t; Some (JArr l, t)
      | "{"%char :: t => '(fs, t) ← parse_members n t; Some (JObj fs, t)
      | _ => None
      end
  end
with parse_items (n : nat) (t : gostring) : option (list json * gostring) :=
  match n with
  | O => None
  | S n =>
      match t with
      | "]"%char :: t => Some ([], t)
      | ","%char :: t => '(x, t) ← parse_json n t; '(l, t) ← parse_items n t; Some (x :: l, t)
      | _ => None
      end
  end
with parse_members (n : nat) (t : gostring) : option (list (gostring * json) * gostring) :=
  match n with
  | O => None
  | S n =>
      match t with
      | "}"%char :: t => Some ([], t)
      | ","%char :: t =>
          '(k, t) ← unquote t; '(x, t) ← parse_json n t; '(l, t) ← parse_members n t; Some ((k, x) :: l, t)
      | _ => None
      end
  end.

Lemma print_nonempty j : 1 <= length (print_json j).
Proof. destruct j as [|[]| | | |]; exact (le_n_S 0 _ (Nat.le_0_l _)). Qed.

Fixpoint parse_print (j : json) : forall n t, length (print_json j) < n -> parse_json n (print_json j ++ t) = Some (j, t).
Proof.
  destruct j as [|[]|z|s|l|fs]; (intros [|n] t Hn; [lia|]).
  1-3: done.
  - cbn -[to_text]. rewrite unquote_quote. cbn -[to_text]. by rewrite of_to_text.
  - cbn. by rewrite unquote_quote.
  - assert (forall l n t, length (print_items l) < n -> parse_items n (print_items l ++ t) = Some (l, t)) as Hl.
    { clear n t Hn l. induction l as [|x l IH]; (intros [|n] t Hn; cbn in Hn; [lia|]); [done|].
      rewrite length_app in Hn. cbn. rewrite <- app_assoc, parse_print by (pose proof (print_nonempty x); lia). cbn.
      by rewrite IH by (pose proof (print_nonempty x); lia). }
    change (print_json (JArr l)) with ("["%char :: print_items l) in *. cbn [length] in Hn.
    cbn [parse_json app]. by rewrite Hl by lia.
  - assert (forall fs n t, length (print_members fs) < n -> parse_members n (print_members fs ++ t) = Some (fs, t)) as Hl.
    { clear n t Hn fs. induction fs as [|[k x] fs IH]; (intros [|n] t Hn; cbn in Hn; [lia|]); [done|].
      rewrite !length_app in Hn. cbn. rewrite <- !app_assoc, unquote_quote. cbn.
      rewrite parse_print by (pose proof (print_nonempty x); lia). cbn. by rewrite IH by (pose proof (print_nonempty x); lia). }
    change (print_json (JObj fs)) with ("{"%char :: print_members fs) in *. cbn [length] in Hn.
    cbn [parse_json app]. by rewrite Hl by lia.
Qed.

Definition read_json (t : gostring) : option json :=
  match parse_json (S (length t)) t with Some (j, []) => Some j | _ => None end.

Lemma read_print j : read_json (print_json j) = Some j.
Proof. unfold read_json. pose proof (parse_print j (S (length (print_json j))) []) as H. rewrite app_nil_r in H. by rewrite H by lia. Qed.

Section demo.
#[local] Existing Instance demo_quantities.

#[local] Instance demo_text : JsonText := {|
  json_text := print_json; sjson_SetRaw := fun t _ _ => Some t; sjson_Delete := fun t _ => Some t
|}.

(** One stored workload and one pod. *)
Record server := mkServer {
  sv_object : option json;
  sv_pod : option PodObject
}.

Definition demo_kind (ty : gostring) : gostring * gostring := (go "apps/v1", go "Deployment").

#[local] Instance same_id_dec j j' : Decision (same_id j j').
Proof. unfold same_id. apply _. Defined.

#[local] Instance is_kind_dec ty n j : Decision (is_kind demo_kind ty n j).
Proof. unfold is_kind. apply _. Defined.

Definition demo_get (w : server) (ty n : gostring) : option json :=
  match sv_object w with
  | Some j => if bool_decide (is_kind demo_kind ty n j) then Some j else None
  | None => None
  end.

Definition json_effect (p j : json) : option json :=
  match p with
  | JArr [JObj [(_, JStr op); (_, JStr path); (_, v)]] =>
      if bool_decide (op = go "replace") then
        match at_path (tokens path) j with Some _ => Some (put_path (tokens path) v j) | None => None end
      else add_at (tokens path) v j
  | _ => None
  end.

Definition demo_effect (pt content : gostring) (j : json) : option json :=
  p ← read_json content;
  j' ← (if bool_decide (pt = go "merge") then Some (merge p j) else json_effect p j);
  if bool_decide (same_id j j') then Some j' else None.

Lemma demo_effect_json p j :
  demo_effect (go "json") (print_json p) j = (j' ← json_effect p j; if bool_decide (same_id j j') then Some j' else None).
Proof. unfold demo_effect. by rewrite read_print. Qed.

Lemma json_effect_replace path v j : json_effect (jsonPatch (go "replace") path v) j =
  match at_path (tokens path) j with Some _ => Some (put_path (tokens path) v j) | None => None end.
Proof. unfold json_effect, jsonPatch. by rewrite bool_decide_eq_true_2. Qed.

Lemma json_effect_add path v j : json_effect (jsonPatch (go "add") path v) j = add_at (tokens path) v j.
Proof. unfold json_effect, jsonPatch. by rewrite bool_decide_eq_false_2 by (vm_compute; discriminate). Qed.

#[local] Instance demo_workloads : WorkloadApi server := {|
  get_object := fun ty n w => Done (w, match demo_get w ty n with Some j => Ok j | None => Err ErrNotFound end);
  patch_object := fun ty n content pt w =>
    match demo_get w ty n ≫= demo_effect pt content with
    | Some j => Done (mkServer (Some j) (sv_pod w), Ok tt)
    | None => Done (w, Err ErrJson)
    end;
  stream_infos := fun t w => Done (w, Ok (option_list (read_json t)));
  delete_info := fun j w => Done (mkServer None (sv_pod w), Ok tt);
  apply_info := fun j w => Done (mkServer (Some j) (sv_pod w), Ok tt);
  list_infos := fun _ _ w => Done (w, Ok []);
  list_deployments := fun _ w => Done (w, Ok []);
  create_deployment := fun _ w => Done (w, Ok tt);
  create_deployment_wait := fun _ w => Done (w, Ok tt);
  delete_deployment := fun _ w => Done (w, Ok tt);
  list_pods := fun _ w => Done (w, Ok []);
  pods_of_deployment := fun _ w => Done (w, Ok []);
  get_pod := fun n w => Done (w, match sv_pod w with
                                 | Some p => if bool_decide (po_Name p = n) then Ok p else Err ErrNotFound
                                 | None => Err ErrNotFound
                                 end);
  create_pod := fun p w => if bool_decide (po_Labels p = ∅) then Done (mkServer (sv_object w) (Some p), Ok tt)
                           else Done (w, Err (ErrApi (go "quota")));
  delete_pod := fun n w => Done (mkServer (sv_object w) None, Ok tt);
  short_uuid := fun w => go "0a1b";
  mesh_manager_exists := fun _ w => Done (w, Ok true);
  mesh_create := fun _ _ w => Done (w, Ok true)
|}.

#[local] Instance demo_claims : ClaimApi server := {|
  list_claims := fun _ w => Done (w, Ok []);
  create_claim := fun cl w => Done (w, Ok cl);
  get_claim := fun _ w => Done (w, Err ErrNotFound);
  delete_claim := fun _ w => Done (w, Ok tt);
  claim_events := fun _ w => Done (w, Ok []);
  now := fun _ => 0%Z
|}.

#[local] Instance demo_claims_keep (I : server -> Prop) : ClaimsKeep I.
Proof. split; intros x w w' r Hw [= <- _]; done. Qed.

Lemma demo_patch w ty n content pt j : demo_get w ty n = Some j ->
  match demo_effect pt content j with
  | Some j' => exists w', patch_object ty n content pt w = Done (w', Ok tt) /\ demo_get w' ty n = Some j'
  | None => exists e, patch_object ty n content pt w = Done (w, Err e)
  end.
Proof.
  intros Hj. cbn [patch_object demo_workloads]. rewrite Hj. cbn [mbind option_bind].
  destruct (demo_effect pt content j) as [j'|] eqn:E; [|by eexists].
  eexists. split; [done|]. unfold demo_get in *. cbn [sv_object].
  destruct (sv_object w) as [j0|]; [|done]. destruct (bool_decide (is_kind demo_kind ty n j0)) eqn:Ek; [|done]. simplify_eq.
  apply bool_decide_eq_true_1 in Ek. rewrite bool_decide_eq_true_2; [done|].
  unfold demo_effect in E. destruct (read_json content); [|done]. cbn in E.
  destruct (if bool_decide (pt = go "merge") then _ else _) as [j1|]; [|done]. cbn in E. case_bool_decide as Hid; [|done]. simplify_eq.
  destruct Hid as (Ha & Hk & Hn), Ek as [Hkind Hname]. split; [by rewrite Ha, Hk|by rewrite Hn].
Qed.

#[local] Instance demo_workload_laws : WorkloadLaws demo_kind demo_get demo_effect id.
Proof.
  split.
  - intros w ty n j. unfold demo_get. intros Hj. go_cases. by eapply bool_decide_eq_true_1.
  - intros w ty n j Hj. cbn. by rewrite Hj.
  - intros w ty n content pt j. apply demo_patch.
  - intros p j Hid. unfold demo_effect. cbn [json_text demo_text]. rewrite read_print. cbn [mbind option_bind].
    rewrite (bool_decide_eq_true_2 (go "merge" = _)) by done. cbn [mbind option_bind]. by rewrite bool_decide_eq_true_2.
  - intros path v j [x Hx] Hid. cbn [json_text demo_text]. rewrite demo_effect_json, json_effect_replace, Hx. cbn [mbind option_bind].
    by rewrite bool_decide_eq_true_2.
  - intros path v j Hnone. left. cbn [json_text demo_text]. by rewrite demo_effect_json, json_effect_replace, Hnone.
  - intros path v j. cbn [json_text demo_text]. rewrite demo_effect_json, json_effect_add.
    destruct (add_at (tokens path) v j) as [j'|]; [|done]. intros Hid. cbn [mbind option_bind]. by rewrite bool_decide_eq_true_2.
  - intros ty n j w _. cbn. by rewrite read_print.
  - intros ty n j w _. by eexists _, _.
  - intros ty n j w Hk _. eexists _, _. split; [done|]. intros _. unfold demo_get. cbn. by rewrite bool_decide_eq_true_2.
Qed.

Definition demo_bare : PodObject := mkPodObject (go "reviews") (go "Pod") ∅ ∅ [] [] demo_spec [] [].

#[local] Instance demo_codec : PodJson := {|
  dec_template := fun j => Some (mkTemplate ∅ ∅ demo_spec []);
  dec_pod_spec := fun j => Some demo_spec;
  enc_spec := fun p => JStr (go "developed");
  enc_template := fun p => JStr (go "template");
  marshal_pod := fun p => go "manifest";
  unmarshal_pod := fun t p => Some demo_bare;
  pod_view := fun p => demo_pod (po_Name p) []
|}.

Definition demo_workload : json :=
  JObj [(go "apiVersion", JStr (go "apps/v1")); (go "kind", JStr (go "Deployment"));
        (go "metadata", JObj [(go "name", JStr (go "reviews")); (go "uid", JStr (go "1"));
                              (go "annotations", JObj [(go "x", JStr (go "y"))])]);
        (go "spec", JObj [(go "template", JObj [(go "spec", JNull); (go "metadata", JObj [(go "annotations", JNull)])])]);
        (go "status", JNull)].

Definition demo_server : server := mkServer (Some demo_workload) None.

Definition demo_ops : DevStartOptions := mkStart (go "app") [] [] ∅.

Lemma demo_workload_plain : plain_object demo_workload.
Proof.
  eexists _, _. split; [reflexivity|]. split; [reflexivity|]. right. eexists. split; [reflexivity|].
  split; [apply NoDup_singleton|]. constructor; [by eexists|constructor].
Qed.

Lemma dev_mode_restores_witness :
  exists w1 labels w2, PatchDevModeManifest id (demo_ctl [] []) demo_ops demo_server = Done (w1, Ok labels) /\
    RollbackFromAnnotation (demo_ctl [] []) false w1 = Done (w2, Ok tt) /\
    demo_get w2 (go "deployment") (go "reviews") = Some (recreated (demo_ctl [] []) (RemoveUselessInfo demo_workload)).
Proof.
  destruct (succeeds_inv (PatchDevModeManifest id (demo_ctl [] []) demo_ops demo_server)) as (w1 & labels & Hrun);
    [vm_compute; reflexivity|].
  destruct (dev_mode_restores id demo_kind demo_get demo_effect id (demo_ctl [] []) [go "spec"; go "template"] demo_ops false
    demo_server w1 demo_workload (Ok labels)) as [(w2 & Hroll & Hobj)|[Href _]];
    [reflexivity| | |reflexivity| |exact Hrun|left; exists labels; reflexivity| |].
  - clear Hrun. split; [reflexivity|repeat constructor; by apply (bool_decide_eq_true_1 _)|done|].
    intros t [= <-]. apply (bool_decide_eq_true_1 _). vm_compute. reflexivity.
  - intros p. assert (ScalePatches (action (demo_ctl [] [])) ++ after_patches (demo_ctl [] []) (opt_Container demo_ops) = []) as ->
      by (vm_compute; reflexivity). intros Hp. destruct (not_elem_of_nil p Hp).
  - exact demo_workload_plain.
  - exists w1, labels, w2. split; [exact Hrun|]. split; [exact Hroll|exact Hobj].
  - exfalso. destruct Href as [(w' & e & He)|(w' & w'' & e & _ & He)]; discriminate He.
Defined.

Lemma dev_mode_count_witness :
  exists w1 j1 w2 j2,
    IncreaseDevModeCount (demo_ctl [] []) demo_server = Done (w1, Ok tt) /\
    here demo_get (demo_ctl [] []) w1 = Some j1 /\ counts 1 j1 /\
    DecreaseDevModeCount (demo_ctl [] []) w1 = Done (w2, Ok tt) /\
    here demo_get (demo_ctl [] []) w2 = Some j2 /\ counts 0 j2.
Proof.
  apply (dev_mode_count demo_kind demo_get demo_effect id (demo_ctl [] []) 0 demo_server demo_workload).
  - reflexivity.
  - eexists. split; [reflexivity|]. split; [|right; by split]. split; [apply NoDup_singleton|]. constructor; [by eexists|constructor].
  - vm_compute. split; [discriminate|reflexivity].
Defined.

Definition unannotated : json :=
  JObj [(go "apiVersion", JStr (go "apps/v1")); (go "kind", JStr (go "Deployment"));
        (go "metadata", JObj [(go "name", JStr (go "reviews"))])].

Lemma count_needs_annotations_witness :
  exists e, IncreaseDevModeCount (demo_ctl [] []) (mkServer (Some unannotated) None) = Done (mkServer (Some unannotated) None, Err e).
Proof.
  apply (count_needs_annotations demo_kind demo_get demo_effect id (demo_ctl [] []) (mkServer (Some unannotated) None) unannotated);
    reflexivity.
Defined.

Definition demo_pods (w : server) (n : gostring) : option PodObject :=
  match sv_pod w with Some p => if bool_decide (po_Name p = n) then Some p else None | None => None end.

#[local] Instance demo_pod_laws : PodLaws demo_pods id.
Proof.
  split.
  - intros w n. unfold demo_pods. cbn. destruct (sv_pod w) as [p|]; [|by eexists]. case_bool_decide; [done|by eexists].
  - intros w n p. unfold demo_pods. intros Hp. go_cases. by eapply bool_decide_eq_true_1.
  - intros w n p _. eexists. split; reflexivity.
  - intros w p w' r Hnone Hc. cbn in Hc. unfold demo_pods in *. case_bool_decide; simplify_eq/=; [|done].
    by rewrite bool_decide_eq_true_2.
  - done.
Qed.

Definition pod_server (p : PodObject) : server := mkServer None (Some p).

Lemma raw_pod_restored_witness :
  exists w1 w2, RawPod_ReplaceImage id (demo_ctl [] []) demo_ops (pod_server demo_bare) = Done (w1, Ok tt) /\
    RawPod_RollBack (demo_ctl [] []) false w1 = Done (w2, Ok tt) /\ demo_pods w2 (go "reviews") = Some (bare demo_bare).
Proof.
  destruct (succeeds_inv (RawPod_ReplaceImage id (demo_ctl [] []) demo_ops (pod_server demo_bare))) as (w1 & [] & Hrun);
    [vm_compute; reflexivity|].
  destruct (raw_pod_restored id demo_pods id (demo_ctl [] []) demo_ops false (pod_server demo_bare) w1 demo_bare)
    as (w2 & _ & Hroll & Hfin); [reflexivity|reflexivity|reflexivity|exact Hrun|].
  exists w1, (mkServer (sv_object w2) (Some (bare demo_bare))). split; [exact Hrun|]. split; [rewrite Hroll; reflexivity|reflexivity].
Defined.

(** A pod whose manifest the server refuses. *)
Definition refused_codec : PodJson := {|
  dec_template := fun j => None; dec_pod_spec := fun j => None; enc_spec := fun p => JNull; enc_template := fun p => JNull;
  marshal_pod := fun p => [];
  unmarshal_pod := fun t p => Some (mkPodObject (go "reviews") (go "Pod") {[go "a" := go "b"]} ∅ [] [] demo_spec [] []);
  pod_view := fun p => demo_pod (po_Name p) []
|}.

Definition developing : PodObject :=
  mkPodObject (go "reviews") (go "Pod") ∅ {[OriginWorkloadDefinition := go "manifest"]} [] [] demo_spec [] [].

Lemma raw_pod_lost_witness :
  exists w1 e, RawPod_RollBack (H0 := refused_codec) (demo_ctl [] []) false (pod_server developing) = Done (w1, Err e) /\
    demo_pods w1 (go "reviews") = None /\
    exists e', RawPod_RollBack (H0 := refused_codec) (demo_ctl [] []) true w1 = Done (w1, Err e').
Proof.
  exists (mkServer None None), (ErrApi (go "quota")). split; [vm_compute; reflexivity|].
  apply (raw_pod_lost (PJ := refused_codec) demo_pods id (demo_ctl [] []) false true (pod_server developing) _ (ErrApi (go "quota"))
    developing (go "manifest") (mkPodObject (go "reviews") (go "Pod") {[go "a" := go "b"]} ∅ [] [] demo_spec [] []));
    vm_compute; reflexivity.
Defined.

Lemma dev_end_hides_rollback_witness :
  DevEnd (demo_ctl [] []) false false (act_ret None) (act_ret tt) (mkServer None None) = Done (mkServer None None, Ok tt).
Proof.
  apply (dev_end_hides_rollback (demo_ctl [] []) false false (act_ret None) (act_ret tt) (mkServer None None) (mkServer None None)
    (mkServer None None) (mkServer None None) ErrNotFound (Ok tt)); vm_compute; reflexivity.
Defined.

Lemma missing_duplicate_panics_witness :
  ReplaceDuplicateModeImage id (demo_ctl [] []) false demo_ops (mkServer None None) = Panic.
Proof.
  apply (missing_duplicate_panics id (demo_ctl [] []) false demo_ops (mkServer None None) (mkServer None None) ErrNotFound).
  reflexivity.
Defined.

Lemma map_by_path_pointer_witness :
  exists r, GetUnstructuredMapByPath (go "/spec/template") demo_workload = Done r /\
    forall fs, r = Ok fs <-> at_path [go "spec"; go "template"] demo_workload = Some (JObj fs).
Proof.
  apply (map_by_path_pointer [go "spec"; go "template"] demo_workload).
  - done.
  - repeat constructor; by apply (bool_decide_eq_true_1 _).
  - repeat constructor; vm_compute; discriminate.
Defined.
End demo.
