(* ===== verification/Mesh.v ===== *)
(** * The mesh manager of the API server
      ([pkg/nocalhost-api/pkg/setupcluster/mesh_manager.go],
      [mesh_manager_modify.go], [mesh_manager_cache.go], [mesh_manager_factory.go])

    A mesh dev space is a namespace into which a developer copies some workloads
    of a base namespace.  Services of the base namespace are copied, and virtual
    services route what is not copied back to the base namespace; virtual services
    of the base namespace route requests with the developer's tracing header to
    the copies.  Here are the objects as far as the manager looks at them, the
    filters over the informers' listings, the changes made to an object before it
    is applied, the routes, and the manager's operations as programs over calls of
    the client, with their goroutines interleaved by an arbitrary schedule. *)

From stdpp Require Import sorting.
From S2P Require Import Prelude GoStrings FilePath DevDir AppMeta Search SearchCache.
#[local] Open Scope go_scope.

Definition ConfigMap : gostring := go "ConfigMap".
Definition Service : gostring := go "Service".
Definition VirtualService : gostring := go "VirtualService".
Definition Secret : gostring := go "Secret".
Definition Deployment : gostring := go "Deployment".
Definition DefaultClusterDomain : gostring := go "cluster.local".
Definition NocalhostName : gostring := go "nocalhost".
Definition NocalhostCreateByLabel : gostring := go "app.kubernetes.io/created-by".
Definition AppManagedByLabel : gostring := go "app.kubernetes.io/managed-by".
Definition AppManagedByNocalhost : gostring := go "nocalhost".
Definition NocalhostApplicationName : gostring := go "dev.nocalhost/application-name".
Definition NocalhostApplicationNamespace : gostring := go "dev.nocalhost/application-namespace".
Definition ReleaseNameAnnotation : gostring := go "meta.helm.sh/release-name".
Definition DefaultNocalhostApplication : gostring := go "default.application".

(** ** Objects

    The fields the code reads or writes; the rest of a body is kept.  A map that
    the object lacks is a nil map. *)

(** What [resetModifier] clears. *)
Record ServerMeta := mkServerMeta {
  sm_GenerateName : gostring;
  sm_SelfLink : gostring;
  sm_UID : gostring;
  sm_ResourceVersion : gostring;
  sm_Generation : Z;
  sm_DeletionGracePeriodSeconds : option Z;
  sm_OwnerReferences : list gostring;
  sm_Finalizers : list gostring;
  sm_ManagedFields : list gostring
}.

Definition no_server_meta : ServerMeta := mkServerMeta [] [] [] [] 0 None [] [] [].

Inductive VolumeSource :=
  | EmptyDirSource
  | DownwardAPISource
  | HostPathSource
  | ConfigMapSource (name : gostring)
  | SecretSource (secretName : gostring)
  | OtherSource (rest : gostring).

Record Volume := mkVolume {
  v_Name : gostring;
  v_Source : VolumeSource
}.

Record VolumeMount := mkMount {
  m_Name : gostring;
  m_rest : gostring
}.

(** [ValueFrom] with the names of its references. *)
Record EnvVarSource := mkEnvSource {
  ConfigMapKeyRef : option gostring;
  SecretKeyRef : option gostring
}.

Record EnvFromSource := mkEnvFrom {
  ConfigMapRef : option gostring;
  SecretRef : option gostring
}.

Record Container := mkContainer {
  ct_Name : gostring;
  ct_Env : list (option EnvVarSource);
  ct_EnvFrom : list EnvFromSource;
  ct_VolumeMounts : list VolumeMount;
  ct_rest : gostring
}.

Record PodSpec := mkPodSpec {
  InitContainers : list Container;
  Containers : list Container;
  Volumes : list Volume;
  ImagePullSecrets : list gostring;
  ps_rest : gostring
}.

Record DeploymentBody := mkDeployment {
  d_Labels : option (gmap gostring gostring);
  d_Pod : PodSpec;
  d_Status : gostring;
  d_rest : gostring
}.

Record ServiceBody := mkService {
  s_Selector : option (gmap gostring gostring);
  s_ClusterIP : gostring;
  s_ClusterIPs : list gostring;
  s_Ports : list (Z * gostring);
  s_Status : gostring;
  s_rest : gostring
}.

(** Istio's routes: a header is matched exactly, by prefix or by expression; a
    destination is its host. *)
Inductive StringMatch :=
  | Exact (value : gostring)
  | Prefix (value : gostring)
  | Regex (value : gostring).

Record HTTPMatchRequest := mkMatch {
  mr_Name : gostring;
  mr_Headers : gmap gostring StringMatch;
  mr_rest : gostring
}.

Record HTTPRoute := mkRoute {
  hr_Name : gostring;
  hr_Match : list HTTPMatchRequest;
  hr_Route : list gostring;
  hr_rest : gostring
}.

Record VirtualServiceBody := mkVirtualService {
  vs_Hosts : list gostring;
  vs_Http : list HTTPRoute;
  vs_Tcp : list (list gostring);
  vs_rest : gostring
}.

Inductive Body :=
  | IsDeployment (d : DeploymentBody)
  | IsService (s : ServiceBody)
  | IsVirtualService (v : VirtualServiceBody)
  | IsSecret (type : option gostring) (rest : gostring)
  | IsOther (rest : gostring).

Record Object := mkObject {
  o_Kind : gostring;
  o_Name : gostring;
  o_Namespace : gostring;
  o_Labels : option (gmap gostring gostring);
  o_Annotations : option (gmap gostring gostring);
  o_Server : ServerMeta;
  o_Body : Body
}.

#[export] Instance StringMatch_eq_dec : EqDecision StringMatch.
Proof. solve_decision. Defined.
#[export] Instance HTTPMatchRequest_eq_dec : EqDecision HTTPMatchRequest.
Proof. solve_decision. Defined.
#[export] Instance HTTPRoute_eq_dec : EqDecision HTTPRoute.
Proof. solve_decision. Defined.

Definition with_body (o : Object) (b : Body) : Object :=
  mkObject (o_Kind o) (o_Name o) (o_Namespace o) (o_Labels o) (o_Annotations o) (o_Server o) b.

(** [m[k]] of a Go map of strings. *)
Definition get (m : gmap gostring gostring) (k : gostring) : gostring := default [] (m !! k).

(** ** Errors and results *)

Inductive mesh_error :=
  | ErrConvert
  | ErrNoHeader
  | ErrConflict
  | ErrServer
  | ErrCacheMiss
  | ErrWaitTimeout.

(** [FromUnstructured] into a typed object: the body must be one of its kind. *)
Definition as_deployment (o : Object) : res mesh_error DeploymentBody :=
  match o_Body o with IsDeployment d => Ok d | _ => Err ErrConvert end.

Definition as_service (o : Object) : res mesh_error ServiceBody :=
  match o_Body o with IsService s => Ok s | _ => Err ErrConvert end.

Definition as_virtual_service (o : Object) : res mesh_error VirtualServiceBody :=
  match o_Body o with IsVirtualService v => Ok v | _ => Err ErrConvert end.

(** ** Listings ([mesh_manager_cache.go]) *)

Definition resourcesFilter (rs : list Object) (f : Object -> bool) : list Object :=
  filter (fun r => f r = true) rs.

Definition app_of (a : gmap gostring gostring) : list gostring :=
  if bool_decide (get a NocalhostApplicationName <> []) then [get a NocalhostApplicationName]
  else if bool_decide (get a ReleaseNameAnnotation <> []) then [get a ReleaseNameAnnotation]
  else [].

Definition index_key (ns name : gostring) : gostring := ns ++ slash ++ name.

Definition IndexByAppName (r : Object) : list gostring :=
  match o_Annotations r with
  | None => []
  | Some annot => if bool_decide (annot = ∅) then [] else index_key (o_Namespace r) <$> app_of annot
  end.

Definition IndexAppConfig (r : Object) : list gostring :=
  if bool_decide (o_Kind r <> Secret) then []
  else if negb (HasPrefix (o_Name r) SecretNamePrefix) then []
  else match o_Body r with
       | IsSecret (Some type) _ => if bool_decide (type <> SecretType) then [] else [o_Namespace r]
       | _ => []
       end.

(** [ByIndex]: the objects that have the value among those of the index. *)
Definition ByIndex (index : Object -> list gostring) (value : gostring) (rs : list Object) : list Object :=
  resourcesFilter rs (fun r => bool_decide (value ∈ index r)).

(** [labels.Set(m).AsSelector().Matches(labels.Set(ls))]: an empty set selects
    everything. *)
Definition selects (m ls : option (gmap gostring gostring)) : bool := bool_decide (default ∅ m ⊆ default ∅ ls).

Definition selector_of (r : Object) : option (gmap gostring gostring) :=
  match o_Body r with IsService s => s_Selector s | _ => None end.

Definition pod_labels (r : Object) : option (gmap gostring gostring) :=
  match o_Body r with IsDeployment d => d_Labels d | _ => None end.

Definition hosts_of (r : Object) : list gostring :=
  match o_Body r with IsVirtualService v => vs_Hosts v | _ => [] end.

Definition match_services (r : Object) (services : list Object) : list Object :=
  resourcesFilter services (fun s => selects (selector_of s) (pod_labels r)).

Definition svc_host (name ns : gostring) : gostring :=
  Join [name; ns; go "svc"; DefaultClusterDomain] (go ".").

(** The names under which the services can be meant. *)
Definition service_hosts (services : list Object) : gmap gostring gostring :=
  foldl (fun m s => <[svc_host (o_Name s) (o_Namespace s) := o_Name s]> (<[o_Name s := o_Name s]> m)) ∅ services.

Definition add_host (smap : gmap gostring gostring) (v : Object) (vmap : gmap gostring (list Object)) (host : gostring)
    : gmap gostring (list Object) :=
  match smap !! host with
  | None => vmap
  | Some svc => match vmap !! svc with
                | Some l => <[svc := l ++ [v]]> vmap
                | None => <[svc := [v]]> vmap
                end
  end.

Definition match_virtual_services (services vs : list Object) : gmap gostring (list Object) :=
  let smap := service_hosts services in
  foldl (fun vmap v => foldl (add_host smap v) vmap (hosts_of v)) ∅ vs.

(** The matcher: its methods change the list in place and return it. *)
Definition by_kind (kind : gostring) (rs : list Object) : list Object :=
  resourcesFilter rs (fun r => bool_decide (o_Kind r = kind)).

Definition named_app (p : gostring -> bool) (r : Object) : bool :=
  match o_Annotations r with
  | None => false
  | Some a => p (get a NocalhostApplicationName) || p (get a ReleaseNameAnnotation)
  end.

Definition by_app (appName : gostring) (rs : list Object) : list Object :=
  resourcesFilter rs (named_app (fun n => bool_decide (n = appName))).

Definition excludeApp (appName : gostring) (rs : list Object) : list Object :=
  resourcesFilter rs (fun r => negb (named_app (fun n => bool_decide (n = appName)) r)).

Definition app_set (appNames : list gostring) : gset gostring :=
  foldl (fun am n => if bool_decide (n <> []) then {[n]} ∪ am else am) ∅ appNames.

Definition by_apps (appNames : list gostring) (rs : list Object) : list Object :=
  resourcesFilter rs (named_app (fun n => bool_decide (n ∈ app_set appNames))).

Definition excludeApps (appNames : list gostring) (rs : list Object) : list Object :=
  resourcesFilter rs (fun r => negb (named_app (fun n => bool_decide (n ∈ app_set appNames)) r)).

Definition by_name (name : gostring) (rs : list Object) : list Object :=
  resourcesFilter rs (fun r => bool_decide (o_Name r = name)).

Definition by_namePrefix (prefix : gostring) (rs : list Object) : list Object :=
  resourcesFilter rs (fun r => HasPrefix (o_Name r) prefix).

Definition name_set (names : list gostring) : gset gostring := foldl (fun nm n => {[n]} ∪ nm) ∅ names.

Definition by_names (names : list gostring) (rs : list Object) : list Object :=
  resourcesFilter rs (fun r => bool_decide (o_Name r ∈ name_set names)).

(** *** The informer factories

    They are kept per namespace in an LRU of twelve; the callback of an eviction
    closes the factory's channel, which stops its informers.  A factory is a
    number; those whose channel is open run. *)
Definition defaultLRUSize : nat := 12.
Definition ClusterInformerFactory : gostring := go "ClusterInformerFactory".

Record Factories := mkFactories {
  f_lru : list (gostring * nat);
  f_running : gset nat;
  f_next : nat
}.

Definition f_close (f : nat) (c : Factories) : Factories := mkFactories (f_lru c) (f_running c ∖ {[f]}) (f_next c).

(** [lru.Add]: a value under an existing key is replaced without a callback. *)
Definition f_add (key : gostring) (f : nat) (c : Factories) : Factories :=
  match lru_find key (f_lru c) with
  | Some _ => mkFactories ((key, f) :: lru_delete key (f_lru c)) (f_running c) (f_next c)
  | None =>
      let m := (key, f) :: f_lru c in
      if defaultLRUSize <? length m then
        let c := mkFactories (take (length m - 1) m) (f_running c) (f_next c) in
        match last m with Some (_, old) => f_close old c | None => c end
      else mkFactories m (f_running c) (f_next c)
  end.

Definition getInformerFactory (ns : gostring) (c : Factories) : Factories * nat :=
  match lru_get ns (f_lru c) with
  | (m, Some f) => (mkFactories m (f_running c) (f_next c), f)
  | (m, None) =>
      let f := f_next c in
      let c := mkFactories m ({[f]} ∪ f_running c) (S f) in
      (f_add (if bool_decide (ns = []) then ClusterInformerFactory else ns) f c, f)
  end.

(** The informer of all namespaces is asked for with the empty name. *)
Definition NamespaceInformer (c : Factories) : Factories * nat := getInformerFactory [] c.

(** [cache.close]: [Purge] runs the callback on every entry. *)
Definition close_cache (c : Factories) : Factories :=
  mkFactories [] (foldl (fun r kf => r ∖ {[snd kf]}) (f_running c) (f_lru c)) (f_next c).

Definition no_factories : Factories := mkFactories [] ∅ 0.

(** ** Changes made to objects ([mesh_manager_modify.go]) *)

(** The loop [for i := 0; i < len(l); i++ { if p(l[i]) { l = l[:i+copy(l[i:],
    l[i+1:])]; i-- } }], which removes elements while it runs. *)
Fixpoint remove_loop {A : Type} (p : A -> bool) (fuel i : nat) (l : list A) : option (list A) :=
  match fuel with
  | 0 => None
  | S fuel =>
      match l !! i with
      | None => Some l
      | Some x => if p x then remove_loop p fuel i (take i l ++ drop (S i) l) else remove_loop p fuel (S i) l
      end
  end.

Definition remove_where {A : Type} (p : A -> bool) (l : list A) : list A :=
  default l (remove_loop p (S (length l)) 0 l).

Record MeshDevWorkload := mkWorkload {
  w_Kind : gostring;
  w_Name : gostring;
  w_Status : Z
}.

Definition NotInstalled : Z := 0.
Definition ShouldBeInstalled : Z := 1.
Definition Installed : Z := 2.
Definition ShouldBeDeleted : Z := 3.
Definition Unselected : Z := NotInstalled.
Definition Selected : Z := ShouldBeInstalled.

Definition dependency (kind name : gostring) : MeshDevWorkload := mkWorkload kind name Selected.

Definition resetModifier (o : Object) : Object :=
  mkObject (o_Kind o) (o_Name o) (o_Namespace o) (o_Labels o) (o_Annotations o) no_server_meta (o_Body o).

Definition Revision : gostring := go "deployment.kubernetes.io/revision".
Definition LastAppliedConfiguration : gostring := go "kubectl.kubernetes.io/last-applied-configuration".
Definition Leader : gostring := go "control-plane.alpha.kubernetes.io/leader".

Definition drop_annotations (a : gmap gostring gostring) : gmap gostring gostring :=
  delete Leader (delete LastAppliedConfiguration (delete Revision a)).

Definition moved_annotations (ns : gostring) (a : gmap gostring gostring) : gmap gostring gostring :=
  let a := if bool_decide (get a NocalhostApplicationNamespace <> []) then <[NocalhostApplicationNamespace := ns]> a else a in
  let a := if bool_decide (get a ReleaseNameAnnotation <> []) then <[ReleaseNameAnnotation := ns]> a else a in
  drop_annotations a.

Definition commonModifier (ns : gostring) (rs : Object) : Object :=
  let rs := resetModifier rs in
  mkObject (o_Kind rs) (o_Name rs) ns (o_Labels rs) (moved_annotations ns <$> o_Annotations rs) (o_Server rs) (o_Body rs).

Definition waits (c : Container) : bool :=
  HasPrefix (ct_Name c) (go "wait-for-pods-") || HasPrefix (ct_Name c) (go "wait-for-jobs-") ||
  HasPrefix (ct_Name c) (go "nocalhost-dependency-waiting-job").

Definition initContainersModifier (spec : PodSpec) : PodSpec :=
  mkPodSpec (remove_where waits (InitContainers spec)) (Containers spec) (Volumes spec) (ImagePullSecrets spec) (ps_rest spec).

(** The loop over the volumes: those that are kept, the dependencies, and the
    names of those that are dropped. *)
Definition volume_dependency (v : Volume) : list MeshDevWorkload :=
  match v_Source v with
  | ConfigMapSource name => [dependency ConfigMap name]
  | SecretSource name => [dependency Secret name]
  | _ => []
  end.

Definition copied (v : Volume) : bool := match v_Source v with OtherSource _ => false | _ => true end.

Definition without_mounts (dropped : gset gostring) (c : Container) : Container :=
  mkContainer (ct_Name c) (ct_Env c) (ct_EnvFrom c)
    (remove_where (fun m => bool_decide (m_Name m ∈ dropped)) (ct_VolumeMounts c)) (ct_rest c).

Definition volumeModifier (spec : PodSpec) : PodSpec * list MeshDevWorkload :=
  let dependencies := Volumes spec ≫= volume_dependency in
  let delVolumeMounts := list_to_set (v_Name <$> filter (fun v => copied v = false) (Volumes spec)) in
  (mkPodSpec (without_mounts delVolumeMounts <$> InitContainers spec) (without_mounts delVolumeMounts <$> Containers spec)
     (remove_where (fun v => negb (copied v)) (Volumes spec)) (ImagePullSecrets spec) (ps_rest spec),
   dependencies).

Definition getImagePullSecretDependency (spec : PodSpec) : list MeshDevWorkload :=
  dependency Secret <$> filter (fun n => n <> []) (ImagePullSecrets spec).

Definition refs (configMap secret : option gostring) : list MeshDevWorkload :=
  match configMap with Some n => [dependency ConfigMap n] | None => [] end ++
  match secret with Some n => [dependency Secret n] | None => [] end.

Definition getEnvDependencyFromContainer (c : Container) : list MeshDevWorkload :=
  (ct_Env c ≫= fun e => match e with Some s => refs (ConfigMapKeyRef s) (SecretKeyRef s) | None => [] end) ++
  (ct_EnvFrom c ≫= fun e => refs (ConfigMapRef e) (SecretRef e)).

Definition getEnvDependency (spec : PodSpec) : list MeshDevWorkload :=
  (Containers spec ≫= getEnvDependencyFromContainer) ++ (InitContainers spec ≫= getEnvDependencyFromContainer).

Definition podDependencyModifier (spec : PodSpec) : PodSpec * list MeshDevWorkload :=
  let spec := initContainersModifier spec in
  let '(spec, dependencies) := volumeModifier spec in
  (spec, (dependencies ++ getEnvDependency spec) ++ getImagePullSecretDependency spec).

Definition deploymentModifier (rs : Object) : res mesh_error (Object * list MeshDevWorkload) :=
  d <-! as_deployment rs;
  let '(spec, dependencies) := podDependencyModifier (d_Pod d) in
  Ok (with_body rs (IsDeployment (mkDeployment (d_Labels d) spec [] (d_rest d))), dependencies).

Definition serviceModifier (rs : Object) : res mesh_error Object :=
  s <-! as_service rs;
  Ok (with_body rs (IsService (mkService (s_Selector s) [] [] ((fun p => (0%Z, snd p)) <$> s_Ports s) [] (s_rest s)))).

Definition meshDevModifier (ns : gostring) (r : Object) : res mesh_error (Object * list MeshDevWorkload) :=
  rd <-! (if bool_decide (o_Kind r = Deployment) then deploymentModifier r
          else if bool_decide (o_Kind r = Service) then r <-! serviceModifier r; Ok (r, [])
          else Ok (r, []));
  Ok (commonModifier ns (fst rd), snd rd).

(** *** Virtual services *)

Record Header := mkHeader {
  TraceKey : gostring;
  TraceValue : gostring;
  TraceType : gostring
}.

Record MeshDevApp := mkApp {
  a_Name : gostring;
  a_Workloads : list MeshDevWorkload
}.

Record MeshDevInfo := mkInfo {
  BaseNamespace : gostring;
  MeshDevNamespace : gostring;
  IsUpdateHeader : bool;
  i_Header : Header;
  Apps : list MeshDevApp;
  ReCreate : bool;
  i_install : list Object;
  i_delete : list Object;
  i_rollback_add : gmap gostring HTTPRoute;
  i_rollback_update : gmap gostring (list HTTPRoute)
}.

(** Labels and annotations are assigned to: a nil map panics. *)
Definition genVirtualServiceForMeshDevSpace (baseNs : gostring) (r : Object) : outcome Object :=
  match o_Labels r with
  | None => Panic
  | Some labels =>
      match o_Annotations r with
      | None => Panic
      | Some annotations =>
          let host := svc_host (o_Name r) baseNs in
          Done (mkObject VirtualService (o_Name r) (o_Namespace r)
            (Some (<[NocalhostCreateByLabel := NocalhostName]> labels))
            (Some (<[AppManagedByLabel := AppManagedByNocalhost]> (drop_annotations annotations)))
            no_server_meta
            (IsVirtualService (mkVirtualService [o_Name r] [mkRoute [] [] [host] []] [[host]] [])))
      end
  end.

Definition route_name (devNs : gostring) : gostring := NocalhostName ++ go "-" ++ devNs.
Definition match_name (devNs : gostring) : gostring := route_name devNs ++ go "-" ++ go "tracing-header".

Definition header_match (devNs : gostring) (h : Header) : HTTPMatchRequest :=
  mkMatch (match_name devNs) {[TraceKey h := Exact (TraceValue h)]} [].

Definition header_route (name devNs : gostring) (h : Header) : HTTPRoute :=
  mkRoute (route_name devNs) [header_match devNs h] [svc_host name devNs] [].

Definition no_header (h : Header) : bool := bool_decide (TraceKey h = []) || bool_decide (TraceValue h = []).

Definition created_by : gmap gostring gostring :=
  {[AppManagedByLabel := AppManagedByNocalhost; NocalhostCreateByLabel := NocalhostName]}.

Definition genVirtualServiceForBaseDevSpace (baseNs devNs name : gostring) (h : Header)
    : res mesh_error (Object * HTTPRoute) :=
  if no_header h then Err ErrNoHeader
  else
    let http := header_route name devNs h in
    Ok (mkObject VirtualService name baseNs (Some created_by) (Some created_by) no_server_meta
          (IsVirtualService (mkVirtualService [name] [http; mkRoute [] [] [svc_host name baseNs] []] [] [])),
        http).

Definition no_managed_fields (m : ServerMeta) : ServerMeta :=
  mkServerMeta (sm_GenerateName m) (sm_SelfLink m) (sm_UID m) (sm_ResourceVersion m) (sm_Generation m)
    (sm_DeletionGracePeriodSeconds m) (sm_OwnerReferences m) (sm_Finalizers m) [].

Definition with_routes (o : Object) (v : VirtualServiceBody) (routes : list HTTPRoute) : Object :=
  mkObject (o_Kind o) (o_Name o) (o_Namespace o) (o_Labels o) (o_Annotations o) (no_managed_fields (o_Server o))
    (IsVirtualService (mkVirtualService (vs_Hosts v) routes (vs_Tcp v) (vs_rest v))).

Definition named (name : gostring) (r : HTTPRoute) : bool := bool_decide (hr_Name r = name).

(** Without a header the code only logs and goes on. *)
Definition addHeaderToVirtualService (rs : Object) (svcName : gostring) (info : MeshDevInfo)
    : res mesh_error (Object * HTTPRoute) :=
  v <-! as_virtual_service rs;
  let http := header_route svcName (MeshDevNamespace info) (i_Header info) in
  Ok (with_routes rs v (http :: remove_where (named svcName) (vs_Http v)), http).

Definition deleteHeaderFromVirtualService (rs : Object) (info : MeshDevInfo) : res mesh_error (Object * bool) :=
  v <-! as_virtual_service rs;
  let name := route_name (MeshDevNamespace info) in
  Ok (with_routes rs v (remove_where (named name) (vs_Http v)), existsb (named name) (vs_Http v)).

Definition exact_value (m : StringMatch) : gostring := match m with Exact v => v | _ => [] end.

(** Whether the match is of this developer and has another header. *)
Definition outdated (devNs : gostring) (h : Header) (m : HTTPMatchRequest) : bool :=
  bool_decide (mr_Name m = match_name devNs) &&
  match mr_Headers m !! TraceKey h with
  | None => true
  | Some value => bool_decide (exact_value value <> TraceValue h)
  end.

Definition update_route (devNs : gostring) (h : Header) (r : HTTPRoute) : HTTPRoute :=
  if named (route_name devNs) r then
    mkRoute (hr_Name r) ((fun m => if outdated devNs h m then header_match devNs h else m) <$> hr_Match r)
      (hr_Route r) (hr_rest r)
  else r.

(** The routes as they were, and whether one was changed. *)
Definition updateHeaderToVirtualService (rs : Object) (info : MeshDevInfo)
    : res mesh_error (Object * list HTTPRoute * bool) :=
  v <-! as_virtual_service rs;
  let devNs := MeshDevNamespace info in
  let mine := filter (fun r => named (route_name devNs) r = true) (vs_Http v) in
  Ok (with_routes rs v (update_route devNs (i_Header info) <$> vs_Http v), mine,
      existsb (fun r => existsb (outdated devNs (i_Header info)) (hr_Match r)) mine).

(** ** Programs

    What the manager does is a tree of calls: reads of the informers' listings,
    applies and deletions at the API server, and pauses between attempts.  A call
    is answered by the surroundings, which may change between any two calls. *)

Inductive call :=
  | CList (kind ns : gostring)
  | CGet (kind ns name : gostring)
  | CApply (force : bool) (o : Object)
  | CDelete (o : Object)
  | CSleep.

Definition answer (c : call) : Type :=
  match c with
  | CList _ _ => list Object
  | CGet _ _ _ => option Object
  | CApply _ _ | CDelete _ => option mesh_error
  | CSleep => unit
  end.

Inductive prog (A : Type) :=
  | Ret (a : A)
  | Crash
  | Call (c : call) (k : answer c -> prog A).
Arguments Ret {A} a.
Arguments Crash {A}.
Arguments Call {A} c k.

Fixpoint bind {A B : Type} (p : prog A) (f : A -> prog B) : prog B :=
  match p with
  | Ret a => f a
  | Crash => Crash
  | Call c k => Call c (fun x => bind (k x) f)
  end.

Notation "x <-* p ; q" := (bind p (fun x => q)) (at level 100, p at next level, right associativity) : go_scope.

Definition res_bind {A B : Type} (p : prog (res mesh_error A)) (f : A -> prog (res mesh_error B))
    : prog (res mesh_error B) :=
  bind p (fun r => match r with Ok a => f a | Err e => Ret (Err e) end).

Notation "x <-% p ; q" := (res_bind p (fun x => q)) (at level 100, p at next level, right associativity) : go_scope.

Definition list_of (kind ns : gostring) : prog (list Object) := Call (CList kind ns) Ret.

Definition checked (c : option mesh_error) : res mesh_error unit := match c with Some e => Err e | None => Ok tt end.

Definition apply (force : bool) (o : Object) : prog (res mesh_error unit) :=
  Call (CApply force o) (fun r => Ret (checked r)).
Definition ApplyForce : Object -> prog (res mesh_error unit) := apply true.
Definition Apply : Object -> prog (res mesh_error unit) := apply false.
Definition Delete (o : Object) : prog (res mesh_error unit) := Call (CDelete o) (fun r => Ret (checked r)).

(** An error is logged. *)
Definition logged (p : prog (res mesh_error unit)) : prog (res mesh_error unit) := _ <-* p; Ret (Ok tt).

(** A loop whose body may return an error. *)
Fixpoint each {A : Type} (f : A -> prog (res mesh_error unit)) (l : list A) : prog (res mesh_error unit) :=
  match l with
  | [] => Ret (Ok tt)
  | x :: l => _ <-% f x; each f l
  end.

(** The same with variables the body assigns. *)
Fixpoint loop {S A R : Type} (f : S -> A -> prog (S * option R)) (s : S) (l : list A) : prog (S * option R) :=
  match l with
  | [] => Ret (s, None)
  | x :: l =>
      sr <-* f s x;
      match sr with
      | (s, None) => loop f s l
      | (s, Some r) => Ret (s, Some r)
      end
  end.

(** [wait.Poll] with the number of times the condition is tried before the
    timeout. *)
Fixpoint poll {S : Type} (tries : nat) (cond : S -> prog (S * res mesh_error bool)) (s : S)
    : prog (S * res mesh_error unit) :=
  match tries with
  | 0 => Ret (s, Err ErrWaitTimeout)
  | S tries =>
      Call CSleep (fun _ =>
        sr <-* cond s;
        match sr with
        | (s, Err e) => Ret (s, Err e)
        | (s, Ok true) => Ret (s, Ok tt)
        | (s, Ok false) => poll tries cond s
        end)
  end.

(** Two goroutines.  The schedule says which of the two makes the next call. *)
Fixpoint par {A B : Type} (p : prog A) : prog B -> (nat -> bool) -> prog (A * B) :=
  fix par_q (q : prog B) (s : nat -> bool) : prog (A * B) :=
    match p, q with
    | Crash, _ => Crash
    | _, Crash => Crash
    | Ret a, q => b <-* q; Ret (a, b)
    | p, Ret b => a <-* p; Ret (a, b)
    | Call c k, Call d h =>
        if s 0 then Call c (fun x => par (k x) q (fun n => s (S n)))
        else Call d (fun y => par_q (h y) (fun n => s (S n)))
    end.

(** [errgroup.Wait]: the first error; which of two came first is left open. *)
Definition first_error (r1 r2 : res mesh_error unit) (first : bool) : res mesh_error unit :=
  match r1, r2 with
  | Err e1, Err e2 => Err (if first then e1 else e2)
  | Err e, Ok _ | Ok _, Err e => Err e
  | Ok _, Ok _ => Ok tt
  end.

(** The first decision of the schedule is about the error. *)
Definition wait2 (p q : prog (res mesh_error unit)) (s : nat -> bool) : prog (res mesh_error unit) :=
  r <-* par p q (fun n => s (S n));
  Ret (first_error (fst r) (snd r) (s 0)).

Section manager.
Context `{!MapOrder gostring}.

(** How often [wait.Poll] tries within a timeout, given in milliseconds. *)
Context (tries : Z -> Z -> nat).

(** *** Queries *)

Definition GetListByKindAndNamespace (kind ns : gostring) : prog (list Object) :=
  if bool_decide (kind ∈ [Deployment; Secret; ConfigMap; Service; VirtualService]) then list_of kind ns else Ret [].

Definition GetDeploymentsListByNamespaceAndAppName (ns appName : gostring) : prog (list Object) :=
  l <-* list_of Deployment ns; Ret (ByIndex IndexByAppName (index_key ns appName) l).

Definition GetAppConfigByNamespace (ns : gostring) : prog (list Object) :=
  l <-* list_of Secret ns; Ret (ByIndex IndexAppConfig ns l).

Definition NamespaceLabels : gmap gostring gostring :=
  {[go "istio-injection" := go "enabled"; go "nocalhost.dev/devspace" := go "base"]}.

Definition GetMeshNamespaceNames : prog (list gostring) :=
  ns <-* list_of (go "Namespace") [];
  Ret (o_Name <$> resourcesFilter ns (fun r => selects (Some NamespaceLabels) (o_Labels r))).

Definition MatchServicesByWorkload (r : Object) : prog (list Object) :=
  if bool_decide (o_Namespace r = []) then Ret []
  else services <-* list_of Service (o_Namespace r); Ret (match_services r services).

Definition MatchVirtualServiceByWorkload (r : Object) : prog (gmap gostring (list Object)) :=
  if bool_decide (o_Namespace r = []) then Ret ∅
  else
    services <-* MatchServicesByWorkload r;
    vs <-* list_of VirtualService (o_Namespace r);
    Ret (match_virtual_services services vs).

Definition workload_key (kind name : gostring) : gostring := kind ++ slash ++ name.

Definition workload_of (status : Z) (r : Object) : MeshDevWorkload := mkWorkload (o_Kind r) (o_Name r) status.

(** The name is what follows the prefix; the index only has secrets with it. *)
Definition config_app (c : Object) : gostring := drop (length SecretNamePrefix) (o_Name c).

Fixpoint apps_of_configs (ns : gostring) (configs : list Object) : prog (list MeshDevApp) :=
  match configs with
  | [] => Ret []
  | c :: configs =>
      if bool_decide (config_app c = DefaultNocalhostApplication) then apps_of_configs ns configs
      else
        rs <-* GetDeploymentsListByNamespaceAndAppName ns (config_app c);
        apps <-* apps_of_configs ns configs;
        Ret (mkApp (config_app c) (workload_of NotInstalled <$> rs) :: apps)
  end.

Definition GetBaseDevSpaceAppInfo (info : MeshDevInfo) : prog (list MeshDevApp) :=
  configs <-* GetAppConfigByNamespace (BaseNamespace info);
  apps <-* apps_of_configs (BaseNamespace info) configs;
  rs <-* list_of Deployment (BaseNamespace info);
  Ret (apps ++ [mkApp DefaultNocalhostApplication (workload_of NotInstalled <$> excludeApps (a_Name <$> apps) rs)]).

Definition set_status (w : MeshDevWorkload) (status : Z) : MeshDevWorkload := mkWorkload (w_Kind w) (w_Name w) status.

Definition w_key (w : MeshDevWorkload) : gostring := workload_key (w_Kind w) (w_Name w).
Definition o_key (r : Object) : gostring := workload_key (o_Kind r) (o_Name r).

Definition map_workloads (f : MeshDevWorkload -> MeshDevWorkload) (apps : list MeshDevApp) : list MeshDevApp :=
  (fun a => mkApp (a_Name a) (f <$> a_Workloads a)) <$> apps.

Definition key_set (rs : list Object) : gset gostring := foldl (fun s r => {[o_key r]} ∪ s) ∅ rs.

Definition GetAPPInfo (info : MeshDevInfo) : prog (list MeshDevApp) :=
  dev <-* list_of Deployment (MeshDevNamespace info);
  apps <-* GetBaseDevSpaceAppInfo info;
  Ret (map_workloads (fun w => if bool_decide (w_key w ∈ key_set dev) then set_status w Selected else w) apps).

(** *** What is to be done with each workload *)

Definition with_apps (info : MeshDevInfo) (apps : list MeshDevApp) : MeshDevInfo :=
  mkInfo (BaseNamespace info) (MeshDevNamespace info) (IsUpdateHeader info) (i_Header info) apps (ReCreate info)
    (i_install info) (i_delete info) (i_rollback_add info) (i_rollback_update info).

Definition with_resources (info : MeshDevInfo) (install del : list Object) : MeshDevInfo :=
  mkInfo (BaseNamespace info) (MeshDevNamespace info) (IsUpdateHeader info) (i_Header info) (Apps info) (ReCreate info)
    install del (i_rollback_add info) (i_rollback_update info).

Definition with_rollback (info : MeshDevInfo) (add : gmap gostring HTTPRoute) (update : gmap gostring (list HTTPRoute))
    : MeshDevInfo :=
  mkInfo (BaseNamespace info) (MeshDevNamespace info) (IsUpdateHeader info) (i_Header info) (Apps info) (ReCreate info)
    (i_install info) (i_delete info) add update.

Definition getMeshDevSpaceWorkloads (info : MeshDevInfo) : prog (list MeshDevWorkload) :=
  rs <-* list_of Deployment (MeshDevNamespace info); Ret (workload_of Installed <$> rs).

Definition workload_map (ws : list MeshDevWorkload) : gmap gostring MeshDevWorkload :=
  foldl (fun m w => <[w_key w := w]> m) ∅ ws.

(** The status of an unknown workload is the zero value. *)
Definition status_in (m : gmap gostring MeshDevWorkload) (key : gostring) : Z :=
  match m !! key with Some w => w_Status w | None => NotInstalled end.

Definition new_status (devMap : gmap gostring MeshDevWorkload) (w : MeshDevWorkload) : MeshDevWorkload :=
  let there := bool_decide (status_in devMap (w_key w) = Installed) in
  if bool_decide (w_Status w = Selected) && there then set_status w Installed
  else if bool_decide (w_Status w = Unselected) && there then set_status w ShouldBeDeleted
  else w.

Definition setWorkloadStatus (info : MeshDevInfo) : prog MeshDevInfo :=
  devWs <-* getMeshDevSpaceWorkloads info;
  Ret (with_apps info (map_workloads (new_status (workload_map devWs)) (Apps info))).

Definition status_map (apps : list MeshDevApp) : gmap gostring Z :=
  foldl (fun m w => <[w_key w := w_Status w]> m) ∅ (apps ≫= a_Workloads).

Definition tagged (apps : list MeshDevApp) (status : Z) (r : Object) : bool :=
  bool_decide (default NotInstalled (status_map apps !! o_key r) = status).

Definition tagResources (info : MeshDevInfo) : prog MeshDevInfo :=
  rs <-* list_of Deployment (BaseNamespace info);
  Ret (with_resources info
         (resourcesFilter rs (tagged (Apps info) ShouldBeInstalled))
         (resourcesFilter rs (tagged (Apps info) ShouldBeDeleted))).

(** *** Workloads *)

Definition group_names (dependencies : list MeshDevWorkload) : gmap gostring (list gostring) :=
  foldl (fun wm d => <[w_Kind d := default [] (wm !! w_Kind d) ++ [w_Name d]]> wm) ∅ dependencies.

Fixpoint dependency_objects (baseNs : gostring) (wm : list (gostring * list gostring)) : prog (list Object) :=
  match wm with
  | [] => Ret []
  | (kind, names) :: wm =>
      rs <-* GetListByKindAndNamespace kind baseNs;
      more <-* dependency_objects baseNs wm;
      Ret (by_names names rs ++ more)
  end.

Definition applyDependencyToMeshDevSpace (dependencies : list MeshDevWorkload) (info : MeshDevInfo)
    : prog (res mesh_error unit) :=
  rs <-* dependency_objects (BaseNamespace info) (range (group_names dependencies));
  each (fun r => ApplyForce (commonModifier (MeshDevNamespace info) r)) rs.

Definition applyWorkload (info : MeshDevInfo) (r : Object) : prog (res mesh_error unit) :=
  rd <-% Ret (meshDevModifier (MeshDevNamespace info) r);
  let '(r, dependencies) := rd in
  _ <-% applyDependencyToMeshDevSpace dependencies info;
  _ <-% ApplyForce r;
  vmap <-* MatchVirtualServiceByWorkload r;
  each (fun v => logged (Delete v)) (concat (range vmap).*2).

Definition applyWorkloadsToMeshDevSpace (info : MeshDevInfo) : prog (res mesh_error unit) :=
  each (applyWorkload info) (i_install info).

Definition of_outcome {A : Type} (o : outcome A) : prog A :=
  match o with Done a => Ret a | _ => Crash end.

(** A workload that cannot be deleted is logged and left. *)
Definition deleteWorkload (info : MeshDevInfo) (r : Object) : prog (res mesh_error unit) :=
  let r := commonModifier (MeshDevNamespace info) r in
  d <-* Delete r;
  match d with
  | Err _ => Ret (Ok tt)
  | Ok _ => vs <-* of_outcome (genVirtualServiceForMeshDevSpace (BaseNamespace info) r); ApplyForce vs
  end.

Definition deleteWorkloadsFromMeshDevSpace (info : MeshDevInfo) : prog (res mesh_error unit) :=
  each (deleteWorkload info) (i_delete info).

(** *** Headers *)

(** The loop variable is one variable: what is appended for every virtual service
    that had the header is its address, so that once the loop has ended all are
    the last value it had. *)
Fixpoint delete_headers (info : MeshDevInfo) (n : nat) (v : option Object) (vs : list Object)
    : res mesh_error (nat * option Object) :=
  match vs with
  | [] => Ok (n, v)
  | x :: vs =>
      vb <-! deleteHeaderFromVirtualService x info;
      delete_headers info (if (snd vb : bool) then S n else n) (Some (fst vb)) vs
  end.

Definition header_vs (info : MeshDevInfo) (r : Object) : prog (res mesh_error (list Object)) :=
  origVsMap <-* MatchVirtualServiceByWorkload r;
  Ret (nv <-! delete_headers info 0 None (concat (range origVsMap).*2);
       Ok (match snd nv with Some v => replicate (fst nv) v | None => [] end)).

Fixpoint header_vs_all (info : MeshDevInfo) (rs : list Object) : prog (res mesh_error (list Object)) :=
  match rs with
  | [] => Ret (Ok [])
  | r :: rs =>
      vs <-% header_vs info r;
      more <-% header_vs_all info rs;
      Ret (Ok (vs ++ more))
  end.

Definition m_deleteHeaderFromVirtualService (info : MeshDevInfo) : prog (res mesh_error unit) :=
  vs <-% header_vs_all info (i_delete info);
  each Apply vs.

(** One attempt: a conflict ends it without success. *)
Definition add_one (info : MeshDevInfo) (svcName : gostring) (add : gmap gostring HTTPRoute) (v : Object)
    : prog (gmap gostring HTTPRoute * option (res mesh_error bool)) :=
  match addHeaderToVirtualService v svcName info with
  | Err e => Ret (add, Some (Err e))
  | Ok (v, route) =>
      r <-* ApplyForce v;
      match r with
      | Err ErrConflict => Ret (add, Some (Ok false))
      | Err e => Ret (add, Some (Err e))
      | Ok _ => Ret (<[o_Name v := route]> add, None)
      end
  end.

Definition add_attempt (info : MeshDevInfo) (r : Object) (s : bool * gmap gostring HTTPRoute)
    : prog (bool * gmap gostring HTTPRoute * res mesh_error bool) :=
  origVsMap <-* MatchVirtualServiceByWorkload r;
  if bool_decide (origVsMap = ∅) then Ret (false, snd s, Ok true)
  else
    x <-* loop (fun add sv => loop (add_one info (fst sv)) add (snd sv)) (snd s) (range origVsMap);
    Ret (true, fst x, default (Ok true) (snd x)).

Definition gen_one (info : MeshDevInfo) (add : gmap gostring HTTPRoute) (s : Object)
    : prog (gmap gostring HTTPRoute * option mesh_error) :=
  match genVirtualServiceForBaseDevSpace (BaseNamespace info) (MeshDevNamespace info) (o_Name s) (i_Header info) with
  | Err e => Ret (add, Some e)
  | Ok (v, route) =>
      r <-* ApplyForce v;
      match r with
      | Err e => Ret (add, Some e)
      | Ok _ => Ret (<[o_Name v := route]> add, None)
      end
  end.

Definition add_for (info : MeshDevInfo) (add : gmap gostring HTTPRoute) (r : Object)
    : prog (gmap gostring HTTPRoute * option mesh_error) :=
  x <-* poll (tries 100 8000) (add_attempt info r) (false, add);
  match x with
  | (_, add, Err e) => Ret (add, Some e)
  | (true, add, Ok _) => Ret (add, None)
  | (false, add, Ok _) => services <-* MatchServicesByWorkload r; loop (gen_one info) add services
  end.

(** The routes that were added are returned also when an error ends the loop. *)
Definition m_addHeaderToVirtualService (info : MeshDevInfo) : prog (gmap gostring HTTPRoute * res mesh_error unit) :=
  if no_header (i_Header info) then Ret (i_rollback_add info, Ok tt)
  else
    x <-* loop (add_for info) (i_rollback_add info) (i_install info);
    Ret (fst x, checked (snd x)).

Definition update_one (info : MeshDevInfo) (s : gset gostring * gmap gostring (list HTTPRoute)) (v : Object)
    : prog (gset gostring * gmap gostring (list HTTPRoute) * option (res mesh_error bool)) :=
  match updateHeaderToVirtualService v info with
  | Err e => Ret (s, Some (Err e))
  | Ok (v, routes, isUpdate) =>
      if isUpdate && bool_decide (o_Name v ∉ fst s) then
        r <-* ApplyForce v;
        match r with
        | Err ErrConflict => Ret (s, Some (Ok false))
        | Err e => Ret (s, Some (Err e))
        | Ok _ => Ret ({[o_Name v]} ∪ fst s, <[o_Name v := routes]> (snd s), None)
        end
      else Ret (s, None)
  end.

Definition updateHeaderToVirtualServices (info : MeshDevInfo)
    : prog (gmap gostring (list HTTPRoute) * res mesh_error unit) :=
  if no_header (i_Header info) then Ret (i_rollback_update info, Ok tt)
  else
    x <-* poll (tries 100 8000) (fun s =>
            vs <-* list_of VirtualService (BaseNamespace info);
            x <-* loop (update_one info) s vs;
            Ret (fst x, default (Ok true) (snd x))) (∅, i_rollback_update info);
    Ret (snd (fst x), snd x).

Definition delete_header_logged (info : MeshDevInfo) (v : Object) : prog (res mesh_error unit) :=
  match deleteHeaderFromVirtualService v info with
  | Ok (v, true) => logged (ApplyForce v)
  | _ => Ret (Ok tt)
  end.

Definition DeleteTracingHeader (info : MeshDevInfo) : prog (res mesh_error unit) :=
  vs <-* list_of VirtualService (BaseNamespace info);
  each (delete_header_logged info) vs.

(** *** The operations *)

Definition updateVirtualServiceOnBaseDevSpace (info : MeshDevInfo) (sched : nat -> bool)
    : prog (gmap gostring HTTPRoute * res mesh_error unit) :=
  x <-* par (m_deleteHeaderFromVirtualService info) (m_addHeaderToVirtualService info) (fun n => sched (S n));
  let '(r1, (add, r2)) := x in
  Ret (add, first_error r1 r2 (sched 0)).

Definition injectMeshDevSpace (info : MeshDevInfo) (sched : nat -> nat -> bool)
    : prog (MeshDevInfo * res mesh_error unit) :=
  info <-* tagResources info;
  x <-* par (wait2 (applyWorkloadsToMeshDevSpace info) (deleteWorkloadsFromMeshDevSpace info) (sched 0))
          (updateVirtualServiceOnBaseDevSpace info (sched 1)) (fun n => sched 2 (S n));
  let '(r1, (add, r2)) := x in
  Ret (with_rollback info add (i_rollback_update info), first_error r1 r2 (sched 2 0)).

Definition apply_config (info : MeshDevInfo) (c : Object) : prog (res mesh_error unit) :=
  if bool_decide (config_app c = DefaultNocalhostApplication) then Ret (Ok tt)
  else ApplyForce (commonModifier (MeshDevNamespace info) c).

Fixpoint service_copies (info : MeshDevInfo) (svcs : list Object) : prog (res mesh_error (list (Object * Object))) :=
  match svcs with
  | [] => Ret (Ok [])
  | svc :: svcs =>
      rd <-% Ret (meshDevModifier (MeshDevNamespace info) svc);
      vs <-* of_outcome (genVirtualServiceForMeshDevSpace (BaseNamespace info) (fst rd));
      more <-% service_copies info svcs;
      Ret (Ok ((fst rd, vs) :: more))
  end.

Definition initMeshDevSpace (info : MeshDevInfo) (sched : nat -> bool) : prog (res mesh_error unit) :=
  configs <-* GetAppConfigByNamespace (BaseNamespace info);
  _ <-% each (apply_config info) configs;
  svcs <-* list_of Service (BaseNamespace info);
  copies <-% service_copies info svcs;
  wait2 (each ApplyForce copies.*1) (each ApplyForce copies.*2) sched.

Definition InitMeshDevSpace (info : MeshDevInfo) (sched : nat -> nat -> bool)
    : prog (MeshDevInfo * res mesh_error unit) :=
  r <-* initMeshDevSpace info (sched 3);
  match r with
  | Err e => Ret (info, Err e)
  | Ok _ => if bool_decide (0 < length (Apps info)) then injectMeshDevSpace info sched else Ret (info, Ok tt)
  end.

Definition UpdateMeshDevSpace (info : MeshDevInfo) (sched : nat -> nat -> bool)
    : prog (MeshDevInfo * res mesh_error unit) :=
  info <-* setWorkloadStatus info;
  x <-* injectMeshDevSpace info sched;
  match x with
  | (info, Err e) => Ret (info, Err e)
  | (info, Ok _) =>
      if IsUpdateHeader info then
        y <-* updateHeaderToVirtualServices info;
        Ret (with_rollback info (i_rollback_add info) (fst y), snd y)
      else Ret (info, Ok tt)
  end.

(** *** Rolling back

    An entry is deleted once its virtual service was applied; the others are left
    for the next attempt. *)
Definition undo {A : Type} (baseNs : gostring) (f : A -> VirtualServiceBody -> list HTTPRoute)
    (m : gmap gostring A) (entry : gostring * A) : prog (gmap gostring A * option Empty_set) :=
  r <-* Call (CGet VirtualService baseNs (fst entry)) Ret;
  match r with
  | None => Ret (m, None)
  | Some r =>
      match as_virtual_service r with
      | Err _ => Ret (m, None)
      | Ok v =>
          a <-* ApplyForce (with_routes r v (f (snd entry) v));
          match a with
          | Err _ => Ret (m, None)
          | Ok _ => Ret (delete (fst entry) m, None)
          end
      end
  end.

Definition undo_round {A : Type} (baseNs : gostring) (f : A -> VirtualServiceBody -> list HTTPRoute)
    (m : gmap gostring A) : prog (gmap gostring A * res mesh_error bool) :=
  x <-* loop (undo baseNs f) m (range m);
  Ret (fst x, Ok (bool_decide (fst x = ∅))).

Definition undo_add (route : HTTPRoute) (v : VirtualServiceBody) : list HTTPRoute :=
  remove_where (named (hr_Name route)) (vs_Http v).

(** The routes by name: of several with one name the last one counts. *)
Definition routes_map (routes : list HTTPRoute) : gmap gostring HTTPRoute :=
  foldl (fun m r => <[hr_Name r := r]> m) ∅ routes.

Definition undo_update (routes : list HTTPRoute) (v : VirtualServiceBody) : list HTTPRoute :=
  (fun r => default r (routes_map routes !! hr_Name r)) <$> vs_Http v.

Definition Rollback (info : MeshDevInfo) : prog MeshDevInfo :=
  x <-* poll (tries 200 5000) (undo_round (BaseNamespace info) undo_add) (i_rollback_add info);
  y <-* poll (tries 200 5000) (undo_round (BaseNamespace info) undo_update) (i_rollback_update info);
  Ret (with_rollback info (fst x) (fst y)).
End manager.

(** ** Managers by kubeconfig ([mesh_manager_factory.go])

    The answer of building a client is [None] when it fails; a manager is a
    number, and [closed] has those whose cache was closed. *)
Record SharedManagers := mkManagers {
  managers : gmap gostring nat;
  closed : gset nat;
  next_manager : nat
}.

Definition Manager (kubeconfig : gostring) (client_ok : bool) (f : SharedManagers) : SharedManagers * option nat :=
  match managers f !! kubeconfig with
  | Some m => (f, Some m)
  | None =>
      if client_ok then
        (mkManagers (<[kubeconfig := next_manager f]> (managers f)) (closed f) (S (next_manager f)), Some (next_manager f))
      else (f, None)
  end.

Definition DeleteManager (kubeconfig : gostring) (f : SharedManagers) : SharedManagers :=
  match managers f !! kubeconfig with
  | None => f
  | Some m => mkManagers (delete kubeconfig (managers f)) ({[m]} ∪ closed f) (next_manager f)
  end.

(** ** Descriptions *)

(** [sort.Sort]: some sorted order, equal elements in any. *)
Class MeshSort := {
  sort_apps : list MeshDevApp -> list MeshDevApp;
  sort_apps_perm : forall l, sort_apps l ≡ₚ l;
  sort_apps_sorted : forall l, StronglySorted (fun a b => str_le (a_Name a) (a_Name b)) (sort_apps l);
  sort_workloads : list MeshDevWorkload -> list MeshDevWorkload;
  sort_workloads_perm : forall l, sort_workloads l ≡ₚ l;
  sort_workloads_sorted : forall l,
    StronglySorted (fun a b => str_le (w_Kind a ++ w_Name a) (w_Kind b ++ w_Name b)) (sort_workloads l)
}.

Definition SortApps `{!MeshSort} (info : MeshDevInfo) : MeshDevInfo :=
  with_apps info ((fun a => mkApp (a_Name a) (sort_workloads (a_Workloads a))) <$> sort_apps (Apps info)).

(** [validation.IsDNS1123Label] finds nothing wrong. *)

Definition DNS1123 (s : gostring) : bool :=
  let alnum := fun b : ascii => let n := byte_val b in ((97 <=? n) && (n <=? 122) || (48 <=? n) && (n <=? 57))%Z in
  bool_decide (0 < length s <= 63) &&
  forallb (fun b : ascii => alnum b || bool_decide (b = "-"%char)) s &&
  match head s, last s with Some a, Some b => alnum a && alnum b | _, _ => false end.

Definition Validate (info : MeshDevInfo) : bool :=
  bool_decide (TraceKey (i_Header info) <> []) && bool_decide (TraceValue (i_Header info) <> []) &&
  DNS1123 (MeshDevNamespace info).
