(* ===== verification/MeshThms.v ===== *)
(** * The mesh manager: theorems

    What the changes to objects and routes do, what the manager writes and in
    which order - for every interleaving of its goroutines and every behaviour of
    the cluster that is an answer to its calls - and where it goes wrong. *)

From stdpp Require Import sorting.
From S2P Require Import Prelude GoStrings FilePath DevDir AppMeta Search SearchCache Mesh.
#[local] Open Scope go_scope.

(** ** The removing loop is a filter *)

Lemma remove_loop_filter {A : Type} (p : A -> bool) fuel i (l : list A) :
  length l - i < fuel -> i <= length l ->
  remove_loop p fuel i l = Some (take i l ++ filter (fun x => p x = false) (drop i l)).
Proof.
  revert i l. induction fuel as [|fuel IH]; intros i l Hf Hi; [lia|]. cbn.
  destruct (l !! i) as [x|] eqn:Hx.
  - assert (i < length l) by by eapply lookup_lt_Some.
    rewrite (drop_S l x i) by done. rewrite filter_cons. destruct (p x).
    + rewrite decide_False by done.
      rewrite IH; [|rewrite length_app, length_take, length_drop; lia..].
      rewrite take_app_le, take_take, Nat.min_id by (rewrite length_take; lia).
      rewrite drop_app_ge, length_take, Nat.min_l, Nat.sub_diag, drop_0 by (rewrite ?length_take; lia). done.
    + rewrite decide_True by done. rewrite IH by lia. rewrite (take_S_r l i x) by done. by rewrite <- app_assoc.
  - apply lookup_ge_None in Hx. rewrite drop_ge, app_nil_r, take_ge by lia. done.
Qed.

Lemma remove_where_filter {A : Type} (p : A -> bool) (l : list A) :
  remove_where p l = filter (fun x => p x = false) l.
Proof. unfold remove_where. rewrite remove_loop_filter by lia. done. Qed.

#[local] Arguments remove_where : simpl never.

(** ** Traces *)

Inductive event :=
  | EList (kind ns : gostring) (l : list Object)
  | EGet (kind ns name : gostring) (o : option Object)
  | EApply (force : bool) (o : Object) (e : option mesh_error)
  | EDelete (o : Object) (e : option mesh_error)
  | ESleep.

Definition event_of (c : call) : answer c -> event :=
  match c with
  | CList kind ns => EList kind ns
  | CGet kind ns name => EGet kind ns name
  | CApply force o => EApply force o
  | CDelete o => EDelete o
  | CSleep => fun _ => ESleep
  end.

(** The calls of an unfinished run, and those of a run with its result. *)
Fixpoint trace {A : Type} (p : prog A) (t : list event) : Prop :=
  t = [] \/ match p with
            | Call c k => exists x t', t = event_of c x :: t' /\ trace (k x) t'
            | _ => False
            end.

Fixpoint runs {A : Type} (p : prog A) (t : list event) (a : A) : Prop :=
  match p with
  | Ret b => t = [] /\ a = b
  | Crash => False
  | Call c k => exists x t', t = event_of c x :: t' /\ runs (k x) t' a
  end.

(** The run in a cluster that does not change. *)
Fixpoint eval {A : Type} (serve : forall c, answer c) (p : prog A) : outcome A :=
  match p with
  | Ret a => Done a
  | Crash => Panic
  | Call c k => eval serve (k (serve c))
  end.

Fixpoint trace_of {A : Type} (serve : forall c, answer c) (p : prog A) : list event :=
  match p with
  | Ret _ | Crash => []
  | Call c k => event_of c (serve c) :: trace_of serve (k (serve c))
  end.

Lemma eval_bind {A B : Type} serve (p : prog A) (f : A -> prog B) :
  eval serve (bind p f) = (a <~ eval serve p; eval serve (f a)).
Proof. induction p as [a| |c k IH]; [done..|]. cbn. apply IH. Qed.

Lemma trace_of_trace {A : Type} serve (p : prog A) : trace p (trace_of serve p).
Proof.
  induction p as [a| |c k IH]; cbn; [by left..|]. right. exists (serve c), (trace_of serve (k (serve c))).
  split; [done|apply IH].
Qed.

Lemma runs_bind {A B : Type} (p : prog A) (f : A -> prog B) t b :
  runs (bind p f) t b <-> exists t1 t2 a, t = t1 ++ t2 /\ runs p t1 a /\ runs (f a) t2 b.
Proof.
  revert t. induction p as [a| |c k IH]; intros t; cbn.
  - split; [intros Hr; by exists [], t, a|by intros (? & ? & ? & -> & [-> ->] & Hr)].
  - split; [done|by intros (? & ? & ? & -> & [] & _)].
  - split.
    + intros (x & t' & -> & Hr). apply IH in Hr as (t1 & t2 & a & -> & H1 & H2).
      exists (event_of c x :: t1), t2, a. split_and!; [done| |done]. by exists x, t1.
    + intros (t1 & t2 & a & -> & (x & t' & -> & H1) & H2). exists x, (t' ++ t2). split; [done|].
      apply IH. by exists t', t2, a.
Qed.

Lemma runs_res_bind {A B : Type} (p : prog (res mesh_error A)) (f : A -> prog (res mesh_error B)) t b :
  runs (res_bind p f) t (Ok b) -> exists t1 t2 a, t = t1 ++ t2 /\ runs p t1 (Ok a) /\ runs (f a) t2 (Ok b).
Proof.
  intros (t1 & t2 & [a|e] & -> & H1 & H2)%runs_bind; [by exists t1, t2, a|]. by destruct H2.
Qed.

(** *** Calls that are allowed, given lawful answers

    [wp p Q]: every call of [p] is allowed and its result satisfies [Q]. *)
Section wp.
Context (allowed : call -> Prop) (lawful : event -> Prop).

Fixpoint wp {A : Type} (p : prog A) (Q : A -> Prop) : Prop :=
  match p with
  | Ret a => Q a
  | Crash => True
  | Call c k => allowed c /\ forall x, lawful (event_of c x) -> wp (k x) Q
  end.

Lemma wp_mono {A : Type} (p : prog A) (Q Q' : A -> Prop) : (forall a, Q a -> Q' a) -> wp p Q -> wp p Q'.
Proof. induction p as [a| |c k IH]; cbn; [naive_solver|done|]. intros HQ [Hc Hk]. naive_solver. Qed.

Lemma wp_bind {A B : Type} (p : prog A) (f : A -> prog B) Q :
  wp p (fun a => wp (f a) Q) -> wp (bind p f) Q.
Proof. induction p as [a| |c k IH]; cbn; [done|done|]. intros [Hc Hk]. naive_solver. Qed.

Lemma wp_res_bind {A B : Type} (p : prog (res mesh_error A)) (f : A -> prog (res mesh_error B)) (Q : A -> Prop) :
  wp p (fun r => match r with Ok a => Q a | Err _ => True end) ->
  (forall a, Q a -> wp (f a) (fun _ => True)) -> wp (res_bind p f) (fun _ => True).
Proof. intros Hp Hf. apply wp_bind. eapply wp_mono; [|exact Hp]. intros [a|e]; [apply Hf|done]. Qed.

Lemma wp_each {A : Type} (f : A -> prog (res mesh_error unit)) l :
  (forall x, x ∈ l -> wp (f x) (fun _ => True)) -> wp (each f l) (fun _ => True).
Proof.
  induction l as [|x l IH]; intros Hf; [done|]. cbn. apply (wp_res_bind _ _ (fun _ => True)).
  - eapply wp_mono; [|apply Hf; set_solver]. by intros [].
  - intros _ _. apply IH. set_solver.
Qed.

Lemma wp_loop {S A R : Type} (f : S -> A -> prog (S * option R)) s l :
  (forall s x, x ∈ l -> wp (f s x) (fun _ => True)) -> wp (loop f s l) (fun _ => True).
Proof.
  revert s. induction l as [|x l IH]; intros s Hf; [done|]. cbn. apply wp_bind.
  eapply wp_mono; [|apply Hf; set_solver]. intros [s' [r|]] _; [done|]. apply IH. set_solver.
Qed.

Lemma wp_poll {S : Type} n (cond : S -> prog (S * res mesh_error bool)) s :
  allowed CSleep -> (forall s, wp (cond s) (fun _ => True)) -> wp (poll n cond s) (fun _ => True).
Proof.
  intros Hs Hc. revert s. induction n as [|n IH]; intros s; [done|]. cbn. split; [done|]. intros _ _.
  apply wp_bind. eapply wp_mono; [|apply Hc]. intros [s' [[]|]] _; [done|apply IH|done].
Qed.

Lemma wp_par {A B : Type} (p : prog A) (q : prog B) (P : A -> Prop) (Q : B -> Prop) s :
  wp p P -> wp q Q -> wp (par p q s) (fun ab => P ab.1 /\ Q ab.2).
Proof.
  revert q s. induction p as [a| |c k IHp]; intros q.
  - intros s Hp Hq. destruct q as [b| |d h]; [done|done|]. cbn in Hq |- *. destruct Hq as [Hd Hh]. split; [done|].
    intros x Hx. apply wp_bind. eapply wp_mono; [|by apply Hh]. done.
  - intros s _ _. by destruct q.
  - induction q as [b| |d h IHq]; intros s Hp Hq.
    + cbn in Hp |- *. destruct Hp as [Hc Hk]. split; [done|]. intros x Hx. apply wp_bind.
      eapply wp_mono; [|by apply Hk]. done.
    + done.
    + cbn. destruct (s 0).
      * destruct Hp as [Hc Hk]. split; [done|]. intros x Hx. apply IHp; [by apply Hk|done].
      * destruct Hq as [Hd Hh]. split; [done|]. intros y Hy. apply (IHq y); [done|by apply Hh].
Qed.

(** Every call of a run whose answers are lawful is allowed. *)
Definition call_of (e : event) : call :=
  match e with
  | EList kind ns _ => CList kind ns
  | EGet kind ns name _ => CGet kind ns name
  | EApply force o _ => CApply force o
  | EDelete o _ => CDelete o
  | ESleep => CSleep
  end.

Lemma call_of_event c x : call_of (event_of c x) = c.
Proof. by destruct c. Qed.

Lemma wp_trace {A : Type} (p : prog A) Q t :
  wp p Q -> trace p t -> Forall lawful t -> Forall (fun e => allowed (call_of e)) t.
Proof.
  revert t. induction p as [a| |c k IH]; intros t Hwp Ht Hl; cbn in Ht.
  1,2: by destruct Ht as [->|[]].
  destruct Ht as [->|(x & t' & -> & Ht)]; [done|]. destruct Hwp as [Hc Hk].
  apply Forall_cons in Hl as [Hx Hl]. constructor; [by rewrite call_of_event|]. by eapply IH; [apply Hk| |].
Qed.
End wp.

(** ** What is written where *)

(** A listing of a namespace, and a look-up, answer with objects of the kind and
    namespace that were asked for. *)
Definition lawful (e : event) : Prop :=
  match e with
  | EList kind ns l => ns <> [] -> Forall (fun o => o_Kind o = kind /\ o_Namespace o = ns) l
  | EGet kind ns name (Some o) => o_Kind o = kind /\ o_Namespace o = ns /\ o_Name o = name
  | _ => True
  end.

(** Anything in the dev space may be written and deleted; in the base namespace
    only virtual services are written. *)
Definition confined (info : MeshDevInfo) (c : call) : Prop :=
  match c with
  | CApply _ o => o_Namespace o = MeshDevNamespace info \/ (o_Kind o = VirtualService /\ o_Namespace o = BaseNamespace info)
  | CDelete o => o_Namespace o = MeshDevNamespace info
  | _ => True
  end.

Definition base_vs (info : MeshDevInfo) (o : Object) : Prop :=
  o_Kind o = VirtualService /\ o_Namespace o = BaseNamespace info.

Lemma confined_base info force o : base_vs info o -> confined info (CApply force o).
Proof. by right. Qed.

(** The parts of an info the programs do not change. *)
Definition same_spaces (a b : MeshDevInfo) : Prop :=
  (BaseNamespace a, MeshDevNamespace a) = (BaseNamespace b, MeshDevNamespace b).

Definition tagged_ok (info : MeshDevInfo) : Prop :=
  forall r, r ∈ i_install info ++ i_delete info -> o_Namespace r = BaseNamespace info.

Lemma add_host_in smap v vmap host svc l x :
  add_host smap v vmap host !! svc = Some l -> x ∈ l -> x = v \/ exists l', vmap !! svc = Some l' /\ x ∈ l'.
Proof.
  unfold add_host. destruct (smap !! host) as [s|]; [|naive_solver].
  destruct (vmap !! s) as [l0|] eqn:E; (destruct (decide (s = svc)) as [->|Hne]; [rewrite lookup_insert_eq|
    rewrite lookup_insert_ne by done; naive_solver]).
  - intros [= <-] [Hx|Hx%list_elem_of_singleton]%elem_of_app; [right; eauto|by left].
  - intros [= <-] Hx%list_elem_of_singleton. by left.
Qed.

Lemma match_vs_in services vs svc l v :
  match_virtual_services services vs !! svc = Some l -> v ∈ l -> v ∈ vs.
Proof.
  unfold match_virtual_services. set (smap := service_hosts services). clearbody smap.
  cut (forall vmap, (forall svc l v, vmap !! svc = Some l -> v ∈ l -> v ∈ vs) ->
         forall vs', (forall x, x ∈ vs' -> x ∈ vs) -> forall svc l v,
         foldl (fun vmap v => foldl (add_host smap v) vmap (hosts_of v)) vmap vs' !! svc = Some l -> v ∈ l -> v ∈ vs).
  { intros Hc. apply Hc; [|done]. intros ? ? ? Hl. by rewrite lookup_empty in Hl. }
  clear svc l v. intros vmap Hm vs'. revert vmap Hm. induction vs' as [|x vs' IH]; intros vmap Hm Hsub; [done|].
  cbn. apply IH; [|set_solver]. clear IH. assert (Hx : x ∈ vs) by set_solver. clear Hsub. revert vmap Hm.
  induction (hosts_of x) as [|h hs IH]; intros vmap Hm; [done|]. cbn. apply IH.
  intros svc l v Hl Hv. destruct (add_host_in _ _ _ _ _ _ _ Hl Hv) as [->|(l' & ? & ?)]; [done|by eapply Hm].
Qed.

Section confined.
Context `{!MapOrder gostring} (tries : Z -> Z -> nat).

Lemma range_concat {V : Type} (m : gmap gostring (list V)) v :
  v ∈ concat (range m).*2 <-> exists k l, m !! k = Some l /\ v ∈ l.
Proof.
  rewrite list_elem_of_In, in_concat. split.
  - intros (l & Hl & Hv). apply list_elem_of_In in Hl. apply list_elem_of_fmap in Hl as ([k l'] & -> & Hk).
    apply elem_of_range in Hk. exists k, l'. split; [done|by apply list_elem_of_In].
  - intros (k & l & Hk%elem_of_range & Hv). exists l. split; [|by apply list_elem_of_In].
    apply list_elem_of_In, list_elem_of_fmap. by exists (k, l).
Qed.

Section parts.
Context (info : MeshDevInfo) (Hbase : BaseNamespace info <> []).
Abbreviation wp := (wp (confined info) lawful).
Let ok {A : Type} (_ : A) : Prop := True.

Lemma wp_apply force o : confined info (CApply force o) -> wp (apply force o) ok.
Proof. done. Qed.

Lemma wp_services r : wp (MatchServicesByWorkload r) ok.
Proof. unfold MatchServicesByWorkload. case_bool_decide; done. Qed.

Lemma wp_match_vs r :
  wp (MatchVirtualServiceByWorkload r) (fun m => forall k l v, m !! k = Some l -> v ∈ l ->
    o_Kind v = VirtualService /\ o_Namespace v = o_Namespace r).
Proof.
  unfold MatchVirtualServiceByWorkload. case_bool_decide as Hns.
  { cbn. intros k l v Hl. by rewrite lookup_empty in Hl. }
  apply wp_bind. eapply wp_mono; [|apply wp_services]. intros services _. cbn. split; [done|].
  intros vs Hvs k l v Hl Hv. specialize (Hvs Hns). rewrite Forall_forall in Hvs. apply Hvs. by eapply match_vs_in.
Qed.

Lemma wp_dependency_objects wm : wp (dependency_objects (BaseNamespace info) wm) ok.
Proof.
  induction wm as [|[kind names] wm IH]; [done|]. cbn. apply wp_bind.
  apply (wp_mono _ _ _ ok).
  - intros rs _. apply wp_bind. eapply wp_mono; [|exact IH]. done.
  - unfold GetListByKindAndNamespace. by case_bool_decide.
Qed.

Lemma modifier_namespace ns r r' deps : meshDevModifier ns r = Ok (r', deps) -> o_Namespace r' = ns.
Proof. unfold meshDevModifier. intros Hr. by go_cases. Qed.

Lemma wp_applyWorkload r : wp (applyWorkload info r) ok.
Proof.
  unfold applyWorkload. destruct (meshDevModifier _ r) as [[r' deps]|e] eqn:Hm; [|done]. cbn.
  pose proof (modifier_namespace _ _ _ _ Hm) as Hns.
  apply (wp_res_bind _ _ _ _ ok).
  { unfold applyDependencyToMeshDevSpace. apply wp_bind. eapply wp_mono; [|apply wp_dependency_objects].
    intros rs _. eapply wp_mono; [|apply wp_each; intros o _; apply wp_apply; by left]. by intros []. }
  intros _ _. split; [by left|]. intros [e|] _; [done|]. cbn.
  apply wp_bind. eapply wp_mono; [|apply wp_match_vs]. intros m Hmap.
  apply wp_each. intros v (k & l & Hl & Hv)%range_concat. cbn. split; [|done].
  destruct (Hmap _ _ _ Hl Hv) as [_ ->]. done.
Qed.

Lemma wp_deleteWorkload r : wp (deleteWorkload info r) ok.
Proof.
  unfold deleteWorkload. cbn. split; [done|]. intros [e|] _; [done|]. cbn. apply wp_bind.
  unfold genVirtualServiceForMeshDevSpace. cbn. destruct (o_Labels r); [|done]. destruct (o_Annotations r); [|done].
  cbn. split; [by left|done].
Qed.

Lemma delete_headers_last n v0 vs n' v :
  delete_headers info n v0 vs = Ok (n', Some v) ->
  v0 = Some v \/ exists x b, x ∈ vs /\ deleteHeaderFromVirtualService x info = Ok (v, b).
Proof.
  revert n v0. induction vs as [|x vs IH]; intros n v0; cbn; [intros [= _ ->]; by left|].
  destruct (deleteHeaderFromVirtualService x info) as [[x' b]|] eqn:Hx; [|done]. cbn. intros Hd.
  apply IH in Hd as [[= ->]|(y & b' & ? & ?)]; right; [exists x, b|exists y, b']; set_solver.
Qed.

Lemma with_routes_base o v routes : base_vs info o -> base_vs info (with_routes o v routes).
Proof. done. Qed.

Lemma delete_header_base x v b : deleteHeaderFromVirtualService x info = Ok (v, b) -> base_vs info x -> base_vs info v.
Proof. unfold deleteHeaderFromVirtualService. intros Hx. by go_cases. Qed.

Lemma wp_header_vs r : o_Namespace r = BaseNamespace info ->
  wp (header_vs info r) (fun x => match x with Ok l => forall v, v ∈ l -> base_vs info v | Err _ => True end).
Proof.
  intros Hr. unfold header_vs. apply wp_bind. eapply wp_mono; [|apply wp_match_vs]. intros m Hmap. cbn.
  destruct (delete_headers info 0 None _) as [[n v]|] eqn:Hd; [|done]. cbn. destruct v as [v|]; [|set_solver].
  intros x [-> _]%elem_of_replicate. apply delete_headers_last in Hd as [[=]|(y & b & Hy & Hb)].
  apply range_concat in Hy as (k & l & Hl & Hy). eapply delete_header_base; [done|]. unfold base_vs. rewrite <- Hr.
  by eapply Hmap.
Qed.

Lemma wp_header_vs_all rs : (forall r, r ∈ rs -> o_Namespace r = BaseNamespace info) ->
  wp (header_vs_all info rs) (fun x => match x with Ok l => forall v, v ∈ l -> base_vs info v | Err _ => True end).
Proof.
  induction rs as [|r rs IH]; intros Hrs; [cbn; set_solver|]. cbn. apply wp_bind.
  eapply wp_mono; [|apply wp_header_vs; set_solver]. intros [vs|e] Hvs; [|done]. apply wp_bind.
  eapply wp_mono; [|apply IH; set_solver]. intros [more|e] Hmore; [|done]. cbn. set_solver.
Qed.

Lemma wp_delete_header : tagged_ok info -> wp (m_deleteHeaderFromVirtualService info) ok.
Proof.
  intros Hok. unfold m_deleteHeaderFromVirtualService. eapply wp_res_bind.
  { apply wp_header_vs_all. intros r Hr. apply Hok. set_solver. }
  intros vs Hvs. apply wp_each. intros v Hv. apply wp_apply. right. by apply Hvs.
Qed.

Lemma add_header_base x svc v route :
  addHeaderToVirtualService x svc info = Ok (v, route) -> base_vs info x -> base_vs info v.
Proof. unfold addHeaderToVirtualService. intros Hx. by go_cases. Qed.

Lemma wp_add_one svc add v : base_vs info v -> wp (add_one info svc add v) ok.
Proof.
  intros Hv. unfold add_one. destruct (addHeaderToVirtualService v svc info) as [[v' route]|] eqn:Ha; [|done].
  cbn. split; [right; by eapply add_header_base|]. by intros [[]|] _.
Qed.

Lemma wp_add_attempt r s : o_Namespace r = BaseNamespace info -> wp (add_attempt info r s) ok.
Proof.
  intros Hr. unfold add_attempt. apply wp_bind. eapply wp_mono; [|apply wp_match_vs]. intros m Hmap.
  case_bool_decide; [done|]. apply wp_bind. eapply wp_mono; [|apply wp_loop]; [done|].
  intros add [svc l] Hl%elem_of_range. apply wp_loop. intros add' v Hv. apply wp_add_one. unfold base_vs. rewrite <- Hr.
  by eapply Hmap.
Qed.

Lemma wp_add_for add r : o_Namespace r = BaseNamespace info -> wp (add_for tries info add r) ok.
Proof.
  intros Hr. unfold add_for. apply wp_bind.
  eapply wp_mono; [|apply wp_poll; [done|intros; by apply wp_add_attempt]].
  intros [[[] add'] [u|e]] _; [done..| |done]. apply wp_bind. eapply wp_mono; [|apply wp_services].
  intros services _. apply wp_loop. intros add'' s _. unfold gen_one.
  destruct (genVirtualServiceForBaseDevSpace _ _ _ _) as [[v route]|] eqn:Hg; [|done].
  cbn. split; [|by intros [] _]. right. unfold genVirtualServiceForBaseDevSpace in Hg. by destruct (no_header _); simplify_eq.
Qed.

Lemma wp_add_header : tagged_ok info -> wp (m_addHeaderToVirtualService tries info) ok.
Proof.
  intros Hok. unfold m_addHeaderToVirtualService. destruct (no_header _); [done|]. apply wp_bind.
  eapply wp_mono; [|apply wp_loop]; [done|]. intros add r Hr. apply wp_add_for, Hok. set_solver.
Qed.

Lemma wp_updates : wp (updateHeaderToVirtualServices tries info) ok.
Proof.
  unfold updateHeaderToVirtualServices. destruct (no_header _); [done|]. apply wp_bind.
  eapply wp_mono; [|apply wp_poll; [done|]]; [done|]. intros s. cbn. split; [done|]. intros vs Hvs.
  apply wp_bind. eapply wp_mono; [|apply wp_loop]; [done|]. intros s' v Hv. unfold update_one.
  assert (base_vs info v) as Hb. { specialize (Hvs Hbase). rewrite Forall_forall in Hvs. by apply Hvs. }
  destruct (updateHeaderToVirtualService v info) as [[[v' routes] b]|] eqn:Hu; [|done].
  assert (base_vs info v') as Hb'.
  { unfold updateHeaderToVirtualService in Hu. by go_cases. }
  destruct (_ && _); [|done]. cbn. split; [by right|]. by intros [[]|] _.
Qed.

Lemma wp_inject_parts sched : tagged_ok info ->
  wp (wait2 (applyWorkloadsToMeshDevSpace info) (deleteWorkloadsFromMeshDevSpace info) (sched 0)) ok /\
  wp (updateVirtualServiceOnBaseDevSpace tries info (sched 1)) ok.
Proof.
  intros Hok. split.
  - apply wp_bind. eapply wp_mono; [|apply (wp_par _ _ _ _ ok ok); apply wp_each]; [done|..].
    + intros r _. apply wp_applyWorkload.
    + intros r _. apply wp_deleteWorkload.
  - apply wp_bind. eapply wp_mono; [|apply (wp_par _ _ _ _ ok ok); [by apply wp_delete_header|by apply wp_add_header]].
    by intros [r1 [add r2]] _.
Qed.

Lemma wp_undo {A : Type} (f : A -> VirtualServiceBody -> list HTTPRoute) m n :
  wp (poll n (undo_round (BaseNamespace info) f) m) ok.
Proof.
  apply wp_poll; [done|]. intros s. apply wp_bind. eapply wp_mono; [|apply wp_loop]; [done|]. intros m' [name a] _.
  cbn. split; [done|]. intros [o|] Ho; [|done]. destruct Ho as (Hk & Hns & _).
  destruct (as_virtual_service o) as [v|]; [|done]. cbn. split; [by right|]. by intros [] _.
Qed.

Lemma wp_delete_tracing : wp (DeleteTracingHeader info) ok.
Proof.
  cbn. split; [done|]. intros vs Hvs. apply wp_each. intros v Hv. unfold delete_header_logged.
  destruct (deleteHeaderFromVirtualService v info) as [[v' []]|] eqn:Hd; [|done..]. cbn. split; [|done]. right.
  eapply delete_header_base; [done|]. specialize (Hvs Hbase). rewrite Forall_forall in Hvs. by apply Hvs.
Qed.

Lemma wp_service_copies svcs :
  wp (service_copies info svcs) (fun x => match x with
    | Ok l => forall c, c ∈ l -> o_Namespace c.1 = MeshDevNamespace info /\ o_Namespace c.2 = MeshDevNamespace info
    | Err _ => True end).
Proof.
  induction svcs as [|svc svcs IH]; [cbn; set_solver|]. cbn [service_copies]. apply wp_bind. cbn.
  destruct (meshDevModifier _ svc) as [[r' deps]|] eqn:Hm; [|done]. apply modifier_namespace in Hm. cbn.
  apply wp_bind. destruct (genVirtualServiceForMeshDevSpace _ r') as [vs| |] eqn:Hg; [|done..]. cbn.
  assert (o_Namespace vs = MeshDevNamespace info) as Hvs.
  { unfold genVirtualServiceForMeshDevSpace in Hg. by go_cases. }
  apply wp_bind. eapply wp_mono; [|exact IH]. intros [more|e] Hmore; [|done]. cbn. intros c.
  rewrite elem_of_cons. intros [->|Hc]; [done|by apply Hmore].
Qed.

Lemma wp_init sched : wp (initMeshDevSpace info sched) ok.
Proof.
  unfold initMeshDevSpace. apply wp_bind. cbn. split; [done|]. intros l _. apply (wp_res_bind _ _ _ _ ok).
  { eapply wp_mono; [|apply wp_each]; [by intros []|]. intros c _. unfold apply_config. case_bool_decide; [done|].
    apply wp_apply. by left. }
  intros _ _. cbn. split; [done|]. intros svcs _. eapply wp_res_bind; [apply wp_service_copies|].
  intros copies Hc. apply wp_bind. eapply wp_mono; [|apply (wp_par _ _ _ _ ok ok); apply wp_each]; [done|..];
    intros o Ho; apply wp_apply; left; apply list_elem_of_fmap in Ho as (c & -> & ?); by apply Hc.
Qed.
End parts.

(** The programs depend on the info only through what they are given. *)
Lemma wp_spaces {A : Type} info info' (p : prog A) Q :
  same_spaces info info' -> wp (confined info) lawful p Q -> wp (confined info') lawful p Q.
Proof.
  intros [= Hb Hd]. induction p as [a| |c k IH]; [done..|]. cbn. intros [Hc Hk]. split; [|naive_solver].
  destruct c; cbn in Hc |- *; by rewrite <- ?Hb, <- ?Hd.
Qed.

Lemma wp_inject info sched : BaseNamespace info <> [] ->
  wp (confined info) lawful (injectMeshDevSpace tries info sched) (fun x => same_spaces info x.1).
Proof.
  intros Hbase. unfold injectMeshDevSpace, tagResources. cbn. split; [done|]. intros rs Hrs. specialize (Hrs Hbase).
  set (info' := with_resources info _ _). apply wp_bind.
  assert (tagged_ok info') as Hok.
  { rewrite Forall_forall in Hrs. intros r [[_ Hr]%list_elem_of_filter|[_ Hr]%list_elem_of_filter]%elem_of_app; by apply Hrs. }
  destruct (wp_inject_parts info' Hbase sched Hok) as [H1 H2].
  eapply wp_mono; [|apply wp_par; [eapply (wp_spaces info' info), H1|eapply (wp_spaces info' info), H2]]; [|done..].
  by intros [r1 [add r2]] _.
Qed.

Inductive mesh_op :=
  | OpInit
  | OpUpdate
  | OpDeleteHeader
  | OpRollback.

Definition program (op : mesh_op) (info : MeshDevInfo) (sched : nat -> nat -> bool) : prog unit :=
  match op with
  | OpInit => _ <-* InitMeshDevSpace tries info sched; Ret tt
  | OpUpdate => _ <-* UpdateMeshDevSpace tries info sched; Ret tt
  | OpDeleteHeader => _ <-* DeleteTracingHeader info; Ret tt
  | OpRollback => _ <-* Rollback tries info; Ret tt
  end.

Lemma wp_status info : wp (confined info) lawful (setWorkloadStatus info) (fun info' => same_spaces info' info).
Proof. done. Qed.

Lemma wp_program op info sched : BaseNamespace info <> [] ->
  wp (confined info) lawful (program op info sched) (fun _ => True).
Proof.
  intros Hbase. destruct op; unfold program; apply wp_bind.
  - apply wp_bind. eapply wp_mono; [|by apply wp_init]. intros [u|e] _; [|done]. case_bool_decide; [|done].
    eapply wp_mono; [|by apply wp_inject]. done.
  - apply wp_bind. eapply wp_mono; [|apply wp_status]. intros info' Hsame.
    apply wp_bind. eapply wp_mono; [|apply (wp_spaces info' info); [done|apply wp_inject; unfold same_spaces in *; congruence]].
    intros [info1 [u|e]] Hsame1; [|done]. destruct (IsUpdateHeader info1); [|done]. apply wp_bind.
    eapply wp_mono; [|apply (wp_spaces info1 info); [|apply wp_updates]]; [done|..]; unfold same_spaces in *; cbn in *; congruence.
  - eapply wp_mono; [|by apply wp_delete_tracing]. done.
  - unfold Rollback. apply wp_bind. eapply wp_mono; [|by apply wp_undo]. intros x _. apply wp_bind.
    eapply wp_mono; [|by apply wp_undo]. done.
Qed.

(** C10: the mesh manager never touches the developers' base namespace beyond its
    virtual services.  Whatever the cluster answers, in every interleaving of the
    goroutines and at every point of a run of initialising, updating, removing the
    header or rolling back, everything that was applied is in the dev space or is a
    virtual service of the base namespace, and everything that was deleted is in
    the dev space. *)
Theorem mesh_writes_confined op info sched t :
  BaseNamespace info <> [] ->
  trace (program op info sched) t ->
  Forall lawful t ->
  Forall (fun e => match e with
                   | EApply _ o _ => o_Namespace o = MeshDevNamespace info \/
                                     (o_Kind o = VirtualService /\ o_Namespace o = BaseNamespace info)
                   | EDelete o _ => o_Namespace o = MeshDevNamespace info
                   | _ => True
                   end) t.
Proof.
  intros Hbase Ht Hl. eapply Forall_impl; [eapply wp_trace; [by apply wp_program|done|done]|]. by intros [].
Qed.
End confined.

(** ** The order of the writes *)

Lemma runs_each {A : Type} (f : A -> prog (res mesh_error unit)) l t u :
  runs (each f l) t (Ok u) -> forall x, x ∈ l -> exists t', (forall e, e ∈ t' -> e ∈ t) /\ runs (f x) t' (Ok tt).
Proof.
  revert t. induction l as [|y l IH]; intros t Hr x Hx; [set_solver|].
  apply runs_res_bind in Hr as (t1 & t2 & [] & -> & H1 & H2). apply elem_of_cons in Hx as [->|Hx].
  - exists t1. set_solver.
  - destruct (IH _ H2 _ Hx) as (t' & Hsub & Hr). exists t'. set_solver.
Qed.

Lemma runs_apply force o t u : runs (apply force o) t (Ok u) -> t = [EApply force o None].
Proof. intros ([e|] & t' & -> & -> & [=]). done. Qed.

Lemma group_names_spec deps d :
  d ∈ deps -> exists names, group_names deps !! w_Kind d = Some names /\ w_Name d ∈ names.
Proof.
  induction deps as [|x deps IH] using rev_ind; [set_solver|]. unfold group_names in *. rewrite foldl_snoc.
  intros [Hd| ->%list_elem_of_singleton]%elem_of_app.
  - apply IH in Hd as (names & Hn & Hin). destruct (decide (w_Kind x = w_Kind d)) as [Hk|Hne].
    + rewrite Hk, Hn, lookup_insert_eq. eexists. split; [done|]. set_solver.
    + rewrite lookup_insert_ne by done. eauto.
  - rewrite lookup_insert_eq. eexists. split; [done|]. set_solver.
Qed.

Lemma elem_of_name_set names n : n ∈ name_set names <-> n ∈ names.
Proof.
  unfold name_set. induction names as [|x names IH] using rev_ind; [set_solver|]. rewrite foldl_snoc. set_solver.
Qed.

Definition copied_kind (kind : gostring) : Prop := kind ∈ [ConfigMap; Secret].

Lemma runs_dependency_objects ns wm t rs kind names :
  runs (dependency_objects ns wm) t rs -> (kind, names) ∈ wm -> copied_kind kind ->
  exists l, EList kind ns l ∈ t /\ forall o, o ∈ l -> o_Name o ∈ names -> o ∈ rs.
Proof.
  revert t rs. induction wm as [|[k ns'] wm IH]; intros t rs Hr Hin Hk; [set_solver|]. cbn [dependency_objects] in Hr.
  apply runs_bind in Hr as (t1 & t2 & l & -> & H1 & H2).
  apply runs_bind in H2 as (t2' & t3 & more & -> & H2 & [-> ->]). apply elem_of_cons in Hin as [[= <- <-]|Hin].
  - unfold GetListByKindAndNamespace in H1. rewrite bool_decide_eq_true_2 in H1 by (unfold copied_kind in Hk; set_solver).
    destruct H1 as (x & t' & -> & -> & ->). exists x. split; [set_solver|]. intros o Ho Hn. apply elem_of_app. left.
    apply list_elem_of_filter. split; [|done]. apply bool_decide_eq_true_2. by apply elem_of_name_set.
  - destruct (IH _ _ H2 Hin Hk) as (l' & Hl' & Ho). exists l'. set_solver.
Qed.

Lemma refs_kinds a b d : d ∈ refs a b -> copied_kind (w_Kind d).
Proof.
  unfold refs, copied_kind. rewrite elem_of_app.
  by destruct a, b; intros [Hd|Hd]; try (by apply elem_of_nil in Hd); apply list_elem_of_singleton in Hd as ->; cbn; set_solver.
Qed.

Lemma env_kinds c d : d ∈ getEnvDependencyFromContainer c -> copied_kind (w_Kind d).
Proof.
  unfold getEnvDependencyFromContainer. rewrite elem_of_app, !list_elem_of_bind.
  intros [([s|] & Hd & _)|(s & Hd & _)]; [by eapply refs_kinds|set_solver|by eapply refs_kinds].
Qed.

Lemma pod_dependency_kinds spec d : d ∈ (podDependencyModifier spec).2 -> copied_kind (w_Kind d).
Proof.
  unfold podDependencyModifier, volumeModifier, getEnvDependency, getImagePullSecretDependency. cbn.
  rewrite !elem_of_app, !list_elem_of_bind, list_elem_of_fmap.
  intros [[(v & Hd & _)|[(c & Hd & _)|(c & Hd & _)]]|(n & -> & _)].
  - unfold volume_dependency in Hd. destruct (v_Source v); try (by apply elem_of_nil in Hd);
      apply list_elem_of_singleton in Hd as ->; unfold copied_kind; cbn; set_solver.
  - by eapply env_kinds.
  - by eapply env_kinds.
  - unfold copied_kind; cbn; set_solver.
Qed.

Lemma modifier_dependency_kinds ns r r' deps d :
  meshDevModifier ns r = Ok (r', deps) -> d ∈ deps -> copied_kind (w_Kind d).
Proof.
  unfold meshDevModifier. case_bool_decide as Hk.
  - unfold deploymentModifier. destruct (as_deployment r) as [b|]; [|done].
    pose proof (pod_dependency_kinds (d_Pod b) d) as Hd. destruct (podDependencyModifier _). cbn. by intros [= _ <-].
  - case_bool_decide; [destruct (serviceModifier r)|]; cbn; [intros [= _ <-]; set_solver|done|intros [= _ <-]; set_solver].
Qed.

(** What a pod names of config maps and secrets: as volumes, as pull secrets, and in
    the variables of its containers, one by one or all at once.  Init containers that
    wait for other workloads are left out, as they are not copied. *)
Inductive pod_names (spec : PodSpec) : gostring -> gostring -> Prop :=
  | names_config_volume v name : v ∈ Volumes spec -> v_Source v = ConfigMapSource name -> pod_names spec ConfigMap name
  | names_secret_volume v name : v ∈ Volumes spec -> v_Source v = SecretSource name -> pod_names spec Secret name
  | names_config_key c s name : runs_in spec c -> Some s ∈ ct_Env c -> ConfigMapKeyRef s = Some name -> pod_names spec ConfigMap name
  | names_secret_key c s name : runs_in spec c -> Some s ∈ ct_Env c -> SecretKeyRef s = Some name -> pod_names spec Secret name
  | names_config_env c s name : runs_in spec c -> s ∈ ct_EnvFrom c -> ConfigMapRef s = Some name -> pod_names spec ConfigMap name
  | names_secret_env c s name : runs_in spec c -> s ∈ ct_EnvFrom c -> SecretRef s = Some name -> pod_names spec Secret name
  | names_pull name : name ∈ ImagePullSecrets spec -> name <> [] -> pod_names spec Secret name
with runs_in (spec : PodSpec) : Container -> Prop :=
  | runs_container c : c ∈ Containers spec -> runs_in spec c
  | runs_init c :
      c ∈ InitContainers spec -> HasPrefix (ct_Name c) (go "wait-for-pods-") = false ->
      HasPrefix (ct_Name c) (go "wait-for-jobs-") = false ->
      HasPrefix (ct_Name c) (go "nocalhost-dependency-waiting-job") = false -> runs_in spec c.

Lemma env_dependency spec c d :
  runs_in spec c -> d ∈ getEnvDependencyFromContainer c -> d ∈ (podDependencyModifier spec).2.
Proof.
  intros Hc Hd. unfold podDependencyModifier, volumeModifier, getEnvDependency. cbn. rewrite !elem_of_app. left. right.
  destruct Hc as [c Hc|c Hc H1 H2 H3]; [left|right]; apply list_elem_of_bind;
    eexists; (split; [|apply list_elem_of_fmap; exists c; split; [reflexivity|]]); try exact Hd; [done|].
  rewrite remove_where_filter. apply list_elem_of_filter. split; [|done]. unfold waits. by rewrite H1, H2, H3.
Qed.

Lemma elem_of_refs kind name a b :
  (kind = ConfigMap /\ a = Some name) \/ (kind = Secret /\ b = Some name) -> dependency kind name ∈ refs a b.
Proof. unfold refs. rewrite elem_of_app. intros [[-> ->]|[-> ->]]; [left|right]; by apply list_elem_of_singleton. Qed.

Lemma env_key_dependency c s kind name :
  Some s ∈ ct_Env c -> (kind = ConfigMap /\ ConfigMapKeyRef s = Some name) \/ (kind = Secret /\ SecretKeyRef s = Some name) ->
  dependency kind name ∈ getEnvDependencyFromContainer c.
Proof.
  intros Hs Hn. unfold getEnvDependencyFromContainer. apply elem_of_app. left. apply list_elem_of_bind. exists (Some s).
  split; [by apply elem_of_refs|done].
Qed.

Lemma env_from_dependency c s kind name :
  s ∈ ct_EnvFrom c -> (kind = ConfigMap /\ ConfigMapRef s = Some name) \/ (kind = Secret /\ SecretRef s = Some name) ->
  dependency kind name ∈ getEnvDependencyFromContainer c.
Proof.
  intros Hs Hn. unfold getEnvDependencyFromContainer. apply elem_of_app. right. apply list_elem_of_bind. exists s.
  split; [by apply elem_of_refs|done].
Qed.

Lemma volume_is_dependency spec v d : v ∈ Volumes spec -> d ∈ volume_dependency v -> d ∈ (podDependencyModifier spec).2.
Proof.
  intros Hv Hd. unfold podDependencyModifier, volumeModifier. cbn. rewrite !elem_of_app. left. left. apply list_elem_of_bind. eauto.
Qed.

(** Everything a pod names is a dependency. *)
Lemma names_dependency spec kind name : pod_names spec kind name -> dependency kind name ∈ (podDependencyModifier spec).2.
Proof.
  intros [v n Hv Hs|v n Hv Hs|c s n Hc Hs Hn|c s n Hc Hs Hn|c s n Hc Hs Hn|c s n Hc Hs Hn|n Hn Hne].
  1-2: eapply volume_is_dependency; [done|]; unfold volume_dependency; rewrite Hs; by apply list_elem_of_singleton.
  1-2: eapply env_dependency; [done|]; eapply env_key_dependency; [done|auto].
  1-2: eapply env_dependency; [done|]; eapply env_from_dependency; [done|auto].
  unfold podDependencyModifier, volumeModifier, getImagePullSecretDependency. cbn. rewrite !elem_of_app. right.
  apply list_elem_of_fmap. exists n. split; [done|]. by apply list_elem_of_filter.
Qed.

Section order.
Context `{!MapOrder gostring}.

(** C29: A deployment is copied into the dev space after what its pod needs: in every
    successful run, before the copy is applied each config map and secret that the
    pod names - as a volume, as a pull secret, or in the variables of a container
    that is copied - was looked for in a listing of the base namespace, and every
    object of that name in the listing was applied to the dev space. *)
Theorem dependencies_first info r d t :
  o_Kind r = Deployment -> o_Body r = IsDeployment d -> runs (applyWorkload info r) t (Ok tt) ->
  exists r' t1 t2, (o_Kind r', o_Name r', o_Namespace r') = (Deployment, o_Name r, MeshDevNamespace info) /\
    t = t1 ++ EApply true r' None :: t2 /\
    forall kind name, pod_names (d_Pod d) kind name -> exists l, EList kind (BaseNamespace info) l ∈ t1 /\
      forall o, o ∈ l -> o_Name o = name -> EApply true (commonModifier (MeshDevNamespace info) o) None ∈ t1.
Proof.
  intros Hk Hb Hr. unfold applyWorkload in Hr.
  destruct (meshDevModifier (MeshDevNamespace info) r) as [[r' deps]|] eqn:Hm.
  2:{ apply runs_res_bind in Hr as (t0 & t1 & [r1 deps1] & -> & [_ [=]] & _). }
  apply runs_res_bind in Hr as (t0 & t1 & [r1 deps1] & -> & [-> [= -> ->]] & Hr).
  apply runs_res_bind in Hr as (ta & tb & [] & -> & Hdep & Hr).
  apply runs_res_bind in Hr as (tc & td & [] & -> & ->%runs_apply & _).
  assert (deps = (podDependencyModifier (d_Pod d)).2 /\ (o_Kind r', o_Name r', o_Namespace r') = (Deployment, o_Name r, MeshDevNamespace info))
    as [Hdeps Hr'].
  { unfold meshDevModifier, deploymentModifier, as_deployment in Hm. rewrite bool_decide_eq_true_2, Hb in Hm by done.
    cbn [d_Pod] in Hm. destruct (podDependencyModifier (d_Pod d)) as [spec' deps']. cbn in Hm. injection Hm as <- <-. split; [done|]. cbn. by rewrite Hk. }
  exists r', ta, td. split; [done|]. split; [done|]. intros kind name Hd%names_dependency. rewrite <- Hdeps in Hd.
  apply runs_bind in Hdep as (tl & te & rs & -> & Hl & He).
  destruct (group_names_spec _ _ Hd) as (names & Hn%elem_of_range & Hin). cbn in Hn, Hin.
  destruct (runs_dependency_objects _ _ _ _ _ _ Hl Hn (modifier_dependency_kinds _ _ _ _ _ Hm Hd)) as (l & Hl' & Hrs).
  exists l. split; [set_solver|]. intros o Ho Ho'. rewrite <- Ho' in Hin.
  destruct (runs_each _ _ _ _ He o (Hrs _ Ho Hin)) as (t' & Hsub & ->%runs_apply). set_solver.
Qed.
End order.

(** ** Copies of pods *)

Definition all_containers (spec : PodSpec) : list Container := InitContainers spec ++ Containers spec.

Definition mounts_declared (spec : PodSpec) : Prop :=
  forall c m, c ∈ all_containers spec -> m ∈ ct_VolumeMounts c -> m_Name m ∈ v_Name <$> Volumes spec.

(** What a container or a pod names of config maps and secrets. *)
Definition volume_names (kind name : gostring) (v : Volume) : Prop :=
  (kind = ConfigMap /\ v_Source v = ConfigMapSource name) \/ (kind = Secret /\ v_Source v = SecretSource name).

Lemma elem_volume_dependency v d :
  d ∈ volume_dependency v <-> w_Status d = Selected /\ volume_names (w_Kind d) (w_Name d) v.
Proof.
  unfold volume_dependency, volume_names. destruct d as [k n s].
  destruct (v_Source v); cbn; rewrite ?elem_of_nil, ?list_elem_of_singleton; unfold dependency; naive_solver.
Qed.

(** the pod of a copied deployment is well formed if that of the original was:
    it keeps exactly the volumes that can be copied, in order, and loses the mounts
    of the others, so that every mount still names a volume; it loses the init
    containers that wait for other workloads and no other container; and each config
    map and secret of a kept volume is a dependency. *)
Theorem copied_pod_well_formed spec spec' deps :
  podDependencyModifier spec = (spec', deps) -> mounts_declared spec ->
  mounts_declared spec' /\
  Volumes spec' = filter (fun v => copied v = true) (Volumes spec) /\
  ct_Name <$> Containers spec' = ct_Name <$> Containers spec /\
  ct_Name <$> InitContainers spec' = ct_Name <$> filter (fun c => waits c = false) (InitContainers spec) /\
  (forall v kind name, v ∈ Volumes spec' -> volume_names kind name v -> dependency kind name ∈ deps).
Proof.
  unfold podDependencyModifier, volumeModifier, initContainersModifier. cbn. intros [= <- <-] Hm.
  rewrite !remove_where_filter. cbn. split_and!.
  - intros c m Hc Hin. unfold all_containers in Hc. cbn in Hc. rewrite <- fmap_app in Hc.
    apply list_elem_of_fmap in Hc as (c0 & -> & Hc). cbn in Hin. rewrite remove_where_filter in Hin.
    apply list_elem_of_filter in Hin as [Hd Hin]. apply bool_decide_eq_false_1 in Hd.
    assert (c0 ∈ all_containers spec) as Hc0.
    { rewrite elem_of_app, list_elem_of_filter in Hc. unfold all_containers. rewrite elem_of_app. naive_solver. }
    apply (Hm _ _ Hc0), list_elem_of_fmap in Hin as (v & Hn & Hv). apply list_elem_of_fmap. exists v. split; [done|].
    apply list_elem_of_filter. split; [|done]. destruct (copied v) eqn:Hcp; [done|]. destruct Hd.
    apply elem_of_list_to_set, list_elem_of_fmap. exists v. split; [done|]. by apply list_elem_of_filter.
  - apply list_filter_iff. intros v. by destruct (copied v).
  - rewrite <- list_fmap_compose. done.
  - rewrite <- list_fmap_compose. done.
  - intros v kind name [_ Hv]%list_elem_of_filter Hn. rewrite !elem_of_app, list_elem_of_bind. left. left.
    exists v. split; [|done]. by apply elem_volume_dependency.
Qed.

(** ** Which workloads are copied and which removed *)

Lemma workload_map_installed rs (key : gostring) :
  status_in (workload_map (workload_of Installed <$> rs)) key = Installed <-> key ∈ o_key <$> rs.
Proof.
  unfold status_in, workload_map. induction rs as [|r rs IH] using rev_ind.
  - cbn. rewrite lookup_empty. split; [done|]. set_solver.
  - rewrite !fmap_app, elem_of_app. cbn [fmap list_fmap]. rewrite foldl_snoc. change (w_key (workload_of Installed r)) with (o_key r).
    destruct (decide (o_key r = key)) as [<-|Hne].
    + rewrite lookup_insert_eq. split; [|done]. intros _. right. set_solver.
    + rewrite lookup_insert_ne by done. rewrite IH. set_solver.
Qed.

Lemma status_fold_notin (ws : list MeshDevWorkload) (key : gostring) (m : gmap gostring Z) :
  key ∉ w_key <$> ws -> foldl (fun m w => <[w_key w := w_Status w]> m) m ws !! key = m !! key.
Proof.
  revert m. induction ws as [|w ws IH]; intros m Hn; [done|]. cbn. rewrite IH by set_solver.
  apply lookup_insert_ne. set_solver.
Qed.

Lemma status_map_lookup (apps : list MeshDevApp) w :
  NoDup (w_key <$> (apps ≫= a_Workloads)) -> w ∈ apps ≫= a_Workloads -> status_map apps !! w_key w = Some (w_Status w).
Proof.
  unfold status_map. generalize (apps ≫= a_Workloads) as ws, (∅ : gmap gostring Z). induction ws as [|x ws IH]; intros m Hnd Hw; [set_solver|].
  apply NoDup_cons in Hnd as [Hx Hnd]. cbn. apply elem_of_cons in Hw as [->|Hw]; [|by apply IH].
  rewrite status_fold_notin by done. apply lookup_insert_eq.
Qed.

Lemma map_workloads_bind f apps : map_workloads f apps ≫= a_Workloads = f <$> (apps ≫= a_Workloads).
Proof.
  unfold map_workloads. induction apps as [|a apps IH]; [done|]. cbn [fmap list_fmap]. rewrite !bind_cons, fmap_app. cbn.
  by rewrite <- IH.
Qed.

Lemma new_status_key m w : w_key (new_status m w) = w_key w.
Proof. unfold new_status. by repeat case_match. Qed.

(** The description of the workload of an object, if there is one. *)
Definition described (info : MeshDevInfo) (r : Object) (status : Z) : Prop :=
  exists w, w ∈ Apps info ≫= a_Workloads /\ w_key w = o_key r /\ w_Status w = status.

Definition is_in (rs : list Object) (r : Object) : Prop := o_key r ∈ o_key <$> rs.

#[local] Ltac status_cases :=
  repeat case_bool_decide; unfold Selected, Unselected, NotInstalled, ShouldBeInstalled, Installed, ShouldBeDeleted in *;
  cbn in *; first [done|lia|naive_solver lia].

(** C28: When the description names every workload once, an update copies exactly
    the deployments of the base namespace that are described as selected and are not
    in the dev space, and removes exactly those of the base namespace that are
    described as not selected and are in the dev space, together with those that are
    described as to be removed, wherever they are; both in the order of the listing
    of the base namespace. *)
Theorem workloads_tagged (serve : forall c, answer c) info :
  NoDup (w_key <$> (Apps info ≫= a_Workloads)) ->
  let base := serve (CList Deployment (BaseNamespace info)) in
  let dev := serve (CList Deployment (MeshDevNamespace info)) in
  exists info', eval serve (info <-* setWorkloadStatus info; tagResources info) = Done info' /\
    i_install info' `sublist_of` base /\ i_delete info' `sublist_of` base /\
    (forall r, r ∈ i_install info' <-> r ∈ base /\ described info r Selected /\ ~ is_in dev r) /\
    (forall r, r ∈ i_delete info' <->
       r ∈ base /\ ((described info r Unselected /\ is_in dev r) \/ described info r ShouldBeDeleted)).
Proof.
  intros Hnd base dev. eexists. split; [done|]. cbn. fold base dev.
  set (m := workload_map (workload_of Installed <$> dev)). set (apps := map_workloads (new_status m) (Apps info)).
  assert (NoDup (w_key <$> (apps ≫= a_Workloads))) as Hnd'.
  { unfold apps. rewrite map_workloads_bind, <- list_fmap_compose. erewrite list_fmap_ext; [exact Hnd|].
    intros i w _. apply new_status_key. }
  assert (forall r status, status <> NotInstalled -> tagged apps status r = true <->
            exists w, w ∈ Apps info ≫= a_Workloads /\ w_key w = o_key r /\ w_Status (new_status m w) = status) as Htag.
  { intros r status Hs. unfold tagged. rewrite bool_decide_eq_true. split.
    - intros Hst. destruct (status_map apps !! o_key r) as [s|] eqn:Hl; [|done]. cbn in Hst. subst s.
      destruct (decide (o_key r ∈ w_key <$> (apps ≫= a_Workloads))) as [Hin|Hout].
      + apply list_elem_of_fmap in Hin as (w' & Hk & Hw'). rewrite Hk, status_map_lookup in Hl by done.
        unfold apps in Hw'. rewrite map_workloads_bind in Hw'. apply list_elem_of_fmap in Hw' as (w & -> & Hw).
        rewrite new_status_key in Hk. naive_solver.
      + unfold status_map in Hl. rewrite status_fold_notin, lookup_empty in Hl; done.
    - intros (w & Hw & Hk & Hst). rewrite <- Hk, <- (new_status_key m). rewrite status_map_lookup; [done|done|].
      unfold apps. rewrite map_workloads_bind. apply list_elem_of_fmap. eauto. }
  assert (forall w r, w_key w = o_key r -> status_in m (w_key w) = Installed <-> is_in dev r) as Hm.
  { intros w r ->. apply workload_map_installed. }
  split_and!; [apply sublist_filter..| |].
  - intros r. unfold resourcesFilter. rewrite list_elem_of_filter, Htag by done.
    split; [intros [(w & Hw & Hk & Hst) Hr]|intros (Hr & (w & Hw & Hk & Hst) & Hn)].
    + unfold new_status in Hst. rewrite <- (Hm w r Hk). unfold described.
      status_cases.
    + split; [|done]. exists w. split_and!; [done..|]. rewrite <- (Hm w r Hk) in Hn. unfold new_status.
      status_cases.
  - intros r. unfold resourcesFilter. rewrite list_elem_of_filter, Htag by done.
    split; [intros [(w & Hw & Hk & Hst) Hr]|intros (Hr & [[(w & Hw & Hk & Hst) Hn]|(w & Hw & Hk & Hst)])].
    + unfold new_status in Hst. rewrite <- (Hm w r Hk). unfold described.
      status_cases.
    + split; [|done]. exists w. split_and!; [done..|]. rewrite <- (Hm w r Hk) in Hn. unfold new_status.
      status_cases.
    + split; [|done]. exists w. split_and!; [done..|]. unfold new_status.
      status_cases.
Qed.

(** ** Routing

    What Istio does with the routes of a virtual service: the first one that
    matches is used; a route without matches takes every request, otherwise one
    match must hold; a match asks for all its headers.  Expressions and the other
    conditions of a match are parameters. *)
Section routing.
Context (regex : gostring -> gostring -> bool) (other : gostring -> gmap gostring gostring -> bool).

Definition string_matches (m : StringMatch) (v : gostring) : bool :=
  match m with
  | Exact x => bool_decide (v = x)
  | Prefix x => HasPrefix v x
  | Regex x => regex x v
  end.

Definition match_request (req : gmap gostring gostring) (m : HTTPMatchRequest) : bool :=
  other (mr_rest m) req &&
  bool_decide (map_Forall (fun k p => (match req !! k with Some v => string_matches p v | None => false end) = true) (mr_Headers m)).

Definition takes (req : gmap gostring gostring) (r : HTTPRoute) : bool :=
  match hr_Match r with [] => true | ms => existsb (match_request req) ms end.

Definition route_request (routes : list HTTPRoute) (req : gmap gostring gostring) : option HTTPRoute :=
  List.find (takes req) routes.

(** A match without other conditions has none. *)
Hypothesis other_nil : forall req, other [] req = true.

Lemma header_route_takes name devNs h req :
  takes req (header_route name devNs h) = bool_decide (req !! TraceKey h = Some (TraceValue h)).
Proof.
  cbn. unfold match_request. cbn. rewrite other_nil, orb_false_r. cbn. apply bool_decide_ext.
  rewrite map_Forall_singleton. destruct (req !! TraceKey h) as [v|]; cbn; [|done].
  rewrite bool_decide_eq_true. naive_solver.
Qed.

Definition routes_of (o : Object) : list HTTPRoute :=
  match o_Body o with IsVirtualService v => vs_Http v | _ => [] end.

Lemma header_route_named name devNs h : named (route_name devNs) (header_route name devNs h) = true.
Proof. by apply bool_decide_eq_true_2. Qed.

(** C30: After the tracing header was added to a virtual service, requests that carry
    it go to the service's copy in the dev space, and all others as the routes say
    that are not named like the service, which adding the header removes; removing the
    header leaves exactly the routes that are named neither like the service nor like
    the developer's route.  So all other requests are routed as before, and the routes
    are given back exactly, when no route has one of the two names. *)
Theorem header_routed_and_removed vs svc info vs1 route :
  addHeaderToVirtualService vs svc info = Ok (vs1, route) ->
  let devRoute := route_name (MeshDevNamespace info) in
  hr_Route route = [svc_host svc (MeshDevNamespace info)] /\
  (forall req, route_request (routes_of vs1) req =
     if bool_decide (req !! TraceKey (i_Header info) = Some (TraceValue (i_Header info))) then Some route
     else route_request (filter (fun r => hr_Name r <> svc) (routes_of vs)) req) /\
  (exists vs2, deleteHeaderFromVirtualService vs1 info = Ok (vs2, true) /\
    routes_of vs2 = filter (fun r => hr_Name r <> svc /\ hr_Name r <> devRoute) (routes_of vs) /\
    (o_Kind vs2, o_Name vs2, o_Namespace vs2, hosts_of vs2) = (o_Kind vs, o_Name vs, o_Namespace vs, hosts_of vs)) /\
  ((forall r, r ∈ routes_of vs -> hr_Name r <> svc /\ hr_Name r <> devRoute) ->
   filter (fun r => hr_Name r <> svc) (routes_of vs) = routes_of vs /\
   filter (fun r => hr_Name r <> svc /\ hr_Name r <> devRoute) (routes_of vs) = routes_of vs).
Proof.
  unfold addHeaderToVirtualService, as_virtual_service, deleteHeaderFromVirtualService, routes_of, hosts_of.
  destruct (o_Body vs) as [| |v| |] eqn:Hb; try done. intros [= <- <-]. cbv zeta.
  assert (forall name, remove_where (named name) (vs_Http v) = filter (fun r => hr_Name r <> name) (vs_Http v)) as Hkeep.
  { intros name. rewrite remove_where_filter. apply list_filter_iff. intros r. unfold named. by rewrite bool_decide_eq_false. }
  split_and!; [done| | |].
  - intros req. unfold route_request. cbn -[takes header_route]. rewrite Hkeep, header_route_takes. by case_bool_decide.
  - eexists. split.
    + cbn. rewrite header_route_named. done.
    + split; [|done]. cbn. rewrite Hkeep, remove_where_filter, filter_cons, decide_False by (by rewrite header_route_named).
      rewrite list_filter_filter. apply list_filter_iff. intros r. unfold named. rewrite bool_decide_eq_false. tauto.
  - intros Hn. split; apply filter_all; intros r Hr; by apply Hn.
Qed.
End routing.

(** the routes the header was added with are not replaced when it is added
    again: the routes named after the service are removed, while the one that is
    added is named after the dev space. *)
Theorem header_added_twice vs svc info vs1 r1 vs2 r2 :
  svc <> route_name (MeshDevNamespace info) ->
  addHeaderToVirtualService vs svc info = Ok (vs1, r1) ->
  addHeaderToVirtualService vs1 svc info = Ok (vs2, r2) ->
  exists rest, routes_of vs2 = r1 :: r1 :: rest.
Proof.
  unfold addHeaderToVirtualService, as_virtual_service, routes_of. intros Hne.
  destruct (o_Body vs) as [| |v| |]; try done. intros [= <- <-] [= <- <-]. cbn. eexists. f_equal.
  rewrite remove_where_filter, filter_cons, decide_True; [done|]. apply bool_decide_eq_false_2. cbn. congruence.
Qed.

Lemma header_match_current devNs h : outdated devNs h (header_match devNs h) = false.
Proof.
  unfold outdated. cbn. rewrite lookup_singleton_eq, bool_decide_eq_true_2 by done. cbn. apply bool_decide_eq_false_2. naive_solver.
Qed.

Lemma updated_matches devNs h ms :
  existsb (outdated devNs h) ((fun m => if outdated devNs h m then header_match devNs h else m) <$> ms) = false.
Proof.
  induction ms as [|m ms IH]; [done|]. cbn. rewrite IH, orb_false_r. destruct (outdated devNs h m) eqn:E; [|done].
  apply header_match_current.
Qed.

Lemma update_route_name devNs h r : hr_Name (update_route devNs h r) = hr_Name r.
Proof. unfold update_route. by destruct (named _ r). Qed.

Lemma named_update n devNs h r : named n (update_route devNs h r) = named n r.
Proof. unfold named. by rewrite update_route_name. Qed.

Lemma update_route_mine devNs h (routes : list HTTPRoute) :
  filter (fun r => named (route_name devNs) r = true) (update_route devNs h <$> routes) =
  update_route devNs h <$> filter (fun r => named (route_name devNs) r = true) routes.
Proof.
  induction routes as [|r routes IH]; [done|]. cbn [fmap list_fmap]. rewrite !filter_cons.
  destruct (decide (named _ (update_route _ _ _) = true)) as [Hn|Hn]; rewrite named_update in Hn;
    [rewrite decide_True by done|by rewrite decide_False]. cbn. by f_equal.
Qed.

Lemma update_route_current devNs h r :
  named (route_name devNs) r = true -> existsb (outdated devNs h) (hr_Match (update_route devNs h r)) = false.
Proof. intros Hn. unfold update_route. rewrite Hn. apply updated_matches. Qed.

Lemma update_route_idem devNs h r : update_route devNs h (update_route devNs h r) = update_route devNs h r.
Proof.
  unfold update_route at 1. rewrite named_update.
  unfold update_route. destruct (named _ r); [|done]. cbn. f_equal. rewrite <- list_fmap_compose. apply list_fmap_ext.
  intros i m _. cbn. destruct (outdated devNs h m) eqn:E; [by rewrite header_match_current|by rewrite E].
Qed.

Lemma update_route_other devNs h r : named (route_name devNs) r = false -> update_route devNs h r = r.
Proof. unfold update_route. by intros ->. Qed.

(** updating the header is done in one pass and can be undone: the routes of
    other developers and all other routes stay as they are, a second update finds
    nothing to change, and when the developer has one route in the virtual service
    the rollback from the routes that were returned restores all of them. *)
Theorem header_update_undone vs info vs1 old changed :
  updateHeaderToVirtualService vs info = Ok (vs1, old, changed) ->
  (forall r, r ∈ routes_of vs -> hr_Name r <> route_name (MeshDevNamespace info) -> r ∈ routes_of vs1) /\
  (exists vs2 old2, updateHeaderToVirtualService vs1 info = Ok (vs2, old2, false) /\ routes_of vs2 = routes_of vs1) /\
  (length old <= 1 -> forall v1, as_virtual_service vs1 = Ok v1 -> undo_update old v1 = routes_of vs).
Proof.
  unfold updateHeaderToVirtualService, as_virtual_service, routes_of.
  destruct (o_Body vs) as [| |v| |] eqn:Hb; try done. intros [= <- <- <-]. cbn. set (devNs := MeshDevNamespace info).
  set (h := i_Header info). split_and!.
  - intros r Hr Hn. apply list_elem_of_fmap. exists r. split; [|done]. symmetry. apply update_route_other.
    by apply bool_decide_eq_false_2.
  - eexists _, _. split; [repeat f_equal|].
    + rewrite update_route_mine. apply not_true_iff_false. rewrite existsb_exists. intros (r & Hr & Ho).
      apply list_elem_of_In, list_elem_of_fmap in Hr as (r0 & -> & [Hn _]%list_elem_of_filter).
      by rewrite update_route_current in Ho.
    + cbn. rewrite <- list_fmap_compose. apply list_fmap_ext. intros i r _. apply update_route_idem.
  - intros Hone v1 [= <-]. unfold undo_update. cbn. rewrite <- list_fmap_compose.
    transitivity (id <$> vs_Http v); [|apply list_fmap_id]. apply list_fmap_ext. intros i r Hr%list_elem_of_lookup_2. cbn.
    rewrite update_route_name. destruct (named (route_name devNs) r) eqn:Hn.
    + assert (r ∈ filter (fun r => named (route_name devNs) r = true) (vs_Http v)) as Hin by by apply list_elem_of_filter.
      destruct (filter _ _) as [|x [|]]; [set_solver| |cbn in Hone; lia]. apply list_elem_of_singleton in Hin as <-.
      unfold routes_map. cbn. by rewrite lookup_insert_eq.
    + rewrite update_route_other by done. destruct (routes_map _ !! hr_Name r) as [x|] eqn:Hx; [|done]. exfalso.
      apply bool_decide_eq_false_1 in Hn. apply Hn.
      destruct (filter _ _) as [|y [|]] eqn:Hf; [done| |cbn in Hone; lia]. unfold routes_map in Hx. cbn in Hx.
      apply lookup_insert_Some in Hx as [[Hy _]|[_ Hx]]; [|done]. rewrite <- Hy.
      assert (y ∈ [y]) as Hin by set_solver. rewrite <- Hf in Hin.
      apply list_elem_of_filter in Hin as [Hy' _]. by apply bool_decide_eq_true_1 in Hy'.
Qed.

(** ** The applications of a base namespace *)

Lemma elem_of_app_set names n : n ∈ app_set names <-> n ∈ names /\ n <> [].
Proof.
  unfold app_set. induction names as [|x names IH] using rev_ind; [set_solver|]. rewrite foldl_snoc.
  case_bool_decide as Hx; rewrite ?elem_of_union, IH, elem_of_app, list_elem_of_singleton; [set_solver|].
  naive_solver.
Qed.

Lemma elem_of_app_of a n :
  n ∈ app_of a <-> n <> [] /\ (n = get a NocalhostApplicationName \/
                               (get a NocalhostApplicationName = [] /\ n = get a ReleaseNameAnnotation)).
Proof.
  unfold app_of. repeat case_bool_decide; rewrite ?list_elem_of_singleton, ?elem_of_nil; naive_solver.
Qed.

Lemma elem_of_index r ns n :
  o_Namespace r = ns ->
  index_key ns n ∈ IndexByAppName r <-> exists a, o_Annotations r = Some a /\ n ∈ app_of a.
Proof.
  intros <-. unfold IndexByAppName. destruct (o_Annotations r) as [a|]; [|set_solver].
  case_bool_decide as Ha; subst.
  - split; [set_solver|]. intros (a & [= <-] & Hn). unfold app_of, get in Hn. rewrite !lookup_empty in Hn.
    by rewrite !bool_decide_eq_false_2 in Hn by naive_solver; apply elem_of_nil in Hn.
  - rewrite list_elem_of_fmap. split.
    + intros (n' & Hk & Hn). unfold index_key in Hk. simplify_list_eq. eauto.
    + intros (a' & [= <-] & Hn). eauto.
Qed.

Section listed.
Context (serve : forall c, answer c) (info : MeshDevInfo).

Let base : list Object := serve (CList Deployment (BaseNamespace info)).

(** The applications that have a secret, the default one apart. *)
Definition known : list gostring :=
  filter (fun n => n <> DefaultNocalhostApplication)
    (config_app <$> ByIndex IndexAppConfig (BaseNamespace info) (serve (CList Secret (BaseNamespace info)))).

(** The annotation of the application names one that has no secret, and that of
    the helm release one that has. *)
Definition hidden (r : Object) : Prop :=
  exists a, o_Annotations r = Some a /\ get a NocalhostApplicationName <> [] /\ get a NocalhostApplicationName ∉ known /\
    get a ReleaseNameAnnotation ∈ known /\ get a ReleaseNameAnnotation <> [].

Definition app_entry (n : gostring) : MeshDevApp :=
  mkApp n (workload_of NotInstalled <$> ByIndex IndexByAppName (index_key (BaseNamespace info) n) base).

Lemma eval_apps_of_configs configs :
  eval serve (apps_of_configs (BaseNamespace info) configs) =
  Done (app_entry <$> filter (fun n => n <> DefaultNocalhostApplication) (config_app <$> configs)).
Proof.
  induction configs as [|c configs IH]; [done|]. cbn [apps_of_configs fmap list_fmap]. rewrite filter_cons.
  case_bool_decide as Hc; [by rewrite decide_False by naive_solver|]. rewrite decide_True by done.
  rewrite eval_bind. cbn. rewrite eval_bind. unfold list_of in *. cbn in *. by rewrite IH.
Qed.

(** every deployment of the base namespace is listed under its application or
    under the default one, except those whose annotations name two applications of
    which only the helm release has a secret: they are listed nowhere. *)
Theorem base_workloads_listed :
  (forall r, r ∈ base -> o_Namespace r = BaseNamespace info) ->
  (forall r r', r ∈ base -> r' ∈ base -> o_Kind r = o_Kind r' -> o_Name r = o_Name r' -> r = r') ->
  exists apps, eval serve (GetBaseDevSpaceAppInfo info) = Done apps /\
    a_Name <$> apps = known ++ [DefaultNocalhostApplication] /\
    forall r, r ∈ base -> (exists a, a ∈ apps /\ workload_of NotInstalled r ∈ a_Workloads a) <-> ~ hidden r.
Proof.
  intros Hns Hinj. eexists. split.
  { unfold GetBaseDevSpaceAppInfo. rewrite eval_bind. cbn. rewrite eval_bind, eval_apps_of_configs. cbn. done. }
  fold base known. assert (a_Name <$> (app_entry <$> known) = known) as Hnames.
  { rewrite <- list_fmap_compose. apply list_fmap_id. }
  rewrite fmap_app, Hnames. split; [done|]. intros r Hr.
  assert (forall f, workload_of NotInstalled r ∈ workload_of NotInstalled <$> resourcesFilter base f <-> f r = true) as Hlist.
  { intros f. rewrite list_elem_of_fmap. setoid_rewrite list_elem_of_filter. split; [|eauto].
    intros (r' & [= Hk Hn] & Hf & Hr'). by rewrite (Hinj r r'). }
  transitivity (named_app (fun n => bool_decide (n ∈ app_set known)) r = false \/
    exists n a, n ∈ known /\ o_Annotations r = Some a /\ n ∈ app_of a).
  { split.
    - intros (a & [(n & -> & Hn)%list_elem_of_fmap| ->%list_elem_of_singleton]%elem_of_app & Hw); cbn in Hw.
      + right. apply Hlist, bool_decide_eq_true_1, elem_of_index in Hw as (a & Ha & Hin); [|by apply Hns]. eauto.
      + left. apply Hlist in Hw. by destruct (named_app _ r).
    - intros [Hd|(n & a & Hn & Ha & Hin)].
      + eexists. split; [apply elem_of_app; right; by apply list_elem_of_singleton|]. cbn. apply Hlist. by rewrite Hd.
      + exists (app_entry n). split; [apply elem_of_app; left; apply list_elem_of_fmap; eauto|]. cbn. apply Hlist.
        apply bool_decide_eq_true_2, elem_of_index; [by apply Hns|eauto]. }
  unfold named_app, hidden. destruct (o_Annotations r) as [a|]; [|naive_solver].
  setoid_rewrite elem_of_app_of. rewrite orb_false_iff, !bool_decide_eq_false, !elem_of_app_set. split.
  - intros [[H1 H2]|(n & a' & Hn & [= <-] & Hne & [->|[He ->]])]; naive_solver.
  - intros Hh. destruct (decide (get a NocalhostApplicationName = [])) as [He|Hne].
    + destruct (decide (get a ReleaseNameAnnotation ∈ known /\ get a ReleaseNameAnnotation <> [])) as [[]|]; [|naive_solver].
      right. exists (get a ReleaseNameAnnotation), a. naive_solver.
    + destruct (decide (get a NocalhostApplicationName ∈ known)).
      * right. exists (get a NocalhostApplicationName), a. naive_solver.
      * left. split; [naive_solver|]. intros [? ?]. apply Hh. exists a. done.
Qed.
End listed.

(** ** The shared loop variable *)

Section last.
Context `{!MapOrder gostring} (serve : forall c, answer c) (info : MeshDevInfo).

Lemma delete_headers_result vs n v0 :
  match delete_headers info n v0 vs with
  | Ok (n', v) => match last vs with
                  | Some x => exists v' b, v = Some v' /\ deleteHeaderFromVirtualService x info = Ok (v', b)
                  | None => v = v0
                  end
  | Err _ => True
  end.
Proof.
  revert n v0. induction vs as [|x vs IH]; intros n v0; [done|]. cbn [delete_headers].
  destruct (deleteHeaderFromVirtualService x info) as [[x' b]|] eqn:Hx; [|done]. cbn.
  specialize (IH (if b then S n else n) (Some x')). destruct (delete_headers _ _ _ vs) as [[n' v]|]; [|done].
  rewrite last_cons. destruct (last vs) as [z|]; [exact IH|]. subst v. eauto.
Qed.

(** when a workload leaves the dev space the header is removed from one of its
    virtual services only: what is collected for each of them is the address of
    the loop variable, so that the last virtual service is applied in place of all. *)
Theorem header_removed_from_last r m x l y :
  eval serve (MatchVirtualServiceByWorkload r) = Done m ->
  last (concat (range m).*2) = Some x ->
  eval serve (header_vs info r) = Done (Ok l) ->
  o_Name y <> o_Name x ->
  forall v, v ∈ l -> o_Name v = o_Name x /\ o_Name v <> o_Name y.
Proof.
  intros Hm Hx Hl Hy. unfold header_vs in Hl. rewrite eval_bind, Hm in Hl. cbn in Hl.
  pose proof (delete_headers_result (concat (range m).*2) 0 None) as Hd. rewrite Hx in Hd.
  destruct (delete_headers _ _ _ _) as [[n v]|]; [|done]. destruct Hd as (v' & b & -> & Hd). cbn in Hl.
  injection Hl as <-. intros v [-> _]%elem_of_replicate. assert (o_Name v' = o_Name x) as ->; [|done].
  unfold deleteHeaderFromVirtualService in Hd. by go_cases.
Qed.
End last.

(** ** Services without labels *)

Section crash.
Context (serve : forall c, answer c).

Lemma eval_each (f : Object -> prog (res mesh_error unit)) l :
  (forall x, x ∈ l -> eval serve (f x) = Done (Ok tt)) -> eval serve (each f l) = Done (Ok tt).
Proof.
  induction l as [|x l IH]; intros Hf; [done|]. cbn. unfold res_bind. rewrite eval_bind, Hf by set_solver. apply IH. set_solver.
Qed.

(** a service without labels or without annotations crashes the
    initialisation of a dev space: the map of its labels or annotations is nil and
    is assigned to. *)
Theorem unlabelled_service_crashes `{!MapOrder gostring} info sched s :
  let services := serve (CList Service (BaseNamespace info)) in
  (forall o, serve (CApply true o) = None) ->
  (forall s, s ∈ services -> o_Kind s = Service /\ exists b, o_Body s = IsService b) ->
  s ∈ services -> o_Labels s = None \/ o_Annotations s = None ->
  eval serve (initMeshDevSpace info sched) = Panic.
Proof.
  intros services Happly Hkind Hs Hnil. unfold initMeshDevSpace. rewrite eval_bind. cbn.
  unfold res_bind. rewrite eval_bind, eval_each.
  2:{ intros c _. unfold apply_config. case_bool_decide; [done|]. cbn. by rewrite Happly. }
  cbn. rewrite eval_bind. fold services. enough (eval serve (service_copies info services) = Panic) as -> by done.
  clear Happly. revert Hkind Hs. generalize services as l. induction l as [|x l IH]; intros Hkind Hs; [set_solver|].
  cbn [service_copies]. unfold res_bind. rewrite eval_bind. destruct (Hkind x) as (Hk & b & Hb); [set_solver|].
  unfold meshDevModifier. rewrite Hk. rewrite bool_decide_eq_false_2 by done. rewrite bool_decide_eq_true_2 by done.
  unfold serviceModifier, as_service. rewrite Hb. cbn. rewrite eval_bind. unfold genVirtualServiceForMeshDevSpace. cbn.
  apply elem_of_cons in Hs as [<-|Hs].
  - destruct (o_Labels s); [|done]. destruct Hnil as [|Hnil]; [done|]. by rewrite Hnil.
  - destruct (o_Labels x); [|done]. destruct (o_Annotations x); [|done]. cbn. rewrite eval_bind, IH; [done|set_solver..].
Qed.
End crash.

(** a service without a selector, which in Kubernetes selects no pods, is
    taken as a service of every workload: the empty selector matches everything. *)
Theorem selectorless_service_matched r s services :
  s ∈ services -> default ∅ (selector_of s) = ∅ -> s ∈ match_services r services.
Proof.
  intros Hs He. apply list_elem_of_filter. split; [|done]. apply bool_decide_eq_true_2. rewrite He. apply map_empty_subseteq.
Qed.

(** ** The informer factories *)

(** The factories that run are those in the cache, each once, at most twelve. *)
Definition factories_ok (c : Factories) : Prop :=
  NoDup (f_lru c).*1 /\ NoDup (f_lru c).*2 /\ f_running c = list_to_set (f_lru c).*2 /\
  length (f_lru c) <= defaultLRUSize /\ forall f, f ∈ (f_lru c).*2 -> f < f_next c.

Lemma lru_move (key : gostring) (f : nat) (m : list (gostring * nat)) :
  lru_find key m = Some f -> NoDup m.*1 -> (key, f) :: lru_delete key m ≡ₚ m.
Proof.
  unfold lru_find, lru_delete. induction m as [|[k v] m IH]; [done|]. cbn. intros Hf [Hk Hnd]%NoDup_cons.
  case_bool_decide as E; subst; cbn in *.
  - simplify_eq. rewrite bool_decide_eq_false_2 by naive_solver. fold (lru_delete key m). by rewrite lru_delete_notin.
  - rewrite bool_decide_eq_true_2 by done. rewrite <- (IH Hf Hnd) at 2. constructor.
Qed.

Lemma factories_get ns c c' f :
  ns <> [] -> factories_ok c -> getInformerFactory ns c = (c', f) ->
  factories_ok c' /\ f ∈ f_running c' /\ lru_find ns (f_lru c') = Some f.
Proof.
  intros Hns (Hk & Hv & Hr & Hlen & Hlt). unfold getInformerFactory, lru_get.
  destruct (lru_find ns (f_lru c)) as [g|] eqn:Hf.
  - intros [= <- <-]. pose proof (lru_move _ _ _ Hf Hk) as Hp. unfold factories_ok. cbn [f_lru f_running f_next].
    split_and!.
    + by rewrite Hp.
    + by rewrite Hp.
    + rewrite Hr. apply list_to_set_perm_L. by rewrite Hp.
    + by rewrite Hp.
    + intros x. rewrite Hp. apply Hlt.
    + rewrite Hr. apply elem_of_list_to_set. rewrite <- Hp. set_solver.
    + unfold lru_find. cbn. by rewrite bool_decide_eq_true_2.
  - rewrite bool_decide_eq_false_2 by done. unfold f_add. cbn [f_lru]. rewrite Hf. apply lru_find_None in Hf.
    cbn [length]. assert (f_next c ∉ (f_lru c).*2) as Hfresh. { intros ?%Hlt. lia. }
    destruct (defaultLRUSize <? S (length (f_lru c))) eqn:Hfull.
    + apply Nat.ltb_lt in Hfull. destruct (f_lru c) as [|kv m _] eqn:Hm using rev_ind; [cbn in Hfull; unfold defaultLRUSize in Hfull; lia|].
      rewrite length_app in *. cbn [length] in *. rewrite app_comm_cons, last_snoc.
      replace (S (length m + 1) - 1) with (length ((ns, f_next c) :: m)) by (cbn; lia). rewrite take_app_length.
      destruct kv as [k old]. intros [= <- <-]. unfold factories_ok, f_close. cbn [f_lru f_running f_next].
      rewrite (fmap_app fst) in Hk, Hf. rewrite (fmap_app snd) in Hv, Hr, Hfresh, Hlt. cbn [fmap list_fmap fst snd] in *. apply NoDup_app in Hk as (Hk & Hk' & _), Hv as (Hv & Hv' & _).
      split_and!.
      * cbn. apply NoDup_cons. split; [set_solver|done].
      * cbn. apply NoDup_cons. split; [set_solver|done].
      * rewrite Hr. cbn. rewrite list_to_set_app_L. cbn. assert (old ∉ m.*2) by set_solver.
        assert (old <> f_next c) by set_solver. set_solver.
      * cbn. lia.
      * cbn. intros x [->|Hx]%elem_of_cons; [lia|]. assert (x < f_next c); [|lia]. apply Hlt. set_solver.
      * rewrite Hr. assert (old <> f_next c) by set_solver. set_solver.
      * unfold lru_find. cbn. by rewrite bool_decide_eq_true_2.
    + apply Nat.ltb_ge in Hfull. intros [= <- <-]. unfold factories_ok. cbn. split_and!.
      * apply NoDup_cons. done.
      * apply NoDup_cons. done.
      * by rewrite Hr.
      * done.
      * intros x [->|Hx]%elem_of_cons; [lia|]. apply Hlt in Hx. lia.
      * set_solver.
      * unfold lru_find. cbn. by rewrite bool_decide_eq_true_2.
Qed.

Lemma close_running (m : list (gostring * nat)) (s : gset nat) :
  foldl (fun r kf => r ∖ {[snd kf]}) s m = s ∖ list_to_set m.*2.
Proof.
  revert s. induction m as [|[k f] m IH]; intros s; cbn; [set_solver|]. rewrite IH. set_solver.
Qed.

(** C39: for queries by namespace no informer is leaked: after any sequence of them
    exactly the informer factories in the cache run, at most twelve, and closing the
    cache stops all. *)
Theorem informers_not_leaked (l : list gostring) :
  (forall ns, ns ∈ l -> ns <> []) ->
  let c := foldl (fun c ns => fst (getInformerFactory ns c)) no_factories l in
  f_running c = list_to_set (f_lru c).*2 /\ size (f_running c) <= 12 /\ f_running (close_cache c) = ∅.
Proof.
  intros Hl. cbn zeta. set (c := foldl _ _ _). assert (factories_ok c) as Hok.
  { unfold c. clear c. induction l as [|ns l IH] using rev_ind.
    - split_and!; [constructor..|done|cbn; lia|set_solver].
    - rewrite foldl_snoc. destruct (getInformerFactory ns _) as [c' f] eqn:Hg. cbn.
      apply factories_get in Hg as [Hok _]; [done|set_solver|]. apply IH. set_solver. }
  destruct Hok as (_ & Hv & Hr & Hlen & _). split_and!; [done| |].
  - rewrite Hr, size_list_to_set by done. rewrite length_fmap. exact Hlen.
  - unfold close_cache. cbn. rewrite close_running, Hr. set_solver.
Qed.

(** every query for namespaces starts another informer and leaks the one before
    it: the factory is stored under a name it is not looked up by, and replacing a
    value does not stop it.  All of them but the last still run when the cache has
    been closed. *)
Theorem namespace_informers_leak c n :
  factories_ok c -> lru_find [] (f_lru c) = None -> lru_find ClusterInformerFactory (f_lru c) = None ->
  length (f_lru c) < defaultLRUSize ->
  forall k, k < n -> f_next c + k ∈ f_running (close_cache (Nat.iter (S n) (fun c => fst (NamespaceInformer c)) c)).
Proof.
  intros (Hk & Hv & Hr & Hlen & Hlt) Hnil Hcluster Hroom.
  assert (forall n, let c' := Nat.iter (S n) (fun c => fst (NamespaceInformer c)) c in
            f_lru c' = (ClusterInformerFactory, f_next c + n) :: f_lru c /\ f_next c' = f_next c + S n /\
            forall k, k <= n -> f_next c + k ∈ f_running c') as Hiter.
  { clear n. intros n. induction n as [|n IH].
    - cbn. unfold NamespaceInformer, getInformerFactory, lru_get. rewrite Hnil. cbn. unfold f_add. cbn [f_lru].
      rewrite Hcluster. cbn [length]. assert (defaultLRUSize <? S (length (f_lru c)) = false) as -> by (apply Nat.ltb_ge; lia).
      cbn. split_and!; [do 2 f_equal; lia|lia|]. intros k Hk'. set_solver by lia.
    - rewrite Nat.iter_succ. revert IH. generalize (Nat.iter (S n) (fun c => fst (NamespaceInformer c)) c) as c'.
      intros c' (Hl & Hn & Hrun). unfold NamespaceInformer, getInformerFactory, lru_get. rewrite Hl.
      assert (lru_find [] ((ClusterInformerFactory, f_next c + n) :: f_lru c) = None) as ->.
      { apply lru_find_None in Hnil. apply lru_find_None. cbn. rewrite elem_of_cons. naive_solver. }
      rewrite bool_decide_eq_true_2 by done. unfold f_add. cbn [f_lru]. 
      assert (lru_find ClusterInformerFactory ((ClusterInformerFactory, f_next c + n) :: f_lru c) = Some (f_next c + n)) as ->.
      { unfold lru_find. cbn. by rewrite bool_decide_eq_true_2. }
      cbn [fst f_lru f_next f_running]. split_and!.
      + rewrite Hn. f_equal. unfold lru_delete. cbn. rewrite bool_decide_eq_false_2 by naive_solver.
        apply (lru_delete_notin ClusterInformerFactory). by apply lru_find_None.
      + lia.
      + intros k Hk'. destruct (decide (k = S n)) as [->|]; [rewrite Hn; set_solver|].
        apply elem_of_union_r, Hrun. lia. }
  intros k Hkn. destruct (Hiter n) as (Hl & Hn & Hrun). unfold close_cache. cbn [f_running]. rewrite close_running, Hl.
  apply elem_of_difference. split; [apply Hrun; lia|]. cbn. rewrite elem_of_union, elem_of_singleton, elem_of_list_to_set.
  intros [|Hin]; [lia|]. apply Hlt in Hin. lia.
Qed.

(** ** A small cluster *)

Definition lawfulb (e : event) : bool :=
  match e with
  | EList kind ns l => bool_decide (ns = []) || forallb (fun o => bool_decide (o_Kind o = kind /\ o_Namespace o = ns)) l
  | EGet kind ns name (Some o) => bool_decide (o_Kind o = kind /\ o_Namespace o = ns /\ o_Name o = name)
  | _ => true
  end.

Lemma lawfulb_ok t : forallb lawfulb t = true -> Forall lawful t.
Proof.
  rewrite forallb_forall. intros Ht. apply Forall_forall. intros e He%list_elem_of_In. apply Ht in He. destruct e as [| ? ? ? []| | |]; cbn in *; try done.
  - intros Hns. rewrite bool_decide_eq_false_2 in He by done. cbn in He. rewrite forallb_forall in He.
    apply Forall_forall. intros o Ho%list_elem_of_In. apply He in Ho. by apply bool_decide_eq_true_1 in Ho.
  - by apply bool_decide_eq_true_1 in He.
Qed.

Lemma eval_runs {A : Type} serve (p : prog A) a : eval serve p = Done a -> runs p (trace_of serve p) a.
Proof.
  induction p as [b| |c k IH]; cbn; [by intros [= ->]|done|]. intros He. exists (serve c), (trace_of serve (k (serve c))).
  split; [done|by apply IH].
Qed.

Definition app_label : option (gmap gostring gostring) := Some {[go "app" := go "web"]}.

Definition demo_web : Object :=
  mkObject Deployment (go "web") (go "base") app_label (Some {[NocalhostApplicationName := go "shop"]}) no_server_meta
    (IsDeployment (mkDeployment app_label
       (mkPodSpec [mkContainer (go "wait-for-pods-db") [] [] [] []]
          [mkContainer (go "web") [] [] [mkMount (go "conf") []; mkMount (go "data") []] []]
          [mkVolume (go "conf") (ConfigMapSource (go "cfg")); mkVolume (go "data") (OtherSource (go "claim"))] [] []) [] [])).

Definition demo_svc : Object :=
  mkObject Service (go "web") (go "base") app_label (Some ∅) no_server_meta
    (IsService (mkService app_label (go "10.0.0.1") [] [(30080%Z, [])] [] [])).

Definition plain_svc : Object :=
  mkObject Service (go "plain") (go "base") None None no_server_meta (IsService (mkService None [] [] [] [] [])).

Definition demo_vs (name : string) : Object :=
  mkObject VirtualService (go name) (go "base") None None no_server_meta
    (IsVirtualService (mkVirtualService [go "web"] [mkRoute [] [] [go "web"] []] [] [])).

Definition demo_cfg : Object :=
  mkObject ConfigMap (go "cfg") (go "base") None None no_server_meta (IsOther []).

Definition demo_config : Object :=
  mkObject Secret (SecretNamePrefix ++ go "shop") (go "base") None None no_server_meta (IsSecret (Some SecretType) []).

(** The listings of the base namespace; everything that is applied succeeds. *)
Definition demo_serve (services vs : list Object) (c : call) : answer c :=
  match c with
  | CList kind ns =>
      if bool_decide (ns = go "base") then
        if bool_decide (kind = Deployment) then [demo_web]
        else if bool_decide (kind = Service) then services
        else if bool_decide (kind = VirtualService) then vs
        else if bool_decide (kind = ConfigMap) then [demo_cfg]
        else if bool_decide (kind = Secret) then [demo_config] else []
      else []
  | CGet _ _ _ => None
  | CApply _ _ => None
  | CDelete _ => None
  | CSleep => tt
  end.

Definition demo_cluster : forall c, answer c := demo_serve [demo_svc] [demo_vs "web"].

Definition demo_info : MeshDevInfo :=
  mkInfo (go "base") (go "dev") true (mkHeader (go "trace") (go "amy") [])
    [mkApp (go "shop") [mkWorkload Deployment (go "web") Selected]] false [] [] ∅ ∅.

Lemma mesh_writes_confined_witness :
  let t := trace_of demo_cluster (program (fun _ _ => 1) OpUpdate demo_info (fun _ n => Nat.even n)) in
  length t > 8 /\ Forall (fun e => match e with
    | EApply _ o _ => o_Namespace o = go "dev" \/ (o_Kind o = VirtualService /\ o_Namespace o = go "base")
    | EDelete o _ => o_Namespace o = go "dev"
    | _ => True
    end) t.
Proof.
  cbn zeta. split; [apply Nat.ltb_lt; vm_compute; reflexivity|].
  apply (mesh_writes_confined (fun _ _ => 1) OpUpdate demo_info (fun _ n => Nat.even n)).
  - done.
  - apply trace_of_trace.
  - apply lawfulb_ok. vm_compute. reflexivity.
Defined.

Definition demo_copy : Object * list MeshDevWorkload :=
  match meshDevModifier (go "dev") demo_web with Ok x => x | Err _ => (demo_web, []) end.

Lemma dependencies_first_witness :
  exists r' t1 t2 l, trace_of demo_cluster (applyWorkload demo_info demo_web) = t1 ++ EApply true r' None :: t2 /\
    EList ConfigMap (BaseNamespace demo_info) l ∈ t1.
Proof.
  destruct (o_Body demo_web) as [d| | | |] eqn:Hb; try discriminate Hb.
  destruct (dependencies_first demo_info demo_web d
              (trace_of demo_cluster (applyWorkload demo_info demo_web))) as (r' & t1 & t2 & _ & Ht & Hn).
  - reflexivity.
  - exact Hb.
  - apply eval_runs. vm_compute. reflexivity.
  - destruct (Hn ConfigMap (go "cfg")) as (l & Hl & _).
    + injection Hb as <-. eapply names_config_volume; [left|reflexivity].
    + exists r', t1, t2, l. exact (conj Ht Hl).
Defined.

Definition demo_pod : PodSpec := match o_Body demo_web with IsDeployment d => d_Pod d | _ => mkPodSpec [] [] [] [] [] end.

Lemma copied_pod_well_formed_witness : mounts_declared (podDependencyModifier demo_pod).1.
Proof.
  destruct (podDependencyModifier demo_pod) as [spec' deps] eqn:Hp.
  apply (copied_pod_well_formed demo_pod spec' deps Hp).
  intros c m Hc Hm. unfold all_containers, demo_pod in Hc. cbn in Hc. rewrite !elem_of_cons in Hc.
  destruct Hc as [->|[->|Hc]]; [by apply elem_of_nil in Hm| |by apply elem_of_nil in Hc]. cbn in Hm.
  rewrite !elem_of_cons in Hm. destruct Hm as [->|[->|Hm]]; [left|right; left|by apply elem_of_nil in Hm].
Defined.

Lemma workloads_tagged_witness :
  exists info', eval demo_cluster (info <-* setWorkloadStatus demo_info; tagResources info) = Done info' /\
    demo_web ∈ i_install info'.
Proof.
  destruct (workloads_tagged demo_cluster demo_info) as (info' & He & _ & _ & Hi & _).
  - cbn. apply NoDup_singleton.
  - exists info'. split; [exact He|]. apply Hi. split_and!.
    + vm_compute. left.
    + exists (mkWorkload Deployment (go "web") Selected). split_and!; [vm_compute; left|reflexivity|reflexivity].
    + unfold is_in. vm_compute. intros Hn. inversion Hn.
Defined.

Lemma header_routed_and_removed_witness :
  exists vs1 route, addHeaderToVirtualService (demo_vs "web") (go "web") demo_info = Ok (vs1, route) /\
    route_request (fun _ _ => false) (fun _ _ => true) (routes_of vs1) {[go "trace" := go "amy"]} = Some route.
Proof.
  destruct (addHeaderToVirtualService (demo_vs "web") (go "web") demo_info) as [[vs1 route]|] eqn:Ha; [|by vm_compute in Ha].
  exists vs1, route. split; [reflexivity|].
  destruct (header_routed_and_removed (fun _ _ => false) (fun _ _ => true) (fun _ => eq_refl) (demo_vs "web") (go "web") demo_info vs1 route)
    as (_ & Hr & _).
  - exact Ha.
  - rewrite Hr. rewrite bool_decide_eq_true_2; [reflexivity|]. cbn. apply lookup_singleton_eq.
Defined.

Lemma header_added_twice_witness :
  exists vs2 r1 rest, routes_of vs2 = r1 :: r1 :: rest.
Proof.
  destruct (addHeaderToVirtualService (demo_vs "web") (go "web") demo_info) as [[vs1 r1]|] eqn:H1; [|by vm_compute in H1].
  destruct (addHeaderToVirtualService vs1 (go "web") demo_info) as [[vs2 r2]|] eqn:H2.
  - exists vs2, r1. apply (header_added_twice (demo_vs "web") (go "web") demo_info vs1 r1 vs2 r2); [done|exact H1|exact H2].
  - exfalso. revert H2. injection H1 as <- _. by vm_compute.
Defined.

Lemma header_update_undone_witness :
  exists vs1 old changed, updateHeaderToVirtualService (demo_vs "web") demo_info = Ok (vs1, old, changed) /\
    forall v1, as_virtual_service vs1 = Ok v1 -> undo_update old v1 = routes_of (demo_vs "web").
Proof.
  destruct (updateHeaderToVirtualService (demo_vs "web") demo_info) as [[[vs1 old] changed]|] eqn:Hu; [|by vm_compute in Hu].
  exists vs1, old, changed. split; [reflexivity|].
  destruct (header_update_undone (demo_vs "web") demo_info vs1 old changed Hu) as (_ & _ & Hundo). apply Hundo.
  vm_compute in Hu. injection Hu as _ <- _. cbn. lia.
Defined.

Lemma base_workloads_listed_witness :
  exists apps, eval demo_cluster (GetBaseDevSpaceAppInfo demo_info) = Done apps /\
    exists a, a ∈ apps /\ workload_of NotInstalled demo_web ∈ a_Workloads a.
Proof.
  destruct (base_workloads_listed demo_cluster demo_info) as (apps & He & _ & Hl).
  - intros r Hr. cbn in Hr. apply list_elem_of_singleton in Hr as ->. reflexivity.
  - intros r r' Hr Hr' _ _. cbn in Hr, Hr'. apply list_elem_of_singleton in Hr as ->. apply list_elem_of_singleton in Hr' as ->. reflexivity.
  - exists apps. split; [exact He|]. apply Hl; [cbn; left|]. intros (a & Ha & _ & Hn & _). apply Hn.
    injection Ha as <-. vm_compute. left.
Defined.

Lemma header_removed_from_last_witness :
  let serve := demo_serve [demo_svc] [demo_vs "one"; demo_vs "two"] in
  forall l, eval serve (header_vs demo_info demo_web) = Done (Ok l) -> forall v, v ∈ l -> o_Name v <> go "one".
Proof.
  intros serve l Hl v Hv.
  apply (header_removed_from_last serve demo_info demo_web {[go "web" := [demo_vs "one"; demo_vs "two"]]}
           (demo_vs "two") l (demo_vs "one")).
  - vm_compute. reflexivity.
  - vm_compute. reflexivity.
  - exact Hl.
  - intros [=].
  - exact Hv.
Defined.

Lemma unlabelled_service_crashes_witness :
  eval (demo_serve [demo_svc; plain_svc] []) (initMeshDevSpace demo_info (fun _ => true)) = Panic.
Proof.
  apply (unlabelled_service_crashes (demo_serve [demo_svc; plain_svc] []) demo_info (fun _ => true) plain_svc).
  - reflexivity.
  - intros s Hs. change (s ∈ [demo_svc; plain_svc]) in Hs. rewrite !elem_of_cons in Hs.
    destruct Hs as [->|[->|Hs]]; [split; [done|]; by eexists..|by apply elem_of_nil in Hs].
  - change (plain_svc ∈ [demo_svc; plain_svc]). right. left.
  - by left.
Defined.

Lemma selectorless_service_matched_witness : plain_svc ∈ match_services demo_web [demo_svc; plain_svc].
Proof. apply (selectorless_service_matched demo_web plain_svc [demo_svc; plain_svc]); [right; left|reflexivity]. Defined.

Lemma informers_not_leaked_witness :
  size (f_running (foldl (fun c ns => fst (getInformerFactory ns c)) no_factories [go "base"; go "dev"; go "base"])) <= 12.
Proof. apply (informers_not_leaked [go "base"; go "dev"; go "base"]). intros ns Hns. rewrite !elem_of_cons in Hns. destruct Hns as [->|[->|[->|Hns]]]; [done..|by apply elem_of_nil in Hns]. Defined.

Lemma namespace_informers_leak_witness :
  0 ∈ f_running (close_cache (Nat.iter 3 (fun c => fst (NamespaceInformer c)) no_factories)).
Proof.
  apply (namespace_informers_leak no_factories 2).
  - split_and!; [constructor..|reflexivity|cbn; lia|set_solver].
  - reflexivity.
  - reflexivity.
  - cbn. unfold defaultLRUSize. lia.
  - lia.
Defined.
