(* ===== verification/Rbac.v ===== *)
(** * Sharing dev spaces ([internal/nocalhost-api/service/service.go],
      [service/cooperator], the role bindings of
      [pkg/nocalhost-api/pkg/clientgo/client.go])

    A dev space - a namespace, or a whole cluster - is shared with other users as
    cooperators or viewers.  Who may do what is kept in role bindings: the service
    account of a user is a subject of a binding of its kind.  The API server
    follows the bindings with watchers and answers questions about them from the
    watchers' sets.

    The cluster's API server is a state in which any request may fail; databases
    are parameters. *)

From stdpp Require Import sorting.
From S2P Require Import Prelude GoStrings FilePath WatchController.
#[local] Open Scope go_scope.

Definition RoleBindingLabelKey : gostring := go "owner".
Definition RoleBindingLabelVal : gostring := go "nocalhost".
Definition NocalhostLabel : gostring := go "nocalhost-managed".
Definition DefaultSaNs : gostring := go "default".
Definition DefaultRoleBinding : gostring := go "nocalhost-role-binding".
Definition DevRoleName : gostring := go "nocalhost-dev-role".
Definition CooperatorRoleBinding : gostring := go "nocalhost-cooperator-role-binding".
Definition CooperatorRoleName : gostring := go "nocalhost-cooperator-role".
Definition ViewerRoleBinding : gostring := go "nocalhost-viewer-role-binding".
Definition ViewerRoleName : gostring := go "nocalhost-viewer-role".
Definition SystemNamespace : gostring := go "nocalhost-reserved".
Definition SystemNamespaceLabel : gostring := go "nocalhost-reserved".
Definition DevNamespaceLabel : gostring := go "nocalhost".
Definition DevServiceAccountName : gostring := go "nocalhost-dev-account".
Definition SaTokenSuffix : gostring := go "-token-gen-by-nocalhost".

(** ** The API server *)

Record Subject := mkSubject {
  sj_Name : gostring;
  sj_Namespace : gostring
}.

Record Binding := mkBinding {
  b_Role : gostring;
  b_Labels : option (gmap gostring gostring);
  b_Subjects : list Subject
}.

Record PolicyRule := mkRule {
  Verbs : list gostring;
  Resources : list gostring;
  APIGroups : list gostring
}.

(** Objects are under their namespace and name; [faults] says which of the next
    requests fail. *)
Record Server := mkServer {
  roleBindings : gmap (gostring * gostring) Binding;
  clusterRoleBindings : gmap gostring Binding;
  serviceAccounts : gmap (gostring * gostring) (option (gmap gostring gostring));
  secrets : gset (gostring * gostring);
  namespaces : gmap gostring (gmap gostring gostring);
  clusterRoles : gmap gostring (list PolicyRule);
  faults : list bool
}.

Inductive api_error :=
  | NotFound
  | AlreadyExists
  | ServerError.

Definition IsNotFound (e : api_error) : bool := match e with NotFound => true | _ => false end.
Definition IsAlreadyExists (e : api_error) : bool := match e with AlreadyExists => true | _ => false end.

Definition api (A : Type) : Type := Server -> Server * res api_error A.

Definition api_ret {A : Type} (a : A) : api A := fun s => (s, Ok a).
Definition api_fail {A : Type} (e : api_error) : api A := fun s => (s, Err e).

(** The next step sees the result or the error. *)
Definition api_then {A B : Type} (p : api A) (f : res api_error A -> api B) : api B :=
  fun s => let '(s, r) := p s in f r s.

Definition api_bind {A B : Type} (p : api A) (f : A -> api B) : api B :=
  api_then p (fun r => match r with Ok a => f a | Err e => api_fail e end).

Notation "x <-^ p ; q" := (api_bind p (fun x => q)) (at level 100, p at next level, right associativity) : go_scope.

Definition with_faults (s : Server) (f : list bool) : Server :=
  mkServer (roleBindings s) (clusterRoleBindings s) (serviceAccounts s) (secrets s) (namespaces s) (clusterRoles s) f.

Definition request {A : Type} (f : api A) : api A := fun s =>
  match faults s with
  | true :: fs => (with_faults s fs, Err ServerError)
  | false :: fs => f (with_faults s fs)
  | [] => f s
  end.

Definition with_rbs (s : Server) (m : gmap (gostring * gostring) Binding) : Server :=
  mkServer m (clusterRoleBindings s) (serviceAccounts s) (secrets s) (namespaces s) (clusterRoles s) (faults s).
Definition with_crbs (s : Server) (m : gmap gostring Binding) : Server :=
  mkServer (roleBindings s) m (serviceAccounts s) (secrets s) (namespaces s) (clusterRoles s) (faults s).
Definition with_sas (s : Server) (m : gmap (gostring * gostring) (option (gmap gostring gostring))) : Server :=
  mkServer (roleBindings s) (clusterRoleBindings s) m (secrets s) (namespaces s) (clusterRoles s) (faults s).
Definition with_secrets (s : Server) (m : gset (gostring * gostring)) : Server :=
  mkServer (roleBindings s) (clusterRoleBindings s) (serviceAccounts s) m (namespaces s) (clusterRoles s) (faults s).
Definition with_namespaces (s : Server) (m : gmap gostring (gmap gostring gostring)) : Server :=
  mkServer (roleBindings s) (clusterRoleBindings s) (serviceAccounts s) (secrets s) m (clusterRoles s) (faults s).
Definition with_roles (s : Server) (m : gmap gostring (list PolicyRule)) : Server :=
  mkServer (roleBindings s) (clusterRoleBindings s) (serviceAccounts s) (secrets s) (namespaces s) m (faults s).

(** Creating in a namespace that does not exist is refused. *)
Definition get_rb (ns name : gostring) : api Binding := request (fun s =>
  match roleBindings s !! (ns, name) with Some b => (s, Ok b) | None => (s, Err NotFound) end).
Definition create_rb (ns name : gostring) (b : Binding) : api unit := request (fun s =>
  match namespaces s !! ns, roleBindings s !! (ns, name) with
  | None, _ => (s, Err NotFound)
  | _, Some _ => (s, Err AlreadyExists)
  | _, None => (with_rbs s (<[(ns, name) := b]> (roleBindings s)), Ok tt)
  end).
Definition update_rb (ns name : gostring) (b : Binding) : api unit := request (fun s =>
  match roleBindings s !! (ns, name) with
  | Some _ => (with_rbs s (<[(ns, name) := b]> (roleBindings s)), Ok tt)
  | None => (s, Err NotFound)
  end).

Definition get_crb (name : gostring) : api Binding := request (fun s =>
  match clusterRoleBindings s !! name with Some b => (s, Ok b) | None => (s, Err NotFound) end).
Definition create_crb (name : gostring) (b : Binding) : api unit := request (fun s =>
  match clusterRoleBindings s !! name with
  | Some _ => (s, Err AlreadyExists)
  | None => (with_crbs s (<[name := b]> (clusterRoleBindings s)), Ok tt)
  end).
Definition update_crb (name : gostring) (b : Binding) : api unit := request (fun s =>
  match clusterRoleBindings s !! name with
  | Some _ => (with_crbs s (<[name := b]> (clusterRoleBindings s)), Ok tt)
  | None => (s, Err NotFound)
  end).

(** ** Role bindings ([clientgo/client.go]) *)

(** The clusters by kubeconfig; no client can be made for a kubeconfig without. *)
Abbreviation World := (gmap gostring Server).

Section client.

(** The time as the labels have it. *)
Context (now : gostring).

Definition owner_label : gmap gostring gostring := {[RoleBindingLabelKey := RoleBindingLabelVal]}.

Definition new_binding (role : gostring) : Binding := mkBinding role (Some owner_label) [].

(** The subject that is granted the role, and the label that makes watchers see
    the change. *)
Definition append_subject (sa saNs : gostring) (b : Binding) : Binding :=
  mkBinding (b_Role b) (Some (<[NocalhostLabel := now]> (default ∅ (b_Labels b))))
    (b_Subjects b ++ (if bool_decide (sa <> []) then [mkSubject sa saNs] else [])).

Definition has_name (sa : gostring) (b : Binding) : bool := bool_decide (sa ∈ sj_Name <$> b_Subjects b).

Definition append_binding (get : api Binding) (create update : Binding -> api unit) (role sa saNs : gostring) : api unit :=
  api_then get (fun r =>
    match r with
    | Ok b => if has_name sa b then api_ret tt else update (append_subject sa saNs b)
    | Err e => if IsNotFound e then create (append_subject sa saNs (new_binding role)) else api_fail e
    end).

Definition AppendRoleBinding (name ns role sa saNs : gostring) : api unit :=
  append_binding (get_rb ns name) (create_rb ns name) (update_rb ns name) role sa saNs.

Definition AppendClusterRoleBinding (name role sa saNs : gostring) : api unit :=
  append_binding (get_crb name) (create_crb name) (update_crb name) role sa saNs.

(** The first subject of the name and namespace. *)
Fixpoint remove_subject (sa saNs : gostring) (l : list Subject) : list Subject :=
  match l with
  | [] => []
  | x :: l => if bool_decide (sj_Name x = sa /\ sj_Namespace x = saNs) then l else x :: remove_subject sa saNs l
  end.

Definition removed (sa saNs : gostring) (b : Binding) : Binding :=
  mkBinding (b_Role b) (b_Labels b) (remove_subject sa saNs (b_Subjects b)).

Definition RemoveRoleBinding (name ns sa saNs : gostring) : api unit :=
  api_then (get_rb ns name) (fun r =>
    match r with
    | Err e => if IsNotFound e then api_ret tt else api_fail e
    | Ok b => if bool_decide (b_Subjects b = []) then api_ret tt else update_rb ns name (removed sa saNs b)
    end).

(** The test of the error is the other way round. *)
Definition RemoveClusterRoleBinding (name sa saNs : gostring) : api unit :=
  api_then (get_crb name) (fun r =>
    match r with
    | Err e => if negb (IsNotFound e) then api_ret tt else api_fail e
    | Ok b => if bool_decide (b_Subjects b = []) then api_ret tt else update_crb name (removed sa saNs b)
    end).

(** [labels] is a new map when the binding has none, and is not assigned to it. *)
Definition labelled (b : Binding) : Binding :=
  mkBinding (b_Role b) (<[RoleBindingLabelKey := RoleBindingLabelVal]> <$> b_Labels b) (b_Subjects b).

Definition UpdateRoleBindingForNocalhostLabel (name ns : gostring) : api unit :=
  b <-^ get_rb ns name; update_rb ns name (labelled b).

Definition UpdateClusterRoleBindingForNocalhostLabel (name : gostring) : api unit :=
  b <-^ get_crb name; update_crb name (labelled b).

Definition CreateRoleBinding (name ns role sa : gostring) : api unit :=
  create_rb ns name (mkBinding role None (if bool_decide (sa <> []) then [mkSubject sa ns] else [])).

Definition CreateClusterRoleBinding (name ns role sa : gostring) : api unit :=
  create_crb name (mkBinding role None (if bool_decide (sa <> []) then [mkSubject sa ns] else [])).

(** *** Service accounts, namespaces and roles *)

Definition sa_name (name : gostring) : gostring := if bool_decide (name = []) then DevServiceAccountName else name.

Definition sa_labels : gmap gostring gostring := {[RoleBindingLabelKey := RoleBindingLabelVal; NocalhostLabel := now]}.

Definition create_sa (ns name : gostring) : api unit := request (fun s =>
  match serviceAccounts s !! (ns, name) with
  | Some _ => (s, Err AlreadyExists)
  | None => (with_sas s (<[(ns, name) := Some sa_labels]> (serviceAccounts s)), Ok tt)
  end).

Definition create_secret (ns name : gostring) : api unit := request (fun s =>
  if bool_decide ((ns, name) ∈ secrets s) then (s, Err AlreadyExists)
  else (with_secrets s ({[(ns, name)]} ∪ secrets s), Ok tt)).

Definition CreateServiceAccount (name ns : gostring) : api unit :=
  let name := sa_name name in
  _ <-^ create_sa ns name; create_secret ns (name ++ SaTokenSuffix).

Definition get_sa (ns name : gostring) : api (option (gmap gostring gostring)) := request (fun s =>
  match serviceAccounts s !! (ns, name) with Some l => (s, Ok l) | None => (s, Err NotFound) end).

Definition update_sa (ns name : gostring) (l : gmap gostring gostring) : api unit := request (fun s =>
  match serviceAccounts s !! (ns, name) with
  | Some _ => (with_sas s (<[(ns, name) := Some l]> (serviceAccounts s)), Ok tt)
  | None => (s, Err NotFound)
  end).

Definition DeleteServiceAccount (name ns : gostring) : api unit :=
  request (fun s =>
    match serviceAccounts s !! (ns, sa_name name) with
    | Some _ => (with_sas s (delete (ns, sa_name name) (serviceAccounts s)), Ok tt)
    | None => (s, Ok tt)
    end).

(** [retry.OnError]: the last error when no try is left. *)
Fixpoint retry_on (steps : nat) (last : api_error) (retriable : api_error -> bool) (fn : api unit) : api unit :=
  match steps with
  | 0 => api_fail last
  | S steps =>
      api_then fn (fun r => match r with
                            | Ok _ => api_ret tt
                            | Err e => if retriable e then retry_on steps e retriable fn else api_fail e
                            end)
  end.

Definition DefaultBackoffSteps : nat := 4.

Definition RefreshServiceAccount (name ns : gostring) : api unit :=
  let name := sa_name name in
  api_then (get_sa ns name) (fun r =>
    match r with
    | Ok labels => api_then (update_sa ns name (<[NocalhostLabel := now]> (default ∅ labels))) (fun _ => api_ret tt)
    | Err _ => api_then (retry_on DefaultBackoffSteps ServerError (fun e => negb (IsAlreadyExists e)) (CreateServiceAccount name ns))
                 (fun _ => api_ret tt)
    end).

Definition ns_labels (ns : gostring) (labels : gmap gostring gostring) : gmap gostring gostring :=
  if bool_decide (default [] (labels !! go "env") = []) then
    <[go "env" := if bool_decide (ns = SystemNamespace) then SystemNamespaceLabel else DevNamespaceLabel]> labels
  else labels.

Definition CreateNS (ns : gostring) (labels : gmap gostring gostring) : api unit := request (fun s =>
  match namespaces s !! ns with
  | Some _ => (s, Err AlreadyExists)
  | None => (with_namespaces s (<[ns := ns_labels ns labels]> (namespaces s)), Ok tt)
  end).

Definition CreateClusterRole (name : gostring) (rules : list PolicyRule) : api unit := request (fun s =>
  match clusterRoles s !! name with
  | Some _ => (s, Err AlreadyExists)
  | None => (with_roles s (<[name := rules]> (clusterRoles s)), Ok tt)
  end).

Definition UpdateClusterRole (name : gostring) (rules : list PolicyRule) : api unit :=
  _ <-^ request (fun s => match clusterRoles s !! name with Some _ => (s, Ok tt) | None => (s, Err NotFound) end);
  request (fun s => match clusterRoles s !! name with
                    | Some _ => (with_roles s (<[name := rules]> (clusterRoles s)), Ok tt)
                    | None => (s, Err NotFound)
                    end).

(** ** The services ([service.go]) *)

(** "If not exist": an object that exists is not an error. *)
Definition ine (p : api unit) : api unit :=
  api_then p (fun r => match r with
                       | Err e => if IsAlreadyExists e then api_ret tt else api_fail e
                       | Ok _ => api_ret tt
                       end).

Definition createOrUpdateServiceAccountINE (saName saNs : gostring) : api unit := ine (CreateServiceAccount saName saNs).
Definition CreateNamespaceINE (ns : gostring) : api unit := ine (CreateNS ns ∅).

Definition star : gostring := go "*".
Definition all_rules : list PolicyRule := [mkRule [star] [star] [star]].
Definition viewer_rules : list PolicyRule :=
  [mkRule [go "get"; go "list"; go "watch"] [star] [star]; mkRule [star] [go "pods/portforward"] [star]].

(** The requests of the three goroutines; the role of viewers is brought up to
    date when it exists. *)
Definition create_viewer_role : api unit :=
  api_then (CreateClusterRole ViewerRoleName viewer_rules) (fun r =>
    match r with
    | Ok _ => api_ret tt
    | Err e => if IsAlreadyExists e then api_then (UpdateClusterRole ViewerRoleName viewer_rules) (fun _ => api_ret tt)
               else api_fail e
    end).

(** The goroutines one after the other, the caller taking an error when there is
    one; [role_step] below has the other interleavings. *)
Definition createClusterAdminRoleINE : api unit :=
  api_then (ine (CreateClusterRole DevRoleName all_rules)) (fun r1 =>
  api_then (ine (CreateClusterRole CooperatorRoleName all_rules)) (fun r2 =>
  api_then create_viewer_role (fun r3 =>
    match r1, r2, r3 with
    | Err e, _, _ | _, Err e, _ | _, _, Err e => api_fail e
    | _, _, _ => api_ret tt
    end))).

Definition CreateOrUpdateRoleBindingINE (ns saName saNs rb role : gostring) : api unit :=
  AppendRoleBinding rb ns role saName saNs.
Definition RemoveRoleBindingIfPresent (ns saName saNs rb : gostring) : api unit := RemoveRoleBinding rb ns saName saNs.

(** The service account is refreshed when the call has returned. *)
Definition deferred_refresh (saName saNs : gostring) (p : api unit) : api unit :=
  api_then p (fun r => api_then (RefreshServiceAccount saName saNs) (fun _ s => (s, r))).

Definition CreateOrUpdateClusterRoleBindingINE (saName saNs crb role : gostring) : api unit :=
  deferred_refresh saName saNs (AppendClusterRoleBinding crb role saName saNs).
Definition RemoveClusterRoleBindingIfPresent (saName saNs crb : gostring) : api unit :=
  deferred_refresh saName saNs (RemoveClusterRoleBinding crb saName saNs).

(** The databases' caches. *)
Record ClusterModel := mkCluster {
  cl_ID : Z;
  cl_KubeConfig : gostring;
  cl_UserId : Z;
  cl_Name : gostring
}.

Record UserModel := mkUser {
  u_ID : Z;
  u_SaName : gostring;
  u_IsAdmin : bool;
  u_Name : gostring
}.

Record Db := mkDb {
  db_cluster : Z -> option ClusterModel;
  db_user : Z -> option UserModel
}.

Inductive svc_error :=
  | ErrClusterNotFound
  | ErrKubeConfig
  | ErrUserNotFound
  | ErrServiceAccountCreate
  | ErrClusterRoleCreate
  | ErrNameSpaceCreate
  | ErrRoleBindingCreate
  | ErrRoleBindingRemove
  | ErrClusterRoleBindingCreate
  | ErrClusterRoleBindingRemove.

(** A computation over the clusters. *)
Definition svc (A : Type) : Type := World -> World * res svc_error A.

Definition svc_ret {A : Type} (a : A) : svc A := fun w => (w, Ok a).
Definition svc_fail {A : Type} (e : svc_error) : svc A := fun w => (w, Err e).
Definition svc_bind {A B : Type} (p : svc A) (f : A -> svc B) : svc B :=
  fun w => match p w with (w, Ok a) => f a w | (w, Err e) => (w, Err e) end.

Notation "x <-& p ; q" := (svc_bind p (fun x => q)) (at level 100, p at next level, right associativity) : go_scope.

(** A call of the client, with the error reported for any of its errors. *)
Definition on_client (kube : gostring) (p : api unit) (e : svc_error) : svc unit := fun w =>
  match w !! kube with
  | None => (w, Err ErrKubeConfig)
  | Some s => let '(s, r) := p s in
              (<[kube := s]> w, match r with Ok _ => Ok tt | Err _ => Err e end)
  end.

Definition of_db {A : Type} (a : option A) (e : svc_error) : svc A :=
  match a with Some a => svc_ret a | None => svc_fail e end.

Definition new_client (kube : gostring) : svc unit := fun w =>
  match w !! kube with Some _ => (w, Ok tt) | None => (w, Err ErrKubeConfig) end.

Context (db : Db).

(** The kubeconfig of the cluster and the service account of the user. *)
Definition PrepareServiceAccountAndClientGo (clusterId userId : Z) : svc (gostring * gostring) :=
  cl <-& of_db (db_cluster db clusterId) ErrClusterNotFound;
  let kube := cl_KubeConfig cl in
  _ <-& new_client kube;
  u <-& of_db (db_user db userId) ErrUserNotFound;
  _ <-& on_client kube (createOrUpdateServiceAccountINE (u_SaName u) DefaultSaNs) ErrServiceAccountCreate;
  _ <-& on_client kube createClusterAdminRoleINE ErrClusterRoleCreate;
  svc_ret (kube, u_SaName u).

Definition AuthorizeNsToDefaultSa (clusterId userId : Z) (ns : gostring) : svc unit :=
  ks <-& PrepareServiceAccountAndClientGo clusterId userId;
  _ <-& on_client (fst ks) (CreateNamespaceINE ns) ErrNameSpaceCreate;
  on_client (fst ks) (CreateOrUpdateRoleBindingINE ns (go "default") ns DefaultRoleBinding DevRoleName) ErrRoleBindingCreate.

Definition AuthorizeNsToUser (clusterId userId : Z) (ns : gostring) : svc unit :=
  ks <-& PrepareServiceAccountAndClientGo clusterId userId;
  _ <-& on_client (fst ks) (CreateNamespaceINE ns) ErrNameSpaceCreate;
  on_client (fst ks) (CreateOrUpdateRoleBindingINE ns (snd ks) DefaultSaNs DefaultRoleBinding DevRoleName) ErrRoleBindingCreate.

Definition UnAuthorizeNsToUser (clusterId userId : Z) (ns : gostring) : svc unit :=
  ks <-& PrepareServiceAccountAndClientGo clusterId userId;
  on_client (fst ks) (RemoveRoleBindingIfPresent ns (snd ks) DefaultSaNs DefaultRoleBinding) ErrRoleBindingRemove.

Definition AuthorizeClusterToUser (clusterId userId : Z) : svc unit :=
  ks <-& PrepareServiceAccountAndClientGo clusterId userId;
  on_client (fst ks) (CreateOrUpdateClusterRoleBindingINE (snd ks) DefaultSaNs DefaultRoleBinding DevRoleName)
    ErrClusterRoleBindingCreate.

(** A binding that is not found is no error here. *)
Definition not_found_ok (p : api unit) : api unit :=
  api_then p (fun r => match r with
                       | Err e => if IsNotFound e then api_ret tt else api_fail e
                       | Ok _ => api_ret tt
                       end).

Definition UnAuthorizeClusterToUser (clusterId userId : Z) : svc unit :=
  ks <-& PrepareServiceAccountAndClientGo clusterId userId;
  on_client (fst ks) (not_found_ok (RemoveClusterRoleBindingIfPresent (snd ks) DefaultSaNs DefaultRoleBinding))
    ErrClusterRoleBindingRemove.

(** ** Sharing a namespace ([ns_scope/cooperator_service.go]) *)

Definition RemoveFromCooperator (clusterId userId : Z) (ns : gostring) : svc unit :=
  ks <-& PrepareServiceAccountAndClientGo clusterId userId;
  if bool_decide (snd ks = []) then svc_ret tt
  else on_client (fst ks) (RemoveRoleBindingIfPresent ns (snd ks) DefaultSaNs CooperatorRoleBinding) ErrRoleBindingRemove.

Definition RemoveFromViewer (clusterId userId : Z) (ns : gostring) : svc unit :=
  ks <-& PrepareServiceAccountAndClientGo clusterId userId;
  on_client (fst ks) (RemoveRoleBindingIfPresent ns (snd ks) DefaultSaNs ViewerRoleBinding) ErrRoleBindingRemove.

Definition AsCooperator (clusterId userId : Z) (ns : gostring) : svc unit :=
  ks <-& PrepareServiceAccountAndClientGo clusterId userId;
  if bool_decide (snd ks = []) then svc_ret tt
  else
    _ <-& on_client (fst ks) (CreateNamespaceINE ns) ErrNameSpaceCreate;
    _ <-& on_client (fst ks) (CreateOrUpdateRoleBindingINE ns (snd ks) DefaultSaNs CooperatorRoleBinding CooperatorRoleName)
            ErrRoleBindingCreate;
    RemoveFromViewer clusterId userId ns.

Definition AsViewer (clusterId userId : Z) (ns : gostring) : svc unit :=
  ks <-& PrepareServiceAccountAndClientGo clusterId userId;
  _ <-& on_client (fst ks) (CreateNamespaceINE ns) ErrNameSpaceCreate;
  _ <-& on_client (fst ks) (CreateOrUpdateRoleBindingINE ns (snd ks) DefaultSaNs ViewerRoleBinding ViewerRoleName)
          ErrRoleBindingCreate;
  RemoveFromCooperator clusterId userId ns.

(** ** Sharing a cluster ([cluster_scope/cluster_cooperator_service.go]) *)

Definition constCooperator : gostring := go "cooperator".
Definition constViewer : gostring := go "viewer".

Definition share_crb (saName type : gostring) : gostring := Join [go "nocalhost"; saName; type] (go ":").
Definition cooperatorCRB (saName : gostring) : gostring := share_crb saName constCooperator.
Definition viewerCRB (saName : gostring) : gostring := share_crb saName constViewer.

(** What every function begins with: nothing is done for a user without a service
    account. *)
Definition cluster_call (clusterId fromUserId shareUserId : Z) (f : gostring -> gostring -> gostring -> svc unit) : svc unit :=
  ks <-& PrepareServiceAccountAndClientGo clusterId fromUserId;
  if bool_decide (snd ks = []) then svc_ret tt
  else
    u <-& of_db (db_user db shareUserId) ErrUserNotFound;
    f (fst ks) (snd ks) (u_SaName u).

Definition RemoveFromClusterCooperator (clusterId fromUserId shareUserId : Z) : svc unit :=
  cluster_call clusterId fromUserId shareUserId (fun kube owner sa =>
    on_client kube (RemoveClusterRoleBindingIfPresent sa DefaultSaNs (cooperatorCRB owner)) ErrRoleBindingCreate).

Definition RemoveFromClusterViewer (clusterId fromUserId shareUserId : Z) : svc unit :=
  cluster_call clusterId fromUserId shareUserId (fun kube owner sa =>
    on_client kube (RemoveClusterRoleBindingIfPresent sa DefaultSaNs (viewerCRB owner)) ErrRoleBindingCreate).

Definition AsClusterCooperator (clusterId fromUserId shareUserId : Z) : svc unit :=
  cluster_call clusterId fromUserId shareUserId (fun kube owner sa =>
    _ <-& on_client kube (CreateOrUpdateClusterRoleBindingINE sa DefaultSaNs (cooperatorCRB owner) CooperatorRoleName)
            ErrRoleBindingCreate;
    RemoveFromClusterViewer clusterId fromUserId shareUserId).

Definition AsClusterViewer (clusterId fromUserId shareUserId : Z) : svc unit :=
  cluster_call clusterId fromUserId shareUserId (fun kube owner sa =>
    _ <-& on_client kube (CreateOrUpdateClusterRoleBindingINE sa DefaultSaNs (viewerCRB owner) ViewerRoleName)
            ErrRoleBindingCreate;
    RemoveFromClusterCooperator clusterId fromUserId shareUserId).

(** The service accounts are those the watcher has. *)
Fixpoint remove_all (kube crb : gostring) (sas : list gostring) : svc unit :=
  match sas with
  | [] => svc_ret tt
  | sa :: sas =>
      _ <-& on_client kube (RemoveClusterRoleBindingIfPresent sa DefaultSaNs crb) ErrRoleBindingRemove;
      remove_all kube crb sas
  end.

Definition RemoveAllFrom (crb : gostring -> gostring) (clusterId fromUserId : Z) (sas : list gostring) : svc unit :=
  ks <-& PrepareServiceAccountAndClientGo clusterId fromUserId;
  if bool_decide (snd ks = []) then svc_ret tt else remove_all (fst ks) (crb (snd ks)) sas.

Definition RemoveAllFromViewer : Z -> Z -> list gostring -> svc unit := RemoveAllFrom viewerCRB.
Definition RemoveAllFromCooperator : Z -> Z -> list gostring -> svc unit := RemoveAllFrom cooperatorCRB.
End client.

(** ** The watcher of role bindings ([ns_scope/role_binding_watcher.go]) *)

(** A binding as the informer has it. *)
Record RoleBinding := mkRB {
  rb_Namespace : gostring;
  rb_Name : gostring;
  rb_Subjects : list gostring
}.

Record roleBindingWatcher := mkRBW {
  adminSas : gmap gostring (gset gostring);
  viewerSas : gmap gostring (gset gostring);
  cooperatorSas : gmap gostring (gset gostring)
}.

Definition NewRoleBindingWatcher : roleBindingWatcher := mkRBW ∅ ∅ ∅.

Definition subject_set (l : list gostring) : gset gostring := foldl (fun s x => {[x]} ∪ s) ∅ l.

Definition rb_join (rb : RoleBinding) (w : roleBindingWatcher) : roleBindingWatcher :=
  let sas := subject_set (rb_Subjects rb) in
  if bool_decide (rb_Name rb = ViewerRoleBinding) then
    mkRBW (adminSas w) (<[rb_Namespace rb := sas]> (viewerSas w)) (cooperatorSas w)
  else if bool_decide (rb_Name rb = DefaultRoleBinding) then
    mkRBW (<[rb_Namespace rb := sas]> (adminSas w)) (viewerSas w) (cooperatorSas w)
  else if bool_decide (rb_Name rb = CooperatorRoleBinding) then
    mkRBW (adminSas w) (viewerSas w) (<[rb_Namespace rb := sas]> (cooperatorSas w))
  else w.

(** The parts of the key; both are empty unless something follows the slash. *)
Definition key_parts (key : gostring) : gostring * gostring :=
  match Index key slash with
  | Some idx => if bool_decide (0 < idx /\ S idx < length key) then (take idx key, drop (S idx) key) else ([], [])
  | None => ([], [])
  end.

(** Nothing is done for a key without a slash after its first byte. *)
Definition rb_Delete (key : gostring) (w : roleBindingWatcher) : roleBindingWatcher :=
  match Index key slash with
  | Some (S _) =>
      let '(ns, name) := key_parts key in
      if bool_decide (name = ViewerRoleBinding) then mkRBW (adminSas w) (delete ns (viewerSas w)) (cooperatorSas w)
      else if bool_decide (name = DefaultRoleBinding) then mkRBW (delete ns (adminSas w)) (viewerSas w) (cooperatorSas w)
      else if bool_decide (name = CooperatorRoleBinding) then mkRBW (adminSas w) (viewerSas w) (delete ns (cooperatorSas w))
      else w
  | _ => w
  end.

#[export] Instance rb_watcher : Watcher roleBindingWatcher RoleBinding := {
  CreateOrUpdate := fun key rb w => (rb_join rb w, true);
  Delete := fun key w => (rb_Delete key w, true)
}.

(** *** Questions ([role_binding_watcher_boss.go]) *)

Definition exists_in (m : gmap gostring (gset gostring)) (saName : gostring) `{!MapOrder gostring} : list gostring :=
  merge_sort str_le (filter (fun ns => saName ∈ default ∅ (m !! ns)) (range m).*1).

Definition GetAllOwnNs `{!MapOrder gostring} (w : roleBindingWatcher) (saName : gostring) : list gostring :=
  exists_in (adminSas w) saName.
Definition GetAllCoopNs `{!MapOrder gostring} (w : roleBindingWatcher) (saName : gostring) : list gostring :=
  exists_in (cooperatorSas w) saName.
Definition GetAllViewNs `{!MapOrder gostring} (w : roleBindingWatcher) (saName : gostring) : list gostring :=
  exists_in (viewerSas w) saName.

Definition CoopSas (w : roleBindingWatcher) (ns : gostring) : gset gostring := default ∅ (cooperatorSas w !! ns).
Definition ViewerSas (w : roleBindingWatcher) (ns : gostring) : gset gostring := default ∅ (viewerSas w !! ns).

(** ** The watcher of cluster role bindings ([cluster_scope]) *)

Record saShareContainer := mkSsc {
  ownerValid : bool;
  ssc_viewerSas : gset gostring;
  ssc_cooperatorSas : gset gostring
}.

Definition newSaContainer : saShareContainer := mkSsc false ∅ ∅.

(** The containers by the service account of the owner. *)
Abbreviation shareCache := (gmap gostring saShareContainer).

Definition LoadOrStore (sa : gostring) (c : shareCache) : saShareContainer := default newSaContainer (c !! sa).

Definition set_owner (v : bool) (s : saShareContainer) : saShareContainer := mkSsc v (ssc_viewerSas s) (ssc_cooperatorSas s).
Definition updateViewerSas (v : gset gostring) (s : saShareContainer) : saShareContainer :=
  mkSsc (ownerValid s) v (ssc_cooperatorSas s).
Definition updateCooperSas (v : gset gostring) (s : saShareContainer) : saShareContainer :=
  mkSsc (ownerValid s) (ssc_viewerSas s) v.

Record ClusterRoleBinding := mkCRB {
  crb_Name : gostring;
  crb_Subjects : list gostring
}.

Definition join_owners (subjects : list gostring) (c : shareCache) : shareCache :=
  let existSubject := subject_set subjects in
  let c := foldl (fun c sa => <[sa := set_owner true (LoadOrStore sa c)]> c) c subjects in
  map_imap (fun sa s => Some (if bool_decide (sa ∈ existSubject) then s else set_owner false s)) c.

(** [nocalhost:owner:type], split at the colons. *)
Definition crb_join (crb : ClusterRoleBinding) (c : shareCache) : shareCache :=
  if bool_decide (crb_Name crb = DefaultRoleBinding) then join_owners (crb_Subjects crb) c
  else
    match Split (crb_Name crb) (go ":") with
    | [p; ownerSa; type] =>
        if bool_decide (p <> go "nocalhost") then c
        else
          let s := subject_set (crb_Subjects crb) in
          if bool_decide (type = constCooperator) then <[ownerSa := updateCooperSas s (LoadOrStore ownerSa c)]> c
          else if bool_decide (type = constViewer) then <[ownerSa := updateViewerSas s (LoadOrStore ownerSa c)]> c
          else c
    | _ => c
    end.

(** A deletion is only logged. *)
Definition crb_Delete (key : gostring) (c : shareCache) : shareCache := c.

#[export] Instance crb_watcher : Watcher shareCache ClusterRoleBinding := {
  CreateOrUpdate := fun key crb c => (crb_join crb c, true);
  Delete := fun key c => (crb_Delete key c, true)
}.

Definition IsCooperOfCluster `{!MapOrder gostring} (c : shareCache) (saName : gostring) : bool :=
  existsb (fun s => bool_decide (saName ∈ ssc_cooperatorSas s)) (range c).*2.
Definition IsViewerOfCluster `{!MapOrder gostring} (c : shareCache) (saName : gostring) : bool :=
  existsb (fun s => bool_decide (saName ∈ ssc_viewerSas s)) (range c).*2.
Definition IsOwnerOfCluster (c : shareCache) (saName : gostring) : bool :=
  match c !! saName with Some s => ownerValid s | None => false end.

(** The questions by user: a user that is unknown has no container. *)
Definition getShareContainer (db : Db) (c : shareCache) (fromUserId : Z) : option saShareContainer :=
  match db_user db fromUserId with Some u => c !! u_SaName u | None => None end.

Definition IsValidOwner (db : Db) (c : shareCache) (fromUserId : Z) : bool :=
  match getShareContainer db c fromUserId with Some s => ownerValid s | None => false end.

Definition sharer (db : Db) (shareUserId : Z) : option gostring :=
  match db_user db shareUserId with
  | Some u => if bool_decide (u_SaName u = []) then None else Some (u_SaName u)
  | None => None
  end.

Definition IsCooperAs (db : Db) (c : shareCache) (fromUserId shareUserId : Z) : bool :=
  match sharer db shareUserId, getShareContainer db c fromUserId with
  | Some sa, Some s => bool_decide (sa ∈ ssc_cooperatorSas s)
  | _, _ => false
  end.

Definition IsViewerAs (db : Db) (c : shareCache) (fromUserId shareUserId : Z) : bool :=
  match sharer db shareUserId, getShareContainer db c fromUserId with
  | Some sa, Some s => bool_decide (sa ∈ ssc_viewerSas s)
  | _, _ => false
  end.

Definition ClusterCoopSas (db : Db) (c : shareCache) (fromUserId : Z) : gset gostring :=
  match getShareContainer db c fromUserId with Some s => ssc_cooperatorSas s | None => ∅ end.
Definition ClusterViewSas (db : Db) (c : shareCache) (fromUserId : Z) : gset gostring :=
  match getShareContainer db c fromUserId with Some s => ssc_viewerSas s | None => ∅ end.

(** ** The three goroutines of [createClusterAdminRoleINE]

    Three workers create a role each and send an error if there is one; another
    goroutine waits for them and then sends on [doneChan]; the caller takes what
    comes first and closes both channels when it returns.  Sending on a closed
    channel panics. *)
Record RoleCall := mkRoleCall {
  rc_running : nat;
  rc_errors : nat;
  rc_waiting : bool;
  rc_done : bool;
  rc_closed : bool;
  rc_result : option bool;
  rc_panic : bool
}.

(** [fails] says whether a request of a worker may fail. *)
Inductive role_step (fails : bool) : RoleCall -> RoleCall -> Prop :=
  | worker_ok n e w d c r :
      role_step fails (mkRoleCall (S n) e w d c r false) (mkRoleCall n e w d c r false)
  | worker_error n e w d r :
      fails = true -> role_step fails (mkRoleCall (S n) e w d false r false) (mkRoleCall n (S e) w d false r false)
  | worker_error_closed n e w d r :
      fails = true -> role_step fails (mkRoleCall (S n) e w d true r false) (mkRoleCall n e w d true r true)
  | wait_done e d r :
      role_step fails (mkRoleCall 0 e true d false r false) (mkRoleCall 0 e false true false r false)
  | wait_done_closed e d r :
      role_step fails (mkRoleCall 0 e true d true r false) (mkRoleCall 0 e false d true r true)
  | select_error n e w d :
      role_step fails (mkRoleCall n (S e) w d false None false) (mkRoleCall n e w d true (Some false) false)
  | select_done n e w :
      role_step fails (mkRoleCall n e w true false None false) (mkRoleCall n e w false true (Some true) false).

Definition role_start : RoleCall := mkRoleCall 3 0 true false false None false.

(** ** The supervisor of the watchers

    A watcher is looked up and, when there is none, made and stored, without a
    lock in between; a watcher is a number, and those that were started run. *)
Record Supervisor := mkSupervisor {
  sup_deck : gmap gostring nat;
  sup_running : gset nat;
  sup_next : nat
}.

Definition inDeck (kube : gostring) (s : Supervisor) : option nat := sup_deck s !! kube.

Definition store_watcher (kube : gostring) (s : Supervisor) : Supervisor * nat :=
  (mkSupervisor (<[kube := sup_next s]> (sup_deck s)) ({[sup_next s]} ∪ sup_running s) (S (sup_next s)), sup_next s).

(** A watcher that could not be prepared is given to the caller and not stored. *)
Definition getInDeck (prepared : bool) (kube : gostring) (s : Supervisor) : Supervisor * nat :=
  match inDeck kube s with
  | Some w => (s, w)
  | None => if prepared then store_watcher kube s
            else (mkSupervisor (sup_deck s) (sup_running s) (S (sup_next s)), sup_next s)
  end.

Definition outDeck (kube : gostring) (s : Supervisor) : Supervisor :=
  mkSupervisor (delete kube (sup_deck s)) (sup_running s) (sup_next s).
