(* ===== verification/RbacThms.v ===== *)
(** * Sharing dev spaces: theorems

    That the role bindings implement the sharing of namespaces, that the watchers'
    answers are those of the bindings once they are at rest, and what becomes of
    errors. *)

From stdpp Require Import sorting.
From S2P Require Import Prelude GoStrings FilePath DevDir WatchController DepWatchers Rbac.
#[local] Open Scope go_scope.

(** ** Subjects *)

Definition names (l : list Subject) : list gostring := sj_Name <$> l.

(** Every name once, every subject in the namespace of service accounts. *)
Definition subjects_ok (l : list Subject) : Prop :=
  NoDup (names l) /\ Forall (fun x => sj_Namespace x = DefaultSaNs) l.

Lemma subjects_ok_snoc (l : list Subject) sa :
  subjects_ok l -> sa ∉ names l -> subjects_ok (l ++ [mkSubject sa DefaultSaNs]).
Proof.
  intros [Hn Hf] Hsa. split.
  - unfold names. rewrite fmap_app. apply NoDup_app. split_and!; [done| |apply NoDup_singleton].
    intros x Hx ->%list_elem_of_singleton. by apply Hsa.
  - apply Forall_app. split; [done|]. by apply Forall_singleton.
Qed.

Lemma remove_subject_names (l : list Subject) sa x :
  subjects_ok l -> x ∈ names (remove_subject sa DefaultSaNs l) <-> x ∈ names l /\ x <> sa.
Proof.
  intros [Hn Hf]. unfold names in *. induction l as [|y l IH]; cbn.
  - split; [by intros ?%elem_of_nil|by intros [?%elem_of_nil _]].
  - cbn in Hn. apply NoDup_cons in Hn as [Hy Hn]. apply Forall_cons in Hf as [Hns Hf].
    specialize (IH Hn Hf). case_bool_decide as E.
    + destruct E as [E _]. rewrite elem_of_cons. split; [|naive_solver].
      intros Hx. split; [by right|]. by intros ->; subst.
    + cbn. rewrite !elem_of_cons, IH. split; [|naive_solver]. intros [->|]; [|naive_solver].
      split; [by left|]. by intros Hs; apply E.
Qed.

Lemma remove_subject_sublist sa saNs (l : list Subject) : remove_subject sa saNs l `sublist_of` l.
Proof.
  induction l as [|y l IH]; cbn; [done|]. case_bool_decide; [by apply sublist_cons|by apply sublist_skip].
Qed.

Lemma subjects_ok_remove (l : list Subject) sa : subjects_ok l -> subjects_ok (remove_subject sa DefaultSaNs l).
Proof.
  intros [Hn Hf]. pose proof (remove_subject_sublist sa DefaultSaNs l) as Hsub. split.
  - eapply sublist_NoDup; [exact Hn|]. by apply fmap_sublist.
  - rewrite Forall_forall in *. intros x Hx. apply Hf. by eapply elem_of_sublist.
Qed.

(** ** Requests that do not fail *)

Definition faultless (s : Server) : Prop := faults s = [].

Lemma request_faultless {A : Type} (f : api A) s : faultless s -> request f s = f s.
Proof. unfold faultless, request. by intros ->. Qed.

(** A call that succeeds and leaves role bindings and namespaces as they are. *)
Definition keeps_bindings (s s' : Server) : Prop :=
  faultless s' /\ roleBindings s' = roleBindings s /\ clusterRoleBindings s' = clusterRoleBindings s /\
  namespaces s' = namespaces s.

Definition succeeds (p : api unit) : Prop :=
  forall s, faultless s -> exists s', p s = (s', Ok tt) /\ keeps_bindings s s'.

Lemma keeps_bindings_trans s1 s2 s3 : keeps_bindings s1 s2 -> keeps_bindings s2 s3 -> keeps_bindings s1 s3.
Proof. intros (? & ? & ? & ?) (? & ? & ? & ?). unfold keeps_bindings. split_and!; [done|congruence..]. Qed.

(** Split the requests of a call on a server that does not fail. *)
Ltac requests :=
  repeat (rewrite request_faultless by done; cbn); repeat (case_match; simplify_eq/=).

Section calls.
Context (now : gostring).

Lemma service_account_made saName saNs : succeeds (createOrUpdateServiceAccountINE now saName saNs).
Proof.
  intros s Hs. unfold createOrUpdateServiceAccountINE, ine, CreateServiceAccount, api_bind, api_then, create_sa, create_secret.
  rewrite !request_faultless by done. destruct (serviceAccounts s !! _); cbn.
  - exists s. done.
  - rewrite request_faultless by done. case_bool_decide; cbn; eexists; done.
Qed.

Lemma ine_role name rules : succeeds (ine (CreateClusterRole name rules)).
Proof.
  intros s Hs. unfold ine, CreateClusterRole, api_then. rewrite request_faultless by done.
  destruct (clusterRoles s !! name); cbn; eexists; done.
Qed.

Lemma viewer_role : succeeds create_viewer_role.
Proof.
  intros s Hs. unfold create_viewer_role, CreateClusterRole, UpdateClusterRole, api_bind, api_then.
  rewrite request_faultless by done. destruct (clusterRoles s !! ViewerRoleName) eqn:E; cbn.
  - rewrite request_faultless by done. rewrite E. cbn. rewrite request_faultless by done. rewrite E. eexists. done.
  - eexists. done.
Qed.

Lemma roles_made : succeeds createClusterAdminRoleINE.
Proof.
  intros s Hs. unfold createClusterAdminRoleINE, api_then.
  destruct (ine_role DevRoleName all_rules s Hs) as (s1 & -> & H1).
  destruct (ine_role CooperatorRoleName all_rules s1 (proj1 H1)) as (s2 & -> & H2).
  destruct (viewer_role s2 (proj1 H2)) as (s3 & -> & H3). exists s3. split; [done|].
  eauto using keeps_bindings_trans.
Qed.

Lemma refreshed saName saNs : succeeds (RefreshServiceAccount now saName saNs).
Proof.
  intros s Hs. unfold RefreshServiceAccount, api_then, get_sa. rewrite request_faultless by done.
  destruct (serviceAccounts s !! _) as [l|] eqn:E; cbn.
  - unfold update_sa. rewrite request_faultless by done. rewrite E. eexists. done.
  - unfold api_then, CreateServiceAccount, api_bind, api_then, create_sa, create_secret. fold (sa_name saName).
    assert (sa_name (sa_name saName) = sa_name saName) as -> by (unfold sa_name; repeat case_bool_decide; congruence).
    rewrite request_faultless by done. rewrite E. cbn. rewrite request_faultless by done.
    case_bool_decide; cbn; eexists; done.
Qed.

(** *** Role bindings *)

Definition subs (s : Server) (ns name : gostring) : list Subject :=
  default [] (b_Subjects <$> roleBindings s !! (ns, name)).

(** A binding has the label by which the watchers select. *)
Definition watched (b : Binding) : Prop :=
  exists l, b_Labels b = Some l /\ l !! RoleBindingLabelKey = Some RoleBindingLabelVal.

(** What a call does to one binding, all others as they were. *)
Definition binding_set (s s' : Server) (ns name : gostring) (l : list Subject) : Prop :=
  faultless s' /\ namespaces s' = namespaces s /\ subs s' ns name = l /\
  (forall k, k <> (ns, name) -> roleBindings s' !! k = roleBindings s !! k) /\
  ((forall b, roleBindings s !! (ns, name) = Some b -> watched b) ->
   forall b, roleBindings s' !! (ns, name) = Some b -> watched b).

Lemma append_watched sa saNs b : watched b -> watched (append_subject now sa saNs b).
Proof.
  intros (l & E & Hl). exists (<[NocalhostLabel := now]> l). cbn. rewrite E. split; [done|].
  by rewrite lookup_insert_ne.
Qed.

Lemma namespace_made ns s :
  faultless s ->
  exists s', CreateNamespaceINE ns s = (s', Ok tt) /\ faultless s' /\ roleBindings s' = roleBindings s /\
    is_Some (namespaces s' !! ns).
Proof.
  intros Hs. unfold CreateNamespaceINE, ine, CreateNS, api_then. rewrite request_faultless by done.
  destruct (namespaces s !! ns) eqn:E; cbn; eexists; split; [done| |done|].
  - by split_and!.
  - split_and!; [done..|]. cbn. by rewrite lookup_insert_eq.
Qed.

Lemma appended rb ns role sa saNs s :
  faultless s -> is_Some (namespaces s !! ns) -> sa <> [] ->
  exists s', CreateOrUpdateRoleBindingINE now ns sa saNs rb role s = (s', Ok tt) /\
    binding_set s s' ns rb
      (if bool_decide (sa ∈ names (subs s ns rb)) then subs s ns rb else subs s ns rb ++ [mkSubject sa saNs]).
Proof.
  intros Hs [l Hns] Hsa. unfold CreateOrUpdateRoleBindingINE, AppendRoleBinding, append_binding, api_then, get_rb, create_rb, update_rb, subs.
  rewrite request_faultless by done. destruct (roleBindings s !! (ns, rb)) as [b|] eqn:E; cbn.
  - unfold has_name, names. case_bool_decide as Hin.
    + exists s. split; [done|]. unfold binding_set, subs. rewrite E. by split_and!.
    + rewrite request_faultless, E by done. eexists. split; [done|]. unfold binding_set, subs. cbn. rewrite lookup_insert_eq.
      split_and!; [done|done| | |].
      * cbn. by rewrite bool_decide_eq_true_2.
      * intros k Hk. by rewrite lookup_insert_ne.
      * intros Hw b' [= <-]. apply append_watched. by apply Hw.
  - rewrite request_faultless, Hns, E by done. eexists. split; [done|]. unfold binding_set, subs. cbn. rewrite lookup_insert_eq.
    rewrite bool_decide_eq_false_2 by apply not_elem_of_nil. split_and!; [done|done| | |].
    + cbn. by rewrite bool_decide_eq_true_2.
    + intros k Hk. by rewrite lookup_insert_ne.
    + intros _ b' [= <-]. apply append_watched. by exists owner_label.
Qed.

Lemma removed_from rb ns sa saNs s :
  faultless s ->
  exists s', RemoveRoleBindingIfPresent ns sa saNs rb s = (s', Ok tt) /\
    binding_set s s' ns rb (remove_subject sa saNs (subs s ns rb)).
Proof.
  intros Hs. unfold RemoveRoleBindingIfPresent, RemoveRoleBinding, api_then, get_rb, update_rb, subs.
  rewrite request_faultless by done. destruct (roleBindings s !! (ns, rb)) as [b|] eqn:E; cbn.
  - case_bool_decide as Hb.
    + exists s. split; [done|]. unfold binding_set, subs. rewrite E. cbn. rewrite Hb. by split_and!.
    + rewrite request_faultless, E by done. eexists. split; [done|]. unfold binding_set, subs. cbn. rewrite lookup_insert_eq.
      split_and!; [done|done|done| |].
      * intros k Hk. by rewrite lookup_insert_ne.
      * intros Hw b' [= <-]. destruct (Hw b E) as (l & El & Hl). by exists l.
  - exists s. split; [done|]. unfold binding_set, subs. rewrite E. by split_and!.
Qed.
End calls.

(** ** Sharing namespaces

    The contract: a user has one of three accesses to a namespace of a cluster,
    and the calls set it. *)

Inductive share :=
  | NoShare
  | Viewer
  | Cooperator.

Definition Shares : Type := gostring -> gostring -> gostring -> share.

Inductive share_op :=
  | OpCooperator
  | OpViewer
  | OpNotCooperator
  | OpNotViewer.

Record share_call := mkCall {
  sc_op : share_op;
  sc_now : gostring;
  sc_cluster : Z;
  sc_user : Z;
  sc_ns : gostring
}.

Definition spec_op (op : share_op) (x : share) : share :=
  match op, x with
  | OpCooperator, _ => Cooperator
  | OpViewer, _ => Viewer
  | OpNotCooperator, Cooperator => NoShare
  | OpNotViewer, Viewer => NoShare
  | _, _ => x
  end.

Definition spec_at (op : share_op) (kube ns sa : gostring) (A : Shares) : Shares := fun k n a =>
  if bool_decide (k = kube /\ n = ns /\ a = sa) then spec_op op (A k n a) else A k n a.

Definition spec_call (db : Db) (A : Shares) (c : share_call) : Shares :=
  match db_cluster db (sc_cluster c), db_user db (sc_user c) with
  | Some cl, Some u => spec_at (sc_op c) (cl_KubeConfig cl) (sc_ns c) (u_SaName u) A
  | _, _ => A
  end.

Definition run_share (db : Db) (c : share_call) : svc unit :=
  match sc_op c with
  | OpCooperator => AsCooperator (sc_now c) db (sc_cluster c) (sc_user c) (sc_ns c)
  | OpViewer => AsViewer (sc_now c) db (sc_cluster c) (sc_user c) (sc_ns c)
  | OpNotCooperator => RemoveFromCooperator (sc_now c) db (sc_cluster c) (sc_user c) (sc_ns c)
  | OpNotViewer => RemoveFromViewer (sc_now c) db (sc_cluster c) (sc_user c) (sc_ns c)
  end.

Fixpoint run_shares (db : Db) (l : list share_call) : svc unit :=
  match l with
  | [] => svc_ret tt
  | c :: l => svc_bind (run_share db c) (fun _ => run_shares db l)
  end.

(** *** Members of the bindings *)

Definition kinds : list gostring := [ViewerRoleBinding; CooperatorRoleBinding].

(** Who is a subject of which binding of which namespace. *)
Definition Members : Type := gostring -> gostring -> gostring -> Prop.

Definition server_has (s : Server) (M : Members) : Prop :=
  faultless s /\ forall name ns, name ∈ kinds ->
    subjects_ok (subs s ns name) /\ (forall b, roleBindings s !! (ns, name) = Some b -> watched b) /\
    forall sa, sa ∈ names (subs s ns name) <-> M name ns sa.

Definition world_has (w : World) (M : gostring -> Members) : Prop :=
  forall kube s, w !! kube = Some s -> server_has s (M kube).

(** The same clusters with the same other bindings. *)
Definition world_frame (w w' : World) : Prop :=
  forall kube, match w !! kube, w' !! kube with
               | Some s, Some s' => forall ns name, name ∉ kinds -> roleBindings s' !! (ns, name) = roleBindings s !! (ns, name)
               | None, None => True
               | _, _ => False
               end.

Lemma world_frame_refl w : world_frame w w.
Proof. intros kube. by destruct (w !! kube). Qed.

Lemma world_frame_trans w1 w2 w3 : world_frame w1 w2 -> world_frame w2 w3 -> world_frame w1 w3.
Proof.
  intros H1 H2 kube. specialize (H1 kube). specialize (H2 kube).
  destruct (w1 !! kube), (w2 !! kube), (w3 !! kube); try done. intros ns name Hn. by rewrite H2, H1.
Qed.

Lemma world_frame_insert w kube s s' :
  w !! kube = Some s -> (forall ns name, name ∉ kinds -> roleBindings s' !! (ns, name) = roleBindings s !! (ns, name)) ->
  world_frame w (<[kube := s']> w).
Proof.
  intros Hk Hf k. destruct (decide (k = kube)) as [->|Hne]; [by rewrite Hk, lookup_insert_eq|].
  rewrite lookup_insert_ne by done. by destruct (w !! k).
Qed.

(** [p] succeeds and changes the members as said, on every world that has the
    cluster. *)
Definition does {A : Type} (kube : gostring) (p : svc A) (M M' : gostring -> Members) (a : A) : Prop :=
  forall w, is_Some (w !! kube) -> world_has w M ->
  exists w', p w = (w', Ok a) /\ world_has w' M' /\ world_frame w w'.

Lemma frame_keeps w w' kube : world_frame w w' -> is_Some (w !! kube) -> is_Some (w' !! kube).
Proof. intros Hf [s Hs]. specialize (Hf kube). rewrite Hs in Hf. by destruct (w' !! kube). Qed.

Lemma does_ret {A : Type} kube (a : A) M : does kube (svc_ret a) M M a.
Proof. intros w _ Hw. exists w. split; [done|]. split; [done|]. apply world_frame_refl. Qed.

Lemma does_bind {A B : Type} kube (p : svc A) (q : A -> svc B) M1 M2 M3 a b :
  does kube p M1 M2 a -> does kube (q a) M2 M3 b -> does kube (svc_bind p q) M1 M3 b.
Proof.
  intros Hp Hq w Hk Hw. destruct (Hp w Hk Hw) as (w1 & E1 & H1 & F1).
  destruct (Hq w1 (frame_keeps _ _ _ F1 Hk) H1) as (w2 & E2 & H2 & F2).
  exists w2. unfold svc_bind. rewrite E1, E2. eauto using world_frame_trans.
Qed.

(** A call of the client that keeps or changes the members of its own cluster. *)
Lemma does_client kube p e M M' :
  (forall s, server_has s (M kube) -> exists s', p s = (s', Ok tt) /\ server_has s' (M' kube) /\
     forall ns name, name ∉ kinds -> roleBindings s' !! (ns, name) = roleBindings s !! (ns, name)) ->
  (forall k, k <> kube -> M' k = M k) ->
  does kube (on_client kube p e) M M' tt.
Proof.
  intros Hp HM w [s Hs] Hw. destruct (Hp s (Hw _ _ Hs)) as (s' & Ep & Hs' & Hf).
  exists (<[kube := s']> w). unfold on_client. rewrite Hs, Ep. split; [done|]. split; [|by eapply world_frame_insert].
  intros k x. destruct (decide (k = kube)) as [->|Hne].
  - by rewrite lookup_insert_eq; intros [= <-].
  - rewrite lookup_insert_ne by done. rewrite HM by done. apply Hw.
Qed.

Lemma server_has_same s s' M : roleBindings s' = roleBindings s -> faultless s' -> server_has s M -> server_has s' M.
Proof. intros E Hf [_ Hs]. split; [done|]. unfold subs. rewrite E. exact Hs. Qed.

Lemma does_keeping kube p e M : succeeds p -> does kube (on_client kube p e) M M tt.
Proof.
  intros Hp. apply does_client; [|done]. intros s Hs. destruct (Hp s (proj1 Hs)) as (s' & E & Hf & Erb & _).
  exists s'. split; [done|]. rewrite Erb. split; [|done]. by eapply server_has_same.
Qed.

Definition mem_add (kube name ns sa : gostring) (M : gostring -> Members) : gostring -> Members := fun k =>
  if bool_decide (k = kube) then fun n m a => (n = name /\ m = ns /\ a = sa) \/ M k n m a else M k.
Definition mem_remove (kube name ns sa : gostring) (M : gostring -> Members) : gostring -> Members := fun k =>
  if bool_decide (k = kube) then fun n m a => M k n m a /\ ~ (n = name /\ m = ns /\ a = sa) else M k.

(** A binding that was set changes the members of that binding only. *)
Lemma binding_set_has s s' ns name l M M' :
  name ∈ kinds -> server_has s M -> binding_set s s' ns name l -> subjects_ok l ->
  (forall sa, sa ∈ names l <-> M' name ns sa) ->
  (forall n m a, (n, m) <> (name, ns) -> M' n m a <-> M n m a) ->
  server_has s' M' /\ forall m n, n ∉ kinds -> roleBindings s' !! (m, n) = roleBindings s !! (m, n).
Proof.
  intros Hk [Hf Hs] (Hf' & _ & El & Hother & Hw) Hl HM HM'. split; [split; [done|]|].
  - intros n m Hn. destruct (decide ((m, n) = (ns, name))) as [[= -> ->]|Hne].
    + rewrite El. destruct (Hs name ns Hk) as (_ & Hw' & _). auto.
    + unfold subs. rewrite !(Hother (m, n)) by done. destruct (Hs n m Hn) as (H1 & H2 & H3).
      split_and!; [done..|]. intros sa. rewrite HM' by congruence. apply H3.
  - intros m n Hn. apply Hother. by intros [= -> ->].
Qed.

Lemma removed_has kube name ns sa s M :
  name ∈ kinds -> server_has s (M kube) ->
  exists s', RemoveRoleBindingIfPresent ns sa DefaultSaNs name s = (s', Ok tt) /\
    server_has s' (mem_remove kube name ns sa M kube) /\
    forall m n, n ∉ kinds -> roleBindings s' !! (m, n) = roleBindings s !! (m, n).
Proof.
  intros Hk Hs. destruct (removed_from name ns sa DefaultSaNs s (proj1 Hs)) as (s' & E & Hset).
  exists s'. split; [done|]. destruct (proj2 Hs name ns Hk) as (Hok & _ & HM).
  eapply binding_set_has; [exact Hk|exact Hs|exact Hset|by apply subjects_ok_remove| |].
  - intros a. rewrite remove_subject_names, HM by done. unfold mem_remove. rewrite bool_decide_eq_true_2 by done. naive_solver.
  - intros n m a Hne. unfold mem_remove. rewrite bool_decide_eq_true_2 by done. naive_solver.
Qed.

Lemma appended_has now kube name ns role sa s M :
  name ∈ kinds -> server_has s (M kube) -> sa <> [] -> is_Some (namespaces s !! ns) ->
  exists s', CreateOrUpdateRoleBindingINE now ns sa DefaultSaNs name role s = (s', Ok tt) /\
    server_has s' (mem_add kube name ns sa M kube) /\
    forall m n, n ∉ kinds -> roleBindings s' !! (m, n) = roleBindings s !! (m, n).
Proof.
  intros Hk Hs Hsa Hns. destruct (appended now name ns role sa DefaultSaNs s (proj1 Hs) Hns Hsa) as (s' & E & Hset).
  exists s'. split; [done|]. destruct (proj2 Hs name ns Hk) as (Hok & _ & HM).
  eapply binding_set_has; [exact Hk|exact Hs|exact Hset| | |].
  - case_bool_decide; [done|by apply subjects_ok_snoc].
  - intros a. unfold mem_add. rewrite (bool_decide_eq_true_2 (kube = kube)) by done. rewrite <- HM. case_bool_decide as Hin.
    + naive_solver.
    + unfold names. rewrite fmap_app, elem_of_app. cbn. rewrite list_elem_of_singleton. tauto.
  - intros n m a Hne. unfold mem_add. rewrite bool_decide_eq_true_2 by done. naive_solver.
Qed.

Section share.
Context (now : gostring) (db : Db) (clusterId userId : Z) (cl : ClusterModel) (u : UserModel).
Context (Hcl : db_cluster db clusterId = Some cl) (Hu : db_user db userId = Some u) (Hsa : u_SaName u <> []).

Lemma does_prepare M :
  does (cl_KubeConfig cl) (PrepareServiceAccountAndClientGo now db clusterId userId) M M (cl_KubeConfig cl, u_SaName u).
Proof using Hcl Hu.
  unfold PrepareServiceAccountAndClientGo. rewrite Hcl, Hu.
  eapply does_bind; [apply does_ret|]. cbv zeta beta.
  eapply does_bind. { intros w [s Hk] Hw. exists w. unfold new_client. rewrite Hk. eauto using world_frame_refl. }
  eapply does_bind; [apply does_ret|].
  eapply does_bind; [apply does_keeping, service_account_made|].
  eapply does_bind; [apply does_keeping, roles_made|]. apply does_ret.
Qed.

Lemma does_remove kube name ns e M :
  name ∈ kinds ->
  does kube (on_client kube (RemoveRoleBindingIfPresent ns (u_SaName u) DefaultSaNs name) e)
    M (mem_remove kube name ns (u_SaName u) M) tt.
Proof using Type.
  intros Hk. apply does_client.
  - intros s Hs. by apply removed_has.
  - intros k Hne. unfold mem_remove. by rewrite bool_decide_eq_false_2.
Qed.

Lemma does_append {B : Type} kube name role ns e1 e2 (q : svc B) M M' b :
  name ∈ kinds -> does kube q (mem_add kube name ns (u_SaName u) M) M' b ->
  does kube (svc_bind (on_client kube (CreateNamespaceINE ns) e1) (fun _ =>
             svc_bind (on_client kube (CreateOrUpdateRoleBindingINE now ns (u_SaName u) DefaultSaNs name role) e2)
               (fun _ => q))) M M' b.
Proof using Hsa.
  intros Hk Hq w [s Hs] Hw. destruct (namespace_made ns s (proj1 (Hw _ _ Hs))) as (s1 & E1 & Hf1 & Hrb & Hns).
  assert (server_has s1 (M kube)) as Hs1 by (eapply server_has_same; eauto).
  destruct (appended_has now kube name ns role (u_SaName u) s1 M Hk Hs1 Hsa Hns) as (s2 & E2 & Hs2 & Hf2).
  destruct (Hq (<[kube := s2]> w)) as (w' & Ew & Hw' & Hfw).
  - rewrite lookup_insert_eq. done.
  - intros k x. destruct (decide (k = kube)) as [->|Hne]; [by rewrite lookup_insert_eq; intros [= <-]|].
    rewrite lookup_insert_ne by done. unfold mem_add. rewrite bool_decide_eq_false_2 by done. apply Hw.
  - exists w'. unfold svc_bind, on_client. rewrite Hs, E1, lookup_insert_eq, E2, insert_insert_eq.
    split; [done|]. split; [done|]. eapply world_frame_trans; [|exact Hfw].
    eapply world_frame_insert; [done|]. intros m n Hn. by rewrite Hf2, Hrb.
Qed.

Lemma does_RemoveFromViewer ns M :
  does (cl_KubeConfig cl) (RemoveFromViewer now db clusterId userId ns) M
    (mem_remove (cl_KubeConfig cl) ViewerRoleBinding ns (u_SaName u) M) tt.
Proof using Hcl Hu.
  unfold RemoveFromViewer. eapply does_bind; [apply does_prepare|]. apply does_remove. by left.
Qed.

Lemma does_RemoveFromCooperator ns M :
  does (cl_KubeConfig cl) (RemoveFromCooperator now db clusterId userId ns) M
    (mem_remove (cl_KubeConfig cl) CooperatorRoleBinding ns (u_SaName u) M) tt.
Proof using Hcl Hu Hsa.
  unfold RemoveFromCooperator. eapply does_bind; [apply does_prepare|]. cbn [fst snd].
  rewrite bool_decide_eq_false_2 by done. apply does_remove. right. by left.
Qed.

Lemma does_AsCooperator ns M :
  does (cl_KubeConfig cl) (AsCooperator now db clusterId userId ns) M
    (mem_remove (cl_KubeConfig cl) ViewerRoleBinding ns (u_SaName u)
      (mem_add (cl_KubeConfig cl) CooperatorRoleBinding ns (u_SaName u) M)) tt.
Proof using Hcl Hu Hsa.
  unfold AsCooperator. eapply does_bind; [apply does_prepare|]. cbn [fst snd].
  rewrite bool_decide_eq_false_2 by done. apply does_append; [right; by left|]. apply does_RemoveFromViewer.
Qed.

Lemma does_AsViewer ns M :
  does (cl_KubeConfig cl) (AsViewer now db clusterId userId ns) M
    (mem_remove (cl_KubeConfig cl) CooperatorRoleBinding ns (u_SaName u)
      (mem_add (cl_KubeConfig cl) ViewerRoleBinding ns (u_SaName u) M)) tt.
Proof using Hcl Hu Hsa.
  unfold AsViewer. eapply does_bind; [apply does_prepare|]. cbn [fst snd].
  apply does_append; [by left|]. apply does_RemoveFromCooperator.
Qed.
End share.

(** The members that stand for the accesses. *)
Definition rep (A : Shares) : gostring -> Members := fun kube name ns sa =>
  match A kube ns sa with
  | NoShare => False
  | Viewer => name = ViewerRoleBinding
  | Cooperator => name = CooperatorRoleBinding
  end.

Lemma world_has_ext w (M M' : gostring -> Members) :
  (forall k name ns sa, name ∈ kinds -> M k name ns sa <-> M' k name ns sa) -> world_has w M -> world_has w M'.
Proof.
  intros HM Hw k s Hs. destruct (Hw k s Hs) as [Hf H]. split; [done|]. intros name ns Hn.
  destruct (H name ns Hn) as (H1 & H2 & H3). split_and!; [done..|]. intros sa. rewrite H3. by apply HM.
Qed.

Lemma does_ext {A : Type} kube (p : svc A) M M1 M2 a :
  (forall k name ns sa, name ∈ kinds -> M1 k name ns sa <-> M2 k name ns sa) -> does kube p M M1 a -> does kube p M M2 a.
Proof.
  intros HM Hp w Hk Hw. destruct (Hp w Hk Hw) as (w' & E & Hw' & Hf). eauto using world_has_ext.
Qed.

Lemma kinds_cases name : name ∈ kinds -> name = ViewerRoleBinding \/ name = CooperatorRoleBinding.
Proof. intros [->|[->|?%elem_of_nil]%elem_of_cons]%elem_of_cons; [by left|by right|done]. Qed.

Lemma kinds_ne : ViewerRoleBinding <> CooperatorRoleBinding.
Proof. apply (bool_decide_eq_true_1 _). reflexivity. Qed.

(** Case analysis of who is a member after a call. *)
Ltac members_cases :=
  let H := fresh in
  intros ? ? ? ? H; apply kinds_cases in H; unfold mem_remove, mem_add, rep, spec_at;
  pose proof kinds_ne; repeat case_bool_decide; destruct_and?; subst; cbn;
  try (match goal with |- context [match ?A ?x ?y ?z with _ => _ end] => destruct (A x y z) end);
  naive_solver.

Lemma run_share_does db c cl u A :
  db_cluster db (sc_cluster c) = Some cl -> db_user db (sc_user c) = Some u -> u_SaName u <> [] ->
  does (cl_KubeConfig cl) (run_share db c) (rep A) (rep (spec_call db A c)) tt.
Proof.
  intros Hcl Hu Hsa. unfold spec_call. rewrite Hcl, Hu. unfold run_share. destruct (sc_op c).
  - eapply does_ext; [|by apply does_AsCooperator]. members_cases.
  - eapply does_ext; [|by apply does_AsViewer]. members_cases.
  - eapply does_ext; [|by apply does_RemoveFromCooperator]. members_cases.
  - eapply does_ext; [|by apply does_RemoveFromViewer]. members_cases.
Qed.

(** A call for a cluster and a user that are known, the user with a service account. *)
Definition known (db : Db) (w : World) (c : share_call) : Prop :=
  exists cl u, db_cluster db (sc_cluster c) = Some cl /\ db_user db (sc_user c) = Some u /\
    u_SaName u <> [] /\ is_Some (w !! cl_KubeConfig cl).

(** C9: Sharing namespaces is implemented by the role bindings: any sequence of
    [AsCooperator], [AsViewer], [RemoveFromCooperator] and [RemoveFromViewer], for
    any users, namespaces and clusters, of which no request fails, returns no
    error and leaves in the bindings of viewers and of cooperators exactly the
    users to whom the sequence gave that access last - never one in both, never a
    subject twice, every binding with the label the watchers select by - and no
    other binding is changed. *)
Theorem share_refines db calls w A :
  world_has w (rep A) -> Forall (known db w) calls ->
  exists w', run_shares db calls w = (w', Ok tt) /\
    world_has w' (rep (foldl (spec_call db) A calls)) /\ world_frame w w'.
Proof.
  revert w A. induction calls as [|c calls IH]; intros w A Hw Hk.
  - exists w. split; [done|]. split; [done|]. apply world_frame_refl.
  - apply Forall_cons in Hk as [(cl & u & Hcl & Hu & Hsa & Hkube) Hk].
    destruct (run_share_does db c cl u A Hcl Hu Hsa w Hkube Hw) as (w1 & E1 & Hw1 & Hf1).
    destruct (IH w1 (spec_call db A c) Hw1) as (w2 & E2 & Hw2 & Hf2).
    + eapply Forall_impl; [exact Hk|]. intros c' (cl' & u' & ? & ? & ? & ?). exists cl', u'. eauto using frame_keeps.
    + exists w2. cbn [run_shares foldl]. unfold svc_bind. rewrite E1, E2. eauto using world_frame_trans.
Qed.

(** ** What the watchers say

    The set of a binding, by the binding's name. *)
Definition role_sets (name : gostring) (w : roleBindingWatcher) : gmap gostring (gset gostring) :=
  if bool_decide (name = ViewerRoleBinding) then viewerSas w
  else if bool_decide (name = DefaultRoleBinding) then adminSas w
  else if bool_decide (name = CooperatorRoleBinding) then cooperatorSas w
  else ∅.

Definition role_names : list gostring := [ViewerRoleBinding; DefaultRoleBinding; CooperatorRoleBinding].

Definition ns_ok (ns : gostring) : Prop := ns <> [] /\ slash_free ns.

(** A call of the watcher, for the key of a binding of a namespace. *)
Definition proper_rb_call (call : gostring * option RoleBinding) : Prop :=
  exists ns name, ns_ok ns /\ name <> [] /\ fst call = object_key ns name /\
    match snd call with Some rb => rb_Namespace rb = ns /\ rb_Name rb = name | None => True end.

Lemma object_key_inj ns ns' name name' :
  ns_ok ns -> ns_ok ns' -> name <> [] -> name' <> [] -> object_key ns name = object_key ns' name' ->
  ns = ns' /\ name = name'.
Proof.
  intros [H1 H2] [H1' H2'] Hn Hn' E. destruct (object_key_parts ns name H1 H2 Hn) as (Hi & _ & Ht & Hd).
  destruct (object_key_parts ns' name' H1' H2' Hn') as (Hi' & _ & Ht' & Hd').
  rewrite E, Hi' in Hi. injection Hi as Hi. rewrite E, <- Hi in Ht, Hd. split; congruence.
Qed.

Lemma role_names_distinct : NoDup role_names.
Proof. apply (bool_decide_eq_true_1 _). reflexivity. Qed.

Lemma role_sets_join name ns rb w :
  name ∈ role_names ->
  role_sets name (rb_join rb w) !! ns =
  if bool_decide (rb_Namespace rb = ns /\ rb_Name rb = name) then Some (subject_set (rb_Subjects rb))
  else role_sets name w !! ns.
Proof.
  intros Hn. unfold role_sets, rb_join. pose proof role_names_distinct as Hd. unfold role_names in Hd.
  rewrite !NoDup_cons, !not_elem_of_cons in Hd. destruct Hd as ((H1 & H2 & _) & (H3 & _) & _).
  unfold role_names in Hn. rewrite !elem_of_cons, elem_of_nil in Hn.
  destruct (decide (rb_Namespace rb = ns)) as [E|E];
    destruct_or?; try done; subst name; repeat case_bool_decide; destruct_and?; subst; cbn; try done; try tauto; try congruence;
    rewrite ?lookup_insert_eq, ?lookup_insert_ne; try done; tauto.
Qed.

Lemma key_parts_ok ns name : ns_ok ns -> name <> [] -> Index (object_key ns name) slash = Some (length ns) /\
  key_parts (object_key ns name) = (ns, name).
Proof.
  intros [H1 H2] Hn. destruct (object_key_parts ns name H1 H2 Hn) as (Hi & Hb & Ht & Hd).
  apply andb_true_iff in Hb as [Hb1%Nat.ltb_lt Hb2%Nat.ltb_lt]. change (go "/") with slash in Hi. split; [exact Hi|].
  unfold key_parts. rewrite Hi, bool_decide_eq_true_2 by lia. rewrite Ht. by replace (S (length ns)) with (length ns + 1) by lia; rewrite Hd.
Qed.

Lemma role_sets_delete name ns ns' name' w :
  name ∈ role_names -> ns_ok ns' -> name' <> [] ->
  role_sets name (rb_Delete (object_key ns' name') w) !! ns =
  if bool_decide (ns' = ns /\ name' = name) then None else role_sets name w !! ns.
Proof.
  intros Hn Hns Hname. destruct (key_parts_ok ns' name' Hns Hname) as [Hi Hp].
  unfold rb_Delete. rewrite Hi, Hp. destruct Hns as [Hne _]. destruct (length ns') eqn:El; [by destruct ns'|].
  unfold role_sets. pose proof role_names_distinct as Hd. unfold role_names in Hd.
  rewrite !NoDup_cons, !not_elem_of_cons in Hd. destruct Hd as ((H1 & H2 & _) & (H3 & _) & _).
  unfold role_names in Hn. rewrite !elem_of_cons, elem_of_nil in Hn.
  destruct (decide (ns' = ns)) as [E|E];
    destruct_or?; try done; subst name; repeat case_bool_decide; destruct_and?; subst; cbn; try done; try tauto; try congruence;
    rewrite ?lookup_delete_eq, ?lookup_delete_ne; try done; tauto.
Qed.

Lemma role_sets_after l w ns name :
  Forall proper_rb_call l -> ns_ok ns -> name ∈ role_names ->
  role_sets name (foldl run_call w l) !! ns =
  match last_call l (object_key ns name) with
  | Some obj => subject_set ∘ rb_Subjects <$> obj
  | None => role_sets name w !! ns
  end.
Proof.
  intros Hl Hns Hn. induction l as [|[key obj] l IH] using rev_ind; [done|].
  apply Forall_app in Hl as [Hl [(ns' & name' & Hns' & Hname' & Hkey & Hobj) _]%Forall_cons]. cbn in Hkey, Hobj. subst key.
  rewrite foldl_app, last_call_snoc. cbn [foldl]. specialize (IH Hl). set (w' := foldl run_call w l) in *.
  assert (name <> []) as Hname. { intros ->. unfold role_names in Hn. rewrite !elem_of_cons, elem_of_nil in Hn. naive_solver. }
  unfold run_call. cbn [fst snd]. destruct obj as [rb|]; cbn.
  - destruct Hobj as [<- <-]. rewrite role_sets_join by done. case_bool_decide as E; case_decide as Ek; try done.
    + by destruct E as [E1 E2]; rewrite <- E1, <- E2 in Ek.
    + destruct E. apply object_key_inj in Ek; [|done..]. by destruct Ek.
  - rewrite role_sets_delete by done. case_bool_decide as E; case_decide as Ek; try done.
    + by destruct E as [E1 E2]; rewrite <- E1, <- E2 in Ek.
    + destruct E. apply object_key_inj in Ek; [|done..]. by destruct Ek.
Qed.

Lemma elem_of_subject_set (l : list gostring) x : x ∈ subject_set l <-> x ∈ l.
Proof.
  unfold subject_set. induction l as [|y l IH] using rev_ind; cbn; [set_solver|].
  rewrite foldl_app. cbn. rewrite elem_of_union, IH, elem_of_app, elem_of_singleton, list_elem_of_singleton. tauto.
Qed.

(** The informer has the bindings of the cluster that have the watchers' label. *)
Definition label_selected (b : Binding) : bool :=
  bool_decide (b_Labels b ≫= (fun l => l !! RoleBindingLabelKey) = Some RoleBindingLabelVal).

Definition rb_object (ns name : gostring) (b : Binding) : option RoleBinding :=
  if label_selected b then Some (mkRB ns name (names (b_Subjects b))) else None.

Definition informed (s : Server) (c : Controller roleBindingWatcher RoleBinding) : Prop :=
  forall ns name, ns_ok ns -> name <> [] ->
    indexer c !! object_key ns name = roleBindings s !! (ns, name) ≫= rb_object ns name.

Section listing.
Context `{!MapOrder gostring}.

Lemma elem_of_exists_in (m : gmap gostring (gset gostring)) sa ns :
  ns ∈ exists_in m sa <-> sa ∈ default ∅ (m !! ns).
Proof.
  unfold exists_in. rewrite merge_sort_Permutation, list_elem_of_filter, (range_perm m), list_elem_of_fmap.
  split; [by intros [? _]|]. intros Hin. split; [done|]. destruct (m !! ns) as [x|] eqn:E.
  - exists (ns, x). split; [done|]. by apply elem_of_map_to_list.
  - by apply elem_of_empty in Hin.
Qed.

(** The watcher's set of a binding, at rest, is the binding's subjects. *)
Lemma set_at_rest s A kube (c : Controller roleBindingWatcher RoleBinding) name ns sa :
  server_has s (rep A kube) -> reachable NewRoleBindingWatcher c -> quiescent c -> Forall proper_rb_call (calls c) ->
  informed s c -> ns_ok ns -> name ∈ kinds ->
  sa ∈ default ∅ (role_sets name (watcher c) !! ns) <-> rep A kube name ns sa.
Proof using Type.
  intros [_ Hs] Hr Hq Hcalls Hinf Hns Hk. destruct (Hs name ns Hk) as (_ & Hw & HM). rewrite <- HM.
  assert (name ∈ role_names /\ name <> []) as [Hn Hne].
  { apply kinds_cases in Hk as [->| ->]; (split; [|done]); unfold role_names; set_solver. }
  rewrite (watcher_calls _ _ Hr), role_sets_after by done. pose proof (reachable_quiescent _ _ (object_key ns name) Hr Hq) as E.
  rewrite Hinf in E by done. unfold subs. destruct (roleBindings s !! (ns, name)) as [b|] eqn:Eb; cbn in E.
  - destruct (Hw b eq_refl) as (l & El & Hl). unfold rb_object, label_selected in E. rewrite El in E. cbn in E.
    rewrite bool_decide_eq_true_2 in E by done. destruct (last_call _ _) as [[rb|]|]; cbn in E; try done.
    injection E as ->. cbn. apply elem_of_subject_set.
  - assert (default ∅ (match last_call (calls c) (object_key ns name) with
      | Some obj => subject_set ∘ rb_Subjects <$> obj
      | None => role_sets name NewRoleBindingWatcher !! ns
      end) = (∅ : gset gostring)) as ->.
    { destruct (last_call _ _) as [[rb|]|]; cbn in E; try done. cbn. unfold role_sets, NewRoleBindingWatcher.
      by repeat case_bool_decide; cbn; rewrite lookup_empty. }
    cbn. split; [by intros ?%elem_of_empty|by intros ?%elem_of_nil].
Qed.

(** C27: What the API server says of a shared namespace is who it is shared with:
    once the watcher of role bindings is at rest and its informer has the
    cluster's bindings, the namespaces listed for a user as viewed and as
    cooperated in are, in order, those the user was given that access to, and the
    viewers and cooperators listed for a namespace are the users that have it. *)
Theorem sharing_visible s A kube (c : Controller roleBindingWatcher RoleBinding) ns sa :
  server_has s (rep A kube) -> reachable NewRoleBindingWatcher c -> quiescent c -> Forall proper_rb_call (calls c) ->
  informed s c -> ns_ok ns ->
  (ns ∈ GetAllViewNs (watcher c) sa <-> A kube ns sa = Viewer) /\
  (ns ∈ GetAllCoopNs (watcher c) sa <-> A kube ns sa = Cooperator) /\
  (sa ∈ ViewerSas (watcher c) ns <-> A kube ns sa = Viewer) /\
  (sa ∈ CoopSas (watcher c) ns <-> A kube ns sa = Cooperator) /\
  StronglySorted str_le (GetAllViewNs (watcher c) sa) /\ StronglySorted str_le (GetAllCoopNs (watcher c) sa).
Proof using Type.
  intros Hs Hr Hq Hcalls Hinf Hns. unfold GetAllViewNs, GetAllCoopNs, ViewerSas, CoopSas. rewrite !elem_of_exists_in.
  pose proof (set_at_rest s A kube c ViewerRoleBinding ns sa Hs Hr Hq Hcalls Hinf Hns ltac:(by left)) as HV.
  pose proof (set_at_rest s A kube c CooperatorRoleBinding ns sa Hs Hr Hq Hcalls Hinf Hns ltac:(right; by left)) as HC.
  unfold rep in HV, HC. change (role_sets ViewerRoleBinding (watcher c)) with (viewerSas (watcher c)) in HV.
  change (role_sets CooperatorRoleBinding (watcher c)) with (cooperatorSas (watcher c)) in HC.
  pose proof kinds_ne as Hne.
  rewrite HV, HC. destruct (A kube ns sa); (split_and!; [intuition congruence..| |]); apply (StronglySorted_merge_sort str_le).
Qed.
End listing.

(** ** Sharing clusters: the watcher *)

Lemma Index_take_free c (s : gostring) i : Index s [c] = Some i -> c ∉ take i s.
Proof.
  intros (_ & Hi & H)%Index_Some [j Hj]%list_elem_of_lookup_1. apply lookup_take_Some in Hj as [Hj Hlt].
  specialize (H j Hlt). assert (HasPrefix (drop j s) [c] = true) as E; [|congruence].
  apply HasPrefix_single. by rewrite (drop_S _ _ _ Hj).
Qed.

Lemma Split_single_pieces c (s x : gostring) : x ∈ Split s [c] -> c ∉ x.
Proof.
  induction s as [s IH] using Split_ind_len. rewrite Split_eq by done.
  destruct (Index s [c]) as [i|] eqn:E.
  - apply Index_Some in E as E'. destruct E' as (_ & Hi & _). cbn in Hi.
    intros [->|Hx]%elem_of_cons; [by apply Index_take_free|]. apply (IH (drop (i + 1) s)); [|done].
    rewrite length_drop. lia.
  - intros ->%list_elem_of_singleton. by apply Index_single_None.
Qed.

Definition colon_free (x : gostring) : Prop := ":"%char ∉ x.

Lemma colon_free_dec x : colon_free x \/ ~ colon_free x.
Proof. unfold colon_free. destruct (decide (":"%char ∈ x)); tauto. Qed.

Definition share_kinds : list gostring := [constCooperator; constViewer].

Lemma share_crb_split owner type :
  colon_free owner -> type ∈ share_kinds -> Split (share_crb owner type) (go ":") = [go "nocalhost"; owner; type].
Proof.
  intros Ho Ht. apply (Split_Join_single ":"%char); [done|]. repeat constructor; [|done|].
  - apply (bool_decide_eq_true_1 _). reflexivity.
  - apply elem_of_cons in Ht as [->|[->|?%elem_of_nil]%elem_of_cons]; [| |done]; apply (bool_decide_eq_true_1 _); reflexivity.
Qed.

Lemma split_share_crb name owner type :
  Split name (go ":") = [go "nocalhost"; owner; type] -> name = share_crb owner type /\ colon_free owner.
Proof.
  intros E. split.
  - unfold share_crb. rewrite <- E. symmetry. by apply Join_Split.
  - apply (Split_single_pieces ":"%char name). change [":"%char] with (go ":"). rewrite E. right. by left.
Qed.

Lemma default_no_share owner type : DefaultRoleBinding <> share_crb owner type.
Proof. intros E. apply (f_equal (take 10)) in E. by vm_compute in E. Qed.

Lemma share_kinds_ne : constCooperator <> constViewer.
Proof. apply (bool_decide_eq_true_1 _). reflexivity. Qed.

(** What a container says, by question. *)
Inductive question :=
  | AskOwner
  | AskCooperator
  | AskViewer.

(** The binding a question is about, for an owner. *)
Definition asked (q : question) (owner : gostring) : gostring :=
  match q with
  | AskOwner => DefaultRoleBinding
  | AskCooperator => cooperatorCRB owner
  | AskViewer => viewerCRB owner
  end.

(** Whether the container of [owner] has [sa] as asked; for the owner it is the
    owner itself that is asked for. *)
Definition answer (q : question) (owner sa : gostring) (c : shareCache) : Prop :=
  match q with
  | AskOwner => owner = sa /\ ownerValid (LoadOrStore owner c) = true
  | AskCooperator => sa ∈ ssc_cooperatorSas (LoadOrStore owner c)
  | AskViewer => sa ∈ ssc_viewerSas (LoadOrStore owner c)
  end.

Lemma LoadOrStore_insert (sa sa' : gostring) (x : saShareContainer) (c : shareCache) :
  LoadOrStore sa (<[sa' := x]> c) = if bool_decide (sa = sa') then x else LoadOrStore sa c.
Proof.
  unfold LoadOrStore. case_bool_decide as E; [subst; by rewrite lookup_insert_eq|by rewrite lookup_insert_ne].
Qed.

Lemma owners_marked (l : list gostring) (c : shareCache) sa :
  LoadOrStore sa (foldl (fun c sa => <[sa := set_owner true (LoadOrStore sa c)]> c) c l) =
  (if bool_decide (sa ∈ l) then set_owner true (LoadOrStore sa c) else LoadOrStore sa c).
Proof.
  induction l as [|x l IH] using rev_ind; cbn; [done|]. rewrite foldl_app. cbn. rewrite LoadOrStore_insert.
  repeat case_bool_decide; subst; rewrite ?IH in *; repeat case_bool_decide; try done; set_solver.
Qed.

Lemma join_owners_spec (l : list gostring) (c : shareCache) sa :
  LoadOrStore sa (join_owners l c) = set_owner (bool_decide (sa ∈ l)) (LoadOrStore sa c).
Proof.
  unfold join_owners. set (c' := foldl _ c l). pose proof (owners_marked l c sa : LoadOrStore sa c' = _) as E.
  assert (LoadOrStore sa (map_imap (fun sa s => Some (if bool_decide (sa ∈ subject_set l) then s else set_owner false s)) c') =
    if bool_decide (sa ∈ l) then LoadOrStore sa c' else set_owner false (LoadOrStore sa c')) as ->.
  { unfold LoadOrStore. rewrite map_lookup_imap. destruct (c' !! sa); cbn.
    - rewrite (bool_decide_ext _ _ (elem_of_subject_set l sa)). by case_bool_decide.
    - by case_bool_decide. }
  rewrite E. case_bool_decide; by destruct (LoadOrStore sa c).
Qed.

(** A binding of another name is one that shares a cluster, or nothing is done. *)
Lemma crb_join_share (crb : ClusterRoleBinding) (c : shareCache) :
  crb_Name crb <> DefaultRoleBinding ->
  (exists o : gostring, colon_free o /\ crb_Name crb = cooperatorCRB o /\
     crb_join crb c = <[o := updateCooperSas (subject_set (crb_Subjects crb)) (LoadOrStore o c)]> c) \/
  (exists o : gostring, colon_free o /\ crb_Name crb = viewerCRB o /\
     crb_join crb c = <[o := updateViewerSas (subject_set (crb_Subjects crb)) (LoadOrStore o c)]> c) \/
  (crb_join crb c = c /\ forall o, colon_free o -> crb_Name crb <> cooperatorCRB o /\ crb_Name crb <> viewerCRB o).
Proof.
  intros Hd. unfold crb_join. rewrite bool_decide_eq_false_2 by done.
  assert (forall o t, colon_free o -> t ∈ share_kinds -> crb_Name crb = share_crb o t ->
    Split (crb_Name crb) (go ":") = [go "nocalhost"; o; t]) as Hs by (intros o t Ho Ht ->; by apply share_crb_split).
  assert (forall P : Prop, (forall o t, Split (crb_Name crb) (go ":") = [go "nocalhost"; o; t] -> t ∈ share_kinds -> False) ->
    forall o, colon_free o -> crb_Name crb <> cooperatorCRB o /\ crb_Name crb <> viewerCRB o) as Hno.
  { intros _ H o Ho. split; intros E; eapply H; [|by left| |by right; left];
      (apply Hs; [exact Ho| |exact E]); [by left|right; by left]. }
  destruct (Split (crb_Name crb) (go ":")) as [|p [|o [|t [|]]]] eqn:E; try (right; right; split; [done|]; by apply (Hno True)).
  case_bool_decide as Hp.
  { right. right. split; [done|]. apply (Hno True). intros o' t' [= -> -> ->]. done. }
  subst p. apply split_share_crb in E as [En Ho].
  repeat case_bool_decide; subst.
  - left. by exists o.
  - right. left. by exists o.
  - right. right. split; [done|]. apply (Hno True). intros o' t' [= -> ->].
    intros [->|[->|?%elem_of_nil]%elem_of_cons]%elem_of_cons; done.
Qed.

Lemma share_crb_inj o o' t t' :
  colon_free o -> colon_free o' -> t ∈ share_kinds -> t' ∈ share_kinds -> share_crb o t = share_crb o' t' -> o = o' /\ t = t'.
Proof.
  intros Ho Ho' Ht Ht' E. apply (f_equal (fun x => Split x (go ":"))) in E.
  rewrite !share_crb_split in E by done. by injection E.
Qed.

Lemma cooperatorCRB_eq o o' : colon_free o -> colon_free o' -> cooperatorCRB o = cooperatorCRB o' <-> o' = o.
Proof. intros H H'. split; [|by intros ->]. intros E. apply share_crb_inj in E as [? _]; [done|done|done|by left|by left]. Qed.

Lemma viewerCRB_eq o o' : colon_free o -> colon_free o' -> viewerCRB o = viewerCRB o' <-> o' = o.
Proof.
  intros H H'. split; [|by intros ->]. intros E. apply share_crb_inj in E as [? _]; [done|done|done|right; by left|right; by left].
Qed.

Lemma cooperatorCRB_viewer o o' : colon_free o -> colon_free o' -> cooperatorCRB o <> viewerCRB o'.
Proof.
  intros H H' E. apply share_crb_inj in E as [_ ?]; [by apply share_kinds_ne|done|done|by left|right; by left].
Qed.

(** One binding seen changes the answer to the questions about it alone. *)
Lemma crb_join_answer q owner sa crb c :
  colon_free owner \/ q = AskOwner ->
  answer q owner sa (crb_join crb c) <->
  if bool_decide (crb_Name crb = asked q owner) then sa ∈ crb_Subjects crb /\ (q = AskOwner -> owner = sa)
  else answer q owner sa c.
Proof.
  intros Ho. destruct (decide (crb_Name crb = DefaultRoleBinding)) as [Ed|Ed].
  - unfold crb_join. rewrite (bool_decide_eq_true_2 _ Ed), Ed.
    destruct q; unfold answer, asked; rewrite join_owners_spec; cbn.
    + rewrite bool_decide_eq_true, bool_decide_eq_true_2 by done. naive_solver.
    + by rewrite bool_decide_eq_false_2 by apply default_no_share.
    + by rewrite bool_decide_eq_false_2 by apply default_no_share.
  - destruct (crb_join_share crb c Ed) as [(o & Hf & En & ->)|[(o & Hf & En & ->)|(-> & Hno)]].
    + rewrite En. destruct q; unfold answer, asked; rewrite LoadOrStore_insert.
      * rewrite (bool_decide_eq_false_2 (cooperatorCRB o = DefaultRoleBinding)) by (apply not_eq_sym, default_no_share).
        case_bool_decide; by subst.
      * destruct Ho as [Ho|?]; [|done]. rewrite (bool_decide_ext _ _ (cooperatorCRB_eq o owner Hf Ho)).
        repeat case_bool_decide; subst; try done. cbn. rewrite elem_of_subject_set. naive_solver.
      * rewrite (bool_decide_eq_false_2 (cooperatorCRB o = viewerCRB owner)) by
          (destruct Ho as [Ho|?]; [by apply cooperatorCRB_viewer|done]).
        case_bool_decide; by subst.
    + rewrite En. destruct q; unfold answer, asked; rewrite LoadOrStore_insert.
      * rewrite (bool_decide_eq_false_2 (viewerCRB o = DefaultRoleBinding)) by (apply not_eq_sym, default_no_share).
        case_bool_decide; by subst.
      * rewrite (bool_decide_eq_false_2 (viewerCRB o = cooperatorCRB owner)) by
          (destruct Ho as [Ho|?]; [by apply not_eq_sym, cooperatorCRB_viewer|done]).
        case_bool_decide; by subst.
      * destruct Ho as [Ho|?]; [|done]. rewrite (bool_decide_ext _ _ (viewerCRB_eq o owner Hf Ho)).
        repeat case_bool_decide; subst; try done. cbn. rewrite elem_of_subject_set. naive_solver.
    + rewrite bool_decide_eq_false_2; [done|]. destruct q; [done| |]; destruct Ho as [Ho|?]; try done; by apply Hno.
Qed.

(** A call with the binding of the key; none for a binding that is gone. *)
Definition seen_call (call : gostring * option ClusterRoleBinding) : Prop :=
  match snd call with Some crb => crb_Name crb = fst call | None => False end.

Lemma answer_after l c q owner sa :
  Forall seen_call l -> colon_free owner \/ q = AskOwner ->
  answer q owner sa (foldl run_call c l) <->
  match last_call l (asked q owner) with
  | Some (Some crb) => sa ∈ crb_Subjects crb /\ (q = AskOwner -> owner = sa)
  | _ => answer q owner sa c
  end.
Proof.
  intros Hl Ho. induction l as [|[key obj] l IH] using rev_ind; [done|].
  apply Forall_app in Hl as [Hl [Hobj _]%Forall_cons]. unfold seen_call in Hobj. cbn in Hobj.
  destruct obj as [crb|]; [|done]. subst key. rewrite foldl_app, last_call_snoc. cbn [foldl].
  specialize (IH Hl). set (c' := foldl run_call c l) in *. unfold run_call. cbn [fst snd].
  change (fst (WatchController.CreateOrUpdate (crb_Name crb) crb c')) with (crb_join crb c').
  rewrite crb_join_answer by done. case_bool_decide; case_decide; try done.
Qed.

Lemma empty_answer q owner sa : ~ answer q owner sa (∅ : shareCache).
Proof. destruct q; cbn; [by intros [_ ?]|..]; unfold LoadOrStore; rewrite lookup_empty; apply not_elem_of_empty. Qed.

Section cluster_listing.
Context `{!MapOrder gostring}.

(** Some container has it. *)
Lemma some_container (f : saShareContainer -> gset gostring) (c : shareCache) sa :
  f newSaContainer = ∅ ->
  existsb (fun s => bool_decide (sa ∈ f s)) (range c).*2 = true <-> exists owner, sa ∈ f (LoadOrStore owner c).
Proof.
  intros Hf. rewrite existsb_exists. split.
  - intros (s & Hs%list_elem_of_In & Hin%bool_decide_eq_true). apply list_elem_of_fmap in Hs as ([owner s'] & -> & Hs).
    rewrite (range_perm c) in Hs. apply elem_of_map_to_list in Hs. exists owner. unfold LoadOrStore. by rewrite Hs.
  - intros (owner & Hin). unfold LoadOrStore in Hin. destruct (c !! owner) as [s|] eqn:E; cbn in Hin.
    + exists s. split; [|by apply bool_decide_eq_true]. apply list_elem_of_In, list_elem_of_fmap. exists (owner, s).
      split; [done|]. rewrite (range_perm c). by apply elem_of_map_to_list.
    + rewrite Hf in Hin. by apply elem_of_empty in Hin.
Qed.

(** The subjects the informer has for a binding. *)
Definition crb_has (c : Controller shareCache ClusterRoleBinding) (name sa : gostring) : Prop :=
  exists crb, indexer c !! name = Some crb /\ sa ∈ crb_Subjects crb.

Lemma answer_at_rest (c : Controller shareCache ClusterRoleBinding) q owner sa :
  reachable (∅ : shareCache) c -> quiescent c -> Forall seen_call (calls c) -> colon_free owner \/ q = AskOwner ->
  answer q owner sa (watcher c) <-> crb_has c (asked q owner) sa /\ (q = AskOwner -> owner = sa).
Proof using Type.
  intros Hr Hq Hl Ho. rewrite (watcher_calls _ _ Hr), answer_after by done. unfold crb_has.
  rewrite <- (reachable_quiescent _ _ (asked q owner) Hr Hq).
  destruct (last_call (calls c) (asked q owner)) as [[crb|]|]; cbn.
  - naive_solver.
  - pose proof (empty_answer q owner sa). naive_solver.
  - pose proof (empty_answer q owner sa). naive_solver.
Qed.

(** An owner whose name has a colon shares with nobody. *)
Lemma colon_owner_alone (l : list (gostring * option ClusterRoleBinding)) (c : shareCache) (owner sa : gostring) :
  ~ colon_free owner -> Forall seen_call l -> LoadOrStore owner c = newSaContainer ->
  sa ∉ ssc_cooperatorSas (LoadOrStore owner (foldl run_call c l)) /\ sa ∉ ssc_viewerSas (LoadOrStore owner (foldl run_call c l)).
Proof using Type.
  intros Hc Hl Hnew. induction l as [|[key obj] l IH] using rev_ind.
  - cbn. rewrite Hnew. split; apply not_elem_of_empty.
  - apply Forall_app in Hl as [Hl [Hobj _]%Forall_cons]. unfold seen_call in Hobj. cbn in Hobj.
    destruct obj as [crb|]; [|done]. rewrite foldl_app. cbn [foldl]. specialize (IH Hl). set (c' := foldl run_call c l) in *.
    change (run_call c' (key, Some crb)) with (crb_join crb c').
    destruct (decide (crb_Name crb = DefaultRoleBinding)) as [Ed|Ed].
    + unfold crb_join. rewrite (bool_decide_eq_true_2 _ Ed), join_owners_spec. exact IH.
    + destruct (crb_join_share crb c' Ed) as [(o & Hf & _ & ->)|[(o & Hf & _ & ->)|(-> & _)]]; [..|exact IH];
        rewrite LoadOrStore_insert, bool_decide_eq_false_2 by (by intros ->); exact IH.
Qed.

(** Once the watcher of cluster role bindings is at rest, and no binding was
    deleted, its answers are those of the bindings the informer has: the owners
    of the cluster are the subjects of the default binding, and a user cooperates
    in or views the cluster when it is a subject of an owner's binding of that
    kind. *)
Theorem cluster_shares_at_rest (c : Controller shareCache ClusterRoleBinding) sa :
  reachable (∅ : shareCache) c -> quiescent c -> Forall seen_call (calls c) ->
  (IsOwnerOfCluster (watcher c) sa = true <-> crb_has c DefaultRoleBinding sa) /\
  (IsCooperOfCluster (watcher c) sa = true <-> exists owner, colon_free owner /\ crb_has c (cooperatorCRB owner) sa) /\
  (IsViewerOfCluster (watcher c) sa = true <-> exists owner, colon_free owner /\ crb_has c (viewerCRB owner) sa).
Proof using Type.
  intros Hr Hq Hl.
  assert (forall owner, ~ colon_free owner -> sa ∉ ssc_cooperatorSas (LoadOrStore owner (watcher c)) /\
    sa ∉ ssc_viewerSas (LoadOrStore owner (watcher c))) as Hc.
  { intros owner Ho. rewrite (watcher_calls _ _ Hr). by apply colon_owner_alone. }
  split_and!.
  - pose proof (answer_at_rest c AskOwner sa sa Hr Hq Hl (or_intror eq_refl)) as H. cbn in H.
    unfold IsOwnerOfCluster. unfold LoadOrStore in H. destruct (watcher c !! sa); cbn in H; naive_solver.
  - unfold IsCooperOfCluster. rewrite (some_container ssc_cooperatorSas) by done. split.
    + intros (owner & Hin). exists owner. destruct (colon_free_dec owner) as [Ho|Ho]; [|by apply Hc in Ho as [? _]].
      split; [done|]. by apply (answer_at_rest c AskCooperator owner sa Hr Hq Hl (or_introl Ho)).
    + intros (owner & Ho & Hin). exists owner. by apply (answer_at_rest c AskCooperator owner sa Hr Hq Hl (or_introl Ho)).
  - unfold IsViewerOfCluster. rewrite (some_container ssc_viewerSas) by done. split.
    + intros (owner & Hin). exists owner. destruct (colon_free_dec owner) as [Ho|Ho]; [|by apply Hc in Ho as [_ ?]].
      split; [done|]. by apply (answer_at_rest c AskViewer owner sa Hr Hq Hl (or_introl Ho)).
    + intros (owner & Ho & Hin). exists owner. by apply (answer_at_rest c AskViewer owner sa Hr Hq Hl (or_introl Ho)).
Qed.

(** A deletion changes no answer: whatever is deleted, the watcher has what it
    had. *)
Theorem deleted_share_stays (l : list (gostring * option ClusterRoleBinding)) (c : shareCache) :
  foldl run_call c l = foldl run_call c (filter (fun call => is_Some (snd call)) l).
Proof using Type.
  revert c. induction l as [|[key [crb|]] l IH]; intros c; [done| |].
  - rewrite filter_cons_True by done. cbn [foldl]. apply IH.
  - rewrite filter_cons_False by (by intros [? ?]). cbn [foldl]. apply IH.
Qed.
End cluster_listing.

(** ** Sharing clusters: the calls *)

Section cluster_calls.
Context (now : gostring) (db : Db) (clusterId : Z) (cl : ClusterModel).
Context (Hcl : db_cluster db clusterId = Some cl).

Lemma client_succeeds {B : Type} p e (q : svc B) w s :
  w !! cl_KubeConfig cl = Some s -> faultless s -> succeeds p ->
  exists s', keeps_bindings s s' /\
    svc_bind (on_client (cl_KubeConfig cl) p e) (fun _ => q) w = q (<[cl_KubeConfig cl := s']> w).
Proof using Type.
  intros Hw Hs Hp. destruct (Hp s Hs) as (s' & E & Hk). exists s'. split; [done|].
  unfold svc_bind, on_client. by rewrite Hw, E.
Qed.

(** What every call begins with changes no binding. *)
Lemma prepared_call {B : Type} userId u (q : gostring * gostring -> svc B) w s :
  db_user db userId = Some u -> w !! cl_KubeConfig cl = Some s -> faultless s ->
  exists s', keeps_bindings s s' /\
    svc_bind (PrepareServiceAccountAndClientGo now db clusterId userId) q w =
    q (cl_KubeConfig cl, u_SaName u) (<[cl_KubeConfig cl := s']> w).
Proof using Hcl.
  intros Hu Hw Hs. unfold PrepareServiceAccountAndClientGo. rewrite Hcl, Hu. unfold svc_bind at 2 3 4, of_db, svc_ret, new_client.
  unfold svc_bind at 1. cbn. rewrite Hw.
  destruct (client_succeeds (createOrUpdateServiceAccountINE now (u_SaName u) DefaultSaNs) ErrServiceAccountCreate
    (svc_bind (on_client (cl_KubeConfig cl) createClusterAdminRoleINE ErrClusterRoleCreate)
      (fun _ w => (w, Ok (cl_KubeConfig cl, u_SaName u)))) w s Hw Hs) as (s1 & K1 & ->); [apply service_account_made|].
  destruct (client_succeeds createClusterAdminRoleINE ErrClusterRoleCreate (fun w => (w, Ok (cl_KubeConfig cl, u_SaName u)))
    (<[cl_KubeConfig cl := s1]> w) s1) as (s2 & K2 & ->); [apply lookup_insert_eq|apply K1|apply roles_made|].
  exists s2. rewrite insert_insert_eq. split; [by eapply keeps_bindings_trans|done].
Qed.

Lemma cluster_appended sa saNs crb role s :
  faultless s -> sa <> [] ->
  exists s' b, CreateOrUpdateClusterRoleBindingINE now sa saNs crb role s = (s', Ok tt) /\ faultless s' /\
    clusterRoleBindings s' !! crb = Some b /\ sa ∈ names (b_Subjects b) /\
    forall k, k <> crb -> clusterRoleBindings s' !! k = clusterRoleBindings s !! k.
Proof using Type.
  intros Hs Hsa. unfold CreateOrUpdateClusterRoleBindingINE, deferred_refresh.
  assert (exists s1 b, AppendClusterRoleBinding now crb role sa saNs s = (s1, Ok tt) /\ faultless s1 /\
    clusterRoleBindings s1 !! crb = Some b /\ sa ∈ names (b_Subjects b) /\
    forall k, k <> crb -> clusterRoleBindings s1 !! k = clusterRoleBindings s !! k) as (s1 & b & E & Hf & Hb & Hin & Hk).
  { assert (forall b, sa ∈ names (b_Subjects (append_subject now sa saNs b))) as Happ.
    { intros b. unfold names. cbn. rewrite bool_decide_eq_true_2 by done. rewrite fmap_app. apply elem_of_app. right. by left. }
    unfold AppendClusterRoleBinding, append_binding, api_then, get_crb, create_crb, update_crb.
    rewrite request_faultless by done. destruct (clusterRoleBindings s !! crb) as [b|] eqn:E; cbn.
    - unfold has_name. case_bool_decide as Hin; [by exists s, b|].
      rewrite request_faultless, E by done. do 2 eexists. split; [done|]. split_and!; [done|cbn; apply lookup_insert_eq|apply Happ|].
      intros k Hk. cbn. by rewrite lookup_insert_ne.
    - rewrite request_faultless, E by done. do 2 eexists. split; [done|]. split_and!; [done|cbn; apply lookup_insert_eq|apply Happ|].
      intros k Hk. cbn. by rewrite lookup_insert_ne. }
  destruct (refreshed now sa saNs s1 Hf) as (s2 & E2 & (Hf2 & _ & Hc2 & _)). exists s2, b.
  unfold api_then. rewrite E, E2, Hc2. done.
Qed.

Lemma cluster_not_removed sa saNs crb s :
  faultless s -> clusterRoleBindings s !! crb = None ->
  exists s', RemoveClusterRoleBindingIfPresent now sa saNs crb s = (s', Err NotFound) /\ keeps_bindings s s'.
Proof using Type.
  intros Hs E. unfold RemoveClusterRoleBindingIfPresent, deferred_refresh, RemoveClusterRoleBinding, api_then, get_crb.
  rewrite request_faultless, E by done. cbn. destruct (refreshed now sa saNs s Hs) as (s2 & E2 & H2). exists s2. by rewrite E2.
Qed.

(** The first user who is made a cooperator of a cluster becomes one, and the
    call reports that the binding could not be created: a cluster role binding
    that does not exist is an error for [RemoveClusterRoleBinding], and the
    cluster has no binding of viewers yet. *)
Theorem cluster_share_reports_error fromUserId shareUserId owner u w s :
  db_user db fromUserId = Some owner -> u_SaName owner <> [] -> colon_free (u_SaName owner) ->
  db_user db shareUserId = Some u -> u_SaName u <> [] ->
  w !! cl_KubeConfig cl = Some s -> faultless s -> clusterRoleBindings s !! viewerCRB (u_SaName owner) = None ->
  exists w' s' b, AsClusterCooperator now db clusterId fromUserId shareUserId w = (w', Err ErrRoleBindingCreate) /\
    w' !! cl_KubeConfig cl = Some s' /\ clusterRoleBindings s' !! cooperatorCRB (u_SaName owner) = Some b /\
    u_SaName u ∈ names (b_Subjects b).
Proof using Hcl.
  intros Hown Hosa Hcf Hu Husa Hw Hs Hv. unfold AsClusterCooperator, cluster_call at 1.
  destruct (prepared_call fromUserId owner (fun ks => if bool_decide (snd ks = []) then svc_ret tt
    else svc_bind (of_db (db_user db shareUserId) ErrUserNotFound) (fun u => svc_bind (on_client (fst ks)
       (CreateOrUpdateClusterRoleBindingINE now (u_SaName u) DefaultSaNs (cooperatorCRB (snd ks)) CooperatorRoleName) ErrRoleBindingCreate)
       (fun _ => RemoveFromClusterViewer now db clusterId fromUserId shareUserId))) w s Hown Hw Hs) as (s1 & (Hf1 & _ & Hc1 & _) & ->).
  cbn [fst snd]. rewrite bool_decide_eq_false_2 by done. rewrite Hu.
  destruct (cluster_appended (u_SaName u) DefaultSaNs (cooperatorCRB (u_SaName owner)) CooperatorRoleName s1 Hf1 Husa)
    as (s2 & b & E2 & Hf2 & Hb & Hin & Hk).
  unfold svc_bind at 1, of_db, svc_ret. unfold svc_bind at 1, on_client at 1. rewrite lookup_insert_eq, E2, insert_insert_eq.
  unfold RemoveFromClusterViewer, cluster_call.
  destruct (prepared_call fromUserId owner (fun ks => if bool_decide (snd ks = []) then svc_ret tt
    else svc_bind (of_db (db_user db shareUserId) ErrUserNotFound) (fun u => on_client (fst ks)
       (RemoveClusterRoleBindingIfPresent now (u_SaName u) DefaultSaNs (viewerCRB (snd ks))) ErrRoleBindingCreate))
     (<[cl_KubeConfig cl := s2]> w) s2 Hown) as (s3 & (Hf3 & _ & Hc3 & _) & E3); [apply lookup_insert_eq|done|].
  rewrite E3. cbn [fst snd]. rewrite bool_decide_eq_false_2, Hu, insert_insert_eq by done.
  destruct (cluster_not_removed (u_SaName u) DefaultSaNs (viewerCRB (u_SaName owner)) s3 Hf3) as (s4 & E4 & (_ & _ & Hc4 & _)).
  { rewrite Hc3, Hk, Hc1; [done|]. apply not_eq_sym. by apply cooperatorCRB_viewer. }
  unfold svc_bind, of_db, svc_ret, on_client. rewrite lookup_insert_eq, E4, insert_insert_eq.
  do 3 eexists. split; [done|]. split; [apply lookup_insert_eq|]. rewrite Hc4, Hc3. by split.
Qed.
End cluster_calls.

(** ** The goroutines that create the roles *)

(** Where the goroutines can be as long as no request fails. *)
Definition quiet (st : RoleCall) : Prop :=
  rc_panic st = false /\ rc_errors st = 0 /\
  match rc_result st with
  | None => rc_closed st = false /\
      ((rc_waiting st = true /\ rc_done st = false) \/ (rc_running st = 0 /\ rc_waiting st = false /\ rc_done st = true))
  | Some r => r = true /\ rc_running st = 0 /\ rc_waiting st = false
  end.

(** When no request fails, [createClusterAdminRoleINE] runs its goroutines to
    the end without a panic and returns no error, in every interleaving. *)
Theorem roles_created_quietly st :
  rtc (role_step false) role_start st ->
  rc_panic st = false /\ rc_errors st = 0 /\ rc_result st <> Some false /\
  ((forall st', ~ role_step false st st') -> rc_result st = Some true).
Proof.
  intros Hr.
  assert (quiet st) as (Hp & He & Hinv).
  { refine (rtc_ind_r (R := role_step false) quiet role_start _ _ st Hr); [unfold quiet; cbn; tauto|].
    clear. intros x y _ Hxy (Hp & He & H). unfold quiet in *. inversion Hxy; subst; cbn in *; try done;
      try (destruct r as [|]); naive_solver lia. }
  split_and!; [done|done| |].
  - destruct (rc_result st); naive_solver.
  - intros Hstuck. destruct (rc_result st) as [r|] eqn:Er; [by destruct Hinv as (-> & _)|]. exfalso.
    destruct st as [n e w d c r p]; cbn in *. destruct Hinv as (Hc & Hinv). subst. destruct n as [|n].
    + destruct Hinv as [[-> ->]|(_ & -> & ->)]; eapply Hstuck; [apply wait_done|apply select_done].
    + eapply Hstuck. apply worker_ok.
Qed.

(** An error that was sent can be lost: when all goroutines have ended before the
    caller looks, it may take either channel. *)
Theorem role_error_lost :
  exists st, rtc (role_step true) role_start st /\ rc_errors st = 1 /\ rc_result st = Some true.
Proof.
  exists (mkRoleCall 0 1 false false true (Some true) false). split; [|done]. unfold role_start.
  eapply rtc_l; [by apply worker_error|]. do 2 (eapply rtc_l; [apply worker_ok|]).
  eapply rtc_l; [apply wait_done|]. eapply rtc_l; [apply select_done|]. apply rtc_refl.
Qed.

(** When a request fails the program can panic: the caller returns with the
    first error and closes the channels the other goroutines send on. *)
Theorem role_error_crashes : exists st, rtc (role_step true) role_start st /\ rc_panic st = true.
Proof.
  exists (mkRoleCall 0 0 false false true (Some false) true). split; [|done]. unfold role_start.
  eapply rtc_l; [by apply worker_error|]. eapply rtc_l; [apply select_error|].
  do 2 (eapply rtc_l; [apply worker_ok|]). eapply rtc_l; [apply wait_done_closed|]. apply rtc_refl.
Qed.

(** ** The supervisor *)

(** Two questions at once, for a cluster without a watcher, start two: the one
    that is stored first runs on and is in no deck. *)
Theorem watcher_started_twice kube s :
  inDeck kube s = None -> (forall k w, sup_deck s !! k = Some w -> w < sup_next s) ->
  let s' := fst (store_watcher kube (fst (store_watcher kube s))) in
  exists w, w ∈ sup_running s' /\ forall k, sup_deck s' !! k <> Some w.
Proof.
  intros Hd Hlt s'. exists (sup_next s). split; [cbn; set_solver|]. intros k. cbn.
  destruct (decide (k = kube)) as [->|Hne].
  - rewrite lookup_insert_eq. intros [= E]. lia.
  - rewrite !lookup_insert_ne by done. intros E%Hlt. lia.
Qed.

(** ** Labels and names *)

(** A binding without labels is not labelled. *)
Theorem unlabelled_stays_unlabelled b : b_Labels b = None -> labelled b = b.
Proof. destruct b as [r l s]. cbn. intros ->. done. Qed.

(** A service account is not added when another namespace's of the same name is
    a subject already. *)
Theorem namesake_not_added now name ns role sa saNs saNs' s b :
  faultless s -> roleBindings s !! (ns, name) = Some b -> mkSubject sa saNs' ∈ b_Subjects b ->
  AppendRoleBinding now name ns role sa saNs s = (s, Ok tt).
Proof.
  intros Hs Hb Hin. unfold AppendRoleBinding, append_binding, api_then, get_rb. rewrite request_faultless, Hb by done.
  unfold has_name. rewrite bool_decide_eq_true_2; [done|]. apply list_elem_of_fmap. by exists (mkSubject sa saNs').
Qed.

(** ** Runs *)

Section demo.
Definition demo_db : Db :=
  mkDb (fun id => if bool_decide (id = 1%Z) then Some (mkCluster 1 (go "kube") 1 (go "cluster")) else None)
       (fun id => if bool_decide (id = 1%Z) then Some (mkUser 1 (go "sa-1") true (go "ann"))
                  else if bool_decide (id = 2%Z) then Some (mkUser 2 (go "sa-2") false (go "bob")) else None).

Definition demo_server : Server := mkServer ∅ ∅ ∅ ∅ ∅ ∅ [].
Definition demo_world : World := {[go "kube" := demo_server]}.
Definition nobody : Shares := fun _ _ _ => NoShare.

Definition demo_calls : list share_call :=
  [mkCall OpViewer (go "1") 1 2 (go "ns"); mkCall OpCooperator (go "2") 1 2 (go "ns"); mkCall OpViewer (go "3") 1 1 (go "ns")].

Lemma nobody_has : world_has demo_world (rep nobody).
Proof.
  intros kube s Hs. unfold demo_world in Hs. apply lookup_singleton_Some in Hs as [_ <-]. split; [done|]. intros name ns _.
  unfold subs. cbn. rewrite lookup_empty. cbn. split_and!; [split; [apply NoDup_nil_2|apply Forall_nil_2]|done|].
  intros sa. cbn. split; [by intros ?%elem_of_nil|done].
Qed.

(** A user is made a viewer and then a cooperator, another one a viewer. *)
Lemma share_refines_witness :
  (exists w', run_shares demo_db demo_calls demo_world = (w', Ok tt) /\
     world_has w' (rep (foldl (spec_call demo_db) nobody demo_calls)) /\ world_frame demo_world w') /\
  foldl (spec_call demo_db) nobody demo_calls (go "kube") (go "ns") (go "sa-2") = Cooperator.
Proof.
  split; [|vm_compute; reflexivity]. apply (share_refines demo_db demo_calls demo_world nobody nobody_has).
  assert (forall op now ns id u, db_user demo_db id = Some u -> u_SaName u <> [] ->
    known demo_db demo_world (mkCall op now 1 id ns)) as Hk.
  { intros op now ns id u Hu Hsa. exists (mkCluster 1 (go "kube") 1 (go "cluster")), u. split; [reflexivity|]. split; [exact Hu|].
    split; [exact Hsa|]. exists demo_server. apply lookup_singleton_eq. }
  repeat apply Forall_cons_2; [eapply Hk; [reflexivity|discriminate]..|apply Forall_nil_2].
Defined.

Definition demo_binding : Binding := mkBinding ViewerRoleName (Some owner_label) [mkSubject (go "sa-2") DefaultSaNs].
Definition shared_server : Server := mkServer {[(go "ns", ViewerRoleBinding) := demo_binding]} ∅ ∅ ∅ ∅ ∅ [].
Definition demo_rb : RoleBinding := mkRB (go "ns") ViewerRoleBinding [go "sa-2"].
Definition one_viewer : Shares := fun _ ns sa => if bool_decide (ns = go "ns" /\ sa = go "sa-2") then Viewer else NoShare.

Lemma ns_ok_demo : ns_ok (go "ns").
Proof. split; [discriminate|]. apply (bool_decide_eq_true_1 _). reflexivity. Qed.

Lemma shared_server_has : server_has shared_server (rep one_viewer (go "kube")).
Proof.
  split; [done|]. intros name ns Hk. unfold subs. cbn [roleBindings shared_server].
  destruct (decide ((go "ns", ViewerRoleBinding) = (ns, name))) as [[= <- <-]|Hne].
  - rewrite lookup_singleton_eq. cbn. split_and!.
    + split; [apply NoDup_singleton|by apply Forall_singleton].
    + intros b [= <-]. exists owner_label. split; [done|]. apply lookup_singleton_eq.
    + intros sa. rewrite list_elem_of_singleton. unfold rep, one_viewer. case_bool_decide; naive_solver.
  - rewrite lookup_singleton_ne by done. cbn. split_and!; [split; [apply NoDup_nil_2|apply Forall_nil_2]|done|].
    intros sa. cbn. split; [by intros ?%elem_of_nil|]. unfold rep, one_viewer. case_bool_decide as E; [|done].
    intros ->. by destruct E as [-> ->].
Qed.

Lemma demo_informed (c : Controller roleBindingWatcher RoleBinding) :
  reachable NewRoleBindingWatcher c -> quiescent c -> calls c = [(object_key (go "ns") ViewerRoleBinding, Some demo_rb)] ->
  informed shared_server c.
Proof.
  intros Hr Hq Hcalls ns name Hns Hname. rewrite <- (reachable_quiescent _ _ _ Hr Hq), Hcalls.
  change [(object_key (go "ns") ViewerRoleBinding, Some demo_rb)] with
    ([] ++ [(object_key (go "ns") ViewerRoleBinding, Some demo_rb)]).
  rewrite last_call_snoc. cbn [roleBindings shared_server].
  case_decide as E.
  - apply object_key_inj in E as [<- <-]; [|apply ns_ok_demo|done|done|done]. by rewrite lookup_singleton_eq.
  - rewrite lookup_singleton_ne; [done|]. by intros [= <- <-].
Qed.

(** The binding of a viewer is seen and handled. *)
Lemma sharing_visible_witness :
  exists c : Controller roleBindingWatcher RoleBinding,
    reachable NewRoleBindingWatcher c /\ go "ns" ∈ GetAllViewNs (watcher c) (go "sa-2").
Proof.
  destruct (one_change NewRoleBindingWatcher (object_key (go "ns") ViewerRoleBinding) demo_rb)
    as (c & Hr & Hq & Hcalls & _); [reflexivity|].
  exists c. split; [exact Hr|].
  refine (proj2 (proj1 (sharing_visible shared_server one_viewer (go "kube") c (go "ns") (go "sa-2")
    shared_server_has Hr Hq _ (demo_informed c Hr Hq Hcalls) ns_ok_demo)) _); [|reflexivity].
  rewrite Hcalls. apply Forall_singleton. exists (go "ns"), ViewerRoleBinding.
  split; [apply ns_ok_demo|]. split; [discriminate|]. split; [reflexivity|split; reflexivity].
Defined.

(** The binding of a cooperator of a cluster is seen and handled. *)
Lemma cluster_shares_at_rest_witness :
  exists c : Controller shareCache ClusterRoleBinding,
    reachable (∅ : shareCache) c /\ IsCooperOfCluster (watcher c) (go "sa-2") = true.
Proof.
  destruct (one_change (∅ : shareCache) (cooperatorCRB (go "sa-1")) (mkCRB (cooperatorCRB (go "sa-1")) [go "sa-2"]))
    as (c & Hr & Hq & Hcalls & Hx); [reflexivity|].
  exists c. split; [exact Hr|].
  refine (proj2 (proj1 (proj2 (cluster_shares_at_rest c (go "sa-2") Hr Hq _))) _).
  - rewrite Hcalls. apply Forall_singleton. reflexivity.
  - exists (go "sa-1"). split; [apply (bool_decide_eq_true_1 _); reflexivity|]. eexists. split; [exact Hx|]. left.
Defined.

(** The first user a cluster is shared with. *)
Lemma cluster_share_reports_error_witness :
  exists w' s' b, AsClusterCooperator (go "now") demo_db 1 1 2 demo_world = (w', Err ErrRoleBindingCreate) /\
    w' !! go "kube" = Some s' /\ clusterRoleBindings s' !! cooperatorCRB (go "sa-1") = Some b /\
    go "sa-2" ∈ names (b_Subjects b).
Proof.
  apply (cluster_share_reports_error (go "now") demo_db 1 (mkCluster 1 (go "kube") 1 (go "cluster")) eq_refl 1 2
    (mkUser 1 (go "sa-1") true (go "ann")) (mkUser 2 (go "sa-2") false (go "bob")) demo_world demo_server);
    [reflexivity|discriminate|apply (bool_decide_eq_true_1 _); reflexivity|reflexivity|discriminate|reflexivity..].
Defined.

(** The three roles are created one after the other. *)
Lemma roles_created_quietly_witness :
  exists st, rtc (role_step false) role_start st /\ rc_result st = Some true /\ rc_panic st = false.
Proof.
  exists (mkRoleCall 0 0 false false true (Some true) false).
  assert (rtc (role_step false) role_start (mkRoleCall 0 0 false false true (Some true) false)) as Hr.
  { unfold role_start. do 3 (eapply rtc_l; [apply worker_ok|]). eapply rtc_l; [apply wait_done|].
    eapply rtc_l; [apply select_done|]. apply rtc_refl. }
  split; [exact Hr|]. split; [reflexivity|]. exact (proj1 (roles_created_quietly _ Hr)).
Defined.
End demo.
