(* ===== verification/DevSpaces.v ===== *)
(** * Dev spaces ([pkg/nocalhost-api/app/api/v1/cluster_user],
      [service/cluster_user], [repository/cluster_user])

    The handlers of the API server that create, list, share, reset and delete dev
    spaces.  A dev space is a row of a table and, unless it stands for a whole
    cluster, a namespace; who may do what follows from the row, from the table of
    clusters and from the watchers of role bindings ([Rbac]).

    The tables of clusters and users are parameters, as are the watchers' sets at
    the time of a call and the answers of the mesh manager ([Mesh]); random
    suffixes are an argument.  How the database compares texts is a parameter, since
    it depends on the collation; reads and writes of the table fail where a list of
    faults says so. *)

From stdpp Require Import sorting.
From S2P Require Import Prelude GoStrings FilePath DevDir WatchController Mesh Rbac.
#[local] Open Scope go_scope.

(** ** The table of dev spaces ([model/cluster_user.go]) *)

Record Space := mkSpace {
  s_ID : Z;
  s_ApplicationId : Z;
  s_UserId : Z;
  s_SpaceName : gostring;
  s_ClusterId : Z;
  s_KubeConfig : gostring;
  s_SpaceResourceLimit : gostring;
  s_Namespace : gostring;
  s_ClusterAdmin : option Z;
  s_Protected : bool;
  s_IsBaseSpace : bool;
  s_BaseDevSpaceId : Z;
  s_TraceHeader : Header
}.

Definition no_header : Header := mkHeader [] [] [].
Definition empty_space : Space := mkSpace 0 0 0 [] 0 [] [] [] None false false 0 no_header.

#[export] Instance Header_eq_dec : EqDecision Header.
Proof. solve_decision. Defined.
#[export] Instance Space_eq_dec : EqDecision Space.
Proof. solve_decision. Defined.

Definition IsClusterAdmin (cu : Space) : bool :=
  match s_ClusterAdmin cu with Some x => bool_decide (x <> 0%Z) | None => false end.

(** The rows in the order of their ids, which are given out upwards, and which of
    the writes and reads to come fail. *)
Record Tables := mkTables {
  rows : list Space;
  next_id : Z;
  db_faults : list bool;
  read_faults : list bool
}.

(** How the database compares texts: [=] and [LIKE] with a pattern. *)
Class Collation := {
  text_eq : gostring -> gostring -> bool;
  text_like : gostring -> gostring -> bool
}.

Class CollationLaws `{!Collation} := {
  text_eq_refl : forall x, text_eq x x = true
}.

Section queries.
Context `{!Collation}.

(** A condition given as a row: its fields that are not zero. *)
Definition field_matches {A : Type} `{!EqDecision A} (zero want have : A) : bool :=
  bool_decide (want = zero) || bool_decide (want = have).

Definition text_matches (want have : gostring) : bool := bool_decide (want = []) || text_eq want have.

Definition matches (m cu : Space) : bool :=
  field_matches 0%Z (s_ID m) (s_ID cu) && field_matches 0%Z (s_ApplicationId m) (s_ApplicationId cu) &&
  field_matches 0%Z (s_UserId m) (s_UserId cu) && text_matches (s_SpaceName m) (s_SpaceName cu) &&
  field_matches 0%Z (s_ClusterId m) (s_ClusterId cu) && text_matches (s_KubeConfig m) (s_KubeConfig cu) &&
  text_matches (s_SpaceResourceLimit m) (s_SpaceResourceLimit cu) && text_matches (s_Namespace m) (s_Namespace cu) &&
  field_matches None (s_ClusterAdmin m) (s_ClusterAdmin cu) && field_matches false (s_Protected m) (s_Protected cu) &&
  field_matches false (s_IsBaseSpace m) (s_IsBaseSpace cu) && field_matches 0%Z (s_BaseDevSpaceId m) (s_BaseDevSpaceId cu) &&
  field_matches no_header (s_TraceHeader m) (s_TraceHeader cu).

(** A query.  Where it fails the repository answers as if there were no row. *)
Definition reading {A : Type} (f : list Space -> option A) (t : Tables) : Tables * option A :=
  match read_faults t with
  | failed :: bs => (mkTables (rows t) (next_id t) (db_faults t) bs, if failed then None else f (rows t))
  | [] => (t, f (rows t))
  end.

(** [First] orders by the id. *)
Definition repo_GetFirst (m : Space) : Tables -> Tables * option Space := reading (List.find (matches m)).

(** By cluster admin, downwards, then by user. *)
Definition row_le (a b : Space) : Prop :=
  (default 0 (s_ClusterAdmin b) < default 0 (s_ClusterAdmin a))%Z \/
  (default 0 (s_ClusterAdmin a) = default 0 (s_ClusterAdmin b) /\ s_UserId a <= s_UserId b)%Z.
#[export] Instance row_le_dec : RelDecision row_le.
Proof. intros a b. unfold row_le. apply _. Defined.

(** An empty result is an error, and the error of the query is not looked at. *)
Definition sorted_rows (l : list Space) : option (list Space) :=
  match l with
  | [] => None
  | l => Some (merge_sort row_le l)
  end.

Definition repo_GetList (m : Space) : Tables -> Tables * option (list Space) :=
  reading (fun l => sorted_rows (filter (fun cu => matches m cu = true) l)).

(** The condition, [like "%name%"] in place of the exact name. *)
Definition fuzzy_match (m cu : Space) : bool :=
  let name := s_SpaceName m in
  let m' := mkSpace (s_ID m) (s_ApplicationId m) (s_UserId m) [] (s_ClusterId m) (s_KubeConfig m) (s_SpaceResourceLimit m)
              (s_Namespace m) (s_ClusterAdmin m) (s_Protected m) (s_IsBaseSpace m) (s_BaseDevSpaceId m) (s_TraceHeader m) in
  matches m' cu && (bool_decide (name = []) || text_like (go "%" ++ name ++ go "%") (s_SpaceName cu)).

Definition ListWithFuzzySpaceName (m : Space) : Tables -> Tables * option (list Space) :=
  reading (fun l => sorted_rows (filter (fun cu => fuzzy_match m cu = true) l)).

Definition tables_fault (t : Tables) : bool * Tables :=
  match db_faults t with
  | b :: bs => (b, mkTables (rows t) (next_id t) bs (read_faults t))
  | [] => (false, t)
  end.

(** The id is the next one; [cluster_admin] has the default 0. *)
Definition repo_Create (cu : Space) (t : Tables) : Tables * option Space :=
  let '(failed, t) := tables_fault t in
  if failed then (t, None)
  else
    let cu := mkSpace (next_id t) (s_ApplicationId cu) (s_UserId cu) (s_SpaceName cu) (s_ClusterId cu) (s_KubeConfig cu)
                (s_SpaceResourceLimit cu) (s_Namespace cu) (Some (default 0%Z (s_ClusterAdmin cu))) (s_Protected cu)
                (s_IsBaseSpace cu) (s_BaseDevSpaceId cu) (s_TraceHeader cu) in
    (mkTables (rows t ++ [cu]) (next_id t + 1)%Z (db_faults t) (read_faults t), Some cu).

(** Deleting no row is no error. *)
Definition repo_Delete (id : Z) (t : Tables) : Tables * bool :=
  let '(failed, t) := tables_fault t in
  if failed then (t, false)
  else (mkTables (filter (fun cu => s_ID cu <> id) (rows t)) (next_id t) (db_faults t) (read_faults t), true).

(** Only fields that are not zero are written. *)
Definition or_field {A : Type} `{!EqDecision A} (zero new old : A) : A := if bool_decide (new = zero) then old else new.

Definition merge_row (m cu : Space) : Space :=
  mkSpace (s_ID cu) (or_field 0%Z (s_ApplicationId m) (s_ApplicationId cu)) (or_field 0%Z (s_UserId m) (s_UserId cu))
    (or_field [] (s_SpaceName m) (s_SpaceName cu)) (or_field 0%Z (s_ClusterId m) (s_ClusterId cu))
    (or_field [] (s_KubeConfig m) (s_KubeConfig cu)) (or_field [] (s_SpaceResourceLimit m) (s_SpaceResourceLimit cu))
    (or_field [] (s_Namespace m) (s_Namespace cu)) (or_field None (s_ClusterAdmin m) (s_ClusterAdmin cu))
    (or_field false (s_Protected m) (s_Protected cu)) (or_field false (s_IsBaseSpace m) (s_IsBaseSpace cu))
    (or_field 0%Z (s_BaseDevSpaceId m) (s_BaseDevSpaceId cu)) (or_field no_header (s_TraceHeader m) (s_TraceHeader cu)).

(** Some row of the application and user must exist, and the row itself. *)
Definition repo_Update (m : Space) (t : Tables) : Tables * bool :=
  let where_ := mkSpace 0 (s_ApplicationId m) (s_UserId m) [] 0 [] [] [] None false false 0 no_header in
  match repo_GetFirst where_ t with
  | (t, None) => (t, false)
  | (t, Some _) =>
      let '(failed, t) := tables_fault t in
      if failed || negb (existsb (fun cu => bool_decide (s_ID cu = s_ID m)) (rows t)) then (t, false)
      else (mkTables ((fun cu => if bool_decide (s_ID cu = s_ID m) then merge_row m cu else cu) <$> rows t)
              (next_id t) (db_faults t) (read_faults t), true)
  end.

(** A row by its id; the id 0 is no condition. *)
Definition GetCache (id : Z) : Tables -> Tables * option Space :=
  repo_GetFirst (mkSpace id 0 0 [] 0 [] [] [] None false false 0 no_header).
End queries.

(** ** Limits of resources ([cluster_user.go], [create.go]) *)

Record SpaceResourceLimit := mkLimit {
  SpaceReqMem : gostring;
  SpaceReqCpu : gostring;
  SpaceLimitsMem : gostring;
  SpaceLimitsCpu : gostring;
  SpaceLbCount : gostring;
  SpacePvcCount : gostring;
  SpaceStorageCapacity : gostring;
  SpaceEphemeralStorage : gostring;
  ContainerReqMem : gostring;
  ContainerReqCpu : gostring;
  ContainerLimitsMem : gostring;
  ContainerLimitsCpu : gostring;
  ContainerEphemeralStorage : gostring
}.

Definition limit_fields (r : SpaceResourceLimit) : list gostring :=
  [SpaceReqMem r; SpaceReqCpu r; SpaceLimitsMem r; SpaceLimitsCpu r; SpaceLbCount r; SpacePvcCount r; SpaceStorageCapacity r;
   SpaceEphemeralStorage r; ContainerReqMem r; ContainerReqCpu r; ContainerLimitsMem r; ContainerLimitsCpu r;
   ContainerEphemeralStorage r].

Definition no_limit : SpaceResourceLimit := mkLimit [] [] [] [] [] [] [] [] [] [] [] [] [].

Definition nonempty (x : gostring) : bool := bool_decide (x <> []).

Definition ResourceLimitIsSet (r : SpaceResourceLimit) : bool := existsb nonempty (limit_fields r).

(** A limit of a namespace needs one for containers. *)
Definition limit_Validate (r : SpaceResourceLimit) : bool :=
  negb (nonempty (SpaceReqMem r) && negb (nonempty (ContainerReqMem r)) ||
        nonempty (SpaceLimitsMem r) && negb (nonempty (ContainerLimitsMem r)) ||
        nonempty (SpaceReqCpu r) && negb (nonempty (ContainerReqCpu r)) ||
        nonempty (SpaceLimitsCpu r) && negb (nonempty (ContainerLimitsCpu r))).

Definition digit (c : ascii) : bool := (48 <=? byte_val c)%Z && (byte_val c <=? 57)%Z.

(** [^([+-]?[0-9.]+)suffix$], or with digits only. *)
Definition number_with (char : ascii -> bool) (suffix x : gostring) : bool :=
  let x := match x with c :: r => if bool_decide (c = "+"%char \/ c = "-"%char) then r else x | [] => [] end in
  HasSuffix x suffix &&
  let n := take (length x - length suffix) x in nonempty n && forallb char n.

Definition digit_or_dot (c : ascii) : bool := digit c || bool_decide (c = "."%char).

Definition regMem : gostring -> bool := number_with digit_or_dot (go "Mi").
Definition regCpu : gostring -> bool := number_with digit_or_dot [].
Definition regStorage : gostring -> bool := number_with digit_or_dot (go "Gi").
Definition numReg : gostring -> bool := number_with digit [].

Definition appendWhileMatch (value key : gostring) (reg : gostring -> bool) (l : list gostring) : list gostring :=
  if nonempty value && negb (reg value) then l ++ [key] else l.

(** The names of the fields with a wrong format. *)
Definition ValidSpaceResourceLimit (r : SpaceResourceLimit) : list gostring :=
  let l := appendWhileMatch (SpaceReqMem r) (go "space_req_mem") regMem [] in
  let l := appendWhileMatch (SpaceLimitsMem r) (go "space_limits_mem") regMem l in
  let l := appendWhileMatch (SpaceReqCpu r) (go "space_req_cpu") regCpu l in
  let l := appendWhileMatch (SpaceLimitsCpu r) (go "space_limits_cpu") regCpu l in
  let l := appendWhileMatch (SpaceLbCount r) (go "space_lb_count") numReg l in
  let l := appendWhileMatch (SpacePvcCount r) (go "space_pvc_count") numReg l in
  let l := appendWhileMatch (SpaceStorageCapacity r) (go "space_storage_capacity") regStorage l in
  let l := appendWhileMatch (ContainerReqMem r) (go "container_req_mem") regMem l in
  let l := appendWhileMatch (ContainerReqCpu r) (go "container_req_cpu") regCpu l in
  let l := appendWhileMatch (ContainerLimitsMem r) (go "container_limits_mem") regMem l in
  appendWhileMatch (ContainerLimitsCpu r) (go "container_limits_cpu") regCpu l.

(** ** Listing ([v2_list.go]) *)

Inductive SpaceType :=
  | IsolateSpace
  | MeshSpace.
#[export] Instance SpaceType_eq_dec : EqDecision SpaceType.
Proof. solve_decision. Defined.

Inductive SpaceOwnType :=
  | OwnTypeOwner
  | OwnTypeCooperator
  | OwnTypeViewer
  | OwnTypeNone.

Definition Priority (t : SpaceOwnType) : Z :=
  match t with OwnTypeOwner => 1000 | OwnTypeCooperator => 100 | OwnTypeViewer => 10 | OwnTypeNone => 1 end%Z.

(** Users are given by their ids. *)
Record ClusterUserExt := mkExt {
  ClusterName : gostring;
  x_SpaceType : SpaceType;
  x_SpaceOwnType : SpaceOwnType;
  ResourceLimitSet : bool;
  CooperUser : list Z;
  ViewerUser : list Z;
  Owner : option Z;
  Modifiable : bool;
  Deletable : bool
}.

(** A row with what is shown with it; nil until it is filled. *)
Record ClusterUserV2 := mkV2 {
  v_row : Space;
  v_ext : option ClusterUserExt
}.

(** What the handlers read and do not change: the tables of clusters and users,
    the watchers by kubeconfig, the texts of limits as they are decoded. *)
Record Env := mkEnv {
  e_clusters : list ClusterModel;
  e_users : list UserModel;
  e_ns : gostring -> roleBindingWatcher;
  e_cluster : gostring -> shareCache;
  e_limit : gostring -> SpaceResourceLimit
}.

Section listing.
Context `{!MapOrder gostring} `{!Collation} (e : Env).

Definition cluster_of (id : Z) : option ClusterModel := List.find (fun c => bool_decide (cl_ID c = id)) (e_clusters e).
Definition user_of (id : Z) : option UserModel := List.find (fun u => bool_decide (u_ID u = id)) (e_users e).
Definition user_by_sa (sa : gostring) : option UserModel := List.find (fun u => bool_decide (u_SaName u = sa)) (e_users e).

Definition env_db : Db := mkDb cluster_of user_of.

(** The namespaces of a user in a cluster. *)
Definition all_ns (get : roleBindingWatcher -> gostring -> list gostring) (clusterId userId : Z) : list gostring :=
  match cluster_of clusterId, user_of userId with
  | Some cl, Some u => get (e_ns e (cl_KubeConfig cl)) (u_SaName u)
  | _, _ => []
  end.

Definition AllOwnNs : Z -> Z -> list gostring := all_ns GetAllOwnNs.
Definition AllCoopNs : Z -> Z -> list gostring := all_ns GetAllCoopNs.
Definition AllViewNs : Z -> Z -> list gostring := all_ns GetAllViewNs.

(** [toArray] of a set, in any order. *)
Definition toArray (s : gset gostring) : list gostring := (range (gset_to_gmap tt s)).*1.

(** Service accounts without a user are left out. *)
Definition sa_users (sas : gset gostring) : list Z := omap (fun sa => u_ID <$> user_by_sa sa) (toArray sas).

Definition fillCooperator (cl : ClusterModel) (cu : Space) : list Z :=
  sa_users (CoopSas (e_ns e (cl_KubeConfig cl)) (s_Namespace cu)).
Definition fillViewer (cl : ClusterModel) (cu : Space) : list Z :=
  sa_users (ViewerSas (e_ns e (cl_KubeConfig cl)) (s_Namespace cu)).
Definition fillClusterCooperator (cl : ClusterModel) (cu : Space) : list Z :=
  sa_users (ClusterCoopSas env_db (e_cluster e (cl_KubeConfig cl)) (s_UserId cu)).
Definition fillClusterViewer (cl : ClusterModel) (cu : Space) : list Z :=
  sa_users (ClusterViewSas env_db (e_cluster e (cl_KubeConfig cl)) (s_UserId cu)).

Definition contains (arr : list gostring) (tar : gostring) : bool := bool_decide (tar ∈ arr).

(** The access of the current user to a dev space. *)
Definition own_type (cl : ClusterModel) (cu : Space) (currentUser : Z) : SpaceOwnType :=
  let c := e_cluster e (cl_KubeConfig cl) in
  if IsClusterAdmin cu then
    if IsValidOwner env_db c currentUser then OwnTypeOwner
    else if IsCooperAs env_db c (s_UserId cu) currentUser then OwnTypeCooperator
    else if IsViewerAs env_db c (s_UserId cu) currentUser then OwnTypeViewer
    else OwnTypeNone
  else
    if contains (AllOwnNs (cl_ID cl) currentUser) (s_Namespace cu) then OwnTypeOwner
    else if contains (AllCoopNs (cl_ID cl) currentUser) (s_Namespace cu) then OwnTypeCooperator
    else if contains (AllViewNs (cl_ID cl) currentUser) (s_Namespace cu) then OwnTypeViewer
    else OwnTypeNone.

Definition fill (cl : ClusterModel) (currentUser : Z) (isAdmin : bool) (cu : Space) : ClusterUserExt :=
  mkExt (cl_Name cl) (if bool_decide (0 < s_BaseDevSpaceId cu)%Z then MeshSpace else IsolateSpace)
    (own_type cl cu currentUser) (ResourceLimitIsSet (e_limit e (s_SpaceResourceLimit cu)))
    (if IsClusterAdmin cu then fillClusterCooperator cl cu else fillCooperator cl cu)
    (if IsClusterAdmin cu then fillClusterViewer cl cu else fillViewer cl cu)
    (u_ID <$> user_of (s_UserId cu))
    (isAdmin || bool_decide (s_UserId cu = currentUser) || bool_decide (cl_UserId cl = currentUser))
    (isAdmin || bool_decide (cl_UserId cl = currentUser)).

(** Cluster by cluster, the rows grouped under it; they are filled where they
    are. *)
Definition fillExtByUser (currentUser : Z) (isAdmin : bool) (l : list ClusterUserV2) : list ClusterUserV2 :=
  foldl (fun l cl =>
    (fun v => if bool_decide (s_ClusterId (v_row v) = cl_ID cl) then mkV2 (v_row v) (Some (fill cl currentUser isAdmin (v_row v))) else v)
      <$> l) l (e_clusters e).

(** The order of the list: cluster admins first, then by access, cluster, user
    and name. *)
Definition ext_priority (v : ClusterUserV2) : Z := match v_ext v with Some x => Priority (x_SpaceOwnType x) | None => 0%Z end.

Definition list_key (v : ClusterUserV2) : list Z :=
  [(- default 0 (s_ClusterAdmin (v_row v)))%Z; (- ext_priority v)%Z; s_ClusterId (v_row v); s_UserId (v_row v)].

Fixpoint lex_lt (a b : list Z) : Prop :=
  match a, b with
  | x :: a, y :: b => (x < y)%Z \/ (x = y /\ lex_lt a b)
  | _, _ => False
  end.

(** [less] of the sort is [not (list_le b a)]. *)
Definition list_le (a b : ClusterUserV2) : Prop :=
  lex_lt (list_key a) (list_key b) \/
  (list_key a = list_key b /\ str_le (s_SpaceName (v_row a)) (s_SpaceName (v_row b))).

#[export] Instance lex_lt_dec a b : Decision (lex_lt a b).
Proof. revert b. induction a as [|x a IH]; intros [|y b]; simpl; apply _. Defined.
#[export] Instance list_le_dec : RelDecision list_le.
Proof. intros a b. unfold list_le. apply _. Defined.

(** What comparing a row dereferences. *)
Definition comparable (v : ClusterUserV2) : bool :=
  bool_decide (is_Some (s_ClusterAdmin (v_row v))) && bool_decide (is_Some (v_ext v)).

(** Every row is compared when there are two or more. *)
Definition doSort (l : list ClusterUserV2) : outcome (list ClusterUserV2) :=
  if bool_decide (length l <= 1) || forallb comparable l then Done (merge_sort list_le l) else Panic.

(** Whether a row is the user's, is shared with the user or is of the user's
    cluster; the fields that were not filled are behind a nil pointer. *)
Definition relatedToSomebody (userId : Z) (v : ClusterUserV2) : outcome bool :=
  if bool_decide (s_UserId (v_row v) = userId) then Done true
  else
    match v_ext v with
    | None => Panic
    | Some x =>
        Done (bool_decide (userId ∈ CooperUser x) || bool_decide (userId ∈ ViewerUser x) ||
              match cluster_of (s_ClusterId (v_row v)) with Some cl => bool_decide (cl_UserId cl = userId) | None => false end)
    end.

Definition isCanBeUsedAsBaseSpace (v : ClusterUserV2) : outcome bool :=
  match v_ext v with
  | None => Panic
  | Some x => Done (bool_decide (x_SpaceType x <> MeshSpace) && s_IsBaseSpace (v_row v))
  end.

Fixpoint filter_rows (condition : ClusterUserV2 -> outcome bool) (l : list ClusterUserV2) : outcome (list ClusterUserV2) :=
  match l with
  | [] => Done []
  | v :: l => b <~ condition v; r <~ filter_rows condition l; Done (if b : bool then v :: r else r)
  end.

(** [None] is "cluster not found", for a list without rows. *)
Definition DoList (params : Space) (userId : Z) (isAdmin asBase : bool) (t : Tables) : Tables * outcome (option (list ClusterUserV2)) :=
  match ListWithFuzzySpaceName params t with
  | (t, None) => (t, Done None)
  | (t, Some l) =>
      (t, l <~ doSort (fillExtByUser userId isAdmin ((fun cu => mkV2 cu None) <$> l));
          l <~ (if isAdmin then Done l else filter_rows (relatedToSomebody userId) l);
          l <~ (if asBase then filter_rows isCanBeUsedAsBaseSpace l else Done l);
          Done (Some l))
  end.
End listing.

(** ** Calls of a handler

    [ErrOther] is an error that is passed on as it came. *)

Inductive errno :=
  | Svc (x : svc_error)
  | ErrPermissionDenied
  | ErrClusterUserNotFound
  | ErrShareUserSameAsOwner
  | ErrProtectedSpaceReSet
  | ErrBaseSpaceReSet
  | ErrClusterKubeErr
  | ErrDeleteTracingHeaderFailed
  | ErrDeletedClusterButDatabaseFail
  | ErrSpaceNameAlreadyExists
  | ErrMeshClusterUserNotFound
  | ErrUseAsBaseSpace
  | ErrMeshClusterUserNamespaceNotFound
  | ErrInitMeshSpaceFailed
  | ErrAlreadyExist
  | ErrBindApplicationClsuter
  | ErrMeshInfoRequired
  | ErrAsBothBaseSpaceAndMeshSpace
  | ErrValidateMeshInfo
  | ErrFormatResourceLimitParam
  | ErrValidateResourceQuota
  | ErrOther.

(** The table and the clusters by kubeconfig. *)
Record St := mkSt {
  st_tables : Tables;
  st_world : World
}.

Definition hnd (A : Type) : Type := St -> St * res errno A.

Definition h_ret {A : Type} (a : A) : hnd A := fun s => (s, Ok a).
Definition h_fail {A : Type} (e : errno) : hnd A := fun s => (s, Err e).
Definition h_then {A B : Type} (p : hnd A) (f : res errno A -> hnd B) : hnd B := fun s => let '(s, r) := p s in f r s.
Definition h_bind {A B : Type} (p : hnd A) (f : A -> hnd B) : hnd B :=
  h_then p (fun r => match r with Ok a => f a | Err e => h_fail e end).
Notation "x <-$ p ; q" := (h_bind p (fun x => q)) (at level 100, p at next level, right associativity) : go_scope.

(** A call of a service; its errors are passed on. *)
Definition h_svc {A : Type} (p : svc A) : hnd A := fun s =>
  let '(w, r) := p (st_world s) in
  (mkSt (st_tables s) w, match r with Ok a => Ok a | Err e => Err (Svc e) end).

(** A call whose error is only logged or dropped. *)
Definition h_try {A : Type} (p : hnd A) : hnd unit := h_then p (fun _ => h_ret tt).

Definition h_tables {A : Type} (f : Tables -> Tables * A) : hnd A := fun s =>
  let '(t, a) := f (st_tables s) in (mkSt t (st_world s), Ok a).

(** A request to a cluster, its error reported as it is by [err]. *)
Definition h_api {A : Type} (kube : gostring) (p : api A) (err : api_error -> errno) : hnd A := fun s =>
  match st_world s !! kube with
  | None => (s, Err ErrClusterKubeErr)
  | Some srv => let '(srv, r) := p srv in
                (mkSt (st_tables s) (<[kube := srv]> (st_world s)), match r with Ok a => Ok a | Err e => Err (err e) end)
  end.

Definition h_client (kube : gostring) : hnd unit := fun s =>
  match st_world s !! kube with Some _ => (s, Ok tt) | None => (s, Err ErrClusterKubeErr) end.

(** ** Permissions ([common.go]) *)

Section permissions_of_users.
Context `{!MapOrder gostring} `{!Collation} (e : Env).

Definition HasModifyPermissionToSomeDevSpace (userId devSpaceId : Z) : hnd Space :=
  row <-$ h_tables (GetCache devSpaceId);
  match row with
  | None => h_fail ErrClusterUserNotFound
  | Some devSpace =>
      match cluster_of e (s_ClusterId devSpace) with
      | None => h_fail (Svc ErrClusterNotFound)
      | Some cluster =>
          if contains (AllCoopNs e (s_ClusterId devSpace) userId) (s_Namespace devSpace) then h_ret devSpace
          else
            match user_of e userId with
            | None => h_fail ErrOther
            | Some usr =>
                if u_IsAdmin usr || bool_decide (cl_UserId cluster = userId) || bool_decide (s_UserId devSpace = userId)
                then h_ret devSpace else h_fail ErrPermissionDenied
            end
      end
  end.

Definition HasPrivilegeToSomeDevSpace (loginUser : Z) (isAdmin : bool) (devSpaceId : Z) : hnd Space :=
  row <-$ h_tables (GetCache devSpaceId);
  match row with
  | None => h_fail ErrClusterUserNotFound
  | Some devSpace =>
      match cluster_of e (s_ClusterId devSpace) with
      | None => h_fail (Svc ErrClusterNotFound)
      | Some cluster => if isAdmin || bool_decide (cl_UserId cluster = loginUser) then h_ret devSpace else h_fail ErrPermissionDenied
      end
  end.

Definition IsShareUsersOk (cooperators viewers : list Z) (cu : Space) : bool :=
  negb (existsb (fun u => bool_decide (u = s_UserId cu)) (cooperators ++ viewers)).
End permissions_of_users.

(** ** The life of a dev space ([dev_space.go]) *)

(** Deleting a namespace deletes what is in it. *)
Definition DeleteNS (ns : gostring) : api unit := request (fun s =>
  match namespaces s !! ns with
  | None => (s, Err NotFound)
  | Some _ =>
      (mkServer (filter (fun kv => fst (fst kv) <> ns) (roleBindings s)) (clusterRoleBindings s) (serviceAccounts s) (secrets s)
         (delete ns (namespaces s)) (clusterRoles s) (faults s), Ok tt)
  end).

Definition GetNamespace (ns : gostring) : api unit := request (fun s =>
  match namespaces s !! ns with Some _ => (s, Ok tt) | None => (s, Err NotFound) end).

(** Quotas and limits are requests whose results are not looked at. *)
Definition create_quota : api unit := request (fun s => (s, Ok tt)).

Record CreateRequest := mkRequest {
  r_ID : Z;
  r_ClusterId : Z;
  r_UserId : Z;
  r_SpaceName : gostring;
  r_ClusterAdmin : option Z;
  r_NameSpace : gostring;
  r_SpaceResourceLimit : option SpaceResourceLimit;
  r_BaseDevSpaceId : Z;
  r_MeshDevInfo : option MeshDevInfo;
  r_IsBaseSpace : bool;
  r_Protected : bool
}.

(** The answers of the mesh manager of a kubeconfig: whether there is one, and
    whether a call succeeds. *)
Record MeshManager := mkMeshManager {
  mm_Manager : gostring -> bool;
  mm_Init : gostring -> MeshDevInfo -> bool;
  mm_DeleteTracingHeader : gostring -> MeshDevInfo -> bool;
  mm_Update : gostring -> MeshDevInfo -> bool
}.

(** Random strings: suffixes of names, and of a namespace. *)
Record Randoms := mkRandoms {
  rnd_names : nat -> gostring;
  rnd_ns : gostring
}.

Section life.
Context `{!MapOrder gostring} `{!Collation} (e : Env) (now : gostring) (mm : MeshManager) (rnd : Randoms)
  (marshal : SpaceResourceLimit -> gostring).

Definition db : Db := env_db e.

Definition by_id (id : Z) : Space := mkSpace id 0 0 [] 0 [] [] [] None false false 0 no_header.
Definition by_name (name : gostring) : Space := mkSpace 0 0 0 name 0 [] [] [] None false false 0 no_header.
Definition by_namespace (ns : gostring) : Space := mkSpace 0 0 0 [] 0 [] [] ns None false false 0 no_header.
Definition by_base (id : Z) : Space := mkSpace 0 0 0 [] 0 [] [] [] None false false id no_header.

Definition no_namespace (ns : gostring) : bool := bool_decide (ns = go "*") || bool_decide (ns = []).

(** The base space, or nothing to delete the header from. *)
Definition with_namespaces_of (info : MeshDevInfo) (dev base : gostring) : MeshDevInfo :=
  mkInfo base dev (IsUpdateHeader info) (i_Header info) (Apps info) (ReCreate info) (i_install info) (i_delete info)
    (i_rollback_add info) (i_rollback_update info).

Definition with_header (info : MeshDevInfo) (h : Header) : MeshDevInfo :=
  mkInfo (BaseNamespace info) (MeshDevNamespace info) (IsUpdateHeader info) h (Apps info) (ReCreate info) (i_install info)
    (i_delete info) (i_rollback_add info) (i_rollback_update info).

Definition new_info (h : Header) (recreate : bool) : MeshDevInfo := mkInfo [] [] false h [] recreate [] [] ∅ ∅.

Definition deleteTracingHeader (kube : gostring) (r : CreateRequest) : hnd bool :=
  row <-$ h_tables (repo_GetFirst (by_id (r_BaseDevSpaceId r)));
  match row with
  | None => h_ret true
  | Some base =>
      if no_namespace (s_Namespace base) then h_ret true
      else
        let info := with_namespaces_of (default (new_info no_header false) (r_MeshDevInfo r)) (r_NameSpace r) (s_Namespace base) in
        h_ret (mm_Manager mm kube && mm_DeleteTracingHeader mm kube info)
  end.

Definition ds_Delete (kube : gostring) (r : CreateRequest) : hnd unit :=
  _ <-$ h_client kube;
  ok <-$ (if bool_decide (0 < r_BaseDevSpaceId r)%Z then deleteTracingHeader kube r else h_ret true);
  if ok : bool then
    _ <-$ h_try (h_api kube (DeleteNS (r_NameSpace r)) (fun _ => ErrOther));
    done <-$ h_tables (repo_Delete (r_ID r));
    if done : bool then h_ret tt else h_fail ErrDeletedClusterButDatabaseFail
  else h_fail ErrDeleteTracingHeaderFailed.

(** At most three tries with a random suffix.  Any error of the query counts as a
    name that is free. *)
Fixpoint getUnDuplicateName (tries times : nat) (name : gostring) : hnd gostring :=
  let spaceName := if bool_decide (0 < times) then name ++ rnd_names rnd times else name in
  row <-$ h_tables (repo_GetFirst (by_name spaceName));
  match row with
  | None => h_ret spaceName
  | Some _ =>
      match tries with
      | 0 => h_fail ErrSpaceNameAlreadyExists
      | S tries => getUnDuplicateName tries (S times) name
      end
  end.

Definition default_name (cl : ClusterModel) (u : UserModel) : gostring := cl_Name cl ++ go "[" ++ u_Name u ++ go "]".

Definition space_name (cl : ClusterModel) (u : UserModel) (r : CreateRequest) : hnd gostring :=
  if bool_decide (r_SpaceName r = []) then getUnDuplicateName 3 0 (default_name cl u)
  else
    row <-$ h_tables (repo_GetFirst (by_name (r_SpaceName r)));
    match row with
    | Some _ => h_fail ErrSpaceNameAlreadyExists
    | None => h_ret (r_SpaceName r)
    end.

Definition base_space (r : CreateRequest) : hnd Space :=
  if bool_decide (0 < r_BaseDevSpaceId r)%Z then
    row <-$ h_tables (repo_GetFirst (by_id (r_BaseDevSpaceId r)));
    match row with
    | None => h_fail ErrMeshClusterUserNotFound
    | Some base =>
        if bool_decide (0 < s_BaseDevSpaceId base)%Z then h_fail ErrUseAsBaseSpace
        else if no_namespace (s_Namespace base) then h_fail ErrMeshClusterUserNamespaceNotFound
        else h_ret base
    end
  else h_ret empty_space.

Definition with_name (r : CreateRequest) (name : gostring) : CreateRequest :=
  mkRequest (r_ID r) (r_ClusterId r) (r_UserId r) name (r_ClusterAdmin r) (r_NameSpace r) (r_SpaceResourceLimit r)
    (r_BaseDevSpaceId r) (r_MeshDevInfo r) (r_IsBaseSpace r) (r_Protected r).
Definition with_info (r : CreateRequest) (info : option MeshDevInfo) : CreateRequest :=
  mkRequest (r_ID r) (r_ClusterId r) (r_UserId r) (r_SpaceName r) (r_ClusterAdmin r) (r_NameSpace r) (r_SpaceResourceLimit r)
    (r_BaseDevSpaceId r) info (r_IsBaseSpace r) (r_Protected r).
Definition with_ns (r : CreateRequest) (ns : gostring) : CreateRequest :=
  mkRequest (r_ID r) (r_ClusterId r) (r_UserId r) (r_SpaceName r) (r_ClusterAdmin r) ns (r_SpaceResourceLimit r)
    (r_BaseDevSpaceId r) (r_MeshDevInfo r) (r_IsBaseSpace r) (r_Protected r).
Definition with_row (r : CreateRequest) (cu : Space) : CreateRequest :=
  mkRequest (s_ID cu) (r_ClusterId r) (r_UserId r) (s_SpaceName cu) (r_ClusterAdmin r) (s_Namespace cu) (r_SpaceResourceLimit r)
    (r_BaseDevSpaceId r) (r_MeshDevInfo r) (r_IsBaseSpace r) (r_Protected r).

(** Every list with cluster admins of this user and cluster is refused, and an
    error of the list is taken as an empty one. *)
Definition createClusterDevSpace (r : CreateRequest) (cl : ClusterModel) (u : UserModel) : hnd Space :=
  exists_ <-$ h_tables (repo_GetList (mkSpace 0 0 (u_ID u) [] (cl_ID cl) [] [] [] (Some 1%Z) false false 0 no_header));
  match exists_ with
  | Some _ => h_fail ErrAlreadyExist
  | None =>
      row <-$ h_tables (repo_Create (mkSpace 0 0 (u_ID u) (r_SpaceName r) (cl_ID cl) [] [] (go "*") (Some 1%Z) false false 0 no_header));
      match row with
      | None => h_fail ErrBindApplicationClsuter
      | Some row => _ <-$ h_svc (AuthorizeClusterToUser now db (cl_ID cl) (u_ID u)); h_ret row
      end
  end.

Definition injection_labels (kind : gostring) : gmap gostring gostring :=
  {[go "istio-injection" := go "enabled"; go "nocalhost.dev/devspace" := kind]}.

(** The header of a known kind of tracing carries the namespace. *)
Definition trace_header (ns : gostring) (h : Header) : Header :=
  if bool_decide (TraceType h = go "jaeger") then mkHeader (go "uberctx-trace") ns (TraceType h)
  else if bool_decide (TraceType h = go "zipkin") then mkHeader (go "baggage-trace") ns (TraceType h)
  else h.

Definition generated_ns (u : UserModel) : gostring := go "nh" ++ Itoa (u_ID u) ++ rnd_ns rnd.

(** Whether the namespace is given: then it is not created, whether or not it
    exists. *)
Definition createDevSpace (r : CreateRequest) (cl : ClusterModel) (u : UserModel) : hnd (CreateRequest * Space) :=
  let kube := cl_KubeConfig cl in
  _ <-$ h_client kube;
  _ <-$ (if bool_decide (r_NameSpace r <> []) then
           h_then (h_api kube (GetNamespace (r_NameSpace r)) (fun e => if IsNotFound e then ErrClusterUserNotFound else ErrOther))
             (fun x => match x with Err ErrOther => h_fail ErrOther | _ => h_ret tt end)
         else h_ret tt);
  let needCreate := bool_decide (r_NameSpace r = []) in
  let ns := if needCreate then generated_ns u else r_NameSpace r in
  let mesh := bool_decide (0 < r_BaseDevSpaceId r)%Z in
  match (if mesh then r_MeshDevInfo r else Some (new_info no_header false)) with
  | None => h_fail ErrMeshInfoRequired
  | Some info =>
      let ns := if mesh && nonempty (MeshDevNamespace info) && negb (ReCreate info) then MeshDevNamespace info else ns in
      let r := if mesh then with_info r (Some (with_header info (trace_header ns (i_Header info)))) else r in
      let labels : gmap gostring gostring := if r_IsBaseSpace r then injection_labels (go "base")
                    else if mesh then injection_labels (go "share") else ∅ in
      _ <-$ (if needCreate then h_api kube (CreateNS ns labels) (fun _ => Svc ErrNameSpaceCreate) else h_ret tt);
      let limit := default no_limit (r_SpaceResourceLimit r) in
      _ <-$ h_try (h_api kube create_quota (fun _ => ErrOther));
      _ <-$ h_try (h_api kube create_quota (fun _ => ErrOther));
      any <-$ h_tables (repo_GetFirst (by_namespace ns));
      row <-$ (match any with
               | Some row => h_ret (Some row)
               | None => h_tables (repo_Create (mkSpace 0 0 (u_ID u) (r_SpaceName r) (r_ClusterId r) [] (marshal limit) ns None
                           (r_Protected r) (r_IsBaseSpace r) 0 no_header))
               end);
      match row with
      | None => h_fail ErrBindApplicationClsuter
      | Some row =>
          _ <-$ h_svc (AuthorizeNsToUser now db (cl_ID cl) (u_ID u) (s_Namespace row));
          _ <-$ h_svc (AuthorizeNsToDefaultSa now db (cl_ID cl) (u_ID u) (s_Namespace row));
          h_ret (r, row)
      end
  end.

Definition with_mesh (cu : Space) (h : Header) (base : Z) : Space :=
  mkSpace (s_ID cu) (s_ApplicationId cu) (s_UserId cu) (s_SpaceName cu) (s_ClusterId cu) (s_KubeConfig cu) (s_SpaceResourceLimit cu)
    (s_Namespace cu) (s_ClusterAdmin cu) (s_Protected cu) (s_IsBaseSpace cu) base h.

(** [None] when the mesh space could not be set up; the row is the one that is
    there then. *)
Definition initMeshDevSpace (r : CreateRequest) (cl : ClusterModel) (cu base : Space) : hnd (Space * bool) :=
  let kube := cl_KubeConfig cl in
  let info := with_namespaces_of (default (new_info no_header false) (r_MeshDevInfo r)) (s_Namespace cu) (s_Namespace base) in
  if mm_Manager mm kube && mm_Init mm kube info then
    let cu := with_mesh cu (i_Header info) (r_BaseDevSpaceId r) in
    ok <-$ h_tables (repo_Update cu);
    h_ret (cu, ok)
  else h_ret (cu, false).

Definition ds_Create (r : CreateRequest) : hnd Space :=
  match user_of e (r_UserId r) with
  | None => h_fail (Svc ErrUserNotFound)
  | Some u =>
      match cluster_of e (r_ClusterId r) with
      | None => h_fail (Svc ErrClusterNotFound)
      | Some cl =>
          name <-$ space_name cl u r;
          let r := with_name r name in
          base <-$ base_space r;
          rc <-$ (if bool_decide (default 0%Z (r_ClusterAdmin r) = 0%Z) then createDevSpace r cl u
                  else row <-$ createClusterDevSpace r cl u; h_ret (r, row));
          let r := fst rc in
          if bool_decide (0 < r_BaseDevSpaceId r)%Z then
            cb <-$ initMeshDevSpace r cl (snd rc) base;
            if snd cb : bool then h_ret (fst cb)
            else _ <-$ h_try (ds_Delete (cl_KubeConfig cl) (with_row r (fst cb))); h_fail ErrInitMeshSpaceFailed
          else h_ret (snd rc)
      end
  end.
End life.

(** ** The handlers ([create.go], [delete.go], [update.go], [v2_update.go])

    A handler answers with success ([None]) or an error, or panics. *)

Definition answer_of (r : St * res errno Space) : St * outcome (option errno) :=
  (fst r, Done (match snd r with Ok _ => None | Err e => Some e end)).

Section handlers.
Context `{!MapOrder gostring} `{!Collation} (e : Env) (now : gostring) (mm : MeshManager) (rnd : Randoms)
  (marshal : SpaceResourceLimit -> gostring) (istio : gostring -> bool).

Abbreviation handler := (St -> St * outcome (option errno)).

Definition answered (x : option errno) : handler := fun s => (s, Done x).

(** Calls one after the other, their errors logged. *)
Fixpoint try_each (f : Z -> svc unit) (users : list Z) : hnd unit :=
  match users with
  | [] => h_ret tt
  | u :: users => _ <-$ h_try (h_svc (f u)); try_each f users
  end.

Definition share_with (cu : Space) (cooperators viewers : list Z) : hnd unit :=
  if IsClusterAdmin cu then
    _ <-$ try_each (AsClusterCooperator now (db e) (s_ClusterId cu) (s_UserId cu)) cooperators;
    try_each (AsClusterViewer now (db e) (s_ClusterId cu) (s_UserId cu)) viewers
  else
    _ <-$ try_each (fun u => AsCooperator now (db e) (s_ClusterId cu) u (s_Namespace cu)) cooperators;
    try_each (fun u => AsViewer now (db e) (s_ClusterId cu) u (s_Namespace cu)) viewers.

Definition Share (loginUser id : Z) (cooperators viewers : list Z) : handler := fun s =>
  match HasModifyPermissionToSomeDevSpace e loginUser id s with
  | (s, Err x) => answered (Some x) s
  | (s, Ok cu) =>
      if IsShareUsersOk cooperators viewers cu then (fst (share_with cu cooperators viewers s), Done None)
      else answered (Some ErrShareUserSameAsOwner) s
  end.

Definition unshare_with (cu : Space) (users : list Z) : hnd unit :=
  if IsClusterAdmin cu then
    try_each (fun u w =>
      RemoveFromClusterViewer now (db e) (s_ClusterId cu) (s_UserId cu) u
        (fst (RemoveFromClusterCooperator now (db e) (s_ClusterId cu) (s_UserId cu) u w))) users
  else
    try_each (fun u w =>
      RemoveFromCooperator now (db e) (s_ClusterId cu) u (s_Namespace cu)
        (fst (RemoveFromViewer now (db e) (s_ClusterId cu) u (s_Namespace cu) w))) users.

Definition UnShare (loginUser id : Z) (users : list Z) : handler := fun s =>
  match HasModifyPermissionToSomeDevSpace e loginUser id s with
  | (s, Err x) => answered (Some x) s
  | (s, Ok cu) => (fst (unshare_with cu users s), Done None)
  end.

Definition delete_request (cu : Space) : CreateRequest :=
  mkRequest (s_ID cu) 0 0 [] None (s_Namespace cu) None (s_BaseDevSpaceId cu) (Some (new_info (s_TraceHeader cu) false))
    (s_IsBaseSpace cu) false.

Definition share_request (cu : Space) : CreateRequest :=
  mkRequest (s_ID cu) 0 0 [] None (s_Namespace cu) None (s_BaseDevSpaceId cu) (Some (new_info (s_TraceHeader cu) false)) false false.

(** The mesh spaces of a base space; errors are dropped. *)
Fixpoint delete_spaces (l : list Space) : hnd unit :=
  match l with
  | [] => h_ret tt
  | cu :: l =>
      _ <-$ (match cluster_of e (s_ClusterId cu) with
             | None => h_ret tt
             | Some cl => h_try (ds_Delete mm (cl_KubeConfig cl) (share_request cu))
             end);
      delete_spaces l
  end.

Definition deleteShareSpaces (baseSpaceId : Z) : hnd unit :=
  l <-$ h_tables (repo_GetList (by_base baseSpaceId));
  match l with
  | None => h_ret tt
  | Some l => delete_spaces l
  end.

(** The dev space of a cluster: nobody shares it any more, and its owner is no
    cluster admin.  [devSpaceId] is the id that was asked for, which is 0 when the
    text of the request is no number. *)
Definition delete_cluster_space (devSpaceId : Z) (cu : Space) : hnd unit :=
  let c := match cluster_of e (s_ClusterId cu) with Some cl => e_cluster e (cl_KubeConfig cl) | None => ∅ end in
  _ <-$ h_svc (RemoveAllFromViewer now (db e) (s_ClusterId cu) (s_UserId cu) (toArray (ClusterViewSas (db e) c (s_UserId cu))));
  _ <-$ h_svc (RemoveAllFromCooperator now (db e) (s_ClusterId cu) (s_UserId cu) (toArray (ClusterCoopSas (db e) c (s_UserId cu))));
  _ <-$ h_svc (UnAuthorizeClusterToUser now (db e) (s_ClusterId cu) (s_UserId cu));
  done <-$ h_tables (repo_Delete devSpaceId);
  if done : bool then h_ret tt else h_fail ErrDeletedClusterButDatabaseFail.

Definition delete_space (devSpaceId : Z) (cu : Space) : hnd unit :=
  if IsClusterAdmin cu then delete_cluster_space devSpaceId cu
  else
    match cluster_of e (s_ClusterId cu) with
    | None => h_fail (Svc ErrClusterNotFound)
    | Some cl =>
        _ <-$ ds_Delete mm (cl_KubeConfig cl) (delete_request cu);
        if s_IsBaseSpace cu then deleteShareSpaces devSpaceId else h_ret tt
    end.

Definition Delete_handler (loginUser : Z) (isAdmin : bool) (id : Z) : handler := fun s =>
  match HasPrivilegeToSomeDevSpace e loginUser isAdmin id s with
  | (s, Err x) => answered (Some x) s
  | (s, Ok cu) =>
      if s_Protected cu then answered (Some ErrProtectedSpaceReSet) s
      else let '(s, r) := delete_space id cu s in (s, Done (match r with Ok _ => None | Err x => Some x end))
  end.

Definition recreate_request (cu : Space) : CreateRequest :=
  mkRequest (s_ID cu) (s_ClusterId cu) (s_UserId cu) (s_SpaceName cu) None (s_Namespace cu)
    (Some (e_limit e (s_SpaceResourceLimit cu))) (s_BaseDevSpaceId cu) (Some (new_info (s_TraceHeader cu) true))
    (s_IsBaseSpace cu) false.

(** The new space, with the users the old one was shared with. *)
Definition recreated (v : ClusterUserV2) (r : CreateRequest) : hnd Space :=
  row <-$ ds_Create e now mm rnd marshal (with_ns r []);
  _ <-$ h_svc (AuthorizeNsToUser now (db e) (s_ClusterId row) (s_UserId row) (s_Namespace row));
  _ <-$ h_svc (AuthorizeNsToDefaultSa now (db e) (s_ClusterId row) (s_UserId row) (s_Namespace row));
  _ <-$ try_each (fun u => AsViewer now (db e) (s_ClusterId row) u (s_Namespace row)) (default [] (ViewerUser <$> v_ext v));
  _ <-$ try_each (fun u => AsCooperator now (db e) (s_ClusterId row) u (s_Namespace row)) (default [] (CooperUser <$> v_ext v));
  h_ret row.

(** A failing list and a failing deletion are reported as success. *)
Definition ReCreate_handler (user : Z) (isAdmin : bool) (id : Z) : handler := fun s =>
  match HasModifyPermissionToSomeDevSpace e user id s with
  | (s, Err x) => answered (Some x) s
  | (s, Ok cu) =>
      if s_Protected cu then answered (Some ErrProtectedSpaceReSet) s
      else if s_IsBaseSpace cu then answered (Some ErrBaseSpaceReSet) s
      else
        match cluster_of e (s_ClusterId cu) with
        | None => answered (Some (Svc ErrClusterNotFound)) s
        | Some cl =>
            let '(t, listed) := DoList e (by_id id) user isAdmin false (st_tables s) in
            let s := mkSt t (st_world s) in
            match listed with
            | Panic => (s, Panic)
            | Fuel => (s, Fuel)
            | Done None => answered None s
            | Done (Some [v]) =>
                if IsClusterAdmin (v_row v) then answered None s
                else
                  let '(s, r) := ds_Delete mm (cl_KubeConfig cl) (recreate_request cu) s in
                  match r with
                  | Err _ => answered None s
                  | Ok _ => answer_of (recreated v (recreate_request cu) s)
                  end
            | Done (Some _) => answered (Some ErrClusterUserNotFound) s
            end
        end
  end.

(** *** Creation *)

Definition request_Validate (r : CreateRequest) : option errno :=
  match r_SpaceResourceLimit r with
  | Some l =>
      if bool_decide (ValidSpaceResourceLimit l <> []) then Some ErrFormatResourceLimitParam
      else if negb (limit_Validate l) then Some ErrValidateResourceQuota
      else None
  | None => None
  end.

Definition mesh_Validate (r : CreateRequest) : option errno :=
  if bool_decide (0 < r_BaseDevSpaceId r)%Z then
    if r_IsBaseSpace r then Some ErrAsBothBaseSpaceAndMeshSpace
    else match r_MeshDevInfo r with
         | None => Some ErrMeshInfoRequired
         | Some info => if Validate info then None else Some ErrValidateMeshInfo
         end
  else None.

(** A base space needs istio in its cluster. *)
Definition istio_Validate (r : CreateRequest) : option errno :=
  if r_IsBaseSpace r then
    match cluster_of e (r_ClusterId r) with
    | None => Some (Svc ErrClusterNotFound)
    | Some cl => if istio (cl_KubeConfig cl) then None else Some ErrOther
    end
  else None.

Definition Create_handler (r : CreateRequest) : handler := fun s =>
  match request_Validate r, mesh_Validate r, istio_Validate r with
  | Some x, _, _ | None, Some x, _ | None, None, Some x => answered (Some x) s
  | None, None, None => answer_of (ds_Create e now mm rnd marshal r s)
  end.

(** *** Updates *)

(** Nothing asks who the user is; a failure is reported as success. *)
Definition Update_handler (id : Z) (kubeConfig spaceName : gostring) : handler := fun s =>
  let '(t, _) := repo_Update (mkSpace id 0 0 spaceName 0 kubeConfig [] [] None false false 0 no_header) (st_tables s) in
  (mkSt t (st_world s), Done None).

Definition with_limit (cu : Space) (l : gostring) : Space :=
  mkSpace (s_ID cu) (s_ApplicationId cu) (s_UserId cu) (s_SpaceName cu) (s_ClusterId cu) (s_KubeConfig cu) l (s_Namespace cu)
    (s_ClusterAdmin cu) (s_Protected cu) (s_IsBaseSpace cu) (s_BaseDevSpaceId cu) (s_TraceHeader cu).

Definition UpdateResourceLimit (loginUser : Z) (isAdmin : bool) (id : Z) (l : SpaceResourceLimit) : handler := fun s =>
  match HasPrivilegeToSomeDevSpace e loginUser isAdmin id s with
  | (s, Err x) => answered (Some x) s
  | (s, Ok _) =>
      if bool_decide (ValidSpaceResourceLimit l <> []) then answered (Some ErrFormatResourceLimitParam) s
      else
        let '(t, row) := repo_GetFirst (by_id id) (st_tables s) in
        let s := mkSt t (st_world s) in
        match row with
        | None => answered (Some ErrClusterUserNotFound) s
        | Some cu =>
            match cluster_of e (s_ClusterId cu) with
            | None => answered (Some ErrOther) s
            | Some cl =>
                match st_world s !! cl_KubeConfig cl with
                | None => answered (Some ErrClusterKubeErr) s
                | Some _ =>
                    if negb (limit_Validate l) then answered (Some ErrValidateResourceQuota) s
                    else let '(t, _) := repo_Update (with_limit cu (marshal l)) (st_tables s) in (mkSt t (st_world s), Done None)
                end
            end
        end
  end.

(** The header is compared with that of the base space, not of the dev space. *)
Definition UpdateMeshDevSpaceInfo (id : Z) (req : MeshDevInfo) : handler := fun s =>
  let '(t, row) := repo_GetFirst (by_id id) (st_tables s) in
  let s := mkSt t (st_world s) in
  match row with
  | None => answered (Some ErrClusterUserNotFound) s
  | Some cu =>
      if bool_decide (s_BaseDevSpaceId cu = 0%Z) then answered (Some ErrUseAsBaseSpace) s
      else
        let '(t, base) := repo_GetFirst (by_id (s_BaseDevSpaceId cu)) (st_tables s) in
        let s := mkSt t (st_world s) in
        match base with
        | None => answered (Some ErrMeshClusterUserNotFound) s
        | Some base =>
            match cluster_of e (s_ClusterId cu) with
            | None => answered (Some ErrOther) s
            | Some cl =>
                let h := i_Header req in
                let changed := bool_decide (TraceKey (s_TraceHeader base) <> TraceKey h) ||
                               bool_decide (TraceValue (s_TraceHeader base) <> TraceValue h) in
                let info := mkInfo (s_Namespace base) (s_Namespace cu) changed h (Apps req) (ReCreate req) (i_install req)
                              (i_delete req) (i_rollback_add req) (i_rollback_update req) in
                if mm_Manager mm (cl_KubeConfig cl) && mm_Update mm (cl_KubeConfig cl) info then
                  let '(t, ok) := repo_Update (with_mesh cu h (s_BaseDevSpaceId cu)) (st_tables s) in
                  (mkSt t (st_world s), Done (if ok : bool then None else Some ErrInitMeshSpaceFailed))
                else answered (Some ErrInitMeshSpaceFailed) s
            end
        end
  end.
End handlers.

(** ** The list of paths open to all users ([middleware/permission.go])

    A pattern is searched for anywhere in the request's URI, its query
    included. *)
Inductive piece :=
  | Lit (s : gostring)
  | Digits.

Fixpoint digits_prefix (x : gostring) : nat := match x with c :: x => if digit c then S (digits_prefix x) else 0 | [] => 0 end.

(** Whether the pieces match at the beginning; digits are taken greedily, then
    fewer. *)
Fixpoint pieces_match (p : list piece) (x : gostring) : bool :=
  match p with
  | [] => true
  | Lit s :: p => HasPrefix x s && pieces_match p (drop (length s) x)
  | Digits :: p => existsb (fun n => pieces_match p (drop n x)) (seq 1 (digits_prefix x))
  end.

Definition MatchString (p : list piece) (x : gostring) : bool :=
  existsb (fun n => pieces_match p (drop n x)) (seq 0 (S (length x))).

Definition lit (s : string) : piece := Lit (go s).

Definition permissions : list (list piece * gostring) :=
  [([lit "/v1/users"], go "GET");
   ([lit "/v1/users/"; Digits], go "PUT");
   ([lit "/v1/users/"; Digits; lit "/dev_space_list"], go "GET");
   ([lit "/v1/users/"; Digits; lit "/applications"], go "GET");
   ([lit "/v1/users/"; Digits; lit "/dev_spaces"], go "GET");
   ([lit "/v1/dev_space/"; Digits; lit "/detail"], go "GET");
   ([lit "/v1/dev_space/"; Digits; lit "/recreate"], go "POST");
   ([lit "/v1/application/"; Digits], go "GET,PUT,DELETE");
   ([lit "/v1/nocalhost/templates"], go "GET");
   ([lit "/v1/nocalhost/version/upgrade_info"], go "GET");
   ([lit "/v1/dev_space"], go "GET,POST");
   ([lit "/v1/application"], go "GET,POST");
   ([lit "/v1/cluster"], go "POST,GET");
   ([lit "/v1/cluster/"; Digits], go "PUT,DELETE");
   ([lit "/v1/cluster/"; Digits; lit "/storage_class"], go "PUT,DELETE");
   ([lit "/v1/cluster/"; Digits; lit "/gen_namespace"], go "GET");
   ([lit "/v1/cluster/"; Digits; lit "/migrate"], go "POST");
   ([lit "/v1/dev_space/"; Digits; lit "/update_resource_limit"], go "PUT");
   ([lit "/v1/dev_space/"; Digits], go "PUT,DELETE");
   ([lit "/v2/dev_space"], go "GET");
   ([lit "/v2/dev_space/cluster"], go "GET");
   ([lit "/v2/dev_space/share"], go "POST");
   ([lit "/v2/dev_space/unshare"], go "POST")].

Definition whiteList (method path : gostring) : bool :=
  existsb (fun pm => MatchString (fst pm) path && Contains (snd pm) method) permissions.

Definition PermissionMiddleware (isAdmin : bool) (method path : gostring) : bool := isAdmin || whiteList method path.
