(* ===== verification/DevSpacesThms.v ===== *)
(** * Dev spaces: theorems

    What is listed and in which order, who can change a dev space, that the table
    stays consistent, and that a mesh space that cannot be set up leaves nothing. *)

From stdpp Require Import sorting.
From S2P Require Import Prelude GoStrings FilePath DevDir WatchController Mesh Rbac DevSpaces.
#[local] Open Scope go_scope.

(** ** The order of the list *)

Lemma lex_lt_trans a b c : lex_lt a b -> lex_lt b c -> lex_lt a c.
Proof.
  revert b c. induction a as [|x a IH]; intros [|y b] [|z c]; cbn; try done.
  intros [?|[-> ?]] [?|[-> ?]]; [left; lia|left; lia|left; lia|right]. eauto.
Qed.

Lemma lex_lt_total a b : length a = length b -> lex_lt a b \/ a = b \/ lex_lt b a.
Proof.
  revert b. induction a as [|x a IH]; intros [|y b]; cbn; try done; [auto|]. intros [= Hl].
  destruct (Z.lt_total x y) as [?|[->|?]]; [auto| |auto]. destruct (IH b Hl) as [?|[->|?]]; auto.
Qed.

#[export] Instance list_le_trans : Transitive list_le.
Proof.
  intros a b c. unfold list_le. intros [H1|[E1 H1]] [H2|[E2 H2]].
  - left. by eapply lex_lt_trans.
  - left. by rewrite <- E2.
  - left. by rewrite E1.
  - right. split; [congruence|]. by etransitivity.
Qed.

#[export] Instance list_le_total : Total list_le.
Proof.
  intros a b. unfold list_le. destruct (lex_lt_total (list_key a) (list_key b)) as [?|[E|?]]; [done|auto| |auto].
  destruct (total str_le (s_SpaceName (v_row a)) (s_SpaceName (v_row b))); auto.
Qed.

(** ** Listing *)

(** A query reads the rows, whether it fails or not. *)
Lemma reading_rows {A : Type} (f : list Space -> option A) t :
  rows (fst (reading f t)) = rows t /\ next_id (fst (reading f t)) = next_id t.
Proof. unfold reading. by destruct (read_faults t). Qed.

Lemma reading_Some {A : Type} (f : list Space -> option A) t x : snd (reading f t) = Some x -> f (rows t) = Some x.
Proof. unfold reading. destruct (read_faults t) as [|[]]; done. Qed.

Section listing.
Context `{!MapOrder gostring} `{!Collation} (e : Env).


Lemma find_unique {A : Type} (f : A -> Z) (l : list A) x :
  NoDup (f <$> l) -> x ∈ l -> List.find (fun y => bool_decide (f y = f x)) l = Some x.
Proof.
  induction l as [|y l IH]; intros Hn Hx; [by apply elem_of_nil in Hx|]. cbn in Hn. apply NoDup_cons in Hn as [Hy Hn].
  cbn. apply elem_of_cons in Hx as [->|Hx]; [by rewrite bool_decide_eq_true_2|].
  rewrite bool_decide_eq_false_2; [by apply IH|]. intros E. apply Hy. rewrite E. by apply list_elem_of_fmap_2.
Qed.

Lemma cluster_of_Some id cl : cluster_of e id = Some cl -> cl ∈ e_clusters e /\ cl_ID cl = id.
Proof.
  unfold cluster_of. intros [Hin E]%List.find_some. apply bool_decide_eq_true in E. split; [by apply list_elem_of_In|done].
Qed.












End listing.

Section orphan.
Context `{!MapOrder gostring} `{!Collation} (e : Env).

Lemma fill_rows_orphan userId isAdmin v cls :
  (forall cl, cl ∈ cls -> cl_ID cl <> s_ClusterId (v_row v)) ->
  foldl (fun v cl => if bool_decide (s_ClusterId (v_row v) = cl_ID cl)
                     then mkV2 (v_row v) (Some (fill e cl userId isAdmin (v_row v))) else v) v cls = v.
Proof.
  induction cls as [|cl cls IH]; intros Hcls; [done|]. cbn. rewrite bool_decide_eq_false_2.
  - apply IH. intros cl' Hc. apply Hcls. by right.
  - intros E. apply (Hcls cl); [by left|done].
Qed.

(** One dev space whose cluster is gone makes every listing that it is part of,
    with another one, panic - whoever asks. *)
Theorem orphan_listing_panics params userId isAdmin asBase t l cu :
  snd (ListWithFuzzySpaceName params t) = Some l -> cu ∈ l -> 2 <= length l ->
  (forall cl, cl ∈ e_clusters e -> cl_ID cl <> s_ClusterId cu) ->
  snd (DoList e params userId isAdmin asBase t) = Panic.
Proof.
  intros E Hcu Hlen Hcl. unfold DoList. destruct (ListWithFuzzySpaceName params t) as [t' r]. cbn in E. subst r. cbn [snd].
  assert (fillExtByUser e userId isAdmin ((fun cu => mkV2 cu None) <$> l) =
    (fun v => foldl (fun v cl => if bool_decide (s_ClusterId (v_row v) = cl_ID cl)
      then mkV2 (v_row v) (Some (fill e cl userId isAdmin (v_row v))) else v) v (e_clusters e)) <$> ((fun cu => mkV2 cu None) <$> l)) as ->.
  { unfold fillExtByUser. generalize ((fun cu => mkV2 cu None) <$> l) as l'. generalize (e_clusters e) as cls. intros cls.
    induction cls as [|cl cls IH]; intros l'; cbn; [symmetry; apply list_fmap_id|]. by rewrite IH, <- list_fmap_compose. }
  unfold doSort. rewrite !length_fmap, bool_decide_eq_false_2 by lia. cbn [orb].
  destruct (forallb comparable _) eqn:Ef; [|done]. exfalso. rewrite forallb_forall in Ef.
  specialize (Ef (mkV2 cu None)). unfold comparable in Ef. cbn in Ef. rewrite andb_false_r in Ef.
  discriminate Ef. apply list_elem_of_In, list_elem_of_fmap. exists (mkV2 cu None). split.
  - symmetry. apply fill_rows_orphan. exact Hcl.
  - apply list_elem_of_fmap. by exists cu.
Qed.
End orphan.

(** ** Who can change what *)

Inductive space_op :=
  | DoShare (id : Z) (cooperators viewers : list Z)
  | DoUnShare (id : Z) (users : list Z)
  | DoReCreate (id : Z)
  | DoDelete (id : Z)
  | DoLimit (id : Z) (l : SpaceResourceLimit).

Definition op_id (op : space_op) : Z :=
  match op with DoShare id _ _ | DoUnShare id _ | DoReCreate id | DoDelete id | DoLimit id _ => id end.

Section changes.
Context `{!MapOrder gostring} `{!Collation} (e : Env) (now : gostring) (mm : MeshManager) (rnd : Randoms)
  (marshal : SpaceResourceLimit -> gostring).

(** A call of a user who is logged in; the session says whether as an
    administrator, as the table of users does. *)
Definition run_op (u : UserModel) (op : space_op) : St -> St * outcome (option errno) :=
  match op with
  | DoShare id cs vs => Share e now (u_ID u) id cs vs
  | DoUnShare id us => UnShare e now (u_ID u) id us
  | DoReCreate id => ReCreate_handler e now mm rnd marshal (u_ID u) (u_IsAdmin u) id
  | DoDelete id => Delete_handler e now mm (u_ID u) (u_IsAdmin u) id
  | DoLimit id l => UpdateResourceLimit e marshal (u_ID u) (u_IsAdmin u) id l
  end.

(** Sharing and resetting is also for the owner and the cooperators. *)
Definition may (u : UserModel) (op : space_op) (cu : Space) (cl : ClusterModel) : Prop :=
  u_IsAdmin u = true \/ cl_UserId cl = u_ID u \/
  match op with
  | DoShare _ _ _ | DoUnShare _ _ | DoReCreate _ =>
      s_UserId cu = u_ID u \/ u_SaName u ∈ CoopSas (e_ns e (cl_KubeConfig cl)) (s_Namespace cu)
  | _ => False
  end.

(** A query by an id that is not 0 finds the row of that id. *)
Lemma GetCache_id id t cu : id <> 0%Z -> snd (GetCache id t) = Some cu -> cu ∈ rows t /\ s_ID cu = id.
Proof using Type.
  intros Hid [Hin Hm]%reading_Some%List.find_some. split; [by apply list_elem_of_In|]. unfold matches in Hm. cbn in Hm.
  rewrite !andb_true_iff in Hm. do 12 destruct Hm as [Hm _].
  unfold field_matches in Hm. rewrite orb_true_iff, !bool_decide_eq_true in Hm. by destruct Hm as [|].
Qed.

(** Asking for the permission changes no row and no cluster. *)
Definition same_data (s s' : St) : Prop := rows (st_tables s') = rows (st_tables s) /\ st_world s' = st_world s.

Lemma tables_reads {A : Type} (f : list Space -> option A) s : exists t,
  h_tables (reading f) s = (mkSt t (st_world s), Ok (snd (reading f (st_tables s)))) /\ rows t = rows (st_tables s).
Proof using Type.
  destruct (reading_rows f (st_tables s)) as [Hr _]. unfold h_tables. destruct (reading f (st_tables s)) as [t x]. by exists t.
Qed.

Lemma modify_permission u id s s' r :
  user_of e (u_ID u) = Some u -> id <> 0%Z -> HasModifyPermissionToSomeDevSpace e (u_ID u) id s = (s', r) ->
  same_data s s' /\ forall cu, r = Ok cu -> cu ∈ rows (st_tables s) /\ s_ID cu = id /\
    exists cl, cluster_of e (s_ClusterId cu) = Some cl /\
    (u_IsAdmin u = true \/ cl_UserId cl = u_ID u \/ s_UserId cu = u_ID u \/
     u_SaName u ∈ CoopSas (e_ns e (cl_KubeConfig cl)) (s_Namespace cu)).
Proof using Type.
  intros Hu Hid. unfold HasModifyPermissionToSomeDevSpace, h_bind, h_then.
  destruct (tables_reads (List.find (matches (by_id id))) s) as (t & Et & Hrows).
  change (h_tables (GetCache id) s) with (h_tables (reading (List.find (matches (by_id id)))) s). rewrite Et.
  assert (same_data s (mkSt t (st_world s))) as Hsame by done.
  destruct (snd (reading _ (st_tables s))) as [cu'|] eqn:Eg; [|by intros [= <- <-]].
  apply (GetCache_id id) in Eg as [Hin Heq]; [|done].
  destruct (cluster_of e (s_ClusterId cu')) as [cl|] eqn:Ec; [|by intros [= <- <-]].
  unfold contains, AllCoopNs, all_ns. rewrite Ec, Hu. case_bool_decide as Hc.
  - intros [= <- <-]. split; [done|]. intros cu [= <-]. split; [done|]. split; [done|]. exists cl. split; [done|]. right. right. right.
    unfold GetAllCoopNs, exists_in in Hc. rewrite merge_sort_Permutation, list_elem_of_filter in Hc. apply Hc.
  - destruct (_ || _ || _) eqn:Eo; intros [= <- <-]; (split; [done|]); [|done]. intros cu [= <-]. split; [done|]. split; [done|].
    exists cl. split; [done|]. rewrite !orb_true_iff, !bool_decide_eq_true in Eo. tauto.
Qed.

Lemma privilege_permission u id s s' r :
  id <> 0%Z -> HasPrivilegeToSomeDevSpace e (u_ID u) (u_IsAdmin u) id s = (s', r) ->
  same_data s s' /\ forall cu, r = Ok cu -> cu ∈ rows (st_tables s) /\ s_ID cu = id /\
    exists cl, cluster_of e (s_ClusterId cu) = Some cl /\ (u_IsAdmin u = true \/ cl_UserId cl = u_ID u).
Proof using Type.
  intros Hid. unfold HasPrivilegeToSomeDevSpace, h_bind, h_then.
  destruct (tables_reads (List.find (matches (by_id id))) s) as (t & Et & Hrows).
  change (h_tables (GetCache id) s) with (h_tables (reading (List.find (matches (by_id id)))) s). rewrite Et.
  assert (same_data s (mkSt t (st_world s))) as Hsame by done.
  destruct (snd (reading _ (st_tables s))) as [cu'|] eqn:Eg; [|by intros [= <- <-]].
  apply (GetCache_id id) in Eg as [Hin Heq]; [|done].
  destruct (cluster_of e (s_ClusterId cu')) as [cl|] eqn:Ec; [|by intros [= <- <-]].
  destruct (_ || _) eqn:Eo; intros [= <- <-]; (split; [done|]); [|done]. intros cu [= <-]. split; [done|]. split; [done|].
  exists cl. split; [done|]. rewrite !orb_true_iff, !bool_decide_eq_true in Eo. tauto.
Qed.

(** *** Which rows a call leaves alone *)

(** A call keeps the rows with [K], and what is asked of the ids. *)
Definition spares {A : Type} (K : Space -> Prop) (p : hnd A) : Prop :=
  forall s row, K row -> row ∈ rows (st_tables s) -> row ∈ rows (st_tables (fst (p s))).

Lemma spares_bind {A B : Type} K (p : hnd A) (f : A -> hnd B) :
  spares K p -> (forall a, spares K (f a)) -> spares K (h_bind p f).
Proof using Type.
  intros Hp Hf s row HK Hr. unfold h_bind, h_then. specialize (Hp s row HK Hr). destruct (p s) as [s' [a|x]]; [by apply Hf|done].
Qed.

Lemma spares_ret {A : Type} K (a : A) : spares K (h_ret a).
Proof using Type. by intros s row _ Hr. Qed.

Lemma spares_fail {A : Type} K x : spares K (h_fail (A := A) x).
Proof using Type. by intros s row _ Hr. Qed.

Lemma spares_try {A : Type} K (p : hnd A) : spares K p -> spares K (h_try p).
Proof using Type. intros Hp s row HK Hr. unfold h_try, h_then. specialize (Hp s row HK Hr). by destruct (p s). Qed.

Lemma spares_svc {A : Type} K (p : svc A) : spares K (h_svc p).
Proof using Type. intros s row _ Hr. unfold h_svc. by destruct (p (st_world s)). Qed.

Lemma spares_api {A : Type} K kube (p : api A) err : spares K (h_api kube p err).
Proof using Type. intros s row _ Hr. unfold h_api. destruct (st_world s !! kube) as [srv|]; [|done]. by destruct (p srv). Qed.

Lemma spares_client K kube : spares K (h_client kube).
Proof using Type. intros s row _ Hr. unfold h_client. by destruct (st_world s !! kube). Qed.

Lemma spares_read {A : Type} K (f : list Space -> option A) : spares K (h_tables (reading f)).
Proof using Type. intros s row _ Hr. destruct (tables_reads f s) as (t & -> & Et). cbn. by rewrite Et. Qed.

Lemma spares_delete K id : (forall row, K row -> s_ID row <> id) -> spares K (h_tables (repo_Delete id)).
Proof using Type.
  intros HK s row Hk Hr. unfold h_tables, repo_Delete, tables_fault.
  destruct (db_faults (st_tables s)) as [|[] bs]; cbn; [|done|]; apply list_elem_of_filter; eauto.
Qed.

Lemma spares_each K f users : spares K (try_each f users).
Proof using Type.
  induction users as [|x users IH]; [apply spares_ret|]. apply spares_bind; [apply spares_try, spares_svc|]. intros ?. exact IH.
Qed.

Lemma ds_Delete_spares K kube r : (forall row, K row -> s_ID row <> r_ID r) -> spares K (ds_Delete mm kube r).
Proof using Type.
  intros HK. apply spares_bind; [apply spares_client|]. intros ?. apply spares_bind.
  - case_bool_decide; [|apply spares_ret]. apply spares_bind; [apply spares_read|]. intros [base|]; [|apply spares_ret].
    destruct (no_namespace _); apply spares_ret.
  - intros [|]; [|apply spares_fail]. apply spares_bind; [apply spares_try, spares_api|]. intros ?.
    apply spares_bind; [by apply spares_delete|]. intros [|]; [apply spares_ret|apply spares_fail].
Qed.

Lemma delete_spaces_spares K l : (forall row cu, K row -> cu ∈ l -> s_ID row <> s_ID cu) -> spares K (delete_spaces e mm l).
Proof using Type.
  induction l as [|cu l IH]; intros HK; [apply spares_ret|]. apply spares_bind.
  - destruct (cluster_of e (s_ClusterId cu)); [|apply spares_ret]. apply spares_try, ds_Delete_spares. intros row Hk. apply HK; [done|left].
  - intros ?. apply IH. intros row cu' Hk Hc. apply HK; [done|by right].
Qed.

(** The rows that a deletion leaves: all but the dev space and its mesh spaces. *)
Definition left_alone (id : Z) (t : Tables) (row : Space) : Prop :=
  row ∈ rows t /\ s_ID row <> id /\ s_BaseDevSpaceId row <> id.

Lemma by_base_rows id t l :
  id <> 0%Z -> snd (repo_GetList (by_base id) t) = Some l -> forall cu, cu ∈ l -> cu ∈ rows t /\ s_BaseDevSpaceId cu = id.
Proof using Type.
  intros Hid E%reading_Some cu Hc. unfold sorted_rows in E. destruct (filter _ (rows t)) as [|x l'] eqn:Ef; [done|]. injection E as <-.
  rewrite merge_sort_Permutation, <- Ef, list_elem_of_filter in Hc. destruct Hc as [Hm Hc]. split; [done|].
  unfold matches in Hm. cbn in Hm. rewrite !andb_true_iff in Hm. destruct Hm as [[_ Hm] _].
  unfold field_matches in Hm. rewrite orb_true_iff, !bool_decide_eq_true in Hm. by destruct Hm as [|].
Qed.

Lemma repo_Delete_sub id t : rows (fst (repo_Delete id t)) ⊆ rows t.
Proof using Type.
  unfold repo_Delete, tables_fault. destruct (db_faults t) as [|[] bs]; cbn; [|done|]; intros x [_ ?]%list_elem_of_filter; done.
Qed.

(** Deleting never adds a row. *)
Definition shrinks {A : Type} (p : hnd A) : Prop := forall s, rows (st_tables (fst (p s))) ⊆ rows (st_tables s).

Lemma ds_Delete_shrinks kube r : shrinks (ds_Delete mm kube r).
Proof using Type.
  intros s. unfold ds_Delete, h_bind, h_then, h_client. destruct (st_world s !! kube) as [srv|]; [|done].
  assert (exists s1 ok, (if bool_decide (0 < r_BaseDevSpaceId r)%Z then deleteTracingHeader mm kube r else h_ret true) s = (s1, Ok ok) /\
    rows (st_tables s1) = rows (st_tables s)) as (s1 & ok & -> & E1).
  { case_bool_decide; [|by exists s, true]. unfold deleteTracingHeader, h_bind, h_then, repo_GetFirst.
    destruct (tables_reads (List.find (matches (by_id (r_BaseDevSpaceId r)))) s) as (t & -> & Et).
    destruct (snd _) as [base|]; [|by exists (mkSt t (st_world s)), true].
    destruct (no_namespace _); by eexists (mkSt t (st_world s)), _. }
  destruct ok; [|by rewrite <- E1]. unfold h_try at 1, h_then at 1.
  assert (exists s2 r2, h_api kube (DeleteNS (r_NameSpace r)) (fun _ => ErrOther) s1 = (s2, r2) /\ st_tables s2 = st_tables s1) as (s2 & r2 & -> & E2).
  { unfold h_api. destruct (st_world s1 !! kube) as [srv1|]; [|by eexists _, _]. destruct (DeleteNS _ srv1) as [srv2 [x|x]]; by eexists _, _. }
  cbn. unfold h_tables. pose proof (repo_Delete_sub (r_ID r) (st_tables s2)) as Hd. rewrite E2, E1 in Hd.
  rewrite E2 in *. destruct (repo_Delete (r_ID r) (st_tables s1)) as [t []]; exact Hd.
Qed.

Lemma Delete_spares u id s row :
  NoDup (s_ID <$> rows (st_tables s)) -> id <> 0%Z -> left_alone id (st_tables s) row ->
  row ∈ rows (st_tables (fst (Delete_handler e now mm (u_ID u) (u_IsAdmin u) id s))).
Proof using Type.
  intros Hnd Hid (Hrow & Hne & Hbase). unfold Delete_handler.
  destruct (HasPrivilegeToSomeDevSpace e (u_ID u) (u_IsAdmin u) id s) as [s1 r] eqn:Ep.
  apply privilege_permission in Ep as [[E1 _] Hcu]; [|done]. rewrite <- E1 in Hrow, Hnd.
  destruct r as [cu|x]; [|done]. destruct (Hcu cu eq_refl) as (_ & Ecu & _). destruct (s_Protected cu); [done|].
  assert (row ∈ rows (st_tables (fst (delete_space e now mm id cu s1)))) as Hx; [|by destruct (delete_space e now mm id cu s1)].
  unfold delete_space. destruct (IsClusterAdmin cu).
  - apply (spares_bind (fun x => s_ID x <> id)); [apply spares_svc| |done|done]. intros ?.
    apply spares_bind; [apply spares_svc|]. intros ?. apply spares_bind; [apply spares_svc|]. intros ?.
    apply spares_bind; [by apply spares_delete|]. intros [|]; [apply spares_ret|apply spares_fail].
  - destruct (cluster_of e (s_ClusterId cu)) as [cl|]; [|done]. unfold h_bind at 1, h_then at 1.
    pose proof (ds_Delete_spares (fun x => s_ID x <> id) (cl_KubeConfig cl) (delete_request cu)) as Hd.
    cbn [delete_request r_ID] in Hd. rewrite Ecu in Hd. specialize (Hd ltac:(done) s1 row Hne Hrow).
    pose proof (ds_Delete_shrinks (cl_KubeConfig cl) (delete_request cu) s1) as Hsub.
    destruct (ds_Delete mm (cl_KubeConfig cl) (delete_request cu) s1) as [s2 [[]|x]]; [|exact Hd].
    destruct (s_IsBaseSpace cu); [|exact Hd]. unfold deleteShareSpaces, h_bind, h_then, repo_GetList.
    match goal with |- context [h_tables (reading ?f) s2] => destruct (tables_reads f s2) as (t & Et & Er); rewrite Et;
      change (snd (reading f (st_tables s2))) with (snd (repo_GetList (by_base id) (st_tables s2))) end.
    destruct (snd (repo_GetList (by_base id) (st_tables s2))) as [l|] eqn:El; [|cbn; by rewrite Er].
    pose proof (by_base_rows id _ _ Hid El) as Hl.
    apply (delete_spaces_spares (fun x => x = row)); [|done|cbn; by rewrite Er].
    intros ? c -> Hc E. destruct (Hl c Hc) as [Hc1 Hc2]. apply Hsub in Hc1.
    assert (c = row) as ->; [|done]. apply list_elem_of_lookup in Hc1 as [i Hi], Hrow as [j Hj].
    assert (i = j) as ->; [|congruence]. eapply (NoDup_lookup (s_ID <$> rows (st_tables s1))); [done|..];
      rewrite list_lookup_fmap, ?Hi, ?Hj; cbn; by rewrite ?E.
Qed.

(** C12: Nobody changes a dev space without the right to.  A call for a dev space by
    an id that is not 0 - to share, unshare, reset, delete or limit it - that changes
    anything at all, the table or a cluster, was made by an administrator, by the
    creator of the cluster or, except for deleting and limiting, by the owner of the
    dev space or one of its cooperators; and the dev space was not protected when it
    was reset or deleted.  With unique ids, a deletion takes no other row from the
    table than those of the dev space and of the mesh spaces based on it, which go
    with it whoever owns or protects them. *)
Theorem space_changes_authorized u op s :
  user_of e (u_ID u) = Some u -> op_id op <> 0%Z -> ~ same_data s (fst (run_op u op s)) ->
  (exists cu cl, cu ∈ rows (st_tables s) /\ s_ID cu = op_id op /\ cluster_of e (s_ClusterId cu) = Some cl /\ may u op cu cl /\
    match op with DoReCreate _ | DoDelete _ => s_Protected cu = false | _ => True end) /\
  (forall id, op = DoDelete id -> NoDup (s_ID <$> rows (st_tables s)) ->
   forall row, left_alone id (st_tables s) row -> row ∈ rows (st_tables (fst (run_op u op s)))).
Proof using Type.
  intros Hu Hid Hch. split; [|intros id -> Hnd row; by apply Delete_spares].
  destruct op as [id cs vs|id us|id|id|id l]; cbn in Hid, Hch |- *.
  - unfold Share in Hch. destruct (HasModifyPermissionToSomeDevSpace e (u_ID u) id s) as [s1 r] eqn:Ep.
    apply modify_permission in Ep as [Hsame Hcu]; [|done|done]. destruct r as [cu|x]; [|done].
    destruct (Hcu cu eq_refl) as (? & ? & cl & ? & ?). unfold may. eauto 10.
  - unfold UnShare in Hch. destruct (HasModifyPermissionToSomeDevSpace e (u_ID u) id s) as [s1 r] eqn:Ep.
    apply modify_permission in Ep as [Hsame Hcu]; [|done|done]. destruct r as [cu|x]; [|done].
    destruct (Hcu cu eq_refl) as (? & ? & cl & ? & ?). unfold may. eauto 10.
  - unfold ReCreate_handler in Hch. destruct (HasModifyPermissionToSomeDevSpace e (u_ID u) id s) as [s1 r] eqn:Ep.
    apply modify_permission in Ep as [Hsame Hcu]; [|done|done]. destruct r as [cu|x]; [|done].
    destruct (Hcu cu eq_refl) as (? & ? & cl & ? & ?). destruct (s_Protected cu) eqn:Epr; [done|]. unfold may. eauto 10.
  - unfold Delete_handler in Hch. destruct (HasPrivilegeToSomeDevSpace e (u_ID u) (u_IsAdmin u) id s) as [s1 r] eqn:Ep.
    apply privilege_permission in Ep as [Hsame Hcu]; [|done]. destruct r as [cu|x]; [|done].
    destruct (Hcu cu eq_refl) as (? & ? & cl & ? & ?). destruct (s_Protected cu) eqn:Epr; [done|]. unfold may. exists cu, cl. tauto.
  - unfold UpdateResourceLimit in Hch. destruct (HasPrivilegeToSomeDevSpace e (u_ID u) (u_IsAdmin u) id s) as [s1 r] eqn:Ep.
    apply privilege_permission in Ep as [Hsame Hcu]; [|done]. destruct r as [cu|x]; [|done].
    destruct (Hcu cu eq_refl) as (? & ? & cl & ? & ?). unfold may. exists cu, cl. tauto.
Qed.
End changes.

(** Any path passes for any user with a query that has an open one: the patterns
    are searched for anywhere in the URI. *)
Theorem permission_bypassed isAdmin path : PermissionMiddleware isAdmin (go "POST") (path ++ go "?/v1/dev_space") = true.
Proof.
  unfold PermissionMiddleware, whiteList. apply orb_true_iff. right. apply existsb_exists.
  exists ([lit "/v1/dev_space"], go "GET,POST"). split; [vm_compute; tauto|]. apply andb_true_iff. split; [|reflexivity].
  unfold MatchString. apply existsb_exists. exists (S (length path)). split.
  - apply List.in_seq. cbn [fst]. rewrite length_app. change (length (go "?/v1/dev_space")) with 14. lia.
  - cbn [fst]. replace (S (length path)) with (length path + 1) by lia. rewrite <- drop_drop, drop_app_length. reflexivity.
Qed.

(** ** The table stays consistent *)

(** Ids are unique and given out, names are unique, and so are namespaces except
    for the dev spaces of clusters. *)
Record tables_ok (t : Tables) : Prop := {
  ok_ids : NoDup (s_ID <$> rows t);
  ok_next : forall cu, cu ∈ rows t -> (0 < s_ID cu < next_id t)%Z;
  ok_positive : (0 < next_id t)%Z;
  ok_names : NoDup (s_SpaceName <$> rows t);
  ok_namespaces : NoDup (s_Namespace <$> filter (fun cu => IsClusterAdmin cu = false) (rows t));
  ok_admin : forall cu, cu ∈ rows t -> is_Some (s_ClusterAdmin cu)
}.

(** A call from a table with [P] returns with [Q] or fails with [E]. *)
Definition hoare {A : Type} (P : Tables -> Prop) (p : hnd A) (Q : A -> Tables -> Prop) (E : errno -> Tables -> Prop) : Prop :=
  forall s, P (st_tables s) ->
  match p s with
  | (s', Ok a) => Q a (st_tables s')
  | (s', Err x) => E x (st_tables s')
  end.

Lemma h_bind_ok {A B : Type} P (p : hnd A) Q (f : A -> hnd B) R E :
  hoare P p Q E -> (forall a, hoare (Q a) (f a) R E) -> hoare P (h_bind p f) R E.
Proof.
  intros Hp Hf s Hs. unfold h_bind, h_then. specialize (Hp s Hs). destruct (p s) as [s' [a|x]]; [by apply Hf|done].
Qed.

Lemma h_ret_ok {A : Type} P (a : A) Q E : (forall t, P t -> Q a t) -> hoare P (h_ret a) Q E.
Proof. intros H s Hs. by apply H. Qed.

Lemma h_fail_ok {A : Type} P x (Q : A -> Tables -> Prop) E : (forall t, P t -> E x t) -> hoare P (h_fail x) Q E.
Proof. intros H s Hs. by apply H. Qed.

Lemma h_try_ok {A : Type} P (p : hnd A) Q E : hoare P p (fun _ => Q) (fun _ => Q) -> hoare P (h_try p) (fun _ => Q) E.
Proof. intros H s Hs. unfold h_try, h_then. specialize (H s Hs). by destruct (p s) as [s' [a|x]]. Qed.

Lemma h_tables_ok {A : Type} P (f : Tables -> Tables * A) Q E :
  (forall t, P t -> Q (snd (f t)) (fst (f t))) -> hoare P (h_tables f) Q E.
Proof. intros H s Hs. unfold h_tables. specialize (H _ Hs). by destruct (f (st_tables s)). Qed.

(** What only asks a cluster leaves the table; its errors are of the cluster. *)
Definition cluster_error (x : errno) : Prop := match x with Svc _ | ErrClusterKubeErr | ErrOther | ErrClusterUserNotFound => True | _ => False end.

Lemma h_svc_ok {A : Type} P (p : svc A) E :
  (forall x t, cluster_error x -> P t -> E x t) -> hoare P (h_svc p) (fun _ => P) E.
Proof. intros H s Hs. unfold h_svc. destruct (p (st_world s)) as [w [a|x]]; cbn; [done|by apply H]. Qed.

Lemma h_api_ok {A : Type} P kube (p : api A) err E :
  (forall x, cluster_error (err x)) -> (forall x t, cluster_error x -> P t -> E x t) -> hoare P (h_api kube p err) (fun _ => P) E.
Proof.
  intros He H s Hs. unfold h_api. destruct (st_world s !! kube) as [srv|]; [|by apply H].
  destruct (p srv) as [srv' [a|x]]; cbn; [done|by apply H].
Qed.

Lemma h_client_ok P kube E : (forall x t, cluster_error x -> P t -> E x t) -> hoare P (h_client kube) (fun _ => P) E.
Proof. intros H s Hs. unfold h_client. destruct (st_world s !! kube); [done|by apply H]. Qed.

Lemma hoare_weaken {A : Type} P P' (p : hnd A) Q Q' E E' :
  hoare P p Q E -> (forall t, P' t -> P t) -> (forall a t, Q a t -> Q' a t) -> (forall x t, E x t -> E' x t) -> hoare P' p Q' E'.
Proof. intros H HP HQ HE s Hs. specialize (H s (HP _ Hs)). destruct (p s) as [s' [a|x]]; auto. Qed.

(** *** The operations of the table *)

(** A consistent table whose queries do not fail. *)
Definition sound (t : Tables) : Prop := tables_ok t /\ read_faults t = [].

(** A query of such a table. *)
Lemma h_read_ok {A : Type} P (f : list Space -> option A) Q E :
  (forall t, P t -> sound t) -> (forall t, P t -> Q (f (rows t)) t) -> hoare P (h_tables (reading f)) Q E.
Proof.
  intros HP H. apply h_tables_ok. intros t Ht. destruct (HP t Ht) as [_ E0]. unfold reading. rewrite E0. by apply H.
Qed.

Lemma fault_rows t : rows (snd (tables_fault t)) = rows t /\ next_id (snd (tables_fault t)) = next_id t.
Proof. unfold tables_fault. by destruct (db_faults t). Qed.

Lemma tables_ok_same t t' : rows t' = rows t -> next_id t' = next_id t -> tables_ok t -> tables_ok t'.
Proof. intros E1 E2 []. constructor; rewrite ?E1, ?E2; done. Qed.

Lemma filter_fmap_sublist {A B : Type} (f : A -> B) (P : A -> Prop) `{!forall x, Decision (P x)} (l l' : list A) :
  l `sublist_of` l' -> f <$> filter P l `sublist_of` f <$> filter P l'.
Proof.
  intros Hs. apply fmap_sublist. induction Hs as [|x l1 l2 Hs IH|x l1 l2 Hs IH]; [done| |]; rewrite ?filter_cons; case_decide; eauto using sublist.
Qed.

Lemma sublist_ok t t' :
  rows t' `sublist_of` rows t -> next_id t' = next_id t -> tables_ok t -> tables_ok t'.
Proof.
  intros Hs En []. constructor.
  - eapply sublist_NoDup; [exact ok_ids0|]. by apply fmap_sublist.
  - rewrite En. eauto using elem_of_sublist.
  - by rewrite En.
  - eapply sublist_NoDup; [exact ok_names0|]. by apply fmap_sublist.
  - eapply sublist_NoDup; [exact ok_namespaces0|]. by apply filter_fmap_sublist.
  - eauto using elem_of_sublist.
Qed.

Lemma fault_reads t : read_faults (snd (tables_fault t)) = read_faults t.
Proof. unfold tables_fault. by destruct (db_faults t). Qed.

Lemma repo_Delete_ok id t : sound t -> sound (fst (repo_Delete id t)).
Proof.
  intros [Ht Hf]. destruct (fault_rows t) as [E1 E2]. pose proof (fault_reads t) as E3. unfold repo_Delete.
  destruct (tables_fault t) as [[|] t']; cbn in *; (split; cbn; [|congruence]).
  - by eapply tables_ok_same.
  - eapply (sublist_ok t'); cbn; [apply sublist_filter|done|]. by eapply tables_ok_same.
Qed.

Definition fresh_name (name : gostring) (t : Tables) : Prop := name ∉ s_SpaceName <$> rows t.
Definition fresh_namespace (ns : gostring) (t : Tables) : Prop := ns ∉ s_Namespace <$> rows t.

(** The row that is created. *)
Definition created_row (cu row : Space) (t : Tables) : Prop :=
  s_ID row = next_id t /\ s_SpaceName row = s_SpaceName cu /\ s_Namespace row = s_Namespace cu /\
  s_ClusterAdmin row = Some (default 0%Z (s_ClusterAdmin cu)).

Lemma repo_Create_spec cu t :
  match repo_Create cu t with
  | (t', None) => rows t' = rows t /\ next_id t' = next_id t
  | (t', Some row) => rows t' = rows t ++ [row] /\ next_id t' = (next_id t + 1)%Z /\ created_row cu row t
  end.
Proof.
  destruct (fault_rows t) as [E1 E2]. unfold repo_Create. destruct (tables_fault t) as [[|] t']; cbn in *; [done|].
  rewrite E1, E2. split; [done|]. split; [done|]. unfold created_row. by rewrite <- E2.
Qed.

Lemma repo_Create_reads cu t : read_faults (fst (repo_Create cu t)) = read_faults t.
Proof. pose proof (fault_reads t) as E. unfold repo_Create. by destruct (tables_fault t) as [[|] t']. Qed.

Lemma repo_Create_ok cu t :
  sound t -> fresh_name (s_SpaceName cu) t -> default 0%Z (s_ClusterAdmin cu) <> 0%Z \/ fresh_namespace (s_Namespace cu) t ->
  match repo_Create cu t with
  | (t', None) => sound t'
  | (t', Some row) => sound t' /\ row ∈ rows t'
  end.
Proof.
  intros [Hok Hf] Hn Hns. pose proof (repo_Create_spec cu t) as H. pose proof (repo_Create_reads cu t) as Hf'. rewrite Hf in Hf'.
  destruct (repo_Create cu t) as [t' [row|]].
  2:{ destruct H. split; [by eapply tables_ok_same|done]. }
  destruct H as (Er & En & (Hid & Hname & Hnsp & Ha)). destruct Hok. split; [split; [constructor|done]|].
  - rewrite Er, fmap_app. apply NoDup_app. split_and!; [done| |apply NoDup_singleton].
    intros x (cu' & -> & Hc)%list_elem_of_fmap Hx%list_elem_of_singleton. specialize (ok_next0 _ Hc). lia.
  - rewrite Er, En. intros x [Hx| ->%list_elem_of_singleton]%elem_of_app; [specialize (ok_next0 _ Hx)|]; lia.
  - lia.
  - rewrite Er, fmap_app. apply NoDup_app. split_and!; [done| |apply NoDup_singleton].
    intros x Hx Hx'%list_elem_of_singleton. subst x. rewrite Hname in Hx. by apply Hn.
  - rewrite Er, filter_app, fmap_app. apply NoDup_app. split_and!; [done| |].
    + intros x Hx (r & -> & Hr)%list_elem_of_fmap. apply list_elem_of_filter in Hr as [Hadm ->%list_elem_of_singleton].
      destruct Hns as [Hne|Hns].
      * unfold IsClusterAdmin in Hadm. rewrite Ha in Hadm. by apply bool_decide_eq_false in Hadm.
      * rewrite Hnsp in Hx. apply Hns. apply list_elem_of_fmap in Hx as (y & -> & Hy). apply list_elem_of_filter in Hy as [_ Hy].
        by apply list_elem_of_fmap_2.
    + rewrite filter_cons. case_decide; [apply NoDup_singleton|apply NoDup_nil_2].
  - rewrite Er. intros x [Hx| ->%list_elem_of_singleton]%elem_of_app; [by apply ok_admin0|]. by rewrite Ha.
  - rewrite Er. apply elem_of_app. right. by left.
Qed.

Section find.
Context `{!Collation}.

Lemma find_in m (l : list Space) row : List.find (matches m) l = Some row -> row ∈ l.
Proof using Type. intros [Hin _]%List.find_some. by apply list_elem_of_In. Qed.

Lemma find_none m (l : list Space) : List.find (matches m) l = None -> forall cu, cu ∈ l -> matches m cu = false.
Proof using Type. intros Hf cu Hc. apply (List.find_none _ _ Hf). by apply list_elem_of_In. Qed.

Lemma name_fresh `{!CollationLaws} name t : List.find (matches (by_name name)) (rows t) = None -> fresh_name name t.
Proof using Type.
  intros Hf (cu & -> & Hc)%list_elem_of_fmap. apply (find_none _ _ Hf) in Hc. unfold matches, field_matches, text_matches in Hc.
  cbn in Hc. by rewrite text_eq_refl, orb_true_r in Hc.
Qed.

Lemma namespace_fresh `{!CollationLaws} ns t : List.find (matches (by_namespace ns)) (rows t) = None -> fresh_namespace ns t.
Proof using Type.
  intros Hf (cu & -> & Hc)%list_elem_of_fmap. apply (find_none _ _ Hf) in Hc. unfold matches, field_matches, text_matches in Hc.
  cbn in Hc. by rewrite text_eq_refl, orb_true_r in Hc.
Qed.
End find.

Lemma same_id_row t row cu : tables_ok t -> row ∈ rows t -> cu ∈ rows t -> s_ID cu = s_ID row -> cu = row.
Proof.
  intros Hok Hr Hc E. pose proof (find_unique s_ID (rows t) row (ok_ids t Hok) Hr) as H1.
  pose proof (find_unique s_ID (rows t) cu (ok_ids t Hok) Hc) as H2. rewrite E in H2. congruence.
Qed.

(** What an update may not change. *)
Definition same_identity (m row : Space) : Prop :=
  s_ID m = s_ID row /\ s_SpaceName m = s_SpaceName row /\ s_Namespace m = s_Namespace row /\ s_ClusterAdmin m = s_ClusterAdmin row.

Lemma or_field_same {A : Type} `{!EqDecision A} (zero x : A) : or_field zero x x = x.
Proof. unfold or_field. by case_bool_decide. Qed.

Lemma repo_Update_ok `{!Collation} m row t : sound t -> row ∈ rows t -> same_identity m row -> sound (fst (repo_Update m t)).
Proof.
  intros [Hok Hf] Hr (Eid & En & Ens & Ea). unfold repo_Update, repo_GetFirst, reading. rewrite Hf.
  destruct (List.find _ (rows t)); [|done]. destruct (fault_rows t) as [E1 E2]. pose proof (fault_reads t) as E3.
  destruct (tables_fault t) as [failed t'] eqn:Ef. cbn in E1, E2, E3. rewrite Hf in E3.
  assert (tables_ok t') as Hok' by (by eapply tables_ok_same). rewrite <- E1 in Hr. clear Hok E1 E2 Ef.
  destruct (failed || _); [done|]. cbn. split; [|done].
  assert (forall cu, cu ∈ rows t' -> forall g, g = (if bool_decide (s_ID cu = s_ID m) then merge_row m cu else cu) ->
    s_ID g = s_ID cu /\ s_SpaceName g = s_SpaceName cu /\ s_Namespace g = s_Namespace cu /\ s_ClusterAdmin g = s_ClusterAdmin cu) as Hg.
  { intros cu Hc g ->. case_bool_decide as E; [|done]. rewrite Eid in E. pose proof (same_id_row _ _ _ Hok' Hr Hc E) as ->.
    cbn. rewrite En, Ens, Ea, !or_field_same. done. }
  assert (forall (B : Type) (f : Space -> B), (forall cu, cu ∈ rows t' -> forall g,
     g = (if bool_decide (s_ID cu = s_ID m) then merge_row m cu else cu) -> f g = f cu) ->
    f <$> ((fun cu => if bool_decide (s_ID cu = s_ID m) then merge_row m cu else cu) <$> rows t') = f <$> rows t') as Hmap.
  { intros B f Hsame. rewrite <- list_fmap_compose. apply list_fmap_ext. intros i cu Hc. apply list_elem_of_lookup_2 in Hc. by eapply Hsame. }
  assert (forall cu, cu ∈ (fun cu => if bool_decide (s_ID cu = s_ID m) then merge_row m cu else cu) <$> rows t' ->
    exists cu', cu' ∈ rows t' /\ s_ID cu = s_ID cu' /\ s_ClusterAdmin cu = s_ClusterAdmin cu') as Hin.
  { intros cu (cu' & -> & Hc)%list_elem_of_fmap. exists cu'. destruct (Hg cu' Hc _ eq_refl) as (? & _ & _ & ?). done. }
  destruct Hok'. constructor; cbn.
  - rewrite Hmap; [done|]. intros cu Hc g Eg. by apply (Hg cu Hc).
  - intros cu (cu' & Hc & -> & _)%Hin. by apply ok_next0.
  - done.
  - rewrite Hmap; [done|]. intros cu Hc g Eg. by apply (Hg cu Hc).
  - assert (s_Namespace <$> filter (fun cu => IsClusterAdmin cu = false)
      ((fun cu => if bool_decide (s_ID cu = s_ID m) then merge_row m cu else cu) <$> rows t') =
      s_Namespace <$> filter (fun cu => IsClusterAdmin cu = false) (rows t')) as ->; [|done].
    clear -Hg. induction (rows t') as [|cu l IH]; [done|]. cbn [fmap list_fmap].
    destruct (Hg cu ltac:(by left) _ eq_refl) as (_ & _ & E3 & E4). rewrite !filter_cons.
    rewrite (decide_ext _ (IsClusterAdmin cu = false)) by (unfold IsClusterAdmin; by rewrite E4).
    specialize (IH ltac:(intros; apply Hg; [by right|done])). 
    destruct (decide (IsClusterAdmin cu = false)); [|exact IH]. cbn [fmap list_fmap]. rewrite E3. by f_equal.
  - intros cu (cu' & Hc & _ & ->)%Hin. by apply ok_admin0.
Qed.

(** *** The calls *)

Section consistent.
Context `{!MapOrder gostring} `{!Collation} `{!CollationLaws} (e : Env) (now : gostring) (mm : MeshManager) (rnd : Randoms)
  (marshal : SpaceResourceLimit -> gostring).

Abbreviation ok_after := (fun (_ : errno) => sound).

(** Asking whether a name is free. *)
Lemma name_query name :
  hoare sound (h_tables (repo_GetFirst (by_name name))) (fun row t => sound t /\ match row with None => fresh_name name t | _ => True end)
    ok_after.
Proof using All.
  apply h_read_ok; [done|]. intros t Ht. split; [done|]. destruct (List.find _ _) eqn:Ef; [done|by apply name_fresh].
Qed.

Lemma getUnDuplicateName_fresh tries times name :
  hoare sound (getUnDuplicateName rnd tries times name) (fun name' t => sound t /\ fresh_name name' t) ok_after.
Proof using All.
  revert times. induction tries as [|tries IH]; intros times; cbn [getUnDuplicateName]; cbv zeta;
    (eapply h_bind_ok; [apply name_query|]; intros [row|]; [|by apply h_ret_ok]).
  - apply h_fail_ok. tauto.
  - eapply hoare_weaken; [apply IH|tauto|done|done].
Qed.

Lemma space_name_fresh cl u r : hoare sound (space_name rnd cl u r) (fun name t => sound t /\ fresh_name name t) ok_after.
Proof using All.
  unfold space_name. case_bool_decide; [apply getUnDuplicateName_fresh|].
  eapply h_bind_ok; [apply name_query|]. intros [row|]; [apply h_fail_ok; tauto|by apply h_ret_ok].
Qed.

Lemma base_space_keeps r P : (forall t, P t -> sound t) -> hoare P (base_space r) (fun _ => P) ok_after.
Proof using Type.
  intros HP. unfold base_space. case_bool_decide; [|by apply h_ret_ok]. eapply (h_bind_ok _ _ (fun _ => P)); [by apply h_read_ok|].
  intros [base|]; [|by apply h_fail_ok]. case_bool_decide; [by apply h_fail_ok|]. destruct (no_namespace _); [by apply h_fail_ok|by apply h_ret_ok].
Qed.

Lemma ds_Delete_keeps kube r : hoare sound (ds_Delete mm kube r) (fun _ => sound) ok_after.
Proof using Type.
  unfold ds_Delete. eapply h_bind_ok; [by apply h_client_ok|]. intros ?.
  eapply (h_bind_ok _ _ (fun _ => sound)).
  { case_bool_decide; [|by apply h_ret_ok]. unfold deleteTracingHeader. eapply (h_bind_ok _ _ (fun _ => sound)); [by apply h_read_ok|].
    intros [base|]; [|by apply h_ret_ok]. destruct (no_namespace _); by apply h_ret_ok. }
  intros [|]; [|by apply h_fail_ok]. eapply h_bind_ok; [apply h_try_ok; apply h_api_ok; done|]. intros ?.
  eapply (h_bind_ok _ _ (fun _ => sound)); [apply h_tables_ok; intros t; apply repo_Delete_ok|].
  intros [|]; [by apply h_ret_ok|by apply h_fail_ok].
Qed.

Lemma createClusterDevSpace_keeps r cl u :
  hoare (fun t => sound t /\ fresh_name (r_SpaceName r) t) (createClusterDevSpace e now r cl u)
    (fun row t => sound t /\ row ∈ rows t) ok_after.
Proof using Type.
  unfold createClusterDevSpace. eapply (h_bind_ok _ _ (fun _ t => sound t /\ fresh_name (r_SpaceName r) t)).
  { apply h_read_ok; tauto. }
  intros [l|]; [apply h_fail_ok; tauto|].
  eapply (h_bind_ok _ _ (fun row t => sound t /\ match row with Some row => row ∈ rows t | None => True end)).
  { apply h_tables_ok. intros t [Hok Hn].
    assert (default 0%Z (Some 1%Z) <> 0%Z) as Hd by done.
    pose proof (repo_Create_ok (mkSpace 0 0 (u_ID u) (r_SpaceName r) (cl_ID cl) [] [] (go "*") (Some 1%Z) false false 0 no_header)
      t Hok Hn (or_introl Hd)) as Hc. by destruct (repo_Create _ t) as [t' [row|]]. }
  intros [row|]; [|apply h_fail_ok; tauto].
  eapply h_bind_ok; [apply h_svc_ok; tauto|]. intros ?. by apply h_ret_ok.
Qed.

Lemma createDevSpace_keeps r cl u :
  hoare (fun t => sound t /\ fresh_name (r_SpaceName r) t) (createDevSpace e now rnd marshal r cl u)
    (fun rc t => sound t /\ snd rc ∈ rows t) ok_after.
Proof using All.
  set (P := fun t => sound t /\ fresh_name (r_SpaceName r) t).
  assert (forall x t, cluster_error x -> P t -> ok_after x t) as HE by (unfold P; tauto).
  unfold createDevSpace. eapply h_bind_ok; [by apply h_client_ok|]. intros ?.
  eapply (h_bind_ok _ _ (fun _ => P)).
  { case_bool_decide as Hne; [|by apply h_ret_ok]. intros s Hs. unfold h_then.
    pose proof (h_api_ok P (cl_KubeConfig cl) (GetNamespace (r_NameSpace r))
      (fun e => if IsNotFound e then ErrClusterUserNotFound else ErrOther) (fun _ => P)) as Hapi.
    specialize (Hapi ltac:(by intros []) ltac:(done) s Hs). destruct (h_api _ _ _ s) as [s' [|x]]; [done|].
    destruct x; try done. exact (proj1 Hapi). }
  intros ?. destruct (if bool_decide (0 < r_BaseDevSpaceId r)%Z then _ else _) as [info|]; [|apply h_fail_ok; unfold P; tauto].
  cbv zeta. match goal with |- context [CreateNS ?n _] => set (ns := n) end.
  match goal with |- context [h_ret (?r', _)] => set (r1 := r') end.
  assert (r_SpaceName r1 = r_SpaceName r) as Hr1 by (unfold r1; by case_bool_decide).
  eapply (h_bind_ok _ _ (fun _ => P)).
  { case_bool_decide; [apply h_api_ok; [done|exact HE]|by apply h_ret_ok]. }
  intros ?. eapply h_bind_ok; [apply h_try_ok; apply h_api_ok; done|]. intros ?.
  eapply h_bind_ok; [apply h_try_ok; apply h_api_ok; done|]. intros ?.
  eapply (h_bind_ok _ _ (fun any t => P t /\ match any with Some row => row ∈ rows t | None => fresh_namespace ns t end)).
  { apply h_read_ok; [unfold P; tauto|]. intros t Ht. split; [done|].
    destruct (List.find _ (rows t)) eqn:E; [by eapply find_in|by apply namespace_fresh]. }
  intros any. eapply (h_bind_ok _ _ (fun row t => sound t /\ match row with Some row => row ∈ rows t | None => True end)).
  { destruct any as [row|]; [apply h_ret_ok; unfold P; tauto|]. apply h_tables_ok. intros t [[Hok Hn] Hns].
    match goal with |- context [repo_Create ?cu t] => pose proof (repo_Create_ok cu t Hok) as Hc end. cbn in Hc. rewrite Hr1 in *.
    specialize (Hc Hn (or_intror Hns)). by destruct (repo_Create _ t) as [t' [row|]]. }
  intros [row|]; [|apply h_fail_ok; tauto].
  eapply h_bind_ok; [apply h_svc_ok; tauto|]. intros ?. eapply h_bind_ok; [apply h_svc_ok; tauto|]. intros ?. by apply h_ret_ok.
Qed.

Lemma initMesh_keeps r cl cu base :
  hoare (fun t => sound t /\ cu ∈ rows t) (initMeshDevSpace mm r cl cu base) (fun _ => sound) ok_after.
Proof using Type.
  unfold initMeshDevSpace. cbv zeta. destruct (_ && _); [|apply h_ret_ok; tauto].
  eapply (h_bind_ok _ _ (fun _ => sound)); [|intros ?; by apply h_ret_ok].
  apply h_tables_ok. intros t [Hok Hin]. by eapply repo_Update_ok.
Qed.

Lemma ds_Create_keeps r : hoare sound (ds_Create e now mm rnd marshal r) (fun _ => sound) ok_after.
Proof using All.
  unfold ds_Create. destruct (user_of e (r_UserId r)) as [u|]; [|by apply h_fail_ok].
  destruct (cluster_of e (r_ClusterId r)) as [cl|]; [|by apply h_fail_ok].
  eapply (h_bind_ok _ _ (fun name t => sound t /\ fresh_name name t)).
  { apply space_name_fresh. }
  intros name. cbv zeta. eapply (h_bind_ok _ _ (fun _ t => sound t /\ fresh_name name t)).
  { apply base_space_keeps. tauto. }
  intros base. eapply (h_bind_ok _ _ (fun rc t => sound t /\ snd rc ∈ rows t)).
  { case_bool_decide; [apply (createDevSpace_keeps (with_name r name))|].
    eapply h_bind_ok; [apply (createClusterDevSpace_keeps (with_name r name))|]. intros row. by apply h_ret_ok. }
  intros [r' row]. cbn [fst snd]. case_bool_decide; [|apply h_ret_ok; tauto].
  eapply h_bind_ok; [apply initMesh_keeps|]. intros [cu [|]]; cbn [fst snd]; [by apply h_ret_ok|].
  eapply h_bind_ok; [apply h_try_ok, ds_Delete_keeps|]. intros ?. by apply h_fail_ok.
Qed.

Lemma try_each_keeps P f users : hoare P (try_each f users) (fun _ => P) (fun _ => P).
Proof using Type.
  induction users as [|x users IH]; cbn; [by apply h_ret_ok|].
  eapply h_bind_ok; [apply h_try_ok; by apply h_svc_ok|]. intros ?. exact IH.
Qed.

Lemma delete_spaces_keeps l : hoare sound (delete_spaces e mm l) (fun _ => sound) ok_after.
Proof using Type.
  induction l as [|cu l IH]; cbn; [by apply h_ret_ok|]. eapply (h_bind_ok _ _ (fun _ => sound)); [|intros ?; exact IH].
  destruct (cluster_of e (s_ClusterId cu)); [apply h_try_ok, ds_Delete_keeps|by apply h_ret_ok].
Qed.

Lemma delete_space_keeps id cu : hoare sound (delete_space e now mm id cu) (fun _ => sound) ok_after.
Proof using Type.
  unfold delete_space. destruct (IsClusterAdmin cu).
  - unfold delete_cluster_space. cbv zeta. do 3 (eapply h_bind_ok; [by apply h_svc_ok|]; intros ?).
    eapply (h_bind_ok _ _ (fun _ => sound)); [apply h_tables_ok; intros t; apply repo_Delete_ok|].
    intros [|]; [by apply h_ret_ok|by apply h_fail_ok].
  - destruct (cluster_of e (s_ClusterId cu)); [|by apply h_fail_ok].
    eapply h_bind_ok; [apply ds_Delete_keeps|]. intros ?. destruct (s_IsBaseSpace cu); [|by apply h_ret_ok].
    unfold deleteShareSpaces. eapply (h_bind_ok _ _ (fun _ => sound)); [by apply h_read_ok|].
    intros [l|]; [apply delete_spaces_keeps|by apply h_ret_ok].
Qed.

Lemma recreated_keeps v r : hoare sound (recreated e now mm rnd marshal v r) (fun _ => sound) ok_after.
Proof using All.
  unfold recreated. eapply h_bind_ok; [apply ds_Create_keeps|]. intros row.
  do 2 (eapply h_bind_ok; [by apply h_svc_ok|]; intros ?). do 2 (eapply h_bind_ok; [apply try_each_keeps|]; intros ?).
  by apply h_ret_ok.
Qed.

Lemma hoare_state {A : Type} (p : hnd A) s :
  hoare sound p (fun _ => sound) ok_after -> sound (st_tables s) -> sound (st_tables (fst (p s))).
Proof using Type. intros Hp Hs. specialize (Hp s Hs). by destruct (p s) as [s' [a|x]]. Qed.
End consistent.

(** ** The handlers, in any order *)

(** One call of a handler, in any environment; renaming a dev space is apart. *)
Inductive space_step `{!MapOrder gostring} `{!Collation} : St -> St -> Prop :=
  | step_op e now mm rnd marshal u op s : space_step s (fst (run_op e now mm rnd marshal u op s))
  | step_create e now mm rnd marshal istio r s : space_step s (fst (Create_handler e now mm rnd marshal istio r s))
  | step_mesh e mm id info s : space_step s (fst (UpdateMeshDevSpaceInfo e mm id info s)).

Section calls.
Context `{!MapOrder gostring} `{!Collation} `{!CollationLaws}.

Lemma modify_keeps e u id : hoare sound (HasModifyPermissionToSomeDevSpace e u id) (fun _ => sound) (fun _ => sound).
Proof using Type.
  unfold HasModifyPermissionToSomeDevSpace. eapply (h_bind_ok _ _ (fun _ => sound)); [by apply h_read_ok|].
  intros [cu|]; [|by apply h_fail_ok]. destruct (cluster_of _ _); [|by apply h_fail_ok]. destruct (contains _ _); [by apply h_ret_ok|].
  destruct (user_of _ _); [|by apply h_fail_ok]. destruct (_ || _ || _); [by apply h_ret_ok|by apply h_fail_ok].
Qed.

Lemma privilege_keeps e u a id : hoare sound (HasPrivilegeToSomeDevSpace e u a id) (fun _ => sound) (fun _ => sound).
Proof using Type.
  unfold HasPrivilegeToSomeDevSpace. eapply (h_bind_ok _ _ (fun _ => sound)); [by apply h_read_ok|].
  intros [cu|]; [|by apply h_fail_ok]. destruct (cluster_of _ _); [|by apply h_fail_ok].
  destruct (_ || _); [by apply h_ret_ok|by apply h_fail_ok].
Qed.

(** A query of a sound table leaves it as it is. *)
Lemma sound_reading {A : Type} (f : list Space -> option A) t : sound t -> reading f t = (t, f (rows t)).
Proof using Type. intros [_ E]. unfold reading. by rewrite E. Qed.

Lemma DoList_keeps e params u a b t : sound t -> sound (fst (DoList e params u a b t)).
Proof using Type. intros Ht. unfold DoList, ListWithFuzzySpaceName. rewrite sound_reading by done. by destruct (sorted_rows _). Qed.

Lemma run_op_keeps e now mm rnd marshal u op s :
  sound (st_tables s) -> sound (st_tables (fst (run_op e now mm rnd marshal u op s))).
Proof using All.
  intros Hs. destruct op as [id cs vs|id us|id|id|id l]; cbn [run_op].
  - unfold Share. pose proof (modify_keeps e (u_ID u) id s Hs) as Hp.
    destruct (HasModifyPermissionToSomeDevSpace _ _ _ _) as [s1 [cu|]]; [|done]. destruct (IsShareUsersOk _ _ _); [|done].
    apply hoare_state; [|done]. unfold share_with.
    destruct (IsClusterAdmin cu); (eapply h_bind_ok; [apply try_each_keeps|intros ?; apply try_each_keeps]).
  - unfold UnShare. pose proof (modify_keeps e (u_ID u) id s Hs) as Hp.
    destruct (HasModifyPermissionToSomeDevSpace _ _ _ _) as [s1 [cu|]]; [|done].
    apply hoare_state; [|done]. unfold unshare_with. destruct (IsClusterAdmin cu); apply try_each_keeps.
  - unfold ReCreate_handler. pose proof (modify_keeps e (u_ID u) id s Hs) as Hp.
    destruct (HasModifyPermissionToSomeDevSpace _ _ _ _) as [s1 [cu|]]; [|done].
    destruct (s_Protected cu), (s_IsBaseSpace cu); try done. destruct (cluster_of e _) as [cl|]; [|done].
    pose proof (DoList_keeps e (by_id id) (u_ID u) (u_IsAdmin u) false _ Hp) as Hl.
    destruct (DoList _ _ _ _ _ _) as [t [[[|v [|]]|]| |]]; try done. destruct (IsClusterAdmin _); [done|].
    pose proof (ds_Delete_keeps mm (cl_KubeConfig cl) (recreate_request e cu) (mkSt t (st_world s1)) Hl) as Hd.
    destruct (ds_Delete _ _ _ _) as [s' [[]|x]]; [|done]. cbn. apply (hoare_state _ _ (recreated_keeps _ _ _ _ _ _ _) Hd).
  - unfold Delete_handler. pose proof (privilege_keeps e (u_ID u) (u_IsAdmin u) id s Hs) as Hp.
    destruct (HasPrivilegeToSomeDevSpace _ _ _ _ _) as [s1 [cu|]]; [|done]. destruct (s_Protected cu); [done|].
    pose proof (hoare_state _ s1 (delete_space_keeps e now mm id cu) Hp) as Hd. by destruct (delete_space _ _ _ _ cu s1) as [s' r].
  - unfold UpdateResourceLimit. pose proof (privilege_keeps e (u_ID u) (u_IsAdmin u) id s Hs) as Hp.
    destruct (HasPrivilegeToSomeDevSpace _ _ _ _ _) as [s1 [cu|]]; [|done].
    case_bool_decide; [done|]. unfold repo_GetFirst. rewrite sound_reading by done.
    destruct (List.find _ _) as [row|] eqn:Eg; [|done]. destruct (cluster_of _ _) as [cl|]; [|done]. cbn [st_tables st_world].
    destruct (st_world s1 !! _); [|done]. destruct (negb _); [done|]. apply find_in in Eg.
    pose proof (repo_Update_ok (with_limit row (marshal l)) row _ Hp Eg ltac:(by split_and!)) as Hk.
    by destruct (repo_Update _ _).
Qed.

(** C11: The table of dev spaces stays consistent: through any sequence of calls
    that create, share, unshare, reset, limit, delete or change the mesh of dev
    spaces, one after the other, whatever request to a cluster and whatever write of
    the table fails on the way, ids and names are unique and two dev spaces never
    have one namespace; the dev spaces of whole clusters, whose namespace is a star,
    are apart from the last.  Queries of the table succeed: a query that fails counts
    as a free name ([failed_read_duplicates]).  Renaming is not among the calls
    ([rename_duplicates]). *)
Theorem table_consistent s s' :
  tables_ok (st_tables s) -> read_faults (st_tables s) = [] -> rtc space_step s s' -> tables_ok (st_tables s').
Proof using All.
  intros H1 H2 Hr. assert (sound (st_tables s)) as Hs by done. clear H1 H2. enough (sound (st_tables s')) as [? _] by done.
  induction Hr as [|s1 s2 s3 H12 _ IH]; [done|]. apply IH. clear IH.
  destruct H12 as [e now mm rnd marshal u op s|e now mm rnd marshal istio r s|e mm id info s]; [by apply run_op_keeps| |].
  - unfold Create_handler. destruct (request_Validate r), (mesh_Validate r), (istio_Validate e istio r); try done.
    by apply (hoare_state _ _ (ds_Create_keeps _ _ _ _ _ _)).
  - unfold UpdateMeshDevSpaceInfo, repo_GetFirst. rewrite sound_reading by done. destruct (List.find _ _) as [row|] eqn:Eg; [|done].
    apply find_in in Eg. case_bool_decide; [done|]. cbn [st_tables]. rewrite sound_reading by done.
    destruct (List.find _ _) as [base|]; [|done]. destruct (cluster_of _ _) as [cl|]; [|done].
    cbv zeta. destruct (_ && _); [|done]. cbn [st_tables].
    pose proof (repo_Update_ok (with_mesh row (i_Header info) (s_BaseDevSpaceId row)) row _ Hs Eg ltac:(by split_and!)) as Hk.
    by destruct (repo_Update _ _).
Qed.
End calls.

(** ** What goes wrong *)

(** Renaming a dev space asks neither who the user is nor whether the name is
    taken. *)
Theorem rename_duplicates `{!Collation} t w id row name :
  row ∈ rows t -> s_ID row = id -> name <> [] -> db_faults t = [] -> read_faults t = [] ->
  exists row', row' ∈ rows (st_tables (fst (Update_handler id [] name (mkSt t w)))) /\ s_ID row' = id /\ s_SpaceName row' = name.
Proof.
  intros Hin Hid Hname Hf Hrf. unfold Update_handler, repo_Update, repo_GetFirst, reading. cbn [st_tables s_ApplicationId s_UserId s_ID].
  rewrite Hrf.
  assert (is_Some (List.find (matches (mkSpace 0 0 0 [] 0 [] [] [] None false false 0 no_header)) (rows t))) as [x ->].
  { destruct (rows t) as [|y l]; [by apply elem_of_nil in Hin|]. cbn. eauto. }
  unfold tables_fault. rewrite Hf. cbn [orb].
  assert (existsb (fun cu => bool_decide (s_ID cu = id)) (rows t) = true) as ->.
  { apply existsb_exists. exists row. split; [by apply list_elem_of_In|by apply bool_decide_eq_true]. }
  cbn. exists (merge_row (mkSpace id 0 0 name 0 [] [] [] None false false 0 no_header) row). split; [|split; [exact Hid|]].
  - apply list_elem_of_fmap. exists row. split; [|done]. by rewrite bool_decide_eq_true_2.
  - cbn. unfold or_field. by rewrite bool_decide_eq_false_2.
Qed.

Section runs.
(** A collation by bytes: in a pattern, [%] is any text and [_] any character. *)
Fixpoint like (p : gostring) : gostring -> bool :=
  match p with
  | [] => fun x => bool_decide (x = [])
  | c :: p =>
      if bool_decide (c = "%"%char) then
        fix any (x : gostring) : bool := like p x || match x with [] => false | _ :: x => any x end
      else fun x => match x with [] => false | y :: x => (bool_decide (c = "_"%char) || bool_decide (c = y)) && like p x end
  end.

Definition binary : Collation := {| text_eq := fun x y => bool_decide (x = y); text_like := like |}.
#[local] Existing Instance binary.
#[local] Instance binary_laws : CollationLaws.
Proof. constructor. intros x. by apply bool_decide_eq_true. Qed.

Definition demo_env : Env :=
  mkEnv [mkCluster 1 (go "kube") 1 (go "cluster")] [mkUser 1 (go "sa-1") true (go "ann"); mkUser 2 (go "sa-2") false (go "bob")]
    (fun _ => NewRoleBindingWatcher) (fun _ => ∅) (fun _ => no_limit).

Definition demo_randoms : Randoms := mkRandoms (fun _ => go "abcd") (go "wxyz").
Definition demo_mesh (works : bool) : MeshManager :=
  mkMeshManager (fun _ => true) (fun _ _ => works) (fun _ _ => true) (fun _ _ => works).

(** A cluster in which the requests given fail. *)
Definition demo_cluster (fs : list bool) : World := {[go "kube" := mkServer ∅ ∅ ∅ ∅ ∅ ∅ fs]}.
Definition demo_state (fs : list bool) : St := mkSt (mkTables [] 1 [] []) (demo_cluster fs).

Definition demo_request : CreateRequest := mkRequest 0 1 2 (go "space") None [] None 0 None false false.

Definition demo_create_in (s : St) : St * outcome (option errno) :=
  Create_handler demo_env (go "now") (demo_mesh true) demo_randoms (fun _ => []) (fun _ => true) demo_request s.
Definition demo_create (fs : list bool) : St * outcome (option errno) := demo_create_in (demo_state fs).

(** When the namespace cannot be given to its user, the call fails and the dev
    space is there: its name is taken and nothing is undone. *)
Theorem failed_create_leaves_row :
  let r := demo_create [false; false; false; true] in
  snd r = Done (Some (Svc ErrServiceAccountCreate)) /\ s_SpaceName <$> rows (st_tables (fst r)) = [go "space"].
Proof. vm_compute. done. Qed.

(** When the query for the name fails, the name counts as free: the call succeeds
    and there are two dev spaces of the name. *)
Theorem failed_read_duplicates :
  let old := mkSpace 1 0 1 (go "space") 1 [] [] (go "space-ns") (Some 0%Z) false false 0 no_header in
  let r := demo_create_in (mkSt (mkTables [old] 2 [] [true]) (demo_cluster [])) in
  snd r = Done None /\ s_SpaceName <$> rows (st_tables (fst r)) = [go "space"; go "space"].
Proof. vm_compute. done. Qed.

(** A mesh space in the namespace of another dev space that cannot be set up
    deletes the other dev space. *)
Definition base_row_ : Space := mkSpace 1 0 1 (go "base") 1 [] [] (go "base-ns") (Some 0%Z) false true 0 no_header.
Definition other_row : Space := mkSpace 2 0 1 (go "other") 1 [] [] (go "other-ns") (Some 0%Z) false false 0 no_header.

Definition mesh_request : CreateRequest :=
  mkRequest 0 1 2 (go "mine") None (go "other-ns") None 1 (Some (new_info (mkHeader (go "k") (go "v") [] ) false)) false false.

Theorem failed_mesh_deletes_other :
  let s := mkSt (mkTables [base_row_; other_row] 3 [] []) (demo_cluster []) in
  let r := ds_Create demo_env (go "now") (demo_mesh false) demo_randoms (fun _ => []) mesh_request s in
  snd r = Err ErrInitMeshSpaceFailed /\ rows (st_tables (fst r)) = [base_row_].
Proof. vm_compute. done. Qed.

(** Two clusters, by two users who are no administrators; the dev space in the
    second cluster is protected. *)
Definition two_clusters : Env :=
  mkEnv [mkCluster 1 (go "kube") 1 (go "cluster"); mkCluster 2 (go "kube2") 2 (go "other")]
    [mkUser 1 (go "sa-1") false (go "ann"); mkUser 2 (go "sa-2") false (go "bob")]
    (fun _ => NewRoleBindingWatcher) (fun _ => ∅) (fun _ => no_limit).
Definition protected_row : Space := mkSpace 2 0 2 (go "prod") 2 [] [] (go "prod-ns") (Some 0%Z) true false 0 no_header.

(** An id that is no number counts as 0, which is no condition: asking to delete it
    finds the first dev space of the table and, when that is a base space the user
    may delete, deletes the dev spaces of all users and clusters, protected or not. *)
Theorem delete_zero_deletes_all :
  let s := mkSt (mkTables [base_row_; protected_row] 3 [] []) (<[go "kube2" := mkServer ∅ ∅ ∅ ∅ ∅ ∅ []]> (demo_cluster [])) in
  let r := Delete_handler two_clusters (go "now") (demo_mesh true) 1 false 0 s in
  snd r = Done None /\ rows (st_tables (fst r)) = [].
Proof. vm_compute. done. Qed.

Definition demo_tables : Tables := mkTables [base_row_; other_row] 3 [] [].
Definition ann : UserModel := mkUser 1 (go "sa-1") true (go "ann").



(** An administrator deletes a dev space. *)
Lemma space_changes_authorized_witness :
  (exists cu cl, cu ∈ rows demo_tables /\ s_ID cu = 2%Z /\ cluster_of demo_env (s_ClusterId cu) = Some cl /\
    may demo_env ann (DoDelete 2) cu cl /\ s_Protected cu = false) /\
  base_row_ ∈ rows (st_tables (fst (run_op demo_env (go "now") (demo_mesh true) demo_randoms (fun _ => []) ann (DoDelete 2)
    (mkSt demo_tables (demo_cluster []))))).
Proof.
  destruct (space_changes_authorized demo_env (go "now") (demo_mesh true) demo_randoms (fun _ => []) ann (DoDelete 2)
    (mkSt demo_tables (demo_cluster []))) as [H1 H2]; [reflexivity|discriminate| |].
  - intros [E _]. apply (f_equal length) in E. vm_compute in E. discriminate E.
  - split; [exact H1|]. apply (H2 2%Z eq_refl).
    + apply (bool_decide_eq_true_1 _). reflexivity.
    + split; [left|split; discriminate].
Defined.

(** A dev space is created in an empty table. *)
Lemma table_consistent_witness :
  tables_ok (st_tables (fst (demo_create []))) /\ s_SpaceName <$> rows (st_tables (fst (demo_create []))) = [go "space"].
Proof.
  split; [|vm_compute; reflexivity]. apply (table_consistent (demo_state [])).
  - constructor; cbn; [apply NoDup_nil_2|by intros ? ?%elem_of_nil|lia|apply NoDup_nil_2|apply NoDup_nil_2|by intros ? ?%elem_of_nil].
  - reflexivity.
  - apply rtc_once. apply step_create.
Defined.
End runs.
