(* ===== verification/ControlPlane.v ===== *)
(** * The control plane of the traffic mesh

    [nocalhost-control-plane] runs beside the workloads of a namespace and tells
    the Envoy sidecars that dev mode puts into pods where requests go: requests
    that carry the header of a developer to the developer's pods, others as
    before.  This file models [resource/processor.go] and [resource/resource.go],
    the readiness test of [pkg/util/util.go], and what they use of the vendored
    [go-control-plane] (snapshots, their consistency, the snapshot cache) and of
    client-go's filtering event handler.  Pods carry the annotations that [DevPod]
    puts on templates.  The list of pods is asked for anew by each run of [parse];
    it is an argument, as are the time, which is only the version of a snapshot,
    and the orders in which Go visits the map of developers, a new one in each
    loop.  Open watches of Envoys and log messages are not modelled. *)

From stdpp Require Import sorting.
From S2P Require Import Prelude GoStrings DevPod.

Local Open Scope Z_scope.

(** ** Pods *)

Section control_plane.
Context `{!Quantities}.

Record MeshPod := mkMeshPod {
  mp_Name : gostring;
  mp_Annotations : option (gmap gostring gostring);
  mp_Deleting : bool;
  mp_Containers : list Container;
  mp_PodIP : gostring;
  mp_Conditions : list (gostring * gostring)
}.

(** Reading a key of a map that may be nil. *)
Definition annotation (pod : MeshPod) (key : gostring) : gostring :=
  default [] (mp_Annotations pod ≫= lookup key).

Definition GetPodConditionFromList (conditions : list (gostring * gostring)) (conditionType : gostring) :
    option (gostring * gostring) :=
  List.find (fun c => bool_decide (fst c = conditionType)) conditions.

Definition IsPodReady (pod : MeshPod) : bool :=
  match GetPodConditionFromList (mp_Conditions pod) (go "Ready") with
  | Some c => bool_decide (snd c = go "True")
  | None => false
  end.

(** ** Resources of Envoy ([resource.go]) *)

Definition ListenerAddress : gostring := go "0.0.0.0".
Definition PassthroughCluster : gostring := go "PassthroughCluster".

Record HttpConnectionManager := mkHcm {
  hcm_StatPrefix : gostring;
  HttpFilters : list gostring;
  UpgradeConfigs : list gostring;
  RouteConfigName : gostring
}.

Inductive Filter :=
  | HTTPConnectionManager (config : HttpConnectionManager)
  | TCPProxy (statPrefix cluster : gostring).

Record FilterChain := mkChain {
  ApplicationProtocols : list gostring;
  Filters : list Filter
}.

Record Listener := mkListener {
  l_Name : gostring;
  BindToPort : bool;
  l_Address : gostring;
  PortValue : Z;
  ListenerFilters : list gostring;
  FilterChains : list FilterChain
}.

Definition buildListener (name : gostring) (port : Z) : Listener :=
  let httpManager := mkHcm (go "http")
    [go "envoy.filters.http.grpc_web"; go "envoy.filters.http.cors"; go "envoy.filters.http.router"]
    [go "websocket"] name in
  mkListener name false ListenerAddress port [go "envoy.filters.listener.http_inspector"]
    [mkChain [go "http/1.0"; go "http/1.1"; go "h2c"] [HTTPConnectionManager httpManager];
     mkChain [] [TCPProxy (go "tcp") PassthroughCluster]].

Inductive DiscoveryType := EDS | OtherDiscovery.

Record Cluster := mkCluster {
  cl_Name : gostring;
  ConnectTimeout : Z;
  ClusterDiscoveryType : DiscoveryType;
  EdsServiceName : gostring;
  ProtocolOptions : list gostring
}.

(** The timeout is in seconds; the EDS configuration names no service. *)
Definition buildCluster (name : gostring) : Cluster :=
  mkCluster name 5 EDS [] [go "envoy.extensions.upstreams.http.v3.HttpProtocolOptions"].

Record HeaderMatcher := mkMatcher {
  hm_Name : gostring;
  Exact : gostring
}.

Record Route := mkRoute {
  Prefix : gostring;
  Headers : list HeaderMatcher;
  r_Cluster : gostring
}.

Definition ToRoute `{!MapOrder gostring} (clusterName : gostring) (headers : gmap gostring gostring) : Route :=
  mkRoute (go "/") (foldl (fun r '(k, v) => r ++ [mkMatcher k v]) [] (range headers)) clusterName.

Definition defaultRoute (clusterName : gostring) : Route := mkRoute (go "/") [] clusterName.

Record VirtualHost := mkHost {
  vh_Name : gostring;
  Domains : list gostring;
  Routes : list Route
}.

Record RouteConfiguration := mkRouteConf {
  rc_Name : gostring;
  VirtualHosts : list VirtualHost
}.

(** The endpoints of each locality: address and port. *)
Record ClusterLoadAssignment := mkAssignment {
  ClusterName : gostring;
  Endpoints : list (list (gostring * Z))
}.

Definition buildEndpoint (clusterName : gostring) (address : list gostring) (port : Z) : ClusterLoadAssignment :=
  mkAssignment clusterName [foldl (fun l add => l ++ [(add, port)]) [] address].

(** ** Snapshots ([go-control-plane]) *)

Record Snapshot := mkSnapshot {
  sn_Version : gostring;
  sn_Listeners : gmap gostring Listener;
  sn_Routes : gmap gostring RouteConfiguration;
  sn_Clusters : gmap gostring Cluster;
  sn_Endpoints : gmap gostring ClusterLoadAssignment
}.

(** [GetResourceName] of the type is an argument. *)
Definition IndexResourcesByName {A : Type} (name : A -> gostring) (items : list A) : gmap gostring A :=
  foldl (fun indexed item => <[name item := item]> indexed) ∅ items.

Record resources := mkRes {
  listeners : list Listener;
  routers : list RouteConfiguration;
  clusters : list Cluster;
  endpoints : list ClusterLoadAssignment
}.

(** Its four types are known, so that it does not fail. *)
Definition NewSnapshot (version : gostring) (r : resources) : Snapshot :=
  mkSnapshot version (IndexResourcesByName l_Name (listeners r)) (IndexResourcesByName rc_Name (routers r))
    (IndexResourcesByName cl_Name (clusters r)) (IndexResourcesByName ClusterName (endpoints r)).

(** [getClusterReferences] and [getListenerReferences]. *)
Definition getClusterReferences (c : Cluster) : gset gostring :=
  match ClusterDiscoveryType c with
  | EDS => if bool_decide (EdsServiceName c <> []) then {[EdsServiceName c]} else {[cl_Name c]}
  | OtherDiscovery => ∅
  end.

Definition filter_reference (f : Filter) : gset gostring :=
  match f with HTTPConnectionManager config => {[RouteConfigName config]} | TCPProxy _ _ => ∅ end.

Definition getListenerReferences (l : Listener) : gset gostring :=
  ⋃ (filter_reference <$> (FilterChains l ≫= Filters)).

(** [superset] and the comparison of the sizes; endpoints and routes are the types
    that others refer to. *)
Definition listed {A : Type} (names : gset gostring) (items : gmap gostring A) : bool :=
  bool_decide (size names = size items) && bool_decide (dom items ⊆ names).

Definition Consistent (s : Snapshot) : bool :=
  listed (⋃ (getClusterReferences <$> (map_to_list (sn_Clusters s)).*2)) (sn_Endpoints s) &&
  listed (⋃ (getListenerReferences <$> (map_to_list (sn_Listeners s)).*2)) (sn_Routes s).

(** The snapshots of the cache by node, which is the name of a pod. *)
Definition Cache : Type := gmap gostring Snapshot.

Definition SetSnapshot (node : gostring) (s : Snapshot) (c : Cache) : Cache := <[node := s]> c.
Definition ClearSnapshot (node : gostring) (c : Cache) : Cache := delete node c.

(** ** Mesh information ([processor.go]) *)

Record headerPair := mkPair {
  headerKey : gostring;
  headerVal : gostring
}.

#[export] Instance headerPair_eq_dec : EqDecision headerPair.
Proof. solve_decision. Defined.
#[export] Instance headerPair_countable : Countable headerPair.
Proof.
  refine (inj_countable' (fun h => (headerKey h, headerVal h)) (fun '(k, v) => mkPair k v) _). by intros [].
Defined.

Record routeInfo := mkInfo {
  ri_name : gset gostring;
  ri_port : gset Z;
  ri_endpoints : gset gostring
}.

Record meshInfo := mkMeshInfo {
  mi_uuid : gostring;
  mi_dev : gmap headerPair routeInfo;
  mi_origin : routeInfo
}.

Definition MeshDevType : gostring := go "dev".
Definition MeshOriginType : gostring := go "origin".

(** One pod of [listPods]: appended to the pods of its type. *)
Definition list_pod (uuid : gostring) (acc : list MeshPod * list MeshPod) (pod : MeshPod) : list MeshPod * list MeshPod :=
  let '(devPods, originPods) := acc in
  if bool_decide (is_Some (mp_Annotations pod)) && bool_decide (annotation pod AnnotationMeshUuid = uuid) then
    let devPods := if bool_decide (annotation pod AnnotationMeshType = MeshDevType) then devPods ++ [pod] else devPods in
    let originPods := if bool_decide (annotation pod AnnotationMeshType = MeshOriginType) then originPods ++ [pod] else originPods in
    (devPods, originPods)
  else (devPods, originPods).

Definition listPods (uuid : gostring) (pods : list MeshPod) : list MeshPod * list MeshPod :=
  foldl (list_pod uuid) ([], []) pods.

Definition pod_ports (pod : MeshPod) : gset Z := list_to_set (mp_Containers pod ≫= pc_Ports).

Definition pod_headers (pod : MeshPod) : headerPair :=
  mkPair (annotation pod AnnotationMeshHeaderKey) (annotation pod AnnotationMeshHeaderValue).

Definition insert_pod (v : routeInfo) (pod : MeshPod) : routeInfo :=
  mkInfo ({[mp_Name pod]} ∪ ri_name v) (pod_ports pod ∪ ri_port v) ({[mp_PodIP pod]} ∪ ri_endpoints v).

Definition no_info : routeInfo := mkInfo ∅ ∅ ∅.

Definition add_dev (dev : gmap headerPair routeInfo) (pod : MeshPod) : gmap headerPair routeInfo :=
  if mp_Deleting pod then dev
  else
    let h := pod_headers pod in
    match dev !! h with
    | Some v => <[h := insert_pod v pod]> dev
    | None => <[h := mkInfo {[mp_Name pod]} (pod_ports pod) {[mp_PodIP pod]}]> dev
    end.

Definition add_origin (origin : routeInfo) (pod : MeshPod) : routeInfo :=
  if mp_Deleting pod then origin else insert_pod origin pod.

Definition getMeshInfo (uuid : gostring) (pods : list MeshPod) : meshInfo :=
  let '(devPods, originPods) := listPods uuid pods in
  mkMeshInfo uuid (foldl add_dev ∅ devPods) (foldl add_origin no_info originPods).

(** ** Parsing *)

(** The time as a text, and the orders in which [parse] visits the developers: in
    its second loop, and for a pod and a port. *)
Record Run := mkRun {
  now : gostring -> gostring;
  order : MapOrder headerPair;
  order_at : gostring -> Z -> MapOrder headerPair
}.

(** [sets.Int32]'s sorted [List] and the conversion of an [int32] to [uint32]. *)
Definition int_list (s : gset Z) : list Z := merge_sort Z.le (elements s).
Definition uint32 (port : Z) : Z := wrap32 port.

Definition unique (name : gostring) (port : Z) : gostring := name ++ go "-" ++ Itoa port.
Definition headerPort (p : headerPair) (port : Z) : gostring :=
  headerKey p ++ go "-" ++ headerVal p ++ go "-" ++ Itoa port.

Section parse.
Context `{!MapOrder gostring}.

Definition add_cluster (r : resources) (name : gostring) (address : list gostring) (port : Z) : resources :=
  mkRes (listeners r) (routers r) (clusters r ++ [buildCluster name]) (endpoints r ++ [buildEndpoint name address (uint32 port)]).

(** The body of the loop over the developers. *)
Definition add_pair (port : Z) (acc : resources * list Route) (dev : headerPair * routeInfo) : resources * list Route :=
  let '(r, rr) := acc in
  let '(p, routes) := dev in
  let name := headerPort p port in
  (add_cluster r name (set_list (ri_endpoints routes)) port,
   rr ++ [ToRoute name {[headerKey p := headerVal p]}]).

Definition add_listener (r : resources) (name : gostring) (port : Z) : resources :=
  mkRes (listeners r ++ [buildListener name (uint32 port)]) (routers r) (clusters r) (endpoints r).

Definition add_router (r : resources) (name : gostring) (rr : list Route) : resources :=
  mkRes (listeners r) (routers r ++ [mkRouteConf name [mkHost (go "local_service") [go "*"] rr]]) (clusters r) (endpoints r).

(** The body of the loop over the ports, for a pod of the original workload and for
    one of a developer. *)
Definition origin_port (run : Run) (info : meshInfo) (name : gostring) (r : resources) (port : Z) : resources :=
  let r := add_listener r (unique name port) port in
  let '(r, rr) := foldl (add_pair port) (r, []) (@range _ _ _ (order_at run name port) _ (mi_dev info)) in
  add_router r (unique name port) (rr ++ [defaultRoute PassthroughCluster]).

Definition dev_port (run : Run) (info : meshInfo) (name : gostring) (r : resources) (port : Z) : resources :=
  let r := add_listener r (unique name port) port in
  let '(r, rr) := foldl (add_pair port) (r, []) (@range _ _ _ (order_at run name port) _ (mi_dev info)) in
  let r := add_cluster r (go "origin") (set_list (ri_endpoints (mi_origin info))) port in
  add_router r (unique name port) (rr ++ [defaultRoute (go "origin")]).

Definition no_resources : resources := mkRes [] [] [] [].

Definition origin_snapshot (run : Run) (info : meshInfo) (name : gostring) : Snapshot :=
  NewSnapshot (now run name) (foldl (origin_port run info name) no_resources (int_list (ri_port (mi_origin info)))).

Definition dev_snapshot (run : Run) (info : meshInfo) (r : routeInfo) (name : gostring) : Snapshot :=
  NewSnapshot (now run name) (foldl (dev_port run info name) no_resources (int_list (ri_port r))).

(** [pods] is the answer to the request for the list of pods. *)
Definition parse (run : Run) (pods : option (list MeshPod)) (uuid : gostring) (c : Cache) : Cache * bool :=
  match pods with
  | None => (c, false)
  | Some pods =>
      let info := getMeshInfo uuid pods in
      let c := foldl (fun c name => SetSnapshot name (origin_snapshot run info name) c) c (set_list (ri_name (mi_origin info))) in
      let c := foldl (fun c '(_, r) =>
        foldl (fun c name => SetSnapshot name (dev_snapshot run info r name) c) c (set_list (ri_name r)))
        c (@range _ _ _ (order run) _ (mi_dev info)) in
      (c, true)
  end.

(** ** Event handlers *)

(** What the informer hands to the handlers: a pod, or the key of one whose
    deletion it missed. *)
Inductive object :=
  | PodObject (pod : MeshPod)
  | DeletedFinalStateUnknown (key : gostring).

Definition FilterFunc (obj : object) : bool :=
  match obj with
  | PodObject t => bool_decide (is_Some (mp_Annotations t)) && bool_decide (annotation t AnnotationMeshEnable = go "true")
  | DeletedFinalStateUnknown _ => false
  end.

Definition parse_pod (run : Run) (pods : option (list MeshPod)) (pod : MeshPod) (c : Cache) : Cache :=
  if IsPodReady pod then fst (parse run pods (annotation pod AnnotationMeshUuid) c) else c.

(** The handlers' type assertion fails for anything but a pod, which the filter
    keeps from them. *)
Definition AddFunc (run : Run) (pods : option (list MeshPod)) (obj : object) (c : Cache) : outcome Cache :=
  match obj with PodObject pod => Done (parse_pod run pods pod c) | DeletedFinalStateUnknown _ => Panic end.

Definition UpdateFunc (run : Run) (pods : option (list MeshPod)) (oldObj newObj : object) (c : Cache) : outcome Cache :=
  match newObj with PodObject pod => Done (parse_pod run pods pod c) | DeletedFinalStateUnknown _ => Panic end.

Definition DeleteFunc (run : Run) (pods : option (list MeshPod)) (obj : object) (c : Cache) : outcome Cache :=
  match obj with
  | PodObject pod =>
      if IsPodReady pod then
        Done (fst (parse run pods (annotation pod AnnotationMeshUuid) (ClearSnapshot (mp_Name pod) c)))
      else Done c
  | DeletedFinalStateUnknown _ => Panic
  end.

Inductive event :=
  | Added (obj : object)
  | Updated (oldObj newObj : object)
  | Deleted (obj : object).

(** [FilteringResourceEventHandler]. *)
Definition OnAdd (run : Run) (pods : option (list MeshPod)) (obj : object) (c : Cache) : outcome Cache :=
  if FilterFunc obj then AddFunc run pods obj c else Done c.

Definition OnUpdate (run : Run) (pods : option (list MeshPod)) (oldObj newObj : object) (c : Cache) : outcome Cache :=
  match FilterFunc newObj, FilterFunc oldObj with
  | true, true => UpdateFunc run pods oldObj newObj c
  | true, false => AddFunc run pods newObj c
  | false, true => DeleteFunc run pods oldObj c
  | false, false => Done c
  end.

Definition OnDelete (run : Run) (pods : option (list MeshPod)) (obj : object) (c : Cache) : outcome Cache :=
  if FilterFunc obj then DeleteFunc run pods obj c else Done c.

Definition handle (run : Run) (pods : option (list MeshPod)) (e : event) (c : Cache) : outcome Cache :=
  match e with
  | Added obj => OnAdd run pods obj c
  | Updated oldObj newObj => OnUpdate run pods oldObj newObj c
  | Deleted obj => OnDelete run pods obj c
  end.

(** The informer calls the handlers one after another; what each is answered when
    it lists the pods goes with the event. *)
Fixpoint handle_all (l : list (Run * option (list MeshPod) * event)) (c : Cache) : outcome Cache :=
  match l with
  | [] => Done c
  | (run, pods, e) :: l => (c <~ handle run pods e c; handle_all l c)%go
  end.
End parse.
End control_plane.
