(* ===== verification/ControlPlaneThms.v ===== *)
(** * Theorems on the control plane of the traffic mesh

    Where a sidecar sends a request, read off the snapshot it is given: [deliver]
    follows the documented meaning of Envoy's resources, and [serves] says what the
    mesh of an application promises of each pod.  Shown are the routing after a run
    of [parse], that a resync brings every mesh there, the composition with the
    annotations of dev mode ([DevPod]), and that every snapshot ever stored is
    consistent. *)

From stdpp Require Import sorting.
From S2P Require Import Prelude GoStrings DevPod ControlPlane.

Local Open Scope Z_scope.

(** ** Inserting the items of a list by key *)

Section filter_one.
Context {A : Type} (P : A -> Prop) `{!forall x, Decision (P x)}.

Lemma filter_snoc_in (l : list A) x : P x -> filter P (l ++ [x]) = filter P l ++ [x].
Proof. intros Hx. rewrite filter_app. by rewrite (filter_cons_True P x []). Qed.

Lemma filter_snoc_out (l : list A) x : ~ P x -> filter P (l ++ [x]) = filter P l.
Proof. intros Hx. rewrite filter_app. rewrite (filter_cons_False P x []) by done. apply app_nil_r. Qed.
End filter_one.

Section insert_all.
Context {A V : Type} (key : A -> gostring) (val : A -> V).
Implicit Types (l : list A) (m : gmap gostring V).

Definition insert_all m l : gmap gostring V := foldl (fun m x => <[key x := val x]> m) m l.

(** The last item of a key wins. *)
Lemma insert_all_lookup m l k :
  insert_all m l !! k = match last (filter (fun x => key x = k) l) with Some x => Some (val x) | None => m !! k end.
Proof.
  unfold insert_all. induction l as [|x l IH] using rev_ind; [done|]. rewrite foldl_snoc.
  destruct (decide (key x = k)) as [<-|Hne].
  - rewrite filter_snoc_in, last_snoc by done. apply lookup_insert_eq.
  - rewrite filter_snoc_out, lookup_insert_ne by done. apply IH.
Qed.

Lemma insert_all_in m l x :
  x ∈ l -> (forall y, y ∈ l -> key y = key x -> val y = val x) -> insert_all m l !! key x = Some (val x).
Proof.
  intros Hx Hu. rewrite insert_all_lookup. destruct (last _) as [y|] eqn:E.
  - apply last_Some_elem_of in E. apply list_elem_of_filter in E as [Hk Hy]. f_equal. by apply Hu.
  - apply last_None in E. assert (x ∈ filter (fun y => key y = key x) l) as Hin by (by apply list_elem_of_filter).
    rewrite E in Hin. by apply elem_of_nil in Hin.
Qed.

Lemma insert_all_out m l k : (forall y, y ∈ l -> key y <> k) -> insert_all m l !! k = m !! k.
Proof. intros Hk. rewrite insert_all_lookup, filter_none; [done|]. intros x Hx. by apply Hk. Qed.

Lemma insert_all_Some m l k v : insert_all m l !! k = Some v -> m !! k = Some v \/ exists x, x ∈ l /\ key x = k /\ val x = v.
Proof.
  rewrite insert_all_lookup. destruct (last _) as [x|] eqn:E; [|by left].
  intros [= <-]. right. apply last_Some_elem_of, list_elem_of_filter in E as [? ?]. eauto.
Qed.

Lemma dom_insert_all m l : dom (insert_all m l) = list_to_set (key <$> l) ∪ dom m.
Proof.
  unfold insert_all. induction l as [|x l IH] using rev_ind; cbn; [set_solver|].
  rewrite foldl_snoc, dom_insert_L, IH, fmap_app, list_to_set_app_L. cbn. set_solver.
Qed.
End insert_all.

Lemma index_insert_all {A : Type} (name : A -> gostring) (l : list A) :
  IndexResourcesByName name l = insert_all name (fun x => x) ∅ l.
Proof. done. Qed.

(** ** Names of clusters and listeners *)

(** The text after the last dash is the port. *)
Lemma last_dash (a b x y : gostring) (c : ascii) : c ∉ x -> c ∉ y -> a ++ [c] ++ x = b ++ [c] ++ y -> a = b /\ x = y.
Proof.
  intros Hx Hy. revert b. induction a as [|u a IH]; intros [|v b]; cbn; intros E; injection E; clear E; intros; subst.
  - done.
  - destruct Hx. apply elem_of_app. right. left.
  - destruct Hy. apply elem_of_app. right. left.
  - by edestruct IH as [-> ->].
Qed.

Definition valid_port (q : Z) : Prop := 0 < q < 65536.

Lemma port_no_dash q : valid_port q -> "-"%char ∉ Itoa q.
Proof.
  intros [Hq _] Hin. unfold Itoa in Hin. destruct (Z.ltb_spec q 0); [lia|]. apply digits_bytes in Hin as (d & Hd & E); [|lia].
  apply digit_char_range in Hd. rewrite <- E in Hd. vm_compute in Hd. by destruct Hd.
Qed.

Lemma port_text_inj q q' : valid_port q -> valid_port q' -> Itoa q = Itoa q' -> q = q'.
Proof. unfold valid_port. intros ? ?. apply Itoa_inj; unfold in_int64, int64_min, int64_max; lia. Qed.

Lemma uint32_port q : valid_port q -> uint32 q = q.
Proof. unfold valid_port, uint32, wrap32. intros ?. apply Z.mod_small. lia. Qed.

Lemma headerPort_inj p p' q q' : valid_port q -> valid_port q' -> headerPort p q = headerPort p' q' ->
  headerKey p ++ go "-" ++ headerVal p = headerKey p' ++ go "-" ++ headerVal p' /\ q = q'.
Proof.
  unfold headerPort. intros Hq Hq'. change (go "-") with ["-"%char]. rewrite !app_assoc.
  rewrite <- (app_assoc _ ["-"%char] (Itoa q)), <- (app_assoc _ ["-"%char] (Itoa q')).
  intros [E1 E2]%last_dash; [|by apply port_no_dash..]. split; [done|by apply port_text_inj].
Qed.

Lemma unique_inj name q q' : valid_port q -> valid_port q' -> unique name q = unique name q' -> q = q'.
Proof. unfold unique. intros ? ? E%app_inv_head%app_inv_head. by apply port_text_inj. Qed.

Lemma headerPort_dash p q : "-"%char ∈ headerPort p q.
Proof. unfold headerPort. apply elem_of_app. right. apply elem_of_app. left. left. Qed.

Lemma headerPort_not p q (n : gostring) : "-"%char ∉ n -> headerPort p q <> n.
Proof. intros Hn <-. by apply Hn, headerPort_dash. Qed.

Lemma passthrough_plain : "-"%char ∉ PassthroughCluster.
Proof. vm_compute. set_solver. Qed.

Lemma origin_plain : "-"%char ∉ go "origin".
Proof. vm_compute. set_solver. Qed.

(** ** The information on a mesh *)

Section mesh_info.
Context `{!Quantities}.
Implicit Types (pods l : list MeshPod) (pod : MeshPod).

Definition in_mesh (uuid type : gostring) pod : Prop :=
  is_Some (mp_Annotations pod) /\ annotation pod AnnotationMeshUuid = uuid /\ annotation pod AnnotationMeshType = type.

#[export] Instance in_mesh_dec uuid type pod : Decision (in_mesh uuid type pod).
Proof. unfold in_mesh. apply _. Defined.

Definition live pod : Prop := mp_Deleting pod = false.

(** The pods of a developer and of the original workload that are not being deleted. *)
Definition dev_pods uuid pods : list MeshPod := filter live (filter (in_mesh uuid MeshDevType) pods).
Definition origin_pods uuid pods : list MeshPod := filter live (filter (in_mesh uuid MeshOriginType) pods).
Definition with_headers h l : list MeshPod := filter (fun pod => pod_headers pod = h) l.

Definition addresses l : gset gostring := list_to_set (mp_PodIP <$> l).
Definition ports l : gset Z := ⋃ (pod_ports <$> l).
Definition info_of l : routeInfo := mkInfo (list_to_set (mp_Name <$> l)) (ports l) (addresses l).

Lemma listPods_eq uuid pods :
  listPods uuid pods = (filter (in_mesh uuid MeshDevType) pods, filter (in_mesh uuid MeshOriginType) pods).
Proof.
  assert (forall type pod l, filter (in_mesh uuid type) (l ++ [pod]) =
    if bool_decide (is_Some (mp_Annotations pod)) && bool_decide (annotation pod AnnotationMeshUuid = uuid)
    then if bool_decide (annotation pod AnnotationMeshType = type)
         then filter (in_mesh uuid type) l ++ [pod] else filter (in_mesh uuid type) l
    else filter (in_mesh uuid type) l) as Hf.
  { intros type pod l. destruct (decide (in_mesh uuid type pod)) as [Hm|Hm].
    - rewrite filter_snoc_in by done. destruct Hm as (? & ? & ?). by rewrite !bool_decide_eq_true_2.
    - rewrite filter_snoc_out by done. unfold in_mesh in Hm. repeat case_bool_decide; tauto. }
  unfold listPods. induction pods as [|pod pods IH] using rev_ind; [done|].
  rewrite foldl_snoc, IH, !Hf. unfold list_pod. by destruct (_ && _).
Qed.

Lemma info_snoc l pod : insert_pod (info_of l) pod = info_of (l ++ [pod]).
Proof.
  unfold insert_pod, info_of, ports, addresses. cbn. rewrite !fmap_app, !list_to_set_app_L, union_list_app_L. cbn.
  rewrite !union_empty_r_L. f_equal; by rewrite (union_comm_L _ {[_]}) || rewrite (union_comm_L (⋃ _)).
Qed.

Lemma origin_info l : foldl add_origin no_info l = info_of (filter live l).
Proof.
  induction l as [|pod l IH] using rev_ind; [done|]. rewrite foldl_snoc, IH. unfold add_origin.
  destruct (mp_Deleting pod) eqn:E.
  - by rewrite filter_snoc_out by (unfold live; by rewrite E).
  - rewrite filter_snoc_in by done. apply info_snoc.
Qed.

Definition some_info l : option routeInfo := match l with [] => None | _ => Some (info_of l) end.

Lemma some_info_snoc l pod : some_info (l ++ [pod]) = Some (info_of (l ++ [pod])).
Proof. by destruct l. Qed.

Lemma add_dev_live dev pod : live pod ->
  add_dev dev pod = <[pod_headers pod := insert_pod (default no_info (dev !! pod_headers pod)) pod]> dev.
Proof.
  intros Hl. unfold add_dev. rewrite Hl. destruct (dev !! _) as [v|] eqn:E; cbn; [done|].
  f_equal. unfold insert_pod. cbn. by rewrite !union_empty_r_L.
Qed.

Lemma default_some_info l : default no_info (some_info l) = info_of l.
Proof. by destruct l. Qed.

Lemma dev_info l h : foldl add_dev ∅ l !! h = some_info (with_headers h (filter live l)).
Proof.
  revert h. induction l as [|pod l IH] using rev_ind; intros h; [done|]. rewrite foldl_snoc.
  destruct (mp_Deleting pod) eqn:E.
  { rewrite filter_snoc_out by (unfold live; by rewrite E). unfold add_dev. by rewrite E. }
  rewrite filter_snoc_in by done. rewrite add_dev_live, IH, default_some_info, info_snoc by done.
  unfold with_headers. destruct (decide (pod_headers pod = h)) as [<-|Hne].
  - by rewrite lookup_insert_eq, filter_snoc_in, some_info_snoc by done.
  - by rewrite lookup_insert_ne, filter_snoc_out by done.
Qed.

Lemma mesh_info uuid pods :
  mi_origin (getMeshInfo uuid pods) = info_of (origin_pods uuid pods) /\
  forall h, mi_dev (getMeshInfo uuid pods) !! h = some_info (with_headers h (dev_pods uuid pods)).
Proof. unfold getMeshInfo. rewrite listPods_eq. cbn. split; [apply origin_info|]. intros h. apply dev_info. Qed.
End mesh_info.

(** ** The resources of a pod *)

Section snapshots.
Context `{!MapOrder gostring}.
Implicit Types (l : list (headerPair * routeInfo)) (q : Z) (r : resources) (extra : list (gostring * list gostring)).

(** The clusters of a port with their addresses: one for each developer, and those
    that are given. *)
Definition destinations extra l q : list (gostring * list gostring) :=
  ((fun d => (headerPort d.1 q, set_list (ri_endpoints d.2))) <$> l) ++ extra.

Definition dev_routes (dflt : gostring) l q : list Route :=
  ((fun d => ToRoute (headerPort d.1 q) {[headerKey d.1 := headerVal d.1]}) <$> l) ++ [defaultRoute dflt].

Definition route_conf (name : gostring) (rr : list Route) : RouteConfiguration :=
  mkRouteConf name [mkHost (go "local_service") [go "*"] rr].

(** What the loops over the ports collect. *)
Definition flat (devs : Z -> list (headerPair * routeInfo)) extra (dflt name : gostring) (qs : list Z) : resources :=
  mkRes ((fun q => buildListener (unique name q) (uint32 q)) <$> qs)
    ((fun q => route_conf (unique name q) (dev_routes dflt (devs q) q)) <$> qs)
    (qs ≫= fun q => (fun d => buildCluster d.1) <$> destinations extra (devs q) q)
    (qs ≫= fun q => (fun d => buildEndpoint d.1 d.2 (uint32 q)) <$> destinations extra (devs q) q).

Definition res_app r1 r2 : resources :=
  mkRes (listeners r1 ++ listeners r2) (routers r1 ++ routers r2) (clusters r1 ++ clusters r2) (endpoints r1 ++ endpoints r2).

Lemma add_pairs q l r rr :
  foldl (add_pair q) (r, rr) l =
  (mkRes (listeners r) (routers r)
     (clusters r ++ ((fun d => buildCluster d.1) <$> destinations [] l q))
     (endpoints r ++ ((fun d => buildEndpoint d.1 d.2 (uint32 q)) <$> destinations [] l q)),
   rr ++ ((fun d => ToRoute (headerPort d.1 q) {[headerKey d.1 := headerVal d.1]}) <$> l)).
Proof.
  revert r rr. induction l as [|[p i] l IH]; intros r rr; cbn.
  - rewrite !app_nil_r. by destruct r.
  - rewrite IH. cbn. by rewrite <- !app_assoc.
Qed.

(** One round of either loop is that of [flat] for one port. *)
Lemma origin_port_flat run info name r q :
  origin_port run info name r q =
  res_app r (flat (fun q => @range _ _ _ (order_at run name q) _ (mi_dev info)) [] PassthroughCluster name [q]).
Proof.
  unfold origin_port. rewrite add_pairs. unfold add_router, add_listener, res_app, flat. cbn. by rewrite !app_nil_r.
Qed.

Lemma dev_port_flat run info name r q :
  dev_port run info name r q =
  res_app r (flat (fun q => @range _ _ _ (order_at run name q) _ (mi_dev info))
    [(go "origin", set_list (ri_endpoints (mi_origin info)))] (go "origin") name [q]).
Proof.
  unfold dev_port. rewrite add_pairs. unfold add_router, add_cluster, add_listener, res_app, flat, destinations. cbn.
  by rewrite !app_nil_r, !fmap_app, <- !app_assoc.
Qed.

Lemma flat_loop devs extra dflt name (step : resources -> Z -> resources) r qs :
  (forall r q, step r q = res_app r (flat devs extra dflt name [q])) ->
  foldl step r qs = res_app r (flat devs extra dflt name qs).
Proof.
  intros Hs. revert r. induction qs as [|q qs IH]; intros r; cbn.
  - unfold res_app, flat. cbn. rewrite !app_nil_r. by destruct r.
  - rewrite IH, Hs. unfold res_app, flat. cbn. by rewrite !app_nil_r, <- !app_assoc.
Qed.

Lemma no_resources_app r : res_app no_resources r = r.
Proof. by destruct r. Qed.

Lemma origin_flat run info name qs :
  foldl (origin_port run info name) no_resources qs =
  flat (fun q => @range _ _ _ (order_at run name q) _ (mi_dev info)) [] PassthroughCluster name qs.
Proof. rewrite <- no_resources_app. apply flat_loop. intros. apply origin_port_flat. Qed.

Lemma dev_flat run info name qs :
  foldl (dev_port run info name) no_resources qs =
  flat (fun q => @range _ _ _ (order_at run name q) _ (mi_dev info))
    [(go "origin", set_list (ri_endpoints (mi_origin info)))] (go "origin") name qs.
Proof. rewrite <- no_resources_app. apply flat_loop. intros. apply dev_port_flat. Qed.

Lemma ToRoute_single name (k v : gostring) : ToRoute name {[k := v]} = mkRoute (go "/") [mkMatcher k v] name.
Proof.
  unfold ToRoute. pose proof (range_perm (K := gostring) {[k := v]}) as Hp. rewrite map_to_list_singleton in Hp.
  apply Permutation_singleton_r in Hp. by rewrite Hp.
Qed.

Lemma buildEndpoint_eq name (address : list gostring) q : buildEndpoint name address q = mkAssignment name [(fun ip => (ip, q)) <$> address].
Proof.
  unfold buildEndpoint. do 2 f_equal. pose proof (foldl_app_bind address (fun ip => [(ip, q)]) []) as E. cbn in E. rewrite E.
  clear E. induction address as [|a l IH]; [done|]. cbn. by rewrite IH.
Qed.

(** ** Consistency *)

Lemma listed_dom {A B : Type} (m : gmap gostring A) (m' : gmap gostring B) : dom m = dom m' -> listed (dom m) m' = true.
Proof. intros E. unfold listed. rewrite E. by rewrite !bool_decide_eq_true_2 by (done || by rewrite size_dom). Qed.

Lemma references_dom {A : Type} (refs : A -> gset gostring) (m : gmap gostring A) :
  (forall k x, m !! k = Some x -> refs x = {[k]}) -> ⋃ (refs <$> (map_to_list m).*2) = dom m.
Proof.
  intros Hr. apply set_eq. intros k. rewrite elem_of_union_list, elem_of_dom. split.
  - intros (X & HX & Hk). apply list_elem_of_fmap in HX as (x & -> & Hx). apply list_elem_of_fmap in Hx as ([k' x'] & -> & Hx).
    cbn in Hk. apply elem_of_map_to_list in Hx. rewrite (Hr _ _ Hx) in Hk. apply elem_of_singleton in Hk as ->. eauto.
  - intros [x Hx]. exists (refs x). split; [|rewrite (Hr _ _ Hx); set_solver].
    apply list_elem_of_fmap. exists x. split; [done|]. apply list_elem_of_fmap. exists (k, x). split; [done|]. by apply elem_of_map_to_list.
Qed.

(** Every cluster that a route names is in the snapshot or is the sidecar's own. *)
Definition resolved (s : Snapshot) : Prop :=
  forall n conf host rt, sn_Routes s !! n = Some conf -> host ∈ VirtualHosts conf -> rt ∈ Routes host ->
    r_Cluster rt = PassthroughCluster \/ is_Some (sn_Clusters s !! r_Cluster rt).

Definition good_snapshot (s : Snapshot) : Prop := Consistent s = true /\ resolved s.

Lemma flat_consistent version devs extra dflt name qs : Consistent (NewSnapshot version (flat devs extra dflt name qs)) = true.
Proof.
  unfold Consistent, NewSnapshot, flat. cbn [sn_Clusters sn_Endpoints sn_Listeners sn_Routes listeners routers clusters endpoints].
  rewrite !index_insert_all. apply andb_true_iff. split; rewrite references_dom.
  - apply listed_dom. rewrite !dom_insert_all. do 2 f_equal.
    induction qs as [|q qs IH]; [done|]. rewrite !bind_cons, !fmap_app, IH. f_equal. by rewrite <- !list_fmap_compose.
  - intros k x [Hx|(y & Hy & <- & <-)]%insert_all_Some; [by rewrite lookup_empty in Hx|].
    apply list_elem_of_bind in Hy as (q & Hy & _). by apply list_elem_of_fmap in Hy as (d & -> & _).
  - apply listed_dom. rewrite !dom_insert_all. do 2 f_equal. by rewrite <- !list_fmap_compose.
  - intros k x [Hx|(y & Hy & <- & <-)]%insert_all_Some; [by rewrite lookup_empty in Hx|].
    apply list_elem_of_fmap in Hy as (q & -> & _). unfold getListenerReferences. cbn. set_solver.
Qed.

Lemma flat_cluster version devs extra dflt name qs q c :
  q ∈ qs -> c ∈ (destinations extra (devs q) q).*1 ->
  is_Some (sn_Clusters (NewSnapshot version (flat devs extra dflt name qs)) !! c).
Proof.
  intros Hq Hc. apply elem_of_dom. unfold NewSnapshot, flat. cbn [sn_Clusters clusters]. rewrite index_insert_all, dom_insert_all. apply elem_of_union_l, elem_of_list_to_set.
  apply list_elem_of_fmap in Hc as (d & -> & Hd'). apply list_elem_of_fmap. exists (buildCluster d.1). split; [done|].
  apply list_elem_of_bind. exists q. split; [|done]. apply list_elem_of_fmap. eauto.
Qed.

Lemma destinations_dev extra l q d : d ∈ l -> headerPort d.1 q ∈ (destinations extra l q).*1.
Proof.
  intros Hd. unfold destinations. rewrite fmap_app. apply elem_of_app. left. rewrite <- list_fmap_compose.
  apply list_elem_of_fmap. by exists d.
Qed.

Lemma flat_good version devs extra dflt name qs :
  dflt = PassthroughCluster \/ dflt ∈ extra.*1 -> good_snapshot (NewSnapshot version (flat devs extra dflt name qs)).
Proof.
  intros Hd. split; [apply flat_consistent|]. intros n conf host rt Hn Hh Hrt.
  unfold NewSnapshot, flat in Hn. cbn [sn_Routes routers] in Hn. rewrite index_insert_all in Hn.
  apply insert_all_Some in Hn as [Hn|(y & Hy & <- & <-)]; [by rewrite lookup_empty in Hn|].
  apply list_elem_of_fmap in Hy as (q & -> & Hq). apply list_elem_of_singleton in Hh as ->. cbn in Hrt.
  unfold dev_routes in Hrt. apply elem_of_app in Hrt as [Hrt|Hrt%list_elem_of_singleton].
  - apply list_elem_of_fmap in Hrt as (d & -> & Hd'). right. rewrite ToRoute_single. eapply flat_cluster; [done|].
    by apply destinations_dev.
  - subst rt. destruct Hd as [->|Hd]; [by left|]. right. eapply flat_cluster; [done|].
    unfold destinations. rewrite fmap_app. apply elem_of_app. by right.
Qed.
End snapshots.

(** ** What a sidecar does with a request *)

Section deliver.

(** The protocol the listener's inspector finds, the path and the headers by name. *)
Record request := mkRequest {
  rq_protocol : gostring;
  rq_path : gostring;
  rq_header : gostring -> option gostring
}.

(** Endpoints of the snapshot, or a cluster of the sidecar's own configuration. *)
Inductive target :=
  | ToEndpoints (l : list (gostring * Z))
  | ToCluster (name : gostring).

(** The chain that names the protocol, or else the one that names none. *)
Definition chain_for (rq : request) (l : Listener) : option FilterChain :=
  match List.find (fun c => bool_decide (rq_protocol rq ∈ ApplicationProtocols c)) (FilterChains l) with
  | Some c => Some c
  | None => List.find (fun c => bool_decide (ApplicationProtocols c = [])) (FilterChains l)
  end.

Definition header_matches (rq : request) (m : HeaderMatcher) : bool := bool_decide (rq_header rq (hm_Name m) = Some (Exact m)).

Definition route_matches (rq : request) (r : Route) : bool :=
  HasPrefix (rq_path rq) (Prefix r) && forallb (header_matches rq) (Headers r).

Definition cluster_target (s : Snapshot) (name : gostring) : target :=
  match sn_Clusters s !! name, sn_Endpoints s !! name with
  | Some _, Some a => ToEndpoints (concat (Endpoints a))
  | _, _ => ToCluster name
  end.

Definition deliver_filter (s : Snapshot) (rq : request) (f : Filter) : option target :=
  match f with
  | TCPProxy _ cluster => Some (cluster_target s cluster)
  | HTTPConnectionManager config =>
      conf ← sn_Routes s !! RouteConfigName config;
      host ← List.find (fun h => bool_decide (go "*" ∈ Domains h)) (VirtualHosts conf);
      rt ← List.find (route_matches rq) (Routes host);
      Some (cluster_target s (r_Cluster rt))
  end.

Definition deliver (s : Snapshot) (l : Listener) (rq : request) : option target :=
  chain ← chain_for rq l; f ← head (Filters chain); deliver_filter s rq f.

Definition is_http (rq : request) : Prop :=
  rq_protocol rq ∈ [go "http/1.0"; go "http/1.1"; go "h2c"] /\ HasPrefix (rq_path rq) (go "/") = true.

Definition not_http (rq : request) : Prop := rq_protocol rq ∉ [go "http/1.0"; go "http/1.1"; go "h2c"].

Definition carries (rq : request) (h : headerPair) : Prop := rq_header rq (headerKey h) = Some (headerVal h).

(** A header as the names of clusters have it. *)
Definition joined (h : headerPair) : gostring := headerKey h ++ go "-" ++ headerVal h.

Lemma deliver_http s name q rq rr :
  is_http rq -> sn_Routes s !! name = Some (route_conf name rr) ->
  deliver s (buildListener name q) rq = (rt ← List.find (route_matches rq) rr; Some (cluster_target s (r_Cluster rt))).
Proof.
  intros [Hp _] Hr. unfold deliver, chain_for. cbn [FilterChains buildListener List.find ApplicationProtocols].
  rewrite bool_decide_eq_true_2 by done. cbn. by rewrite Hr.
Qed.

Lemma deliver_tcp s name q rq : not_http rq -> deliver s (buildListener name q) rq = Some (cluster_target s PassthroughCluster).
Proof.
  intros Hp. unfold deliver, chain_for. cbn [FilterChains buildListener List.find ApplicationProtocols].
  rewrite bool_decide_eq_false_2 by done. rewrite bool_decide_eq_false_2 by (by apply not_elem_of_nil). done.
Qed.
End deliver.

Section routing.
Context `{!MapOrder gostring}.
Context (m : gmap headerPair routeInfo) (devs : Z -> list (headerPair * routeInfo)).
Context (version dflt name : gostring) (extra : list (gostring * list gostring)) (qs : list Z).
Hypothesis devs_range : forall q d, d ∈ devs q <-> m !! d.1 = Some d.2.
Hypothesis valid_qs : forall q, q ∈ qs -> valid_port q.
Hypothesis extra_plain : forall n, n ∈ extra.*1 -> "-"%char ∉ n.

Let s := NewSnapshot version (flat devs extra dflt name qs).

Lemma flat_listener q : q ∈ qs -> sn_Listeners s !! unique name q = Some (buildListener (unique name q) q).
Proof.
  intros Hq. subst s. unfold NewSnapshot, flat. cbn [sn_Listeners listeners]. rewrite index_insert_all.
  assert (buildListener (unique name q) q = buildListener (unique name q) (uint32 q)) as -> by (by rewrite uint32_port by auto).
  apply (insert_all_in l_Name (fun x => x) ∅ _ (buildListener (unique name q) (uint32 q))).
  - apply list_elem_of_fmap. eauto.
  - intros y (q' & -> & Hq')%list_elem_of_fmap E. cbn in E. apply unique_inj in E; [by subst|auto..].
Qed.

Lemma flat_listeners : dom (sn_Listeners s) = list_to_set (unique name <$> qs).
Proof.
  subst s. unfold NewSnapshot, flat. cbn [sn_Listeners listeners]. rewrite index_insert_all, dom_insert_all.
  rewrite <- list_fmap_compose, dom_empty_L, union_empty_r_L. done.
Qed.

Lemma flat_route q : q ∈ qs -> sn_Routes s !! unique name q = Some (route_conf (unique name q) (dev_routes dflt (devs q) q)).
Proof.
  intros Hq. subst s. unfold NewSnapshot, flat. cbn [sn_Routes routers]. rewrite index_insert_all.
  apply (insert_all_in rc_Name (fun x => x) ∅ _ (route_conf (unique name q) (dev_routes dflt (devs q) q))).
  - apply list_elem_of_fmap. eauto.
  - intros y (q' & -> & Hq')%list_elem_of_fmap E. cbn in E. apply unique_inj in E; [by subst|auto..].
Qed.

Lemma flat_passthrough : PassthroughCluster ∉ extra.*1 -> cluster_target s PassthroughCluster = ToCluster PassthroughCluster.
Proof using Type.
  intros He. unfold cluster_target. destruct (sn_Clusters s !! PassthroughCluster) as [c|] eqn:E; [|done]. exfalso.
  subst s. unfold NewSnapshot, flat in E. cbn [sn_Clusters clusters] in E. rewrite index_insert_all in E.
  apply insert_all_Some in E as [E|(y & Hy & Hn & _)]; [by rewrite lookup_empty in E|].
  apply list_elem_of_bind in Hy as (q & Hy & _). apply list_elem_of_fmap in Hy as (d & -> & Hd). cbn in Hn.
  unfold destinations in Hd. apply elem_of_app in Hd as [Hd|Hd].
  - apply list_elem_of_fmap in Hd as (d' & -> & _). cbn in Hn. revert Hn. apply headerPort_not, passthrough_plain.
  - apply He. rewrite <- Hn. apply list_elem_of_fmap. eauto.
Qed.

(** The endpoints of a developer's cluster are those of the last developer whose
    header reads the same. *)
Lemma flat_dev q d : q ∈ qs -> d ∈ devs q ->
  exists d', d' ∈ devs q /\ joined d'.1 = joined d.1 /\
    cluster_target s (headerPort d.1 q) = ToEndpoints ((fun ip => (ip, q)) <$> set_list (ri_endpoints d'.2)).
Proof.
  intros Hq Hd. unfold cluster_target. subst s.
  destruct (flat_cluster version devs extra dflt name qs q (headerPort d.1 q) Hq) as [c ->]; [by apply destinations_dev|].
  unfold NewSnapshot, flat. cbn [sn_Endpoints endpoints]. rewrite index_insert_all.
  match goal with |- context [insert_all ?f ?g ?m0 ?l0 !! ?k] => destruct (insert_all f g m0 l0 !! k) as [a|] eqn:Ea end.
  2:{ exfalso. apply not_elem_of_dom in Ea. apply Ea. rewrite dom_insert_all. apply elem_of_union_l, elem_of_list_to_set.
      apply list_elem_of_fmap. exists (buildEndpoint (headerPort d.1 q) (set_list (ri_endpoints d.2)) (uint32 q)). split; [done|].
      apply list_elem_of_bind. exists q. split; [|done]. apply list_elem_of_fmap.
      exists (headerPort d.1 q, set_list (ri_endpoints d.2)). split; [done|]. apply elem_of_app. left. apply list_elem_of_fmap. eauto. }
  apply insert_all_Some in Ea as [Ea|(y & Hy & Hn & <-)]; [by rewrite lookup_empty in Ea|].
  apply list_elem_of_bind in Hy as (q' & Hy & Hq'). apply list_elem_of_fmap in Hy as (e & -> & He). cbn in Hn.
  apply elem_of_app in He as [He|He].
  - apply list_elem_of_fmap in He as (d' & -> & Hd'). cbn in Hn. apply headerPort_inj in Hn as [Hn ->]; [|auto..].
    exists d'. split; [done|]. split; [exact Hn|]. rewrite buildEndpoint_eq, uint32_port by auto. cbn. by rewrite app_nil_r.
  - exfalso. apply (headerPort_not d.1 q e.1); [apply extra_plain, list_elem_of_fmap; eauto|done].
Qed.

(** The route that is found belongs to a developer whose header the request
    carries, or is the last one. *)
Lemma find_route rq q : is_http rq ->
  (exists d, d ∈ devs q /\ carries rq d.1 /\
     List.find (route_matches rq) (dev_routes dflt (devs q) q) = Some (mkRoute (go "/") [mkMatcher (headerKey d.1) (headerVal d.1)] (headerPort d.1 q))) \/
  ((forall d, d ∈ devs q -> ~ carries rq d.1) /\
     List.find (route_matches rq) (dev_routes dflt (devs q) q) = Some (defaultRoute dflt)).
Proof.
  intros [_ Hpath]. unfold dev_routes. generalize (devs q) as l. intros l. induction l as [|d l IH].
  - right. split; [intros d; by intros ?%elem_of_nil|]. cbn. unfold route_matches. cbn. by rewrite Hpath.
  - cbn. rewrite ToRoute_single. unfold route_matches at 1 3. cbn. rewrite Hpath. unfold header_matches. cbn.
    case_bool_decide as Hc; cbn.
    + left. exists d. split; [left|]. split; [done|]. done.
    + destruct IH as [(d' & Hd' & Hc' & E)|[Hn E]].
      * left. exists d'. split; [by right|]. split; [done|]. apply E.
      * right. split; [|apply E]. intros d' [->|Hd']%elem_of_cons; [done|]. by apply Hn.
Qed.
End routing.

(** The cluster of the original pods is the one of the last port. *)
Lemma flat_origin `{!MapOrder gostring} version dflt name devs (a : list gostring) qs q0 mx :
  q0 ∈ qs -> last qs = Some mx -> valid_port mx ->
  cluster_target (NewSnapshot version (flat devs [(go "origin", a)] dflt name qs)) (go "origin") = ToEndpoints ((fun ip => (ip, mx)) <$> a).
Proof.
  intros Hq0 Hl Hv. unfold cluster_target.
  destruct (flat_cluster version devs [(go "origin", a)] dflt name qs q0 (go "origin") Hq0) as [c ->].
  { unfold destinations. rewrite fmap_app. apply elem_of_app. right. left. }
  assert (filter (fun x => ClusterName x = go "origin")
      (qs ≫= fun q => (fun d => buildEndpoint d.1 d.2 (uint32 q)) <$> destinations [(go "origin", a)] (devs q) q) =
    (fun q => buildEndpoint (go "origin") a (uint32 q)) <$> qs) as Ef.
  { clear Hq0 Hl. induction qs as [|q l IH]; [done|]. rewrite bind_cons, filter_app, IH.
    change ((fun q0 => _) <$> q :: l) with ([buildEndpoint (go "origin") a (uint32 q)] ++ ((fun q => buildEndpoint (go "origin") a (uint32 q)) <$> l)).
    f_equal. unfold destinations. rewrite fmap_app, list_fmap_singleton, filter_snoc_in by done. rewrite filter_none; [done|].
    intros x Hx E. apply list_elem_of_fmap in Hx as (d & -> & Hd). apply list_elem_of_fmap in Hd as (d' & -> & _).
    cbn in E. revert E. apply headerPort_not, origin_plain. }
  unfold NewSnapshot, flat. cbn [sn_Endpoints endpoints]. rewrite index_insert_all, insert_all_lookup, Ef, fmap_last, Hl. cbn [fmap option_fmap option_map].
  rewrite buildEndpoint_eq, uint32_port by done. cbn. by rewrite app_nil_r.
Qed.

(** ** What the mesh promises *)

Section served.
Context `{!Quantities} `{!MapOrder gostring}.
Implicit Types (pods l : list MeshPod) (pod : MeshPod) (q : Z) (uuid : gostring).

Definition at_port q (ips : gset gostring) : target := ToEndpoints ((fun ip => (ip, q)) <$> set_list ips).

(** A request with the header of a developer goes to the pods of such a developer or
    of another one whose header reads the same when key and value are joined by a
    dash, on the port it came to, and any other one to the given target. *)
Definition routed (devs : list MeshPod) q (dflt : target) (rq : request) (t : target) : Prop :=
  (exists pod pod', pod ∈ devs /\ carries rq (pod_headers pod) /\ pod' ∈ devs /\ joined (pod_headers pod') = joined (pod_headers pod) /\
     t = at_port q (addresses (with_headers (pod_headers pod') devs))) \/
  ((forall pod, pod ∈ devs -> ~ carries rq (pod_headers pod)) /\ t = dflt).

Definition serves (devs : list MeshPod) (dflt : target) (qs : gset Z) (name : gostring) (s : Snapshot) : Prop :=
  dom (sn_Listeners s) = set_map (unique name) qs /\
  forall q, q ∈ qs -> exists ln, sn_Listeners s !! unique name q = Some ln /\ PortValue ln = q /\
    (forall rq, is_http rq -> exists t, deliver s ln rq = Some t /\ routed devs q dflt rq t) /\
    (forall rq, not_http rq -> deliver s ln rq = Some (ToCluster PassthroughCluster)).

Definition greatest (qs : gset Z) : Z := default 0 (last (int_list qs)).

(** Pods of the original workload pass other requests on to themselves; those of a
    developer send them to the original pods, on the greatest of their own ports. *)
Definition mesh_served uuid pods (c : Cache) : Prop :=
  let devs := dev_pods uuid pods in
  let origins := origin_pods uuid pods in
  (forall pod, pod ∈ origins -> exists s, c !! mp_Name pod = Some s /\
     serves devs (ToCluster PassthroughCluster) (ports origins) (mp_Name pod) s) /\
  (forall pod, pod ∈ devs -> exists s, c !! mp_Name pod = Some s /\
     let qs := ports (with_headers (pod_headers pod) devs) in
     serves devs (at_port (greatest qs) (addresses origins)) qs (mp_Name pod) s).

(** The names of pods are distinct and their ports are ports. *)
Definition pods_ok pods : Prop :=
  NoDup (mp_Name <$> pods) /\ (forall pod q, pod ∈ pods -> q ∈ pod_ports pod -> valid_port q).

Lemma elem_of_set_list (x : gostring) (X : gset gostring) : x ∈ set_list X <-> x ∈ X.
Proof. unfold set_list. rewrite merge_sort_Permutation. apply elem_of_elements. Qed.

Lemma elem_of_int_list q (X : gset Z) : q ∈ int_list X <-> q ∈ X.
Proof. unfold int_list. rewrite merge_sort_Permutation. apply elem_of_elements. Qed.

Lemma elem_of_ports q l : q ∈ ports l <-> exists pod, pod ∈ l /\ q ∈ pod_ports pod.
Proof.
  unfold ports. rewrite elem_of_union_list. split.
  - intros (X & HX & Hq). apply list_elem_of_fmap in HX as (pod & -> & Hp). eauto.
  - intros (pod & Hp & Hq). exists (pod_ports pod). split; [apply list_elem_of_fmap; eauto|done].
Qed.

(** [greatest] is the greatest port. *)
Lemma greatest_spec (qs : gset Z) q : q ∈ qs -> greatest qs ∈ qs /\ q <= greatest qs /\ last (int_list qs) = Some (greatest qs).
Proof.
  intros Hq. unfold greatest. pose proof (proj2 (elem_of_int_list q qs) Hq) as Hin.
  pose proof (StronglySorted_merge_sort Z.le (elements qs)) as Hs. fold (int_list qs) in Hs.
  destruct (last (int_list qs)) as [mx|] eqn:El; cbn.
  2:{ apply last_None in El. rewrite El in Hin. by apply elem_of_nil in Hin. }
  split; [apply elem_of_int_list; by apply last_Some_elem_of|]. split; [|done].
  apply last_Some in El as [l' El]. rewrite El in Hin, Hs. apply elem_of_app in Hin as [Hin|Hin%list_elem_of_singleton]; [|lia].
  apply (StronglySorted_app_1_elem_of Z.le) with (x1 := q) (x2 := mx) in Hs; [done|done|by left].
Qed.

Lemma dev_in uuid pods pod : pod ∈ dev_pods uuid pods <-> live pod /\ in_mesh uuid MeshDevType pod /\ pod ∈ pods.
Proof. unfold dev_pods. rewrite !list_elem_of_filter. done. Qed.

Lemma origin_in uuid pods pod : pod ∈ origin_pods uuid pods <-> live pod /\ in_mesh uuid MeshOriginType pod /\ pod ∈ pods.
Proof. unfold origin_pods. rewrite !list_elem_of_filter. done. Qed.

Lemma headers_in h l pod : pod ∈ with_headers h l <-> pod_headers pod = h /\ pod ∈ l.
Proof. unfold with_headers. by rewrite list_elem_of_filter. Qed.

(** An entry of the map of developers comes from the pods with its header. *)
Lemma dev_entry uuid pods h i :
  mi_dev (getMeshInfo uuid pods) !! h = Some i <->
  (exists pod, pod ∈ dev_pods uuid pods /\ pod_headers pod = h) /\ i = info_of (with_headers h (dev_pods uuid pods)).
Proof.
  rewrite (proj2 (mesh_info uuid pods)). destruct (with_headers h (dev_pods uuid pods)) as [|p l] eqn:E; cbn.
  - split; [done|]. intros [(pod & Hp & Hh) _]. assert (pod ∈ with_headers h (dev_pods uuid pods)) as Hin by (by apply headers_in).
    rewrite E in Hin. by apply elem_of_nil in Hin.
  - split; [|intros [_ ->]; done]. intros [= <-]. split; [|done]. exists p.
    assert (p ∈ with_headers h (dev_pods uuid pods)) as Hin by (rewrite E; left). by apply headers_in in Hin as [? ?].
Qed.

Lemma flat_serves version name run uuid pods extra dflt t (qs : gset Z) :
  pods_ok pods -> (forall q, q ∈ qs -> valid_port q) ->
  (forall n, n ∈ extra.*1 -> "-"%char ∉ n /\ n <> PassthroughCluster) ->
  let s := NewSnapshot version (flat (fun q => @range _ _ _ (order_at run name q) _ (mi_dev (getMeshInfo uuid pods))) extra dflt name (int_list qs)) in
  (forall q, q ∈ qs -> cluster_target s dflt = t) -> serves (dev_pods uuid pods) t qs name s.
Proof.
  intros Hok Hqs He s Ht. set (devs := fun q => @range _ _ _ (order_at run name q) _ (mi_dev (getMeshInfo uuid pods))) in s.
  assert (forall q d, d ∈ devs q <-> mi_dev (getMeshInfo uuid pods) !! d.1 = Some d.2) as Hdevs.
  { intros q [h i]. subst devs. cbn. apply elem_of_range. }
  assert (forall q, q ∈ int_list qs -> valid_port q) as Hv by (intros q ?%elem_of_int_list; auto).
  split.
  { subst s. rewrite flat_listeners. apply set_eq. intros n. rewrite elem_of_list_to_set, list_elem_of_fmap, elem_of_map.
    split; intros (q & -> & Hq); exists q; (split; [done|]); by apply elem_of_int_list. }
  intros q Hq. pose proof (proj2 (elem_of_int_list q qs) Hq) as Hq'. exists (buildListener (unique name q) q).
  split; [by apply flat_listener|]. split; [done|]. split.
  - intros rq Hrq. rewrite (deliver_http s _ q rq (dev_routes dflt (devs q) q)); [|done|by apply flat_route].
    destruct (find_route devs dflt rq q Hrq) as [(d & Hd & Hc & ->)|[Hn ->]]; cbn; eexists; (split; [done|]).
    + left. pose proof (proj1 (Hdevs _ _) Hd) as Hm. apply dev_entry in Hm as [(pod & Hp & Hh) _].
      destruct (flat_dev devs version dflt name extra (int_list qs)) with (q := q) (d := d) as (d' & Hd' & Ej & Et); [|by intros n [? _]%He|done|done|].
      { done. }
      pose proof (proj1 (Hdevs _ _) Hd') as Hm. apply dev_entry in Hm as [(pod' & Hp' & Hh') Hi].
      exists pod, pod'. rewrite Hh, Hh'. do 4 (split; [done|]). unfold s. rewrite Et, Hi. done.
    + right. split; [|by apply (Ht q)]. intros pod Hp Hc. apply (Hn (pod_headers pod, info_of (with_headers (pod_headers pod) (dev_pods uuid pods)))); [|done].
      apply Hdevs. apply dev_entry. eauto.
  - intros rq Hrq. rewrite deliver_tcp by done. f_equal. apply flat_passthrough; try done. intros Hin. by apply He in Hin as [_ ?].
Qed.
End served.

(** ** Parsing *)

Section parsing.
Context `{!Quantities} `{!MapOrder gostring}.
Implicit Types (pods : list MeshPod) (pod : MeshPod) (uuid : gostring) (run : Run) (c : Cache).

(** The snapshots [parse] stores, in order. *)
Definition dev_names (l : list (headerPair * routeInfo)) : list (gostring * routeInfo) :=
  l ≫= fun d => (fun n => (n, d.2)) <$> set_list (ri_name d.2).

Lemma dev_loop (g : routeInfo -> gostring -> Snapshot) l c :
  foldl (fun c '(_, r) => foldl (fun c n => SetSnapshot n (g r n) c) c (set_list (ri_name r))) c l =
  insert_all fst (fun x => g x.2 x.1) c (dev_names l).
Proof.
  revert c. induction l as [|[h r] l IH]; intros c; [done|]. cbn [foldl]. rewrite IH. unfold insert_all, dev_names.
  rewrite bind_cons, foldl_app. f_equal. cbn. generalize (set_list (ri_name r)). intros ns. revert c.
  induction ns as [|n ns IHn]; intros c; [done|]. cbn. apply IHn.
Qed.

Lemma parse_eq run pods uuid c :
  let info := getMeshInfo uuid pods in
  parse run (Some pods) uuid c =
  (insert_all fst (fun x => dev_snapshot run info x.2 x.1)
    (insert_all (fun n => n) (origin_snapshot run info) c (set_list (ri_name (mi_origin info))))
    (dev_names (@range _ _ _ (order run) _ (mi_dev info))), true).
Proof. intros info. unfold parse. f_equal. apply dev_loop. Qed.

Lemma elem_of_dev_names uuid pods (o : MapOrder headerPair) n r :
  (n, r) ∈ dev_names (@range _ _ _ o _ (mi_dev (getMeshInfo uuid pods))) <->
  exists pod, pod ∈ dev_pods uuid pods /\ mp_Name pod = n /\ r = info_of (with_headers (pod_headers pod) (dev_pods uuid pods)).
Proof.
  unfold dev_names. rewrite list_elem_of_bind. split.
  - intros ([h i] & Hn & Hi). apply elem_of_range, dev_entry in Hi as [_ ->]. apply list_elem_of_fmap in Hn as (n' & E & Hn).
    cbn in E, Hn. simplify_eq. apply elem_of_set_list in Hn. cbn in Hn. apply elem_of_list_to_set, list_elem_of_fmap in Hn as (pod & -> & Hp).
    apply headers_in in Hp as [<- Hp]. eauto.
  - intros (pod & Hp & <- & ->). exists (pod_headers pod, info_of (with_headers (pod_headers pod) (dev_pods uuid pods))). split.
    + apply list_elem_of_fmap. exists (mp_Name pod). split; [done|]. apply elem_of_set_list. cbn.
      apply elem_of_list_to_set, list_elem_of_fmap. exists pod. split; [done|]. by apply headers_in.
    + apply elem_of_range, dev_entry. eauto.
Qed.

Lemma elem_of_origin_names uuid pods n :
  n ∈ set_list (ri_name (mi_origin (getMeshInfo uuid pods))) <-> exists pod, pod ∈ origin_pods uuid pods /\ mp_Name pod = n.
Proof.
  rewrite elem_of_set_list, (proj1 (mesh_info uuid pods)). cbn. rewrite elem_of_list_to_set, list_elem_of_fmap. naive_solver.
Qed.

Lemma origin_snapshot_good run info n : good_snapshot (origin_snapshot run info n).
Proof. unfold origin_snapshot. rewrite origin_flat. apply flat_good. by left. Qed.

Lemma dev_snapshot_good run info r n : good_snapshot (dev_snapshot run info r n).
Proof. unfold dev_snapshot. rewrite dev_flat. apply flat_good. right. left. Qed.

Definition good_cache c : Prop := forall n s, c !! n = Some s -> good_snapshot s.

Lemma parse_good run o uuid c : good_cache c -> good_cache (fst (parse run o uuid c)).
Proof.
  intros Hc. destruct o as [pods|]; [|done]. rewrite parse_eq. cbn [fst].
  intros n s [Hn|(x & _ & _ & <-)]%insert_all_Some; [|apply dev_snapshot_good].
  apply insert_all_Some in Hn as [Hn|(x & _ & _ & <-)]; [by eapply Hc|apply origin_snapshot_good].
Qed.

Lemma same_pod pods p p' : NoDup (mp_Name <$> pods) -> p ∈ pods -> p' ∈ pods -> mp_Name p = mp_Name p' -> p = p'.
Proof.
  intros Hn [i Hi]%list_elem_of_lookup [j Hj]%list_elem_of_lookup E.
  assert (i = j) as ->; [|congruence]. apply (NoDup_lookup (mp_Name <$> pods) i j (mp_Name p)); [done|..];
    rewrite list_lookup_fmap, ?Hi, ?Hj; cbn; congruence.
Qed.

(** The snapshots a run of [parse] leaves. *)
Lemma parse_lookup run pods uuid c :
  NoDup (mp_Name <$> pods) ->
  let info := getMeshInfo uuid pods in
  let c' := fst (parse run (Some pods) uuid c) in
  (forall pod, pod ∈ origin_pods uuid pods -> c' !! mp_Name pod = Some (origin_snapshot run info (mp_Name pod))) /\
  (forall pod, pod ∈ dev_pods uuid pods ->
     c' !! mp_Name pod = Some (dev_snapshot run info (info_of (with_headers (pod_headers pod) (dev_pods uuid pods))) (mp_Name pod))) /\
  (forall n, (forall pod, pod ∈ origin_pods uuid pods \/ pod ∈ dev_pods uuid pods -> mp_Name pod <> n) -> c' !! n = c !! n).
Proof.
  intros Hnd info c'. unfold c'. rewrite parse_eq. cbn [fst]. fold info. unfold Cache. split; [|split].
  - intros pod Hp. rewrite insert_all_out.
    + apply (insert_all_in (fun n => n) (origin_snapshot run info) _ _ (mp_Name pod)); [|by intros y _ ->].
      apply elem_of_origin_names. eauto.
    + intros [n r] (p & Hd & <- & _)%elem_of_dev_names E. cbn in E. apply origin_in in Hp as (_ & Hm & Hin). apply dev_in in Hd as (_ & Hm' & Hin').
      rewrite (same_pod pods p pod Hnd Hin' Hin E) in Hm'. destruct Hm as (_ & _ & Ht), Hm' as (_ & _ & Ht'). rewrite Ht in Ht'. done.
  - intros pod Hp. set (r := info_of _).
    apply (insert_all_in fst (fun x => dev_snapshot run info x.2 x.1) _ _ (mp_Name pod, r)).
    + apply elem_of_dev_names. exists pod. done.
    + intros [n r'] (p & Hd & <- & ->)%elem_of_dev_names E. cbn in E. cbn. pose proof Hp as Hp'.
      apply dev_in in Hp' as (_ & _ & Hin). pose proof Hd as Hd'. apply dev_in in Hd' as (_ & _ & Hin').
      by rewrite (same_pod pods p pod Hnd Hin' Hin E).
  - intros n Hn. rewrite insert_all_out; [apply insert_all_out|].
    + intros y (pod & Hp & <-)%elem_of_origin_names. apply Hn. by left.
    + intros [y r] (pod & Hp & <- & _)%elem_of_dev_names. apply Hn. by right.
Qed.

Lemma mesh_ports_valid pods l q : pods_ok pods -> (forall pod, pod ∈ l -> pod ∈ pods) -> q ∈ ports l -> valid_port q.
Proof. intros [_ Hp] Hl (pod & Hin & Hq)%elem_of_ports. eauto. Qed.

Lemma parse_serves run pods uuid c : pods_ok pods -> mesh_served uuid pods (fst (parse run (Some pods) uuid c)).
Proof.
  intros Hok. destruct (parse_lookup run pods uuid c (proj1 Hok)) as (Ho & Hd & _). split.
  - intros pod Hp. eexists. split; [by apply Ho|]. unfold origin_snapshot. rewrite origin_flat, (proj1 (mesh_info uuid pods)).
    apply flat_serves; [done|..].
    + intros q. apply (mesh_ports_valid pods); [done|]. by intros x (_ & _ & ?)%origin_in.
    + intros n Hn. by apply elem_of_nil in Hn.
    + intros q Hq. apply flat_passthrough. apply not_elem_of_nil.
  - intros pod Hp. eexists. split; [by apply Hd|]. intros qs. unfold dev_snapshot. rewrite dev_flat, (proj1 (mesh_info uuid pods)).
    assert (forall q, q ∈ qs -> valid_port q) as Hv.
    { intros q. apply (mesh_ports_valid pods); [done|]. by intros x [_ (_ & _ & ?)%dev_in]%headers_in. }
    apply flat_serves; [done|done|..].
    + intros n ->%list_elem_of_singleton. split; [apply origin_plain|done].
    + intros q Hq. destruct (greatest_spec qs q Hq) as (Hg & _ & Hl). apply (flat_origin _ _ _ _ _ _ q); [by apply elem_of_int_list|done|by apply Hv].
Qed.

(** A run for any mesh keeps what another one achieved for the same pods. *)
Lemma parse_keeps run pods uuid uuid' c :
  pods_ok pods -> mesh_served uuid pods c -> mesh_served uuid pods (fst (parse run (Some pods) uuid' c)).
Proof.
  intros Hok [Ho Hd]. destruct (decide (uuid' = uuid)) as [->|Hne]; [by apply parse_serves|].
  destruct (parse_lookup run pods uuid' c (proj1 Hok)) as (_ & _ & Hk).
  assert (forall pod type, pod ∈ pods -> in_mesh uuid type pod -> fst (parse run (Some pods) uuid' c) !! mp_Name pod = c !! mp_Name pod) as Hsame.
  { intros pod type Hin (_ & Hu & _). apply Hk. intros p Hp E.
    assert (p ∈ pods /\ annotation p AnnotationMeshUuid = uuid') as [Hin' Hu'].
    { destruct Hp as [(_ & (_ & ? & _) & ?)%origin_in|(_ & (_ & ? & _) & ?)%dev_in]; done. }
    rewrite (same_pod pods p pod (proj1 Hok) Hin' Hin E) in Hu'. congruence. }
  split; intros pod Hp.
  - destruct (Ho pod Hp) as (s & Hs & Hserv). exists s. split; [|done]. apply origin_in in Hp as (_ & Hm & Hin). by rewrite (Hsame pod _ Hin Hm).
  - destruct (Hd pod Hp) as (s & Hs & Hserv). exists s. split; [|done]. apply dev_in in Hp as (_ & Hm & Hin). by rewrite (Hsame pod _ Hin Hm).
Qed.

(** ** Theorems *)

(** C13: After a run of [parse] that got the list of pods, their names distinct and
    their ports proper, in whatever order it visited the developers, every sidecar of
    the mesh knows exactly the ports of its workload.  On each of them a request over
    HTTP that carries the header of a developer goes to the addresses of the pods of
    such a developer on the same port - or, if the headers of two developers read the
    same when key and value are joined by a dash, of one of the two
    ([joined_headers_clash]); another request stays in a pod of the original workload
    and goes from the pod of a developer to the addresses of the original pods on the
    greatest port of that developer's pods, whichever it came to
    ([origin_wrong_port]); anything but HTTP passes through.  Pods that are being
    deleted receive nothing; a pod that has no address yet is among the endpoints with
    the empty one ([pending_pod_endpoint]).  What the sidecars of other pods are told
    stays. *)
Theorem mesh_requests_routed run pods uuid c :
  pods_ok pods -> let c' := fst (parse run (Some pods) uuid c) in
  mesh_served uuid pods c' /\
  forall n, (forall pod, pod ∈ origin_pods uuid pods ++ dev_pods uuid pods -> mp_Name pod <> n) -> c' !! n = c !! n.
Proof.
  intros Hok. split; [by apply parse_serves|]. intros n Hn. apply (parse_lookup run pods uuid c (proj1 Hok)).
  intros pod Hp. apply Hn, elem_of_app, Hp.
Qed.

Lemma handle_good run o e c : good_cache c -> exists c', handle run o e c = Done c' /\ good_cache c'.
Proof.
  intros Hc. assert (forall pod, good_cache (parse_pod run o pod c)) as Hp.
  { intros pod. unfold parse_pod. destruct (IsPodReady pod); [by apply parse_good|done]. }
  assert (forall obj, FilterFunc obj = true -> exists c', DeleteFunc run o obj c = Done c' /\ good_cache c') as Hdel.
  { intros [pod|key] Hf; [|done]. cbn. destruct (IsPodReady pod); eexists; (split; [done|]); [|done].
    apply parse_good. intros n s Hn. unfold ClearSnapshot, Cache in Hn. apply lookup_delete_Some in Hn as [_ Hn]. by eapply Hc. }
  destruct e as [obj|old new|obj]; cbn; unfold OnAdd, OnUpdate, OnDelete.
  - destruct (FilterFunc obj) eqn:E; [|eauto]. destruct obj as [pod|key]; [cbn; eauto|done].
  - destruct (FilterFunc new) eqn:E, (FilterFunc old) eqn:E'; eauto; destruct new as [pod|key]; (done || cbn; eauto).
  - destruct (FilterFunc obj) eqn:E; eauto.
Qed.

(** C25: Through any sequence of events, whatever the control plane is answered when
    it lists the pods, no handler panics and every snapshot in the cache is
    consistent: its endpoints are exactly those its clusters ask for, its routes
    those its listeners ask for, and every cluster a route names is in it or is the
    sidecar's own. *)
Theorem snapshots_consistent l : exists c, handle_all l ∅ = Done c /\ good_cache c.
Proof.
  assert (forall c, good_cache c -> exists c', handle_all l c = Done c' /\ good_cache c') as Hl.
  { induction l as [|[[run o] e] l IH]; intros c Hc; [eauto|]. cbn.
    destruct (handle_good run o e c Hc) as (c' & -> & Hc'). by apply IH. }
  apply Hl. intros n s Hn. unfold Cache in Hn. by rewrite lookup_empty in Hn.
Qed.

(** What counts as a reason to parse a mesh: a ready pod that the handlers see. *)
Definition seen pod uuid : Prop :=
  FilterFunc (PodObject pod) = true /\ IsPodReady pod = true /\ annotation pod AnnotationMeshUuid = uuid.

Definition resync_events pods (l : list (Run * MeshPod)) : list (Run * option (list MeshPod) * event) :=
  (fun x => (x.1, Some pods, Updated (PodObject x.2) (PodObject x.2))) <$> l.

Lemma handle_resync run pods pod c :
  handle run (Some pods) (Updated (PodObject pod) (PodObject pod)) c =
  Done (if FilterFunc (PodObject pod) && IsPodReady pod then fst (parse run (Some pods) (annotation pod AnnotationMeshUuid) c) else c).
Proof. unfold handle, OnUpdate. destruct (FilterFunc (PodObject pod)); [|done]. unfold UpdateFunc, parse_pod. by destruct (IsPodReady pod). Qed.

Lemma resync_loop pods (l : list (Run * MeshPod)) c :
  pods_ok pods -> exists c', handle_all (resync_events pods l) c = Done c' /\
  forall uuid, mesh_served uuid pods c \/ (exists pod, pod ∈ l.*2 /\ seen pod uuid) -> mesh_served uuid pods c'.
Proof.
  intros Hok. revert c. induction l as [|[run pod] l IH]; intros c.
  { exists c. split; [done|]. intros uuid [H'|(pod & Hp & _)]; [done|by apply elem_of_nil in Hp]. }
  change (resync_events pods ((run, pod) :: l)) with ((run, Some pods, Updated (PodObject pod) (PodObject pod)) :: resync_events pods l).
  pose (c1 := if FilterFunc (PodObject pod) && IsPodReady pod then fst (parse run (Some pods) (annotation pod AnnotationMeshUuid) c) else c).
  assert (handle run (Some pods) (Updated (PodObject pod) (PodObject pod)) c = Done c1) as E by apply handle_resync.
  cbn [handle_all]. rewrite E. destruct (IH c1) as (c' & -> & Hc'). exists c'. split; [done|].
  intros uuid Hu. apply Hc'. destruct Hu as [Hu|(p & [->|Hp]%elem_of_cons & Hs)]; [left| |right; eauto].
  - unfold c1. destruct (_ && _); [by apply parse_keeps|done].
  - left. destruct Hs as (Hf & Hr & <-). unfold c1. cbn [snd] in *. rewrite Hf, Hr. by apply parse_serves.
Qed.

(** C26: The resync that the informer makes every ten seconds repairs the mesh.  From
    any state of the cache, once it has reported all pods, in any order, and as long
    as the pods stay as they are meanwhile and every request for their list is
    answered, each mesh with a ready pod is served as after a run of [parse]: every
    pod of the mesh that is not being deleted has a listener for exactly the ports of
    its workload; a request over HTTP with the header of a developer goes to the pods
    of a developer with such a header, as the names of clusters have it, on the port
    it came to; another one stays in an original pod and goes from a developer's pod
    to the original pods on the greatest port of the developer's pods; anything else
    passes through. *)
Theorem resync_converges pods (l : list (Run * MeshPod)) c :
  pods_ok pods -> l.*2 ≡ₚ pods ->
  exists c', handle_all (resync_events pods l) c = Done c' /\
  forall uuid pod, pod ∈ pods -> seen pod uuid -> mesh_served uuid pods c'.
Proof.
  intros Hok Hl. destruct (resync_loop pods l c Hok) as (c' & E & Hc'). exists c'. split; [done|].
  intros uuid pod Hp Hs. apply Hc'. right. exists pod. split; [by rewrite Hl|done].
Qed.
End parsing.

(** ** Pods of dev mode *)

Section dev_mode.
Context `{!Quantities} `{!MapOrder gostring}.
Implicit Types (pods : list MeshPod) (pod : MeshPod) (uuid : gostring) (t : PodTemplateSpec).

(** A pod made from a template. *)
Definition stamped t pod : Prop :=
  mp_Annotations pod = Some (pt_Annotations t) /\ mp_Containers pod = ps_Containers (pt_Spec t).

Lemma sidecar_annotations t : pt_Annotations (fst (AddEnvoySidecarForMesh t)) = pt_Annotations t.
Proof. unfold AddEnvoySidecarForMesh. destruct (remove_mesh _ _ _ _). done. Qed.

(** Read an annotation off the chain of insertions. *)
Ltac read_annotation Ha := unfold annotation; rewrite Ha; cbn [mbind option_bind];
  repeat (rewrite lookup_insert_eq || rewrite lookup_insert_ne by (by vm_compute)); reflexivity.

Lemma stamped_dev t t' uuid header pod :
  addAnnotationToDuplicate t uuid header = Done t' -> stamped (fst (AddEnvoySidecarForMesh t')) pod ->
  in_mesh uuid MeshDevType pod /\ pod_headers pod = mkPair (first_header header).1 (first_header header).2.
Proof.
  unfold addAnnotationToDuplicate. destruct (first_header header) as [k v]. intros Ht [Ha _]. go_cases.
  rewrite sidecar_annotations in Ha. cbn in Ha. unfold in_mesh, pod_headers.
  split; [split; [by rewrite Ha|split; read_annotation Ha]|f_equal; read_annotation Ha].
Qed.

Lemma stamped_origin t uuid pod :
  stamped (addAnnotationToMesh t uuid) pod -> in_mesh uuid MeshOriginType pod.
Proof. intros [Ha _]. cbn in Ha. unfold in_mesh. split; [by rewrite Ha|split; read_annotation Ha]. Qed.

(** C14: Dev mode with a header does what it is for.  Once the pods of a workload
    have been made from the template that duplicate mode writes for the developer
    and from the one it writes back to the original workload, and the control plane
    has parsed them, a request over HTTP that reaches an original pod on one of its
    ports goes to the developer's pods on that port if it carries the header, and
    stays where it is otherwise. *)
Theorem dev_mode_header_routed run pods uuid c header t0 t t1 :
  pods_ok pods ->
  addAnnotationToDuplicate t0 uuid header = Done t ->
  let dev := fst (AddEnvoySidecarForMesh t) in
  let origin := addAnnotationToMesh (fst (AddEnvoySidecarForMesh t1)) uuid in
  (forall pod, pod ∈ pods -> annotation pod AnnotationMeshUuid = uuid -> stamped dev pod \/ stamped origin pod) ->
  (exists pod, pod ∈ pods /\ live pod /\ stamped dev pod) ->
  forall pod q, pod ∈ pods -> live pod -> stamped origin pod -> q ∈ pod_ports pod ->
  exists s ln ips, fst (parse run (Some pods) uuid c) !! mp_Name pod = Some s /\
    sn_Listeners s !! unique (mp_Name pod) q = Some ln /\ PortValue ln = q /\
    (forall ip, ip ∈ ips <-> exists p, p ∈ pods /\ live p /\ stamped dev p /\ mp_PodIP p = ip) /\
    forall rq, is_http rq -> deliver s ln rq = Some
      (if bool_decide (rq_header rq (first_header header).1 = Some (first_header header).2) then at_port q ips
       else ToCluster PassthroughCluster).
Proof.
  intros Hok Ht dev origin Hall (p0 & Hp0 & Hl0 & Hs0) pod q Hin Hlive Hst Hq.
  set (h := mkPair (first_header header).1 (first_header header).2).
  assert (forall p, p ∈ dev_pods uuid pods <-> p ∈ pods /\ live p /\ stamped dev p) as Hdev.
  { intros p. rewrite dev_in. split; [|intros (? & ? & Hs); split; [done|]; split; [by eapply stamped_dev|done]].
    intros (Hl & (_ & Hu & Hty) & Hp). destruct (Hall p Hp Hu) as [Hs|Hs]; [done|].
    apply stamped_origin in Hs as (_ & _ & Hty'). rewrite Hty in Hty'. done. }
  assert (forall p, p ∈ dev_pods uuid pods -> pod_headers p = h) as Hh.
  { intros p (_ & _ & Hs)%Hdev. by apply (stamped_dev t0 t uuid header). }
  assert (with_headers h (dev_pods uuid pods) = dev_pods uuid pods) as Ew by (by apply filter_all).
  destruct (parse_serves run pods uuid c Hok) as [Ho _].
  assert (pod ∈ origin_pods uuid pods) as Hor by (apply origin_in; split; [done|]; split; [by apply (stamped_origin _ _ _ Hst)|done]).
  destruct (Ho pod Hor) as (s & Hs & _ & Hserv). destruct (Hserv q) as (ln & Hln & Hport & Hrt & _); [apply elem_of_ports; eauto|].
  exists s, ln, (addresses (dev_pods uuid pods)). split; [done|]. split; [done|]. split; [done|]. split.
  - intros ip. unfold addresses. rewrite elem_of_list_to_set, list_elem_of_fmap. setoid_rewrite Hdev. naive_solver.
  - intros rq Hrq. destruct (Hrt rq Hrq) as (tg & -> & [(p & p' & Hp & Hc & Hp' & _ & ->)|[Hn ->]]).
    + rewrite (Hh p Hp) in Hc. rewrite (Hh p' Hp'), Ew. by rewrite bool_decide_eq_true_2.
    + rewrite bool_decide_eq_false_2; [done|]. intros Hc. apply (Hn p0); [by apply Hdev|]. rewrite Hh; [done|by apply Hdev].
Qed.
End dev_mode.

(** ** What goes wrong *)

Section defects.
Context `{!Quantities} `{!MapOrder gostring}.

(** The snapshot of a pod that is not ready when it is deleted, or whose deletion
    the informer missed, is never removed, and its mesh is not parsed again. *)
Theorem deleted_snapshot_stays run o (c : Cache) (obj : object) :
  match obj with PodObject pod => IsPodReady pod = false | DeletedFinalStateUnknown _ => True end ->
  handle run o (Deleted obj) c = Done c.
Proof.
  destruct obj as [pod|key]; [|done]. intros Hr. unfold handle, OnDelete. destruct (FilterFunc _); [|done].
  unfold DeleteFunc. by rewrite Hr.
Qed.
End defects.

(** ** A namespace with an original pod and two developers *)

Section demo.

#[local] Instance quantities : Quantities := {|
  quantity := Z;
  ParseQ := fun _ => Some 1;
  q_cmp := Z.compare;
  q_zero := 0;
  q_String := Itoa
|}.

Definition run : Run := mkRun (fun _ => go "now") (map_to_list_order headerPair) (fun _ _ => map_to_list_order headerPair).

Definition container (l : list Z) : Container :=
  mkPodContainer (go "app") [] [] [] [] l [] (mkReq None None) [] None None None [] None [].

Definition annotations (type k v : gostring) : gmap gostring gostring :=
  <[AnnotationMeshHeaderValue := v]> (<[AnnotationMeshHeaderKey := k]> (<[AnnotationMeshType := type]>
    (<[AnnotationMeshEnable := go "true"]> (<[AnnotationMeshUuid := go "u"]> ∅)))).

Definition pod_of (name ip type k v : gostring) (l : list Z) : MeshPod :=
  mkMeshPod name (Some (annotations type k v)) false [container l] ip [(go "Ready", go "True")].

Definition web : MeshPod := pod_of (go "web") (go "10.0.0.1") (go "origin") [] [] [80; 90].
Definition ann : MeshPod := pod_of (go "ann") (go "10.0.0.2") (go "dev") (go "user") (go "ann") [80; 90].
Definition bob : MeshPod := pod_of (go "bob") (go "10.0.0.3") (go "dev") (go "user") (go "bob") [80].

Definition get (k v : gostring) : request :=
  mkRequest (go "http/1.1") (go "/") (fun n => if bool_decide (n = k) then Some v else None).

(** What the sidecar of a pod does with a request to a port, after one run. *)
Definition sent (pods : list MeshPod) (pod : MeshPod) (q : Z) (rq : request) : option target :=
  s ← fst (parse run (Some pods) (go "u") ∅) !! mp_Name pod;
  ln ← sn_Listeners s !! unique (mp_Name pod) q;
  deliver s ln rq.

Definition pods : list MeshPod := [web; ann; bob].

Example sent_to_ann : sent pods web 80 (get (go "user") (go "ann")) = Some (ToEndpoints [(go "10.0.0.2", 80)]).
Proof. vm_compute. reflexivity. Qed.

Example sent_through : sent pods web 90 (get (go "user") (go "eve")) = Some (ToCluster PassthroughCluster).
Proof. vm_compute. reflexivity. Qed.

(** All ports of a developer's pod share one cluster of original pods, that of the
    greatest port: a request to port 80 goes to port 90 of the original pod. *)
Theorem origin_wrong_port : sent pods ann 80 (get (go "user") (go "eve")) = Some (ToEndpoints [(go "10.0.0.1", 90)]).
Proof. vm_compute. reflexivity. Qed.

(** Two developers whose headers read the same when joined by dashes share one
    cluster: requests with the header of one go to the pods of the other. *)
Definition cat : MeshPod := pod_of (go "cat") (go "10.0.0.4") (go "dev") (go "x-user") (go "a") [80].
Definition dan : MeshPod := pod_of (go "dan") (go "10.0.0.5") (go "dev") (go "x") (go "user-a") [80].

Theorem joined_headers_clash :
  sent [web; cat; dan] web 80 (get (go "x-user") (go "a")) = sent [web; cat; dan] web 80 (get (go "x") (go "user-a")).
Proof. vm_compute. reflexivity. Qed.

Lemma ports_fine (l : list MeshPod) : Forall (fun pod => Forall valid_port (elements (pod_ports pod))) l ->
  forall pod q, pod ∈ l -> q ∈ pod_ports pod -> valid_port q.
Proof.
  intros Hf pod q Hp Hq. rewrite Forall_forall in Hf. specialize (Hf pod Hp). rewrite Forall_forall in Hf.
  apply Hf. by apply elem_of_elements.
Qed.

Lemma pods_fine : pods_ok pods.
Proof.
  split; [apply (bool_decide_unpack _); vm_compute; exact I|]. apply ports_fine. repeat constructor; vm_compute; repeat constructor.
Qed.

(** A pod that has no address yet is given to the sidecars with the empty one. *)
Definition pending : MeshPod :=
  mkMeshPod (go "eve") (Some (annotations (go "dev") (go "user") (go "eve"))) false [container [80]] [] [].

Theorem pending_pod_endpoint : sent [web; pending] web 80 (get (go "user") (go "eve")) = Some (ToEndpoints [([], 80)]).
Proof. vm_compute. reflexivity. Qed.

Lemma mesh_requests_routed_witness :
  exists t, sent pods web 80 (get (go "user") (go "ann")) = Some t /\
  routed (dev_pods (go "u") pods) 80 (ToCluster PassthroughCluster) (get (go "user") (go "ann")) t.
Proof.
  destruct (mesh_requests_routed run pods (go "u") ∅ pods_fine) as [[Ho _] _].
  destruct (Ho web) as (s & Hs & _ & Hserv); [apply origin_in; split; [done|]; split; [apply (bool_decide_unpack _); vm_compute; exact I|left]|].
  destruct (Hserv 80) as (ln & Hln & _ & Hrt & _); [apply (bool_decide_unpack _); vm_compute; exact I|].
  destruct (Hrt (get (go "user") (go "ann"))) as (t & Ht & Hr); [split; [apply (bool_decide_unpack _); vm_compute; exact I|done]|].
  exists t. split; [|done]. unfold sent. rewrite Hs. cbn [mbind option_bind]. rewrite Hln. exact Ht.
Defined.

Lemma resync_converges_witness :
  exists c', handle_all (resync_events pods [(run, bob); (run, web); (run, ann)]) ∅ = Done c' /\ mesh_served (go "u") pods c'.
Proof.
  destruct (resync_converges pods [(run, bob); (run, web); (run, ann)] ∅ pods_fine) as (c' & E & Hc').
  { change ([bob] ++ [web; ann] ≡ₚ [web; ann] ++ [bob]). apply Permutation_app_comm. }
  exists c'. split; [exact E|]. apply (Hc' (go "u") web); [left|]. split; [reflexivity|split; reflexivity].
Defined.

(** Pods made from the templates of duplicate mode. *)
Definition template : PodTemplateSpec := mkTemplate ∅ ∅ (mkPodSpec [container [80]] [] [] [] []) [].
Definition dev_template : PodTemplateSpec :=
  match addAnnotationToDuplicate template (go "u") {[go "user" := go "ann"]} with Done t => t | _ => template end.

Definition made (t : PodTemplateSpec) (name ip : gostring) : MeshPod :=
  mkMeshPod name (Some (pt_Annotations t)) false (ps_Containers (pt_Spec t)) ip [(go "Ready", go "True")].

Definition made_web : MeshPod := made (addAnnotationToMesh (fst (AddEnvoySidecarForMesh template)) (go "u")) (go "web") (go "10.0.0.1").
Definition made_ann : MeshPod := made (fst (AddEnvoySidecarForMesh dev_template)) (go "ann") (go "10.0.0.2").

Lemma dev_template_made : addAnnotationToDuplicate template (go "u") {[go "user" := go "ann"]} = Done dev_template.
Proof. reflexivity. Qed.

Lemma made_fine : pods_ok [made_web; made_ann].
Proof.
  split; [apply (bool_decide_unpack _); vm_compute; exact I|]. apply ports_fine. repeat constructor; vm_compute; repeat constructor.
Qed.

Lemma dev_mode_header_routed_witness :
  exists s ln ips, fst (parse run (Some [made_web; made_ann]) (go "u") ∅) !! go "web" = Some s /\
    sn_Listeners s !! unique (go "web") 80 = Some ln /\ deliver s ln (get (go "user") (go "ann")) = Some (at_port 80 ips).
Proof.
  destruct (dev_mode_header_routed run [made_web; made_ann] (go "u") ∅ {[go "user" := go "ann"]} template dev_template template made_fine)
    with (pod := made_web) (q := 80) as (s & ln & ips & Hs & Hln & _ & _ & Hd).
  - apply dev_template_made.
  - intros pod [->|[->|[]%elem_of_nil]%elem_of_cons]%elem_of_cons _; [right|left]; split; reflexivity.
  - exists made_ann. split; [right; left|]. split; [done|]. split; reflexivity.
  - left.
  - done.
  - split; reflexivity.
  - apply (bool_decide_unpack _). vm_compute. exact I.
  - exists s, ln, ips. split; [exact Hs|]. split; [exact Hln|]. rewrite Hd; [reflexivity|]. split; [apply (bool_decide_unpack _); vm_compute; exact I|done].
Defined.
End demo.
