(* ===== verification/AppInstall.v ===== *)
(** * Installing and upgrading an application

    [internal/nhctl/app/install.go], [upgrade.go], [hook.go], [get.go] and [env.go]
    with what they use of [pkg/nhctl/clientgoutils]: the files of a manifest
    ([resource.go]), reading and joining them ([resource_manager.go]), applying them
    with or without waiting ([resource_operator.go], [apply.go]).  An installation
    goes through hooks, manifests, kustomize or helm, and keeps in the application's
    secret ([AppMeta]) what it puts into the cluster, so that uninstalling can remove
    it.

    The file system is a tree behind [stat]; YAML decoding, kustomize, the builder
    of resource infos, kubectl's apply and helm are parameters, the last three with
    the state of the cluster.  A list that is nil counts as empty.  What is done to
    the cluster is kept in a log, in order, beside the secrets that were written. *)

From S2P Require Import Prelude GoStrings FilePath DevDir AppMeta Search Profile PortForward Config.

Definition nl : gostring := ["010"%char].

(** ** Files of a manifest *)

(** What [os.Stat] and [ioutil.ReadDir] find: entries are sorted by name, and a
    directory may not be readable. *)
Inductive fsnode :=
  | File
  | Dir (entries : list (gostring * fsnode))
  | UnreadableDir.

(** [filepath.Join] of two non-empty parts. *)
Definition path_join (a b : gostring) : gostring := Clean (a ++ slash ++ b).

Definition isFileIgnored (fileName : gostring) (ignorePaths : list gostring) : bool :=
  existsb (fun i => bool_decide (i = fileName)) ignorePaths.

Definition is_yaml (name : gostring) : bool := HasSuffix name (go ".yaml") || HasSuffix name (go ".yml").

(** The loop over the entries of a directory, with the recursive call for those that
    are directories themselves; [None] is an error. *)
Fixpoint yaml_entries (ignorePaths : list gostring) (path : gostring) (n : fsnode) : option (list gostring * list gostring) :=
  match n with
  | File => Some ([path], [path])
  | UnreadableDir => None
  | Dir entries =>
      (fix go_on (l : list (gostring * fsnode)) (files dirs : list gostring) : option (list gostring * list gostring) :=
         match l with
         | [] => Some (files, dirs)
         | (name, fi) :: l =>
             let fPath := path_join path name in
             if isFileIgnored fPath ignorePaths then go_on l files dirs
             else
               match fi with
               | File => go_on l (if is_yaml name then files ++ [fPath] else files) dirs
               | _ =>
                   match yaml_entries ignorePaths fPath fi with
                   | Some (fs, ds) => go_on l (files ++ fs) ((dirs ++ [fPath]) ++ ds)
                   | None => None
                   end
               end
         end) entries [] []
  end.

(** Whether [filepath.Walk] meets no directory it cannot read. *)
Fixpoint readable (n : fsnode) : bool :=
  match n with
  | File => true
  | UnreadableDir => false
  | Dir entries => forallb (fun '(_, fi) => readable fi) entries
  end.

(** ** Parameters *)

(** An object of a manifest: [info_Kind] is its group, version and kind. *)
Record Info := mkResInfo {
  info_Name : gostring;
  info_Namespace : gostring;
  info_Kind : gostring;
  info_rest : gostring
}.

Record SvcDependency := mkDependency {
  sd_Name : gostring;
  sd_Type : gostring;
  sd_Jobs : list gostring;
  sd_Pods : list gostring
}.

Record ContainerEnvForDep := mkContainerEnv {
  ce_Name : gostring;
  ce_InstallEnv : list (gostring * gostring)
}.

Record ServiceEnvForDep := mkServiceEnv {
  se_Name : gostring;
  se_Type : gostring;
  se_Container : list ContainerEnvForDep
}.

Record InstallEnvForDep := mkInstallEnv {
  Global : list (gostring * gostring);
  Service : list ServiceEnvForDep
}.

(** Labels and annotations that are merged into what is applied. *)
Record Metas := mkMetas {
  MergeableLabel : gmap gostring gostring;
  MergeableAnnotation : gmap gostring gostring
}.

(** [decode_docs] gives the documents of a file up to an error, [build_infos] those
    infos the resource builder makes of a text and whether there was no error.  Any
    call to the cluster can fail. *)
Class Installer `{!Api} := {
  stat : gostring -> option fsnode;
  decode_docs : gostring -> list gostring * bool;
  kustomize_build : gostring -> option gostring;
  build_infos : gostring -> list Info * bool;
  marshal_dep : list SvcDependency -> gostring -> InstallEnvForDep -> option gostring;
  apply_info : Info -> Metas -> AppMeta.cluster -> AppMeta.cluster * bool;
  delete_info : Info -> AppMeta.cluster -> AppMeta.cluster * bool;
  create_object : gostring -> Metas -> AppMeta.cluster -> AppMeta.cluster * bool;
  create_configmap : gostring -> gostring -> gostring -> gostring -> AppMeta.cluster -> AppMeta.cluster * bool;
  helm : list gostring -> AppMeta.cluster -> AppMeta.cluster * bool;
  helm_repos : AppMeta.cluster -> option (list (gostring * gostring));
  remove_all : gostring -> bool
}.

Abbreviation AppMetaV2 := (ApplicationMeta NocalHostAppConfigV2).

(** ** The state of a run *)

(** What was done to the cluster, with its success, and the secrets written. *)
Inductive effect :=
  | Recorded (a : AppMetaV2)
  | Applied (i : Info) (ok : bool)
  | DeletedInfo (i : Info) (ok : bool)
  | Created (manifest : gostring) (ok : bool)
  | ConfigMapCreated (name data : gostring) (ok : bool)
  | HelmRun (params : list gostring) (ok : bool).

Inductive apperr :=
  | ErrUpdate (e : metaerr)
  | ErrLoad
  | ErrBuild
  | ErrApply
  | ErrDelete
  | ErrMarshal
  | ErrConfigMap
  | ErrHelm
  | ErrProfile
  | ErrUnsupported
  | ErrCleanUp.

(** A call returns, fails or panics. *)
Inductive ans (A : Type) :=
  | Val (x : A)
  | Fail (e : apperr)
  | Crash.
Arguments Val {A} x.
Arguments Fail {A} e.
Arguments Crash {A}.

Section install.
Context `{!Xz} `{!MetaYaml NocalHostAppConfigV2} `{!Api} `{!Installer} `{!GoSort} `{!MapOrder gostring} (o : OS).

Record St := mkSt {
  st_meta : AppMetaV2;
  st_world : world;
  st_log : list effect
}.

Definition M (A : Type) : Type := St -> St * ans A.

Definition ret {A : Type} (x : A) : M A := fun s => (s, Val x).
Definition fail {A : Type} (e : apperr) : M A := fun s => (s, Fail e).
Definition crash {A : Type} : M A := fun s => (s, Crash).
Definition bind {A B : Type} (c : M A) (f : A -> M B) : M B := fun s =>
  match c s with
  | (s, Val x) => f x s
  | (s, Fail e) => (s, Fail e)
  | (s, Crash) => (s, Crash)
  end.
(** An error that is only logged. *)
Definition attempt (c : M unit) : M bool := fun s =>
  match c s with
  | (s, Val _) => (s, Val true)
  | (s, Fail _) => (s, Val false)
  | (s, Crash) => (s, Crash)
  end.

Local Notation "x <-- c1 ; c2" := (bind c1 (fun x => c2)) (at level 100, c1 at next level, right associativity).
Local Notation "c1 ;; c2" := (bind c1 (fun _ => c2)) (at level 100, right associativity).

Definition get_meta : M AppMetaV2 := fun s => (s, Val (st_meta s)).
Definition set_meta (f : AppMetaV2 -> AppMetaV2) : M unit := fun s => (mkSt (f (st_meta s)) (st_world s) (st_log s), Val tt).

(** [appMeta.Update()]. *)
Definition update : M unit := fun s =>
  match Update (st_meta s) (st_world s) with
  | (a, w, Ok _) => (mkSt a w (st_log s ++ [Recorded a]), Val tt)
  | (a, w, Err e) => (mkSt a w (st_log s), Fail (ErrUpdate e))
  end.

Definition on_cluster (run : AppMeta.cluster -> AppMeta.cluster * bool) (e : bool -> effect) (err : apperr) : M unit := fun s =>
  let '(c, ok) := run (cl (st_world s)) in
  let s := mkSt (st_meta s) (with_cl (st_world s) c) (st_log s ++ [e ok]) in
  if ok then (s, Val tt) else (s, Fail err).

(** ** Fields of the meta *)

Definition with_Manifest (a : AppMetaV2) (x : gostring) : AppMetaV2 :=
  let '(mkMeta a1 a2 a3 a4 a5 a6 a7 a8 a9 b1 b2 b3 _ b5 b6 b7 b8 b9) := a in mkMeta a1 a2 a3 a4 a5 a6 a7 a8 a9 b1 b2 b3 x b5 b6 b7 b8 b9.
Definition with_HelmReleaseName (a : AppMetaV2) (x : gostring) : AppMetaV2 :=
  let '(mkMeta a1 _ a3 a4 a5 a6 a7 a8 a9 b1 b2 b3 b4 b5 b6 b7 b8 b9) := a in mkMeta a1 x a3 a4 a5 a6 a7 a8 a9 b1 b2 b3 b4 b5 b6 b7 b8 b9.
Definition with_PreInstall (a : AppMetaV2) (x : gostring) : AppMetaV2 :=
  let '(mkMeta a1 a2 a3 a4 a5 a6 _ a8 a9 b1 b2 b3 b4 b5 b6 b7 b8 b9) := a in mkMeta a1 a2 a3 a4 a5 a6 x a8 a9 b1 b2 b3 b4 b5 b6 b7 b8 b9.
Definition with_PostInstall (a : AppMetaV2) (x : gostring) : AppMetaV2 :=
  let '(mkMeta a1 a2 a3 a4 a5 a6 a7 _ a9 b1 b2 b3 b4 b5 b6 b7 b8 b9) := a in mkMeta a1 a2 a3 a4 a5 a6 a7 x a9 b1 b2 b3 b4 b5 b6 b7 b8 b9.
Definition with_PreUpgrade (a : AppMetaV2) (x : gostring) : AppMetaV2 :=
  let '(mkMeta a1 a2 a3 a4 a5 a6 a7 a8 _ b1 b2 b3 b4 b5 b6 b7 b8 b9) := a in mkMeta a1 a2 a3 a4 a5 a6 a7 a8 x b1 b2 b3 b4 b5 b6 b7 b8 b9.
Definition with_PostUpgrade (a : AppMetaV2) (x : gostring) : AppMetaV2 :=
  let '(mkMeta a1 a2 a3 a4 a5 a6 a7 a8 a9 _ b2 b3 b4 b5 b6 b7 b8 b9) := a in mkMeta a1 a2 a3 a4 a5 a6 a7 a8 a9 x b2 b3 b4 b5 b6 b7 b8 b9.
Definition with_PreDelete (a : AppMetaV2) (x : gostring) : AppMetaV2 :=
  let '(mkMeta a1 a2 a3 a4 a5 a6 a7 a8 a9 b1 _ b3 b4 b5 b6 b7 b8 b9) := a in mkMeta a1 a2 a3 a4 a5 a6 a7 a8 a9 b1 x b3 b4 b5 b6 b7 b8 b9.
Definition with_PostDelete (a : AppMetaV2) (x : gostring) : AppMetaV2 :=
  let '(mkMeta a1 a2 a3 a4 a5 a6 a7 a8 a9 b1 b2 _ b4 b5 b6 b7 b8 b9) := a in mkMeta a1 a2 a3 a4 a5 a6 a7 a8 a9 b1 b2 x b4 b5 b6 b7 b8 b9.

Definition empty_config : ApplicationConfig := mkAppConfig [] [] [] [] [] [] [] [] [] [] [] [] [] [] [].

(** [GetApplicationConfig], for which a missing configuration is an empty one. *)
Definition GetApplicationConfig (a : AppMetaV2) : ApplicationConfig := from_option AppConfig empty_config (AppMeta.Config a).

(** ** Loading manifests *)

Definition exists_path (p : gostring) : bool := bool_decide (is_Some (stat p)).

Definition existing (f : FilePathEnhance) (l : list gostring) : list gostring :=
  path ← l;
  let file := Abs (RelOrAbs o f path) in
  if exists_path file then [file] else [].

Definition load_sorted (f : FilePathEnhance) (l : list WeightablePath) : list gostring := existing f (wp_Path <$> go_sort l).

Definition GetYamlFilesAndDirs (path : gostring) (ignorePaths : list gostring) : option (list gostring * list gostring) :=
  if isFileIgnored path ignorePaths then Some ([], [])
  else n ← stat path; yaml_entries ignorePaths path n.

Definition LoadValidManifest (path ignorePath : list gostring) : list gostring :=
  eachPath ← path;
  match GetYamlFilesAndDirs eachPath ignorePath with
  | None => []
  | Some (files, _) => file ← files; if exists_path file then [file] else []
  end.

Definition LoadManifests (c : ApplicationConfig) (tmpDir : FilePathEnhance) : list gostring :=
  LoadValidManifest (existing tmpDir (ResourcePath c))
    (load_sorted tmpDir (PreInstall c) ++ load_sorted tmpDir (PostInstall c) ++ load_sorted tmpDir (PreUpgrade c) ++
     load_sorted tmpDir (PostUpgrade c) ++ existing tmpDir (IgnoredPath c) ++ load_sorted tmpDir (PreDelete c) ++
     load_sorted tmpDir (PostDelete c)).

(** A document of a file, unless it is empty or null. *)
Definition doc_text (raw : gostring) : gostring :=
  let raw := TrimSpace raw in
  if bool_decide (raw = []) || bool_decide (raw = go "null") then [] else go "---" ++ nl ++ raw ++ nl.

(** [loadByPath]; directories are passed over. *)
Definition loadByPath (p : gostring) : option gostring :=
  match stat p with
  | None => None
  | Some File =>
      match decode_docs p with
      | (l, true) => Some (l ≫= doc_text)
      | (_, false) => None
      end
  | Some n => if readable n then Some [] else None
  end.

Definition Resource : Type := list gostring.

Definition NewResourceFromStr (manifest : gostring) : Resource := Split manifest (go "---").
Definition String (r : Resource) : gostring := Join r (nl ++ go "---" ++ nl).

(** The resource and whether there was no error. *)
Definition LoadResource (files : list gostring) : Resource * bool :=
  ((fun file => default [] (loadByPath file)) <$> files, forallb (fun file => bool_decide (is_Some (loadByPath file))) files).

Definition LoadKustomize (path : gostring) : Resource * bool :=
  match kustomize_build path with
  | Some out => (NewResourceFromStr out, true)
  | None => ([], false)
  end.

Definition GetResourceInfo (r : Resource) (continueOnError : bool) : M (list Info) :=
  let '(infos, ok) := build_infos (String r) in
  if ok || continueOnError then ret infos else fail ErrBuild.

(** ** Applying ([resource_operator.go], [apply.go]) *)

Record ApplyFlags := mkFlags {
  fl_Metas : Metas;
  DoApply : bool;
  BeforeApply : option (gostring -> M unit)
}.

Definition before (flags : ApplyFlags) (text : gostring) : M unit :=
  match BeforeApply flags with Some fn => fn text | None => ret tt end.

Definition ApplyResourceInfo (i : Info) (flags : ApplyFlags) : M unit :=
  on_cluster (apply_info i (fl_Metas flags)) (Applied i) ErrApply.

Definition DeleteResourceInfo (i : Info) : M unit := on_cluster (delete_info i) (DeletedInfo i) ErrDelete.

(** Calls in turn; an error stops them unless it is to be ignored. *)
Fixpoint each {A : Type} (continueOnError : bool) (call : A -> M unit) (l : list A) : M unit :=
  match l with
  | [] => ret tt
  | x :: l => if continueOnError then (_ <-- attempt (call x); each continueOnError call l) else (call x ;; each continueOnError call l)
  end.

Definition renderManifestAndThen (files : list gostring) (continueOnError : bool) (flags : ApplyFlags)
    (kustomize : gostring) (doForResourceInfo : Info -> M unit) : M unit :=
  let '(loadResource, ok) := if bool_decide (kustomize = []) then LoadResource files else LoadKustomize kustomize in
  if negb ok && negb continueOnError then fail ErrLoad
  else
    infos <-- GetResourceInfo loadResource continueOnError;
    before flags (String loadResource) ;;
    if DoApply flags then each continueOnError doForResourceInfo infos else ret tt.

Definition Apply (files : list gostring) (continueOnError : bool) (flags : ApplyFlags) (kustomize : gostring) : M unit :=
  renderManifestAndThen files continueOnError flags kustomize (fun r => ApplyResourceInfo r flags).

(** [applyUnstructuredResource], which creates the object and waits for it. *)
Definition applyUnstructuredResource (manifest : gostring) (flags : ApplyFlags) : M unit :=
  on_cluster (create_object manifest (fl_Metas flags)) (Created manifest) ErrApply.

(** [strings.Trim(manifest, " ") == ""]. *)
Definition blank (manifest : gostring) : bool := forallb (fun c => bool_decide (c = " "%char)) manifest.

Definition doApplyAndWait (r : Resource) (continueOnError : bool) (flags : ApplyFlags) : M unit :=
  before flags (String r) ;;
  if DoApply flags
  then each continueOnError (fun manifest => applyUnstructuredResource manifest flags) (filter (fun m => blank m = false) r)
  else ret tt.

Definition ApplyAndWait (files : list gostring) (continueOnError : bool) (flags : ApplyFlags) : M unit :=
  let '(loadResource, ok) := LoadResource files in
  if negb ok && negb continueOnError then fail ErrLoad else doApplyAndWait loadResource continueOnError flags.

(** ** Hooks ([hook.go]) *)

Record Application := mkApp {
  app_name : gostring;
  NameSpace : gostring;
  KubeConfig : gostring;
  ResourceTmpDir : gostring;
  shouldClean : bool
}.

Definition StandardNocalhostMetas (releaseName releaseNamespace : gostring) : Metas :=
  mkMetas {[go "app.kubernetes.io/managed-by" := go "nocalhost"]}
    (<[go "dev.nocalhost/application-name" := releaseName]> {[go "dev.nocalhost/application-namespace" := releaseNamespace]}).

Context (app : Application).

Definition tmp_dir : FilePathEnhance := NewFilePath o (ResourceTmpDir app).

Definition flags_for (doApply : bool) (fn : gostring -> M unit) : ApplyFlags :=
  mkFlags (StandardNocalhostMetas (app_name app) (NameSpace app)) doApply (Some fn).

(** Changes the meta and stores it. *)
Definition record (f : AppMetaV2 -> AppMetaV2) : M unit := set_meta f ;; update.

Definition applyManifestAndWaitCompleteThen (weightablePath : list WeightablePath) (beforeApplyManifest : gostring -> M unit)
    (doApply : bool) : M unit :=
  ApplyAndWait (load_sorted tmp_dir weightablePath) true (flags_for doApply beforeApplyManifest).

Definition PreInstallHook : M unit :=
  a <-- get_meta;
  applyManifestAndWaitCompleteThen (PreInstall (GetApplicationConfig a))
    (fun manifest => record (fun a => with_PreInstall a (PreInstallManifest a ++ manifest))) true.

Definition PostInstallHook : M unit :=
  a <-- get_meta;
  applyManifestAndWaitCompleteThen (PostInstall (GetApplicationConfig a))
    (fun manifest => record (fun a => with_PostInstall a (PostInstallManifest a ++ manifest))) true.

Definition PreUpgradeHook : M unit :=
  a <-- get_meta;
  applyManifestAndWaitCompleteThen (PreUpgrade (GetApplicationConfig a))
    (fun manifest => record (fun a => with_PreUpgrade a (PreUpgradeManifest a ++ manifest))) true.

Definition PostUpgradeHook : M unit :=
  a <-- get_meta;
  applyManifestAndWaitCompleteThen (PostUpgrade (GetApplicationConfig a))
    (fun manifest => record (fun a => with_PostUpgrade a (PostUpgradeManifest a ++ manifest))) true.

Definition PrepareForPreDeleteHook : M unit :=
  a <-- get_meta;
  applyManifestAndWaitCompleteThen (PreDelete (GetApplicationConfig a))
    (fun manifest => record (fun a => with_PreDelete a manifest)) false.

Definition PrepareForPostDeleteHook : M unit :=
  a <-- get_meta;
  applyManifestAndWaitCompleteThen (PostDelete (GetApplicationConfig a))
    (fun manifest => record (fun a => with_PostDelete a manifest)) false.

(** ** Dependencies ([get.go], [env.go]) *)

Definition GetDependencies (c : ApplicationConfig) : list SvcDependency :=
  svcConfig ← ServiceConfigs c;
  match DependSelector svcConfig with
  | None => []
  | Some d =>
      if bool_decide (dep_Pods d = []) && bool_decide (dep_Jobs d = []) then []
      else [mkDependency (svc_Name svcConfig) (svc_Type svcConfig) (dep_Jobs d) (dep_Pods d)]
  end.

(** A map filled from the variables, and ranged over. *)
Definition env_of (env : list (gostring * gostring)) : list (gostring * gostring) :=
  range (foldl (fun m '(k, v) => <[k := v]> m) (∅ : gmap gostring gostring) env).

Definition container_env (c : ContainerConfig) : list ContainerEnvForDep :=
  match Config.Install c with
  | None => []
  | Some i =>
      if bool_decide (inst_Env i = []) && bool_decide (inst_EnvFrom i = []) then []
      else [mkContainerEnv (cc_Name c) (env_of (inst_Env i))]
  end.

Definition service_env (s : ServiceConfigV2) : list ServiceEnvForDep :=
  match ContainerConfigs s ≫= container_env with
  | [] => []
  | l => [mkServiceEnv (svc_Name s) (svc_Type s) l]
  end.

Definition GetInstallEnvForDep (c : ApplicationConfig) : InstallEnvForDep :=
  mkInstallEnv (env_of (app_Env c)) (ServiceConfigs c ≫= service_env).

(** The configuration, whose absence is a nil dereference. *)
Definition GetApplicationConfigV2 : M ApplicationConfig :=
  a <-- get_meta;
  match AppMeta.Config a with Some c => ret (AppConfig c) | None => crash end.

(** [letters]: the four random letters of the name. *)
Definition InstallDepConfigMap (letters : gostring) : M unit :=
  c <-- GetApplicationConfigV2;
  let appDep := GetDependencies c in
  let appEnv := GetInstallEnvForDep c in
  if bool_decide (appDep <> []) || bool_decide (Global appEnv <> []) || bool_decide (Service appEnv <> []) then
    a <-- get_meta;
    let releaseName :=
      if bool_decide (ApplicationType a <> AppType.Manifest) && bool_decide (ApplicationType a <> AppType.ManifestGit)
      then app_name app else [] in
    match marshal_dep appDep releaseName appEnv with
    | None => fail ErrMarshal
    | Some yamlBytes =>
        let generateName := DependenceConfigMapPrefix ++ go "-" ++ letters in
        record (fun a => with_DepConfigName a (DepConfigName a ++ generateName)) ;;
        on_cluster (create_configmap (NameSpace app) generateName (go "nocalhost-dep") yamlBytes)
          (ConfigMapCreated generateName yamlBytes) ErrConfigMap
    end
  else ret tt.

(** ** Manifests and kustomize *)

Definition GetResourceDir (c : ApplicationConfig) (tmpDir : gostring) : list gostring :=
  match ResourcePath c with
  | [] => [tmpDir]
  | l => path_join tmpDir <$> l
  end.

(** [resourcesPath[0]]; the list is never empty. *)
Definition first_dir : M gostring :=
  c <-- GetApplicationConfigV2; ret (default [] (head (GetResourceDir c (ResourceTmpDir app)))).

Definition InstallKustomize (doApply : bool) : M unit :=
  useResourcePath <-- first_dir;
  Apply [] true (flags_for doApply (fun manifest => record (fun a => with_Manifest a (Manifest a ++ manifest)))) useResourcePath.

Definition InstallManifest (doApply : bool) : M unit :=
  a <-- get_meta;
  Apply (LoadManifests (GetApplicationConfig a) tmp_dir) true
    (flags_for doApply (fun manifest => record (fun a => with_Manifest a (Manifest a ++ manifest)))) [].

(** ** Helm *)

Record HelmFlags := mkHelmFlags {
  hf_Debug : bool;
  hf_Wait : bool;
  hf_Set : list gostring;
  hf_Values : list gostring;
  hf_Chart : gostring;
  hf_RepoName : gostring;
  hf_RepoUrl : gostring;
  hf_Version : gostring
}.

Definition exec_helm (params : list gostring) : M unit := on_cluster (helm params) (HelmRun params) ErrHelm.

(** Whether the regular expression [(.*?):(.*?)@(.*?)] matches anywhere: a colon
    and, on the same line, an at sign after it. *)
Fixpoint at_on_line (s : gostring) : bool :=
  match s with
  | [] => false
  | c :: s => bool_decide (c = "@"%char) || (bool_decide (c <> "010"%char) && at_on_line s)
  end.

Fixpoint colon_at (s : gostring) : bool :=
  match s with
  | [] => false
  | c :: s => (bool_decide (c = ":"%char) && at_on_line s) || colon_at s
  end.

Definition password_char (c : ascii) : bool :=
  let v := byte_val c in
  ((48 <=? v) && (v <=? 57) || (65 <=? v) && (v <=? 90) || (97 <=? v) && (v <=? 122) || (v =? 43))%Z.

(** One or more of these characters up to an at sign. *)
Fixpoint password (seen : gostring) (s : gostring) : option gostring :=
  match s with
  | [] => None
  | c :: s =>
      if password_char c then password (seen ++ [c]) s
      else if bool_decide (c = "@"%char) && bool_decide (seen <> []) then Some seen else None
  end.

(** The shortest user name on the line that a colon and a password follow. *)
Fixpoint user_password (user : gostring) (s : gostring) : option (gostring * gostring) :=
  match s with
  | [] => None
  | c :: s =>
      match (if bool_decide (c = ":"%char) then password [] s else None) with
      | Some p => Some (user, p)
      | None => if bool_decide (c = "010"%char) then None else user_password (user ++ [c]) s
      end
  end.

(** The leftmost match of the expression with the two groups. *)
Fixpoint credentials (s : gostring) : option (gostring * gostring) :=
  match s with
  | [] => None
  | _ :: s' =>
      match (if HasPrefix s (go "//") then user_password [] (drop 2 s) else None) with
      | Some r => Some r
      | None => credentials s'
      end
  end.

Definition findRepoNameFromLocal (helmRepoUrl : gostring) : M gostring := fun s =>
  if colon_at helmRepoUrl then (s, Val [])
  else
    let url := match Index helmRepoUrl (go "//") with Some i => drop (i + 2) helmRepoUrl | None => helmRepoUrl end in
    (s, Val (match helm_repos (cl (st_world s)) with
             | None => []
             | Some l => from_option fst [] (List.find (fun dto => Contains (snd dto) url) l)
             end)).

Definition common_params : list gostring :=
  (if bool_decide (NameSpace app <> []) then [go "--namespace"; NameSpace app] else []) ++
  (if bool_decide (KubeConfig app <> []) then [go "--kubeconfig"; KubeConfig app] else []).

Definition chart_name (a : AppMetaV2) (dflt : gostring) : gostring :=
  match AppMeta.Config a with
  | Some c => if bool_decide (app_Name (AppConfig c) <> []) then app_Name (AppConfig c) else dflt
  | None => dflt
  end.

(** Builds the dependencies of a local chart and gives its directory. *)
Definition local_chart (commonParams : list gostring) : M gostring :=
  dir <-- first_dir;
  exec_helm ([go "dependency"; go "build"; dir] ++ commonParams) ;;
  ret dir.

(** The arguments that name a chart of a repository. *)
Definition repo_chart (flags : HelmFlags) : M (list gostring) :=
  a <-- get_meta;
  let chartName := chart_name a (hf_Chart flags) in
  repo <-- findRepoNameFromLocal (hf_RepoUrl flags);
  let chart :=
    if bool_decide (repo <> []) then [repo ++ slash ++ chartName]
    else if bool_decide (hf_RepoUrl flags <> []) then [chartName; go "--repo"; hf_RepoUrl flags]
    else if bool_decide (hf_RepoName flags <> []) then [hf_RepoName flags ++ slash ++ chartName]
    else [] in
  let login := match credentials (hf_RepoUrl flags) with
               | Some (u, p) => [go "--username"; u; go "--password"; p]
               | None => []
               end in
  let version :=
    if bool_decide (hf_Version flags <> []) then [go "--version"; hf_Version flags]
    else match AppMeta.Config a with
         | Some c => if bool_decide (HelmVersion (AppConfig c) <> []) then [go "--version"; HelmVersion (AppConfig c)] else []
         | None => []
         end in
  ret (chart ++ login ++ version).

Definition installHelm (flags : HelmFlags) (fromRepo : bool) : M unit :=
  attempt (exec_helm [go "repo"; go "update"]) ;;
  let releaseName := app_name app in
  record (fun a => with_HelmReleaseName a releaseName) ;;
  let commonParams := common_params ++ (if hf_Debug flags then [go "--debug"] else []) in
  chart <-- (if fromRepo then repo_chart flags else (dir <-- local_chart commonParams; ret [dir]));
  exec_helm ([go "install"; releaseName] ++ chart ++
    (if hf_Wait flags then [go "--wait"] else []) ++
    (hf_Set flags ≫= fun x => [go "--set"; x]) ++
    (hf_Values flags ≫= fun x => [go "-f"; x]) ++
    [go "--timeout"; go "60m"] ++ commonParams).

(** ** Installing *)

Definition CleanUpTmpResources : M unit :=
  if shouldClean app then (if remove_all (ResourceTmpDir app) then ret tt else fail ErrCleanUp) else ret tt.

Definition manifest_type (t : gostring) : bool :=
  bool_decide (t = AppType.Manifest) || bool_decide (t = AppType.ManifestLocal) || bool_decide (t = AppType.ManifestGit).
Definition kustomize_type (t : gostring) : bool :=
  bool_decide (t = AppType.KustomizeGit) || bool_decide (t = AppType.KustomizeLocal).
Definition local_helm_type (t : gostring) : bool := bool_decide (t = AppType.Helm) || bool_decide (t = AppType.HelmLocal).

Definition app_Install (letters : gostring) (flags : HelmFlags) : M unit :=
  InstallDepConfigMap letters ;;
  a <-- get_meta;
  let t := ApplicationType a in
  (if local_helm_type t then installHelm flags false
   else if bool_decide (t = AppType.HelmRepo) then installHelm flags true
   else if manifest_type t then (PreInstallHook ;; InstallManifest true ;; PostInstallHook)
   else if kustomize_type t then (PreInstallHook ;; InstallKustomize true ;; PostInstallHook)
   else fail ErrUnsupported) ;;
  PrepareForPreDeleteHook ;;
  PrepareForPostDeleteHook ;;
  record (fun a => with_State a INSTALLED) ;;
  CleanUpTmpResources.

(** ** Upgrading ([upgrade.go]) *)

Definition upgradeForKustomize : M unit :=
  useResourcePath <-- first_dir;
  Apply [] true (flags_for true (fun manifest => record (fun a => with_Manifest a manifest))) useResourcePath.

Definition same_info (a b : Info) : bool := bool_decide (info_Name a = info_Name b) && bool_decide (info_Kind a = info_Kind b).

Definition isContainsInfo (i : Info) (infos : list Info) : bool := existsb (fun x => same_info x i) infos.

Definition upgradeInfos (oldInfos newInfos : list Info) (continueOnErr : bool) : M unit :=
  let infosToDelete := filter (fun i => isContainsInfo i newInfos = false) oldInfos in
  let infosToCreate := filter (fun i => isContainsInfo i oldInfos = false) newInfos in
  let infosToUpdate := filter (fun i => isContainsInfo i oldInfos = true) newInfos in
  let apply i := ApplyResourceInfo i (mkFlags (StandardNocalhostMetas (app_name app) (NameSpace app)) true None) in
  each continueOnErr DeleteResourceInfo infosToDelete ;;
  each continueOnErr apply infosToCreate ;;
  each continueOnErr apply infosToUpdate.

Definition upgradeForManifest : M unit :=
  a <-- get_meta;
  let '(updateResource, ok) := LoadResource (LoadManifests (GetApplicationConfig a) tmp_dir) in
  if negb ok then fail ErrLoad
  else
    newInfos <-- GetResourceInfo updateResource true;
    oldInfos <-- GetResourceInfo (NewResourceFromStr (Manifest a)) true;
    upgradeInfos oldInfos newInfos true ;;
    record (fun a => with_Manifest a (String updateResource)).

Record InstallFlags := mkInstallFlags {
  HelmValueFile : list gostring;
  HelmSet : list gostring;
  HelmRepoName : gostring;
  HelmRepoUrl : gostring;
  HelmRepoVersion : gostring;
  HelmChartName : gostring;
  HelmWait : bool
}.

(** [profile]: the release name in the application's profile, if it can be read. *)
Definition upgradeForHelm (profile : option gostring) (flags : InstallFlags) (fromRepo : bool) : M unit :=
  attempt (exec_helm [go "repo"; go "update"]) ;;
  match profile with
  | None => fail ErrProfile
  | Some releaseName =>
      a <-- get_meta;
      let releaseName := if bool_decide (releaseName = []) then HelmReleaseName a else releaseName in
      let releaseName := if bool_decide (releaseName = []) then AppMeta.Application a else releaseName in
      chart <-- (if fromRepo then
                   let chartName := chart_name a (HelmChartName flags) in
                   ret ((if bool_decide (HelmRepoUrl flags <> []) then [chartName; go "--repo"; HelmRepoUrl flags]
                         else if bool_decide (HelmRepoName flags <> []) then [HelmRepoName flags ++ slash ++ chartName]
                         else []) ++
                        (if bool_decide (HelmRepoVersion flags <> []) then [go "--version"; HelmRepoVersion flags] else []))
                 else (dir <-- local_chart common_params; ret [dir]));
      exec_helm ([go "upgrade"; releaseName] ++ chart ++
        (if HelmWait flags then [go "--wait"] else []) ++
        (HelmValueFile flags ≫= fun x => [go "-f"; x]) ++
        (HelmSet flags ≫= fun x => [go "--set"; x]) ++
        [go "--timeout"; go "60m"] ++ common_params)
  end.

Definition app_Upgrade (profile : option gostring) (flags : InstallFlags) : M unit :=
  a <-- get_meta;
  let t := ApplicationType a in
  (if bool_decide (t = AppType.HelmRepo) then upgradeForHelm profile flags true
   else if local_helm_type t then upgradeForHelm profile flags false
   else if manifest_type t then (PreUpgradeHook ;; upgradeForManifest ;; PostUpgradeHook)
   else if kustomize_type t then (PreUpgradeHook ;; upgradeForKustomize ;; PostUpgradeHook)
   else fail ErrUnsupported) ;;
  PrepareForPreDeleteHook ;;
  PrepareForPostDeleteHook ;;
  CleanUpTmpResources.
End install.
