(* ===== verification/AppInstallThms.v ===== *)
(** * Theorems on installing and upgrading

    At every point of an installation, however it goes, the secret last written
    accounts for everything the installation has put into the cluster; what an
    upgrade deletes and applies, and in which order; which files a manifest is made
    of. *)

From S2P Require Import Prelude GoStrings FilePath DevDir AppMeta AppMetaThms Search Profile PortForward Config AppInstall.

(** ** The account of an installation *)

Section accounts.
Context `{!Xz} `{!MetaYaml NocalHostAppConfigV2} `{!Api} `{!Installer} `{!GoSort} `{!MapOrder gostring}.
Context (o : OS) (app : Application).
Implicit Types (a : AppMetaV2) (s : St) (e : effect) (l : list effect).

Definition part_of (x y : gostring) : Prop := exists pre post, y = pre ++ x ++ post.

(** The meta names what was put into the cluster where uninstalling looks for it. *)
Definition tracks a e : Prop :=
  match e with
  | Recorded _ | DeletedInfo _ _ => True
  | Applied i _ => exists text, part_of text (Manifest a) /\ i ∈ fst (build_infos text)
  | Created m _ => exists r : Resource, m ∈ r /\ (part_of (String r) (PreInstallManifest a) \/ part_of (String r) (PostInstallManifest a))
  | ConfigMapCreated n _ _ => part_of n (DepConfigName a)
  | HelmRun (c :: release :: _) _ => c = go "install" -> release = app_name app /\ HelmReleaseName a = release /\ IsHelm a = true
  | HelmRun _ _ => True
  end.

(** The meta last written. *)
Definition last_recorded l : option AppMetaV2 := last (l ≫= fun e => match e with Recorded a => [a] | _ => [] end).

Definition accounted (m : option AppMetaV2) e : Prop :=
  match e with
  | Recorded _ | DeletedInfo _ _ => True
  | HelmRun (c :: _) _ => c = go "install" -> exists a, m = Some a /\ tracks a e
  | HelmRun [] _ => True
  | _ => exists a, m = Some a /\ tracks a e
  end.

Definition safe l : Prop := forall l1 l2, l = l1 ++ l2 -> forall e, e ∈ l1 -> accounted (last_recorded l1) e.

Definition good s : Prop := (forall e, e ∈ st_log s -> tracks (st_meta s) e) /\ safe (st_log s).
Definition synced s : Prop := last_recorded (st_log s) = Some (st_meta s).

(** What a call does from a good state that satisfies [P]. *)
Definition triple {A : Type} (P : St -> Prop) (c : M A) (Q : A -> St -> Prop) : Prop :=
  forall s, good s -> P s -> good (fst (c s)) /\ forall x, snd (c s) = Val x -> Q x (fst (c s)).

Definition any (s : St) : Prop := True.

Lemma part_refl x : part_of x x.
Proof. exists [], []. by rewrite app_nil_r. Qed.

Lemma part_app_l x y z : part_of x y -> part_of x (y ++ z).
Proof. intros (pre & post & ->). exists pre, (post ++ z). by rewrite <- !app_assoc. Qed.

Lemma part_end x y : part_of x (y ++ x).
Proof. exists y, []. by rewrite app_nil_r. Qed.

Lemma tracks_accounted a e : tracks a e -> accounted (Some a) e.
Proof. destruct e as [| | | | |[|c p] ok]; cbn; eauto 10. Qed.

Lemma tracks_Secret a x e : tracks a e -> tracks (with_Secret a x) e.
Proof. by destruct a. Qed.

(** *** Logs *)

Lemma last_recorded_snoc l e :
  last_recorded (l ++ [e]) = match e with Recorded a => Some a | _ => last_recorded l end.
Proof.
  unfold last_recorded. rewrite bind_app. destruct e; cbn; rewrite ?app_nil_r; try done. by rewrite last_snoc.
Qed.

Lemma safe_snoc l e :
  safe l -> (forall e', e' ∈ l ++ [e] -> accounted (last_recorded (l ++ [e])) e') -> safe (l ++ [e]).
Proof.
  intros Hs He l1 l2 E e' Hin. destruct l2 as [|y l2 _] using rev_ind.
  - rewrite app_nil_r in E. subst l1. by apply He.
  - rewrite app_assoc in E. apply app_inj_tail in E as [-> ->]. by eapply Hs.
Qed.

Lemma good_recorded a w l : (forall e, e ∈ l -> tracks a e) -> safe l -> good (mkSt a w (l ++ [Recorded a])).
Proof.
  intros Ht Hs. split; cbn.
  - intros e [He| ->%list_elem_of_singleton]%elem_of_app; [auto|done].
  - apply safe_snoc; [done|]. rewrite last_recorded_snoc. intros e [He| ->%list_elem_of_singleton]%elem_of_app; [|done].
    by apply tracks_accounted, Ht.
Qed.

(** An effect that the meta tracks, when the meta is the one last written. *)
Lemma good_effect a w w' l e :
  match e with Recorded _ => False | _ => True end ->
  good (mkSt a w l) -> last_recorded l = Some a -> tracks a e -> good (mkSt a w' (l ++ [e])).
Proof.
  intros Hne [Ht Hs] Hl He. cbn in Ht, Hs. split; cbn.
  - intros e' [He'| ->%list_elem_of_singleton]%elem_of_app; auto.
  - apply safe_snoc; [done|]. rewrite last_recorded_snoc. assert (match e with Recorded a0 => Some a0 | _ => last_recorded l end = Some a) as ->
      by (by destruct e).
    intros e' [He'| ->%list_elem_of_singleton]%elem_of_app; apply tracks_accounted; auto.
Qed.

(** An effect that needs no account. *)
Definition free e : Prop := match e with HelmRun (c :: _) _ => c <> go "install" | HelmRun [] _ | DeletedInfo _ _ => True | _ => False end.

Lemma free_accounted m e : free e -> accounted m e.
Proof. destruct e as [| | | | |[|c p] ok]; cbn; done. Qed.

Lemma free_tracks a e : free e -> tracks a e.
Proof. destruct e as [| | | | |[|c [|r p]] ok]; cbn; done. Qed.

Lemma good_free a w w' l e : free e -> good (mkSt a w l) -> good (mkSt a w' (l ++ [e])).
Proof.
  intros Hf [Ht Hs]. cbn in Ht, Hs. split; cbn.
  - intros e' [He'| ->%list_elem_of_singleton]%elem_of_app; [auto|by apply free_tracks].
  - apply safe_snoc; [done|]. rewrite last_recorded_snoc. assert (match e with Recorded a0 => Some a0 | _ => last_recorded l end = last_recorded l) as ->
      by (by destruct e).
    intros e' [He'| ->%list_elem_of_singleton]%elem_of_app; [|by apply free_accounted]. apply (Hs l []); [by rewrite app_nil_r|done].
Qed.

(** *** Triples *)

Lemma t_ret {A : Type} (x : A) P : triple P (ret x) (fun y s => y = x /\ P s).
Proof. intros s Hg HP. split; [done|]. intros y [= <-]. done. Qed.

Lemma t_fail {A : Type} err P (Q : A -> St -> Prop) : triple P (fail err) Q.
Proof. intros s Hg HP. split; [done|]. done. Qed.

Lemma t_crash {A : Type} P (Q : A -> St -> Prop) : triple P crash Q.
Proof. intros s Hg HP. split; [done|]. done. Qed.

Lemma t_bind {A B : Type} P (c : M A) R (f : A -> M B) Q :
  triple P c R -> (forall x, triple (R x) (f x) Q) -> triple P (bind c f) Q.
Proof.
  intros Hc Hf s Hg HP. unfold bind. destruct (Hc s Hg HP) as [Hg' HR]. destruct (c s) as [s' [x|e|]]; cbn in *.
  - by apply Hf, HR.
  - done.
  - done.
Qed.

Lemma t_weaken {A : Type} (P P' : St -> Prop) (c : M A) Q Q' :
  triple P c Q -> (forall s, P' s -> P s) -> (forall x s, Q x s -> Q' x s) -> triple P' c Q'.
Proof. intros Hc HP HQ s Hg Hs. destruct (Hc s Hg (HP s Hs)) as [? Hq]. split; [done|]. eauto. Qed.

(** A call that may fail without harm, and keeps what must hold afterwards. *)
Lemma t_attempt P (c : M unit) (Q : St -> Prop) :
  triple P c (fun _ => any) -> (forall s, good s -> P s -> Q (fst (c s))) -> triple P (attempt c) (fun _ => Q).
Proof.
  intros Hc HQ s Hg HP. unfold attempt. destruct (Hc s Hg HP) as [Hg' _]. pose proof (HQ s Hg HP) as Hq.
  destruct (c s) as [s' [x|e|]]; cbn in *; done.
Qed.

Lemma t_get_meta P : triple P get_meta (fun a s => a = st_meta s /\ P s).
Proof. intros s Hg HP. split; [done|]. intros a [= <-]. done. Qed.

(** Changing the meta so that it tracks what it did, and storing it. *)
Lemma t_record P (f : AppMetaV2 -> AppMetaV2) (R : AppMetaV2 -> Prop) :
  (forall s e, P s -> e ∈ st_log s -> tracks (st_meta s) e -> tracks (f (st_meta s)) e) ->
  (forall s, P s -> R (f (st_meta s))) -> (forall a x, R a -> R (with_Secret a x)) ->
  triple P (record f) (fun _ s => synced s /\ R (st_meta s)).
Proof.
  intros Hf HR Hs s [Ht Hsafe] HP. unfold record, bind, set_meta, update. cbn [st_meta st_world st_log].
  destruct (Update (f (st_meta s)) (st_world s)) as [[a w] r] eqn:E. apply Update_frame in E.
  assert (forall e, e ∈ st_log s -> tracks a e) as Ha.
  { intros e He. rewrite E. apply tracks_Secret. by apply Hf, Ht. }
  destruct r as [[]|err]; cbn.
  - split; [by apply good_recorded|]. intros x _. split; [unfold synced; cbn; by rewrite last_recorded_snoc|].
    rewrite E. by apply Hs, HR.
  - split; [split; cbn; [done|done]|]. done.
Qed.

(** Calls that leave the meta and what was written last. *)
Definition about (R : AppMetaV2 -> Prop) s : Prop := synced s /\ R (st_meta s).

Lemma t_effect R (run : AppMeta.cluster -> AppMeta.cluster * bool) (e : bool -> effect) err :
  (forall ok, match e ok with Recorded _ => False | _ => True end) -> (forall a ok, R a -> tracks a (e ok)) ->
  forall s, good s -> about R s -> good (fst (on_cluster run e err s)) /\ about R (fst (on_cluster run e err s)).
Proof.
  intros Hne Ht [a w l] Hg [Hs HR]. unfold synced in Hs. cbn in Hs, HR. unfold on_cluster. cbn. destruct (run (cl w)) as [c ok].
  assert (good (mkSt a (with_cl w c) (l ++ [e ok])) /\ about R (mkSt a (with_cl w c) (l ++ [e ok]))) as Hx.
  { split; [apply (good_effect a w); [apply Hne|done|done|by apply Ht]|]. split; [|done]. unfold synced. cbn. rewrite last_recorded_snoc.
    specialize (Hne ok). by destruct (e ok). }
  by destruct ok.
Qed.

(** A free effect keeps whatever is said of meta and log apart from it. *)
Lemma t_free (run : AppMeta.cluster -> AppMeta.cluster * bool) (e : bool -> effect) err s :
  (forall ok, free (e ok)) -> good s ->
  good (fst (on_cluster run e err s)) /\ st_meta (fst (on_cluster run e err s)) = st_meta s /\
  last_recorded (st_log (fst (on_cluster run e err s))) = last_recorded (st_log s).
Proof.
  intros Hf Hg. destruct s as [a w l]. unfold on_cluster. cbn. destruct (run (cl w)) as [c ok].
  assert (good (mkSt a (with_cl w c) (l ++ [e ok])) /\ last_recorded (l ++ [e ok]) = last_recorded l) as [? ?].
  { split; [by eapply good_free|]. rewrite last_recorded_snoc. specialize (Hf ok). by destruct (e ok). }
  by destruct ok.
Qed.

Lemma t_ret_about R : triple (about R) (ret tt) (fun _ => about R).
Proof. intros s Hg HP. split; [done|]. by intros [] _. Qed.

Lemma t_each {A : Type} R (call : A -> M unit) (xs : list A) :
  (forall x s, x ∈ xs -> good s -> about R s -> good (fst (call x s)) /\ about R (fst (call x s))) ->
  triple (about R) (each true call xs) (fun _ => about R).
Proof.
  induction xs as [|x xs IH]; intros Hc; [apply t_ret_about|]. cbn [each].
  eapply t_bind; [apply (t_attempt (about R) (call x) (about R))|intros ?; apply IH; intros; apply Hc; [by right|done..]].
  - intros s Hg Hs. split; [by apply Hc; [left|..]|done].
  - intros s Hg Hs. by apply Hc; [left|..].
Qed.

(** *** Parts of an installation *)

(** A change of the meta that keeps all it tracks. *)
Definition grows (f : AppMetaV2 -> AppMetaV2) : Prop := forall a e, tracks a e -> tracks (f a) e.

Lemma t_grow P f (R : AppMetaV2 -> Prop) :
  grows f -> (forall a, R (f a)) -> (forall a x, R a -> R (with_Secret a x)) ->
  triple P (record f) (fun _ => about R).
Proof. intros Hf HR Hs. apply t_record; [by intros s e _ _; apply Hf|by intros s _|done]. Qed.

Lemma grows_Manifest x : grows (fun a => with_Manifest a (Manifest a ++ x)).
Proof. intros [] []; cbn; try done. intros (text & Hp & Hi). exists text. split; [by apply part_app_l|done]. Qed.

Lemma grows_PreInstall x : grows (fun a => with_PreInstall a (PreInstallManifest a ++ x)).
Proof. intros [] []; cbn; try done. intros (r & Hr & [Hp|Hp]); exists r; (split; [done|]); [left; by apply part_app_l|by right]. Qed.

Lemma grows_PostInstall x : grows (fun a => with_PostInstall a (PostInstallManifest a ++ x)).
Proof. intros [] []; cbn; try done. intros (r & Hr & [Hp|Hp]); exists r; (split; [done|]); [by left|right; by apply part_app_l]. Qed.

Lemma grows_Dep x : grows (fun a => with_DepConfigName a (DepConfigName a ++ x)).
Proof. intros [] []; cbn; try done. apply part_app_l. Qed.

Lemma grows_PreDelete x : grows (fun a => with_PreDelete a x).
Proof. intros [] []; done. Qed.

Lemma grows_PostDelete x : grows (fun a => with_PostDelete a x).
Proof. intros [] []; done. Qed.

Lemma grows_State x : grows (fun a => with_State a x).
Proof. intros [] []; done. Qed.

Lemma grows_Helm : grows (fun a => with_HelmReleaseName a (app_name app)).
Proof. intros [] [| | | | |[|c [|r p]] ok]; cbn; try done. intros Hr E. by destruct (Hr E) as (-> & _ & ?). Qed.

(** A hook whose manifests are recorded before they are created. *)
Lemma t_hook P (paths : list WeightablePath) (f : gostring -> AppMetaV2 -> AppMetaV2) (R : gostring -> AppMetaV2 -> Prop) doApply :
  (forall text, grows (f text)) -> (forall text a, R text (f text a)) -> (forall text a x, R text a -> R text (with_Secret a x)) ->
  (doApply = true -> forall (r : Resource) m a ok, m ∈ r -> R (String r) a -> tracks a (Created m ok)) ->
  triple P (applyManifestAndWaitCompleteThen o app paths (fun manifest => record (f manifest)) doApply) (fun _ => any).
Proof.
  intros Hg HR Hs Ht. unfold applyManifestAndWaitCompleteThen, ApplyAndWait, LoadResource, doApplyAndWait, before, flags_for. cbn [BeforeApply DoApply].
  rewrite andb_false_r. set (r := _ <$> _). eapply t_bind; [apply t_grow with (R := R (String r)); auto|]. intros []. destruct doApply.
  - eapply t_weaken; [apply t_each|done|done]. intros m s [_ Hm]%list_elem_of_filter Hgood Hab.
    apply t_effect with (R := R (String r)); [done|intros a ok Ha; by eapply Ht|done|done].
  - eapply t_weaken; [apply t_ret_about|done|done].
Qed.

(** Manifests that are recorded before they are applied. *)
Lemma t_Apply P files doApply kustomize :
  triple P (Apply files true (flags_for app doApply (fun manifest => record (fun a => with_Manifest a (Manifest a ++ manifest)))) kustomize) (fun _ => any).
Proof.
  unfold Apply, renderManifestAndThen. destruct (if bool_decide (kustomize = []) then _ else _) as [r ok]. rewrite andb_false_r.
  unfold GetResourceInfo. destruct (build_infos (String r)) as [infos ok'] eqn:Eb. rewrite orb_true_r.
  eapply t_bind; [apply t_ret|]. intros infos'. cbn beta.
  apply t_weaken with (P := fun s => infos' = infos) (Q := fun _ => any); [|by intros s [? _]|done].
  eapply t_bind with (R := fun _ s => infos' = infos /\ about (fun a => part_of (String r) (Manifest a)) s).
  - intros s Hgood ->. unfold before, flags_for. cbn [BeforeApply].
    destruct (t_grow any (fun a => with_Manifest a (Manifest a ++ String r)) (fun a => part_of (String r) (Manifest a)) (grows_Manifest _)) with (s := s) as [Hg HQ];
      [by intros []; apply part_end|by intros []|done|done|]. split; [done|]. intros x Hx. split; [done|]. by eapply HQ.
  - intros []. cbn [DoApply flags_for]. destruct doApply.
    + intros s Hgood [-> Hab]. destruct (t_each (fun a => part_of (String r) (Manifest a))
        (fun i => ApplyResourceInfo i (flags_for app true (fun manifest => record (fun a => with_Manifest a (Manifest a ++ manifest))))) infos) with (s := s) as [Hg _]; [|done|done|by split].
      intros i s' Hi Hg' Ha. apply t_effect; [done| |done|done]. intros a ok'' Hp. cbn. exists (String r). split; [done|]. by rewrite Eb.
    + intros s Hgood _. done.
Qed.

Lemma t_config P : triple P GetApplicationConfigV2 (fun _ => P).
Proof.
  eapply t_bind; [apply t_get_meta|]. intros a. destruct (AppMeta.Config a); [|apply t_crash].
  eapply t_weaken; [apply t_ret|by intros ? [_ ?]|by intros ? ? [_ ?]].
Qed.

Lemma t_first_dir P : triple P (first_dir app) (fun _ => P).
Proof. eapply t_bind; [apply t_config|]. intros c. eapply t_weaken; [apply t_ret|done|by intros ? ? [_ ?]]. Qed.

Lemma t_repo_chart P flags : triple P (repo_chart flags) (fun _ => P).
Proof.
  eapply t_bind; [apply t_get_meta|]. intros a.
  eapply t_bind with (R := fun _ => P); [|intros repo; eapply t_weaken; [apply t_ret|done|by intros ? ? [_ ?]]].
  intros s Hg [_ HP]. unfold findRepoNameFromLocal. destruct (colon_at _); by split.
Qed.

(** Helm commands other than install keep meta and secret. *)
Lemma t_helm_free R c params : c <> go "install" -> triple (about R) (exec_helm (c :: params)) (fun _ => about R).
Proof.
  intros Hc s Hg [Hs HR]. destruct (t_free (helm (c :: params)) (HelmRun (c :: params)) ErrHelm s) as (Hg' & Em & El); [done|done|].
  split; [done|]. intros x _. unfold about, synced, exec_helm. by rewrite Em, El.
Qed.

Lemma t_local_chart R params : triple (about R) (local_chart app params) (fun _ => about R).
Proof.
  eapply t_bind; [apply t_first_dir|]. intros dir. eapply t_bind; [by apply t_helm_free|]. intros ?.
  eapply t_weaken; [apply t_ret|done|by intros ? ? [_ ?]].
Qed.

Lemma t_installHelm flags fromRepo : triple (fun s => IsHelm (st_meta s) = true) (installHelm app flags fromRepo) (fun _ => any).
Proof.
  set (R := fun a => HelmReleaseName a = app_name app /\ IsHelm a = true).
  unfold installHelm. eapply t_bind with (R := fun _ s => IsHelm (st_meta s) = true).
  { apply t_attempt; intros s Hg Hs;
      destruct (t_free (helm [go "repo"; go "update"]) (HelmRun [go "repo"; go "update"]) ErrHelm s) as (Hg' & Em & _); try done.
    unfold exec_helm. by rewrite Em. }
  intros ?. eapply t_bind; [apply t_record with (R := R); [by intros s e _ _; apply grows_Helm|by intros [[]]|by intros []]|].
  intros ?. eapply t_bind with (R := fun _ => about R).
  { destruct fromRepo; [apply t_repo_chart|]. eapply t_bind; [apply t_local_chart|]. intros dir.
    eapply t_weaken; [apply t_ret|done|by intros ? ? [_ ?]]. }
  intros chart s Hg Hab. split; [|done]. apply (t_effect R); [done| |done|done]. intros a ok [Hn Hh] _. done.
Qed.

Lemma t_dep P letters : triple P (InstallDepConfigMap app letters) (fun _ => any).
Proof.
  eapply t_bind; [apply t_config|]. intros c. cbv zeta.
  match goal with |- triple _ (if ?b then _ else _) _ => destruct b end; [|eapply t_weaken; [apply t_ret|done|done]].
  eapply t_bind; [apply t_get_meta|]. intros a. destruct (marshal_dep _ _ _) as [y|]; [|apply t_fail].
  set (n := _ ++ go "-" ++ letters).
  eapply t_bind; [apply t_grow with (R := fun a => part_of n (DepConfigName a)); [apply grows_Dep|by intros []; apply part_end|by intros []]|].
  intros ? s Hg Hab. split; [|done]. by apply (t_effect (fun a => part_of n (DepConfigName a))).
Qed.

Lemma t_hook_get P (paths : ApplicationConfig -> list WeightablePath) fn doApply (Q : unit -> St -> Prop) :
  (forall ps, triple P (applyManifestAndWaitCompleteThen o app ps fn doApply) Q) ->
  triple P (bind get_meta (fun a => applyManifestAndWaitCompleteThen o app (paths (GetApplicationConfig a)) fn doApply)) Q.
Proof. intros Hl. eapply t_bind; [apply t_get_meta|]. intros a. eapply t_weaken; [apply Hl|by intros ? [_ ?]|done]. Qed.

Lemma t_PreInstallHook P : triple P (PreInstallHook o app) (fun _ => any).
Proof.
  apply t_hook_get. intros l. apply (t_hook P l _ (fun text a => part_of text (PreInstallManifest a))).
  - apply grows_PreInstall.
  - intros text []. apply part_end.
  - by intros text [].
  - intros _ r m a ok Hm Hp. exists r. auto.
Qed.

Lemma t_PostInstallHook P : triple P (PostInstallHook o app) (fun _ => any).
Proof.
  apply t_hook_get. intros l. apply (t_hook P l _ (fun text a => part_of text (PostInstallManifest a))).
  - apply grows_PostInstall.
  - intros text []. apply part_end.
  - by intros text [].
  - intros _ r m a ok Hm Hp. exists r. auto.
Qed.

Lemma t_PreDelete P : triple P (PrepareForPreDeleteHook o app) (fun _ => any).
Proof. apply t_hook_get. intros l. by apply (t_hook P l (fun m a => with_PreDelete a m) (fun _ _ => True)); [apply grows_PreDelete|..]. Qed.

Lemma t_PostDelete P : triple P (PrepareForPostDeleteHook o app) (fun _ => any).
Proof. apply t_hook_get. intros l. by apply (t_hook P l (fun m a => with_PostDelete a m) (fun _ _ => True)); [apply grows_PostDelete|..]. Qed.

Lemma t_seq {A B : Type} P (c1 : M A) (c2 : M B) Q : (triple P c1 (fun _ => any)) -> triple any c2 Q -> triple P (bind c1 (fun _ => c2)) Q.
Proof. intros H1' H2'. eapply t_bind; [exact H1'|]. intros ?. exact H2'. Qed.

Lemma t_Install letters flags :
  triple any (app_Install o app letters flags) (fun _ => about (fun a => ApplicationState a = INSTALLED)).
Proof.
  unfold app_Install. apply t_seq; [apply t_dep|]. eapply t_bind; [apply t_get_meta|]. intros a.
  eapply t_weaken with (P := fun s => a = st_meta s); [|by intros s [? _]|intros x s Hx; exact Hx]. apply t_seq.
  - destruct (local_helm_type _) eqn:El; [|destruct (bool_decide _) eqn:Er].
    1, 2: eapply t_weaken; [apply t_installHelm| |done]; intros s ->; unfold IsHelm, IsHelmType, local_helm_type in *;
      rewrite ?orb_true_iff, ?bool_decide_eq_true in *; naive_solver.
    destruct (manifest_type _).
    { apply t_seq; [apply t_PreInstallHook|]. apply t_seq; [|apply t_PostInstallHook].
      eapply t_bind; [apply t_get_meta|]. intros a'. apply t_Apply. }
    destruct (kustomize_type _); [|apply t_fail].
    apply t_seq; [apply t_PreInstallHook|]. apply t_seq; [|apply t_PostInstallHook]. eapply t_bind; [apply t_first_dir|]. intros dir. apply t_Apply.
  - apply t_seq; [apply t_PreDelete|]. apply t_seq; [apply t_PostDelete|].
    eapply t_bind; [apply t_grow with (R := fun a => ApplicationState a = INSTALLED); [apply grows_State|by intros []|by intros []]|].
    intros ?. unfold CleanUpTmpResources. destruct (shouldClean app); [destruct (remove_all _); [|apply t_fail]|]; apply t_ret_about.
Qed.

Lemma good_start a w : good (mkSt a w []).
Proof.
  split; [by intros e ?%elem_of_nil|]. intros l1 l2 E e He. symmetry in E. apply app_nil in E as [-> _]. by apply elem_of_nil in He.
Qed.

Lemma install_safe letters flags a w : safe (st_log (fst (app_Install o app letters flags (mkSt a w [])))).
Proof. by apply (t_Install letters flags (mkSt a w []) (good_start a w)). Qed.

(** C4: At every point of an installation of any kind, whatever fails on the way, the
    secret last written accounts for all that was done to the cluster so far: each
    object that was applied is in the manifest it keeps, each object a hook created
    in that of the hook, the config map of the dependencies is named in it and a
    helm release is the one it names.  If the installation succeeds, the secret last
    written says that the application is installed. *)
Theorem install_accounted letters flags a w :
  let r := app_Install o app letters flags (mkSt a w []) in
  safe (st_log (fst r)) /\
  (snd r = Val tt -> exists a', last_recorded (st_log (fst r)) = Some a' /\ ApplicationState a' = INSTALLED).
Proof.
  intros r. split; [apply install_safe|]. intros Hr.
  destruct (t_Install letters flags (mkSt a w []) (good_start a w) I) as [_ HQ]. destruct (HQ tt Hr) as [Hsync HR]. eauto.
Qed.
End accounts.

(** ** Uninstalling what was installed *)

Section uninstall.
Context `{!Xz} `{!MetaYaml NocalHostAppConfigV2} `{!Api} `{!Installer} `{!GoSort} `{!MapOrder gostring}.
Context (o : OS) (app : Application).
Implicit Types (a : AppMetaV2) (w : world) (act : AppMeta.action).

Lemma in_should act act' w : act ∈ trace w \/ act = act' -> act ∈ trace (should act' w).
Proof.
  unfold should, do_. destruct (api_do _ _) as [c ok]. cbn. intros [Hin| ->]; apply elem_of_app; [by left|right; left].
Qed.

Lemma in_do act act' w w' ok : do_ act' w = (w', ok) -> act ∈ trace w \/ act = act' -> act ∈ trace w'.
Proof. intros E. pose proof (in_should act act' w) as Hs. unfold should in Hs. by rewrite E in Hs. Qed.

Lemma in_hook act a m w w' ok : hook a m w = (w', ok) -> act ∈ trace w -> act ∈ trace w'.
Proof. unfold hook. case_bool_decide; [|by intros [= <- <-]]. intros E Hin. eapply in_do; [exact E|by left]. Qed.

Lemma cleanUp_meta a w a' w' r : cleanUpDepConfigMap a w = (a', w', r) -> a' = a \/ a' = with_DepConfigName a [].
Proof. unfold cleanUpDepConfigMap. intros E. repeat case_match; simplify_eq; auto. Qed.

(** What uninstalling asks of the cluster once the pre-delete hook has run. *)
Definition asked a act : Prop :=
  act ∈ [CleanHookManifest (PreInstallManifest a); CleanHookManifest (PostInstallManifest a); CleanAppManifest (Manifest a)] \/
  (IsHelm a = true /\ act = HelmUninstall (helm_params a)).

Lemma Uninstall_asks now force a w a' w' r act :
  Uninstall now force a w = (a', w', r) -> snd (hook a (PreDeleteManifest a) w) = true -> asked a act -> act ∈ trace w'.
Proof.
  unfold Uninstall. intros E Hh Ha. destruct (hook a (PreDeleteManifest a) w) as [w0 ok0]. cbn in Hh. subst ok0.
  destruct (cleanUpDepConfigMap a w0) as [[a1 w1] r1] eqn:Hc. apply cleanUp_meta in Hc.
  assert (asked a1 act) as Ha1 by (destruct Hc as [->| ->]; [done|by destruct a]). clear Ha Hc.
  set (w2 := should (CleanAppManifest _) _) in E.
  assert (act ∈ trace w2 \/ (IsHelm a1 = true /\ act = HelmUninstall (helm_params a1))) as Hw2.
  { destruct Ha1 as [Hin|Ha1]; [left|by right]. unfold w2.
    repeat (apply elem_of_cons in Hin as [->|Hin]; [repeat (apply in_should; (by right) || left); fail|]).
    by apply elem_of_nil in Hin. }
  destruct (if IsHelm a1 then _ else _) as [w3 ok3] eqn:E3.
  assert (act ∈ trace w3) as Hw3.
  { destruct (IsHelm a1); [|simplify_eq; destruct Hw2 as [?|[? _]]; done]. eapply in_do; [exact E3|]. naive_solver. }
  destruct (negb ok3 && negb force); [by simplify_eq|].
  destruct (Delete now a1 _) as [[a4 w4] [[]|err]] eqn:Ed; unfold Delete in Ed; apply Update_trace in Ed.
  - assert (act ∈ trace w4) as Hw4 by (rewrite Ed; apply in_should; by left).
    destruct (hook a4 _ w4) as [w5 []] eqn:E5; simplify_eq; [apply in_should; left|]; by eapply in_hook.
  - simplify_eq. rewrite Ed. apply in_should. by left.
Qed.

(** What becomes of an effect of the installation when uninstalling. *)
Definition cleaned (t : list AppMeta.action) (e : effect) : Prop :=
  match e with
  | Applied i _ => exists m text, CleanAppManifest m ∈ t /\ part_of text m /\ i ∈ fst (build_infos text)
  | Created m _ => exists h (r : Resource), CleanHookManifest h ∈ t /\ m ∈ r /\ part_of (String r) h
  | HelmRun (c :: release :: _) _ =>
      c = go "install" -> exists ps, HelmUninstall ([go "uninstall"; release] ++ ps) ∈ t
  | _ => True
  end.

(** C5: Uninstalling takes back what installing did, also when the installation was
    broken off.  For an application with a name, and with the secret that was written
    last: if the pre-delete hook succeeds when uninstalling, then every object that
    was applied is in the manifest that is cleaned, every object a hook created in one
    of the hooks' manifests that are cleaned, and helm is asked to uninstall the
    release that was installed.  A failing pre-delete hook stops the uninstall before
    that; the config map of the dependencies is not part of the claim. *)
Theorem uninstall_cleans_installed letters flags a w now force a1 w2 :
  let log := st_log (fst (app_Install o app letters flags (mkSt a w []))) in
  app_name app <> [] -> last_recorded log = Some a1 -> snd (hook a1 (PreDeleteManifest a1) w2) = true ->
  forall e, e ∈ log -> cleaned (trace (snd (fst (Uninstall now force a1 w2)))) e.
Proof.
  intros log Hname Hlast Hh e He. destruct (Uninstall now force a1 w2) as [[a' w'] r] eqn:E. cbn [fst snd].
  pose proof (fun act => Uninstall_asks now force a1 w2 a' w' r act E Hh) as Hask. clear E.
  pose proof (install_safe o app letters flags a w log [] (eq_sym (app_nil_r _)) e He) as Ht. rewrite Hlast in Ht.
  destruct e as [| i ok | | m ok | |[|c [|release ps]] ok]; cbn in Ht |- *; try done.
  - destruct Ht as (? & [= <-] & text & Hp & Hi). exists (Manifest a1), text. split; [|done]. apply Hask. left. set_solver.
  - destruct Ht as (? & [= <-] & rs & Hm & [Hp|Hp]); [exists (PreInstallManifest a1), rs|exists (PostInstallManifest a1), rs];
      (split; [|done]); apply Hask; left; set_solver.
  - intros Hc. destruct (Ht Hc) as (? & [= <-] & Hx). destruct (Hx Hc) as (Hr & Hrel & Hhelm). rewrite <- Hr, <- Hrel in Hname. rewrite <- Hrel.
    exists ((if bool_decide (MetaNs a1 <> []) then [go "--namespace"; MetaNs a1] else []) ++
            (if bool_decide (kubeconfig_path <> []) then [go "--kubeconfig"; kubeconfig_path] else [])).
    apply Hask. right. split; [done|]. unfold helm_params. by rewrite (bool_decide_eq_true_2 (HelmReleaseName a1 <> [])).
Qed.
End uninstall.

(** ** Upgrading *)

Section upgrade.
Context `{!Xz} `{!MetaYaml NocalHostAppConfigV2} `{!Api} `{!Installer} (app : Application).
Implicit Types (s : St) (i : Info) (old new : list Info).

(** A manifest names an object if it has one of the same name and kind. *)
Definition named i l : Prop := Exists (fun x => info_Name x = info_Name i /\ info_Kind x = info_Kind i) l.

#[local] Instance named_dec i l : Decision (named i l).
Proof. unfold named. apply _. Defined.

Lemma contained i l : isContainsInfo i l = true <-> named i l.
Proof.
  unfold isContainsInfo, same_info, named. rewrite existsb_exists, Exists_exists.
  setoid_rewrite andb_true_iff. setoid_rewrite bool_decide_eq_true. by setoid_rewrite list_elem_of_In.
Qed.

Lemma not_contained i l : isContainsInfo i l = false <-> ~ named i l.
Proof. rewrite <- contained. by destruct (isContainsInfo i l). Qed.

(** The cluster after calls made in turn, whatever they answer. *)
Definition after (run : Info -> AppMeta.cluster -> AppMeta.cluster * bool) (xs : list Info) (c : AppMeta.cluster) : AppMeta.cluster :=
  foldl (fun c i => fst (run i c)) c xs.

(** Calls whose errors are ignored: all are made, in order. *)
Lemma each_runs (run : Info -> AppMeta.cluster -> AppMeta.cluster * bool) (e : Info -> bool -> effect) (err : apperr) (xs : list Info) s :
  exists s' oks, each true (fun i => on_cluster (run i) (e i) err) xs s = (s', Val tt) /\
    st_meta s' = st_meta s /\ length oks = length xs /\ st_log s' = st_log s ++ zip_with e xs oks /\
    cl (st_world s') = after run xs (cl (st_world s)).
Proof.
  revert s. induction xs as [|x xs IH]; intros s.
  { exists s, []. cbn. by rewrite app_nil_r. }
  destruct (run x (cl (st_world s))) as [c ok] eqn:Er.
  set (s1 := mkSt (st_meta s) (with_cl (st_world s) c) (st_log s ++ [e x ok])).
  assert (on_cluster (run x) (e x) err s = (s1, if ok then Val tt else Fail err)) as E1
    by (unfold on_cluster; rewrite Er; by destruct ok).
  cbn [each]. unfold bind, attempt. rewrite E1.
  destruct (IH s1) as (s' & oks & E & Hm & Hl & Hlog & Hc). exists s', (ok :: oks).
  split; [by destruct ok; rewrite E|]. split; [done|]. split; [cbn; by rewrite Hl|]. split.
  - rewrite Hlog. cbn. by rewrite <- app_assoc.
  - rewrite Hc. cbn. by rewrite Er.
Qed.

Lemma split_new old new : filter (fun i => ~ named i old) new ++ filter (fun i => named i old) new ≡ₚ new.
Proof.
  induction new as [|i new IH]; [done|]. destruct (decide (named i old)) as [Hn|Hn].
  - rewrite filter_cons_False by tauto. rewrite (filter_cons_True (fun i => named i old)) by done.
    by rewrite <- Permutation_middle, IH.
  - rewrite filter_cons_True by done. rewrite (filter_cons_False (fun i => named i old)) by done. cbn. by rewrite IH.
Qed.

(** C19: An upgrade from one manifest to another deletes exactly the objects of the old
    manifest whose name and kind no object of the new one has, then applies the
    objects of the new one that the old one did not name, then those it did, in the
    order of the manifests.  Every object of the new manifest is applied, as often as
    the manifest has it, with the labels and annotations of the application, and no
    object whose name and kind is applied is deleted.  All these calls are made, and
    the upgrade succeeds, whatever they answer: the cluster is left as the calls, in
    this order, leave it. *)
Theorem upgrade_replaces old new s :
  let gone := filter (fun i => ~ named i new) old in
  let fresh := filter (fun i => ~ named i old) new in
  let changed := filter (fun i => named i old) new in
  let apply i := apply_info i (StandardNocalhostMetas (app_name app) (NameSpace app)) in
  fresh ++ changed ≡ₚ new /\
  exists s' d c u, upgradeInfos app old new true s = (s', Val tt) /\ st_meta s' = st_meta s /\
    length d = length gone /\ length c = length fresh /\ length u = length changed /\
    st_log s' = st_log s ++ zip_with DeletedInfo gone d ++ zip_with Applied fresh c ++ zip_with Applied changed u /\
    cl (st_world s') = after apply (fresh ++ changed) (after delete_info gone (cl (st_world s))).
Proof.
  intros gone fresh changed apply. split; [apply split_new|]. unfold upgradeInfos.
  assert (filter (fun i => isContainsInfo i new = false) old = gone) as -> by (apply list_filter_iff; intros; apply not_contained).
  assert (filter (fun i => isContainsInfo i old = false) new = fresh) as -> by (apply list_filter_iff; intros; apply not_contained).
  assert (filter (fun i => isContainsInfo i old = true) new = changed) as -> by (apply list_filter_iff; intros; apply contained).
  destruct (each_runs delete_info DeletedInfo ErrDelete gone s) as (s1 & d & E1 & Hm1 & Hl1 & Hlog1 & Hc1).
  destruct (each_runs apply Applied ErrApply fresh s1) as (s2 & c & E2 & Hm2 & Hl2 & Hlog2 & Hc2).
  destruct (each_runs apply Applied ErrApply changed s2) as (s3 & u & E3 & Hm3 & Hl3 & Hlog3 & Hc3).
  exists s3, d, c, u. split.
  { unfold bind, DeleteResourceInfo, ApplyResourceInfo. cbn [fl_Metas]. unfold apply in E2, E3. rewrite E1, E2. exact E3. }
  split; [congruence|]. do 3 (split; [done|]). split; [by rewrite Hlog3, Hlog2, Hlog1, <- !app_assoc|].
  rewrite Hc3, Hc2, Hc1. unfold after. by rewrite foldl_app.
Qed.

(** An object that the new manifest has in another namespace stays where it was. *)
Theorem moved_object_stays i ns s :
  ns <> info_Namespace i ->
  let i' := mkResInfo (info_Name i) ns (info_Kind i) (info_rest i) in
  exists s', upgradeInfos app [i] [i'] true s = (s', Val tt) /\ (forall e, e ∈ st_log s' -> e ∈ st_log s \/ exists ok, e = Applied i' ok).
Proof.
  intros Hns i'. unfold upgradeInfos.
  assert (same_info i' i = true /\ same_info i i' = true) as [E1 E2] by (unfold same_info; split; by rewrite !bool_decide_eq_true_2).
  assert (filter (fun x => isContainsInfo x [i'] = false) [i] = []) as ->.
  { apply filter_none. intros x ->%list_elem_of_singleton. cbn. by rewrite E1. }
  assert (filter (fun x => isContainsInfo x [i] = false) [i'] = []) as ->.
  { apply filter_none. intros x ->%list_elem_of_singleton. cbn. by rewrite E2. }
  assert (filter (fun x => isContainsInfo x [i] = true) [i'] = [i']) as ->.
  { apply filter_all. intros x ->%list_elem_of_singleton. cbn. by rewrite E2. }
  destruct s as [a w l]. unfold bind. cbn. unfold bind, attempt, ApplyResourceInfo, on_cluster. cbn.
  destruct (apply_info _ _ _) as [c []]; cbn; (eexists; split; [done|]); cbn;
    intros e [?| ->%list_elem_of_singleton]%elem_of_app; eauto.
Qed.
End upgrade.

(** ** The files of a manifest *)

Section manifests.

(** Induction on a tree of files with the hypothesis for every entry. *)
Lemma fsnode_nested_ind (P : fsnode -> Prop) :
  P File -> P UnreadableDir -> (forall entries, (forall name fi, (name, fi) ∈ entries -> P fi) -> P (Dir entries)) -> forall n, P n.
Proof.
  intros Hf Hu Hd. fix IH 1. intros [|entries|]; [exact Hf| |exact Hu]. apply Hd. induction entries as [|[name fi] l IHl].
  - intros name fi []%elem_of_nil.
  - intros name' fi' [E|Hin]%elem_of_cons; [|by eapply IHl]. injection E as -> ->. apply IH.
Qed.

(** The files below a path that a manifest is made of: the path itself if it is a
    file, and below a directory the YAML files that can be reached without passing an
    ignored path. *)
Inductive reached (ign : list gostring) : gostring -> fsnode -> gostring -> Prop :=
  | reached_file path : reached ign path File path
  | reached_yaml path entries name :
      (name, File) ∈ entries -> path_join path name ∉ ign -> is_yaml name = true -> reached ign path (Dir entries) (path_join path name)
  | reached_below path entries name fi file :
      (name, fi) ∈ entries -> path_join path name ∉ ign -> fi <> File -> reached ign (path_join path name) fi file ->
      reached ign path (Dir entries) file.

(** A directory that cannot be read is met without passing an ignored path. *)
Inductive blocked (ign : list gostring) : gostring -> fsnode -> Prop :=
  | blocked_here path : blocked ign path UnreadableDir
  | blocked_below path entries name fi :
      (name, fi) ∈ entries -> path_join path name ∉ ign -> blocked ign (path_join path name) fi -> blocked ign path (Dir entries).

Lemma ignored_spec p ign : isFileIgnored p ign = true <-> p ∈ ign.
Proof.
  unfold isFileIgnored. rewrite existsb_exists. split.
  - intros (x & Hx & <-%bool_decide_eq_true_1). by apply list_elem_of_In.
  - intros Hp. exists p. rewrite <- list_elem_of_In. split; [done|]. by apply bool_decide_eq_true_2.
Qed.

Lemma reached_nil ign path f : ~ reached ign path (Dir []) f.
Proof. inversion 1 as [|? ? ? Hin|? ? ? ? ? Hin]; subst; by apply elem_of_nil in Hin. Qed.

Lemma reached_cons ign path name fi entries f :
  reached ign path (Dir ((name, fi) :: entries)) f <->
  (path_join path name ∉ ign /\
   ((fi = File /\ is_yaml name = true /\ f = path_join path name) \/ (fi <> File /\ reached ign (path_join path name) fi f))) \/
  reached ign path (Dir entries) f.
Proof.
  split.
  - inversion 1 as [|? ? name' Hin Hi Hy|? ? name' fi' ? Hin Hi Hne Hr]; subst; apply elem_of_cons in Hin as [E|Hin].
    + injection E as -> <-. left. auto.
    + right. by apply reached_yaml.
    + injection E as -> ->. left. auto.
    + right. by eapply reached_below.
  - intros [[Hi [(-> & Hy & ->)|[Hne Hr]]]|Hr].
    + apply reached_yaml; [left|done..].
    + eapply reached_below; [left|done..].
    + inversion Hr as [|? ? name' Hin Hi' Hy|? ? name' fi' ? Hin Hi' Hne Hr']; subst;
        [apply reached_yaml; [by right|done..]|eapply reached_below; [by right|done..]].
Qed.

(** The loop of [yaml_entries] over the entries of a directory. *)
Definition entry_loop (ign : list gostring) (path : gostring) :=
  fix go_on (l : list (gostring * fsnode)) (files dirs : list gostring) : option (list gostring * list gostring) :=
    match l with
    | [] => Some (files, dirs)
    | (name, fi) :: l =>
        let fPath := path_join path name in
        if isFileIgnored fPath ign then go_on l files dirs
        else
          match fi with
          | File => go_on l (if is_yaml name then files ++ [fPath] else files) dirs
          | _ =>
              match yaml_entries ign fPath fi with
              | Some (fs, ds) => go_on l (files ++ fs) ((dirs ++ [fPath]) ++ ds)
              | None => None
              end
          end
    end.

Lemma yaml_entries_Dir ign path entries : yaml_entries ign path (Dir entries) = entry_loop ign path entries [] [].
Proof. reflexivity. Qed.

Definition exact_below (ign : list gostring) (n : fsnode) : Prop :=
  forall path files dirs, yaml_entries ign path n = Some (files, dirs) -> forall f, f ∈ files <-> reached ign path n f.

Lemma entry_loop_exact ign path l files0 dirs0 files dirs :
  (forall name fi, (name, fi) ∈ l -> exact_below ign fi) -> entry_loop ign path l files0 dirs0 = Some (files, dirs) ->
  forall f, f ∈ files <-> f ∈ files0 \/ reached ign path (Dir l) f.
Proof.
  revert files0 dirs0. induction l as [|[name fi] l IH]; intros files0 dirs0 Hl E f.
  { injection E as -> ->. pose proof (reached_nil ign path f). naive_solver. }
  rewrite reached_cons. cbn [entry_loop] in E. fold (entry_loop ign path) in E.
  assert (forall name fi, (name, fi) ∈ l -> exact_below ign fi) as Hl' by (intros; eapply Hl; right; eauto).
  destruct (isFileIgnored (path_join path name) ign) eqn:Ei.
  { apply ignored_spec in Ei. rewrite (IH _ _ Hl' E f). naive_solver. }
  assert (path_join path name ∉ ign) as Hni by (intros Hin%ignored_spec; congruence).
  assert (fi = File \/ fi <> File) as [->|Hne] by (destruct fi; auto).
  - rewrite (IH _ _ Hl' E f). destruct (is_yaml name); [rewrite elem_of_app, list_elem_of_singleton|]; naive_solver.
  - assert (exists fs ds, yaml_entries ign (path_join path name) fi = Some (fs, ds) /\
      entry_loop ign path l (files0 ++ fs) ((dirs0 ++ [path_join path name]) ++ ds) = Some (files, dirs)) as (fs & ds & E1 & E2).
    { destruct fi; [done|..]; destruct (yaml_entries ign _ _) as [[fs ds]|]; eauto; done. }
    rewrite (IH _ _ Hl' E2 f), elem_of_app. rewrite (Hl name fi (list_elem_of_here _ _) _ _ _ E1 f). naive_solver.
Qed.

Lemma yaml_entries_exact ign n : exact_below ign n.
Proof.
  induction n as [| |entries IH] using fsnode_nested_ind; intros path files dirs E f.
  - injection E as <- <-. rewrite list_elem_of_singleton. split; [intros ->; constructor|by inversion 1].
  - done.
  - rewrite yaml_entries_Dir in E. rewrite (entry_loop_exact ign path entries [] [] files dirs IH E f). rewrite elem_of_nil. tauto.
Qed.

(** Reading stops exactly at such a directory. *)
Definition stops_below (ign : list gostring) (n : fsnode) : Prop :=
  forall path, yaml_entries ign path n = None <-> blocked ign path n.

Lemma blocked_cons ign path name fi entries :
  blocked ign path (Dir ((name, fi) :: entries)) <->
  (path_join path name ∉ ign /\ blocked ign (path_join path name) fi) \/ blocked ign path (Dir entries).
Proof.
  split.
  - inversion 1 as [|? ? name' fi' Hin Hi Hb]; subst. apply elem_of_cons in Hin as [E|Hin]; [injection E as -> ->; auto|].
    right. by eapply blocked_below.
  - intros [[Hi Hb]|Hb]; [eapply blocked_below; [left|done..]|].
    inversion Hb as [|? ? name' fi' Hin Hi Hb']; subst. eapply blocked_below; [by right|done..].
Qed.

Lemma entry_loop_stops ign path l files dirs :
  (forall name fi, (name, fi) ∈ l -> stops_below ign fi) -> entry_loop ign path l files dirs = None <-> blocked ign path (Dir l).
Proof.
  revert files dirs. induction l as [|[name fi] l IH]; intros files dirs Hl.
  { split; [done|]. inversion 1 as [|? ? ? ? Hin]; subst. by apply elem_of_nil in Hin. }
  rewrite blocked_cons. cbn [entry_loop]. fold (entry_loop ign path).
  assert (forall name fi, (name, fi) ∈ l -> stops_below ign fi) as Hl' by (intros; eapply Hl; right; eauto).
  pose proof (Hl name fi (list_elem_of_here _ _) (path_join path name)) as Hfi.
  destruct (isFileIgnored (path_join path name) ign) eqn:Ei.
  { apply ignored_spec in Ei. rewrite (IH _ _ Hl'). naive_solver. }
  assert (path_join path name ∉ ign) as Hni by (intros Hin%ignored_spec; congruence).
  destruct fi; [rewrite (IH _ _ Hl'); cbn in Hfi; naive_solver|..];
    destruct (yaml_entries ign _ _) as [[fs ds]|]; rewrite ?(IH _ _ Hl'); naive_solver.
Qed.

Lemma yaml_entries_stops ign n : stops_below ign n.
Proof.
  induction n as [| |entries IH] using fsnode_nested_ind; intros path.
  - split; [done|by inversion 1].
  - split; [constructor|done].
  - rewrite yaml_entries_Dir. by apply entry_loop_stops.
Qed.

Lemma reached_not_ignored ign path n f : path ∉ ign -> reached ign path n f -> f ∉ ign.
Proof. intros Hp Hr. induction Hr; auto. Qed.

(** C20: A manifest is made of exactly the existing files that its resource paths lead
    to: a path that is a file itself, and below a directory every YAML file that can
    be reached without passing an ignored path; so that no hook and no ignored file is
    ever part of it.  A path from which a directory that cannot be read is reached in
    this way gives nothing. *)
Theorem manifest_files `{!Api} `{!Installer} (paths ign : list gostring) f :
  f ∈ LoadValidManifest paths ign <->
  f ∉ ign /\ is_Some (stat f) /\
  exists p n, p ∈ paths /\ p ∉ ign /\ stat p = Some n /\ ~ blocked ign p n /\ reached ign p n f.
Proof.
  unfold LoadValidManifest, GetYamlFilesAndDirs. rewrite list_elem_of_bind. split.
  - intros (p & Hf & Hp). destruct (isFileIgnored p ign) eqn:Ei; [by apply elem_of_nil in Hf|].
    assert (p ∉ ign) as Hni by (intros Hin%ignored_spec; congruence).
    destruct (stat p) as [n|] eqn:Es; cbn [mbind option_bind] in Hf; [|by apply elem_of_nil in Hf].
    destruct (yaml_entries ign p n) as [[files dirs]|] eqn:Ey; [|by apply elem_of_nil in Hf].
    apply list_elem_of_bind in Hf as (x & Hx & Hin). unfold exists_path in Hx. case_bool_decide as Hst; [|by apply elem_of_nil in Hx].
    apply list_elem_of_singleton in Hx as ->. apply (yaml_entries_exact ign n p files dirs Ey) in Hin.
    split; [by eapply reached_not_ignored|]. split; [done|]. exists p, n. rewrite <- (yaml_entries_stops ign n p), Ey. eauto 10.
  - intros (Hf & Hst & p & n & Hp & Hni & Es & Hb & Hr). exists p. split; [|done].
    destruct (isFileIgnored p ign) eqn:Ei; [by apply ignored_spec in Ei|]. rewrite Es. cbn [mbind option_bind].
    destruct (yaml_entries ign p n) as [[files dirs]|] eqn:Ey; [|by apply yaml_entries_stops in Ey].
    apply list_elem_of_bind. exists f. split; [|by apply (yaml_entries_exact ign n p files dirs Ey)].
    unfold exists_path. rewrite bool_decide_eq_true_2 by done. left.
Qed.
End manifests.

(** ** A concrete installer *)

Definition demo_config_yaml : MetaYaml NocalHostAppConfigV2 :=
  {| config_zero := mkConfig [] [] false empty_config; config_migrated := mkConfig [] [] true empty_config;
     yaml_config := fun _ => []; unyaml_config := fun _ c => (c, true);
     yaml_devmeta := fun d => to_text (default ∅ d); unyaml_devmeta := of_text |}.

Definition key (i : Info) : gostring * gostring * gostring := (info_Namespace i, info_Kind i, info_Name i).
Abbreviation Objects := (gmap (gostring * gostring * gostring) Info).

(** A cluster that takes secrets and objects, or refuses either. *)
Record demo_cluster := mkDemo {
  takes_secrets : bool;
  takes_objects : bool;
  demo_objects : Objects
}.

Definition install_api : Api :=
  {| AppMeta.cluster := demo_cluster;
     api_get := fun _ _ _ => (None, Some IsNotFound);
     api_update := fun _ s c => (c, if takes_secrets c then Ok s else Err Conflict);
     api_create := fun _ s c => (c, if takes_secrets c then Ok s else Err Conflict);
     api_do := fun _ c => (c, true);
     api_configmaps := fun _ => Some [];
     daemon_up := fun _ => true;
     kubeconfig_path := go "/kube" |}.

(** A file holds one object, named by its path. *)
Definition demo_installer : Installer (H := install_api) :=
  {| stat := fun p =>
       if bool_decide (p = go "/t/m") then Some (Dir [(go "a.yaml", File); (go "pre.yaml", File); (go "readme", File)])
       else if bool_decide (p = go "/t/m/a.yaml") || bool_decide (p = go "/t/m/pre.yaml") then Some File else None;
     decode_docs := fun p => ([p], true);
     kustomize_build := fun _ => None;
     build_infos := fun text => ([mkResInfo text (go "ns") (go "Deployment") []], true);
     marshal_dep := fun _ _ _ => None;
     apply_info := fun i _ (c : @AppMeta.cluster install_api) =>
       if takes_objects c then (mkDemo (takes_secrets c) true (<[key i := i]> (demo_objects c)), true) else (c, false);
     delete_info := fun i (c : @AppMeta.cluster install_api) =>
       if takes_objects c then (mkDemo (takes_secrets c) true (delete (key i) (demo_objects c)), true) else (c, false);
     create_object := fun _ _ (c : @AppMeta.cluster install_api) => (c, takes_objects c);
     create_configmap := fun _ _ _ _ c => (c, true);
     helm := fun _ c => (c, true);
     helm_repos := fun _ => Some [];
     remove_all := fun _ => true |}.

#[local] Existing Instances demo_xz demo_config_yaml install_api demo_installer.

Definition demo_app : Application := mkApp (go "shop") (go "ns") (go "/kube") (go "/t") true.
Definition demo_hflags : HelmFlags := mkHelmFlags false false [] [] [] [] [] [].

(** One directory of resources, of which one file is a hook. *)
Definition demo_app_config : ApplicationConfig :=
  mkAppConfig (go "shop") AppType.Manifest [go "m"] [] [mkWeightable (go "m/pre.yaml") (go "1")] [] [] [] [] [] [] [] [] [] [].

Definition demo_meta (manifest : gostring) : AppMetaV2 :=
  mkMeta (go "shop") [] (go "ns") AppType.Manifest INSTALLING [] [] [] [] [] [] [] manifest 0 None
    (Some (mkConfig [] [] true demo_app_config)) (Some (mkSecret (go "shop") (go "ns") [] 1 (Some ∅))) [].

Definition demo_start (secrets objects : bool) (manifest : gostring) : St :=
  mkSt (demo_meta manifest) (mkWorld _ (mkDemo secrets objects ∅) [] []) [].

Definition demo_install (secrets objects : bool) : St * ans unit :=
  app_Install os_demo demo_app (go "abcd") demo_hflags (demo_start secrets objects []).

Definition demo_recorded : AppMetaV2 := default (demo_meta []) (last_recorded (st_log (fst (demo_install true true)))).

Definition demo_file (p : gostring) : gostring := go "---" ++ nl ++ p ++ nl.
Definition demo_info (p : gostring) : Info := mkResInfo (demo_file p) (go "ns") (go "Deployment") [].

Lemma uninstall_cleans_installed_witness :
  st_log (fst (demo_install true true)) !! 3%nat = Some (Applied (demo_info (go "/t/m/a.yaml")) true) /\
  forall e, e ∈ st_log (fst (demo_install true true)) ->
  cleaned (trace (snd (fst (Uninstall 0 false demo_recorded (st_world (fst (demo_install true true))))))) e.
Proof.
  split; [vm_compute; reflexivity|].
  apply (uninstall_cleans_installed os_demo demo_app (go "abcd") demo_hflags (demo_meta []) (st_world (demo_start true true [])) 0 false);
    [discriminate|vm_compute; reflexivity..].
Defined.

(** What failed in a log. *)
Definition failed (e : effect) : bool :=
  match e with Recorded _ => false | Applied _ ok | DeletedInfo _ ok | Created _ ok | ConfigMapCreated _ _ ok | HelmRun _ ok => negb ok end.

(** An installation of manifests succeeds, and is recorded as installed, although the
    cluster has refused every object. *)
Theorem install_hides_failures :
  snd (demo_install true false) = Val tt /\
  ApplicationState (st_meta (fst (demo_install true false))) = INSTALLED /\
  filter (fun e => failed e = true) (st_log (fst (demo_install true false))) =
    [Created (demo_file (go "/t/m/pre.yaml")) false; Applied (demo_info (go "/t/m/a.yaml")) false] /\
  demo_objects (cl (st_world (fst (demo_install true false)))) = ∅.
Proof. split; [|split; [|split]]; vm_compute; reflexivity. Qed.

(** An upgrade applies the new manifest before it is recorded: when the secret cannot
    be written, the new object is in the cluster and no secret was written that names
    it. *)
Theorem upgrade_untracked :
  let r := upgradeForManifest os_demo demo_app (demo_start false true (demo_file (go "old"))) in
  snd r <> Val tt /\ last_recorded (st_log (fst r)) = None /\
  demo_objects (cl (st_world (fst r))) !! key (demo_info (go "/t/m/a.yaml")) = Some (demo_info (go "/t/m/a.yaml")).
Proof. intros r. split; [vm_compute; discriminate|]. split; vm_compute; reflexivity. Qed.
